(* ===== verification/_CoqProject ===== *)
-Q . S2P
Prelude.v
PyBase.v
Json.v
Files.v
Jsonl.v
Granularity.v
Timeparse.v
Models.v
Sharing.v
Config.v
Policy.v
LedgerSchema.v
Announcements.v
Documents.v
Storage.v
AuditLog.v
Recovery.v
Transactions.v
ScheduleIndex.v
Availability.v
Placement.v
Search.v
Sha256.v
Requests.v
Maintenance.v
Safety.v
Jobs.v
JobRecovery.v
Violations.v
Booking.v
Cancel.v
Edit.v
Records.v
JobHistory.v
System.v
Gpu.v
Usage.v
LaunchGuard.v
LaunchSafety.v
JobSpecs.v
Process.v
Worker.v
Launch.v
RecoverJobs.v
WorkerLoop.v
LogPump.v
JobLogs.v
BrokerProtocol.v
BrokerJobs.v
