(* ===== verification/Prelude.v ===== *)
(** * GPUBK: a shared-GPU reservation scheduler

    This library models the core of the Python package [bk] ([src/src/bk/]), with
    which the users of one GPU server book GPUs, and proves what makes it correct.
    Statements are about the functions of the program as they are written, errors
    and order of effects included; every definition that stands for code keeps its
    name where Rocq allows it.

    ** How the program is put together

    A booking command builds a request ([models.py]), normalises it and runs a
    mutator inside a transaction of the ledger store ([scheduler.py],
    [storage.py]). The ledger is one JSON document, checked by [ledger_schema.py]
    on every load and before every write, with the policy of the server bound into
    it ([policy.py]). The mutator expires old reservations, looks up a replayed
    operation, searches a slot over an index of the active reservations
    ([schedule_index.py]) and returns the new ledger with audit records. The store
    writes a journal, applies it to the ledger file and the audit log ([jsonl.py]),
    and keeps a backup; a later process completes a journal that was left behind.

    A reservation may carry a command. The worker of its owner ([worker.py]) claims
    due commands in the ledger, asks the launch guard ([launch_guard.py], with the
    telemetry of [gpu.py] and the classification of [usage.py]) whether the GPUs are
    free, starts the commands, supervises them and records how they ended. What a
    lost worker left behind is ended by the recovery ([job_recovery.py]). The worker
    writes the ledger through the same transactions as the users.

    ** The files of the development, in dependency order

    - Prelude: notations, tactics and generic lemmas; sorting as Python's [sorted].
    - PyBase: Python's values: exceptions as [res], the state-and-error monad [M]
      over a clock and a source of uuids, text, floats, JSON values.
    - Json: [json.dumps] and [json.loads], with the round trip [loads_dumps] and
      [loads_prefix]: no proper prefix of a printed object is an object.
    - Files: the monad [F] of code on files, where any call may fail after partial
      progress or be the last of the process; its weakest precondition [wp].
    - Jsonl ([jsonl.py]): appending with repair and rollback, the backward read.
    - Granularity, Timeparse, Models, Sharing, Config, Policy: the modules of these
      names; slots, timestamps and durations, data, shares, limits, bound policy.
    - LedgerSchema ([ledger_schema.py]): the validator of documents and the readers
      that turn an accepted document into the record [ledger] of Models.
    - Announcements ([announcements.py]): messages of the administrator.
    - Documents: the validator does not see the order of members, so a ledger that
      was written is accepted when it is read back.
    - Storage ([storage.py]): the lock, loading with the fallback to backups, the
      journal, its application and recovery, [transaction], [load], [reset].
    - AuditLog, Recovery, Transactions: the meaning of the files of a store and the
      theorems about crashes.
    - ScheduleIndex ([schedule_index.py]), Availability, Placement, Search
      ([scheduler.py]): the index, the room of one GPU, the ranking of GPUs and the
      searches for the earliest and the nearest slot.
    - Sha256, Requests: operation signatures and what is checked before the ledger
      is read. Maintenance: expiry and retention.
    - Safety: the contract of the scheduler: a GPU is held by one exclusive
      reservation alone or by shared ones within its slots, at every instant.
    - Violations: the audit of a ledger, equivalent to that contract.
    - Booking, Cancel, Edit: [add_booking], [cancel_booking],
      [cancel_booking_as_admin], [edit_booking]; the closure that runs in the
      transaction is the definition [..._mutate].
    - Jobs ([worker.py]), JobRecovery ([job_recovery.py]): the transactions on the
      state of a job and the discovery of its process groups; each refines the
      relation [job_step] of what a worker may change.
    - Records: an interface ([RecordLaws]) for properties of single reservations
      that every write keeps. JobHistory: what the log says of a job. System: all
      writes (creations, edits, cancellations, job transactions, announcements) as
      one transition system.
    - Gpu ([gpu.py]), Usage ([usage.py]), LaunchGuard ([launch_guard.py]),
      LaunchSafety: telemetry, who uses a GPU, the decision whether a job may start,
      and what that decision promises about the ledger.
    - JobSpecs ([worker.py]): the private files that hold the commands: preparing,
      validating against the digest of the ledger, and cleaning up.
    - Process: the calls of a supervisor ([syscall]) on a host that answers as it
      likes ([Host]), the monad [W] that records them, and the rules to reason about
      runs. Worker, Launch, RecoverJobs, WorkerLoop: signals, supervision and
      shutdown; [_start_claimed_job]; [recover_abandoned_jobs]; [run_worker].
    - LogPump, JobLogs ([joblogs.py]): the rolling log that takes the output of a
      job, in a monad over [F] that keeps the state of the pump when it raises; the
      clean-up of old logs by retention and quota.
    - BrokerProtocol, BrokerJobs ([broker.py]): frames, requests and answers between
      a client and the service account that owns the ledger; the transactions on
      jobs that a client may make through it, and the rounds of the client.

    ** What the theorems show

    - Safety of the schedule: [no_double_booking], [reachable_invariant] and
      [reachable_audit_clean] over every sequence of calls from an empty ledger;
      [add_booking_preserves], [edit_booking_preserves] and the effects of the
      cancellations for one call; [violations_iff_unsafe] for the audit.
    - Each write: its result, whom it refuses, that a retry with the same operation
      id returns the same reservation and writes nothing (a queued one where the dates
      of its search exist).
    - The searches: the earliest slot is feasible and no earlier one is, and only a
      date that does not exist makes the search raise ([find_earliest_slot_optimal],
      [find_nearest_slot_optimal]); the index and the piecewise test equal their plain
      definitions ([overlapping_spec], [availability_pointwise]).
    - Documents: what the schema accepts reads as a well-formed ledger
      ([validated_ledger_ok]); timestamps and audit lines are read back.
    - The store: a transaction refines one step of the abstract store under any
      faults ([transaction_atomic]); on a sound host it completes
      ([transaction_completes]); recovery may be interrupted any number of times and
      then completes, with each audit record once ([recovery_completes]).
    - Logs and announcements: the chunked backward read is the split into lines
      ([read_tail_records]); announcements are an append-only history.

    - Jobs: a command is claimed at most once, and once more for each retry that was
      asked for ([claims_bounded]); a round of claiming ([claim_due_jobs_spec]); the
      guard ([launch_ready_iff]) and what an eligible job may count on
      ([eligible_job_alone]); the command that runs is the one that was booked
      ([prepare_job_spec_roundtrip], [digest_binds_command]).
    - Processes, on every host: one start ([start_claimed_job_spec]), one round of
      supervision ([reconcile_running_spec]), the two shutdowns, the recovery of
      abandoned jobs ([recover_abandoned_spec]), and of the whole worker that it
      leaves no child behind ([worker_leaves_no_child]).
    - Output of jobs: the rolling log stays within its limit whatever fails and
      otherwise holds the end of the output ([rolling_log_spec]); the clean-up keeps
      every log that may be needed ([cleanup_job_logs_safe]) and meets retention and
      quota ([cleanup_job_logs_bounds]).
    - The broker: a call over the socket is a call ([call_roundtrip]), made with the
      fields that were sent and the identity of the caller ([requests_roundtrip]); a
      client can change its own jobs only ([commit_own_job_safe]), and a transaction
      of a worker takes effect on the ledger it read ([patch_transaction_atomic]).

    ** Bounds and fuel

    Python's integers are [Z]; a [datetime] is the exact number of microseconds in
    UTC, and additions that leave the years 1 to 9999 raise: times of day, rounding of a
    queued start, window, candidates and horizon of the searches, ends of requests and
    edits ([date_in_range]; the text of the error is the one of a date, also where the
    addend itself would be too large). Roundings of the clock itself and the cutoff of
    the retention are taken to exist. Loops over data are structural. Fuel occurs where the code scans:
    a JSON text ([read_value], twice its length and one, enough by [loads_print] and
    independent of more by [read_fuel]), a log backwards ([_iter_lines_reverse], one
    round per byte left, enough by [iter_lines_lines], and its inner loop [drain], the
    pending bytes and one, enough by [drain_spec]) and a sorted list
    ([bisect_loop_spec]). The scans of [remove_all], [duration_tokens] and [blocks]
    have the length of their input as fuel and shorten it at every step; the digits of
    a file mode ([octal_digits]) are at most 22, and the shortest text of a float
    ([shortest_digits]) tries the 17 digits that always suffice. A loop that waits for
    a deadline pauses at least 50 ms in each round and so has a bound that depends on
    its time only ([rounds], enough by [runs_until]). The main loop of the worker may
    run for ever: its fuel counts rounds, and [worker_leaves_no_child] shows that
    nothing else uses it up. [receive_loop] reads a byte in each round and has the
    length of the frame as fuel; the rounds of [_patch_transaction] are the eight of
    the code.

    ** What is assumed

    Characters have code points 0 to 255. The local time zone ([LocalTime]) is a
    parameter of the texts shown to users. A uuid that will be drawn is not in use
    ([fresh_ids]). Data that reached a file survives the death of the process; the
    loss of cached writes in a power failure is not modelled, nor are directories,
    file modes and groups beyond a check that may fail. The lock excludes other
    writers. JSON nesting deeper than Python's recursion limit is not modelled.
    Of a host only this is assumed: the monotonic clock does not go back and a pause
    takes its time ([Clock]); which text of an [OSError] stands for which subclass is
    a parameter ([OsErrors]), and so is which error says that the ledger policy has
    changed. Time is in whole microseconds, also where the code has floats of
    seconds.

    ** What is not modelled

    Within the modelled files: friendly start texts ([timeparse.py]), reading of
    configuration files ([config.py]), the health report and the views of the audit
    log ([storage.py]), the NVML calls ([gpu.py]), the decayed history of the usage
    ([usage.py]), the messages of the worker ([worker.py]), the worker lease, the
    thread of the log pump and reading a log back ([joblogs.py]); the store that
    guards the policy is the call [Load] or [Lock] of the host, and the clean-up of
    specifications and logs, modelled by themselves, is one call each in the main
    loop.
    Left out: usage accounting and its files, the monitor, the broker's socket file
    and threads, remote nodes, the command line, terminal interface and
    administration, which are input, output and calls of the parts modelled here. *)

From stdpp Require Export base list gmap strings pretty sorting.
From Stdlib Require Export Ascii ZArith Lia.

(** ** Notations of the development *)

Declare Scope bk_scope.
Delimit Scope bk_scope with bk.
Open Scope Z_scope.
Open Scope bk_scope.

(** ** Automation *)

Create HintDb bk discriminated.
Create Rewrite HintDb bk.

Ltac Zify.zify_post_hook ::= Z.to_euclidean_division_equations.

(** Destruct every conjunction, existential and boolean test in the context. *)
Ltac bk_split :=
  repeat match goal with
  | H : _ ∧ _ |- _ => destruct H
  | H : ∃ _, _ |- _ => destruct H
  | H : andb _ _ = true |- _ => apply andb_true_iff in H
  | H : orb _ _ = false |- _ => apply orb_false_iff in H
  | H : negb _ = true |- _ => apply negb_true_iff in H
  | H : negb _ = false |- _ => apply negb_false_iff in H
  | H : (_ <? _)%Z = true |- _ => apply Z.ltb_lt in H
  | H : (_ <? _)%Z = false |- _ => apply Z.ltb_ge in H
  | H : (_ <=? _)%Z = true |- _ => apply Z.leb_le in H
  | H : (_ <=? _)%Z = false |- _ => apply Z.leb_gt in H
  | H : (_ =? _)%Z = true |- _ => apply Z.eqb_eq in H
  | H : (_ =? _)%Z = false |- _ => apply Z.eqb_neq in H
  | H : bool_decide _ = true |- _ => apply bool_decide_eq_true in H
  | H : bool_decide _ = false |- _ => apply bool_decide_eq_false in H
  end.

(** Prove a closed decidable proposition by evaluating its decision. *)
Ltac decide_now := apply (bool_decide_unpack _); vm_compute; exact I.

(** Membership in an explicit list. *)
Ltac in_list :=
  first [apply elem_of_cons; left; reflexivity | apply elem_of_cons; right; in_list].

(** ** Strings in code-point order *)

Lemma string_leb_trans a b c : String.leb a b = true → String.leb b c = true → String.leb a c = true.
Proof.
  unfold String.leb. revert b c. induction a as [|x a IH]; intros [|y b] [|z c]; simpl; try done.
  pose proof (N.compare_spec (N_of_ascii x) (N_of_ascii y)) as Hxy.
  pose proof (N.compare_spec (N_of_ascii y) (N_of_ascii z)) as Hyz.
  unfold Ascii.compare. intros H1 H2.
  destruct (N.compare_spec (N_of_ascii x) (N_of_ascii z)); try done;
    destruct Hxy, Hyz; try done; try lia. by apply (IH b).
Qed.

(** ** Lists *)

(** Sum of an integer measure over a list. *)
Definition sumZ {A} (f : A → Z) (l : list A) : Z := foldr (λ a s, f a + s) 0 l.

(** Consecutive pairs: Python's [zip(l, l[1:])]. *)
Definition pairs {A} (l : list A) : list (A * A) := zip l (tail l).

(** Stable sort by a boolean order: Python's [sorted]. *)
Fixpoint insert_by {A} (leb : A → A → bool) (x : A) (l : list A) : list A :=
  match l with
  | [] => [x]
  | y :: ys => if leb x y then x :: y :: ys else y :: insert_by leb x ys
  end.

Definition sort_by {A} (leb : A → A → bool) (l : list A) : list A :=
  foldr (insert_by leb) [] l.

(** [sorted(set(l))] on integers. *)
Definition sorted_set (l : list Z) : list Z := sort_by Z.leb (remove_dups l).

Section SumZ.
Context {A : Type}.
Implicit Types (f g : A → Z) (l : list A).

Lemma sumZ_app f l1 l2 : sumZ f (l1 ++ l2) = sumZ f l1 + sumZ f l2.
Proof. induction l1 as [|a l1 IH]; simpl; lia. Qed.

#[export] Instance sumZ_Permutation f : Proper (Permutation ==> eq) (sumZ f).
Proof. intros l1 l2 H; induction H; simpl; lia. Qed.

Lemma sumZ_nonneg f l : (∀ a, a ∈ l → 0 ≤ f a) → 0 ≤ sumZ f l.
Proof.
  induction l as [|a l IH]; simpl; intros H; [lia|].
  assert (0 ≤ f a) by (apply H; left).
  assert (0 ≤ sumZ f l) by (apply IH; intros; apply H; by right). lia.
Qed.

Lemma sumZ_ext f g l : (∀ a, a ∈ l → f a = g a) → sumZ f l = sumZ g l.
Proof.
  induction l as [|a l IH]; simpl; intros H; [done|].
  rewrite (H a) by left. rewrite IH; [done|]. intros; apply H; by right.
Qed.

(** Dropping elements of non-negative weight can only lower the sum. *)
Lemma sumZ_filter_mono f (P Q : A → Prop) `{!∀ a, Decision (P a), !∀ a, Decision (Q a)} l :
  (∀ a, a ∈ l → 0 ≤ f a) → (∀ a, a ∈ l → P a → Q a) →
  sumZ f (filter P l) ≤ sumZ f (filter Q l).
Proof.
  induction l as [|a l IH]; intros Hpos Himp; [done|].
  assert (Hl : sumZ f (filter P l) ≤ sumZ f (filter Q l)).
  { apply IH; intros; [apply Hpos|apply Himp]; try done; by right. }
  assert (0 ≤ f a) by (apply Hpos; left).
  assert (P a → Q a) by (apply Himp; left).
  rewrite !filter_cons. repeat case_decide; simpl; tauto || lia.
Qed.
End SumZ.

Lemma filter_ext_in {A} (P Q : A → Prop) `{!∀ a, Decision (P a), !∀ a, Decision (Q a)}
    (l : list A) :
  (∀ a, a ∈ l → P a ↔ Q a) → filter P l = filter Q l.
Proof.
  induction l as [|a l IH]; intros HPQ; [done|].
  rewrite !filter_cons, IH by (intros; apply HPQ; by right).
  assert (P a ↔ Q a) by (apply HPQ; left). by repeat case_decide; tauto.
Qed.

Lemma filter_nil_iff {A} (P : A → Prop) `{!∀ a, Decision (P a)} (l : list A) :
  filter P l = [] ↔ ∀ a, a ∈ l → ¬ P a.
Proof.
  split; [intros E a Ha HP; by apply (filter_nil_not_elem_of P l a E HP)|].
  induction l as [|a l IH]; intros HP; [done|].
  rewrite filter_cons_False by (apply HP; left). apply IH. intros; apply HP; by right.
Qed.

Lemma list_filter_all {A} (P : A → Prop) `{!∀ a, Decision (P a)} (l : list A) :
  Forall P l → filter P l = l.
Proof. induction 1; [done|]. rewrite filter_cons_True by done. by f_equal. Qed.

Lemma list_filter_none {A} (P : A → Prop) `{!∀ a, Decision (P a)} (l : list A) :
  Forall (λ a, ¬ P a) l → filter P l = [].
Proof. rewrite filter_nil_iff, Forall_forall. done. Qed.

Lemma filter_fmap_list {A B} (f : A → B) (P : B → Prop) `{!∀ b, Decision (P b)} (l : list A) :
  filter P (f <$> l) = f <$> filter (λ a, P (f a)) l.
Proof.
  induction l as [|a l IH]; [done|]. csimpl. rewrite !filter_cons.
  case_decide; csimpl; by rewrite IH.
Qed.

Lemma fmap_nil_iff {A B} (f : A → B) (l : list A) : f <$> l = [] ↔ l = [].
Proof. by destruct l. Qed.

(** Elements with distinct keys are determined by the key. *)
Lemma NoDup_fmap_inj {A B} (f : A → B) (l : list A) x y :
  NoDup (f <$> l) → x ∈ l → y ∈ l → f x = f y → x = y.
Proof.
  induction l as [|a l IH]; csimpl; intros Hd Hx Hy E; [by apply not_elem_of_nil in Hx|].
  apply NoDup_cons in Hd as [Hn Hd].
  apply elem_of_cons in Hx as [->|Hx], Hy as [->|Hy]; [done| | |by apply IH].
  - destruct Hn. apply list_elem_of_fmap. by exists y.
  - destruct Hn. apply list_elem_of_fmap. by exists x.
Qed.

(** An element of a non-empty selection that maximises a measure. *)
Lemma list_argmax {A} (P : A → Prop) (f : A → Z) `{!∀ a, Decision (P a)} (l : list A) x :
  x ∈ l → P x → ∃ m, m ∈ l ∧ P m ∧ ∀ y, y ∈ l → P y → f y ≤ f m.
Proof.
  revert x. induction l as [|a l IH]; intros x Hx HP; [by apply not_elem_of_nil in Hx|].
  destruct (decide (Exists P l)) as [(y & Hy & HPy)%Exists_exists|Hno].
  - destruct (IH y Hy HPy) as (m & Hm & HPm & Hmax).
    destruct (decide (P a ∧ f m < f a)) as [[Ha Hlt]|Hn].
    + exists a. split; [left|]. split; [done|]. intros z [->|Hz]%elem_of_cons HPz; [lia|].
      specialize (Hmax z Hz HPz). lia.
    + exists m. split; [by right|]. split; [done|]. intros z [->|Hz]%elem_of_cons HPz; [|auto].
      destruct (decide (f m < f a)); [by destruct Hn|lia].
  - assert (Hn : ∀ y, y ∈ l → ¬ P y) by (intros y Hy HPy; apply Hno, Exists_exists; eauto).
    apply elem_of_cons in Hx as [->|Hx]; [|by destruct (Hn x)].
    exists a. split; [left|]. split; [done|]. intros z [->|Hz]%elem_of_cons HPz; [lia|].
    by destruct (Hn z).
Qed.

(** ** Sorting *)

Section Sort.
Context {A : Type} (leb : A → A → bool).

Lemma insert_by_perm x l : insert_by leb x l ≡ₚ x :: l.
Proof.
  induction l as [|y l IH]; simpl; [done|].
  destruct (leb x y); [done|]. rewrite IH. by constructor.
Qed.

Lemma sort_by_perm l : sort_by leb l ≡ₚ l.
Proof. induction l as [|x l IH]; simpl; [done|]. by rewrite insert_by_perm, IH. Qed.

Lemma elem_of_sort_by x l : x ∈ sort_by leb l ↔ x ∈ l.
Proof. by rewrite sort_by_perm. Qed.

Lemma length_sort_by l : length (sort_by leb l) = length l.
Proof. by rewrite sort_by_perm. Qed.

Lemma NoDup_sort_by l : NoDup l → NoDup (sort_by leb l).
Proof. by rewrite sort_by_perm. Qed.

Hypothesis leb_total : ∀ x y, leb x y = true ∨ leb y x = true.
Hypothesis leb_trans : ∀ x y z, leb x y = true → leb y z = true → leb x z = true.

Lemma insert_by_sorted x l :
  StronglySorted (λ a b, leb a b = true) l →
  StronglySorted (λ a b, leb a b = true) (insert_by leb x l).
Proof.
  induction l as [|y l IH]; simpl; intros Hs; [by repeat constructor|].
  apply StronglySorted_inv in Hs as [Hs Hy].
  destruct (leb x y) eqn:E.
  - constructor; [by constructor|]. constructor; [done|].
    eapply Forall_impl; [exact Hy|]. simpl; eauto.
  - constructor; [by apply IH|]. rewrite insert_by_perm. constructor; [|done].
    destruct (leb_total x y); congruence.
Qed.

Lemma sort_by_sorted l : StronglySorted (λ a b, leb a b = true) (sort_by leb l).
Proof. induction l; simpl; [constructor|by apply insert_by_sorted]. Qed.
End Sort.

(** Sorting by a key orders the list by any transitive relation the key refines,
    without assuming the boolean order total or transitive. *)
Lemma sort_by_sorted_rel {A} (leb : A → A → bool) (R : A → A → Prop) l :
  (∀ x y, leb x y = true → R x y) → (∀ x y, leb x y = false → R y x) →
  (∀ x y z, R x y → R y z → R x z) → StronglySorted R (sort_by leb l).
Proof.
  intros Ht Hf Htr. induction l as [|x l IH]; simpl; [constructor|].
  induction IH as [|y ys Hs IH' Hy]; simpl; [by repeat constructor|].
  destruct (leb x y) eqn:E.
  - constructor; [by constructor|]. constructor; [by apply Ht|].
    eapply Forall_impl; [exact Hy|]. simpl; eauto.
  - constructor; [done|]. rewrite insert_by_perm. constructor; [by apply Hf|done].
Qed.

Lemma StronglySorted_lookup_lt {A} (R : A → A → Prop) (l : list A) i j x y :
  StronglySorted R l → (i < j)%nat → l !! i = Some x → l !! j = Some y → R x y.
Proof.
  intros Hs. revert i j. induction Hs as [|a l _ IH Ha]; intros i j Hij Hi Hj; [done|].
  destruct j as [|j]; [lia|]. destruct i as [|i]; simpl in *.
  - simplify_eq. rewrite Forall_forall in Ha. apply Ha. by eapply list_elem_of_lookup_2.
  - apply (IH i j); [lia|done..].
Qed.

Lemma StronglySorted_fmap {A B} (f : A → B) (R : B → B → Prop) (l : list A) :
  StronglySorted (λ a b, R (f a) (f b)) l → StronglySorted R (f <$> l).
Proof.
  induction 1 as [|a l _ IH Ha]; csimpl; constructor; [done|].
  by apply Forall_fmap.
Qed.

Lemma StronglySorted_filter {A} (R : A → A → Prop) (P : A → Prop) `{!∀ a, Decision (P a)} l :
  StronglySorted R l → StronglySorted R (filter P l).
Proof.
  induction 1 as [|a l _ IH Ha]; [constructor|]. rewrite filter_cons.
  case_decide; [|done]. constructor; [done|].
  rewrite Forall_forall in Ha |- *. intros x [_ Hx]%list_elem_of_filter. by apply Ha.
Qed.

Lemma StronglySorted_sublist {A} (R : A → A → Prop) l k :
  l `sublist_of` k → StronglySorted R k → StronglySorted R l.
Proof.
  induction 1 as [|x l k Hs IH|x l k Hs IH]; intros H; [done| |].
  - apply StronglySorted_inv in H as [H Hx]. constructor; [by apply IH|].
    rewrite Forall_forall in Hx |- *. intros y Hy. apply Hx. by eapply elem_of_sublist.
  - apply StronglySorted_inv in H as [H _]. by apply IH.
Qed.

Lemma StronglySorted_weaken {A} (R S : A → A → Prop) (l : list A) :
  (∀ x y, x ∈ l → y ∈ l → R x y → S x y) → StronglySorted R l → StronglySorted S l.
Proof.
  intros HRS Hs. induction Hs as [|x l Hs IH Hx]; constructor.
  - apply IH. intros; apply HRS; [by right..|done].
  - rewrite Forall_forall in Hx |- *. intros y Hy. apply HRS; [left|by right|by apply Hx].
Qed.

Lemma StronglySorted_Forall2 {A} (R : A → A → Prop) (f : nat → option A) ks (new : list A) :
  StronglySorted (λ i k, ∀ x y, f i = Some x → f k = Some y → R x y) ks →
  Forall2 (λ i x, f i = Some x) ks new → StronglySorted R new.
Proof.
  intros Hs H. induction H as [|i x ks new Hx Hn IH]; [constructor|].
  apply StronglySorted_inv in Hs as [Hs Hi]. constructor; [by apply IH|].
  rewrite List.Forall_forall in Hi. rewrite Forall_forall. intros y [k Hk]%list_elem_of_lookup.
  destruct (Forall2_lookup_r _ _ _ _ _ Hn Hk) as (i' & Hi' & Hy).
  apply (Hi i'); [|done..]. apply list_elem_of_In. by eapply list_elem_of_lookup_2.
Qed.

Lemma elem_of_sorted_set x l : x ∈ sorted_set l ↔ x ∈ l.
Proof. unfold sorted_set. by rewrite elem_of_sort_by, elem_of_remove_dups. Qed.

Lemma NoDup_sorted_set l : NoDup (sorted_set l).
Proof. apply NoDup_sort_by, NoDup_remove_dups. Qed.

Lemma sorted_set_sorted l : StronglySorted Z.le (sorted_set l).
Proof.
  assert (H : StronglySorted (λ a b, Z.leb a b = true) (sorted_set l)).
  { apply sort_by_sorted; intros *; rewrite !Z.leb_le; lia. }
  induction H as [|a l' _ IH Ha]; constructor; [done|].
  eapply Forall_impl; [exact Ha|]. simpl; intros; lia.
Qed.

Lemma sorted_set_strict l : StronglySorted Z.lt (sorted_set l).
Proof.
  pose proof (sorted_set_sorted l) as Hs. pose proof (NoDup_sorted_set l) as Hd.
  induction Hs as [|a l' Hs IH Ha]; constructor.
  - apply IH. by apply NoDup_cons in Hd as [_ ?].
  - apply NoDup_cons in Hd as [Hn _]. rewrite Forall_forall in Ha |- *.
    intros x Hx. specialize (Ha x Hx). assert (a ≠ x) by (by intros ->). lia.
Qed.

#[export] Hint Resolve NoDup_sorted_set sorted_set_strict : bk.
#[export] Hint Rewrite @elem_of_sort_by elem_of_sorted_set : bk.

(** ** Consecutive pairs of a strictly sorted list *)

Lemma pairs_cons2 {A} (a b : A) l : pairs (a :: b :: l) = (a, b) :: pairs (b :: l).
Proof. done. Qed.

(** A consecutive pair is a gap: no element lies strictly between. *)
Lemma pairs_gap (l : list Z) a b :
  StronglySorted Z.lt l → (a, b) ∈ pairs l →
  a < b ∧ a ∈ l ∧ b ∈ l ∧ ∀ x, x ∈ l → x ≤ a ∨ b ≤ x.
Proof.
  induction l as [|y l IH]; intros Hs Hin; [by apply not_elem_of_nil in Hin|].
  destruct l as [|z l]; [by apply not_elem_of_nil in Hin|].
  apply StronglySorted_inv in Hs as [Hs Hy]. rewrite Forall_forall in Hy.
  rewrite pairs_cons2 in Hin. apply elem_of_cons in Hin as [Hin|Hin].
  - simplify_eq. apply StronglySorted_inv in Hs as [_ Hz]. rewrite Forall_forall in Hz.
    split; [apply Hy; left|]. split; [left|]. split; [right; left|].
    intros x [->|[->|Hx]%elem_of_cons]%elem_of_cons; [lia|lia|].
    right. specialize (Hz x Hx). lia.
  - destruct (IH Hs Hin) as (Hlt & Ha & Hb & Hgap).
    split; [done|]. split; [by right|]. split; [by right|].
    intros x [->|Hx]%elem_of_cons; [|by apply Hgap]. left. specialize (Hy a Ha). lia.
Qed.

(** Every instant between two elements lies in some gap. *)
Lemma pairs_cover (l : list Z) lo hi t :
  StronglySorted Z.lt l → lo ∈ l → hi ∈ l → lo ≤ t → t < hi →
  ∃ a b, (a, b) ∈ pairs l ∧ a ≤ t ∧ t < b.
Proof.
  intros Hs. revert lo. induction l as [|y l IH]; intros lo Hlo Hhi Hl Hh.
  { by apply not_elem_of_nil in Hlo. }
  apply StronglySorted_inv in Hs as [Hs Hy]. rewrite Forall_forall in Hy.
  assert (Hyt : y ≤ t).
  { apply elem_of_cons in Hlo as [->|Hlo]; [done|]. specialize (Hy lo Hlo). lia. }
  apply elem_of_cons in Hhi as [->|Hhi]; [lia|].
  destruct l as [|z l]; [by apply not_elem_of_nil in Hhi|].
  destruct (decide (t < z)) as [Hz|Hz].
  - exists y, z. rewrite pairs_cons2. split; [left|lia].
  - destruct (IH Hs z) as (a & b & Hab & ?); [left|done|lia|lia|].
    exists a, b. rewrite pairs_cons2. split; [by right|done].
Qed.
