(* ===== verification/PyBase.v ===== *)
(** * PyBase: the part of Python the modelled code uses

    Exceptions as values ([res]), effectful code as a state-and-error monad [M]
    over a [world] that supplies the readings of [datetime.now] and the values
    of [uuid.uuid4] in call order, text operations of [str], IEEE-754 binary64
    floats ([SpecFloat], the axiom-free reference arithmetic), and JSON values.

    A Python [str] is a [string] whose characters are code points 0-255. A
    [datetime] is the exact number of microseconds since the epoch in UTC: the
    code converts every aware datetime to UTC before it compares or stores it. *)

From S2P Require Import Prelude.
From Stdlib Require Import SpecFloat.

(** ** Exceptions and the error monad *)

Inductive exn :=
  | BookingError (msg : string)
  | ValueError (msg : string)
  | OverflowError (msg : string)
  | TypeError (msg : string)
  | KeyError (key : string)
  | OSError (msg : string)
  | LedgerCorruptionError (msg : string)
  | RuntimeError (msg : string)
  | AssertionError.

Inductive res (A : Type) :=
  | Ok (a : A)
  | Raise (e : exn).
Arguments Ok {A} a.
Arguments Raise {A} e.

#[export] Instance res_ret : MRet res := @Ok.
#[export] Instance res_bind : MBind res := λ A B f m,
  match m with Ok a => f a | Raise e => Raise e end.

(** [except ValueError as exc: raise BookingError(str(exc))] *)
Definition value_error_as_booking {A} (m : res A) : res A :=
  match m with
  | Raise (ValueError msg) => Raise (BookingError msg)
  | r => r
  end.

Lemma res_bind_Ok {A B} (m : res A) (f : A → res B) b :
  m ≫= f = Ok b ↔ ∃ a, m = Ok a ∧ f a = Ok b.
Proof. destruct m; simpl; naive_solver. Qed.

(** A loop body run on each item until it raises. *)
Fixpoint for_each {A} (f : A → res unit) (l : list A) : res unit :=
  match l with
  | [] => Ok tt
  | a :: l' => f a ≫= λ _, for_each f l'
  end.

Lemma for_each_Ok {A} (f : A → res unit) l :
  for_each f l = Ok tt ↔ ∀ a, a ∈ l → f a = Ok tt.
Proof.
  induction l as [|a l IH]; simpl.
  { split; [intros _ a Ha; by apply not_elem_of_nil in Ha|done]. }
  rewrite res_bind_Ok. split.
  - intros ([] & Ha & Hl) b [->|Hb]%elem_of_cons; [done|]. by apply IH.
  - intros H. exists tt. split; [apply H; left|]. apply IH. intros; apply H; by right.
Qed.

(** ** The world and the effect monad *)

Abbreviation datetime := Z (only parsing).
Abbreviation timedelta := Z (only parsing).

Definition usec : Z := 1000000.
Definition seconds (n : Z) : timedelta := n * usec.
Definition minutes (n : Z) : timedelta := seconds (n * 60).
Definition hours (n : Z) : timedelta := seconds (n * 3600).
Definition days (n : Z) : timedelta := seconds (n * 86400).

(** [value.replace(microsecond=0)] *)
Definition replace_microsecond_0 (t : datetime) : datetime := t - t mod usec.

(** The clock and the uuid source, with the number of values already drawn. *)
Record world := World {
  w_clock : nat → datetime;
  w_uuid : nat → string;
  w_reads : nat;
  w_draws : nat;
}.

Definition M (A : Type) : Type := world → res A * world.

#[export] Instance M_ret : MRet M := λ A a w, (Ok a, w).
#[export] Instance M_bind : MBind M := λ A B f m w,
  match m w with
  | (Ok a, w') => f a w'
  | (Raise e, w') => (Raise e, w')
  end.

Definition lift {A} (r : res A) : M A := λ w, (r, w).
Definition raise {A} (e : exn) : M A := λ w, (Raise e, w).

(** [datetime.now(timezone.utc).replace(microsecond=0)] *)
Definition clock_now : M datetime := λ w,
  (Ok (replace_microsecond_0 (w_clock w (w_reads w))),
   World (w_clock w) (w_uuid w) (S (w_reads w)) (w_draws w)).

(** [str(uuid.uuid4())] *)
Definition uuid4 : M string := λ w,
  (Ok (w_uuid w (w_draws w)),
   World (w_clock w) (w_uuid w) (w_reads w) (S (w_draws w))).

(** The same sources, later in time. *)
Definition later (w w' : world) : Prop :=
  w_clock w' = w_clock w ∧ w_uuid w' = w_uuid w ∧
  (w_reads w ≤ w_reads w')%nat ∧ (w_draws w ≤ w_draws w')%nat.

#[export] Instance later_preorder : PreOrder later.
Proof.
  split; [by intros w; repeat split|].
  intros w1 w2 w3 (?&?&?&?) (?&?&?&?). unfold later. intuition (congruence || lia).
Qed.

Lemma M_bind_Ok {A B} (m : M A) (f : A → M B) w b w' :
  (m ≫= f) w = (Ok b, w') ↔ ∃ a w1, m w = (Ok a, w1) ∧ f a w1 = (Ok b, w').
Proof.
  unfold mbind, M_bind. destruct (m w) as [[a|e] w1]; naive_solver.
Qed.

Lemma M_ret_Ok {A} (a b : A) w w' :
  (mret a : M A) w = (Ok b, w') ↔ a = b ∧ w = w'.
Proof. unfold mret, M_ret. naive_solver. Qed.

Lemma lift_Ok {A} (r : res A) w b w' : lift r w = (Ok b, w') ↔ r = Ok b ∧ w = w'.
Proof. unfold lift. naive_solver. Qed.

Lemma clock_now_Ok w t w' :
  clock_now w = (Ok t, w') ↔
  t = replace_microsecond_0 (w_clock w (w_reads w)) ∧
  w' = World (w_clock w) (w_uuid w) (S (w_reads w)) (w_draws w).
Proof. unfold clock_now. naive_solver. Qed.

Lemma uuid4_Ok w s w' :
  uuid4 w = (Ok s, w') ↔
  s = w_uuid w (w_draws w) ∧
  w' = World (w_clock w) (w_uuid w) (w_reads w) (S (w_draws w)).
Proof. unfold uuid4. naive_solver. Qed.

(** A computation is [forward] when it only draws from the sources. *)
Definition forward {A} (m : M A) : Prop := ∀ w, later w (m w).2.

Lemma forward_ret {A} (a : A) : forward (mret a : M A).
Proof. intros w. by simpl. Qed.

Lemma forward_lift {A} (r : res A) : forward (lift r).
Proof. intros w. by simpl. Qed.

Lemma forward_bind {A B} (m : M A) (f : A → M B) :
  forward m → (∀ a, forward (f a)) → forward (m ≫= f).
Proof.
  intros Hm Hf w. unfold mbind, M_bind. specialize (Hm w).
  destruct (m w) as [[a|e] w1]; simpl in *; [|done]. etrans; [done|apply Hf].
Qed.

Lemma forward_clock : forward clock_now.
Proof. intros w. unfold later; simpl. repeat split; lia. Qed.

Lemma forward_uuid : forward uuid4.
Proof. intros w. unfold later; simpl. repeat split; lia. Qed.

Lemma forward_Ok {A} (m : M A) w a w' : forward m → m w = (Ok a, w') → later w w'.
Proof. intros Hm E. specialize (Hm w). by rewrite E in Hm. Qed.

#[export] Hint Resolve forward_ret forward_lift forward_clock forward_uuid : bk.

(** Readings never go back. *)
Definition monotone_clock (w : world) : Prop :=
  ∀ i j, (i ≤ j)%nat → w_clock w i ≤ w_clock w j.

(** Every reading still to come is at or after [now]. *)
Definition reads_from (now : datetime) (w : world) : Prop :=
  ∀ i, (w_reads w ≤ i)%nat → now ≤ replace_microsecond_0 (w_clock w i).

Lemma reads_from_later now w w' : later w w' → reads_from now w → reads_from now w'.
Proof. intros (Hc & _ & Hr & _) H i Hi. rewrite Hc. apply H. lia. Qed.

(** Taking a reading never fails, and with a monotone clock the later ones follow it. *)
Lemma clock_now_run w :
  ∃ t w', clock_now w = (Ok t, w') ∧ later w w' ∧
    t = replace_microsecond_0 (w_clock w (w_reads w)).
Proof.
  eexists _, _. split; [reflexivity|]. split; [|done]. unfold later; simpl. repeat split; lia.
Qed.

Lemma replace_microsecond_0_le t : replace_microsecond_0 t ≤ t.
Proof. unfold replace_microsecond_0, usec. lia. Qed.

Lemma replace_microsecond_0_mono a b :
  a ≤ b → replace_microsecond_0 a ≤ replace_microsecond_0 b.
Proof. unfold replace_microsecond_0, usec. lia. Qed.

Lemma replace_microsecond_0_idemp t :
  replace_microsecond_0 (replace_microsecond_0 t) = replace_microsecond_0 t.
Proof. unfold replace_microsecond_0, usec. lia. Qed.

Lemma clock_now_reads_from w t w' :
  monotone_clock w → clock_now w = (Ok t, w') → reads_from t w' ∧ later w w' ∧ monotone_clock w'.
Proof.
  intros Hm (-> & ->)%clock_now_Ok. split; [|split].
  - intros i Hi. simpl in *. apply replace_microsecond_0_mono, Hm. lia.
  - unfold later; simpl. repeat split; lia.
  - exact Hm.
Qed.

Lemma monotone_later w w' : later w w' → monotone_clock w → monotone_clock w'.
Proof. intros (Hc & _) Hm i j Hij. rewrite Hc. by apply Hm. Qed.

(** Break a successful effectful run into its steps. *)
Ltac inv_M :=
  repeat match goal with
  | H : (_ ≫= _) _ = (Ok _, _) |- _ =>
      apply M_bind_Ok in H; destruct H as (? & ? & ? & H)
  | H : mret _ _ = (Ok _, _) |- _ => apply M_ret_Ok in H; destruct H as [? ?]; subst
  | H : lift _ _ = (Ok _, _) |- _ => apply lift_Ok in H; destruct H as [? ?]; subst
  | H : raise _ _ = (Ok _, _) |- _ => discriminate H
  | H : _ ≫= _ = Ok _ |- _ => apply res_bind_Ok in H; destruct H as (? & ? & H)
  end.

(** ** Text *)

Definition code (c : ascii) : N := N_of_ascii c.

(** Characters removed by [str.strip()] among code points 0-255. *)
Definition is_space (c : ascii) : bool :=
  let n := code c in
  ((9 <=? n) && (n <=? 13) || (28 <=? n) && (n <=? 32) || (n =? 133) || (n =? 160))%N.

Fixpoint drop_while (p : ascii → bool) (l : list ascii) : list ascii :=
  match l with
  | [] => []
  | c :: l' => if p c then drop_while p l' else l
  end.

Definition chars (s : string) : list ascii := String.list_ascii_of_string s.
Definition text (l : list ascii) : string := String.string_of_list_ascii l.

Definition strip (s : string) : string :=
  text (rev (drop_while is_space (rev (drop_while is_space (chars s))))).

Definition lower_char (c : ascii) : ascii :=
  let n := code c in
  if ((65 <=? n) && (n <=? 90) || (192 <=? n) && (n <=? 214)
      || (216 <=? n) && (n <=? 222))%N
  then ascii_of_N (n + 32) else c.

Definition lower (s : string) : string := text (map lower_char (chars s)).

Definition is_digit (c : ascii) : bool := let n := code c in ((48 <=? n) && (n <=? 57))%N.

Definition digit_value (c : ascii) : Z := Z.of_N (code c) - 48.

Definition digits_value (l : list ascii) : Z :=
  foldl (λ acc c, 10 * acc + digit_value c) 0 l.

(** [split()] on white space. *)
Fixpoint words_from (word : list ascii) (l : list ascii) : list (list ascii) :=
  match l with
  | [] => match word with [] => [] | _ => [rev word] end
  | c :: l =>
      if is_space c
      then match word with [] => words_from [] l | _ => rev word :: words_from [] l end
      else words_from (c :: word) l
  end.

Definition words (s : string) : list string := text <$> words_from [] (chars s).

(** What follows the last occurrence of a character. *)
Fixpoint after_last (c : ascii) (l : list ascii) : option (list ascii) :=
  match l with
  | [] => None
  | x :: l =>
      match after_last c l with
      | Some rest => Some rest
      | None => if bool_decide (x = c) then Some l else None
      end
  end.

Definition is_control (c : ascii) : bool := (code c <? 32)%N.

Definition slen (s : string) : Z := Z.of_nat (String.length s).

Definition str_of_Z (z : Z) : string := pretty z.

Fixpoint join (sep : string) (l : list string) : string :=
  match l with
  | [] => ""
  | [s] => s
  | s :: l' => s +:+ sep +:+ join sep l'
  end.

(** [str(b)] *)
Definition str_of_bool (b : bool) : string := if b then "True" else "False".

(** [repr(s)]: the single quote unless it occurs and the double one does not. *)
Definition hex_lower (n : N) : ascii := ascii_of_N (if n <? 10 then 48 + n else 87 + n)%N.

Definition repr_char (delimiter c : ascii) : list ascii :=
  let n := code c in
  if bool_decide (c = delimiter) || (n =? 92)%N then ["\"%char; c]
  else if (n =? 9)%N then ["\"%char; "t"%char]
  else if (n =? 10)%N then ["\"%char; "n"%char]
  else if (n =? 13)%N then ["\"%char; "r"%char]
  else if ((n <? 32) || (127 <=? n) && (n <=? 160) || (n =? 173))%N
  then ["\"%char; "x"%char; hex_lower (n / 16); hex_lower (n mod 16)]
  else [c].

Definition str_repr (s : string) : string :=
  let delimiter :=
    if bool_decide (ascii_of_N 39 ∈ chars s) && negb (bool_decide (ascii_of_N 34 ∈ chars s))
    then ascii_of_N 34 else ascii_of_N 39 in
  text (delimiter :: (chars s ≫= repr_char delimiter) ++ [delimiter]).

(** [re.fullmatch(r"[+-]?\d+", s)] with the integer it denotes. *)
Definition parse_whole (s : string) : option Z :=
  let go sign l :=
    match l with
    | [] => None
    | _ => if forallb is_digit l then Some (sign * digits_value l) else None
    end in
  match chars s with
  | "-"%char :: l => go (-1) l
  | "+"%char :: l => go 1 l
  | l => go 1 l
  end.

(** The machine's time zone: an instant as [strftime("%Y-%m-%d %H:%M %Z")] of
    its local time. Messages are the only place where it is used. *)
Class LocalTime := format_local_minute : datetime → string.

(** ** binary64 floats *)

Abbreviation pyfloat := spec_float.

Definition f_prec : Z := 53.
Definition f_emax : Z := 1024.

Definition float_of_Z (z : Z) : pyfloat := binary_normalize f_prec f_emax z 0 false.
Definition fadd : pyfloat → pyfloat → pyfloat := SFadd f_prec f_emax.
Definition fmul : pyfloat → pyfloat → pyfloat := SFmul f_prec f_emax.
Definition fdiv : pyfloat → pyfloat → pyfloat := SFdiv f_prec f_emax.
Definition flt (x y : pyfloat) : bool := SFltb x y.
Definition feq (x y : pyfloat) : bool := SFeqb x y.

(** Python's [max(a, b)]: the first argument unless the second is greater. *)
Definition fmax (x y : pyfloat) : pyfloat := if flt x y then y else x.

Definition is_finite (x : pyfloat) : bool :=
  match x with S754_zero _ | S754_finite _ _ _ => true | _ => false end.

(** The binary64 value nearest to the fraction [a / b], [b > 0]. *)
Definition ratio (a : Z) (b : positive) : pyfloat :=
  let go s p :=
    let '(mz, ez, lz) := SFdiv_core_binary f_prec f_emax (Zpos p) 0 (Zpos b) 0 in
    binary_round_aux f_prec f_emax s mz ez lz in
  match a with
  | Z0 => S754_zero false
  | Zpos p => go false p
  | Zneg p => go true p
  end.

(** [timedelta.total_seconds()] *)
Definition total_seconds (d : timedelta) : pyfloat := ratio d 1000000.

(** Nearest integer to [num / den], ties to even. *)
Definition round_half_even (num : Z) (den : Z) : Z :=
  let q := num / den in
  let r := num mod den in
  if (2 * r <? den) then q
  else if (den <? 2 * r) then q + 1
  else if Z.even q then q else q + 1.

(** [round(x, 3)]: the decimal rounding is exact, as in CPython. *)
Definition round3 (x : pyfloat) : pyfloat :=
  match x with
  | S754_finite s m e =>
      let num := Zpos m * 1000 * 2 ^ Z.max e 0 in
      let den := 2 ^ Z.max (- e) 0 in
      match round_half_even num den with
      | Z0 => S754_zero s
      | n => let y := ratio n 1000 in if s then SFopp y else y
      end
  | _ => x
  end.

(** ** JSON values *)

Inductive json :=
  | JNull
  | JBool (b : bool)
  | JInt (z : Z)
  | JFloat (f : pyfloat)
  | JStr (s : string)
  | JList (l : list json)
  | JObj (kvs : list (string * json)).

(** [d.get(k)] on an object, [None] when the key is absent. *)
Fixpoint assoc_get {A} (k : string) (kvs : list (string * A)) : option A :=
  match kvs with
  | [] => None
  | (k', v) :: rest => if bool_decide (k = k') then Some v else assoc_get k rest
  end.

(** [d.get(k)]: a missing key reads as [None]. *)
Definition dict_get (k : string) (kvs : list (string * json)) : json :=
  default JNull (assoc_get k kvs).
