(* ===== verification/Json.v ===== *)
(** * Json: the JSON texts of the program ([json.dumps] and [json.loads])

    The store, the journal and the audit log are JSON texts in UTF-8. This file
    models the part of Python's [json] module they use: [dumps] with
    [ensure_ascii=False], [allow_nan=False] and [sort_keys=True] in the layouts
    the program asks for, and [loads] on bytes, with the scanner's treatment of
    white space, escapes, numbers, literals and repeated keys. The text of a
    float is the shortest decimal that reads back as the same binary64 value.

    Strings have code points 0-255 ([PyBase]), so a text with an escape or a
    UTF-8 sequence beyond them is not read. The main results are that every
    printed value is read back ([loads_dumps]) and that no proper prefix of a
    printed object reads as an object ([loads_prefix]), which is what makes a
    torn line of a log recognisable. *)

From S2P Require Import Prelude.
From S2P Require Import PyBase.
From Stdlib Require Import SpecFloat.

(** ** UTF-8 *)

Definition utf8_char (c : ascii) : list ascii :=
  let n := code c in
  if (n <? 128)%N then [c] else [ascii_of_N (192 + n / 64); ascii_of_N (128 + n mod 64)].

Definition utf8_encode (l : list ascii) : list ascii := l ≫= utf8_char.

Fixpoint utf8_decode (l : list ascii) : option (list ascii) :=
  match l with
  | [] => Some []
  | b :: l' =>
      if (code b <? 128)%N then cons b <$> utf8_decode l'
      else if ((code b =? 194) || (code b =? 195))%N then
        match l' with
        | b' :: l'' =>
            if ((128 <=? code b') && (code b' <? 192))%N
            then cons (ascii_of_N ((code b - 192) * 64 + (code b' - 128))) <$> utf8_decode l''
            else None
        | [] => None
        end
      else None
  end.

(** ** Characters *)

Definition newline : ascii := ascii_of_N 10.
Definition quote : ascii := ascii_of_N 34.
Definition backslash : ascii := ascii_of_N 92.

(** The white space between tokens: space, tab, newline, carriage return. *)
Definition is_ws (c : ascii) : bool :=
  let n := code c in ((n =? 32) || (n =? 9) || (n =? 10) || (n =? 13))%N.

Definition skip_ws (l : list ascii) : list ascii := drop_while is_ws l.

Definition hex_code (c : ascii) : option N :=
  let n := code c in
  if ((48 <=? n) && (n <=? 57))%N then Some (n - 48)%N
  else if ((97 <=? n) && (n <=? 102))%N then Some (n - 87)%N
  else if ((65 <=? n) && (n <=? 70))%N then Some (n - 55)%N
  else None.

(** ** Floats *)

(** [mant * 10 ^ e10], correctly rounded. *)
Definition float_of_decimal (negative : bool) (mant e10 : Z) : pyfloat :=
  if mant =? 0 then S754_zero negative
  else
    let x := if 0 <=? e10 then float_of_Z (mant * 10 ^ e10)
             else ratio mant (Z.to_pos (10 ^ (- e10))) in
    if negative then SFopp x else x.

(** The least [e] from [e] on with [num / den < 10 ^ e]. *)
Fixpoint decimal_point (fuel : nat) (e num den : Z) : Z :=
  match fuel with
  | O => e
  | S fuel =>
      if num * 10 ^ Z.max (- e) 0 <? den * 10 ^ Z.max e 0 then e
      else decimal_point fuel (e + 1) num den
  end.

(** The shortest decimal [q * 10 ^ (point - n)] that reads back as [x], the nearest
    to [num / den] of that length, trying [n], [n + 1], ... digits; with its exponent. *)
Fixpoint shortest_digits (fuel : nat) (n : Z) (x : pyfloat) (num den point : Z) : Z * Z :=
  let k := n - point in
  let top := num * 10 ^ Z.max k 0 in
  let bottom := den * 10 ^ Z.max (- k) 0 in
  let q := top / bottom in
  let reads d := feq (float_of_decimal false d (- k)) x in
  let first := if 2 * (top - q * bottom) <? bottom then q else q + 1 in
  let second := if 2 * (top - q * bottom) <? bottom then q + 1 else q in
  if reads first then (first, - k)
  else if reads second then (second, - k)
  else match fuel with O => (first, - k) | S fuel => shortest_digits fuel (n + 1) x num den point end.

Definition zeros (n : Z) : list ascii := replicate (Z.to_nat n) "0"%char.

(** The digits [d] with the decimal point after [point] of them. *)
Definition place_point (d : list ascii) (point : Z) : list ascii :=
  let n := Z.of_nat (length d) in
  if (-4 <? point) && (point <=? 16) then
    if point <=? 0 then ["0"%char; "."%char] ++ zeros (- point) ++ d
    else if n <=? point then d ++ zeros (point - n) ++ ["."%char; "0"%char]
    else take (Z.to_nat point) d ++ "."%char :: drop (Z.to_nat point) d
  else
    let e := point - 1 in
    take 1 d ++ (if n =? 1 then [] else "."%char :: drop 1 d)
      ++ ["e"%char; if e <? 0 then "-"%char else "+"%char]
      ++ (if Z.abs e <? 10 then ["0"%char] else []) ++ chars (str_of_Z (Z.abs e)).

(** [float.__repr__] of a finite value. *)
Definition float_repr (x : pyfloat) : list ascii :=
  match x with
  | S754_zero s => (if s then ["-"%char] else []) ++ chars "0.0"
  | S754_finite s m e =>
      let num := Zpos m * 2 ^ Z.max e 0 in
      let den := 2 ^ Z.max (- e) 0 in
      let point := decimal_point 700 (-330) num den in
      let '(q, e10) := shortest_digits 17 1 (S754_finite false m e) num den point in
      let digits := chars (str_of_Z q) in
      (if s then ["-"%char] else [])
        ++ place_point (rev (drop_while (Ascii.eqb "0") (rev digits))) (Z.of_nat (length digits) + e10)
  | _ => []
  end.

(** ** Printing *)

(** The words of the values that have no JSON number, written with [allow_nan]. *)
Definition float_json (x : pyfloat) : list ascii :=
  match x with
  | S754_infinity s => chars (if s then "-Infinity" else "Infinity")
  | S754_nan => chars "NaN"
  | x => float_repr x
  end.

(** What follows a comma and a colon, the width of an indentation level, and
    whether the text is all ASCII ([ensure_ascii]). *)
Record layout := Layout {
  after_comma : list ascii;
  after_colon : list ascii;
  indent : option nat;
  ensure_ascii : bool;
}.

(** [separators=(",", ":")], the default separators, and [indent=2] *)
Definition compact : layout := Layout [] [] None false.
Definition spaced : layout := Layout [" "%char] [" "%char] None false.
Definition indented : layout := Layout [] [" "%char] (Some 2%nat) false.

(** The layouts of texts that are signed or sent to a program. *)
Definition signed : layout := Layout [] [] None true.
Definition spaced_ascii : layout := Layout [" "%char] [" "%char] None true.

Definition escape (f : layout) (c : ascii) : list ascii :=
  let n := code c in
  if ((n =? 34) || (n =? 92))%N then [backslash; c]
  else if (n =? 8)%N then [backslash; "b"%char]
  else if (n =? 9)%N then [backslash; "t"%char]
  else if (n =? 10)%N then [backslash; "n"%char]
  else if (n =? 12)%N then [backslash; "f"%char]
  else if (n =? 13)%N then [backslash; "r"%char]
  else if ((n <? 32) || (ensure_ascii f && (126 <? n)))%N then [backslash; "u"%char; "0"%char; "0"%char; hex_lower (n / 16); hex_lower (n mod 16)]
  else [c].

Definition print_string (f : layout) (s : string) : list ascii :=
  quote :: (chars s ≫= escape f) ++ [quote].

Definition line_start (f : layout) (level : nat) : list ascii :=
  match indent f with
  | None => []
  | Some k => newline :: replicate (k * level) " "%char
  end.

(** Items between brackets. *)
Definition print_items (f : layout) (level : nat) (opening closing : ascii)
    (items : list (list ascii)) : list ascii :=
  match items with
  | [] => [opening; closing]
  | item :: items =>
      opening :: line_start f (S level) ++ item
      ++ (items ≫= λ item, ","%char :: after_comma f ++ line_start f (S level) ++ item)
      ++ line_start f level ++ [closing]
  end.

(** Members in the order of their keys. *)
Definition key_le {A} (a b : string * A) : bool := String.leb a.1 b.1.

Definition print_member (f : layout) (member : string * list ascii) : list ascii :=
  print_string f member.1 ++ ":"%char :: after_colon f ++ member.2.

Fixpoint print_value (f : layout) (level : nat) (v : json) : list ascii :=
  match v with
  | JNull => chars "null"
  | JBool b => chars (if b then "true" else "false")
  | JInt z => chars (str_of_Z z)
  | JFloat x => float_json x
  | JStr s => print_string f s
  | JList l => print_items f level "["%char "]"%char (map (print_value f (S level)) l)
  | JObj kvs =>
      print_items f level "{"%char "}"%char
        (map (print_member f)
          (sort_by key_le (map (λ '(k, v), (k, print_value f (S level) v)) kvs)))
  end.

(** The limit of integer to text conversion, in digits. *)
Definition MAX_STR_DIGITS : Z := 4300.

Definition int_too_long (z : Z) : bool := MAX_STR_DIGITS <? slen (str_of_Z (Z.abs z)).

(** The first value, in printing order, that has no JSON text. *)
Fixpoint unprintable (allow_nan : bool) (v : json) : option string :=
  match v with
  | JInt z =>
      if int_too_long z
      then Some "Exceeds the limit (4300 digits) for integer string conversion; use sys.set_int_max_str_digits() to increase the limit"
      else None
  | JFloat x =>
      if allow_nan || is_finite x then None else Some "Out of range float values are not JSON compliant"
  | JList l => head (omap (unprintable allow_nan) l)
  | JObj kvs =>
      head (omap snd (sort_by key_le (map (λ '(k, v), (k, unprintable allow_nan v)) kvs)))
  | _ => None
  end.

(** [json.dumps] with [allow_nan], the default, and without. *)
Definition dumps_nan (f : layout) (v : json) : res (list ascii) :=
  match unprintable true v with
  | Some msg => Raise (ValueError msg)
  | None => Ok (print_value f 0 v)
  end.

Definition dumps (f : layout) (v : json) : res (list ascii) :=
  match unprintable false v with
  | Some msg => Raise (ValueError msg)
  | None => Ok (print_value f 0 v)
  end.

(** ** Reading *)

Fixpoint span_digits (l : list ascii) : list ascii * list ascii :=
  match l with
  | c :: l' => if is_digit c then let '(ds, r) := span_digits l' in (c :: ds, r) else ([], l)
  | [] => ([], [])
  end.

(** [0|[1-9][0-9]*] *)
Definition read_whole (l : list ascii) : option (list ascii * list ascii) :=
  match l with
  | c :: r =>
      if Ascii.eqb c "0" then Some ([c], r)
      else if is_digit c then Some (span_digits l) else None
  | [] => None
  end.

(** [(\.[0-9]+)?] *)
Definition read_fraction (l : list ascii) : option (list ascii) * list ascii :=
  match l with
  | c :: r =>
      if Ascii.eqb c "." then
        match span_digits r with
        | ([], _) => (None, l)
        | (ds, r') => (Some ds, r')
        end
      else (None, l)
  | [] => (None, [])
  end.

Definition read_sign (l : list ascii) : bool * list ascii :=
  match l with
  | c :: r =>
      if Ascii.eqb c "-" then (true, r) else if Ascii.eqb c "+" then (false, r) else (false, l)
  | [] => (false, [])
  end.

(** [([eE][-+]?[0-9]+)?] *)
Definition read_exponent (l : list ascii) : option Z * list ascii :=
  match l with
  | c :: r =>
      if Ascii.eqb c "e" || Ascii.eqb c "E" then
        let '(negative, r') := read_sign r in
        match span_digits r' with
        | ([], _) => (None, l)
        | (ds, r'') => (Some (if negative then - digits_value ds else digits_value ds), r'')
        end
      else (None, l)
  | [] => (None, [])
  end.

Definition read_number (l : list ascii) : option (json * list ascii) :=
  let '(negative, l) :=
    match l with c :: r => if Ascii.eqb c "-" then (true, r) else (false, l) | [] => (false, []) end in
  '(whole, l) ← read_whole l;
  let '(fraction, l) := read_fraction l in
  let '(exponent, l) := read_exponent l in
  match fraction, exponent with
  | None, None =>
      if MAX_STR_DIGITS <? Z.of_nat (length whole) then None
      else Some (JInt (if negative then - digits_value whole else digits_value whole), l)
  | _, _ =>
      let fraction := default [] fraction in
      Some (JFloat (float_of_decimal negative (digits_value (whole ++ fraction))
              (default 0 exponent - Z.of_nat (length fraction))), l)
  end.

(** The character after a backslash. *)
Definition unescape (c : ascii) : option ascii :=
  if Ascii.eqb c quote || Ascii.eqb c backslash || Ascii.eqb c "/" then Some c
  else if Ascii.eqb c "b" then Some (ascii_of_N 8)
  else if Ascii.eqb c "f" then Some (ascii_of_N 12)
  else if Ascii.eqb c "n" then Some newline
  else if Ascii.eqb c "r" then Some (ascii_of_N 13)
  else if Ascii.eqb c "t" then Some (ascii_of_N 9)
  else None.

Definition read_hex (a b c d : ascii) : option ascii :=
  a ← hex_code a; b ← hex_code b; c ← hex_code c; d ← hex_code d;
  let n := (((a * 16 + b) * 16 + c) * 16 + d)%N in
  if (n <? 256)%N then Some (ascii_of_N n) else None.

(** The characters up to the closing quote. *)
Fixpoint read_chars (l : list ascii) : option (list ascii * list ascii) :=
  match l with
  | [] => None
  | c :: r =>
      if Ascii.eqb c quote then Some ([], r)
      else if Ascii.eqb c backslash then
        match r with
        | [] => None
        | e :: r' =>
            if Ascii.eqb e "u" then
              match r' with
              | h1 :: h2 :: h3 :: h4 :: r'' =>
                  c ← read_hex h1 h2 h3 h4; '(s, r) ← read_chars r''; Some (c :: s, r)
              | _ => None
              end
            else c ← unescape e; '(s, r) ← read_chars r'; Some (c :: s, r)
        end
      else if is_control c then None
      else '(s, r) ← read_chars r; Some (c :: s, r)
  end.

(** [obj[key] = value] *)
Fixpoint obj_set (key : string) (value : json) (kvs : list (string * json)) : list (string * json) :=
  match kvs with
  | [] => [(key, value)]
  | (k, v) :: rest =>
      if bool_decide (key = k) then (k, value) :: rest else (k, v) :: obj_set key value rest
  end.

Fixpoint strip_word (word l : list ascii) : option (list ascii) :=
  match word, l with
  | [], _ => Some l
  | w :: word, c :: l => if Ascii.eqb w c then strip_word word l else None
  | _, [] => None
  end.

(** The constants of the scanner. *)
Definition constants : list (list ascii * json) :=
  [(chars "null", JNull); (chars "true", JBool true); (chars "false", JBool false);
   (chars "NaN", JFloat S754_nan); (chars "Infinity", JFloat (S754_infinity false));
   (chars "-Infinity", JFloat (S754_infinity true))].

Fixpoint read_constant (cs : list (list ascii * json)) (l : list ascii)
    : option (json * list ascii) :=
  match cs with
  | [] => None
  | (word, v) :: cs =>
      match strip_word word l with Some r => Some (v, r) | None => read_constant cs l end
  end.

Fixpoint read_value (fuel : nat) (l : list ascii) : option (json * list ascii) :=
  match fuel with
  | O => None
  | S fuel =>
      match l with
      | [] => None
      | c :: r =>
          if Ascii.eqb c quote then '(s, r) ← read_chars r; Some (JStr (text s), r)
          else if Ascii.eqb c "{" then
            match skip_ws r with
            | c' :: r' => if Ascii.eqb c' "}" then Some (JObj [], r') else read_members fuel [] (c' :: r')
            | [] => None
            end
          else if Ascii.eqb c "[" then
            match skip_ws r with
            | c' :: r' => if Ascii.eqb c' "]" then Some (JList [], r') else read_elements fuel [] (c' :: r')
            | [] => None
            end
          else match read_constant constants l with Some x => Some x | None => read_number l end
      end
  end
with read_members (fuel : nat) (acc : list (string * json)) (l : list ascii)
    : option (json * list ascii) :=
  match fuel with
  | O => None
  | S fuel =>
      match l with
      | [] => None
      | c :: r =>
          if Ascii.eqb c quote then
            '(k, r) ← read_chars r;
            match skip_ws r with
            | c' :: r' =>
                if Ascii.eqb c' ":" then
                  '(v, r) ← read_value fuel (skip_ws r');
                  let acc := obj_set (text k) v acc in
                  match skip_ws r with
                  | c'' :: r'' =>
                      if Ascii.eqb c'' "}" then Some (JObj acc, r'')
                      else if Ascii.eqb c'' "," then read_members fuel acc (skip_ws r'')
                      else None
                  | [] => None
                  end
                else None
            | [] => None
            end
          else None
      end
  end
with read_elements (fuel : nat) (acc : list json) (l : list ascii) : option (json * list ascii) :=
  match fuel with
  | O => None
  | S fuel =>
      '(v, r) ← read_value fuel l;
      match skip_ws r with
      | c' :: r' =>
          if Ascii.eqb c' "]" then Some (JList (rev (v :: acc)), r')
          else if Ascii.eqb c' "," then read_elements fuel (v :: acc) (skip_ws r')
          else None
      | [] => None
      end
  end.

(** Each nesting step of the reader uses at most two units of fuel per character. *)
Definition read_text_value (l : list ascii) : option json :=
  let l := skip_ws l in
  '(v, r) ← read_value (S (2 * length l)) l;
  match skip_ws r with [] => Some v | _ => None end.

(** [json.loads(data)] on bytes; [None] for every [ValueError]. *)
Definition loads (data : list ascii) : option json := utf8_decode data ≫= read_text_value.

(** ** [str] and [repr] of a value *)

Fixpoint repr_value (v : json) : list ascii :=
  match v with
  | JNull => chars "None"
  | JBool b => chars (str_of_bool b)
  | JInt z => chars (str_of_Z z)
  | JFloat (S754_infinity s) => chars (if s then "-inf" else "inf")
  | JFloat S754_nan => chars "nan"
  | JFloat x => float_repr x
  | JStr s => chars (str_repr s)
  | JList l => chars ("[" +:+ join ", " (map (λ v, text (repr_value v)) l) +:+ "]")
  | JObj kvs =>
      chars ("{" +:+ join ", " (map (λ '(k, v), str_repr k +:+ ": " +:+ text (repr_value v)) kvs)
             +:+ "}")
  end.

Definition str_value (v : json) : string :=
  match v with JStr s => s | v => text (repr_value v) end.

(** ** Lemmas: UTF-8 *)

(** Prove a statement about one character by trying them all. *)
Ltac every_ascii c := destruct c as [[] [] [] [] [] [] [] []]; try reflexivity.

Lemma utf8_decode_char c l : utf8_decode (utf8_char c ++ l) = cons c <$> utf8_decode l.
Proof. every_ascii c. Qed.

Lemma utf8_decode_encode l : utf8_decode (utf8_encode l) = Some l.
Proof.
  induction l as [|c l IH]; [done|]. unfold utf8_encode in *. csimpl.
  by rewrite utf8_decode_char, IH.
Qed.

Lemma utf8_encode_cons c l : utf8_encode (c :: l) = utf8_char c ++ utf8_encode l.
Proof. done. Qed.

Lemma utf8_char_cases (c : ascii) :
  utf8_char c = [c] ∧ (code c <? 128)%N = true ∨
  ∃ a b, utf8_char c = [a; b] ∧ utf8_decode [a] = None ∧ a ≠ newline ∧ b ≠ newline ∧ c ≠ newline.
Proof. every_ascii c; (by left) || (right; eexists _, _; by split_and!). Qed.

Lemma utf8_newline l : newline ∈ utf8_encode l ↔ newline ∈ l.
Proof.
  induction l as [|c l IH]; [done|].
  rewrite utf8_encode_cons, elem_of_app, elem_of_cons, IH.
  destruct (utf8_char_cases c) as [[-> _]|(a & b & -> & _ & ? & ? & ?)].
  - by rewrite list_elem_of_singleton.
  - rewrite !elem_of_cons, elem_of_nil. naive_solver.
Qed.

(** What a cut text decodes to is a cut of what it encodes. *)
Lemma utf8_decode_prefix l p s :
  p `prefix_of` utf8_encode l → utf8_decode p = Some s → s `prefix_of` l.
Proof.
  revert p s. induction l as [|c l IH]; intros p s [q Hq] Hs.
  { symmetry in Hq. apply app_eq_nil in Hq as [-> _]. simpl in Hs. by injection Hs as <-. }
  rewrite utf8_encode_cons in Hq.
  destruct (utf8_char_cases c) as [[E Hc]|(a & b & E & Ha & _)]; rewrite E in Hq; simpl in Hq.
  - destruct p as [|c' p]; [injection Hs as <-; apply prefix_nil|].
    injection Hq as <- Hq. simpl in Hs. rewrite Hc in Hs.
    destruct (utf8_decode p) as [s'|] eqn:Es; [|done]. injection Hs as <-.
    apply prefix_cons, (IH p); [by exists q|done].
  - destruct p as [|a' [|b' p]].
    + injection Hs as <-. apply prefix_nil.
    + injection Hq as <- _. by rewrite Ha in Hs.
    + injection Hq as <- <- Hq. change (a :: b :: p) with ([a; b] ++ p) in Hs.
      rewrite <- E, utf8_decode_char in Hs.
      destruct (utf8_decode p) as [s'|] eqn:Es; [|done]. injection Hs as <-.
      apply prefix_cons, (IH p); [by exists q|done].
Qed.

(** ** Lemmas: tokens *)

Lemma read_chars_escape f c l :
  read_chars (escape f c ++ l) = '(s, r) ← read_chars l; Some (c :: s, r).
Proof. unfold escape. destruct (ensure_ascii f); every_ascii c. Qed.

Lemma read_chars_print f s l : read_chars ((chars s ≫= escape f) ++ quote :: l) = Some (chars s, l).
Proof.
  induction (chars s) as [|c cs IH]; [done|]. csimpl.
  by rewrite <- (assoc_L (++)), read_chars_escape, IH.
Qed.

(** The decimal digits of a number: no leading zero but in [0] itself. *)
Record decimal (ds : list ascii) (n : Z) : Prop := Decimal {
  dec_digits : forallb is_digit ds = true;
  dec_value : digits_value ds = n;
  dec_zero : n = 0 → ds = ["0"%char];
  dec_head : n ≠ 0 → ∃ c r, ds = c :: r ∧ Ascii.eqb c "0" = false;
}.

Lemma pretty_char_digit n :
  (n < 10)%N → is_digit (pretty_N_char n) = true ∧ digit_value (pretty_N_char n) = Z.of_N n ∧
  Ascii.eqb (pretty_N_char n) "0" = (n =? 0)%N.
Proof.
  intros H. assert (n = 0 ∨ n = 1 ∨ n = 2 ∨ n = 3 ∨ n = 4 ∨ n = 5 ∨ n = 6 ∨ n = 7 ∨ n = 8 ∨ n = 9)%N
    as Hn by lia. by repeat destruct Hn as [->|Hn]; [..|subst].
Qed.

Lemma digits_value_app ds c : digits_value (ds ++ [c]) = 10 * digits_value ds + digit_value c.
Proof. unfold digits_value. by rewrite foldl_app. Qed.

Lemma pretty_go_chars n s :
  (0 < n)%N → ∃ ds, chars (pretty_N_go n s) = ds ++ chars s ∧ decimal ds (Z.of_N n).
Proof.
  revert s. induction (N.lt_wf_0 n) as [n _ IH]. intros s Hn. rewrite pretty_N_go_step by done.
  destruct (pretty_char_digit (n `mod` 10)) as (Hd & Hv & Hz); [by apply N.mod_lt|].
  destruct (decide (n < 10)%N) as [Hs|Hs].
  - rewrite N.div_small, pretty_N_go_0 by done. eexists [_]. split; [done|].
    rewrite N.mod_small in * by done. constructor; simpl.
    + by rewrite Hd.
    + unfold digits_value. simpl. lia.
    + lia.
    + intros _. eexists _, _. split; [done|]. rewrite Hz. by apply N.eqb_neq; lia.
  - destruct (IH (n `div` 10)%N ltac:(apply N.div_lt; lia)
      (String (pretty_N_char (n `mod` 10)) s)) as (ds & E & [D1 D2 D3 D4]).
    { apply N.div_str_pos. lia. }
    assert (Hq : (0 < n `div` 10)%N) by (apply N.div_str_pos; lia).
    exists (ds ++ [pretty_N_char (n `mod` 10)]). split; [by rewrite E, <- (assoc_L (++))|].
    constructor.
    + by rewrite forallb_app, D1; simpl; rewrite Hd.
    + rewrite digits_value_app, D2, Hv. pose proof (N.div_mod n 10). lia.
    + lia.
    + intros _. destruct D4 as (c & r & -> & Hc); [lia|]. by exists c, (r ++ [pretty_N_char (n `mod` 10)]).
Qed.

Lemma str_of_Z_digits n : 0 ≤ n → decimal (chars (str_of_Z n)) n.
Proof.
  intros Hn. destruct n as [|p|p]; [by constructor| |lia].
  - change (str_of_Z (Z.pos p)) with (pretty_N_go (N.pos p) "").
    destruct (pretty_go_chars (N.pos p) "" eq_refl) as (ds & E & D).
    rewrite app_nil_r in E. by rewrite E.
Qed.

Lemma str_of_Z_neg n : n < 0 → chars (str_of_Z n) = "-"%char :: chars (str_of_Z (- n)).
Proof. destruct n as [|p|p]; [lia..|done]. Qed.

(** What may follow a number without extending it. *)
Definition stops (l : list ascii) : Prop :=
  match l with
  | [] => True
  | c :: _ => is_digit c = false ∧ Ascii.eqb c "." = false ∧
              Ascii.eqb c "e" || Ascii.eqb c "E" = false
  end.

Lemma span_digits_app l q :
  match (span_digits l).2 ++ q with [] => True | c :: _ => is_digit c = false end →
  span_digits (l ++ q) = ((span_digits l).1, (span_digits l).2 ++ q).
Proof.
  induction l as [|c l IH]; simpl.
  - destruct q as [|c q]; [done|]. simpl. by intros ->.
  - destruct (is_digit c) eqn:Hc; [|simpl; by rewrite Hc].
    destruct (span_digits l) as [ds r]. simpl. intros H. by rewrite (IH H).
Qed.

Lemma span_digits_all ds q :
  forallb is_digit ds = true → match q with [] => True | c :: _ => is_digit c = false end →
  span_digits (ds ++ q) = (ds, q).
Proof.
  induction ds as [|c ds IH]; simpl; intros Hd Hq.
  - destruct q as [|c q]; [done|]. simpl. by rewrite Hq.
  - apply andb_true_iff in Hd as [-> Hd]. by rewrite IH.
Qed.

Lemma number_digits_rest l ds r :
  span_digits l = (ds, r) →
  l = ds ++ r ∧ match r with [] => True | c :: _ => is_digit c = false end.
Proof.
  revert ds r. induction l as [|c l IH]; simpl; intros ds r; [by intros [= <- <-]|].
  destruct (is_digit c) eqn:Hc.
  - destruct (span_digits l) as [ds' r'] eqn:E. intros [= <- <-].
    destruct (IH ds' r' eq_refl) as [-> H]. done.
  - by intros [= <- <-].
Qed.

Lemma head_app {A} (P : A → Prop) (r q : list A) :
  match r with [] => True | c :: _ => P c end →
  (r = [] → match q with [] => True | c :: _ => P c end) →
  match r ++ q with [] => True | c :: _ => P c end.
Proof. destruct r; simpl; [intros _ H; by apply H|done]. Qed.

(** What is left of a text after the fraction and the exponent. *)
Lemma read_exponent_stops l e r :
  read_exponent l = (e, r) → r = l ∨ e ≠ None ∧ (r = [] ∨ ∃ c r', r = c :: r' ∧ is_digit c = false).
Proof.
  unfold read_exponent. destruct l as [|c l]; [by intros [= <- <-]; left|].
  destruct (_ || _); [|by intros [= <- <-]; left].
  destruct (read_sign l) as [neg l']. destruct (span_digits l') as [ds r'] eqn:E.
  apply number_digits_rest in E as [_ Hr]. destruct ds; intros [= <- <-]; [by left|right].
  split; [done|]. destruct r' as [|c' r']; [by left|right; by exists c', r'].
Qed.

Lemma read_exponent_app l e r q :
  read_exponent l = (e, r) → stops (r ++ q) → read_exponent (l ++ q) = (e, r ++ q).
Proof.
  unfold read_exponent. destruct l as [|c l]; simpl.
  - intros [= <- <-]. destruct q as [|c q]; [done|]. simpl. intros (_ & _ & H). by rewrite H.
  - destruct (Ascii.eqb c "e" || Ascii.eqb c "E") eqn:Hc; [|by intros [= <- <-]].
    destruct l as [|s l]; simpl.
    { intros [= <- <-]. simpl. intros (_ & _ & H). congruence. }
    intros H Hq. destruct (Ascii.eqb s "-"); [|destruct (Ascii.eqb s "+")];
      (destruct (span_digits _) as [ds r'] eqn:E;
       destruct ds as [|d ds]; injection H as <- <-;
         [by destruct Hq as (_ & _ & Hq); simpl in Hq; congruence|];
       try change (s :: l ++ q) with ((s :: l) ++ q);
       rewrite span_digits_app, E; [done|]; rewrite E; simpl;
       destruct (r' ++ q); [done|]; apply Hq).
Qed.

Lemma read_fraction_app l f r q :
  read_fraction l = (f, r) → (r = [] → stops q) →
  (∀ c r', r = c :: r' → Ascii.eqb c "." = false) →
  read_fraction (l ++ q) = (f, r ++ q).
Proof.
  unfold read_fraction. destruct l as [|c l]; simpl.
  - intros [= <- <-] Hq _. specialize (Hq eq_refl). destruct q as [|c q]; [done|].
    simpl. by destruct Hq as (_ & -> & _).
  - destruct (Ascii.eqb c ".") eqn:Hc; [|by intros [= <- <-]].
    destruct (span_digits l) as [ds r'] eqn:E. destruct ds as [|d ds]; intros [= <- <-] Hq Hr.
    { specialize (Hr _ _ eq_refl). congruence. }
    rewrite span_digits_app, E; [done|]. rewrite E. simpl.
    apply number_digits_rest in E as [_ Hd]. apply head_app; [done|]. intros ->.
    specialize (Hq eq_refl). destruct q; [done|]. apply Hq.
Qed.

Lemma read_fraction_rest l f r :
  read_fraction l = (f, r) → r = l ∨ (r = [] ∨ ∃ c r', r = c :: r' ∧ is_digit c = false).
Proof.
  unfold read_fraction. destruct l as [|c l]; [by intros [= <- <-]; left|].
  destruct (Ascii.eqb c "."); [|by intros [= <- <-]; left].
  destruct (span_digits l) as [ds r'] eqn:E. apply number_digits_rest in E as [_ Hr].
  destruct ds; intros [= <- <-]; [by left|right].
  destruct r' as [|c' r']; [by left|right; by exists c', r'].
Qed.

(** A number is read in the same way when more text follows, if that text does
    not extend it. *)
Lemma read_number_app l v r q :
  read_number l = Some (v, r) → stops (r ++ q) → read_number (l ++ q) = Some (v, r ++ q).
Proof.
  unfold read_number. intros H Hq.
  destruct l as [|c l]; [done|]. simpl.
  set (nl := if Ascii.eqb c "-" then (true, l) else (false, c :: l)) in *.
  assert (E : (if Ascii.eqb c "-" then (true, l ++ q) else (false, c :: l ++ q)) = (nl.1, nl.2 ++ q))
    by (unfold nl; by destruct (Ascii.eqb c "-")).
  rewrite E. clear E. destruct nl as [neg l1]. simpl.
  destruct (read_whole l1) as [[whole l2]|] eqn:Ew; [|done]. simpl in *.
  destruct (read_fraction l2) as [frac l3] eqn:Ef. destruct (read_exponent l3) as [e l4] eqn:Ee.
  assert (Hr : r = l4) by (destruct frac, e; [by injection H..|]; case_match; [done|by injection H]).
  subst l4.
  assert (Ee' : read_exponent (l3 ++ q) = (e, r ++ q)) by by apply read_exponent_app.
  assert (Hl3 : l3 = [] → r = []) by (intros ->; by injection Ee as <- <-).
  assert (Ef' : read_fraction (l2 ++ q) = (frac, l3 ++ q)).
  { apply read_fraction_app; [done|by intros ->%Hl3|]. intros c' r' ->.
    destruct (Ascii.eqb c' ".") eqn:Hc'; [|done]. exfalso.
    apply Ascii.eqb_eq in Hc' as ->. injection Ee as <- <-. by destruct Hq as (_ & Hq & _). }
  assert (Ew' : read_whole (l1 ++ q) = Some (whole, l2 ++ q)).
  { assert (Hl2 : l2 = [] → r = []) by (intros ->; injection Ef as <- <-; by apply Hl3).
    unfold read_whole in *. destruct l1 as [|c1 l1]; [done|]. cbn [app].
    destruct (Ascii.eqb c1 "0"); [by injection Ew as <- <-|].
    destruct (is_digit c1) eqn:Hc1; [|done].
    assert (Es : span_digits (c1 :: l1) = (whole, l2)) by (injection Ew; cbn; by rewrite Hc1).
    clear Ew. rename Es into Ew.
    change (c1 :: l1 ++ q) with ((c1 :: l1) ++ q).
    rewrite span_digits_app, Ew; [done|]. rewrite Ew. simpl.
    apply number_digits_rest in Ew as [_ Hd]. apply head_app; [done|]. intros ->%Hl2.
    subst. destruct q; [done|]. apply Hq. }
  rewrite Ew'. simpl. rewrite Ef', Ee'. destruct frac, e; [by injection H as <-..|].
  case_match; [done|]. by injection H as <-.
Qed.

Lemma read_number_decimal negative ds n :
  decimal ds n → (MAX_STR_DIGITS <? Z.of_nat (length ds)) = false →
  read_number ((if negative : bool then ["-"%char] else []) ++ ds)
  = Some (JInt (if negative then - n else n), []).
Proof.
  intros [Hd Hv H0 Hh] Hl. assert (Hw : read_whole ds = Some (ds, [])).
  { destruct (decide (n = 0)) as [Hn|Hn]; [by rewrite (H0 Hn)|].
    destruct (Hh Hn) as (c & r & -> & Hc). unfold read_whole. rewrite Hc.
    pose proof Hd as Hd'. simpl in Hd'. apply andb_true_iff in Hd' as [-> _].
    rewrite <- (app_nil_r (c :: r)) at 1. by rewrite span_digits_all. }
  assert (Hneg : match ds with c :: r => if Ascii.eqb c "-" then (true, r) else (false, ds)
                          | [] => (false, []) end = (false, ds)).
  { destruct ds as [|c r]; [done|]. destruct (Ascii.eqb_spec c "-") as [->|]; [|done].
    by simpl in Hd. }
  unfold read_number. destruct negative; simpl app.
  - simpl. rewrite Hw. simpl. by rewrite Hl, Hv.
  - rewrite Hneg. cbn. rewrite Hw. simpl. by rewrite Hl, Hv.
Qed.

Lemma length_chars s : String.length s = length (chars s).
Proof. induction s as [|c s IH]; simpl; [done|]. by rewrite IH. Qed.

Lemma read_number_int z :
  int_too_long z = false → read_number (chars (str_of_Z z)) = Some (JInt z, []).
Proof.
  unfold int_too_long, slen. intros Hl.
  rewrite length_chars in Hl. destruct (Z.ltb_spec z 0) as [Hz|Hz].
  - rewrite str_of_Z_neg by done. replace (- z) with (Z.abs z) in * by lia.
    pose proof (read_number_decimal true _ _ (str_of_Z_digits (Z.abs z) ltac:(lia)) Hl) as Hr.
    cbn [app] in Hr. rewrite Hr.
    by replace (- Z.abs z) with z by lia.
  - replace (Z.abs z) with z in * by lia.
    exact (read_number_decimal false _ _ (str_of_Z_digits z Hz) Hl).
Qed.

(** ** Induction on JSON values *)

Section JsonInd.
Context (P : json → Prop).
Context (Hatom : ∀ v, match v with JList _ | JObj _ => False | _ => True end → P v).
Context (Hlist : ∀ l, Forall P l → P (JList l)).
Context (Hobj : ∀ kvs, Forall (λ kv, P kv.2) kvs → P (JObj kvs)).

Fixpoint json_nested_ind (v : json) : P v :=
  match v with
  | JList l =>
      Hlist l ((fix go l : Forall P l :=
        match l with [] => Forall_nil_2 _ | v :: l => Forall_cons_2 _ _ _ (json_nested_ind v) (go l) end) l)
  | JObj kvs =>
      Hobj kvs ((fix go kvs : Forall (λ kv, P kv.2) kvs :=
        match kvs with
        | [] => Forall_nil_2 _
        | (k, v) :: kvs => Forall_cons_2 _ (k, v) _ (json_nested_ind v) (go kvs)
        end) kvs)
  | v => Hatom v I
  end.
End JsonInd.

(** ** Sorting members by key *)

Lemma string_leb_total a b : String.leb a b = true ∨ String.leb b a = true.
Proof.
  unfold String.leb. rewrite (String.compare_antisym a b).
  destruct (String.compare b a); simpl; auto.
Qed.

Lemma sort_by_map {A B} (la : A → A → bool) (lb : B → B → bool) (g : A → B) l :
  (∀ x y, lb (g x) (g y) = la x y) → sort_by lb (map g l) = map g (sort_by la l).
Proof.
  intros H. induction l as [|x l IH]; simpl; [done|]. rewrite IH. clear IH.
  generalize (sort_by la l) as k. induction k as [|y k IHk]; simpl; [done|].
  rewrite H. destruct (la x y); [done|]. simpl. by rewrite IHk.
Qed.

(** Members with printed values, in the order of their keys. *)
Lemma sort_members {A B} (g : A → B) (kvs : list (string * A)) :
  sort_by key_le (map (λ '(k, v), (k, g v)) kvs)
  = map (λ '(k, v), (k, g v)) (sort_by key_le kvs).
Proof. apply sort_by_map. by intros [? ?] [? ?]. Qed.

(** The value that is read back: members are in the order of their keys. *)
Fixpoint canonical (v : json) : json :=
  match v with
  | JList l => JList (map canonical l)
  | JObj kvs => JObj (sort_by key_le (map (λ '(k, v), (k, canonical v)) kvs))
  | v => v
  end.

(** Values that have a text that can be read: floats are finite and their text
    reads back as the same float, integers are below the conversion limit,
    keys are distinct. *)
Fixpoint readable (v : json) : Prop :=
  match v with
  | JInt z => int_too_long z = false
  | JFloat x => is_finite x = true ∧ read_number (float_repr x) = Some (JFloat x, [])
  | JList l => foldr (λ v P, readable v ∧ P) True l
  | JObj kvs => NoDup kvs.*1 ∧ foldr (λ '(k, v) P, readable v ∧ P) True kvs
  | _ => True
  end.

Lemma readable_list l : readable (JList l) ↔ Forall readable l.
Proof. simpl. induction l as [|v l IH]; simpl; [done|]. by rewrite Forall_cons, IH. Qed.

Lemma readable_obj kvs : readable (JObj kvs) ↔ NoDup kvs.*1 ∧ Forall (λ kv, readable kv.2) kvs.
Proof.
  simpl. assert (E : foldr (λ '(k, v) P, readable v ∧ P) True kvs ↔ Forall (λ kv, readable kv.2) kvs);
    [|by rewrite E].
  induction kvs as [|[k v] kvs IH]; simpl; [done|]. by rewrite Forall_cons, IH.
Qed.

Lemma head_omap_none {A B} (f : A → option B) l : head (omap f l) = None ↔ Forall (λ a, f a = None) l.
Proof.
  induction l as [|a l IH]; csimpl; [done|]. rewrite Forall_cons.
  destruct (f a); simpl; [naive_solver|]. naive_solver.
Qed.

Lemma float_json_finite x : is_finite x = true → float_json x = float_repr x.
Proof. by destruct x. Qed.

Lemma readable_printable b v : readable v → unprintable b v = None.
Proof.
  induction v as [v Hv|l IH|kvs IH] using json_nested_ind.
  - destruct v; try done; simpl; [by intros ->|by intros [-> _]; rewrite orb_true_r].
  - rewrite readable_list. intros Hr. simpl. apply head_omap_none.
    apply Forall_forall. intros v Hv. rewrite Forall_forall in IH, Hr. auto.
  - rewrite readable_obj. intros [_ Hr]. simpl. apply head_omap_none.
    rewrite sort_by_perm, Forall_map, Forall_forall. intros [k v] Hv. simpl.
    rewrite Forall_forall in IH, Hr. by apply (IH _ Hv), (Hr _ Hv).
Qed.

(** ** Reading what was printed *)

Definition layout_ok (f : layout) : Prop :=
  forallb is_ws (after_comma f) = true ∧ forallb is_ws (after_colon f) = true.

Lemma skip_ws_app w l : forallb is_ws w = true → skip_ws (w ++ l) = skip_ws l.
Proof.
  induction w as [|c w IH]; simpl; intros H; [done|]. apply andb_true_iff in H as [Hc H].
  unfold skip_ws in *. simpl. by rewrite Hc, IH.
Qed.

Lemma skip_ws_head c l : is_ws c = false → skip_ws (c :: l) = c :: l.
Proof. unfold skip_ws. simpl. by intros ->. Qed.

Lemma line_start_ws f level : forallb is_ws (line_start f level) = true.
Proof.
  unfold line_start. destruct (indent f) as [k|]; [|done]. simpl.
  induction (k * level)%nat; simpl; [done|]. done.
Qed.

(** What may follow a value. *)
Definition follows (l : list ascii) : Prop :=
  match l with
  | [] => True
  | c :: _ => is_ws c || Ascii.eqb c "," || Ascii.eqb c "]" || Ascii.eqb c "}" = true
  end.

Lemma follows_stops l : follows l → stops l.
Proof. destruct l as [|c l]; [done|]. every_ascii c; try done. Qed.

Lemma follows_ws w l : forallb is_ws w = true → follows l → follows (w ++ l).
Proof. destruct w as [|c w]; simpl; [done|]. intros [-> _]%andb_true_iff _. done. Qed.

(** The first character of a value. *)
Definition opens (c : ascii) : Prop :=
  is_ws c = false ∧ Ascii.eqb c "]" = false ∧ Ascii.eqb c "}" = false.

Lemma digit_opens c : is_digit c = true → opens c.
Proof. every_ascii c; try done. Qed.

Lemma read_number_shape l x :
  read_number l = Some x →
  ∃ c r, l = c :: r ∧ (is_digit c = true ∨ c = "-"%char ∧ ∃ d r', r = d :: r' ∧ is_digit d = true).
Proof.
  unfold read_number. destruct l as [|c l]; [done|].
  assert (Hw : ∀ l y, read_whole l = Some y → ∃ d r, l = d :: r ∧ is_digit d = true).
  { intros [|d r] y; [done|]. unfold read_whole. destruct (Ascii.eqb_spec d "0") as [->|]; [eauto|].
    destruct (is_digit d) eqn:Hd; [eauto|done]. }
  destruct (Ascii.eqb_spec c "-") as [->|Hc]; intros H; exists c || eexists _, _.
  - split; [done|]. right. split; [done|]. destruct (read_whole l) eqn:E; [|done]. by eapply Hw.
  - exists l. split; [done|]. left. destruct (read_whole (c :: l)) eqn:E; [|done].
    destruct (Hw _ _ E) as (d & r & [= -> ->] & Hd). done.
Qed.

Lemma strip_word_digit w word d r :
  is_digit d = true → is_digit w = false → strip_word (w :: word) (d :: r) = None.
Proof. intros Hd Hw. simpl. destruct (Ascii.eqb_spec w d) as [->|]; [congruence|done]. Qed.

Lemma read_number_not_constant l x q :
  read_number l = Some x → read_constant constants (l ++ q) = None.
Proof.
  intros (c & r & -> & [Hd|(-> & d & r' & -> & Hd)])%read_number_shape; cbn [app constants read_constant chars String.list_ascii_of_string].
  - by rewrite !strip_word_digit by done.
  - change (match strip_word (chars "Infinity") (d :: r' ++ q) with
            | Some r => Some (JFloat (S754_infinity true), r) | None => None end = None).
    cbn [chars String.list_ascii_of_string]. by rewrite strip_word_digit.
Qed.

Lemma print_items_opens f level o c items : opens o → ∃ d r, print_items f level o c items = d :: r ∧ opens d.
Proof. intros Ho. destruct items; by eexists _, _. Qed.

Lemma print_opens f level v : readable v → ∃ c r, print_value f level v = c :: r ∧ opens c.
Proof.
  assert (Hnum : ∀ l x, read_number l = Some x → ∃ c r, l = c :: r ∧ opens c).
  { intros l x (c & r & -> & [Hd|[-> _]])%read_number_shape; eexists _, _; (split; [done|]);
      [by apply digit_opens|done]. }
  destruct v as [|[]|z|x|s|l|kvs]; intros Hv; try (by eexists _, _; split; [reflexivity|done]).
  - by eapply Hnum, read_number_int.
  - destruct Hv as [Hf Hx]. cbn [print_value]. rewrite float_json_finite by done. by eapply Hnum.
  - by apply print_items_opens.
  - by apply print_items_opens.
Qed.

#[local] Arguments skip_ws : simpl never.

(** Compare the lengths of concatenations. *)
Ltac len := repeat progress (rewrite ?length_app in *; cbn [length app] in *); lia.

Section ReadPrint.
Context (f : layout) (Hf : layout_ok f).

(** A printed value is read back when the fuel allows for the text. *)
Definition reads_back (v : json) : Prop :=
  ∀ level fuel q, readable v → follows q →
    (2 * length (print_value f level v ++ q) < fuel)%nat →
    read_value fuel (print_value f level v ++ q) = Some (canonical v, q).

Lemma text_chars s : text (chars s) = s.
Proof. apply String.string_of_list_ascii_of_string. Qed.

Lemma reads_back_number v level :
  read_number (print_value f level v) = Some (v, []) → canonical v = v →
  ∀ fuel q, follows q → (0 < fuel)%nat →
    read_value fuel (print_value f level v ++ q) = Some (v, q).
Proof.
  intros Hn Hc fuel q Hq Hfuel.
  pose proof (read_number_app _ _ _ q Hn (follows_stops _ Hq)) as Hr.
  pose proof (read_number_not_constant _ _ q Hn) as Hk.
  pose proof (read_number_shape _ _ Hn) as (c & r & E & Hd).
  rewrite E in *. destruct fuel as [|fuel]; [lia|]. cbn [app] in *.
  assert (Hno : Ascii.eqb c quote = false ∧ Ascii.eqb c "{" = false ∧ Ascii.eqb c "[" = false).
  { clear -Hd. destruct Hd as [Hd|[-> _]]; [|done]. revert Hd. every_ascii c; try done. }
  destruct Hno as (H1 & H2 & H3). cbn [read_value]. rewrite H1, H2, H3, Hk. exact Hr.
Qed.

Lemma reads_back_atom v :
  match v with JList _ | JObj _ => False | _ => True end → reads_back v.
Proof.
  intros Ha level fuel q Hv Hq Hfuel. assert (Hpos : (0 < fuel)%nat) by lia.
  destruct v as [|b|z|x|s| |]; try done.
  - destruct fuel; [lia|done].
  - destruct fuel; [lia|by destruct b].
  - apply reads_back_number; [by apply read_number_int|done..].
  - destruct Hv as [Hx Hv]. apply reads_back_number; [|done..].
    cbn [canonical print_value]. by rewrite float_json_finite.
  - destruct fuel as [|fuel]; [lia|]. cbn [print_value]. unfold print_string.
    cbn [app]. rewrite <- (assoc_L (++)). cbn [app read_value].
    rewrite Ascii.eqb_refl, read_chars_print. simpl. by rewrite text_chars.
Qed.

Definition separator (level : nat) (item : list ascii) : list ascii :=
  ","%char :: after_comma f ++ line_start f (S level) ++ item.

Lemma skip_line_start level c q : is_ws c = false → skip_ws (line_start f level ++ c :: q) = c :: q.
Proof. intros Hc. rewrite skip_ws_app by apply line_start_ws. by apply skip_ws_head. Qed.

Lemma skip_separator level t q :
  (∃ c r, t = c :: r ∧ opens c) →
  skip_ws (after_comma f ++ line_start f (S level) ++ t ++ q) = t ++ q.
Proof.
  intros (c & r & -> & (Hc & _)). destruct Hf as [H1 _].
  rewrite skip_ws_app by done. by apply skip_line_start.
Qed.

Lemma elements_follow level items close q :
  close = "]"%char ∨ close = "}"%char →
  follows ((items ≫= separator level) ++ line_start f level ++ close :: q).
Proof.
  intros Hc. destruct items; simpl; [|done].
  apply follows_ws; [apply line_start_ws|]. by destruct Hc as [-> | ->].
Qed.

Lemma read_elements_print level l v fuel acc q :
  Forall reads_back (v :: l) → Forall readable (v :: l) →
  let t := print_value f (S level) v
           ++ (map (print_value f (S level)) l ≫= separator level)
           ++ line_start f level ++ "]"%char :: q in
  (2 * length t + 1 < fuel)%nat →
  read_elements fuel acc t = Some (JList (rev acc ++ map canonical (v :: l)), q).
Proof.
  revert v fuel acc. induction l as [|v' l IH]; intros v fuel acc Hb Hr; cbn zeta.
  - destruct fuel as [|fuel]; [lia|]. intros Hfuel. cbn [read_elements].
    apply Forall_cons in Hb as [Hb _], Hr as [Hr _].
    rewrite Hb; [|done|by apply (elements_follow level []); left|lia].
    cbn [map mbind list_bind]. simpl. rewrite skip_line_start by done. simpl.
    done.
  - destruct fuel as [|fuel]; [lia|]. intros Hfuel. cbn [read_elements].
    apply Forall_cons in Hb as [Hb Hbs], Hr as [Hr Hrs].
    rewrite Hb; [|done|apply elements_follow; by left|lia].
    rewrite map_cons, bind_cons. unfold separator at 1. cbn [app].
    cbn [mbind option_bind]. rewrite skip_ws_head by done. cbn [Ascii.eqb Bool.eqb]. rewrite <- !(assoc_L (++)).
    rewrite skip_separator by by apply print_opens; inversion Hrs.
    rewrite IH; [by simpl; rewrite <- (assoc_L (++))|done..|].
    rewrite map_cons, bind_cons in Hfuel. unfold separator at 1 in Hfuel. len.
Qed.

Lemma obj_set_fresh k v acc : k ∉ acc.*1 → obj_set k v acc = acc ++ [(k, v)].
Proof.
  induction acc as [|[k' v'] acc IH]; csimpl; [done|]. intros [Hk Hacc]%not_elem_of_cons.
  rewrite bool_decide_false by done. by rewrite IH.
Qed.

Definition canonical_member (member : string * json) : string * json :=
  (member.1, canonical member.2).

Definition member_text (level : nat) (member : string * json) : list ascii :=
  print_member f (member.1, print_value f (S level) member.2).

Lemma member_opens level m : ∃ c r, member_text level m = c :: r ∧ opens c.
Proof. by eexists _, _. Qed.

(** One member: the key, the colon and the value. *)
Lemma read_member_print level fuel acc k v t :
  reads_back v → readable v → follows t → k ∉ acc.*1 →
  (2 * length (member_text level (k, v) ++ t) < fuel)%nat →
  read_members (S fuel) acc (member_text level (k, v) ++ t) =
  match skip_ws t with
  | c :: r =>
      if Ascii.eqb c "}" then Some (JObj (acc ++ [(k, canonical v)]), r)
      else if Ascii.eqb c "," then read_members fuel (acc ++ [(k, canonical v)]) (skip_ws r)
      else None
  | [] => None
  end.
Proof.
  intros Hb Hr Ht Hk Hfuel. unfold member_text, print_member, print_string in *.
  cbn [fst snd app] in *. rewrite <- !(assoc_L (++)) in *. cbn [app] in *.
  cbn [read_members]. rewrite Ascii.eqb_refl, read_chars_print.
  cbn [mbind option_bind]. rewrite skip_ws_head by done. cbn [Ascii.eqb Bool.eqb].
  destruct Hf as [_ Hcolon]. rewrite <- (assoc_L (++)), skip_ws_app by done.
  destruct (print_opens f (S level) v Hr) as (c & r & E & Ho).
  assert (Es : skip_ws (print_value f (S level) v ++ t) = print_value f (S level) v ++ t)
    by (rewrite E; apply skip_ws_head, Ho).
  rewrite Es, Hb; [|done..|].
  - cbn [mbind option_bind]. by rewrite text_chars, obj_set_fresh.
  - len.
Qed.

Lemma read_members_print level l k v fuel acc q :
  Forall (λ kv, reads_back kv.2) ((k, v) :: l) → Forall (λ kv, readable kv.2) ((k, v) :: l) →
  NoDup (acc.*1 ++ k :: l.*1) →
  let t := member_text level (k, v)
           ++ (map (member_text level) l ≫= separator level)
           ++ line_start f level ++ "}"%char :: q in
  (2 * length t + 1 < fuel)%nat →
  read_members fuel acc t = Some (JObj (acc ++ map canonical_member ((k, v) :: l)), q).
Proof.
  revert k v fuel acc. induction l as [|[k' v'] l IH]; intros k v fuel acc Hb Hr Hnd; cbn zeta;
    intros Hfuel; (destruct fuel as [|fuel]; [lia|]);
    apply Forall_cons in Hb as [Hb Hbs], Hr as [Hr Hrs]; cbn [snd] in *;
    assert (Hk : k ∉ acc.*1) by
      (intros Hin; apply NoDup_app in Hnd as (_ & Hnd & _); apply (Hnd k Hin); left).
  - rewrite read_member_print; [|done|done|by apply (elements_follow level []); right|done|lia].
    cbn [map mbind list_bind app]. rewrite skip_line_start by done. done.
  - rewrite read_member_print; [|done|done|apply elements_follow; by right|done|lia].
    rewrite map_cons, bind_cons. unfold separator at 1. cbn [app].
    rewrite skip_ws_head by done. cbn [Ascii.eqb Bool.eqb]. rewrite <- !(assoc_L (++)).
    rewrite skip_separator by apply member_opens.
    rewrite IH; [by rewrite <- (assoc_L (++))|done|done| |].
    + rewrite fmap_app. cbn. by rewrite <- (assoc_L (++)).
    + rewrite map_cons, bind_cons in Hfuel. unfold separator at 1 in Hfuel. len.
Qed.

Lemma print_items_read level opening closing item items :
  print_items f level opening closing (item :: items) =
  opening :: line_start f (S level) ++ item ++ (items ≫= separator level)
          ++ line_start f level ++ [closing].
Proof. done. Qed.

Lemma print_object level kvs :
  print_value f level (JObj kvs) =
  print_items f level "{"%char "}"%char (map (member_text level) (sort_by key_le kvs)).
Proof.
  cbn [print_value]. rewrite sort_members, map_map. f_equal. apply map_ext. by intros [k v].
Qed.

Lemma canonical_object kvs :
  canonical (JObj kvs) = JObj (map canonical_member (sort_by key_le kvs)).
Proof. cbn [canonical]. rewrite sort_members. f_equal. apply map_ext. by intros [k v]. Qed.

(** Every readable value is read back. *)
Lemma read_print_value v : reads_back v.
Proof.
  induction v as [v Ha|l IH|kvs IH] using json_nested_ind; [by apply reads_back_atom|..];
    intros level fuel q Hr Hq Hfuel; (destruct fuel as [|fuel]; [lia|]).
  - apply readable_list in Hr. cbn [print_value canonical] in *.
    destruct l as [|v l]; [done|]. rewrite map_cons in *.
    rewrite print_items_read in *. cbn [app] in *. rewrite <- !(assoc_L (++)) in *. cbn [app] in *.
    cbn [read_value]. change (Ascii.eqb "[" quote) with false.
    change (Ascii.eqb "[" "{") with false. change (Ascii.eqb "[" "[") with true. cbn iota.
    pose proof (print_opens f (S level) v ltac:(by inversion Hr)) as (c & r & E & Hws & Ho & _).
    assert (Es : skip_ws (print_value f (S level) v ++
      (map (print_value f (S level)) l ≫= separator level) ++ line_start f level ++ "]"%char :: q)
      = c :: r ++ (map (print_value f (S level)) l ≫= separator level) ++ line_start f level ++ "]"%char :: q)
      by (rewrite E; by apply skip_ws_head).
    rewrite skip_ws_app, Es, Ho by apply line_start_ws.
    change (c :: r ++ ?t) with ((c :: r) ++ t). rewrite <- E.
    rewrite read_elements_print; [done..|len].
  - rewrite print_object, canonical_object in *. apply readable_obj in Hr as [Hnd Hr].
    rewrite <- (sort_by_perm key_le kvs) in Hnd, Hr, IH.
    destruct (sort_by key_le kvs) as [|[k v] l]; [done|]. rewrite map_cons in *.
    rewrite print_items_read in *. cbn [app] in *. rewrite <- !(assoc_L (++)) in *. cbn [app] in *.
    cbn [read_value]. change (Ascii.eqb "{" quote) with false.
    change (Ascii.eqb "{" "{") with true. cbn iota.
    assert (Es : skip_ws (member_text level (k, v) ++
      (map (member_text level) l ≫= separator level) ++ line_start f level ++ "}"%char :: q)
      = member_text level (k, v) ++
      (map (member_text level) l ≫= separator level) ++ line_start f level ++ "}"%char :: q)
      by by apply skip_ws_head.
    rewrite skip_ws_app, Es by apply line_start_ws. unfold member_text, print_member, print_string at 1.
    cbn [fst app]. change (Ascii.eqb quote "}") with false. cbn iota.
    apply (read_members_print level l k v fuel [] q); [done..|]. len.
Qed.
End ReadPrint.

Lemma loads_print f level v w :
  layout_ok f → readable v → forallb is_ws w = true →
  loads (utf8_encode (print_value f level v ++ w)) = Some (canonical v).
Proof.
  intros Hf Hr Hw. unfold loads, read_text_value. rewrite utf8_decode_encode. cbn [mbind option_bind].
  destruct (print_opens f level v Hr) as (c & r & E & Hc & _).
  rewrite E at 1 2. cbn [app]. rewrite skip_ws_head by done.
  change (c :: r ++ w) with ((c :: r) ++ w). rewrite <- E.
  assert (Hq : follows w) by (rewrite <- (app_nil_r w); by apply follows_ws).
  rewrite (read_print_value f Hf v level); [|done|done|lia]. cbn [mbind option_bind].
  rewrite <- (app_nil_r w), skip_ws_app by done. done.
Qed.

(** Every readable value prints, and its text is read as the value. *)
Lemma loads_dumps f v :
  layout_ok f → readable v →
  ∃ t, dumps f v = Ok t ∧ t = print_value f 0 v ∧
    loads (utf8_encode t) = Some (canonical v) ∧
    loads (utf8_encode (t ++ [newline])) = Some (canonical v).
Proof.
  intros Hf Hr. exists (print_value f 0 v). split_and!.
  - unfold dumps. by rewrite readable_printable.
  - done.
  - rewrite <- (app_nil_r (print_value f 0 v)). by apply loads_print.
  - by apply loads_print.
Qed.

(** ** A printed value on one line *)

Lemma read_number_newline l v r : read_number l = Some (v, r) → newline ∈ l → newline ∈ r.
Proof.
  assert (Hspan : ∀ l ds r, span_digits l = (ds, r) → newline ∈ l → newline ∈ r).
  { clear. intros l. induction l as [|c l' IH]; simpl; intros ds r' E; [by injection E as <- <-|].
    destruct (is_digit c) eqn:Hc; [|by injection E as <- <-].
    destruct (span_digits l') as [ds' r''] eqn:E'. injection E as <- <-.
    intros [<-|Hin]%elem_of_cons; [done|]. by eapply IH. }
  intros H Hin. unfold read_number in H. destruct l as [|c l]; [done|].
  set (nl := if Ascii.eqb c "-" then (true, l) else (false, c :: l)) in *.
  assert (H1 : newline ∈ nl.2).
  { unfold nl. destruct (Ascii.eqb_spec c "-") as [->|]; [|done]. by apply elem_of_cons in Hin as [?|?]. }
  destruct nl as [neg l1]. simpl in H1. destruct (read_whole l1) as [[whole l2]|] eqn:Ew; [|done].
  assert (H2 : newline ∈ l2).
  { unfold read_whole in Ew. destruct l1 as [|c1 l1]; [done|].
    destruct (Ascii.eqb_spec c1 "0") as [->|].
    - injection Ew as <- <-. by apply elem_of_cons in H1 as [?|?].
    - destruct (is_digit c1) eqn:Hc1; [|done].
      assert (Es : span_digits (c1 :: l1) = (whole, l2)) by (injection Ew; cbn; by rewrite Hc1).
      by eapply Hspan. }
  cbn [mbind option_bind] in H. destruct (read_fraction l2) as [frac l3] eqn:Ef.
  assert (H3 : newline ∈ l3).
  { unfold read_fraction in Ef. destruct l2 as [|c2 l2]; [by apply not_elem_of_nil in H2|].
    destruct (Ascii.eqb_spec c2 ".") as [->|]; [|by injection Ef as <- <-].
    destruct (span_digits l2) as [ds r'] eqn:E. apply Hspan in E; [|by apply elem_of_cons in H2 as [?|?]].
    destruct ds; by injection Ef as <- <-. }
  destruct (read_exponent l3) as [e l4] eqn:Ee.
  assert (H4 : newline ∈ l4).
  { unfold read_exponent in Ee. destruct l3 as [|c3 l3]; [by apply not_elem_of_nil in H3|].
    destruct (_ || _) eqn:Hc; [|by injection Ee as <- <-].
    assert (Hl : newline ∈ l3) by (apply elem_of_cons in H3 as [<-|?]; done).
    assert (Hs : newline ∈ (read_sign l3).2).
    { unfold read_sign. destruct l3 as [|c4 l3]; [by apply not_elem_of_nil in Hl|].
      destruct (Ascii.eqb_spec c4 "-") as [->|]; [by apply elem_of_cons in Hl as [?|?]|].
      destruct (Ascii.eqb_spec c4 "+") as [->|]; [by apply elem_of_cons in Hl as [?|?]|done]. }
    destruct (read_sign l3) as [s r']. destruct (span_digits r') as [ds r''] eqn:E.
    apply Hspan in E; [|done]. destruct ds; by injection Ee as <- <-. }
  destruct frac, e; [by injection H as _ <-..|]. case_match; [done|]. by injection H as _ <-.
Qed.

(** A layout without line breaks. *)
Definition one_line (f : layout) : Prop :=
  newline ∉ after_comma f ∧ newline ∉ after_colon f ∧ indent f = None.

Lemma escape_newline f c : bool_decide (newline ∈ escape f c) = false.
Proof. unfold escape. destruct (ensure_ascii f); every_ascii c. Qed.

Lemma print_string_newline f s : newline ∉ print_string f s.
Proof.
  unfold print_string. rewrite elem_of_cons, elem_of_app, list_elem_of_bind, list_elem_of_singleton.
  intros [?|[(c & Hc & _)|?]]; [done| |done].
  pose proof (escape_newline f c) as Hn. by apply bool_decide_eq_false in Hn.
Qed.

Lemma print_items_newline f level opening closing items :
  one_line f → newline ≠ opening → newline ≠ closing → Forall (λ t, newline ∉ t) items →
  newline ∉ print_items f level opening closing items.
Proof.
  intros (H1 & H2 & H3) Ho Hc Hi.
  assert (Hls : ∀ k, line_start f k = []) by (intros k; unfold line_start; by rewrite H3).
  destruct items as [|item items]; cbn [print_items].
  - rewrite !elem_of_cons, elem_of_nil. naive_solver.
  - rewrite !Hls. apply Forall_cons in Hi as [Hi His]. rewrite Forall_forall in His.
    cbn [app]. rewrite elem_of_cons, !elem_of_app, list_elem_of_singleton, list_elem_of_bind.
    intros [?|[?|[(t & Hin & Ht)|?]]]; [done..| |done].
    apply elem_of_cons in Hin as [?|[?|?]%elem_of_app]; [done..|]. by eapply His.
Qed.

Lemma print_newline f level v : one_line f → readable v → newline ∉ print_value f level v.
Proof.
  intros Hf. revert level. induction v as [v Ha|l IH|kvs IH] using json_nested_ind; intros level Hr.
  - destruct v as [|[]|z|x|s| |]; try done; cbn [print_value];
      [decide_now..| | |apply print_string_newline].
    + intros Hin. by apply (read_number_newline _ _ _ (read_number_int z Hr)), not_elem_of_nil in Hin.
    + intros Hin. destruct Hr as [Hx Hr]. rewrite float_json_finite in Hin by done. by apply (read_number_newline _ _ _ Hr), not_elem_of_nil in Hin.
  - apply readable_list in Hr. apply print_items_newline; [done..|].
    rewrite Forall_map. rewrite Forall_forall in *. intros v Hv. by apply IH, Hr.
  - rewrite print_object. apply readable_obj in Hr as [_ Hr].
    apply print_items_newline; [done..|]. rewrite Forall_map, sort_by_perm.
    rewrite Forall_forall in *. intros [k v] Hv. unfold member_text, print_member.
    destruct Hf as (H1 & H2 & H3). cbn [fst snd].
    rewrite elem_of_app, elem_of_cons, elem_of_app. intros [Hs|[?|[?|Hin]]]; [|done..|].
    + by apply print_string_newline in Hs.
    + by apply (IH _ Hv _ (Hr _ Hv)) in Hin.
Qed.

(** ** More text, more fuel *)

Lemma skip_ws_more l c r q : skip_ws l = c :: r → skip_ws (l ++ q) = c :: r ++ q.
Proof.
  unfold skip_ws. induction l as [|c' l IH]; simpl; [done|].
  destruct (is_ws c'); [done|]. by intros [= <- <-].
Qed.

Lemma strip_word_more w l r q : strip_word w l = Some r → strip_word w (l ++ q) = Some (r ++ q).
Proof.
  revert l. induction w as [|c w IH]; intros l; simpl; [by intros [= ->]|].
  destruct l as [|c' l]; [done|]. simpl. destruct (Ascii.eqb c c'); [apply IH|done].
Qed.

Lemma strip_word_spec w l r : strip_word w l = Some r → l = w ++ r.
Proof.
  revert l. induction w as [|c w IH]; intros l; simpl; [by intros [= ->]|].
  destruct l as [|c' l]; [done|]. destruct (Ascii.eqb_spec c c') as [->|]; [|done].
  by intros ->%IH.
Qed.

Lemma read_constant_more l v r q :
  read_constant constants l = Some (v, r) → read_constant constants (l ++ q) = Some (v, r ++ q).
Proof.
  unfold constants. cbn [read_constant].
  repeat (destruct (strip_word _ l) as [r'|] eqn:E;
    [apply strip_word_spec in E as ->; intros [= <- <-]; by rewrite <- (assoc_L (++))|clear E]).
  done.
Qed.

Lemma read_chars_more l s r q : read_chars l = Some (s, r) → read_chars (l ++ q) = Some (s, r ++ q).
Proof.
  remember (length l) as n eqn:Hn. revert l s r Hn.
  induction n as [n IH] using (well_founded_induction Nat.lt_wf_0). intros l s r ->.
  assert (IH' : ∀ l' c s r, (length l' < length l)%nat →
    ('(s, r) ← read_chars l'; Some (c :: s, r)) = Some (s, r) →
    ('(s, r) ← read_chars (l' ++ q); Some (c :: s, r)) = Some (s, r ++ q)).
  { intros l' c s' r' Hl H. destruct (read_chars l') as [[s0 r0]|] eqn:E; [|done].
    rewrite (IH _ Hl _ _ _ eq_refl E). by injection H as <- <-. }
  destruct l as [|c l]; [done|]. cbn [app read_chars].
  destruct (Ascii.eqb c quote); [by intros [= <- <-]|].
  destruct (Ascii.eqb c backslash).
  - destruct l as [|e l]; [done|]. cbn [app]. destruct (Ascii.eqb e "u").
    + destruct l as [|h1 [|h2 [|h3 [|h4 l]]]]; try done. cbn [app].
      destruct (read_hex h1 h2 h3 h4); [|done]. apply IH'. simpl. lia.
    + destruct (unescape e); [|done]. apply IH'. simpl. lia.
  - destruct (is_control c); [done|]. apply IH'. simpl. lia.
Qed.

(** A value whose text cannot be extended. *)
Definition closed (v : json) : Prop := match v with JInt _ | JFloat _ => False | _ => True end.

Definition ended (v : json) (r : list ascii) : Prop := closed v ∨ r ≠ [] ∧ follows r.

Lemma ended_ws v r c r' : skip_ws r = c :: r' → follows (c :: r') → ended v r.
Proof.
  intros Hs Hc. right. destruct r as [|c' r0]; [done|]. split; [done|].
  unfold skip_ws in Hs. simpl in Hs. destruct (is_ws c') eqn:E; [simpl; by rewrite E|].
  by injection Hs as -> ->.
Qed.

Lemma skip_ws_app_r l q : skip_ws l ≠ [] → skip_ws (l ++ q) = skip_ws l ++ q.
Proof. destruct (skip_ws l) eqn:E; [done|]. intros _. by apply skip_ws_more. Qed.

Lemma read_value_nonempty fuel l x : read_value fuel l = Some x → l ≠ [].
Proof. intros H ->. by destruct fuel. Qed.

Lemma read_number_open l v r : read_number l = Some (v, r) → ¬ closed v.
Proof.
  unfold read_number. destruct (match l with [] => _ | _ => _ end) as [neg l1].
  destruct (read_whole l1) as [[whole l2]|]; [|done]. cbn [mbind option_bind].
  destruct (read_fraction l2) as [frac l3], (read_exponent l3) as [e l4].
  destruct frac, e; [by intros [= <- <-] ?..|]. case_match; [done|]. by intros [= <- <-] ?.
Qed.

Lemma read_members_nonempty fuel acc l x : read_members fuel acc l = Some x → l ≠ [].
Proof. intros H ->. by destruct fuel. Qed.

Lemma read_elements_nonempty fuel acc l x : read_elements fuel acc l = Some x → l ≠ [].
Proof. intros H ->. by destruct fuel as [|[|]]. Qed.

(** More text after a complete value does not change how the value is read. *)
Lemma read_more fuel :
  (∀ l v r q, read_value fuel l = Some (v, r) → ended v r → read_value fuel (l ++ q) = Some (v, r ++ q)) ∧
  (∀ acc l v r q, read_members fuel acc l = Some (v, r) →
     read_members fuel acc (l ++ q) = Some (v, r ++ q)) ∧
  (∀ acc l v r q, read_elements fuel acc l = Some (v, r) →
     read_elements fuel acc (l ++ q) = Some (v, r ++ q)).
Proof.
  induction fuel as [|fuel (IHv & IHm & IHe)]; [done|]. split_and!.
  - intros [|c l] v r q; [done|]. cbn [app read_value]. intros H He.
    destruct (Ascii.eqb c quote).
    { destruct (read_chars l) as [[s r']|] eqn:E; [|done].
      rewrite (read_chars_more _ _ _ q E). by injection H as <- <-. }
    destruct (Ascii.eqb c "{"); [|destruct (Ascii.eqb c "[")].
    + destruct (skip_ws l) as [|c' l'] eqn:E; [done|]. rewrite (skip_ws_more _ _ _ q E).
      destruct (Ascii.eqb c' "}"); [by injection H as <- <-|]. by apply (IHm [] (c' :: l')).
    + destruct (skip_ws l) as [|c' l'] eqn:E; [done|]. rewrite (skip_ws_more _ _ _ q E).
      destruct (Ascii.eqb c' "]"); [by injection H as <- <-|]. by apply (IHe [] (c' :: l')).
    + change (c :: l ++ q) with ((c :: l) ++ q).
      destruct (read_constant constants (c :: l)) as [[v' r']|] eqn:E.
      { rewrite (read_constant_more _ _ _ q E). by injection H as <- <-. }
      rewrite (read_number_not_constant _ _ q H).
      apply read_number_app; [done|]. destruct He as [Hc|[Hr Hf]].
      * by destruct (read_number_open _ _ _ H).
      * destruct r; [done|]. by apply follows_stops.
  - intros acc l v r q. cbn [read_members]. destruct l as [|c l]; [done|]. cbn [app].
    destruct (Ascii.eqb c quote); [|done].
    destruct (read_chars l) as [[k r1]|] eqn:E; [|done]. rewrite (read_chars_more _ _ _ q E).
    cbn [mbind option_bind]. destruct (skip_ws r1) as [|c1 r2] eqn:E1; [done|].
    rewrite (skip_ws_more _ _ _ q E1). destruct (Ascii.eqb c1 ":"); [|done].
    destruct (read_value fuel (skip_ws r2)) as [[v1 r3]|] eqn:E2; [|done].
    cbn [mbind option_bind]. destruct (skip_ws r3) as [|c3 r4] eqn:E3; [done|].
    rewrite skip_ws_app_r by (by eapply read_value_nonempty).
    intros H. assert (Hf : follows (c3 :: r4)).
    { simpl. destruct (Ascii.eqb c3 "}"); [by rewrite !orb_true_r|].
      destruct (Ascii.eqb c3 ","); [by rewrite orb_true_r|done]. }
    rewrite (IHv _ _ _ q E2 (ended_ws _ _ _ _ E3 Hf)). cbn [mbind option_bind].
    rewrite (skip_ws_more _ _ _ q E3).
    destruct (Ascii.eqb c3 "}"); [by injection H as <- <-|]. destruct (Ascii.eqb c3 ","); [|done].
    rewrite skip_ws_app_r by (by eapply read_members_nonempty). by apply IHm.
  - intros acc l v r q. cbn [read_elements].
    destruct (read_value fuel l) as [[v1 r3]|] eqn:E2; [|done].
    cbn [mbind option_bind]. destruct (skip_ws r3) as [|c3 r4] eqn:E3; [done|].
    intros H. assert (Hf : follows (c3 :: r4)).
    { simpl. destruct (Ascii.eqb c3 "]"); [by rewrite !orb_true_r|].
      destruct (Ascii.eqb c3 ","); [by rewrite orb_true_r|done]. }
    rewrite (IHv _ _ _ q E2 (ended_ws _ _ _ _ E3 Hf)). cbn [mbind option_bind].
    rewrite (skip_ws_more _ _ _ q E3).
    destruct (Ascii.eqb c3 "]"); [by injection H as <- <-|]. destruct (Ascii.eqb c3 ","); [|done].
    rewrite skip_ws_app_r by (by eapply read_elements_nonempty). by apply IHe.
Qed.

(** More fuel does not change a result. *)
Lemma read_fuel fuel :
  (∀ l x n, read_value fuel l = Some x → read_value (fuel + n) l = Some x) ∧
  (∀ acc l x n, read_members fuel acc l = Some x → read_members (fuel + n) acc l = Some x) ∧
  (∀ acc l x n, read_elements fuel acc l = Some x → read_elements (fuel + n) acc l = Some x).
Proof.
  induction fuel as [|fuel (IHv & IHm & IHe)]; [done|]. split_and!.
  - intros l x n. cbn [Nat.add read_value]. repeat case_match; auto.
  - intros acc l x n. cbn [Nat.add read_members]. destruct l as [|c l]; [done|].
    destruct (Ascii.eqb c quote); [|done]. destruct (read_chars l) as [[k r]|]; [|done].
    cbn [mbind option_bind]. destruct (skip_ws r) as [|c1 r1]; [done|].
    destruct (Ascii.eqb c1 ":"); [|done].
    destruct (read_value fuel (skip_ws r1)) as [[v r2]|] eqn:E; [|done].
    rewrite (IHv _ _ n E). cbn [mbind option_bind]. repeat case_match; auto.
  - intros acc l x n. cbn [Nat.add read_elements].
    destruct (read_value fuel l) as [[v r2]|] eqn:E; [|done].
    rewrite (IHv _ _ n E). cbn [mbind option_bind]. repeat case_match; auto.
Qed.

Lemma utf8_decode_app p q s : utf8_decode p = Some s → utf8_decode (p ++ q) = app s <$> utf8_decode q.
Proof.
  remember (length p) as n eqn:Hn. revert p s Hn.
  induction n as [n IH] using (well_founded_induction Nat.lt_wf_0). intros p s ->.
  destruct p as [|b p]; [intros [= <-]; simpl; by destruct (utf8_decode q)|].
  cbn [app utf8_decode]. destruct (code b <? 128)%N.
  - destruct (utf8_decode p) as [s'|] eqn:E; [|done]. intros [= <-].
    rewrite (IH (length p) ltac:(simpl; lia) p s' eq_refl E). by destruct (utf8_decode q).
  - destruct (_ || _); [|done]. destruct p as [|b' p]; [done|]. cbn [app].
    destruct (_ && _); [|done]. destruct (utf8_decode p) as [s'|] eqn:E; [|done]. intros [= <-].
    rewrite (IH (length p) ltac:(simpl; lia) p s' eq_refl E). by destruct (utf8_decode q).
Qed.

Lemma utf8_decode_nil q : utf8_decode q = Some [] → q = [].
Proof.
  destruct q as [|b q]; [done|]. cbn [utf8_decode]. repeat case_match; try done;
    by destruct (utf8_decode _).
Qed.

(** No proper prefix of the text of an object reads as an object: a torn line
    of a log is not taken for a record. *)
Lemma loads_prefix f level kvs p kvs' :
  layout_ok f → readable (JObj kvs) →
  p `prefix_of` utf8_encode (print_value f level (JObj kvs)) →
  loads p = Some (JObj kvs') → p = utf8_encode (print_value f level (JObj kvs)).
Proof.
  set (t := print_value f level (JObj kvs)). intros Hf Hr Hp Hl. unfold loads in Hl.
  destruct (utf8_decode p) as [s|] eqn:Es; [|done]. cbn [mbind option_bind] in Hl.
  pose proof (utf8_decode_prefix _ _ _ Hp Es) as [u Hu]. destruct Hp as [q Hq].
  assert (Hs : u = []).
  { unfold read_text_value in Hl.
    destruct (read_value _ (skip_ws s)) as [[v r]|] eqn:Er; [|done]. cbn [mbind option_bind] in Hl.
    destruct (skip_ws r) eqn:Ews; [|done]. injection Hl as ->.
    destruct s as [|c s]; [done|].
    assert (Hc : is_ws c = false).
    { unfold t in Hu. rewrite print_object in Hu by done.
      destruct (map _ _); cbn [print_items] in Hu; by injection Hu as <- _. }
    rewrite skip_ws_head in Er by done.
    set (fuel := S (2 * length (c :: s))) in Er.
    destruct (read_more fuel) as (Hmore & _). apply (Hmore _ _ _ u) in Er; [|by left].
    rewrite <- Hu in Er. destruct (read_fuel fuel) as (Hfuel & _).
    apply (Hfuel _ _ (S (2 * length t))) in Er.
    pose proof (read_print_value f Hf (JObj kvs) level (fuel + S (2 * length t))%nat [] Hr I) as Hread.
    rewrite app_nil_r in Hread. fold t in Hread. specialize (Hread ltac:(lia)).
    rewrite Er in Hread. assert (Hr0 : r ++ u = []) by by injection Hread.
    by apply app_eq_nil in Hr0 as [_ ?]. }
  subst u. rewrite app_nil_r in Hu. subst s.
  assert (Hd : utf8_decode (p ++ q) = Some t) by (rewrite <- Hq; apply utf8_decode_encode).
  rewrite (utf8_decode_app _ _ _ Es) in Hd. destruct (utf8_decode q) as [s'|] eqn:Eq; [|done].
  injection Hd as Hd. assert (Hs' : s' = []).
  { apply (f_equal length) in Hd. rewrite length_app in Hd. destruct s'; [done|simpl in Hd; lia]. }
  subst s'. apply utf8_decode_nil in Eq as ->. by rewrite app_nil_r in Hq.
Qed.

(** ** The value read back prints the same *)

Lemma sort_by_sorted_id {A} (leb : A → A → bool) l :
  Sorted (λ a b, leb a b = true) l → sort_by leb l = l.
Proof.
  induction 1 as [|x xs Hs IH Hx]; [done|]. simpl. rewrite IH.
  destruct Hx as [|y ys Hy]; [done|]. simpl. by rewrite Hy.
Qed.

Lemma sort_by_locally_sorted {A} (leb : A → A → bool) l :
  (∀ x y, leb x y = true ∨ leb y x = true) → Sorted (λ a b, leb a b = true) (sort_by leb l).
Proof.
  intros Ht. induction l as [|x l IH]; simpl; [constructor|].
  induction IH as [|y ys Hs IH Hy]; simpl; [by repeat constructor|].
  destruct (leb x y) eqn:E; [by repeat constructor|]. constructor; [done|].
  assert (Hyx : leb y x = true) by (destruct (Ht x y); congruence).
  destruct ys as [|z zs]; simpl; [by constructor|]. apply HdRel_inv in Hy.
  destruct (leb x z); by constructor.
Qed.

Lemma key_le_total {A} (x y : string * A) : key_le x y = true ∨ key_le y x = true.
Proof. apply string_leb_total. Qed.

Lemma sort_canonical kvs :
  sort_by key_le (map canonical_member (sort_by key_le kvs)) = map canonical_member (sort_by key_le kvs).
Proof.
  apply sort_by_sorted_id. pose proof (sort_by_locally_sorted key_le kvs key_le_total) as H.
  induction H as [|x xs Hs IH Hx]; [constructor|]. cbn [map]. constructor; [done|].
  by destruct Hx; constructor.
Qed.

Lemma print_canonical f level v : print_value f level (canonical v) = print_value f level v.
Proof.
  revert level. induction v as [v Ha|l IH|kvs IH] using json_nested_ind; intros level.
  - by destruct v.
  - cbn [canonical print_value]. rewrite map_map. f_equal. apply map_ext_in.
    intros v Hv. rewrite Forall_forall in IH. by apply IH, list_elem_of_In.
  - rewrite canonical_object, !print_object, sort_canonical, map_map. f_equal.
    rewrite <- (sort_by_perm key_le kvs) in IH. apply map_ext_in. intros [k v] Hv.
    rewrite Forall_forall in IH. unfold member_text, canonical_member. cbn [fst snd].
    by rewrite (IH (k, v)) by by apply list_elem_of_In.
Qed.

Lemma canonical_keys kvs : (map canonical_member kvs).*1 = kvs.*1.
Proof. induction kvs as [|[k v] kvs IH]; csimpl; [done|by rewrite IH]. Qed.

Lemma canonical_readable v : readable v → readable (canonical v).
Proof.
  induction v as [v Ha|l IH|kvs IH] using json_nested_ind.
  - by destruct v.
  - cbn [canonical]. rewrite !readable_list, Forall_map. rewrite !Forall_forall in *. eauto.
  - rewrite canonical_object, !readable_obj. intros [Hd Hr].
    rewrite <- (sort_by_perm key_le kvs) in Hd, Hr, IH. rewrite canonical_keys, Forall_map.
    split; [done|]. rewrite !Forall_forall in *. intros [k v] Hv. cbn. by apply (IH (k, v)), (Hr (k, v)).
Qed.

Lemma canonical_idemp v : canonical (canonical v) = canonical v.
Proof.
  induction v as [v Ha|l IH|kvs IH] using json_nested_ind.
  - by destruct v.
  - cbn [canonical]. f_equal. rewrite map_map. apply map_ext_in. intros v Hv.
    rewrite Forall_forall in IH. by apply IH, list_elem_of_In.
  - rewrite canonical_object at 1. rewrite canonical_object, sort_canonical, map_map.
    rewrite canonical_object. f_equal. rewrite <- (sort_by_perm key_le kvs) in IH.
    apply map_ext_in. intros [k v] Hv. rewrite Forall_forall in IH. unfold canonical_member.
    cbn [fst snd]. f_equal. by apply (IH (k, v)), list_elem_of_In.
Qed.

Lemma assoc_get_Some {A} k (v : A) kvs :
  NoDup kvs.*1 → assoc_get k kvs = Some v ↔ (k, v) ∈ kvs.
Proof.
  induction kvs as [|[k' v'] kvs IH]; csimpl; intros Hd.
  { split; [done|]. intros H. by apply not_elem_of_nil in H. }
  apply NoDup_cons in Hd as [Hn Hd]. rewrite elem_of_cons. case_bool_decide as E.
  - subst k'. split; [intros [= ->]; by left|]. intros [[= ->]|Hin]; [done|].
    destruct Hn. apply list_elem_of_fmap. by exists (k, v).
  - rewrite (IH Hd). split; [by right|]. intros [[= -> ->]|?]; done.
Qed.

Lemma assoc_get_perm {A} k (l1 l2 : list (string * A)) :
  NoDup l1.*1 → l1 ≡ₚ l2 → assoc_get k l1 = assoc_get k l2.
Proof.
  intros Hd Hp. assert (Hd2 : NoDup l2.*1) by by rewrite <- Hp.
  destruct (assoc_get k l1) as [v|] eqn:E1.
  - symmetry. apply assoc_get_Some; [done|]. rewrite <- Hp. by apply assoc_get_Some.
  - destruct (assoc_get k l2) as [v|] eqn:E2; [|done]. apply assoc_get_Some in E2; [|done].
    rewrite <- Hp in E2. apply assoc_get_Some in E2; [congruence|done].
Qed.

Lemma assoc_get_map {A B} (g : A → B) k (kvs : list (string * A)) :
  assoc_get k (map (λ '(k, v), (k, g v)) kvs) = g <$> assoc_get k kvs.
Proof. induction kvs as [|[k' v'] kvs IH]; csimpl; [done|]. by case_bool_decide. Qed.

(** The members of the value read back. *)
Definition canonical_members (kvs : list (string * json)) : list (string * json) :=
  sort_by key_le (map (λ '(k, v), (k, canonical v)) kvs).

Lemma get_canonical k kvs :
  NoDup kvs.*1 → assoc_get k (canonical_members kvs) = canonical <$> assoc_get k kvs.
Proof.
  intros Hd. unfold canonical_members. rewrite <- assoc_get_map. apply assoc_get_perm.
  - rewrite sort_by_perm. assert (E : (map (λ '(k, v), (k, canonical v)) kvs).*1 = kvs.*1);
      [|by rewrite E]. clear. induction kvs as [|[k v] kvs IH]; csimpl; [done|by rewrite IH].
  - by rewrite sort_by_perm.
Qed.

Lemma dict_get_canonical k kvs :
  NoDup kvs.*1 → dict_get k (canonical_members kvs) = canonical (dict_get k kvs).
Proof. intros Hd. unfold dict_get. rewrite get_canonical by done. by destruct (assoc_get k kvs). Qed.
