(* ===== verification/Files.v ===== *)
(** * Files: regular files under faults and crashes

    The store writes a few regular files and has to survive failures of the
    operating system and the death of the process between any two of its calls.
    This file gives the effect monad of that code: the files by path, the clock
    and uuid source of [PyBase], the warning the store keeps, and a schedule of
    faults. Every call that touches the host takes the next fault: it works, it
    fails with an [OSError] after some progress, or the process dies after some
    progress. What the process wrote before it dies stays; the loss of data the
    kernel has accepted but not yet stored (a power failure) is not modelled.

    [wp] is a weakest precondition with a crash condition that must hold whenever
    the process may die. It is stated for a host that may be faulty and for one
    that is sound, where it says that the call returns. *)

From S2P Require Import Prelude.
From S2P Require Import PyBase.

Abbreviation bytes := (list ascii) (only parsing).
Abbreviation files := (gmap string (list ascii)) (only parsing).

(** ** The monad *)

(** [progress] is how far the call got: bytes of a write, or whether a
    single-step call took effect. *)
Inductive fault :=
  | Fine
  | Fails (progress : nat) (message : string)
  | Dies (progress : nat).

Record host := Host {
  h_files : files;
  h_world : world;
  h_faults : list fault;
  h_warning : option string;
}.

Inductive outcome (A : Type) :=
  | Done (r : res A)
  | Died.
Arguments Done {A} r.
Arguments Died {A}.

Definition F (A : Type) : Type := host → outcome A * host.

#[export] Instance F_ret : MRet F := λ A a h, (Done (Ok a), h).
#[export] Instance F_bind : MBind F := λ A B f m h,
  match m h with
  | (Done (Ok a), h) => f a h
  | (Done (Raise e), h) => (Done (Raise e), h)
  | (Died, h) => (Died, h)
  end.

Definition throw {A} (e : exn) : F A := λ h, (Done (Raise e), h).
Definition of_res {A} (r : res A) : F A := λ h, (Done r, h).

Definition of_M {A} (m : M A) : F A := λ h,
  let '(r, w) := m (h_world h) in (Done r, Host (h_files h) w (h_faults h) (h_warning h)).

(** [try: m except ...]: the result or the exception as a value. *)
Definition attempt {A} (m : F A) : F (res A) := λ h,
  match m h with
  | (Done r, h) => (Done (Ok r), h)
  | (Died, h) => (Died, h)
  end.

Definition get_files : F files := λ h, (Done (Ok (h_files h)), h).

Definition get_warning : F (option string) := λ h, (Done (Ok (h_warning h)), h).

Definition set_warning (warning : option string) : F unit := λ h,
  (Done (Ok tt), Host (h_files h) (h_world h) (h_faults h) warning).

(** A call of the operating system. *)
Definition device (partial : nat → files → files) (full : files → files) : F unit := λ h,
  let after fs faults := Host fs (h_world h) faults (h_warning h) in
  match h_faults h with
  | [] => (Done (Ok tt), after (full (h_files h)) [])
  | Fine :: faults => (Done (Ok tt), after (full (h_files h)) faults)
  | Fails n message :: faults =>
      (Done (Raise (OSError message)), after (partial n (h_files h)) faults)
  | Dies n :: faults => (Died, after (partial n (h_files h)) faults)
  end.

(** A call that can fail but changes no file: a check of type, mode or group,
    an open, a synchronisation, a directory. *)
Definition check : F unit := device (λ _ fs, fs) (λ fs, fs).

(** A call that takes effect at once or not at all. *)
Definition at_once (effect : files → files) : F unit :=
  device (λ n fs, match n with O => fs | S _ => effect fs end) effect.

Definition content (path : string) (fs : files) : bytes := default [] (fs !! path).

Definition replace_file (path : string) (data : bytes) : F unit := at_once <[path := data]>.
Definition unlink (path : string) : F unit := at_once (delete path).
Definition truncate (path : string) (size : nat) : F unit :=
  at_once (λ fs, <[path := take size (content path fs)]> fs).
Definition create (path : string) : F unit :=
  at_once (λ fs, <[path := content path fs]> fs).

(** [os.write] in a loop: any prefix may have been written when it fails. *)
Definition append_bytes (path : string) (data : bytes) : F unit :=
  device (λ n fs, <[path := content path fs ++ take n data]> fs)
         (λ fs, <[path := content path fs ++ data]> fs).

(** [lstat] of a file and the comparison of its mode: [None] when the call fails,
    otherwise whether the mode is the expected one. *)
Definition mode_as_expected : F (option bool) := λ h,
  let answer a faults := (Done (Ok a), Host (h_files h) (h_world h) faults (h_warning h)) in
  match h_faults h with
  | [] => answer (Some true) []
  | Fine :: faults => answer (Some true) faults
  | Fails O _ :: faults => answer None faults
  | Fails (S _) _ :: faults => answer (Some false) faults
  | Dies _ :: faults => (Died, Host (h_files h) (h_world h) faults (h_warning h))
  end.

(** ** What a call may leave behind *)

Abbreviation assertion := (files → world → Prop) (only parsing).

(** On a host that is [faulty] any schedule of faults may strike; on a sound one
    none does. The call ends with [Q] of its result, or the process dies with
    files that satisfy [crash], which only happens on a faulty host. *)
Definition wp {A} (faulty : bool) (crash : files → Prop) (m : F A) (Q : res A → assertion)
    (fs : files) (w : world) : Prop :=
  ∀ faults warning, (faulty = false → faults = []) →
  match m (Host fs w faults warning) with
  | (Done r, h) => (faulty = false → h_faults h = []) ∧ Q r (h_files h) (h_world h)
  | (Died, h) => faulty = true ∧ crash (h_files h)
  end.

Section Wp.
Context (faulty : bool) (crash : files → Prop).

Lemma wp_mono {A} (m : F A) (Q Q' : res A → assertion) fs w :
  wp faulty crash m Q' fs w → (∀ r fs w, Q' r fs w → Q r fs w) → wp faulty crash m Q fs w.
Proof. intros Hm HQ fa wa Hf. specialize (Hm fa wa Hf). destruct (m _) as [[r|] h]; naive_solver. Qed.

Lemma wp_crash {A} (crash' : files → Prop) (m : F A) (Q : res A → assertion) fs w :
  wp faulty crash' m Q fs w → (∀ fs, crash' fs → crash fs) → wp faulty crash m Q fs w.
Proof. intros Hm Hc fa wa Hf. specialize (Hm fa wa Hf). destruct (m _) as [[r|] h]; naive_solver. Qed.

Lemma wp_ret {A} (a : A) (Q : res A → assertion) fs w : Q (Ok a) fs w → wp faulty crash (mret a) Q fs w.
Proof. by intros H fa wa. Qed.

Lemma wp_throw {A} e (Q : res A → assertion) fs w : Q (Raise e) fs w → wp faulty crash (throw e) Q fs w.
Proof. by intros H fa wa. Qed.

Lemma wp_of_res {A} (r : res A) (Q : res A → assertion) fs w : Q r fs w → wp faulty crash (of_res r) Q fs w.
Proof. by intros H fa wa. Qed.

Lemma wp_bind {A B} (m : F A) (f : A → F B) (Q : res B → assertion) fs w :
  wp faulty crash m
    (λ r fs w, match r with Ok a => wp faulty crash (f a) Q fs w | Raise e => Q (Raise e) fs w end)
    fs w →
  wp faulty crash (m ≫= f) Q fs w.
Proof.
  intros Hm fa wa Hf. specialize (Hm fa wa Hf). unfold mbind, F_bind.
  destruct (m _) as [[[a|e]|] [fs' w' fa' wa']]; [|done..]. destruct Hm as [Hf' Hm]. by apply Hm.
Qed.

Lemma wp_unit (m : F unit) (Q : res unit → assertion) fs w :
  wp faulty crash (m ≫= λ _, mret tt) Q fs w → wp faulty crash m Q fs w.
Proof.
  intros Hm fa wa Hf. specialize (Hm fa wa Hf). unfold mbind, F_bind in Hm.
  by destruct (m _) as [[[[]|e]|] [fs' w' fa' wa']].
Qed.

Lemma wp_attempt {A} (m : F A) (Q : res (res A) → assertion) fs w :
  wp faulty crash m (λ r, Q (Ok r)) fs w → wp faulty crash (attempt m) Q fs w.
Proof.
  intros Hm fa wa Hf. specialize (Hm fa wa Hf). unfold attempt.
  by destruct (m _) as [[r|] h].
Qed.

Lemma wp_get_files (Q : res files → assertion) fs w : Q (Ok fs) fs w → wp faulty crash get_files Q fs w.
Proof. by intros H fa wa. Qed.

Lemma wp_of_M {A} (m : M A) (Q : res A → assertion) fs w :
  Q (m w).1 fs (m w).2 → wp faulty crash (of_M m) Q fs w.
Proof. intros H fa wa Hf. unfold of_M. simpl. by destruct (m w) as [r w']. Qed.

Lemma wp_get_warning (Q : res (option string) → assertion) fs w :
  (∀ o, Q (Ok o) fs w) → wp faulty crash get_warning Q fs w.
Proof. intros H fa wa Hf. split; [done|apply H]. Qed.

Lemma wp_set_warning o (Q : res unit → assertion) fs w :
  Q (Ok tt) fs w → wp faulty crash (set_warning o) Q fs w.
Proof. by intros H fa wa. Qed.

Lemma wp_device partial full (Q : res unit → assertion) fs w :
  Q (Ok tt) (full fs) w →
  (faulty = true → ∀ n, crash (partial n fs) ∧ ∀ msg, Q (Raise (OSError msg)) (partial n fs) w) →
  wp faulty crash (device partial full) Q fs w.
Proof.
  intros Hok Hpart fa wa Hf. unfold device. simpl.
  destruct faulty; [|by rewrite Hf]. specialize (Hpart eq_refl).
  destruct fa as [|[|n msg|n] faults]; [done|done|..]; (split; [done|apply Hpart]).
Qed.

Lemma wp_check (Q : res unit → assertion) fs w :
  Q (Ok tt) fs w → (faulty = true → crash fs) → (faulty = true → ∀ msg, Q (Raise (OSError msg)) fs w) →
  wp faulty crash check Q fs w.
Proof. intros H1 H2 H3. apply wp_device; [done|]. split; auto. Qed.

(** The comparison fails, or finds another mode, only on a faulty host. *)
Lemma wp_mode (Q : res (option bool) → assertion) fs w :
  Q (Ok (Some true)) fs w → (faulty = true → ∀ o, Q (Ok o) fs w) → (faulty = true → crash fs) →
  wp faulty crash mode_as_expected Q fs w.
Proof.
  intros H1 H2 Hc fa wa Hf. unfold mode_as_expected. simpl. destruct faulty; [|by rewrite Hf].
  destruct fa as [|[|[]|] fa]; (split; [done|auto]).
Qed.

Lemma wp_at_once effect (Q : res unit → assertion) fs w :
  Q (Ok tt) (effect fs) w →
  (faulty = true → crash (effect fs)) → (faulty = true → ∀ msg, Q (Raise (OSError msg)) (effect fs) w) →
  (faulty = true → crash fs) → (faulty = true → ∀ msg, Q (Raise (OSError msg)) fs w) →
  wp faulty crash (at_once effect) Q fs w.
Proof. intros H1 H2 H3 H4 H5. apply wp_device; [done|]. intros Hf. intros [|n]; auto. Qed.
End Wp.

(** A call that changes no file, and what it returns. *)
Definition reads {A} (faulty : bool) (m : F A) (fs : files) (R : res A → Prop) : Prop :=
  ∀ (crash : files → Prop) w, (faulty = true → crash fs) →
  wp faulty crash m (λ r fs' _, fs' = fs ∧ R r) fs w.

Section Reads.
Context (faulty : bool) (fs : files).

Lemma wp_reads {A} crash (m : F A) R (Q : res A → assertion) w :
  reads faulty m fs R → (faulty = true → crash fs) → (∀ r w, R r → Q r fs w) →
  wp faulty crash m Q fs w.
Proof. intros Hm Hc HQ. eapply wp_mono; [by apply Hm|]. intros r fs' w' [-> H]. by apply HQ. Qed.

Lemma reads_mono {A} (m : F A) (R R' : res A → Prop) :
  reads faulty m fs R' → (∀ r, R' r → R r) → reads faulty m fs R.
Proof. intros Hm HR crash w Hc. eapply wp_mono; [by apply Hm|]. intros r fs' w' [-> H]. auto. Qed.

Lemma reads_bind {A B} (m : F A) (f : A → F B) R :
  reads faulty m fs (λ r, match r with Ok a => reads faulty (f a) fs R | Raise e => R (Raise e) end) →
  reads faulty (m ≫= f) fs R.
Proof.
  intros Hm crash w Hc. apply wp_bind. eapply wp_mono; [by apply Hm|].
  intros [a|e] fs' w' [-> H]; [by apply H|done].
Qed.

Lemma reads_attempt {A} (m : F A) R : reads faulty m fs (λ r, R (Ok r)) → reads faulty (attempt m) fs R.
Proof. intros Hm crash w Hc. apply wp_attempt, (Hm crash w Hc). Qed.

Lemma reads_ret {A} (a : A) R : R (Ok a) → reads faulty (mret a) fs R.
Proof. intros H crash w Hc. by apply wp_ret. Qed.

Lemma reads_throw {A} e R : R (Raise e) → reads (A := A) faulty (throw e) fs R.
Proof. intros H crash w Hc. by apply wp_throw. Qed.

Lemma reads_of_res {A} (r : res A) R : R r → reads faulty (of_res r) fs R.
Proof. intros H crash w Hc. by apply wp_of_res. Qed.

Lemma reads_get_files R : R (Ok fs) → reads faulty get_files fs R.
Proof. intros H crash w Hc. by apply wp_get_files. Qed.

Lemma reads_get_warning R : (∀ o, R (Ok o)) → reads faulty get_warning fs R.
Proof. intros H crash w Hc. by apply wp_get_warning. Qed.

Lemma reads_set_warning o R : R (Ok tt) → reads faulty (set_warning o) fs R.
Proof. intros H crash w Hc. by apply wp_set_warning. Qed.

Lemma reads_check R :
  R (Ok tt) → (faulty = true → ∀ msg, R (Raise (OSError msg))) → reads faulty check fs R.
Proof. intros H1 H2 crash w Hc. apply wp_check; [done|done|]. intros Hf msg. split; [done|by apply H2]. Qed.

Lemma reads_mode R :
  R (Ok (Some true)) → (faulty = true → ∀ o, R (Ok o)) → reads faulty mode_as_expected fs R.
Proof. intros H1 H2 crash w Hc. apply wp_mode; [done| |done]. intros Hf o. split; [done|by apply H2]. Qed.
End Reads.

(** Calls that keep a property of the files, and return on a sound host. *)
Definition stays {A} (faulty : bool) (Φ : files → Prop) (m : F A) : Prop :=
  ∀ fs w, Φ fs →
  wp faulty Φ m (λ r fs' _, Φ fs' ∧ match r with Ok _ => True | Raise _ => faulty = true end) fs w.

Section Stays.
Context (faulty : bool) (Φ : files → Prop).

Lemma wp_stays {A} (m : F A) (Q : res A → assertion) fs w :
  stays faulty Φ m → Φ fs →
  (∀ r fs w, Φ fs → (∀ e, r = Raise e → faulty = true) → Q r fs w) → wp faulty Φ m Q fs w.
Proof.
  intros Hm HΦ HQ. eapply wp_mono; [by apply Hm|]. cbv beta. intros r fs' w' [H1 H2].
  apply HQ; [done|]. by intros e ->.
Qed.

Lemma stays_ret {A} (a : A) : stays faulty Φ (mret a).
Proof. intros fs w H. by apply wp_ret. Qed.

Lemma stays_bind {A B} (m : F A) (f : A → F B) :
  stays faulty Φ m → (∀ a, stays faulty Φ (f a)) → stays faulty Φ (m ≫= f).
Proof.
  intros Hm Hf fs w HΦ. apply wp_bind. apply wp_stays; [done..|]. intros [a|e] fs' w' H He.
  - by apply Hf.
  - split; [done|by apply (He e)].
Qed.

Lemma stays_check : stays faulty Φ check.
Proof. intros fs w H. by apply wp_check. Qed.

Lemma stays_of_M {A} (m : M A) : (∀ w, ∃ a, (m w).1 = Ok a) → stays faulty Φ (of_M m).
Proof. intros Hm fs w H. apply wp_of_M. destruct (Hm w) as [a ->]. done. Qed.

Lemma stays_set_warning o : stays faulty Φ (set_warning o).
Proof. intros fs w H. by apply wp_set_warning. Qed.

Lemma stays_reads {A} (m : F A) :
  (∀ fs, Φ fs → reads faulty m fs (λ r, match r with Ok _ => True | Raise _ => faulty = true end)) →
  stays faulty Φ m.
Proof. intros Hm fs w H. eapply wp_reads; [by apply Hm|done|]. by intros r w' Hr. Qed.

Lemma stays_at_once effect : (∀ fs, Φ fs → Φ (effect fs)) → stays faulty Φ (at_once effect).
Proof. intros He fs w H. apply wp_at_once; auto. Qed.

Lemma stays_append path data :
  (∀ fs data, Φ fs → Φ (<[path := data]> fs)) → stays faulty Φ (append_bytes path data).
Proof. intros He fs w H. apply wp_device; [by split; [apply He|]|]. intros Hf n. split; [by apply He|]. split; auto. Qed.
End Stays.

(** A call only takes readings of the clock and uuids. *)
Definition advances {A} (m : F A) : Prop := ∀ h, later (h_world h) (h_world (m h).2).

Section Advances.
Context {A B : Type}.

Lemma advances_bind (m : F A) (f : A → F B) : advances m → (∀ a, advances (f a)) → advances (m ≫= f).
Proof.
  intros Hm Hf h. specialize (Hm h). unfold mbind, F_bind.
  destruct (m h) as [[[a|e]|] h1]; [|done..]. simpl in *. etrans; [done|apply Hf].
Qed.

Lemma advances_attempt (m : F A) : advances m → advances (attempt m).
Proof. intros Hm h. specialize (Hm h). unfold attempt. by destruct (m h) as [[|] h1]. Qed.

Lemma advances_ret (a : A) : advances (mret a).
Proof. by intros h. Qed.

Lemma advances_throw e : advances (A := A) (throw e).
Proof. by intros h. Qed.

Lemma advances_of_res (r : res A) : advances (of_res r).
Proof. by intros h. Qed.

Lemma advances_of_M (m : M A) : forward m → advances (of_M m).
Proof. intros Hm h. specialize (Hm (h_world h)). unfold of_M. by destruct (m _) as [r w]. Qed.
End Advances.

Lemma advances_device partial full : advances (device partial full).
Proof. intros h. unfold device. by destruct (h_faults h) as [|[] ?]. Qed.

Lemma advances_get_files : advances get_files.
Proof. by intros h. Qed.

Lemma advances_get_warning : advances get_warning.
Proof. by intros h. Qed.

Lemma advances_set_warning o : advances (set_warning o).
Proof. by intros h. Qed.

Lemma advances_mode : advances mode_as_expected.
Proof. intros h. unfold mode_as_expected. by destruct (h_faults h) as [|[|[]|] ?]. Qed.

Create HintDb advances.
#[export] Hint Resolve advances_ret advances_throw advances_of_res advances_device advances_get_files
  advances_get_warning advances_set_warning advances_mode forward_uuid : advances.

Lemma advances_check : advances check.
Proof. apply advances_device. Qed.

Lemma advances_at_once effect : advances (at_once effect).
Proof. apply advances_device. Qed.

Lemma advances_append path data : advances (append_bytes path data).
Proof. apply advances_device. Qed.

#[export] Hint Resolve advances_check advances_append : advances.
#[export] Hint Extern 1 (advances _) => apply advances_at_once : advances.

(** Follow the structure of the code. *)
Ltac advance :=
  repeat first
    [ match goal with |- ∀ _, _ => intro end | solve [auto with advances] | apply advances_bind | apply advances_attempt
    | apply advances_of_M | case_match ].

(** What a call leaves behind, and how far the sources were used. *)
Lemma wp_advances {A} faulty crash (m : F A) (Q : res A → assertion) fs w :
  advances m → wp faulty crash m Q fs w →
  wp faulty crash m (λ r fs' w', later w w' ∧ Q r fs' w') fs w.
Proof.
  intros Ha Hm fa wa Hf. specialize (Hm fa wa Hf). specialize (Ha (Host fs w fa wa)).
  destruct (m _) as [[r|] h]; [|done]. destruct Hm as [H1 H2]. by split_and!.
Qed.

Lemma content_insert path data fs : content path (<[path := data]> fs) = data.
Proof. unfold content. by rewrite lookup_insert_eq. Qed.

Lemma content_insert_ne path path' data fs :
  path ≠ path' → content path (<[path' := data]> fs) = content path fs.
Proof. intros H. unfold content. by rewrite lookup_insert_ne. Qed.

#[export] Hint Rewrite content_insert : bk.
