(* ===== verification/Jsonl.v ===== *)
(** * Jsonl: line-oriented JSON logs ([src/src/bk/jsonl.py])

    Appending a batch of records to a log, with the repair of a line that an
    earlier death of the process cut off and the rollback of a failed batch,
    and the bounded reverse scan that reads the most recent records. *)

From S2P Require Import Prelude.
From S2P Require Import PyBase.
From S2P Require Import Json.
From S2P Require Import Files.

Definition WRITE_CHUNK_BYTES : Z := 1024 * 1024.
Definition READ_CHUNK_BYTES : Z := 64 * 1024.

Definition size (data : bytes) : Z := Z.of_nat (length data).

(** ** Encoding a record *)

(** [json.dumps(record, ensure_ascii=False, allow_nan=False, sort_keys=True)] with
    the separators of the two formats. *)
Definition line_layout (is_compact : bool) : layout := if is_compact then compact else spaced.

Definition encode_json_object_line (record : json) (max_line_bytes : Z) (record_name : string)
    (is_compact : bool) : res bytes :=
  match record with
  | JObj _ =>
      match dumps (line_layout is_compact) record with
      | Raise (ValueError exc) =>
          Raise (ValueError (record_name +:+ " record is not valid JSON: " +:+ exc))
      | Raise e => Raise e
      | Ok text =>
          let line := utf8_encode (text ++ [newline]) in
          if max_line_bytes <? size line
          then Raise (ValueError (record_name +:+ " record exceeds the line safety limit"))
          else Ok line
      end
  | _ => Raise (ValueError (record_name +:+ " record must be a JSON object"))
  end.

(** ** The end of a file *)

(** [data.rfind(b"\n")] *)
Fixpoint rfind_newline (data : bytes) : option nat :=
  match data with
  | [] => None
  | c :: data =>
      match rfind_newline data with
      | Some i => Some (S i)
      | None => if Ascii.eqb c newline then Some 0%nat else None
      end
  end.

(** [size == 0 or os.pread(fd, 1, size - 1) == b"\n"] *)
Definition ends_line (data : bytes) : bool :=
  match last data with None => true | Some c => Ascii.eqb c newline end.

(** Where the last, unterminated line begins, with its text; [None] when it
    begins more than [max_line_bytes + 1] bytes before the end. *)
Definition tail_fragment (data : bytes) (max_line_bytes : Z) : option (Z * bytes) :=
  let read_size := Z.min (size data) (max_line_bytes + 1) in
  let tail_start := size data - read_size in
  let tail := drop (Z.to_nat tail_start) data in
  match rfind_newline tail with
  | Some separator => Some (tail_start + Z.of_nat separator + 1, drop (S separator) tail)
  | None => if tail_start =? 0 then Some (0, tail) else None
  end.

Definition is_object (v : option json) : bool := match v with Some (JObj _) => true | _ => false end.

Definition unterminated (record_name path : string) : exn :=
  OSError ("unterminated " +:+ record_name +:+ " record exceeds the line limit: " +:+ path).

(** The size from which the file may grow, after its tail is repaired. *)
Definition _repair_tail (path : string) (max_line_bytes : Z) (record_name : string)
    : F (Z * list string) :=
  fs ← get_files;
  let data := content path fs in
  if ends_line data then mret (size data, [])
  else
    match tail_fragment data max_line_bytes with
    | None => throw (unterminated record_name path)
    | Some (record_start, fragment) =>
        if max_line_bytes <? size fragment + 1 then throw (unterminated record_name path)
        else if is_object (loads fragment) then
          _ ← append_bytes path [newline];
          _ ← check;
          mret (size data + 1, ["restored a missing final newline in " +:+ path])
        else
          _ ← truncate path (Z.to_nat record_start);
          _ ← check;
          mret (record_start, ["discarded an incomplete trailing " +:+ record_name +:+ " record in "
                               +:+ path])
    end.

(** ** Appending *)

Definition _write_all (path : string) (payload : bytes) : F unit :=
  match payload with [] => mret tt | _ => append_bytes path payload end.

Fixpoint write_lines (path : string) (chunk : bytes) (lines : list bytes) : F unit :=
  match lines with
  | [] => _write_all path chunk
  | line :: lines =>
      if negb (size chunk =? 0) && (WRITE_CHUNK_BYTES <? size chunk + size line)
      then _ ← _write_all path chunk; write_lines path line lines
      else write_lines path (chunk ++ line) lines
  end.

Definition _write_batch (path : string) (lines : list bytes) : F unit := write_lines path [] lines.

Definition is_os_error (e : exn) : bool :=
  match e with OSError _ | LedgerCorruptionError _ => true | _ => false end.

Definition error_text (e : exn) : string :=
  match e with
  | BookingError msg | ValueError msg | OverflowError msg | TypeError msg | OSError msg
  | LedgerCorruptionError msg | RuntimeError msg => msg
  | KeyError key => str_repr key
  | AssertionError => ""
  end.

(** Undo a failed append and raise its error, or the error of a failed rollback. *)
Definition rollback (path : string) (original_size : Z) (record_name : string) (append_error : exn)
    : F unit :=
  undone ← attempt (_ ← truncate path (Z.to_nat original_size); check);
  match undone with
  | Raise rollback_error =>
      if is_os_error rollback_error
      then throw (OSError (record_name +:+ " append failed and rollback failed for " +:+ path
             +:+ ": " +:+ error_text append_error +:+ "; " +:+ error_text rollback_error))
      else throw rollback_error
  | Ok _ => throw append_error
  end.

(** The count of appended records and the warnings. *)
Definition append_json_objects (path : string) (records : list json) (max_line_bytes : Z)
    (max_file_bytes : option Z) (record_name : string) (is_compact : bool) : F (Z * list string) :=
  match records with
  | [] => mret (0, [])
  | _ =>
      if (max_line_bytes <? 2)
         || match max_file_bytes with Some m => m <? 1 | None => false end
      then throw (ValueError "invalid JSONL safety limit")
      else
        serialized ← of_res
          (mapM (λ record, encode_json_object_line record max_line_bytes record_name is_compact)
             records);
        let total_bytes := sumZ size serialized in
        _ ← check;
        _ ← create path;
        '(original_size, warnings) ← _repair_tail path max_line_bytes record_name;
        if match max_file_bytes with Some m => m <? original_size + total_bytes | None => false end
        then throw (OSError (record_name +:+ " file exceeds its safety limit: " +:+ path))
        else
          written ← attempt (_ ← _write_batch path serialized; _ ← check; check);
          _ ← match written with
              | Raise append_error => rollback path original_size record_name append_error
              | Ok _ => mret tt
              end;
          mret (Z.of_nat (length records), warnings)
  end.

(** ** Reading backwards *)

(** The inner loop: take the lines off the end of [pending], last one first. *)
Fixpoint drain (fuel : nat) (max_line_bytes : Z) (pending : bytes) (at_file_end : bool)
    : list (option bytes) * bytes * bool :=
  match fuel, rfind_newline pending with
  | S fuel, Some separator =>
      let line := drop (S separator) pending in
      let pending := take separator pending in
      if at_file_end && (size line =? 0) then drain fuel max_line_bytes pending false
      else
        let '(lines, pending, at_file_end) := drain fuel max_line_bytes pending false in
        ((if max_line_bytes <? size line + 1 then None else Some line) :: lines, pending, at_file_end)
  | _, _ => ([], pending, at_file_end)
  end.

(** What the generator yields after the loop. *)
Definition first_line (lower_bound max_line_bytes : Z) (pending : bytes) (dropping_oversized : bool)
    : list (option bytes) :=
  if negb (lower_bound =? 0) then []
  else if dropping_oversized then [None]
  else if size pending =? 0 then []
  else if max_line_bytes <? size pending + 1 then [None] else [Some pending].

Section Scan.
Context (chunk_bytes : Z).

Fixpoint iter_lines (fuel : nat) (data : bytes) (lower_bound max_line_bytes position : Z)
    (pending : bytes) (dropping_oversized at_file_end : bool) : list (option bytes) :=
  match fuel with
  | O => []
  | S fuel =>
      if position <=? lower_bound
      then first_line lower_bound max_line_bytes pending dropping_oversized
      else
        let read_size := Z.min (position - lower_bound) chunk_bytes in
        let position := position - read_size in
        let chunk := take (Z.to_nat read_size) (drop (Z.to_nat position) data) in
        let continue chunk pending at_file_end :=
          let pending := chunk ++ pending in
          let '(lines, pending, at_file_end) :=
            drain (S (length pending)) max_line_bytes pending at_file_end in
          lines ++
          if max_line_bytes <? size pending + 1
          then iter_lines fuel data lower_bound max_line_bytes position [] true false
          else iter_lines fuel data lower_bound max_line_bytes position pending false at_file_end in
        if dropping_oversized then
          match rfind_newline chunk with
          | None => iter_lines fuel data lower_bound max_line_bytes position pending true at_file_end
          | Some separator => None :: continue (take separator chunk) [] false
          end
        else continue chunk pending at_file_end
  end.
End Scan.

(** Lines from the end of the file down to [lower_bound], the last one first;
    [None] for a line over the limit. Each round moves the position back. *)
Definition _iter_lines_reverse (data : bytes) (size lower_bound max_line_bytes : Z)
    : list (option bytes) :=
  iter_lines READ_CHUNK_BYTES (S (Z.to_nat (size - lower_bound))) data lower_bound max_line_bytes
    size [] false true.

Record jsonl_tail := JsonlTailResult {
  t_records : list json;
  t_invalid_records : Z;
  t_oversized_records : Z;
  t_final_newline_missing : bool;
  t_scan_truncated : bool;
}.

(** The reading loop over the lines: the kept records so far (the latest first)
    and the counters. *)
Fixpoint scan_lines (predicate : list (string * json) → bool)
    (transform : list (string * json) → option json) (limit : Z)
    (records : list json) (invalid oversized : Z) (lines : list (option bytes))
    : list json * Z * Z :=
  match lines with
  | [] => (records, invalid, oversized)
  | None :: lines => scan_lines predicate transform limit records invalid (oversized + 1) lines
  | Some [] :: lines => scan_lines predicate transform limit records (invalid + 1) oversized lines
  | Some raw_line :: lines =>
      match loads raw_line with
      | Some (JObj value) =>
          if negb (predicate value)
          then scan_lines predicate transform limit records invalid oversized lines
          else
            match transform value with
            | None => scan_lines predicate transform limit records invalid oversized lines
            | Some record =>
                let records := record :: records in
                if limit <=? Z.of_nat (length records) then (records, invalid, oversized)
                else scan_lines predicate transform limit records invalid oversized lines
            end
      | _ => scan_lines predicate transform limit records (invalid + 1) oversized lines
      end
  end.

Definition tail_of (data : bytes) (limit max_line_bytes : Z)
    (predicate : list (string * json) → bool) (transform : list (string * json) → option json)
    (max_scan_bytes : option Z) : jsonl_tail :=
  let lower_bound := match max_scan_bytes with Some m => Z.max 0 (size data - m) | None => 0 end in
  let '(records, invalid, oversized) :=
    scan_lines predicate transform limit [] 0 0
      (_iter_lines_reverse data (size data) lower_bound max_line_bytes) in
  JsonlTailResult records invalid oversized (negb (ends_line data))
    (negb (lower_bound =? 0) && (Z.of_nat (length records) <? limit)).

Definition read_json_objects_tail (path : string) (limit max_line_bytes : Z)
    (predicate : list (string * json) → bool) (transform : list (string * json) → option json)
    (max_scan_bytes : option Z) : F jsonl_tail :=
  if (limit <? 1) || (max_line_bytes <? 2)
     || match max_scan_bytes with Some m => m <? 1 | None => false end
  then throw (ValueError "invalid JSONL read limit")
  else
    _ ← check;
    fs ← get_files;
    mret (tail_of (content path fs) limit max_line_bytes predicate transform max_scan_bytes).

(** ** The lines of a file *)

(** [data.split(b"\n")] *)
Fixpoint pieces (data : bytes) : list bytes :=
  match data with
  | [] => [[]]
  | c :: data =>
      if Ascii.eqb c newline then [] :: pieces data
      else match pieces data with p :: ps => (c :: p) :: ps | [] => [[c]] end
  end.

Definition emit (max_line_bytes : Z) (line : bytes) : option bytes :=
  if max_line_bytes <? size line + 1 then None else Some line.

(** The part after the last newline is a line only if it is not empty. *)
Definition drop_end (ps : list bytes) : list bytes :=
  match rev ps with [] :: ((_ :: _) as rest) => rev rest | _ => ps end.

(** What a scan down to [lower_bound] sees, in file order: whole lines only, so
    the first piece counts only at the start of the file, and not when empty. *)
Definition lines_from (data : bytes) (lower_bound max_line_bytes : Z) : list (option bytes) :=
  let ps := drop_end (pieces (drop (Z.to_nat lower_bound) data)) in
  let ps := match ps with
            | p :: rest => if negb (lower_bound =? 0) || (size p =? 0) then rest else ps
            | [] => []
            end in
  map (emit max_line_bytes) ps.

Lemma size_nonneg (a : list ascii) : 0 ≤ size a.
Proof. unfold size. lia. Qed.

Lemma size_app (a b : list ascii) : size (a ++ b) = size a + size b.
Proof. unfold size. rewrite length_app. lia. Qed.

Lemma pieces_nonempty data : ∃ p ps, pieces data = p :: ps.
Proof.
  induction data as [|c data (p & ps & E)]; simpl; [eauto|].
  destruct (Ascii.eqb c newline); [eauto|]. rewrite E. eauto.
Qed.

Lemma pieces_app data1 data2 p ps :
  pieces data2 = p :: ps → pieces (data1 ++ data2) = pieces (data1 ++ p) ++ ps.
Proof.
  intros E. assert (Hp : pieces p = [p]).
  { clear data1. revert p ps E. induction data2 as [|c data2 IH]; simpl; intros p ps.
    - by intros [= <- <-].
    - destruct (Ascii.eqb c newline) eqn:Hc; [by intros [= <- <-]|].
      destruct (pieces_nonempty data2) as (p' & ps' & E'). rewrite E'. intros [= <- <-].
      simpl. by rewrite Hc, (IH _ _ E'). }
  induction data1 as [|c data1 IH]; simpl; [by rewrite E, Hp|].
  destruct (Ascii.eqb c newline); [by rewrite IH|]. rewrite IH.
  destruct (pieces_nonempty (data1 ++ p)) as (p' & ps' & ->). done.
Qed.

Lemma pieces_newline data1 data2 : pieces (data1 ++ newline :: data2) = pieces data1 ++ pieces data2.
Proof. rewrite (pieces_app data1 (newline :: data2) [] (pieces data2)) by done. by rewrite app_nil_r. Qed.

Lemma pieces_one data : newline ∉ data → pieces data = [data].
Proof.
  induction data as [|c data IH]; [done|]. intros [Hc Hd]%not_elem_of_cons. simpl.
  destruct (Ascii.eqb_spec c newline) as [->|]; [done|]. by rewrite IH.
Qed.

Lemma rfind_none data : rfind_newline data = None → newline ∉ data.
Proof.
  induction data as [|c data IH]; simpl; [intros _; by apply not_elem_of_nil|].
  destruct (rfind_newline data); [done|]. destruct (Ascii.eqb_spec c newline); [done|].
  intros _. apply not_elem_of_cons. split; [done|by apply IH].
Qed.

Lemma rfind_some data i :
  rfind_newline data = Some i →
  data = take i data ++ newline :: drop (S i) data ∧ newline ∉ drop (S i) data.
Proof.
  revert i. induction data as [|c data IH]; simpl; [done|]. intros i.
  destruct (rfind_newline data) as [j|] eqn:E.
  - intros [= <-]. destruct (IH j eq_refl) as [H1 H2]. simpl. split; [by f_equal|done].
  - destruct (Ascii.eqb_spec c newline) as [->|]; [|done]. intros [= <-].
    rewrite drop_0. split; [done|by apply rfind_none].
Qed.

(** ** The reverse scan reads the lines of the file *)

Section ReverseScan.
Context (lower_bound max_line_bytes : Z) (Hlower : 0 ≤ lower_bound) (Hmax : 1 ≤ max_line_bytes).

(** The pieces to yield, the last one first, when the end of the file is reached
    or not. *)
Definition skip_end (at_file_end : bool) (rps : list bytes) : list bytes :=
  match rps with [] :: rest => if at_file_end then rest else rps | _ => rps end.

Definition yields (at_file_end : bool) (ps : list bytes) : list (option bytes) :=
  map (emit max_line_bytes) (skip_end at_file_end (rev (tail ps)))
  ++ first_line lower_bound max_line_bytes (hd [] ps) false.

Lemma drain_spec fuel pending at_file_end :
  (length pending < fuel)%nat →
  drain fuel max_line_bytes pending at_file_end =
  (map (emit max_line_bytes) (skip_end at_file_end (rev (tail (pieces pending)))),
   hd [] (pieces pending),
   match tail (pieces pending) with [] => at_file_end | _ => false end).
Proof.
  revert pending at_file_end. induction fuel as [|fuel IH]; intros pending a Hfuel; [lia|].
  cbn [drain]. destruct (rfind_newline pending) as [i|] eqn:E.
  - pose proof (rfind_some _ _ E) as [Hp Hn].
    assert (Hlen : (length (take i pending) < fuel)%nat).
    { pose proof (f_equal length Hp) as Hl. rewrite length_app, length_cons in Hl. lia. }
    assert (Eps : pieces pending = pieces (take i pending) ++ [drop (S i) pending])
      by (rewrite Hp at 1; by rewrite pieces_newline, (pieces_one _ Hn)).
    rewrite Eps. destruct (pieces_nonempty (take i pending)) as (p & ps & Ep).
    rewrite Ep. cbn [app tail hd]. rewrite rev_app_distr. cbn [rev app].
    rewrite !IH, Ep by done. cbn [tail hd].
    replace (match ps ++ [drop (S i) pending] with [] => a | _ :: _ => false end) with false
      by by destruct ps.
    replace (match ps with [] => false | _ :: _ => false end) with false by by destruct ps.
    destruct (drop (S i) pending) as [|c line] eqn:El.
    + change (size [] =? 0) with true. destruct a; cbn [andb skip_end].
      * f_equal. f_equal. f_equal. unfold skip_end. by repeat case_match.
      * cbn [map]. f_equal. f_equal. unfold emit at 1. f_equal.
        unfold skip_end. by repeat case_match.
    + replace (size (c :: line) =? 0) with false by (symmetry; apply Z.eqb_neq; unfold size; simpl; lia).
      rewrite andb_false_r. cbn [skip_end map]. f_equal. f_equal. unfold emit at 1. f_equal.
      unfold skip_end. by repeat case_match.
  - apply rfind_none in E. rewrite (pieces_one _ E). done.
Qed.

Lemma yields_app at_file_end data p ps :
  yields at_file_end (pieces (data ++ p) ++ ps) =
  map (emit max_line_bytes) (skip_end at_file_end (rev ps))
  ++ yields (match ps with [] => at_file_end | _ => false end) (pieces (data ++ p)).
Proof.
  unfold yields. destruct (pieces_nonempty (data ++ p)) as (q & qs & ->). cbn [app tail hd].
  rewrite rev_app_distr. destruct ps as [|p' ps]; [done|].
  assert (Hs : ∀ l, skip_end false l = l) by (intros l; unfold skip_end; by repeat case_match).
  rewrite Hs, (assoc_L (++)), <- map_app. f_equal. f_equal. cbn [rev].
  destruct (rev ps ++ [p']) as [|x xs] eqn:E; [by destruct (rev ps)|].
  unfold skip_end. destruct x; [|done]. by destruct at_file_end.
Qed.

Lemma yields_oversized at_file_end data p :
  newline ∉ p → (max_line_bytes <? size p + 1) = true →
  yields at_file_end (pieces (data ++ p)) = yields false (pieces (data ++ p)).
Proof.
  intros Hn Hp. destruct at_file_end; [|done]. unfold yields. f_equal. f_equal.
  destruct (rfind_newline data) as [i|] eqn:E.
  - apply rfind_some in E as [E Hd]. rewrite E, <- (assoc_L (++)). cbn [app].
    rewrite pieces_newline, (pieces_one (drop (S i) data ++ p)) by set_solver.
    destruct (pieces_nonempty (take i data)) as (q & qs & ->). cbn [app tail].
    rewrite rev_app_distr. cbn [rev app]. destruct (drop (S i) data ++ p) eqn:Ed; [|done].
    apply app_eq_nil in Ed as [_ ->]. apply Z.ltb_lt in Hp. unfold size in Hp. simpl in Hp. lia.
  - rewrite pieces_one; [done|]. apply rfind_none in E. set_solver.
Qed.

Context (chunk_bytes : Z) (Hchunk : 1 ≤ chunk_bytes) (data : bytes).

(** The part of the file the scan has not read yet. *)
Definition unread (position : Z) : bytes :=
  take (Z.to_nat (position - lower_bound)) (drop (Z.to_nat lower_bound) data).

Lemma unread_step position read_size :
  lower_bound ≤ position ≤ size data → 0 ≤ read_size ≤ position - lower_bound →
  unread position =
  unread (position - read_size)
  ++ take (Z.to_nat read_size) (drop (Z.to_nat (position - read_size)) data).
Proof.
  intros Hp Hr. unfold unread.
  replace (Z.to_nat (position - lower_bound))
    with (Z.to_nat (position - read_size - lower_bound) + Z.to_nat read_size)%nat by lia.
  rewrite <- take_take_drop, drop_drop. repeat f_equal. lia.
Qed.

Lemma first_line_dropping p :
  (max_line_bytes <? size p + 1) = true →
  first_line lower_bound max_line_bytes [] true = first_line lower_bound max_line_bytes p false.
Proof.
  intros Hp. unfold first_line. destruct (negb _); [done|]. rewrite Hp.
  apply Z.ltb_lt in Hp. destruct (Z.eqb_spec (size p) 0); [lia|done].
Qed.

(** What [continue] yields: the lines it completes and those of the rest. *)
Lemma yields_continue at_file_end data1 pending :
  let '(lines, rest, a) := drain (S (length pending)) max_line_bytes pending at_file_end in
  newline ∉ rest ∧
  yields at_file_end (pieces (data1 ++ pending)) = lines ++ yields a (pieces (data1 ++ rest)).
Proof.
  rewrite drain_spec by lia. destruct (pieces_nonempty pending) as (p & ps & E).
  rewrite E. cbn [tail hd]. split.
  - clear -E. revert p ps E. induction pending as [|c l IH]; simpl; intros p ps.
    + intros [= <- <-]. apply not_elem_of_nil.
    + destruct (Ascii.eqb_spec c newline); [intros [= <- <-]; apply not_elem_of_nil|].
      destruct (pieces_nonempty l) as (q & qs & E'). rewrite E'. intros [= <- <-].
      apply not_elem_of_cons. split; [done|by eapply IH].
  - rewrite (pieces_app data1 pending p ps E). apply yields_app.
Qed.

Lemma iter_lines_spec fuel position at_file_end :
  lower_bound ≤ position ≤ size data → position - lower_bound < Z.of_nat fuel →
  (∀ pending, newline ∉ pending →
     iter_lines chunk_bytes fuel data lower_bound max_line_bytes position pending false at_file_end
     = yields at_file_end (pieces (unread position ++ pending))) ∧
  (∀ p, newline ∉ p → (max_line_bytes <? size p + 1) = true →
     iter_lines chunk_bytes fuel data lower_bound max_line_bytes position [] true false
     = yields false (pieces (unread position ++ p))).
Proof.
  revert position at_file_end. induction fuel as [|fuel IH]; intros position a Hp Hfuel; [lia|].
  cbn [iter_lines]. destruct (Z.leb_spec position lower_bound) as [Hle|Hgt].
  { assert (Hu : unread position = []).
    { unfold unread. replace (Z.to_nat (position - lower_bound)) with 0%nat by lia. done. }
    rewrite Hu. split; intros p Hn; cbn [app]; rewrite (pieces_one _ Hn); cbn; [done|].
    intros Hover. by apply first_line_dropping. }
  set (read_size := Z.min (position - lower_bound) chunk_bytes).
  assert (Hr : 1 ≤ read_size ≤ position - lower_bound) by lia.
  rewrite (unread_step position read_size) by lia.
  set (chunk := take (Z.to_nat read_size) (drop (Z.to_nat (position - read_size)) data)).
  assert (Hcont : ∀ chunk0 pending a0,
    (let '(lines, rest, a1) := drain (S (length (chunk0 ++ pending))) max_line_bytes
         (chunk0 ++ pending) a0 in
     lines ++ (if max_line_bytes <? size rest + 1
               then iter_lines chunk_bytes fuel data lower_bound max_line_bytes
                      (position - read_size) [] true false
               else iter_lines chunk_bytes fuel data lower_bound max_line_bytes
                      (position - read_size) rest false a1))
    = yields a0 (pieces (unread (position - read_size) ++ chunk0 ++ pending))).
  { intros chunk0 pending a0. pose proof (yields_continue a0 (unread (position - read_size))
      (chunk0 ++ pending)) as Hy.
    destruct (drain _ _ _ _) as [[lines rest] a1]. destruct Hy as [Hn ->]. f_equal.
    destruct (max_line_bytes <? size rest + 1) eqn:Hover.
    - rewrite yields_oversized by done.
      destruct (IH (position - read_size) a1) as [_ H2]; [lia..|]. by apply H2.
    - destruct (IH (position - read_size) a1) as [H1 _]; [lia..|]. by apply H1. }
  split.
  - intros pending Hn. rewrite <- (assoc_L (++)). apply Hcont.
  - intros p Hn Hover. destruct (rfind_newline chunk) as [i|] eqn:E.
    + apply rfind_some in E as [E Hd]. rewrite Hcont, app_nil_r.
      rewrite E at 2. rewrite <- !(assoc_L (++)). cbn [app].
      rewrite (assoc_L (++) (unread _)), pieces_newline.
      rewrite (pieces_one (drop (S i) chunk ++ p)) by set_solver.
      rewrite <- (app_nil_r (unread _ ++ _)) at 2. rewrite yields_app, app_nil_r. cbn [rev app].
      assert (Hov : (max_line_bytes <? size (drop (S i) chunk ++ p) + 1) = true).
      { apply Z.ltb_lt in Hover. apply Z.ltb_lt. unfold size in *. rewrite length_app. lia. }
      unfold skip_end. destruct (drop (S i) chunk ++ p) as [|c l]; cbn [map app];
        unfold emit; by rewrite Hov.
    + apply rfind_none in E. rewrite <- (assoc_L (++)).
      destruct (IH (position - read_size) false) as [_ H2]; [lia..|]. apply H2; [set_solver|].
      apply Z.ltb_lt in Hover. apply Z.ltb_lt. unfold size in *. rewrite length_app. lia.
Qed.
End ReverseScan.

Lemma drop_end_cons p ps : drop_end (p :: ps) = p :: rev (skip_end true (rev ps)).
Proof.
  unfold drop_end. cbn [rev]. destruct (rev ps) as [|x xs] eqn:E.
  - cbn [app skip_end rev]. apply (f_equal (@rev _)) in E. rewrite rev_involutive in E. subst ps.
    by destruct p.
  - cbn [app]. apply (f_equal (@rev _)) in E. rewrite rev_involutive in E. subst ps.
    destruct x as [|c x]; [|done]. destruct xs as [|y xs]; cbn [app]; [done|].
    by rewrite app_comm_cons, rev_app_distr.
Qed.

Lemma iter_lines_lines data lower_bound max_line_bytes :
  0 ≤ lower_bound ≤ size data → 1 ≤ max_line_bytes →
  _iter_lines_reverse data (size data) lower_bound max_line_bytes
  = rev (lines_from data lower_bound max_line_bytes).
Proof.
  intros Hl Hm. unfold _iter_lines_reverse.
  destruct (iter_lines_spec lower_bound max_line_bytes ltac:(lia) Hm READ_CHUNK_BYTES
    ltac:(done) data (S (Z.to_nat (size data - lower_bound))) (size data) true)
    as [H _]; [lia..|].
  rewrite H by apply not_elem_of_nil. clear H. rewrite app_nil_r. unfold unread.
  rewrite take_ge by (rewrite length_drop; unfold size; lia). unfold lines_from, yields.
  destruct (pieces_nonempty (drop (Z.to_nat lower_bound) data)) as (p & ps & ->).
  rewrite drop_end_cons. cbn [tail hd]. unfold first_line.
  set (rest := skip_end true (rev ps)).
  destruct (negb (lower_bound =? 0)), (size p =? 0) eqn:Ep; cbn [orb map rev];
    rewrite ?app_nil_r, <- ?map_rev, ?rev_involutive; try done;
    try (f_equal; unfold emit; by destruct (_ <? _)).
Qed.

(** ** What a tail read returns *)

Section Tail.
Context (predicate : list (string * json) → bool) (transform : list (string * json) → option json).

(** The record a line contributes. *)
Definition kept (line : option bytes) : option json :=
  line ← line;
  match line with
  | [] => None
  | _ => match loads line with
         | Some (JObj value) => if predicate value then transform value else None
         | _ => None
         end
  end.

(** A line that holds no JSON object. *)
Definition malformed (line : option bytes) : bool :=
  match line with
  | None => false
  | Some [] => true
  | Some line => negb (is_object (loads line))
  end.

#[local] Arguments kept : simpl never.
#[local] Arguments malformed : simpl never.

Definition last_n {A} (n : nat) (l : list A) : list A := drop (length l - n) l.

Lemma scan_lines_spec limit records invalid oversized lines :
  Z.of_nat (length records) < limit →
  let new := omap kept lines in
  let '(found, i, o) := scan_lines predicate transform limit records invalid oversized lines in
  found = rev (take (Z.to_nat limit - length records) new) ++ records ∧
  (Z.of_nat (length records + length new) < limit →
   i = invalid + Z.of_nat (length (filter (λ line, malformed line = true) lines)) ∧
   o = oversized + Z.of_nat (length (filter (λ line, line = None) lines))).
Proof.
  revert records invalid oversized. induction lines as [|line lines IH];
    intros records invalid oversized Hlimit; cbn zeta.
  { cbn. rewrite take_nil. split; [done|]. intros _. lia. }
  assert (Hskip : ∀ i0 o0, kept line = None →
    i0 = invalid + (if malformed line then 1 else 0) →
    o0 = oversized + (match line with None => 1 | _ => 0 end) →
    let '(found, i, o) := scan_lines predicate transform limit records i0 o0 lines in
    found = rev (take (Z.to_nat limit - length records) (omap kept (line :: lines))) ++ records ∧
    (Z.of_nat (length records + length (omap kept (line :: lines))) < limit →
     i = invalid + Z.of_nat (length (filter (λ line, malformed line = true) (line :: lines))) ∧
     o = oversized + Z.of_nat (length (filter (λ line, line = None) (line :: lines))))).
  { intros i0 o0 Hk Hi Ho. specialize (IH records i0 o0 Hlimit). cbn zeta in IH.
    destruct (scan_lines _ _ _ _ _ _ _) as [[found i] o]. destruct IH as [H1 H2].
    csimpl. rewrite Hk. split; [done|]. intros Hlt. destruct (H2 Hlt) as [-> ->].
    rewrite !filter_cons. destruct line; [rewrite (decide_False (P:=Some _ = None)) by done|];
      case_decide; destruct (malformed _); try done; simpl length; lia. }
  cbn [scan_lines]. destruct line as [raw|]; [|by apply Hskip; [done|simpl; lia..]].
  destruct raw as [|c raw]; [by apply Hskip; [done|simpl; lia..]|].
  unfold kept in Hskip at 1. unfold malformed in Hskip at 1. cbn [mbind option_bind is_object] in Hskip.
  destruct (loads (c :: raw)) as [[| | | | | |value]|] eqn:El;
    try (apply Hskip; [done|simpl; lia..]).
  destruct (predicate value) eqn:Ep; cbn [negb]; [|by apply Hskip; [done|simpl; lia..]].
  destruct (transform value) as [record|] eqn:Et; [|by apply Hskip; [done|simpl; lia..]].
  assert (Hk : kept (Some (c :: raw)) = Some record).
  { unfold kept. cbn [mbind option_bind]. by rewrite El, Ep. }
  assert (Hm : malformed (Some (c :: raw)) = false) by (unfold malformed; by rewrite El).
  assert (Ho : omap kept (Some (c :: raw) :: lines) = record :: omap kept lines)
    by (csimpl; by rewrite Hk).
  rewrite Ho, !filter_cons, Hm.
  rewrite (decide_False (P := false = true)), (decide_False (P := Some _ = None)) by done.
  cbv zeta.
  destruct (Z.leb_spec limit (Z.of_nat (length (record :: records)))) as [Hfull|Hmore].
  - cbn [length] in *. replace (Z.to_nat limit - length records)%nat with 1%nat by lia.
    split; [done|]. intros H. exfalso. lia.
  - specialize (IH (record :: records) invalid oversized Hmore). cbn zeta in IH.
    destruct (scan_lines predicate transform limit (record :: records) invalid oversized lines)
      as [[found i] o]. destruct IH as [H1 H2]. cbn [length] in *. split.
    + rewrite H1. replace (Z.to_nat limit - length records)%nat
        with (S (Z.to_nat limit - S (length records))) by lia.
      cbn [take rev]. by rewrite <- (assoc_L (++)).
    + intros H. apply H2. lia.
Qed.
End Tail.

Lemma omap_rev {A B} (f : A → option B) l : omap f (rev l) = rev (omap f l).
Proof.
  induction l as [|a l IH]; [done|]. cbn [rev]. rewrite omap_app, IH. csimpl.
  destruct (f a); cbn; [done|by rewrite app_nil_r].
Qed.

Lemma last_n_rev {A} n (l : list A) : rev (take n (rev l)) = last_n n l.
Proof. unfold last_n. by rewrite firstn_rev, rev_involutive. Qed.

(** Where the scan of a file of [n] bytes stops. *)
Definition scan_bound (n : Z) (max_scan_bytes : option Z) : Z :=
  match max_scan_bytes with Some m => Z.max 0 (n - m) | None => 0 end.

Lemma filter_rev_length {A} (P : A → Prop) `{!∀ x, Decision (P x)} (l : list A) :
  length (filter P (rev l)) = length (filter P l).
Proof. by rewrite <- (Permutation_rev l). Qed.

Lemma tail_of_spec data limit max_line_bytes predicate transform scan :
  1 ≤ limit → 2 ≤ max_line_bytes → (∀ m, scan = Some m → 1 ≤ m) →
  let lines := lines_from data (scan_bound (size data) scan) max_line_bytes in
  let found := omap (kept predicate transform) lines in
  let t := tail_of data limit max_line_bytes predicate transform scan in
  t_records t = last_n (Z.to_nat limit) found ∧
  (Z.of_nat (length found) < limit →
     t_invalid_records t = Z.of_nat (length (filter (λ line, malformed line = true) lines)) ∧
     t_oversized_records t = Z.of_nat (length (filter (λ line, line = None) lines))).
Proof.
  intros Hl Hm Hs. cbn zeta. unfold tail_of. fold (scan_bound (size data) scan).
  assert (Hb : 0 ≤ scan_bound (size data) scan ≤ size data).
  { unfold scan_bound, size in *. destruct scan as [m|]; [|lia]. specialize (Hs m eq_refl). lia. }
  rewrite iter_lines_lines by lia. set (lines := lines_from _ _ _).
  pose proof (scan_lines_spec predicate transform limit [] 0 0 (rev lines)) as H.
  destruct (scan_lines _ _ _ _ _ _ _) as [[records i] o]. cbn [length] in H.
  destruct H as [H1 H2]; [lia|]. cbn [t_records t_invalid_records t_oversized_records].
  rewrite omap_rev, !filter_rev_length, length_rev in *. split.
  - by rewrite H1, app_nil_r, Nat.sub_0_r, last_n_rev.
  - intros Hlt. destruct H2 as [-> ->]; [lia|]. lia.
Qed.

(** C38: reading the end of a log in chunks, from the back, is the same as splitting its last
    [max_scan_bytes] into lines: the scan yields exactly those lines, last one first, with
    lines over the limit marked; the result holds the last [limit] records that pass the
    filter in file order, counts every malformed and oversized line when it saw them all,
    and says whether the limit on the scan may have hidden records. *)
Theorem read_tail_records data limit max_line_bytes predicate transform scan :
  1 ≤ limit → 2 ≤ max_line_bytes → (∀ m, scan = Some m → 1 ≤ m) →
  let lower := scan_bound (size data) scan in
  let lines := lines_from data lower max_line_bytes in
  let found := omap (kept predicate transform) lines in
  let t := tail_of data limit max_line_bytes predicate transform scan in
  _iter_lines_reverse data (size data) lower max_line_bytes = rev lines ∧
  t_records t = last_n (Z.to_nat limit) found ∧
  (Z.of_nat (length found) < limit →
     t_invalid_records t = Z.of_nat (length (filter (λ line, malformed line = true) lines)) ∧
     t_oversized_records t = Z.of_nat (length (filter (λ line, line = None) lines))) ∧
  t_final_newline_missing t = negb (ends_line data) ∧
  (t_scan_truncated t = true ↔ lower ≠ 0 ∧ Z.of_nat (length found) < limit).
Proof.
  intros Hl Hm Hs. cbn zeta.
  destruct (tail_of_spec data limit max_line_bytes predicate transform scan Hl Hm Hs) as [H1 H2].
  cbn zeta in *. set (lower := scan_bound (size data) scan) in *.
  assert (Hb : 0 ≤ lower ≤ size data).
  { subst lower. unfold scan_bound, size in *. destruct scan as [m|]; [|lia]. specialize (Hs m eq_refl). lia. }
  set (found := omap _ _) in *. set (t := tail_of _ _ _ _ _ _) in *.
  assert (Hlen : Z.of_nat (length (t_records t)) < limit ↔ Z.of_nat (length found) < limit).
  { rewrite H1. unfold last_n. rewrite length_drop. lia. }
  assert (Ht : t_scan_truncated t = negb (lower =? 0) && (Z.of_nat (length (t_records t)) <? limit) ∧
    t_final_newline_missing t = negb (ends_line data)).
  { subst t lower. unfold tail_of, scan_bound. by destruct (scan_lines _ _ _ _ _ _ _) as [[records i] o]. }
  destruct Ht as [Ht Hn].
  split; [apply iter_lines_lines; lia|]. split; [done|]. split; [done|]. split; [done|].
  rewrite Ht, andb_true_iff, negb_true_iff, Z.eqb_neq, Z.ltb_lt. by rewrite Hlen.
Qed.

(** Three lines and a torn one; the scan stops within the first. *)
Lemma read_tail_records_witness :
  let data := utf8_encode (chars "{}" ++ newline :: chars "[1]" ++ newline :: chars "{}" ++ newline :: chars "{") in
  let lines := lines_from data (scan_bound (size data) (Some 9)) 64 in
  (1 ≤ 2 ∧ 2 ≤ 64) ∧ omap (kept (λ _, true) (λ item, Some (JObj item))) lines = [JObj []] ∧
  t_records (tail_of data 2 64 (λ _, true) (λ item, Some (JObj item)) (Some 9)) = [JObj []] ∧
  t_invalid_records (tail_of data 2 64 (λ _, true) (λ item, Some (JObj item)) (Some 9)) = 2.
Proof.
  cbv zeta. split; [lia|]. split; [by vm_compute|].
  destruct (read_tail_records
    (utf8_encode (chars "{}" ++ newline :: chars "[1]" ++ newline :: chars "{}" ++ newline :: chars "{"))
    2 64 (λ _, true) (λ item, Some (JObj item)) (Some 9)) as (_ & H1 & H2 & _);
    [lia|lia|by intros m [= <-]|].
  split; [rewrite H1; by vm_compute|]. destruct H2 as [H2 _]; [by vm_compute|]. rewrite H2. by vm_compute.
Defined.

(** ** Records and their lines *)

(** The text of an audit record and its line. *)
Definition record_text (r : json) : bytes := utf8_encode (print_value spaced 0 r).
Definition record_line (r : json) : bytes := record_text r ++ [newline].
Definition log_text (rs : list json) : bytes := rs ≫= record_line.

Lemma spaced_ok : layout_ok spaced.
Proof. done. Qed.

Lemma spaced_line : one_line spaced.
Proof. split_and!; [decide_now..|done]. Qed.

Section Records.
Context (max_line_bytes : Z) (Hmax : 2 ≤ max_line_bytes).

(** A record whose line can be written and read. *)
Definition record_ok (r : json) : Prop :=
  (∃ kvs, r = JObj kvs) ∧ readable r ∧ size (record_line r) ≤ max_line_bytes.

Lemma utf8_encode_app a b : utf8_encode (a ++ b) = utf8_encode a ++ utf8_encode b.
Proof. apply bind_app. Qed.

Lemma encode_record r name :
  record_ok r → encode_json_object_line r max_line_bytes name false = Ok (record_line r).
Proof.
  intros ((kvs & ->) & Hr & Hs). unfold encode_json_object_line. cbn [line_layout].
  unfold dumps. rewrite (readable_printable _ _ Hr). cbn iota.
  rewrite utf8_encode_app. change (utf8_encode [newline]) with [newline].
  fold (record_text (JObj kvs)). fold (record_line (JObj kvs)).
  destruct (Z.ltb_spec max_line_bytes (size (record_line (JObj kvs)))); [lia|done].
Qed.

Lemma encode_record_inv r name line :
  readable r → encode_json_object_line r max_line_bytes name false = Ok line →
  record_ok r ∧ line = record_line r.
Proof.
  intros Hr. unfold encode_json_object_line. destruct r as [| | | | | |kvs]; try done.
  cbn [line_layout]. unfold dumps. rewrite (readable_printable _ _ Hr). cbn iota.
  rewrite utf8_encode_app. change (utf8_encode [newline]) with [newline].
  fold (record_text (JObj kvs)). fold (record_line (JObj kvs)).
  destruct (Z.ltb_spec max_line_bytes (size (record_line (JObj kvs)))); [done|].
  intros [= <-]. split; [|done]. split; [by exists kvs|]. split; [done|lia].
Qed.

Lemma record_text_newline r : record_ok r → newline ∉ record_text r.
Proof.
  intros (_ & Hr & _). unfold record_text. rewrite utf8_newline.
  by apply print_newline; [apply spaced_line|].
Qed.

Lemma record_text_loads r : record_ok r → loads (record_text r) = Some (canonical r).
Proof.
  intros (_ & Hr & _). unfold record_text. rewrite <- (app_nil_r (print_value spaced 0 r)).
  by apply loads_print.
Qed.

Lemma record_text_nonempty r : record_ok r → record_text r ≠ [].
Proof.
  intros ((kvs & ->) & Hr & _) E. unfold record_text in E.
  destruct (print_opens spaced 0 _ Hr) as (c & cs & Ec & _). rewrite Ec in E.
  destruct (utf8_char_cases c) as [[H _]|(a & b & H & _)]; rewrite utf8_encode_cons, H in E; done.
Qed.

(** A proper prefix of a record's text is not a record. *)
Lemma record_fragment r p :
  record_ok r → p `prefix_of` record_text r → p ≠ record_text r → is_object (loads p) = false.
Proof.
  intros ((kvs & ->) & Hr & _) Hp Hne. destruct (loads p) as [[| | | | | |kvs']|] eqn:E; try done.
  destruct Hne. by eapply loads_prefix.
Qed.
End Records.

(** C39: an audit record that the encoder accepts becomes one line: its text holds no line
    break, reads back as the record with its members in key order, and no proper prefix
    of it reads as a record, so a line torn by a crash is never taken for one. *)
Theorem encode_line_roundtrip record max_line_bytes name line :
  readable record → encode_json_object_line record max_line_bytes name false = Ok line →
  ∃ text, line = text ++ [newline] ∧ newline ∉ text ∧ size line ≤ max_line_bytes ∧
    loads text = Some (canonical record) ∧ loads line = Some (canonical record) ∧
    ∀ p, p `prefix_of` text → p ≠ text → is_object (loads p) = false.
Proof.
  intros Hr H. apply encode_record_inv in H as [Hok ->]; [|done].
  exists (record_text record). split_and!; [done|by eapply record_text_newline|apply Hok|
    by eapply record_text_loads| |intros p Hp Hne; by eapply record_fragment].
  unfold record_line, record_text. change [newline] with (utf8_encode [newline]).
  rewrite <- utf8_encode_app. by apply loads_print.
Qed.

Lemma encode_line_roundtrip_witness :
  let record := JObj [("op", JStr "edit"); ("gpus", JList [JInt 3])] in
  readable record ∧
  ∃ line, encode_json_object_line record 64 "audit" false = Ok line ∧
  ∃ text, line = text ++ [newline] ∧ newline ∉ text ∧ size line ≤ 64 ∧
    loads text = Some (canonical record) ∧ loads line = Some (canonical record) ∧
    ∀ p, p `prefix_of` text → p ≠ text → is_object (loads p) = false.
Proof.
  cbv zeta. assert (Hr : readable (JObj [("op", JStr "edit"); ("gpus", JList [JInt 3])])).
  { apply readable_obj. split; [decide_now|]. by repeat constructor. }
  split; [exact Hr|]. eexists. split; [vm_compute; reflexivity|].
  apply (encode_line_roundtrip _ 64 "audit" _ Hr). by vm_compute.
Defined.

(** ** The tail of a log *)

Lemma ends_line_newline a : ends_line (a ++ [newline]) = true.
Proof. unfold ends_line. by rewrite last_snoc. Qed.

Lemma ends_line_fragment a b : b ≠ [] → newline ∉ b → ends_line (a ++ b) = false.
Proof.
  intros Hb Hn. unfold ends_line. rewrite last_app.
  destruct (last b) as [c|] eqn:E; [|by apply last_None in E].
  apply last_Some in E as [b' ->]. destruct (Ascii.eqb_spec c newline) as [->|]; [set_solver|done].
Qed.

Lemma log_text_app rs1 rs2 : log_text (rs1 ++ rs2) = log_text rs1 ++ log_text rs2.
Proof. apply bind_app. Qed.

Lemma log_text_one r : log_text [r] = record_line r.
Proof. unfold log_text. csimpl. by rewrite app_nil_r. Qed.

Lemma ends_line_log rs : ends_line (log_text rs) = true.
Proof.
  destruct rs as [|r rs _] using rev_ind; [done|].
  rewrite log_text_app, log_text_one. unfold record_line. rewrite (assoc_L (++)).
  apply ends_line_newline.
Qed.

Lemma rfind_app_free a b : newline ∉ b → rfind_newline (a ++ b) = rfind_newline a.
Proof.
  intros Hb. assert (Hf : rfind_newline b = None).
  { destruct (rfind_newline b) as [i|] eqn:E; [|done]. apply rfind_some in E as [E _].
    rewrite E in Hb. set_solver. }
  induction a as [|c a IH]; simpl; [done|]. by rewrite IH.
Qed.

Lemma rfind_snoc a : rfind_newline (a ++ [newline]) = Some (length a).
Proof. induction a as [|c a IH]; simpl; [done|]. by rewrite IH. Qed.

(** The fragment after complete lines is found when it is short enough. *)
Lemma tail_fragment_spec base fragment max_line_bytes :
  ends_line base = true → newline ∉ fragment → size fragment + 1 ≤ max_line_bytes →
  tail_fragment (base ++ fragment) max_line_bytes = Some (size base, fragment).
Proof.
  intros Hb Hf Hs. unfold tail_fragment.
  destruct base as [|c base _] using rev_ind.
  { cbn [app]. replace (Z.min (size fragment) (max_line_bytes + 1)) with (size fragment) by lia.
    rewrite Z.sub_diag, drop_0.
    rewrite <- (app_nil_l fragment) at 1. rewrite rfind_app_free by done. done. }
  assert (c = newline) as ->.
  { unfold ends_line in Hb. rewrite last_snoc in Hb. by apply Ascii.eqb_eq. }
  set (data := (base ++ [newline]) ++ fragment).
  set (start := size data - Z.min (size data) (max_line_bytes + 1)).
  assert (Hd : size data = size base + 1 + size fragment)
    by (unfold data, size; rewrite !length_app; simpl; lia).
  assert (Hstart : (Z.to_nat start ≤ length base)%nat) by (unfold size in *; lia).
  assert (Et : drop (Z.to_nat start) data = (drop (Z.to_nat start) base ++ [newline]) ++ fragment).
  { unfold data. rewrite <- !(assoc_L (++)). by rewrite drop_app_le. }
  rewrite Et, rfind_app_free, rfind_snoc by done.
  f_equal. f_equal.
  - rewrite length_drop. unfold size. rewrite length_app. simpl. lia.
  - rewrite drop_app_length'; [done|]. rewrite length_app. simpl. lia.
Qed.

(** ** Appending a batch, with crashes *)

Lemma fragment_short max_line_bytes j fragment :
  record_ok max_line_bytes j → fragment `prefix_of` record_text j →
  newline ∉ fragment ∧ size fragment + 1 ≤ max_line_bytes.
Proof.
  intros Hj [t Ht]. split.
  - pose proof (record_text_newline _ _ Hj) as Hn. rewrite Ht in Hn. set_solver.
  - destruct Hj as (_ & _ & Hs). unfold record_line, size in *. rewrite Ht, !length_app in Hs.
    simpl in Hs. lia.
Qed.

Section Append.
Context (faulty : bool) (path name : string) (max_line_bytes : Z).
Context (fs0 : files) (rs js : list json) (Hjs : Forall (record_ok max_line_bytes) js).
Context (Hrs : Forall (record_ok max_line_bytes) rs).

(** The log holds [rs] and the first [k] records of [js]; the last record may lack
    its newline, or a part of the next record may follow. *)
Inductive log_at (k : nat) (L : bytes) : Prop :=
  | LogWhole : L = log_text (rs ++ take k js) → log_at k L
  | LogUnterminated bs r : rs ++ take k js = bs ++ [r] → L = log_text bs ++ record_text r → log_at k L
  | LogTorn j fragment : js !! k = Some j → fragment ≠ [] → fragment `prefix_of` record_text j →
      fragment ≠ record_text j → L = log_text (rs ++ take k js) ++ fragment → log_at k L.

(** Only this log changed, and it satisfies [Φ]. *)
Definition log_only (Φ : bytes → Prop) (fs : files) : Prop :=
  Φ (content path fs) ∧ ∀ p, p ≠ path → fs !! p = fs0 !! p.

Lemma log_only_insert (Φ Ψ : bytes → Prop) fs data :
  log_only Φ fs → Ψ data → log_only Ψ (<[path := data]> fs).
Proof.
  intros [_ H] HΨ. split; [by rewrite content_insert|]. intros p Hp. rewrite lookup_insert_ne by done.
  by apply H.
Qed.

Lemma log_only_mono (Φ Ψ : bytes → Prop) fs : (∀ L, Φ L → Ψ L) → log_only Φ fs → log_only Ψ fs.
Proof. intros H [H1 H2]. split; auto. Qed.

(** A cut of the text of some records is whole records and a cut record. *)
Lemma log_text_prefix ms q :
  q `prefix_of` log_text ms →
  ∃ i, q = log_text (take i ms) ∨
       (∃ m, ms !! i = Some m ∧ q = log_text (take i ms) ++ record_text m) ∨
       (∃ m fragment, ms !! i = Some m ∧ fragment ≠ [] ∧ fragment `prefix_of` record_text m ∧
          fragment ≠ record_text m ∧ q = log_text (take i ms) ++ fragment).
Proof.
  revert q. induction ms as [|m ms IH]; intros q Hq.
  { exists 0%nat. left. by apply prefix_nil_inv in Hq. }
  change (log_text (m :: ms)) with (record_line m ++ log_text ms) in Hq.
  assert (Hm : record_line m `prefix_of` record_line m ++ log_text ms) by by eexists.
  assert (Hcut : q `prefix_of` record_text m ∨ record_line m `prefix_of` q).
  { destruct (prefix_weak_total _ _ _ Hq Hm) as [Hl|Hl]; [|by right].
    assert (Ht : record_text m `prefix_of` record_line m) by by eexists.
    destruct (prefix_weak_total _ _ _ Hl Ht) as [Hp|[t ->]]; [by left|].
    destruct Hl as [t' Hl]. unfold record_line in Hl. rewrite <- (assoc_L (++)) in Hl.
    apply app_inv_head in Hl. destruct t as [|c t]; [left; by rewrite app_nil_r|].
    injection Hl as <- Hl. symmetry in Hl. apply app_eq_nil in Hl as [-> _]. by right. }
  destruct Hcut as [Hp|Hl].
  - destruct (decide (q = [])) as [->|Hne]; [by exists 0%nat; left|].
    exists 0%nat. right. destruct (decide (q = record_text m)) as [->|Hneq].
    + left. by exists m.
    + right. by exists m, q.
  - clear Hm.
    destruct Hl as [q' ->]. apply prefix_app_inv in Hq.
    destruct (IH q' Hq) as (i & H). exists (S i). simpl take. simpl lookup.
    change (log_text (m :: take i ms)) with (record_line m ++ log_text (take i ms)).
    destruct H as [->|[(m' & Hm & ->)|(m' & fragment & Hm & H1 & H2 & H3 & ->)]].
    + by left.
    + right. left. exists m'. by rewrite (assoc_L (++)).
    + right. right. exists m', fragment. by rewrite (assoc_L (++)).
Qed.

Lemma take_take_drop_js k i : take k js ++ take i (drop k js) = take (k + i) js.
Proof. apply take_take_drop. Qed.

(** Whatever part of the batch was written, the log is in one of the states. *)
Lemma log_at_written k q :
  q `prefix_of` log_text (drop k js) → ∃ k', log_at k' (log_text (rs ++ take k js) ++ q).
Proof.
  intros Hq. apply log_text_prefix in Hq as (i & H).
  assert (Hi : log_text (rs ++ take k js) ++ log_text (take i (drop k js))
               = log_text (rs ++ take (k + i) js)).
  { rewrite <- log_text_app, <- (assoc_L (++)). by rewrite take_take_drop_js. }
  destruct H as [->|[(m & Hm & ->)|(m & fragment & Hm & H1 & H2 & H3 & ->)]].
  - exists (k + i)%nat. apply LogWhole. done.
  - exists (S (k + i)). rewrite lookup_drop in Hm. rewrite (assoc_L (++)), Hi.
    eapply (LogUnterminated _ _ (rs ++ take (k + i) js) m); [|done].
    by rewrite (take_S_r _ _ _ Hm), (assoc_L (++)).
  - exists (k + i)%nat. rewrite lookup_drop in Hm. rewrite (assoc_L (++)), Hi. by eapply LogTorn.
Qed.

Lemma log_records_ok k : Forall (record_ok max_line_bytes) (rs ++ take k js).
Proof. apply Forall_app. split; [done|by apply Forall_take]. Qed.

Lemma log_text_snoc bs r : log_text (bs ++ [r]) = (log_text bs ++ record_text r) ++ [newline].
Proof. rewrite log_text_app, log_text_one. unfold record_line. by rewrite (assoc_L (++)). Qed.

(** The states the log may be left in. *)
Definition some_log : files → Prop := log_only (λ L, ∃ k, log_at k L).

Lemma some_log_at k fs : log_only (log_at k) fs → some_log fs.
Proof. apply log_only_mono. eauto. Qed.

Definition whole (k : nat) : bytes := log_text (rs ++ take k js).

Lemma whole_log k fs : log_only (eq (whole k)) fs → some_log fs.
Proof. apply log_only_mono. intros L <-. exists k. by apply LogWhole. Qed.

Lemma create_log_at k fs : log_only (log_at k) fs → log_only (log_at k) (<[path := content path fs]> fs).
Proof. intros H. apply (log_only_insert _ _ _ _ H), H. Qed.

(** What the repair of a log does, by the state of the log. *)
Lemma repair_cases k L :
  log_at k L →
  L = whole k ∧ ends_line L = true ∨
  ends_line L = false ∧
  ∃ start fragment, tail_fragment L max_line_bytes = Some (start, fragment) ∧
    (max_line_bytes <? size fragment + 1) = false ∧
    (is_object (loads fragment) = true ∧ L ++ [newline] = whole k ∨
     is_object (loads fragment) = false ∧ take (Z.to_nat start) L = whole k ∧ start = size (whole k)).
Proof.
  pose proof (log_records_ok k) as Hall.
  intros [->|bs r E ->|j fragment Hj Hne Hp Hneq ->]; [left|right..].
  - split; [done|apply ends_line_log].
  - assert (Hr : record_ok max_line_bytes r)
      by (rewrite E in Hall; apply Forall_app in Hall as [_ Hr]; by inversion Hr).
    destruct (fragment_short _ r (record_text r) Hr ltac:(done)) as [Hn Hs].
    split; [by apply ends_line_fragment; [eapply record_text_nonempty|]|].
    eexists _, _. split; [by apply tail_fragment_spec; [apply ends_line_log|..]|].
    split; [apply Z.ltb_ge; lia|]. left. split.
    + rewrite (record_text_loads _ _ Hr). destruct Hr as ((kvs & ->) & _). done.
    + unfold whole. by rewrite E, log_text_snoc.
  - assert (Hr : record_ok max_line_bytes j)
      by (rewrite Forall_forall in Hjs; by eapply Hjs, list_elem_of_lookup_2).
    destruct (fragment_short _ j fragment Hr Hp) as [Hn Hs].
    split; [by apply ends_line_fragment|].
    eexists _, _. split; [by apply tail_fragment_spec; [apply ends_line_log|..]|].
    split; [apply Z.ltb_ge; lia|]. right. split; [by eapply record_fragment|].
    split; [|done]. apply take_app_length'. unfold whole, size. lia.
Qed.

Lemma repair_wp k fs w :
  log_only (log_at k) fs →
  wp faulty some_log (_repair_tail path max_line_bytes name)
    (λ r fs w, match r with
               | Ok (n, _) => log_only (eq (whole k)) fs ∧ n = size (whole k)
               | Raise _ => faulty = true ∧ some_log fs
               end) fs w.
Proof.
  intros H. unfold _repair_tail. apply wp_bind, wp_get_files.
  pose proof H as [HL _]. set (L := content path fs) in *.
  assert (Hsome : some_log fs) by by eapply some_log_at.
  destruct (repair_cases k L HL) as [[EL ->]|(-> & start & fragment & -> & -> & Hcase)].
  - apply wp_ret. rewrite <- EL. split; [|done]. destruct H as [_ H]. by split.
  - destruct Hcase as [[-> E]|(-> & E & Es)].
    + assert (Hw : ∀ n, some_log (<[path := L ++ take n [newline]]> fs)).
      { intros n. eapply log_only_insert; [exact H|]. destruct n; simpl.
        - exists k. by rewrite app_nil_r.
        - exists k. rewrite take_nil, E. by apply LogWhole. }
      assert (Hfull : log_only (eq (whole k)) (<[path := L ++ [newline]]> fs))
        by (eapply log_only_insert; [exact H|]; by rewrite E).
      apply wp_bind, wp_device; [|by intros Hf n].
      apply wp_bind, wp_check; [apply wp_ret|by intros; eapply whole_log|by intros; eauto using whole_log].
      split; [done|]. rewrite <- E. unfold size. rewrite length_app. simpl. lia.
    + assert (Hfull : log_only (eq (whole k)) (<[path := take (Z.to_nat start) L]> fs))
        by (eapply log_only_insert; [exact H|]; by rewrite E).
      apply wp_bind, wp_at_once; [|by intros; eauto using whole_log..].
      apply wp_bind, wp_check; [apply wp_ret; by split|by intros; eauto using whole_log..].
Qed.

(** The chunks of a batch reach the file in order. *)
Lemma write_lines_wp base total chunk lines written fs w :
  written ++ chunk ++ concat lines = total →
  log_only (eq (base ++ written)) fs →
  let cut := log_only (λ L, ∃ q, q `prefix_of` total ∧ L = base ++ q) in
  wp faulty cut (write_lines path chunk lines)
    (λ r fs w, match r with Ok _ => log_only (eq (base ++ total)) fs
               | Raise _ => faulty = true ∧ cut fs end) fs w.
Proof.
  cbn zeta. set (cut := log_only (λ L, ∃ q, q `prefix_of` total ∧ L = base ++ q)).
  assert (Hall : ∀ payload rest written fs w (Q : res unit → files → world → Prop),
    written ++ payload ++ rest = total → log_only (eq (base ++ written)) fs →
    (∀ fs, log_only (eq (base ++ written ++ payload)) fs → Q (Ok tt) fs w) →
    (∀ fs msg, faulty = true → cut fs → Q (Raise (OSError msg)) fs w) →
    wp faulty cut (_write_all path payload) Q fs w).
  { clear. intros payload rest written fs w Q Ht H HQ He. unfold _write_all.
    destruct payload as [|c payload].
    { apply wp_ret, HQ. by rewrite app_nil_r. }
    pose proof H as [HL _]. assert (Hcut : ∀ n, cut (<[path := content path fs ++ take n (c :: payload)]> fs)).
    { intros n. eapply log_only_insert; [exact H|].
      exists (written ++ take n (c :: payload)). rewrite <- HL, (assoc_L (++)). split; [|done].
      exists (drop n (c :: payload) ++ rest). rewrite <- Ht.
      rewrite <- (take_drop n (c :: payload)) at 1. by rewrite !(assoc_L (++)). }
    apply wp_device; [|intros Hf n; split; [apply Hcut|intros msg; by apply He]].
    apply HQ. eapply log_only_insert; [exact H|]. by rewrite <- HL, <- (assoc_L (++)). }
  revert chunk written fs w. induction lines as [|line lines IH]; intros chunk written fs w Ht H.
  - cbn [write_lines]. eapply Hall; [exact Ht|exact H| |by intros]. intros fs' Hfs'.
    rewrite <- Ht. cbn [concat]. by rewrite app_nil_r.
  - cbn [write_lines concat] in *. destruct (negb _ && _).
    + apply wp_bind. eapply (Hall chunk (line ++ concat lines)); [exact Ht|exact H| |by intros].
      intros fs' Hfs'. apply (IH line (written ++ chunk)); [by rewrite <- (assoc_L (++))|done].
    + apply (IH (chunk ++ line) written); [|done]. by rewrite <- (assoc_L (++)).
Qed.

Lemma rollback_wp k fs w e :
  faulty = true →
  log_only (λ L, ∃ q, q `prefix_of` log_text (drop k js) ∧ L = whole k ++ q) fs →
  wp faulty some_log (rollback path (size (whole k)) name e)
    (λ r fs w, match r with Ok _ => False | Raise _ => faulty = true ∧ some_log fs end) fs w.
Proof.
  intros Hf H. assert (Hs : some_log fs).
  { eapply log_only_mono; [|exact H]. intros L (q & Hq & ->). by apply log_at_written. }
  assert (Hback : some_log (<[path := take (Z.to_nat (size (whole k))) (content path fs)]> fs)).
  { apply (whole_log k). eapply log_only_insert; [exact H|].
    destruct H as [(q & _ & ->) _]. unfold size. by rewrite Nat2Z.id, take_app_length. }
  unfold rollback. apply wp_bind, wp_attempt, wp_bind.
  apply wp_at_once; [apply wp_check; [by apply wp_throw|done|]|done| |done|];
    intros _ msg; by apply wp_throw.
Qed.

Lemma concat_lines l : concat (map record_line l) = log_text l.
Proof. induction l as [|r l IH]; [done|]. cbn [map concat]. by rewrite IH. Qed.

Lemma encode_records l :
  Forall (record_ok max_line_bytes) l →
  mapM (λ record, encode_json_object_line record max_line_bytes name false) l
  = Ok (map record_line l).
Proof.
  induction 1 as [|r l Hr _ IH]; [done|]. cbn [mapM map]. rewrite (encode_record _ _ _ Hr).
  cbn [mbind res_bind]. by rewrite IH.
Qed.

(** Appending what is missing of the batch leaves the log in one of its states,
    and complete when it returns. *)
Lemma append_wp k fs w :
  2 ≤ max_line_bytes → log_only (log_at k) fs → drop k js ≠ [] →
  wp faulty some_log (append_json_objects path (drop k js) max_line_bytes None name false)
    (λ r fs w, match r with
               | Ok _ => log_only (eq (log_text (rs ++ js))) fs
               | Raise _ => faulty = true ∧ some_log fs
               end) fs w.
Proof.
  intros Hmax H Hne. unfold append_json_objects.
  destruct (drop k js) as [|m ms] eqn:Ed; [done|]. rewrite <- Ed. clear Hne.
  replace ((max_line_bytes <? 2) || false) with false by (symmetry; rewrite orb_false_r; by apply Z.ltb_ge).
  rewrite encode_records by by apply Forall_drop. apply wp_bind, wp_of_res. cbn iota beta.
  assert (Hsome : some_log fs) by by eapply some_log_at.
  apply wp_bind, wp_check; [|done|done].
  assert (Hc : log_only (log_at k) (<[path := content path fs]> fs)) by by apply create_log_at.
  apply wp_bind, wp_at_once; [|by intros; eauto using some_log_at..].
  apply wp_bind. eapply wp_mono; [by apply repair_wp|]. clear fs H Hsome Hc. intros [[n ws]|e] fs w'; [|done].
  intros [H ->]. cbn iota beta. apply wp_bind, wp_attempt, wp_bind.
  assert (Htotal : whole k ++ log_text (drop k js) = log_text (rs ++ js)).
  { unfold whole. rewrite <- log_text_app, <- (assoc_L (++)). by rewrite take_drop. }
  assert (Hcut : ∀ fs, log_only (λ L, ∃ q, q `prefix_of` log_text (drop k js) ∧ L = whole k ++ q) fs → some_log fs).
  { intros fs'. apply log_only_mono. intros L (q & Hq & ->). by apply log_at_written. }
  assert (Hdone : ∀ fs, log_only (eq (log_text (rs ++ js))) fs →
    log_only (λ L, ∃ q, q `prefix_of` log_text (drop k js) ∧ L = whole k ++ q) fs).
  { intros fs'. apply log_only_mono. intros L <-. exists (log_text (drop k js)). split; [done|].
    by rewrite Htotal. }
  assert (Hfail : ∀ e fs w, faulty = true → log_only (λ L, ∃ q, q `prefix_of` log_text (drop k js) ∧ L = whole k ++ q) fs →
    wp faulty some_log (rollback path (size (whole k)) name e)
      (λ r fs w, match r with
         | Ok a => wp faulty some_log (mret (Z.of_nat (length (drop k js)), ws))
             (λ r fs _, match r with Ok _ => log_only (eq (log_text (rs ++ js))) fs
                        | Raise _ => faulty = true ∧ some_log fs end) fs w
         | Raise _ => faulty = true ∧ some_log fs end) fs w).
  { intros e fs' w1 Hf Hcutf. eapply wp_mono; [by apply rollback_wp|]. by intros [a|e'] fs1 w2. }
  unfold _write_batch. eapply wp_crash; [|exact Hcut]. eapply wp_mono.
  { apply (write_lines_wp (whole k) (log_text (drop k js)) [] _ []); [cbn; by rewrite concat_lines|].
    by rewrite app_nil_r. }
  intros [[]|e] fs' w1 H'; [|destruct H'; by apply wp_bind, Hfail].
  rewrite Htotal in H'. pose proof (Hdone _ H') as Hd.
  pose proof (Hcut _ Hd) as Hs.
  apply wp_bind, wp_check; [|done|intros Hf msg; by apply wp_bind, Hfail].
  apply wp_check; [|done|intros Hf msg; by apply wp_bind, Hfail].
  by apply wp_bind, wp_ret, wp_ret.
Qed.
End Append.
