(* ===== verification/Granularity.v ===== *)
(** * Granularity: booking slots ([src/src/bk/granularity.py])

    Booking times are multiples of a slot whose length divides one hour. The
    functions that re-validate the slot length are modelled with their error
    ([floor_to_slot], [ceil_to_slot], [is_slot_aligned]); [slot_floor],
    [slot_ceil] and [slot_aligned] are what they compute for a valid length,
    which is the only one a [Config] can hold, and are what the scheduler's
    model calls. *)

From S2P Require Import Prelude PyBase.

(** ** Definitions *)

Definition DEFAULT_SLOT_MINUTES : Z := 5.

(** [tuple(value for value in range(1, 61) if 60 % value == 0)] *)
Definition VALID_SLOT_MINUTES : list Z :=
  filter (λ v, 60 mod v = 0) (seqZ 1 60).

(** Digits of a Python integer literal: single underscores may separate them. *)
Fixpoint literal_digits (l : list ascii) (after_digit : bool) : option (list ascii) :=
  match l with
  | [] => if after_digit then Some [] else None
  | c :: l' =>
      if is_digit c then cons c <$> literal_digits l' true
      else if bool_decide (c = "_"%char) && after_digit
      then literal_digits l' false
      else None
  end.

(** [int(s)] on text. *)
Definition py_int (s : string) : option Z :=
  match chars (strip s) with
  | "-"%char :: l => (λ d, - digits_value d) <$> literal_digits l false
  | "+"%char :: l => digits_value <$> literal_digits l false
  | l => digits_value <$> literal_digits l false
  end.

Definition validate_slot_minutes (value : json) : res Z :=
  let check (parsed : Z) : res Z :=
    if bool_decide (parsed ∈ VALID_SLOT_MINUTES) then Ok parsed
    else Raise (ValueError ("slot_minutes must divide one hour; choose one of: "
                  +:+ join ", " (map str_of_Z VALID_SLOT_MINUTES))) in
  match value with
  | JInt z => check z
  | JStr s =>
      match py_int s with
      | Some z => check z
      | None => Raise (ValueError "slot_minutes must be an integer")
      end
  | _ => Raise (ValueError "slot_minutes must be an integer")
  end.

Definition slot_seconds (slot_minutes : Z) : res Z :=
  v ← validate_slot_minutes (JInt slot_minutes); Ok (v * 60).

(** [datetime.fromtimestamp(timestamp - (timestamp % step))] *)
Definition floor_by (step : Z) (value : datetime) : datetime :=
  let timestamp := value / usec in
  (timestamp - timestamp mod step) * usec.

Definition floor_to_slot (value : datetime) (slot_minutes : Z) : res datetime :=
  step ← slot_seconds slot_minutes; Ok (floor_by step value).

Definition ceil_to_slot (value : datetime) (slot_minutes : Z) : res datetime :=
  floored ← floor_to_slot value slot_minutes;
  Ok (if bool_decide (value = floored) then floored else floored + minutes slot_minutes).

Definition is_slot_aligned (value : datetime) (slot_minutes : Z) : res bool :=
  floored ← floor_to_slot value slot_minutes; Ok (bool_decide (value = floored)).

Definition slot_phrase (slot_minutes : Z) : res string :=
  v ← validate_slot_minutes (JInt slot_minutes); Ok (str_of_Z v +:+ "-minute").

(** The values for a valid slot length. *)
Definition slot_floor (value : datetime) (slot_minutes : Z) : datetime :=
  floor_by (slot_minutes * 60) value.

Definition slot_ceil (value : datetime) (slot_minutes : Z) : datetime :=
  let floored := slot_floor value slot_minutes in
  if bool_decide (value = floored) then floored else floored + minutes slot_minutes.

Definition slot_aligned (value : datetime) (slot_minutes : Z) : bool :=
  bool_decide (value = slot_floor value slot_minutes).

(** ** Lemmas *)

Definition valid_slot (m : Z) : Prop := m ∈ VALID_SLOT_MINUTES.

#[export] Instance valid_slot_dec m : Decision (valid_slot m) :=
  decide (m ∈ VALID_SLOT_MINUTES).

Lemma valid_slot_bounds m : valid_slot m → 1 ≤ m ≤ 60.
Proof.
  unfold valid_slot, VALID_SLOT_MINUTES. rewrite list_elem_of_filter, elem_of_seqZ. lia.
Qed.

Lemma validate_slot_minutes_Ok m s :
  validate_slot_minutes (JInt m) = Ok s → s = m ∧ valid_slot m.
Proof.
  unfold validate_slot_minutes, valid_slot. cbv zeta.
  case_bool_decide; [|discriminate]. intros E. injection E as ->. auto.
Qed.

Lemma validate_slot_minutes_int m :
  validate_slot_minutes (JInt m) = Ok m ↔ valid_slot m.
Proof. unfold validate_slot_minutes, valid_slot. case_bool_decide; naive_solver. Qed.

Lemma slot_seconds_valid m : valid_slot m → slot_seconds m = Ok (m * 60).
Proof. intros H%validate_slot_minutes_int. unfold slot_seconds. by rewrite H. Qed.

Lemma floor_to_slot_valid t m : valid_slot m → floor_to_slot t m = Ok (slot_floor t m).
Proof. intros H. unfold floor_to_slot. by rewrite slot_seconds_valid. Qed.

Lemma ceil_to_slot_valid t m : valid_slot m → ceil_to_slot t m = Ok (slot_ceil t m).
Proof. intros H. unfold ceil_to_slot. by rewrite floor_to_slot_valid. Qed.

Lemma is_slot_aligned_valid t m :
  valid_slot m → is_slot_aligned t m = Ok (slot_aligned t m).
Proof. intros H. unfold is_slot_aligned. by rewrite floor_to_slot_valid. Qed.

(** A slot in microseconds. *)
Definition slot_len (m : Z) : Z := minutes m.

(** On a slot boundary, in terms of divisibility. *)
Definition on_slot (m : Z) (t : datetime) : Prop := t mod slot_len m = 0.

#[export] Instance on_slot_dec m t : Decision (on_slot m t) := decide (t mod slot_len m = 0).

Lemma slot_len_pos m : valid_slot m → 0 < slot_len m.
Proof. intros ?%valid_slot_bounds. unfold slot_len, minutes, seconds, usec. lia. Qed.

Lemma slot_floor_mod t m : 0 < m → slot_floor t m = t - t mod slot_len m.
Proof.
  intros Hm. unfold slot_floor, floor_by, slot_len, minutes, seconds.
  pose proof (Z.rem_mul_r t usec (m * 60)) as E.
  rewrite (Z.mul_comm (m * 60)), E by (unfold usec; lia).
  pose proof (Z.div_mod t usec). unfold usec in *. lia.
Qed.

Section Slot.
Context (m : Z) (Hm : valid_slot m).
Implicit Types t a : datetime.

Let Hm0 : 0 < m.
Proof. apply valid_slot_bounds in Hm. lia. Qed.
Let Hlen := slot_len_pos m Hm.

Lemma slot_floor_bounds t : slot_floor t m ≤ t < slot_floor t m + slot_len m.
Proof.
  rewrite slot_floor_mod by done.
  pose proof (Z.mod_pos_bound t (slot_len m)). lia.
Qed.

Lemma slot_floor_on t : on_slot m (slot_floor t m).
Proof.
  unfold on_slot. rewrite slot_floor_mod by done.
  rewrite Zminus_mod_idemp_r, Z.sub_diag. done.
Qed.

Lemma slot_aligned_spec t : slot_aligned t m = true ↔ on_slot m t.
Proof.
  unfold slot_aligned, on_slot. rewrite bool_decide_eq_true, slot_floor_mod by done. lia.
Qed.

(** Boundaries are a slot apart. *)
Lemma on_slot_gap t a : on_slot m t → on_slot m a → t < a → t + slot_len m ≤ a.
Proof.
  unfold on_slot. intros Ht Ha Hlt.
  pose proof (Z.div_mod t (slot_len m)). pose proof (Z.div_mod a (slot_len m)).
  assert (t / slot_len m < a / slot_len m) by nia. nia.
Qed.

Lemma on_slot_add t d : on_slot m t → on_slot m d → on_slot m (t + d).
Proof. unfold on_slot. intros Ht Hd. rewrite Z.add_mod, Ht, Hd by lia. done. Qed.

Lemma slot_ceil_eq t :
  slot_ceil t m = if bool_decide (on_slot m t) then t else slot_floor t m + slot_len m.
Proof.
  unfold slot_ceil, slot_len. rewrite (bool_decide_ext (t = slot_floor t m) (on_slot m t)).
  - case_bool_decide as Ho; [|done]. apply slot_aligned_spec, bool_decide_eq_true in Ho. done.
  - rewrite <- slot_aligned_spec. unfold slot_aligned. by rewrite bool_decide_eq_true.
Qed.

Lemma slot_ceil_on t : on_slot m (slot_ceil t m).
Proof.
  rewrite slot_ceil_eq. case_bool_decide; [done|]. apply on_slot_add; [apply slot_floor_on|].
  unfold on_slot. by rewrite Z.mod_same by lia.
Qed.

Lemma slot_ceil_bounds t : t ≤ slot_ceil t m < t + slot_len m.
Proof.
  rewrite slot_ceil_eq. pose proof (slot_floor_bounds t).
  case_bool_decide as Ho; [lia|].
  assert (slot_floor t m ≠ t); [|lia]. intros E. apply Ho. rewrite <- E. apply slot_floor_on.
Qed.

Lemma slot_floor_greatest a t : on_slot m a → a ≤ t ↔ a ≤ slot_floor t m.
Proof.
  intros Ha. pose proof (slot_floor_bounds t). split; [|lia]. intros Hle.
  destruct (Z.le_gt_cases a (slot_floor t m)); [done|].
  pose proof (on_slot_gap _ _ (slot_floor_on t) Ha). lia.
Qed.

Lemma slot_ceil_least a t : on_slot m a → t ≤ a ↔ slot_ceil t m ≤ a.
Proof.
  intros Ha. pose proof (slot_ceil_bounds t). split; [|lia]. intros Hle.
  destruct (Z.le_gt_cases (slot_ceil t m) a); [done|].
  pose proof (on_slot_gap _ _ Ha (slot_ceil_on t)). lia.
Qed.

Lemma slot_ceil_id a : on_slot m a → slot_ceil a m = a.
Proof.
  intros Ha. pose proof (slot_ceil_bounds a). pose proof (slot_ceil_least a a Ha). lia.
Qed.

Lemma slot_floor_id a : on_slot m a → slot_floor a m = a.
Proof.
  intros Ha. pose proof (slot_floor_bounds a). pose proof (slot_floor_greatest a a Ha). lia.
Qed.

Lemma slot_floor_mono a t : a ≤ t → slot_floor a m ≤ slot_floor t m.
Proof.
  intros. pose proof (slot_floor_greatest (slot_floor a m) t (slot_floor_on a)).
  pose proof (slot_floor_bounds a). lia.
Qed.

(** Every boundary falls on a whole second. *)
Lemma on_slot_whole_second a : on_slot m a → replace_microsecond_0 a = a.
Proof.
  intros Ha. assert (a mod usec = 0); [|unfold replace_microsecond_0; lia].
  unfold on_slot, slot_len, minutes, seconds in Ha.
  apply Z.mod_divide; [unfold usec; lia|].
  apply Z.mod_divide in Ha; [|unfold usec; lia]. destruct Ha as [k ->].
  exists (k * (m * 60)). lia.
Qed.
End Slot.

(** A whole number of slots, given in seconds, keeps a boundary a boundary. *)
Lemma on_slot_add_seconds m t n :
  valid_slot m → on_slot m t → n mod (m * 60) = 0 → on_slot m (t + seconds n).
Proof.
  intros Hm Ht Hn. pose proof (valid_slot_bounds _ Hm). apply on_slot_add; [done|done|].
  unfold on_slot, slot_len, minutes, seconds. apply Z.mod_divide in Hn as [q ->]; [|lia].
  apply Z.mod_divide; [unfold usec; lia|]. exists q. unfold usec. lia.
Qed.

#[export] Hint Resolve slot_floor_on slot_ceil_on slot_len_pos : bk.

(** ** Properties *)

(** For a valid slot length, [floor_to_slot] and [ceil_to_slot] return the
    greatest slot boundary at or before the time and the least one at or after
    it, and a time is aligned exactly when it is its own floor. *)
Theorem slot_rounding_correct m t :
  valid_slot m →
  ∃ lo hi, floor_to_slot t m = Ok lo ∧ ceil_to_slot t m = Ok hi ∧
    (∀ a, on_slot m a → a ≤ t ↔ a ≤ lo) ∧ (∀ a, on_slot m a → t ≤ a ↔ hi ≤ a) ∧
    on_slot m lo ∧ on_slot m hi ∧ hi - lo < 2 * slot_len m ∧
    is_slot_aligned t m = Ok (bool_decide (lo = hi)).
Proof.
  intros Hm. exists (slot_floor t m), (slot_ceil t m).
  rewrite floor_to_slot_valid, ceil_to_slot_valid, is_slot_aligned_valid by done.
  do 2 (split; [done|]). split; [by intros; apply slot_floor_greatest|].
  split; [by intros; apply slot_ceil_least|].
  do 2 (split; [eauto with bk|]).
  pose proof (slot_floor_bounds m Hm t). pose proof (slot_ceil_bounds m Hm t).
  split; [lia|]. do 2 f_equal. unfold slot_aligned.
  apply bool_decide_ext. split.
  - intros E. assert (on_slot m t) by (rewrite E; by apply slot_floor_on).
    by rewrite slot_ceil_id, <- E.
  - intros E. lia.
Qed.

Lemma slot_rounding_witness :
  valid_slot 15 ∧
  ∃ lo hi, floor_to_slot (seconds 1700000000) 15 = Ok lo ∧
    ceil_to_slot (seconds 1700000000) 15 = Ok hi ∧
    (∀ a, on_slot 15 a → a ≤ seconds 1700000000 ↔ a ≤ lo) ∧
    (∀ a, on_slot 15 a → seconds 1700000000 ≤ a ↔ hi ≤ a) ∧
    on_slot 15 lo ∧ on_slot 15 hi ∧ hi - lo < 2 * slot_len 15 ∧
    is_slot_aligned (seconds 1700000000) 15 = Ok (bool_decide (lo = hi)).
Proof.
  assert (H : valid_slot 15) by decide_now.
  split; [exact H|]. exact (slot_rounding_correct 15 (seconds 1700000000) H).
Defined.
