(* ===== verification/Timeparse.v ===== *)
(** * Timeparse: timestamps, durations and clock times ([src/src/bk/timeparse.py])

    [to_iso] and [parse_iso] are the only way a timestamp enters or leaves a
    stored document; [parse_iso_to_iso] is the round trip that lets the ledger's
    model hold instants. [fromisoformat] follows the grammar documented for
    Python 3.10, the oldest supported version:
    [YYYY-MM-DD[*HH[:MM[:SS[.fff[fff]]]][+HH:MM[:SS[.ffffff]]]]]. *)

From S2P Require Import Prelude PyBase Granularity.

(** ** The proleptic Gregorian calendar *)

Record civil := Civil { c_year : Z; c_month : Z; c_day : Z }.

#[export] Instance civil_eq_dec : EqDecision civil.
Proof. solve_decision. Defined.

(** Day number (0 = 1970-01-01) of a date; eras are 400 years from 1 March 0000. *)
Definition days_from_civil (c : civil) : Z :=
  let y := if c_month c <=? 2 then c_year c - 1 else c_year c in
  let era := y / 400 in
  let yoe := y mod 400 in
  let mp := if 2 <? c_month c then c_month c - 3 else c_month c + 9 in
  let doy := (153 * mp + 2) / 5 + c_day c - 1 in
  era * 146097 + (yoe * 365 + yoe / 4 - yoe / 100 + doy) - 719468.

(** The date inside an era: year of era from 1 March, month and day. *)
Definition era_civil (doe : Z) : Z * Z * Z :=
  let yoe := (doe - doe / 1460 + doe / 36524 - doe / 146096) / 365 in
  let doy := doe - (365 * yoe + yoe / 4 - yoe / 100) in
  let mp := (5 * doy + 2) / 153 in
  (yoe, (if mp <? 10 then mp + 3 else mp - 9), doy - (153 * mp + 2) / 5 + 1).

Definition civil_from_days (z : Z) : civil :=
  let s := z + 719468 in
  let '(yoe, m, d) := era_civil (s mod 146097) in
  let y := yoe + s / 146097 * 400 in
  Civil (if m <=? 2 then y + 1 else y) m d.

Definition is_leap (y : Z) : bool :=
  (y mod 4 =? 0) && (negb (y mod 100 =? 0) || (y mod 400 =? 0)).

Definition days_in_month (y m : Z) : Z :=
  if m =? 2 then if is_leap y then 29 else 28
  else if bool_decide (m ∈ [4; 6; 9; 11]) then 30 else 31.

(** ** Printing *)

Definition digit_char (d : Z) : ascii := ascii_of_N (Z.to_N (48 + d)).
Definition pad2 (n : Z) : list ascii := [digit_char (n / 10 mod 10); digit_char (n mod 10)].
Definition pad4 (n : Z) : list ascii :=
  [digit_char (n / 1000 mod 10); digit_char (n / 100 mod 10);
   digit_char (n / 10 mod 10); digit_char (n mod 10)].

(** Characters of [dt.isoformat()] for a whole second in UTC, without the offset. *)
Definition iso_chars (t : datetime) : list ascii :=
  let sec := t / usec in
  let c := civil_from_days (sec / 86400) in
  let s := sec mod 86400 in
  pad4 (c_year c) ++ "-"%char :: pad2 (c_month c) ++ "-"%char :: pad2 (c_day c)
  ++ "T"%char :: pad2 (s / 3600) ++ ":"%char :: pad2 (s / 60 mod 60)
  ++ ":"%char :: pad2 (s mod 60).

(** [.replace("+00:00", "Z")] on the UTC rendering. *)
Definition to_iso (dt : datetime) : string := text (iso_chars dt ++ ["Z"%char]).

(** ** Parsing *)

(** Exactly [n] digits. *)
Fixpoint take_digits (n : nat) (acc : Z) (l : list ascii) : option (Z * list ascii) :=
  match n, l with
  | O, _ => Some (acc, l)
  | S n', c :: l' => if is_digit c then take_digits n' (10 * acc + digit_value c) l' else None
  | _, _ => None
  end.

Definition expect (c : ascii) (l : list ascii) : option (list ascii) :=
  match l with
  | c' :: l' => if bool_decide (c = c') then Some l' else None
  | [] => None
  end.

(** Microseconds of day of [HH[:MM[:SS[.fff[fff]]]]] and what follows. *)
Definition parse_clock (l : list ascii) : option (Z * list ascii) :=
  '(h, l) ← take_digits 2 0 l;
  if 23 <? h then None else
  match expect ":" l with
  | None => Some (seconds (h * 3600), l)
  | Some l1 =>
      '(m, l) ← take_digits 2 0 l1;
      if 59 <? m then None else
      match expect ":" l with
      | None => Some (seconds (h * 3600 + m * 60), l)
      | Some l2 =>
          '(s, l) ← take_digits 2 0 l2;
          if 59 <? s then None else
          let base := seconds (h * 3600 + m * 60 + s) in
          match expect "." l with
          | None => Some (base, l)
          | Some l3 =>
              match take_digits 6 0 l3 with
              | Some (us, l) => Some (base + us, l)
              | None =>
                  '(ms, l) ← take_digits 3 0 l3; Some (base + ms * 1000, l)
              end
          end
      end
  end.

(** [+HH:MM[:SS[.ffffff]]], strictly between -24h and 24h; nothing is UTC. *)
Definition parse_offset (l : list ascii) : option Z :=
  let go sign l :=
    '(off, rest) ← parse_clock l;
    if bool_decide (rest = [] ∧ length l ∈ [5; 8; 15]%nat) then Some (sign * off)
    else None in
  match l with
  | [] => Some 0
  | "+"%char :: l' => go 1 l'
  | "-"%char :: l' => go (-1) l'
  | _ => None
  end.

(** [datetime.fromisoformat] of a text, read as UTC when it has no offset. *)
Definition fromisoformat (l : list ascii) : option datetime :=
  '(y, l) ← take_digits 4 0 l;
  l ← expect "-" l;
  '(m, l) ← take_digits 2 0 l;
  l ← expect "-" l;
  '(d, l) ← take_digits 2 0 l;
  if (y <? 1) || (m <? 1) || (12 <? m) || (d <? 1) || (days_in_month y m <? d) then None else
  let day := seconds (days_from_civil (Civil y m d) * 86400) in
  match l with
  | [] => Some day
  | _ :: l =>
      '(us, l) ← parse_clock l;
      off ← parse_offset l;
      Some (day + us - off)
  end.

(** A [datetime] exists: its year is within [MINYEAR, MAXYEAR]. *)
Definition representable (t : datetime) : Prop :=
  1 ≤ c_year (civil_from_days (t / usec / 86400)) ≤ 9999.

#[export] Instance representable_dec t : Decision (representable t) := and_dec _ _.

(** [astimezone(timezone.utc)] leaves the range of [datetime] at its two ends. *)
Definition parse_iso (value : string) : res datetime :=
  let l := chars (strip value) in
  let l := match last l with
           | Some "Z"%char => take (length l - 1) l ++ chars "+00:00"
           | _ => l
           end in
  match fromisoformat l with
  | Some t => if bool_decide (representable t) then Ok (replace_microsecond_0 t)
              else Raise (OverflowError "date value out of range")
  | None => Raise (ValueError "Invalid isoformat string")
  end.

(** A date that is computed: [datetime] raises when its year does not exist. *)
Definition date_in_range (t : datetime) : res datetime :=
  if bool_decide (representable t) then Ok t else Raise (OverflowError "date value out of range").

(** Dates that are computed for nothing but their errors. *)
Definition dates_in_range (l : list datetime) : res unit :=
  for_each (λ t, _ ← date_in_range t; Ok tt) l.

(** ** Clock readings and queue starts *)

Definition utc_now : M datetime := clock_now.

(** [slot_floor] and [slot_ceil] stand for the roundings of a valid slot length. *)
Definition normalize_queue_start (value now : datetime) (slot_minutes : Z) : datetime :=
  if value <=? now then slot_floor now slot_minutes else slot_ceil value slot_minutes.

(** ** Durations *)

Definition duration_message : string := "duration must look like 30m, 1h30m, or 1d".

Definition unit_seconds (c : ascii) : option Z :=
  if bool_decide (c = "d"%char) then Some 86400
  else if bool_decide (c = "h"%char) then Some 3600
  else if bool_decide (c = "m"%char) then Some 60
  else None.

(** The longest run of digits and what follows it. *)
Fixpoint span_digits (l : list ascii) : list ascii * list ascii :=
  match l with
  | c :: l' => if is_digit c then let '(d, r) := span_digits l' in (c :: d, r) else ([], l)
  | [] => ([], [])
  end.

(** The token loop: each token must start where the previous one ended. [fuel]
    bounds the number of tokens; the length of the text is enough. *)
Fixpoint duration_tokens (fuel : nat) (seen : list ascii) (total : Z) (l : list ascii)
    : res Z :=
  match l with
  | [] => Ok total
  | _ =>
      match fuel with
      | O => Raise (ValueError duration_message)
      | S fuel' =>
          match span_digits l with
          | ((_ :: _) as ds, u :: rest) =>
              match unit_seconds u with
              | Some k =>
                  if bool_decide (u ∈ seen)
                  then Raise (ValueError "duration units may only appear once")
                  else duration_tokens fuel' (u :: seen) (total + digits_value ds * k) rest
              | None => Raise (ValueError duration_message)
              end
          | _ => Raise (ValueError duration_message)
          end
      end
  end.

Definition parse_duration_seconds (value : string) : res Z :=
  let raw := chars (lower (strip value)) in
  if bool_decide (raw = []) then Raise (ValueError duration_message) else
  total ← duration_tokens (length raw) [] 0 raw;
  if total <=? 0 then Raise (ValueError "duration must be positive") else Ok total.

(** ** Calendar lemmas *)

Fixpoint check_from (p : Z → bool) (fuel : nat) (z : Z) : bool :=
  match fuel with
  | O => true
  | S fuel' => if p z then check_from p fuel' (z + 1) else false
  end.

Lemma check_from_spec p fuel z x :
  check_from p fuel z = true → z ≤ x < z + Z.of_nat fuel → p x = true.
Proof.
  revert z. induction fuel as [|fuel IH]; intros z; simpl; [lia|].
  destruct (p z) eqn:E; [|done]. intros Hc Hx.
  destruct (decide (x = z)) as [->|]; [done|]. apply (IH (z + 1)); [done|lia].
Qed.

(** Years of an era start on 1 March; the year formula is monotone in the day,
    so checking the first and the last day of each of the 400 years is enough. *)
Definition year_start (yoe : Z) : Z := 365 * yoe + yoe / 4 - yoe / 100.
Definition year_last (yoe : Z) : Z :=
  year_start yoe + (if is_leap (yoe + 1) then 365 else 364).
Definition year_index (doe : Z) : Z := (doe - doe / 1460 + doe / 36524 - doe / 146096) / 365.

Definition year_ok (yoe : Z) : bool :=
  (year_index (year_start yoe) =? yoe) && (year_index (year_last yoe) =? yoe)
  && ((yoe =? 399) || (year_last yoe + 1 =? year_start (yoe + 1))).

Lemma years_ok : check_from year_ok 400 0 = true.
Proof. vm_compute. reflexivity. Qed.

Lemma year_index_mono a b : 0 ≤ a ≤ b → year_index a ≤ year_index b.
Proof.
  intros H. apply Z.div_le_mono; [lia|].
  assert (b / 1460 ≤ a / 1460 + (b - a)) by lia.
  destruct (decide (b - a < 1460)); lia.
Qed.

Lemma year_index_range doe : 0 ≤ doe < 146097 → 0 ≤ year_index doe < 400.
Proof.
  intros H. pose proof (year_index_mono 0 doe). pose proof (year_index_mono doe 146096).
  change (year_index 0) with 0 in *. change (year_index 146096) with 399 in *. lia.
Qed.

Lemma year_index_bounds doe :
  0 ≤ doe < 146097 → year_start (year_index doe) ≤ doe ≤ year_last (year_index doe).
Proof.
  intros H. pose proof (year_index_range doe H) as Hy. set (y := year_index doe) in *.
  assert (Hok : ∀ i, 0 ≤ i < 400 → year_ok i = true)
    by (intros i Hi; apply (check_from_spec _ _ _ _ years_ok); lia).
  pose proof (Hok y Hy) as Hyo. unfold year_ok in Hyo. bk_split.
  split.
  - destruct (Z.le_gt_cases (year_start y) doe) as [|Hlt]; [done|exfalso].
    destruct (decide (y = 0)) as [E|]; [rewrite E in Hlt; unfold year_start in Hlt; lia|].
    pose proof (Hok (y - 1) ltac:(lia)) as Hp. unfold year_ok in Hp. bk_split.
    destruct (Z.eqb_spec (y - 1) 399); [lia|]. simpl in *. bk_split.
    replace (y - 1 + 1) with y in * by lia.
    pose proof (year_index_mono doe (year_last (y - 1))). lia.
  - destruct (Z.le_gt_cases doe (year_last y)) as [|Hlt]; [done|exfalso].
    destruct (Z.eqb_spec y 399) as [E|]; simpl in *.
    { rewrite E in Hlt. change (year_last 399) with 146096 in Hlt. lia. }
    bk_split. pose proof (Hok (y + 1) ltac:(lia)) as Hp. unfold year_ok in Hp. bk_split.
    pose proof (year_index_mono (year_start (y + 1)) doe).
    assert (0 ≤ year_start (y + 1)) by (unfold year_start; lia). lia.
Qed.

(** Months of a March-based year, over its at most 366 days. *)
Definition month_of (doy : Z) : Z :=
  let mp := (5 * doy + 2) / 153 in if mp <? 10 then mp + 3 else mp - 9.
Definition day_of (doy : Z) : Z := let mp := (5 * doy + 2) / 153 in doy - (153 * mp + 2) / 5 + 1.

Definition day_ok (doy : Z) : bool :=
  let m := month_of doy in
  let d := day_of doy in
  let mp := if 2 <? m then m - 3 else m + 9 in
  (1 <=? m) && (m <=? 12) && (1 <=? d)
  && (d <=? days_in_month (if doy =? 365 then 4 else 1) m)
  && ((153 * mp + 2) / 5 + d - 1 =? doy).

Lemma year_days_ok : check_from day_ok 366 0 = true.
Proof. vm_compute. reflexivity. Qed.

Lemma days_in_month_leap m : days_in_month 1 m ≤ days_in_month 4 m.
Proof. unfold days_in_month. simpl. repeat case_match; lia. Qed.

Lemma is_leap_shift y k : is_leap (y + 400 * k) = is_leap y.
Proof.
  unfold is_leap.
  replace ((y + 400 * k) mod 4) with (y mod 4) by lia.
  replace ((y + 400 * k) mod 100) with (y mod 100) by lia.
  by replace ((y + 400 * k) mod 400) with (y mod 400) by lia.
Qed.

Lemma days_in_month_shift y k m : days_in_month (y + 400 * k) m = days_in_month y m.
Proof. unfold days_in_month. by rewrite is_leap_shift. Qed.

Lemma era_civil_spec doe yoe m d :
  0 ≤ doe < 146097 → era_civil doe = (yoe, m, d) →
  0 ≤ yoe < 400 ∧ 1 ≤ m ≤ 12 ∧
  1 ≤ d ≤ days_in_month (if m <=? 2 then yoe + 1 else yoe) m ∧
  yoe * 365 + yoe / 4 - yoe / 100
    + ((153 * (if 2 <? m then m - 3 else m + 9) + 2) / 5 + d - 1) = doe.
Proof.
  intros Hr E. unfold era_civil in E. fold (year_index doe) in E.
  fold (year_start (year_index doe)) in E.
  pose proof (year_index_range doe Hr). pose proof (year_index_bounds doe Hr) as Hb.
  set (doy := doe - year_start (year_index doe)) in *.
  fold (month_of doy) in E. fold (day_of doy) in E. simplify_eq.
  unfold year_last in Hb.
  assert (Hdoy : 0 ≤ doy < 366) by (unfold doy; destruct (is_leap _); lia).
  assert (Hday : day_ok doy = true) by (apply (check_from_spec _ _ _ _ year_days_ok); lia).
  unfold day_ok in Hday. bk_split. do 2 (split; [lia|]). split; [split; [lia|]|].
  - destruct (Z.leb_spec (month_of doy) 2).
    + destruct (Z.eqb_spec doy 365) as [E|].
      * destruct (is_leap (year_index doe + 1)) eqn:El; [|lia].
        unfold days_in_month in *. rewrite El. done.
      * etrans; [eassumption|]. unfold days_in_month; simpl. repeat case_match; lia.
    + assert (∀ y y', days_in_month y (month_of doy) = days_in_month y' (month_of doy)) as Hany.
      { intros. unfold days_in_month. destruct (Z.eqb_spec (month_of doy) 2); [lia|done]. }
      rewrite (Hany _ (if doy =? 365 then 4 else 1)). done.
  - unfold doy, year_start in *. lia.
Qed.

Lemma civil_from_days_spec z :
  let c := civil_from_days z in
  1 ≤ c_month c ≤ 12 ∧ 1 ≤ c_day c ≤ days_in_month (c_year c) (c_month c) ∧
  days_from_civil c = z.
Proof.
  unfold civil_from_days, days_from_civil.
  set (s := z + 719468). set (q := s / 146097). set (r := s mod 146097).
  assert (Hr : 0 ≤ r < 146097) by (subst r; lia).
  assert (Hs : s = 146097 * q + r) by (subst q r; lia). clearbody q r.
  destruct (era_civil r) as [[yoe m] d] eqn:E.
  destruct (era_civil_spec r yoe m d Hr E) as (Hy & Hm & Hd & Hsum). simpl.
  split; [lia|].
  assert (Hyear : (if m <=? 2 then yoe + q * 400 + 1 else yoe + q * 400)
          = (if m <=? 2 then yoe + 1 else yoe) + 400 * q) by (destruct (m <=? 2); lia).
  rewrite Hyear, days_in_month_shift. split; [lia|].
  assert (Hback : (if m <=? 2 then (if m <=? 2 then yoe + 1 else yoe) + 400 * q - 1
                   else (if m <=? 2 then yoe + 1 else yoe) + 400 * q) = yoe + q * 400)
    by (destruct (m <=? 2); lia).
  rewrite Hback, Z.div_add, Z.mod_add, Z.div_small, Z.mod_small by lia.
  subst s. lia.
Qed.

(** ** Timestamp round trip *)

Lemma digit_char_spec d :
  0 ≤ d < 10 → is_digit (digit_char d) = true ∧ digit_value (digit_char d) = d.
Proof.
  intros H.
  assert (Hc : check_from (λ d, is_digit (digit_char d) && (digit_value (digit_char d) =? d)) 10 0 = true)
    by (vm_compute; reflexivity).
  pose proof (check_from_spec _ _ _ d Hc ltac:(lia)) as E. simpl in E. by bk_split.
Qed.

Lemma take_digits_cons n acc d l :
  0 ≤ d < 10 → take_digits (S n) acc (digit_char d :: l) = take_digits n (10 * acc + d) l.
Proof. intros [H1 H2]%digit_char_spec. simpl. by rewrite H1, H2. Qed.

Lemma take_digits_pad2 n l : 0 ≤ n < 100 → take_digits 2 0 (pad2 n ++ l) = Some (n, l).
Proof.
  intros H. unfold pad2; simpl app. rewrite !take_digits_cons by lia.
  cbn [take_digits]. do 2 f_equal. lia.
Qed.

Lemma take_digits_pad4 n l : 0 ≤ n < 10000 → take_digits 4 0 (pad4 n ++ l) = Some (n, l).
Proof.
  intros H. unfold pad4; simpl app. rewrite !take_digits_cons by lia.
  cbn [take_digits]. do 2 f_equal. lia.
Qed.

Lemma expect_cons c l : expect c (c :: l) = Some l.
Proof. simpl. by rewrite bool_decide_eq_true_2. Qed.

(** The canonical clock text is followed by an offset, never by a fraction. *)
Lemma parse_clock_pad h m s l :
  0 ≤ h < 24 → 0 ≤ m < 60 → 0 ≤ s < 60 →
  parse_clock (pad2 h ++ ":"%char :: pad2 m ++ ":"%char :: pad2 s ++ "+"%char :: l)
  = Some (seconds (h * 3600 + m * 60 + s), "+"%char :: l).
Proof.
  intros Hh Hm Hs. unfold parse_clock. rewrite take_digits_pad2 by lia. cbn [mbind option_bind].
  destruct (Z.ltb_spec 23 h); [lia|]. rewrite expect_cons, take_digits_pad2 by lia.
  cbn [mbind option_bind].
  destruct (Z.ltb_spec 59 m); [lia|]. rewrite expect_cons, take_digits_pad2 by lia.
  cbn [mbind option_bind].
  destruct (Z.ltb_spec 59 s); [lia|]. done.
Qed.

Lemma parse_offset_utc : parse_offset (chars "+00:00") = Some 0.
Proof. vm_compute. reflexivity. Qed.

Lemma days_in_month_le y m : days_in_month y m ≤ 31.
Proof. unfold days_in_month. repeat case_match; lia. Qed.

Lemma fromisoformat_iso t :
  representable t →
  fromisoformat (iso_chars t ++ chars "+00:00") = Some (replace_microsecond_0 t).
Proof.
  intros Hy. unfold iso_chars, representable in *.
  set (sec := t / usec) in *. set (c := civil_from_days (sec / 86400)) in *.
  pose proof (civil_from_days_spec (sec / 86400)) as (Hm & Hd & Hdays). fold c in Hm, Hd, Hdays.
  pose proof (days_in_month_le (c_year c) (c_month c)).
  change (fromisoformat
    (pad4 (c_year c) ++ "-"%char :: pad2 (c_month c) ++ "-"%char :: pad2 (c_day c)
     ++ "T"%char :: pad2 (sec mod 86400 / 3600) ++ ":"%char :: pad2 (sec mod 86400 / 60 mod 60)
     ++ ":"%char :: pad2 (sec mod 86400 mod 60) ++ "+"%char :: chars "00:00")
    = Some (replace_microsecond_0 t)).
  unfold fromisoformat.
  rewrite take_digits_pad4 by lia. cbn [mbind option_bind]. rewrite expect_cons.
  cbn [mbind option_bind]. rewrite take_digits_pad2 by lia.
  cbn [mbind option_bind]. rewrite expect_cons.
  cbn [mbind option_bind]. rewrite take_digits_pad2 by lia. cbn [mbind option_bind].
  assert ((c_year c <? 1) || (c_month c <? 1) || (12 <? c_month c) || (c_day c <? 1)
          || (days_in_month (c_year c) (c_month c) <? c_day c) = false) as ->.
  { rewrite !orb_false_iff, !Z.ltb_ge. lia. }
  rewrite parse_clock_pad by lia. cbn [mbind option_bind].
  change ("+"%char :: chars "00:00") with (chars "+00:00").
  rewrite parse_offset_utc. cbn [mbind option_bind].
  f_equal. destruct c as [y mo d]; simpl in *. rewrite Hdays.
  unfold seconds, replace_microsecond_0. subst sec. unfold usec. lia.
Qed.

Lemma chars_text l : chars (text l) = l.
Proof. apply String.list_ascii_of_string_of_list_ascii. Qed.

Lemma digit_not_space c : is_digit c = true → is_space c = false.
Proof.
  unfold is_digit, is_space. rewrite andb_true_iff, !N.leb_le. intros [H1 H2].
  rewrite !orb_false_iff, !andb_false_iff, !N.leb_gt, !N.eqb_neq. lia.
Qed.

Lemma drop_while_head p c l : p c = false → drop_while p (c :: l) = c :: l.
Proof. simpl. by intros ->. Qed.

(** Text that starts and ends with non-space characters is its own strip. *)
Lemma strip_text c l c' :
  is_space c = false → is_space c' = false →
  strip (text (c :: l ++ [c'])) = text (c :: l ++ [c']).
Proof.
  intros Hc Hc'. unfold strip. rewrite chars_text, drop_while_head by done.
  change (c :: l ++ [c']) with ((c :: l) ++ [c']). rewrite rev_app_distr. simpl rev at 2.
  cbn [app]. rewrite drop_while_head by done.
  change (c' :: rev (c :: l)) with (rev [c'] ++ rev (c :: l)).
  by rewrite <- rev_app_distr, rev_involutive.
Qed.

Lemma representable_second t : representable t → representable (replace_microsecond_0 t).
Proof.
  unfold representable, replace_microsecond_0. intros H.
  replace ((t - t mod usec) / usec) with (t / usec); [done|].
  rewrite (Z.div_mod t usec) at 2 by done. rewrite Z.add_simpl_r, Z.mul_comm.
  by rewrite Z.div_mul.
Qed.

(** A stored timestamp reads back as the instant it was written for, cut to
    the second: [parse_iso] inverts [to_iso] for every representable time. *)
Theorem parse_iso_to_iso t :
  representable t → parse_iso (to_iso t) = Ok (replace_microsecond_0 t).
Proof.
  intros Hy. unfold parse_iso.
  assert (Hs : strip (to_iso t) = to_iso t).
  { apply (strip_text _ (tail (iso_chars t))); [|done].
    apply digit_not_space, digit_char_spec. lia. }
  rewrite Hs. unfold to_iso. rewrite chars_text, last_snoc.
  replace (length (iso_chars t ++ ["Z"%char]) - 1)%nat with (length (iso_chars t))
    by (rewrite length_app; simpl; lia).
  rewrite take_app_length.
  rewrite fromisoformat_iso by done. rewrite bool_decide_eq_true_2 by by apply representable_second.
  f_equal. apply replace_microsecond_0_idemp.
Qed.

Lemma parse_iso_to_iso_witness :
  representable (seconds 1767225599 + 250) ∧
  parse_iso (to_iso (seconds 1767225599 + 250)) = Ok (replace_microsecond_0 (seconds 1767225599 + 250)).
Proof.
  assert (H : representable (seconds 1767225599 + 250)) by decide_now.
  split; [exact H|]. exact (parse_iso_to_iso _ H).
Defined.

(** ** Durations *)

Definition unit_char (k : nat) : ascii :=
  match k with O => "d"%char | 1%nat => "h"%char | _ => "m"%char end.

Lemma unit_seconds_pos u k : unit_seconds u = Some k → 60 ≤ k ≤ 86400.
Proof. unfold unit_seconds. repeat case_bool_decide; naive_solver lia. Qed.

Lemma span_digits_rest l ds rest :
  span_digits l = (ds, rest) → l = ds ++ rest ∧ forallb is_digit ds = true.
Proof.
  revert ds rest. induction l as [|c l IH]; simpl; intros ds rest E; simplify_eq; [done|].
  destruct (is_digit c) eqn:Ec; simplify_eq; [|done].
  destruct (span_digits l) as [d r]. simplify_eq.
  destruct (IH d rest) as [-> Hd]; [done|]. split; [done|]. simpl. by rewrite Ec, Hd.
Qed.

Lemma digits_value_foldl_nonneg l acc :
  0 ≤ acc → forallb is_digit l = true →
  0 ≤ foldl (λ acc c, 10 * acc + digit_value c) acc l.
Proof.
  revert acc. induction l as [|c l IH]; simpl; intros acc Ha Hl; [done|].
  apply andb_true_iff in Hl as [Hc Hl]. apply IH; [|done].
  unfold is_digit, digit_value in *. bk_split. apply N.leb_le in H, H0. lia.
Qed.

(** The fuel is never what stops the loop: each token shortens the text, so the
    length of the text is enough. *)
Lemma duration_tokens_fuel n m seen total l :
  (length l ≤ n)%nat → (length l ≤ m)%nat →
  duration_tokens n seen total l = duration_tokens m seen total l.
Proof.
  revert m seen total l. induction n as [|n IH]; intros m seen total l Hn Hm.
  { destruct l; simpl in *; [by destruct m|lia]. }
  destruct l as [|c l]; [by destruct m|]. destruct m as [|m]; [simpl in Hm; lia|].
  cbn [duration_tokens]. destruct (span_digits (c :: l)) as [[|d ds] [|u rest]] eqn:E; try done.
  destruct (unit_seconds u); [|done]. case_bool_decide; [done|].
  apply span_digits_rest in E as [E _].
  assert (Hlen : length (c :: l) = length ((d :: ds) ++ u :: rest)) by (by rewrite E).
  rewrite length_app in Hlen. simpl in Hlen, Hn, Hm. apply IH; lia.
Qed.

Lemma duration_tokens_mod fuel seen total l n :
  0 ≤ total → total mod 60 = 0 → duration_tokens fuel seen total l = Ok n →
  total ≤ n ∧ n mod 60 = 0.
Proof.
  revert seen total l. induction fuel as [|fuel IH]; intros seen total l Ht Hmod; simpl.
  { destruct l; intros; simplify_eq. lia. }
  destruct l as [|c l]; [intros; simplify_eq; lia|].
  destruct (span_digits (c :: l)) as [[|d ds] [|u rest]] eqn:E; try done.
  destruct (unit_seconds u) as [k|] eqn:Ek; [|done]. case_bool_decide; [done|].
  apply span_digits_rest in E as [_ Hd].
  assert (Hk : k mod 60 = 0 ∧ 0 < k).
  { revert Ek. unfold unit_seconds. repeat case_bool_decide; intros; simplify_eq; done. }
  pose proof (digits_value_foldl_nonneg (d :: ds) 0 ltac:(lia) Hd) as Hv.
  fold (digits_value (d :: ds)) in Hv. intros Hrun.
  destruct Hk as [Hk Hk0].
  assert (Hmod' : (total + digits_value (d :: ds) * k) mod 60 = 0).
  { rewrite Z.add_mod, Z.mul_mod, Hk, Hmod by lia. by rewrite Z.mul_0_r. }
  apply IH in Hrun; [|nia|done]. nia.
Qed.

(** A duration text that parses is a positive whole number of minutes. *)
Theorem parse_duration_minutes value n :
  parse_duration_seconds value = Ok n → 60 ≤ n ∧ n mod 60 = 0.
Proof.
  unfold parse_duration_seconds. case_bool_decide; [done|].
  rewrite res_bind_Ok. intros (total & Hrun & Hpos).
  destruct (Z.leb_spec total 0); simplify_eq.
  apply (duration_tokens_mod _ _ 0 _ _ (Z.le_refl 0) eq_refl) in Hrun. lia.
Qed.

Lemma parse_duration_minutes_witness :
  parse_duration_seconds " 1H30m" = Ok 5400 ∧ 60 ≤ 5400 ∧ 5400 mod 60 = 0.
Proof.
  assert (H : parse_duration_seconds " 1H30m" = Ok 5400) by (vm_compute; reflexivity).
  split; [exact H|]. exact (parse_duration_minutes _ _ H).
Defined.

Lemma forward_utc_now : forward utc_now.
Proof. exact forward_clock. Qed.

(** ** Lemmas: computed dates *)

Lemma date_in_range_Ok t t' : date_in_range t = Ok t' ↔ t' = t ∧ representable t.
Proof. unfold date_in_range. case_bool_decide; naive_solver. Qed.

Lemma date_in_range_eq t : representable t → date_in_range t = Ok t.
Proof. intros. by apply date_in_range_Ok. Qed.

(** The only error of computed dates. *)
Definition date_overflow : exn := OverflowError "date value out of range".

Lemma date_in_range_raises t e : date_in_range t = Raise e → e = date_overflow ∧ ¬ representable t.
Proof. unfold date_in_range. case_bool_decide; naive_solver. Qed.

Lemma dates_in_range_Ok l : dates_in_range l = Ok tt ↔ Forall representable l.
Proof.
  unfold dates_in_range. rewrite for_each_Ok, Forall_forall. split; intros H t Ht; specialize (H t Ht).
  - unfold date_in_range in H. by case_bool_decide.
  - by rewrite date_in_range_eq.
Qed.

Lemma dates_in_range_cases l :
  (dates_in_range l = Ok tt ∧ Forall representable l) ∨
  (dates_in_range l = Raise date_overflow ∧ ¬ Forall representable l).
Proof.
  induction l as [|t l IH]; [left; by split|]. unfold dates_in_range in *. cbn [for_each].
  rewrite Forall_cons. destruct (date_in_range t) as [t'|e] eqn:E.
  - apply date_in_range_Ok in E as [_ ?]. cbn [mbind res_bind]. naive_solver.
  - apply date_in_range_raises in E as [-> ?]. right. split; [done|naive_solver].
Qed.
