(* ===== verification/Models.v ===== *)
(** * Models: the data of the system ([src/src/bk/models.py])

    Requests as the dataclasses declare them, and the ledger document with its
    reservations. A ledger is read from JSON and validated by
    [ledger_schema.validate_ledger_document] before any code sees it, so each
    field has the type the schema guarantees; a field the schema leaves free
    ([share_units], the job object, the policy) stays a JSON value. Stored
    timestamps are the instants [parse_iso] reads back, whole seconds in UTC. *)

From S2P Require Import Prelude PyBase.

(** ** Constants *)

Definition MODE_SHARED : string := "shared".
Definition MODE_EXCLUSIVE : string := "exclusive".

Definition STATUS_ACTIVE : string := "active".
Definition STATUS_CANCELLED : string := "cancelled".
Definition STATUS_EXPIRED : string := "expired".

Definition JOB_PENDING : string := "pending".
Definition JOB_CLAIMED : string := "claimed".
Definition JOB_RUNNING : string := "running".
Definition JOB_SUCCEEDED : string := "succeeded".
Definition JOB_FAILED : string := "failed".
Definition JOB_CANCELLED : string := "cancelled".
Definition JOB_MISSED : string := "missed".
Definition JOB_TIMED_OUT : string := "timed-out".
Definition JOB_INTERRUPTED : string := "interrupted".
Definition JOB_UNCERTAIN : string := "uncertain".

(** ** Requests *)

Record actor := Actor { a_uid : Z; a_username : string }.

Record booking_request := BookingRequest {
  b_actor : actor;
  b_count : Z;
  b_duration_seconds : Z;
  b_start_at : datetime;
  b_mode : string;
  b_preferred_gpus : option (list Z);
  b_gpu_order : option (list Z);
  b_gpu_scores : option (list (Z * pyfloat));
  b_op_id : option string;
  b_allow_queue : bool;
  b_job_spec_id : option string;
  b_job_digest : option string;
  b_job_summary : option string;
  b_job_digest_aliases : option (list string);
  b_expected_memory_mb : option Z;
  b_gpu_memory_capacity_mb : option (list (Z * Z));
  b_share_units : option Z;
  b_excluded_gpus : option (list Z);
}.

Record edit_request := EditRequest {
  e_actor : actor;
  e_reservation_id : string;
  e_op_id : option string;
  e_start_at : option datetime;
  e_duration_seconds : option Z;
  e_mode : option string;
  e_preferred_gpus : option (list Z);
  e_gpu_order : option (list Z);
  e_gpu_scores : option (list (Z * pyfloat));
  e_count : option Z;
  e_allow_queue : bool;
  e_expected_memory_mb : option Z;
  e_update_expected_memory : bool;
  e_gpu_memory_capacity_mb : option (list (Z * Z));
  e_share_units : option Z;
  e_update_share_units : bool;
  e_excluded_gpus : option (list Z);
}.

(** ** The ledger *)

(** A scheduled job is an object whose fields the schema does not constrain. *)
Abbreviation job := (gmap string json) (only parsing).

(** The part of a reservation an edit may change, as the history stores it. *)
Record edit_state := EditState {
  s_gpus : list Z;
  s_mode : string;
  s_start_at : datetime;
  s_end_at : datetime;
  s_expected_memory_mb : option Z;
  s_share_units : option json;
}.

Record edit_operation := EditOperation {
  eo_op_id : string;
  eo_signature : string;
  eo_at : option datetime;
  eo_actor_uid : option Z;
  eo_actor_username : option string;
  eo_before : option edit_state;
  eo_after : option edit_state;
}.

Record cancel_operation := CancelOperation {
  co_op_id : string;
  co_signature : string;
  co_at : option datetime;
  co_actor_uid : option Z;
  co_actor_username : option string;
  co_kind : option string;
  co_reason : option string;
}.

Record notification := Notification {
  n_id : string;
  n_type : string;
  n_created_at : datetime;
  n_actor_uid : Z;
  n_actor_username : string;
  n_reason : string;
  n_message : string;
}.

(** [r_share_units] is [None] when the key is absent; [r_edit_operations] and
    [r_notifications] are [None] for an explicit JSON null and [Some []] when
    the key is absent, the two cases [dict.get(key, [])] tells apart. *)
Record reservation := Reservation {
  r_id : string;
  r_op_id : option string;
  r_uid : Z;
  r_username : option string;
  r_gpus : list Z;
  r_mode : string;
  r_start_at : datetime;
  r_end_at : datetime;
  r_status : string;
  r_created_at : option datetime;
  r_updated_at : option datetime;
  r_expected_memory_mb : option Z;
  r_share_units : option json;
  r_operation_signature : option string;
  r_job : option job;
  r_edit_operations : option (list edit_operation);
  r_cancel_operation : option cancel_operation;
  r_notifications : option (list notification);
}.

Record announcement := Announcement {
  an_id : string;
  an_level : string;
  an_message : string;
  an_created_at : datetime;
  an_updated_at : option datetime;
  an_starts_at : datetime;
  an_expires_at : datetime;
  an_actor_uid : Z;
  an_actor_username : string;
  an_archived : option (datetime * Z * string);
}.

(** [l_policy] is [None] when the key is absent or null. *)
Record ledger := Ledger {
  l_reservations : list reservation;
  l_policy : option json;
  l_announcements : list announcement;
  l_last_transaction_id : option string;
}.

Definition set_reservations (rs : list reservation) (l : ledger) : ledger :=
  Ledger rs (l_policy l) (l_announcements l) (l_last_transaction_id l).

Definition set_policy (p : json) (l : ledger) : ledger :=
  Ledger (l_reservations l) (Some p) (l_announcements l) (l_last_transaction_id l).

Record booking_result := BookingResult {
  br_reservation : reservation;
  br_created : bool;
  br_message : string;
  br_queued : bool;
}.

(** An audit record of [ops.log]. Administrator cancellations also name the
    acting administrator. *)
Record log_item := LogItem {
  lg_ts : datetime;
  lg_uid : Z;
  lg_username : string;
  lg_action : string;
  lg_reservation_id : string;
  lg_op_id : option string;
  lg_gpus : list Z;
  lg_mode : string;
  lg_share_units : option json;
  lg_start_at : datetime;
  lg_end_at : datetime;
  lg_result : string;
  lg_message : string;
  lg_acting : option actor;
}.

(** What a mutator passed to [LedgerStore.transaction] returns. *)
Abbreviation mutation A := (ledger * A * list log_item * bool)%type (only parsing).

(** ** Field updates *)

Definition with_status (status : string) (r : reservation) : reservation :=
  Reservation (r_id r) (r_op_id r) (r_uid r) (r_username r) (r_gpus r) (r_mode r)
    (r_start_at r) (r_end_at r) status (r_created_at r) (r_updated_at r)
    (r_expected_memory_mb r) (r_share_units r) (r_operation_signature r) (r_job r)
    (r_edit_operations r) (r_cancel_operation r) (r_notifications r).

Definition with_updated_at (t : datetime) (r : reservation) : reservation :=
  Reservation (r_id r) (r_op_id r) (r_uid r) (r_username r) (r_gpus r) (r_mode r)
    (r_start_at r) (r_end_at r) (r_status r) (r_created_at r) (Some t)
    (r_expected_memory_mb r) (r_share_units r) (r_operation_signature r) (r_job r)
    (r_edit_operations r) (r_cancel_operation r) (r_notifications r).

Definition with_job (j : option job) (r : reservation) : reservation :=
  Reservation (r_id r) (r_op_id r) (r_uid r) (r_username r) (r_gpus r) (r_mode r)
    (r_start_at r) (r_end_at r) (r_status r) (r_created_at r) (r_updated_at r)
    (r_expected_memory_mb r) (r_share_units r) (r_operation_signature r) j
    (r_edit_operations r) (r_cancel_operation r) (r_notifications r).

Definition with_cancel_operation (c : cancel_operation) (r : reservation) : reservation :=
  Reservation (r_id r) (r_op_id r) (r_uid r) (r_username r) (r_gpus r) (r_mode r)
    (r_start_at r) (r_end_at r) (r_status r) (r_created_at r) (r_updated_at r)
    (r_expected_memory_mb r) (r_share_units r) (r_operation_signature r) (r_job r)
    (r_edit_operations r) (Some c) (r_notifications r).

Definition with_notifications (n : list notification) (r : reservation) : reservation :=
  Reservation (r_id r) (r_op_id r) (r_uid r) (r_username r) (r_gpus r) (r_mode r)
    (r_start_at r) (r_end_at r) (r_status r) (r_created_at r) (r_updated_at r)
    (r_expected_memory_mb r) (r_share_units r) (r_operation_signature r) (r_job r)
    (r_edit_operations r) (r_cancel_operation r) (Some n).

Definition with_edit_operations (h : list edit_operation) (r : reservation) : reservation :=
  Reservation (r_id r) (r_op_id r) (r_uid r) (r_username r) (r_gpus r) (r_mode r)
    (r_start_at r) (r_end_at r) (r_status r) (r_created_at r) (r_updated_at r)
    (r_expected_memory_mb r) (r_share_units r) (r_operation_signature r) (r_job r)
    (Some h) (r_cancel_operation r) (r_notifications r).

Definition with_end_at (t : datetime) (r : reservation) : reservation :=
  Reservation (r_id r) (r_op_id r) (r_uid r) (r_username r) (r_gpus r) (r_mode r)
    (r_start_at r) t (r_status r) (r_created_at r) (r_updated_at r)
    (r_expected_memory_mb r) (r_share_units r) (r_operation_signature r) (r_job r)
    (r_edit_operations r) (r_cancel_operation r) (r_notifications r).

(** The schedule of a reservation: GPUs, mode, interval, memory and share. *)
Definition with_schedule (gpus : list Z) (mode : string) (start end_ : datetime)
    (mem : option Z) (units : option json) (r : reservation) : reservation :=
  Reservation (r_id r) (r_op_id r) (r_uid r) (r_username r) gpus mode
    start end_ (r_status r) (r_created_at r) (r_updated_at r)
    mem units (r_operation_signature r) (r_job r)
    (r_edit_operations r) (r_cancel_operation r) (r_notifications r).

(** [job.get("status")] as text, when it is text. *)
Definition job_status (j : job) : option string :=
  match j !! "status" with Some (JStr s) => Some s | _ => None end.

(** Replace the first reservation with the given id, the one a loop that
    compares [reservation.get("id")] finds. *)
Fixpoint update_first (id : string) (f : reservation → reservation)
    (rs : list reservation) : list reservation :=
  match rs with
  | [] => []
  | r :: rest => if bool_decide (r_id r = id) then f r :: rest
                 else r :: update_first id f rest
  end.

Fixpoint find_first (id : string) (rs : list reservation) : option reservation :=
  match rs with
  | [] => None
  | r :: rest => if bool_decide (r_id r = id) then Some r else find_first id rest
  end.

Definition ids (l : ledger) : list string := r_id <$> l_reservations l.

(** ** Lemmas *)

Lemma find_first_Some id rs r :
  find_first id rs = Some r → r ∈ rs ∧ r_id r = id.
Proof.
  induction rs as [|r' rs IH]; simpl; [done|]. case_bool_decide; intros ?; simplify_eq.
  - split; [left|done].
  - destruct IH; [done|]. split; [by right|done].
Qed.

Lemma update_first_ids id f rs :
  (∀ r, r_id r = id → r_id (f r) = id) → r_id <$> update_first id f rs = r_id <$> rs.
Proof.
  intros Hf. induction rs as [|r rs IH]; [done|]. simpl.
  case_bool_decide as E; csimpl; [by rewrite Hf, E by done|]. f_equal. apply IH.
Qed.

Lemma filter_other_ids id (rs : list reservation) :
  id ∉ r_id <$> rs → filter (λ x, r_id x ≠ id) rs = rs.
Proof.
  induction rs as [|x rs IH]; intros Hn; [done|]. csimpl in *.
  apply not_elem_of_cons in Hn as [? ?].
  rewrite filter_cons_True by done. by rewrite IH.
Qed.

(** With distinct ids, updating the found reservation replaces it and keeps
    every other one. *)
Lemma update_first_perm id f rs r :
  NoDup (r_id <$> rs) → find_first id rs = Some r →
  update_first id f rs ≡ₚ f r :: filter (λ x, r_id x ≠ id) rs.
Proof.
  induction rs as [|r' rs IH]; simpl; intros Hd Hf; [done|].
  apply NoDup_cons in Hd as [Hn Hd]. case_bool_decide as E; simplify_eq.
  - rewrite filter_cons_False by naive_solver. by rewrite filter_other_ids.
  - rewrite IH by done. rewrite filter_cons_True by done. apply Permutation_swap.
Qed.

Lemma find_first_perm id rs r :
  NoDup (r_id <$> rs) → find_first id rs = Some r →
  rs ≡ₚ r :: filter (λ x, r_id x ≠ id) rs.
Proof.
  intros Hd Hf. rewrite <- (update_first_perm id (λ x, x) rs r Hd Hf).
  clear. induction rs as [|x rs IH]; simpl; [done|]. case_bool_decide; [done|]. by constructor.
Qed.

(** ** Well-formed ledgers

    What [ledger_schema.validate_ledger_document] guarantees of a document it
    accepts, on the decoded values. *)

Definition MAX_EDIT_OPERATIONS_PER_RESERVATION : Z := 256.
Definition MAX_NOTIFICATIONS_PER_RESERVATION : Z := 128.

Record reservation_ok (r : reservation) : Prop := ReservationOk {
  ro_gpus : NoDup (r_gpus r);
  ro_gpus_nonempty : r_gpus r ≠ [];
  ro_interval : r_start_at r < r_end_at r;
  ro_mode : r_mode r = MODE_SHARED ∨ r_mode r = MODE_EXCLUSIVE;
  ro_status : r_status r = STATUS_ACTIVE ∨ r_status r = STATUS_CANCELLED
              ∨ r_status r = STATUS_EXPIRED;
  ro_memory : ∀ m, r_expected_memory_mb r = Some m → 1 ≤ m;
  ro_history : Z.of_nat (length (default [] (r_edit_operations r)))
               ≤ MAX_EDIT_OPERATIONS_PER_RESERVATION;
  ro_notifications : Z.of_nat (length (default [] (r_notifications r)))
               ≤ MAX_NOTIFICATIONS_PER_RESERVATION;
}.

Record ledger_ok (l : ledger) : Prop := LedgerOk {
  lo_ids : NoDup (ids l);
  lo_reservations : ∀ r, r ∈ l_reservations l → reservation_ok r;
}.
