(* ===== verification/Sharing.v ===== *)
(** * Sharing: share slots of a shared reservation ([src/src/bk/sharing.py]) *)

From S2P Require Import Prelude PyBase Granularity Models.

Definition DEFAULT_SHARE_UNITS : Z := 1.

(** A [bool] is rejected although Python makes it an [int]. *)
Definition _whole_number (value : json) (label : string) : res Z :=
  let bad := Raise (ValueError (label +:+ " must be a whole number")) in
  match value with
  | JInt z => Ok z
  | JStr s => match parse_whole (strip s) with Some z => Ok z | None => bad end
  | _ => bad
  end.

(** [None] is JSON null here and in the callers. *)
Definition normalize_share_units (value : json) (capacity_units : Z) : res Z :=
  units ← match value with
          | JNull => Ok DEFAULT_SHARE_UNITS
          | v => _whole_number v "share slots"
          end;
  if (units <? 1) || (capacity_units <? units)
  then Raise (ValueError ("share slots must be between 1 and " +:+ str_of_Z capacity_units))
  else Ok units.

Definition parse_share_units (value : json) (capacity_units : Z) : res Z :=
  match _whole_number value "share slots" with
  | Ok units => normalize_share_units (JInt units) capacity_units
  | Raise _ => Raise (ValueError ("share slots must be a whole number between 1 and "
                                  +:+ str_of_Z capacity_units))
  end.

(** [raw] is the stored field, [None] when the key is absent. *)
Definition reservation_share_units (raw : option json) (capacity_units : Z) : Z :=
  match _whole_number (default (JInt DEFAULT_SHARE_UNITS) raw) "share slots" with
  | Ok units => if units <? 1 then Z.max 1 capacity_units else units
  | Raise _ => Z.max 1 capacity_units
  end.

Definition share_text (units capacity_units : Z) : string :=
  str_of_Z units +:+ " " +:+ (if units =? 1 then "slot" else "slots")
  +:+ " (max " +:+ str_of_Z capacity_units +:+ ")".

Definition share_example (capacity_units : Z) : string :=
  if capacity_units <=? 1 then "1" else str_of_Z (capacity_units - 1).

Definition inferred_share_memory_mb (usable_memory_mb capacity_units share_units : Z) : Z :=
  Z.max 1 (usable_memory_mb * share_units / Z.max 1 capacity_units).

(** ** Lemmas *)

Lemma reservation_share_units_pos raw cap : 1 ≤ reservation_share_units raw cap.
Proof.
  unfold reservation_share_units. destruct (_whole_number _ _); [|lia].
  destruct (Z.ltb_spec a 1); lia.
Qed.

Lemma reservation_share_units_int n cap :
  1 ≤ n → reservation_share_units (Some (JInt n)) cap = n.
Proof. intros. unfold reservation_share_units; simpl. destruct (Z.ltb_spec n 1); lia. Qed.

Lemma normalize_share_units_Ok value cap n :
  normalize_share_units value cap = Ok n → 1 ≤ n ≤ cap.
Proof.
  unfold normalize_share_units. intros H. inv_M.
  destruct (_ || _) eqn:E; simplify_eq. bk_split. lia.
Qed.

Lemma normalize_share_units_int n cap :
  normalize_share_units (JInt n) cap = Ok n ↔ 1 ≤ n ≤ cap.
Proof.
  unfold normalize_share_units; simpl.
  destruct (Z.ltb_spec n 1), (Z.ltb_spec cap n); simpl; split; (done || lia).
Qed.

Lemma inferred_share_memory_pos u c s : 1 ≤ inferred_share_memory_mb u c s.
Proof. unfold inferred_share_memory_mb. lia. Qed.

#[export] Hint Resolve reservation_share_units_pos inferred_share_memory_pos : bk.

(** Reading the share of a stored record and normalising a request agree:
    a share the normaliser accepts is read back from the record as the same
    number, and a record whose share is malformed or below one always counts as
    the whole GPU, so it can never be undercounted. *)
Theorem share_units_roundtrip value cap :
  match normalize_share_units value cap with
  | Ok n => 1 ≤ n ≤ cap ∧ reservation_share_units (Some (JInt n)) cap = n
  | Raise _ =>
      value ≠ JNull → 1 ≤ cap →
      cap ≤ reservation_share_units (Some value) cap
  end.
Proof.
  destruct (normalize_share_units value cap) as [n|e] eqn:E.
  - apply normalize_share_units_Ok in E. split; [done|].
    by rewrite reservation_share_units_int by lia.
  - intros Hn Hc. unfold normalize_share_units, reservation_share_units in *. simpl.
    destruct value; try done; simpl in *; try lia.
    + destruct (Z.ltb_spec z 1); [lia|]. destruct (Z.ltb_spec cap z); [lia|done].
    + destruct (parse_whole (strip s)) as [z|]; simpl in *; [|lia].
      destruct (Z.ltb_spec z 1); [lia|]. destruct (Z.ltb_spec cap z); [lia|done].
Qed.
