(* ===== verification/Config.v ===== *)
(** * Config: the scheduling part of the configuration ([src/src/bk/config.py])

    The fields the scheduler, the policy and the store read, and the checks of
    [Config.__post_init__] on them. [booking_blackouts] holds the instants of
    the canonical timestamps that [validate_booking_blackouts] stores. *)

From S2P Require Import Prelude PyBase Granularity Timeparse.

Definition MAX_GPU_COUNT : Z := 1024.
Definition MAX_UID : Z := 2 ^ 32 - 2.
Definition MAX_BOOKING_HORIZON_DAYS : Z := 10 * 365.
Definition MAX_BOOKING_DURATION_HOURS : Z := 10 * 365 * 24.
Definition MAX_BOOKING_BLACKOUTS : Z := 512.
Definition MAX_BLACKOUT_REASON_LENGTH : Z := 512.
Definition MAX_ANNOUNCEMENT_HISTORY : Z := 4096.
Definition MAX_GPU_PRIORITY : Z := 1000000.

Record blackout := Blackout { bo_start : datetime; bo_end : datetime; bo_reason : string }.

Record config := Config {
  gpu_count : Z;
  max_shared_users : Z;
  queue_search_hours : Z;
  booking_horizon_days : Z;
  max_booking_duration_hours : Z;
  booking_blackouts : list blackout;
  ledger_retention_days : Z;
  require_shared_memory : bool;
  shared_memory_reserve_mb : Z;
  file_mode : Z;
  dir_mode : Z;
  slot_minutes : Z;
  storage_gid : option Z;
  disabled_gpus : list Z;
  gpu_priority : list (Z * Z);
  backup_keep : Z;
  worker_max_parallel : Z;
}.

(** ** Derived values *)

(** [tuple(gpu for gpu in range(gpu_count) if gpu not in disabled)] *)
Definition enabled_gpus (c : config) : list Z :=
  filter (λ g, g ∉ disabled_gpus c) (seqZ 0 (gpu_count c)).

(** [dict(self.gpu_priority)]: the last pair of a GPU wins. *)
Definition gpu_priority_map (c : config) : gmap Z Z :=
  foldl (λ m '(g, p), <[g := p]> m) ∅ (gpu_priority c).

Definition effective_worker_max_parallel (c : config) : Z :=
  let scheduling_capacity := Z.of_nat (length (enabled_gpus c)) * max_shared_users c in
  Z.max 1 (Z.min (worker_max_parallel c) scheduling_capacity).

(** ** Validation *)

(** The integer path of [validate_gpu_list]: range, duplicates, sorted. *)
Fixpoint gpu_list_loop (count : Z) (key : string) (seen : list Z) (l : list Z) : res (list Z) :=
  match l with
  | [] => Ok (reverse seen)
  | gpu :: l' =>
      if (gpu <? 0) || (count <=? gpu)
      then Raise (ValueError (key +:+ " GPU index out of range: " +:+ str_of_Z gpu))
      else if bool_decide (gpu ∈ seen)
      then Raise (ValueError (key +:+ " contains duplicate GPU index: " +:+ str_of_Z gpu))
      else gpu_list_loop count key (gpu :: seen) l'
  end.

Definition validate_gpu_list (value : list Z) (count : Z) (key : string) : res (list Z) :=
  result ← gpu_list_loop count key [] value; Ok (sort_by Z.leb result).

(** The pair path of [validate_gpu_priority]; a zero priority is dropped. *)
Fixpoint gpu_priority_loop (count : Z) (seen : list Z) (acc : list (Z * Z))
    (l : list (Z * Z)) : res (list (Z * Z)) :=
  match l with
  | [] => Ok (reverse acc)
  | (gpu, priority) :: l' =>
      if (gpu <? 0) || (count <=? gpu)
      then Raise (ValueError ("gpu_priority GPU index out of range: " +:+ str_of_Z gpu))
      else if (priority <? 0) || (MAX_GPU_PRIORITY <? priority)
      then Raise (ValueError ("GPU priority must be between 0 and "
                              +:+ str_of_Z MAX_GPU_PRIORITY))
      else if bool_decide (gpu ∈ seen)
      then Raise (ValueError ("gpu_priority contains duplicate GPU index: " +:+ str_of_Z gpu))
      else gpu_priority_loop count (gpu :: seen)
             (if priority =? 0 then acc else (gpu, priority) :: acc) l'
  end.

Definition pair_leb (a b : Z * Z) : bool :=
  (a.1 <? b.1) || ((a.1 =? b.1) && (a.2 <=? b.2)).

Definition validate_gpu_priority (value : list (Z * Z)) (count : Z) : res (list (Z * Z)) :=
  result ← gpu_priority_loop count [] [] value; Ok (sort_by pair_leb result).

(** One window of [validate_booking_blackouts], after its timestamps are read. *)
Definition validate_blackout (b : blackout) : res blackout :=
  let start := replace_microsecond_0 (bo_start b) in
  let end_ := replace_microsecond_0 (bo_end b) in
  if end_ <=? start
  then Raise (ValueError "booking_blackouts end_at must be after start_at")
  else
    let reason := strip (bo_reason b) in
    if (slen reason =? 0) || (MAX_BLACKOUT_REASON_LENGTH <? slen reason)
    then Raise (ValueError "booking_blackouts reason must contain 1-512 characters")
    else if existsb is_control (chars reason)
    then Raise (ValueError "booking_blackouts reason contains control characters")
    else Ok (Blackout start end_ reason).

(** Sorted by start, end and reason; the canonical text sorts as the instant. *)
Definition blackout_leb (a b : blackout) : bool :=
  (bo_start a <? bo_start b)
  || ((bo_start a =? bo_start b)
      && ((bo_end a <? bo_end b)
          || ((bo_end a =? bo_end b) && String.leb (bo_reason a) (bo_reason b)))).

Fixpoint map_res {A B} (f : A → res B) (l : list A) : res (list B) :=
  match l with
  | [] => Ok []
  | a :: l' => b ← f a; bs ← map_res f l'; Ok (b :: bs)
  end.

Definition validate_booking_blackouts (value : list blackout) : res (list blackout) :=
  if MAX_BOOKING_BLACKOUTS <? Z.of_nat (length value)
  then Raise (ValueError "booking_blackouts must contain at most 512 windows")
  else result ← map_res validate_blackout value; Ok (sort_by blackout_leb result).

(** [stat.S_ISGID] *)
Definition S_ISGID : Z := 1024.

(** [Config.__post_init__] on the modelled fields. *)
Definition post_init (c : config) : res config :=
  if (booking_horizon_days c <? 1) || (MAX_BOOKING_HORIZON_DAYS <? booking_horizon_days c)
  then Raise (ValueError ("booking_horizon_days must be between 1 and "
                          +:+ str_of_Z MAX_BOOKING_HORIZON_DAYS))
  else if negb ((1 <=? max_booking_duration_hours c)
                && (max_booking_duration_hours c <=? MAX_BOOKING_DURATION_HOURS))
  then Raise (ValueError ("max_booking_duration_hours must be between 1 and "
                          +:+ str_of_Z MAX_BOOKING_DURATION_HOURS))
  else
    slot ← validate_slot_minutes (JInt (slot_minutes c));
    disabled ← validate_gpu_list (disabled_gpus c) (gpu_count c) "disabled_gpus";
    priority ← validate_gpu_priority (gpu_priority c) (gpu_count c);
    blackouts ← validate_booking_blackouts (booking_blackouts c);
    if bool_decide (is_Some (storage_gid c)) && (Z.land (dir_mode c) S_ISGID =? 0)
    then Raise (ValueError "storage_gid requires a setgid dir_mode such as 2770")
    else Ok (Config (gpu_count c) (max_shared_users c) (queue_search_hours c)
               (booking_horizon_days c) (max_booking_duration_hours c) blackouts
               (ledger_retention_days c) (require_shared_memory c)
               (shared_memory_reserve_mb c) (file_mode c) (dir_mode c) slot
               (storage_gid c) disabled priority (backup_keep c) (worker_max_parallel c)).

(** ** What a constructed configuration satisfies *)

Record valid_config (c : config) : Prop := ValidConfig {
  vc_slot : valid_slot (slot_minutes c);
  vc_horizon : 1 ≤ booking_horizon_days c ≤ MAX_BOOKING_HORIZON_DAYS;
  vc_duration : 1 ≤ max_booking_duration_hours c ≤ MAX_BOOKING_DURATION_HOURS;
  vc_disabled : NoDup (disabled_gpus c);
  vc_disabled_range : ∀ g, g ∈ disabled_gpus c → 0 ≤ g < gpu_count c;
  vc_blackouts : ∀ b, b ∈ booking_blackouts c → bo_start b < bo_end b;
}.

Lemma elem_of_enabled_gpus c g :
  g ∈ enabled_gpus c ↔ 0 ≤ g < gpu_count c ∧ g ∉ disabled_gpus c.
Proof. unfold enabled_gpus. rewrite list_elem_of_filter, elem_of_seqZ. naive_solver lia. Qed.

Lemma NoDup_enabled_gpus c : NoDup (enabled_gpus c).
Proof. apply NoDup_filter, NoDup_seqZ. Qed.

#[export] Hint Resolve NoDup_enabled_gpus : bk.

Lemma gpu_list_loop_Ok count key seen l r :
  NoDup seen → (∀ g, g ∈ seen → 0 ≤ g < count) → gpu_list_loop count key seen l = Ok r →
  r ≡ₚ seen ++ l ∧ NoDup r ∧ (∀ g, g ∈ r → 0 ≤ g < count).
Proof.
  revert seen. induction l as [|g l IH]; simpl; intros seen Hd Hr E.
  - simplify_eq. rewrite app_nil_r. split; [apply reverse_Permutation|].
    setoid_rewrite (reverse_Permutation seen). done.
  - destruct (_ || _) eqn:Hb; [done|]. case_bool_decide; [done|]. bk_split.
    apply IH in E as (Hp & ? & ?); [|by constructor|set_solver by lia].
    split; [|done]. by rewrite Hp, <- Permutation_middle.
Qed.

Lemma validate_blackout_Ok b b' : validate_blackout b = Ok b' → bo_start b' < bo_end b'.
Proof.
  unfold validate_blackout. destruct (Z.leb_spec (replace_microsecond_0 (bo_end b))
    (replace_microsecond_0 (bo_start b))); [done|].
  repeat case_match; intros; simplify_eq. done.
Qed.

Lemma map_res_Ok {A B} (f : A → res B) l bs :
  map_res f l = Ok bs ↔ Forall2 (λ a b, f a = Ok b) l bs.
Proof.
  revert bs. induction l as [|a l IH]; simpl; intros bs.
  - split; [intros ?; simplify_eq; constructor|by inversion 1].
  - rewrite res_bind_Ok. setoid_rewrite res_bind_Ok. split.
    + intros (b & Ha & bs' & Hl & ?). simplify_eq. constructor; [done|]. by apply IH.
    + inversion 1; subst. eexists. split; [done|]. eexists. split; [by apply IH|done].
Qed.

(** A configuration that [Config.__post_init__] accepts satisfies every
    assumption the scheduler makes on it: a slot that divides the hour, bounded
    horizon and duration, in-range distinct disabled GPUs and non-empty
    blackout windows; and it keeps the GPUs that were disabled. *)
Theorem post_init_valid c c' :
  post_init c = Ok c' →
  valid_config c' ∧ disabled_gpus c' ≡ₚ disabled_gpus c ∧ gpu_count c' = gpu_count c.
Proof.
  unfold post_init. destruct (_ || _) eqn:Hh; [done|]. destruct (negb _) eqn:Hd; [done|].
  rewrite res_bind_Ok. intros (slot & Hslot & H). rewrite res_bind_Ok in H.
  destruct H as (dis & Hdis & H). inv_M. case_match; simplify_eq. bk_split.
  unfold validate_gpu_list in Hdis. apply res_bind_Ok in Hdis as (r & Hr & ?). simplify_eq.
  apply gpu_list_loop_Ok in Hr as (Hp & Hnd & Hrange); [|constructor|by intros g ?%not_elem_of_nil].
  apply validate_slot_minutes_Ok in Hslot as [-> Hs]. simpl in Hp.
  split; [constructor; simpl|]; try done; try lia.
  - by apply NoDup_sort_by.
  - intros g. rewrite elem_of_sort_by. apply Hrange.
  - unfold validate_booking_blackouts in *. repeat case_match; simplify_eq.
    inv_M. simplify_eq. intros b Hb. rewrite elem_of_sort_by in Hb.
    match goal with E : map_res _ _ = _ |- _ => apply map_res_Ok in E; rename E into Hm end.
    apply list_elem_of_lookup in Hb as [i Hi].
    destruct (Forall2_lookup_r _ _ _ _ _ Hm Hi) as (b0 & _ & Hb0).
    by eapply validate_blackout_Ok.
  - simpl. split; [|done]. by rewrite sort_by_perm.
Qed.

(** A small configuration for the examples of the development: two GPUs, two
    share slots each, 15-minute slots. *)
Definition example_config : config :=
  Config 2 2 168 30 720 [] 90 false 512 384 448 15 None [] [] 10 64.

Lemma post_init_valid_witness :
  ∃ c', post_init example_config = Ok c' ∧ valid_config c' ∧
    disabled_gpus c' ≡ₚ disabled_gpus example_config ∧
    gpu_count c' = gpu_count example_config.
Proof.
  assert (H : post_init example_config = Ok example_config) by (vm_compute; reflexivity).
  exists example_config. split; [exact H|]. exact (post_init_valid _ _ H).
Defined.

Lemma example_config_valid : valid_config example_config.
Proof.
  constructor; simpl; try lia; try by intros ? ?%not_elem_of_nil.
  - decide_now.
  - vm_compute. split; discriminate.
  - vm_compute. split; discriminate.
  - constructor.
Qed.
