(* ===== verification/Policy.v ===== *)
(** * Policy: the scheduling policy bound to a ledger ([src/src/bk/policy.py])

    The first write stores the configuration's policy in the ledger; later
    writes and daemon reads refuse a configuration that disagrees with it. The
    values' [repr] in the mismatch message is left out: the message names the
    keys that differ. *)

From S2P Require Import Prelude PyBase Granularity Timeparse Models Config.
From Stdlib Require Import SpecFloat.

Definition LEDGER_POLICY_VERSION : Z := 1.
Definition STORAGE_GID_POLICY_KEY : string := "storage_gid".

(** Octal digits, most significant first. [fuel] bounds the number of digits:
    22 covers every 64-bit mode. *)
Fixpoint octal_digits (fuel : nat) (n : Z) (acc : list ascii) : list ascii :=
  match fuel with
  | O => acc
  | S fuel' =>
      if n <? 8 then digit_char n :: acc
      else octal_digits fuel' (n / 8) (digit_char (n mod 8) :: acc)
  end.

(** [f"{mode:04o}"] *)
Definition octal4 (n : Z) : string :=
  let ds := octal_digits 22 n [] in
  text (replicate (4 - length ds) "0"%char ++ ds).

(** Python's [==] between a stored JSON value and a scalar: [True], [1] and
    [1.0] are equal. *)
Definition number_of (v : json) : option (Z * Z) :=
  match v with
  | JBool b => Some (if b then 1 else 0, 0)
  | JInt z => Some (z, 0)
  | JFloat (S754_zero _) => Some (0, 0)
  | JFloat (S754_finite s m e) => Some (if s then Zneg m else Zpos m, e)
  | _ => None
  end.

Definition scalar_eq (current expected : json) : bool :=
  match current, expected with
  | JStr a, JStr b => bool_decide (a = b)
  | JNull, JNull => true
  | _, _ =>
      match number_of current, number_of expected with
      | Some (m1, e1), Some (m2, e2) =>
          m1 * 2 ^ (Z.max 0 (e1 - e2)) =? m2 * 2 ^ (Z.max 0 (e2 - e1))
      | _, _ => false
      end
  end.

Definition config_slot_seconds (c : config) : Z := slot_minutes c * 60.

(** The eight keys every policy has. *)
Definition policy_core (c : config) : list (string * json) :=
  [("version", JInt LEDGER_POLICY_VERSION);
   ("gpu_count", JInt (gpu_count c));
   ("max_shared_reservations_per_gpu", JInt (max_shared_users c));
   ("granularity_seconds", JInt (config_slot_seconds c));
   ("require_shared_memory", JBool (require_shared_memory c));
   ("shared_memory_reserve_mb", JInt (shared_memory_reserve_mb c));
   ("file_mode", JStr (octal4 (file_mode c)));
   ("dir_mode", JStr (octal4 (dir_mode c)))].

Definition policy_for_config (c : config) : list (string * json) :=
  policy_core c ++
  match storage_gid c with
  | Some g => [(STORAGE_GID_POLICY_KEY, JInt g)]
  | None => []
  end.

Definition gid_json (g : option Z) : json :=
  match g with Some z => JInt z | None => JNull end.

(** Keys on which the stored policy and the configuration differ. *)
Definition policy_mismatches (current : list (string * json)) (c : config) : list string :=
  (fst <$> filter (λ kv, kv.1 ≠ STORAGE_GID_POLICY_KEY
                         ∧ scalar_eq (dict_get kv.1 current) kv.2 = false)
             (policy_for_config c))
  ++ match assoc_get STORAGE_GID_POLICY_KEY current with
     | Some v => if scalar_eq v (gid_json (storage_gid c)) then [] else [STORAGE_GID_POLICY_KEY]
     | None => []
     end.

Definition validate_ledger_policy (l : ledger) (c : config) : res unit :=
  match l_policy l with
  | None | Some JNull => Ok tt
  | Some (JObj current) =>
      match policy_mismatches current c with
      | [] => Ok tt
      | keys => Raise (BookingError ("local configuration does not match ledger policy: "
                                     +:+ join "; " keys))
      end
  | Some _ => Raise (BookingError "ledger policy must be a JSON object")
  end.

Definition bind_ledger_policy (l : ledger) (c : config) : res (ledger * bool) :=
  match l_policy l with
  | None | Some JNull => Ok (set_policy (JObj (policy_for_config c)) l, true)
  | Some p =>
      _ ← validate_ledger_policy l c;
      match p, storage_gid c with
      | JObj current, Some g =>
          match assoc_get STORAGE_GID_POLICY_KEY current with
          | None => Ok (set_policy (JObj (current ++ [(STORAGE_GID_POLICY_KEY, JInt g)])) l, true)
          | Some _ => Ok (l, false)
          end
      | _, _ => Ok (l, false)
      end
  end.

(** ** The daemon guard: [PolicyGuardedLedgerStore._validate] *)

Definition is_bound (l : ledger) : bool :=
  match l_policy l with None | Some JNull => false | _ => true end.

Definition validate_daemon_ledger_policy (l : ledger) (c : config) (daemon : string) : res unit :=
  match validate_ledger_policy l c with
  | Raise (BookingError msg) =>
      Raise (BookingError (daemon +:+ " configuration does not match the ledger; "
               +:+ "stop the daemon and align its trusted configuration: " +:+ msg))
  | r => r
  end.

(** The state is [_saw_bound_policy]; the result is its next value. *)
Definition guard_validate (c : config) (daemon : string) (saw : bool) (l : ledger) : res bool :=
  if negb (is_bound l) && saw
  then Raise (BookingError (daemon +:+ " cannot continue because the ledger policy was removed; "
                +:+ "restart it after the reset or restore completes"))
  else
    _ ← validate_daemon_ledger_policy l c daemon;
    Ok (saw || is_bound l).

Definition ledger_storage_modes (l : ledger) : res (option (string * string)) :=
  match l_policy l with
  | None | Some JNull => Ok None
  | Some (JObj current) =>
      match dict_get "file_mode" current, dict_get "dir_mode" current with
      | JStr f, JStr d => Ok (Some (f, d))
      | _, _ => Raise (BookingError "ledger policy storage modes are invalid")
      end
  | Some _ => Raise (BookingError "ledger policy must be a JSON object")
  end.

(** ** Lemmas *)

Lemma scalar_eq_int z z' : scalar_eq (JInt z) (JInt z') = true ↔ z = z'.
Proof. simpl. rewrite !Z.mul_1_r. apply Z.eqb_eq. Qed.

Lemma scalar_eq_refl v : (∀ f, v ≠ JFloat f) → (∀ l, v ≠ JList l) → (∀ o, v ≠ JObj o) →
  scalar_eq v v = true.
Proof.
  intros Hf Hl Ho. destruct v; simpl; try done; rewrite ?Z.eqb_refl; try done.
  - naive_solver.
  - by rewrite bool_decide_eq_true_2.
  - naive_solver.
  - naive_solver.
Qed.

(** Nothing mismatches exactly when every core key agrees and a stored group,
    if any, is the configured one. *)
Lemma policy_mismatches_nil current c :
  policy_mismatches current c = [] ↔
  (∀ k v, (k, v) ∈ policy_core c → scalar_eq (dict_get k current) v = true) ∧
  (∀ v, assoc_get STORAGE_GID_POLICY_KEY current = Some v →
        scalar_eq v (gid_json (storage_gid c)) = true).
Proof.
  unfold policy_mismatches. rewrite app_nil, fmap_nil_iff. split.
  - intros [Hc Hg]. split.
    + intros k v Hkv. destruct (scalar_eq (dict_get k current) v) eqn:E; [done|exfalso].
      assert (Hin : (k, v) ∈ filter (λ kv, kv.1 ≠ STORAGE_GID_POLICY_KEY
        ∧ scalar_eq (dict_get kv.1 current) kv.2 = false) (policy_for_config c)).
      { apply list_elem_of_filter. split.
        - split; [|done]. simpl. unfold policy_core in Hkv.
          repeat (apply elem_of_cons in Hkv as [Hkv|Hkv]; [by simplify_eq|]).
          by apply not_elem_of_nil in Hkv.
        - apply elem_of_app. by left. }
      rewrite Hc in Hin. by apply not_elem_of_nil in Hin.
    + intros v Hv. rewrite Hv in Hg. by destruct (scalar_eq v _).
  - intros [Hc Hg]. split.
    + apply filter_nil_iff. intros [k v] Hin [Hk Hne]; simpl in *.
      apply elem_of_app in Hin as [Hin|Hin]; [by rewrite (Hc k v Hin) in Hne|].
      destruct (storage_gid c); [|by apply not_elem_of_nil in Hin].
      apply list_elem_of_singleton in Hin. by simplify_eq.
    + destruct (assoc_get _ current) as [v|]; [|done]. by rewrite (Hg v eq_refl).
Qed.

Lemma assoc_get_app {A} k (l1 l2 : list (string * A)) :
  assoc_get k (l1 ++ l2) = match assoc_get k l1 with Some v => Some v | None => assoc_get k l2 end.
Proof.
  induction l1 as [|[k' v] l1 IH]; simpl; [done|]. by case_bool_decide.
Qed.

Lemma assoc_get_core_gid c : assoc_get STORAGE_GID_POLICY_KEY (policy_core c) = None.
Proof. reflexivity. Qed.

Lemma assoc_get_policy_gid c :
  assoc_get STORAGE_GID_POLICY_KEY (policy_for_config c) = JInt <$> storage_gid c.
Proof.
  unfold policy_for_config. rewrite assoc_get_app, assoc_get_core_gid.
  by destruct (storage_gid c).
Qed.

Lemma policy_core_get c k v extra :
  (k, v) ∈ policy_core c → dict_get k (policy_core c ++ extra) = v.
Proof.
  intros Hkv. unfold policy_core in Hkv.
  repeat (apply elem_of_cons in Hkv as [Hkv|Hkv]; [by simplify_eq|]).
  by apply not_elem_of_nil in Hkv.
Qed.

Lemma policy_core_scalar c k v : (k, v) ∈ policy_core c → scalar_eq v v = true.
Proof.
  intros Hkv. unfold policy_core in Hkv.
  repeat (apply elem_of_cons in Hkv as [Hkv|Hkv]; [simplify_eq; by apply scalar_eq_refl|]).
  by apply not_elem_of_nil in Hkv.
Qed.

Lemma gid_json_scalar g : scalar_eq (gid_json g) (gid_json g) = true.
Proof. destruct g; [|done]. by apply scalar_eq_int. Qed.

Lemma validate_own_policy c l :
  validate_ledger_policy (set_policy (JObj (policy_for_config c)) l) c = Ok tt.
Proof.
  unfold validate_ledger_policy; simpl.
  assert (policy_mismatches (policy_for_config c) c = []) as ->; [|done].
  apply policy_mismatches_nil. split.
  - intros k v Hkv. unfold policy_for_config. rewrite (policy_core_get c k v _ Hkv).
    by eapply policy_core_scalar.
  - intros v. rewrite assoc_get_policy_gid. destruct (storage_gid c); simpl; [|done].
    intros; simplify_eq. by apply scalar_eq_int.
Qed.

Lemma dict_get_app_other k current k' v :
  k ≠ k' → dict_get k (current ++ [(k', v)]) = dict_get k current.
Proof.
  intros Hne. unfold dict_get. rewrite assoc_get_app. destruct (assoc_get k current); [done|].
  simpl. by rewrite bool_decide_eq_false_2.
Qed.

(** Adding the group to a policy that agrees keeps it in agreement. *)
Lemma policy_mismatches_add_gid current c g :
  policy_mismatches current c = [] → storage_gid c = Some g →
  assoc_get STORAGE_GID_POLICY_KEY current = None →
  policy_mismatches (current ++ [(STORAGE_GID_POLICY_KEY, JInt g)]) c = [].
Proof.
  rewrite !policy_mismatches_nil. intros [Hc _] Hg Hno. split.
  - intros k v Hkv. rewrite dict_get_app_other; [by apply Hc|].
    intros ->. unfold policy_core in Hkv.
    repeat (apply elem_of_cons in Hkv as [Hkv|Hkv]; [by simplify_eq|]).
    by apply not_elem_of_nil in Hkv.
  - intros v. rewrite assoc_get_app, Hno. simpl. intros; simplify_eq.
    rewrite Hg. by apply scalar_eq_int.
Qed.

Lemma bind_ledger_policy_reservations l c l' b :
  bind_ledger_policy l c = Ok (l', b) →
  l_reservations l' = l_reservations l ∧ l_announcements l' = l_announcements l.
Proof.
  unfold bind_ledger_policy. intros H.
  destruct (l_policy l) as [[]|]; inv_M; repeat case_match; by simplify_eq.
Qed.

Lemma bind_own_policy l c :
  bind_ledger_policy (set_policy (JObj (policy_for_config c)) l) c
  = Ok (set_policy (JObj (policy_for_config c)) l, false).
Proof.
  unfold bind_ledger_policy. cbn [l_policy set_policy]. rewrite validate_own_policy.
  cbn [mbind res_bind]. rewrite assoc_get_policy_gid. by destruct (storage_gid c).
Qed.

(** A first binding stores exactly the configuration's policy. *)
Lemma bind_unbound l c l' b :
  is_bound l = false → bind_ledger_policy l c = Ok (l', b) →
  l' = set_policy (JObj (policy_for_config c)) l.
Proof.
  unfold is_bound, bind_ledger_policy.
  destruct (l_policy l) as [[]|]; intros; by simplify_eq.
Qed.

(** A later binding leaves a ledger that agrees and needs no further binding. *)
Lemma bind_bound l c l' b :
  is_bound l = true → bind_ledger_policy l c = Ok (l', b) →
  validate_ledger_policy l' c = Ok tt ∧ bind_ledger_policy l' c = Ok (l', false).
Proof.
  unfold is_bound. intros Hb H. unfold bind_ledger_policy in H.
  destruct (l_policy l) as [p|] eqn:Hp; [|done].
  assert (Hv : validate_ledger_policy l c = Ok tt).
  { destruct p; try done; by apply res_bind_Ok in H as ([] & Hv & _). }
  rewrite Hv in H. unfold validate_ledger_policy in Hv. rewrite Hp in Hv.
  destruct p as [| | | | | |current]; try done.
  destruct (policy_mismatches current c) eqn:Hm; [|done]. cbn [mbind res_bind] in H.
  destruct (storage_gid c) as [g|] eqn:Hg; [destruct (assoc_get _ current) as [v|] eqn:Ha|];
    simplify_eq; unfold bind_ledger_policy, validate_ledger_policy; simpl; rewrite ?Hp.
  - by rewrite Hm, Hg, Ha.
  - rewrite (policy_mismatches_add_gid _ _ _ Hm Hg Ha), Hg, assoc_get_app, Ha. done.
  - by rewrite Hm, Hg.
Qed.

(** After a binding, any ledger with the same policy needs none. *)
Lemma bind_stable l c lb b l2 :
  bind_ledger_policy l c = Ok (lb, b) → l_policy l2 = l_policy lb →
  validate_ledger_policy l2 c = Ok tt ∧ bind_ledger_policy l2 c = Ok (l2, false).
Proof.
  intros Hb Hp.
  assert (H : validate_ledger_policy lb c = Ok tt ∧ bind_ledger_policy lb c = Ok (lb, false)).
  { destruct (is_bound l) eqn:E; [by eapply bind_bound|].
    rewrite (bind_unbound _ _ _ _ E Hb). split; [by rewrite validate_own_policy|].
    apply bind_own_policy. }
  destruct H as [Hv Hs]. unfold validate_ledger_policy, bind_ledger_policy in *. rewrite Hp.
  destruct (l_policy lb) as [p|]; [|by simplify_eq].
  split; [done|]. destruct p; try done; apply res_bind_Ok in Hs as ([] & Hv' & Hs);
    unfold validate_ledger_policy in *; rewrite Hp; simpl in *; try done.
  destruct (policy_mismatches _ _); [|done]. simpl in *.
  repeat case_match; by simplify_eq.
Qed.

(** Two configurations accepted by the same stored policy agree on its keys. *)
Lemma policy_agree l c1 c2 :
  validate_ledger_policy (set_policy (JObj (policy_for_config c1)) l) c2 = Ok tt →
  gpu_count c2 = gpu_count c1 ∧ max_shared_users c2 = max_shared_users c1 ∧
  slot_minutes c2 = slot_minutes c1 ∧
  shared_memory_reserve_mb c2 = shared_memory_reserve_mb c1 ∧
  require_shared_memory c2 = require_shared_memory c1 ∧
  octal4 (file_mode c2) = octal4 (file_mode c1) ∧
  octal4 (dir_mode c2) = octal4 (dir_mode c1).
Proof.
  unfold validate_ledger_policy; cbn [l_policy set_policy].
  destruct (policy_mismatches _ c2) eqn:Hm; [intros _|done].
  apply policy_mismatches_nil in Hm as [Hc _].
  assert (Hget : ∀ k v1 v2, (k, v2) ∈ policy_core c2 → (k, v1) ∈ policy_core c1 →
                 scalar_eq v1 v2 = true).
  { intros k v1 v2 H2 H1. specialize (Hc k v2 H2). unfold policy_for_config in Hc.
    by rewrite (policy_core_get c1 k v1 _ H1) in Hc. }
  clear Hc. unfold policy_core in Hget.
  assert (Hi : ∀ k z1 z2, (k, JInt z2) ∈ policy_core c2 → (k, JInt z1) ∈ policy_core c1 → z2 = z1).
  { intros k z1 z2 H2 H1. symmetry. apply scalar_eq_int. by apply (Hget k). }
  assert (Hs : ∀ k z1 z2, (k, JStr z2) ∈ policy_core c2 → (k, JStr z1) ∈ policy_core c1 → z2 = z1).
  { intros k z1 z2 H2 H1. pose proof (Hget k _ _ H2 H1) as E. simpl in E. by bk_split. }
  split; [apply (Hi "gpu_count"); in_list|].
  split; [apply (Hi "max_shared_reservations_per_gpu"); in_list|].
  split; [assert (config_slot_seconds c2 = config_slot_seconds c1)
            by (apply (Hi "granularity_seconds"); in_list);
          unfold config_slot_seconds in *; lia|].
  split; [apply (Hi "shared_memory_reserve_mb"); in_list|].
  split; [|split].
  2: refine (Hs "file_mode" (octal4 (file_mode c1)) (octal4 (file_mode c2)) _ _);
     unfold policy_core; do 6 right; left.
  2: refine (Hs "dir_mode" (octal4 (dir_mode c1)) (octal4 (dir_mode c2)) _ _);
     unfold policy_core; do 7 right; left.
  assert (E : scalar_eq (JBool (require_shared_memory c1)) (JBool (require_shared_memory c2)) = true)
    by (apply (Hget "require_shared_memory"); in_list).
  by destruct (require_shared_memory c1), (require_shared_memory c2).
Qed.

(** Binding makes the ledger agree with the configuration, is done once
    (binding again changes nothing), leaves the reservations alone, and from
    then on every configuration the ledger accepts has the same GPU count,
    share capacity, slot length, memory rules and storage modes. *)
Theorem policy_binding l c1 l' b :
  bind_ledger_policy l c1 = Ok (l', b) →
  validate_ledger_policy l' c1 = Ok tt ∧ bind_ledger_policy l' c1 = Ok (l', false) ∧
  l_reservations l' = l_reservations l ∧
  ∀ c2, is_bound l = false → validate_ledger_policy l' c2 = Ok tt →
    gpu_count c2 = gpu_count c1 ∧ max_shared_users c2 = max_shared_users c1 ∧
    slot_minutes c2 = slot_minutes c1 ∧
    shared_memory_reserve_mb c2 = shared_memory_reserve_mb c1 ∧
    require_shared_memory c2 = require_shared_memory c1 ∧
    octal4 (file_mode c2) = octal4 (file_mode c1) ∧
    octal4 (dir_mode c2) = octal4 (dir_mode c1).
Proof.
  intros H. pose proof (bind_ledger_policy_reservations _ _ _ _ H) as [Hr _].
  destruct (is_bound l) eqn:Hb.
  - destruct (bind_bound _ _ _ _ Hb H). by repeat split.
  - rewrite (bind_unbound _ _ _ _ Hb H) in *. split; [apply validate_own_policy|].
    split; [apply bind_own_policy|]. split; [done|]. intros c2 _. apply policy_agree.
Qed.

Definition empty_ledger : ledger := Ledger [] None [] None.

Lemma policy_binding_witness :
  ∃ l', bind_ledger_policy empty_ledger example_config = Ok (l', true) ∧
    validate_ledger_policy l' example_config = Ok tt ∧
    bind_ledger_policy l' example_config = Ok (l', false).
Proof.
  exists (set_policy (JObj (policy_for_config example_config)) empty_ledger).
  split; [reflexivity|].
  destruct (policy_binding empty_ledger example_config _ true eq_refl) as (H1 & H2 & _).
  split; [exact H1|exact H2].
Defined.

(** A daemon that has once seen a bound policy never accepts a ledger
    without one, and never accepts a ledger its configuration disagrees with. *)
Theorem guard_refuses_removed_policy c daemon l1 l2 saw0 saw1 :
  guard_validate c daemon saw0 l1 = Ok saw1 →
  validate_ledger_policy l1 c = Ok tt ∧
  (is_bound l1 = true → saw1 = true ∧
   (is_bound l2 = false → ∃ e, guard_validate c daemon saw1 l2 = Raise e)).
Proof.
  unfold guard_validate. destruct (negb (is_bound l1) && saw0) eqn:E; [done|].
  rewrite res_bind_Ok. intros ([] & Hv & H). simplify_eq. split.
  - unfold validate_daemon_ledger_policy in Hv.
    destruct (validate_ledger_policy l1 c) as [[]|[]]; by simplify_eq.
  - intros Hb. rewrite Hb, orb_true_r. split; [done|]. intros ->. simpl. eauto.
Qed.

Lemma guard_refuses_removed_policy_witness :
  ∃ e, guard_validate example_config "worker" true empty_ledger = Raise e.
Proof.
  set (bound := set_policy (JObj (policy_for_config example_config)) empty_ledger).
  assert (H : guard_validate example_config "worker" false bound = Ok true)
    by (vm_compute; reflexivity).
  destruct (guard_refuses_removed_policy _ _ bound empty_ledger _ _ H) as [_ Hg].
  destruct (Hg eq_refl) as [_ He]. exact (He eq_refl).
Defined.
