(* ===== verification/LedgerSchema.v ===== *)
(** * LedgerSchema: which documents are ledgers ([src/src/bk/ledger_schema.py])

    [validate_ledger_document] checks a JSON document before any other code
    reads it; the store runs it on every load and before every write. The
    readers after it are what the scheduler reads from a document
    ([parse_iso(record["start_at"])], [int(record["uid"])], ...), and
    [validated_ledger_ok] shows that an accepted document reads as a ledger
    with the invariants the model of the scheduler assumes.

    A JSON object is an association list; [json.load] keeps the last value of a
    repeated key, so a loaded object has distinct keys. The texts of the errors
    are the code's. *)

From S2P Require Import Prelude PyBase Granularity Timeparse Models Config Policy.

(** ** Fields *)

Definition MAX_RESERVATION_ID_LENGTH : Z := 128.
Definition MAX_USERNAME_LENGTH : Z := 256.

Definition at_index (path : string) (index : Z) : string :=
  path +:+ "[" +:+ str_of_Z index +:+ "]".

Definition too_long (s : string) (limit : Z) : bool :=
  bool_decide (s = "") || (limit <? slen s).

Definition _bounded_text (value : json) (path : string) (limit : Z) : res string :=
  let bad := Raise (ValueError (path +:+ " must contain 1-" +:+ str_of_Z limit +:+ " characters")) in
  match value with
  | JStr s =>
      if too_long s limit then bad
      else if existsb is_control (chars s)
      then Raise (ValueError (path +:+ " must not contain control characters"))
      else Ok s
  | _ => bad
  end.

(** [ord(char) < 32 and char not in "\t\n"] *)
Definition is_control_line (c : ascii) : bool :=
  is_control c && negb ((code c =? 9) || (code c =? 10))%N.

Definition _bounded_multiline_text (value : json) (path : string) (limit : Z) : res string :=
  let bad := Raise (ValueError (path +:+ " must contain 1-" +:+ str_of_Z limit +:+ " characters")) in
  match value with
  | JStr s =>
      if too_long s limit then bad
      else if existsb is_control_line (chars s)
      then Raise (ValueError (path +:+ " must not contain control characters"))
      else Ok s
  | _ => bad
  end.

Definition _optional_positive_integer (value : json) (path : string) : res unit :=
  let bad := Raise (ValueError (path +:+ " must be a positive integer")) in
  match value with
  | JNull => Ok tt
  | JInt z => if z <? 1 then bad else Ok tt
  | _ => bad
  end.

Definition _timestamp (value : json) (path : string) : res datetime :=
  let message := path +:+ " must be an ISO 8601 timestamp" in
  match value with
  | JStr s =>
      if too_long s 64 then Raise (ValueError message)
      else match parse_iso s with
           | Raise (ValueError exc) | Raise (OverflowError exc) =>
               Raise (ValueError (message +:+ ": " +:+ exc))
           | r => r
           end
  | _ => Raise (ValueError message)
  end.

Definition _uid (value : json) (path : string) : res Z :=
  let bad := Raise (ValueError (path +:+ " must be an integer UID")) in
  let check parsed :=
    if (parsed <? 0) || (MAX_UID <? parsed)
    then Raise (ValueError (path +:+ " must be between 0 and " +:+ str_of_Z MAX_UID))
    else Ok parsed in
  match value with
  | JInt z => check z
  | JStr s => match py_int s with Some z => check z | None => bad end
  | _ => bad
  end.

(** [value not in {...}]: the test hashes the value, which a list or an object
    does not allow. *)
Definition _not_in (value : json) (choices : list string) : res bool :=
  match value with
  | JList _ => Raise (TypeError "unhashable type: 'list'")
  | JObj _ => Raise (TypeError "unhashable type: 'dict'")
  | JStr s => Ok (negb (bool_decide (s ∈ choices)))
  | _ => Ok true
  end.

Definition require_choice (value : json) (choices : list string) (message : string) : res unit :=
  absent ← _not_in value choices;
  if absent : bool then Raise (ValueError message) else Ok tt.

(** [if value is not None: check(value)] *)
Definition when_given {A} (value : json) (check : json → res A) : res unit :=
  match value with
  | JNull => Ok tt
  | v => _ ← check v; Ok tt
  end.

(** [for index, item in enumerate(items)], threading what the loop has seen. *)
Fixpoint each_from {S} (body : Z → json → S → res S) (index : Z) (items : list json) (seen : S)
    : res S :=
  match items with
  | [] => Ok seen
  | item :: rest => seen ← body index item seen; each_from body (index + 1) rest seen
  end.

Abbreviation operation_key := (Z * string)%type (only parsing).

Definition _register_operation_id (uid : Z) (operation_id path : string)
    (seen_operations : list (Z * string)) : res (list (Z * string)) :=
  if bool_decide ((uid, operation_id) ∈ seen_operations)
  then Raise (ValueError (path +:+ " duplicates operation ID " +:+ str_repr operation_id
                +:+ " for UID " +:+ str_of_Z uid))
  else Ok ((uid, operation_id) :: seen_operations).

(** ** Edit history *)

Fixpoint state_gpus (path : string) (index : Z) (gpus : list json) : res (list Z) :=
  match gpus with
  | [] => Ok []
  | JInt gpu :: rest =>
      if (0 <=? gpu) && (gpu <? MAX_GPU_COUNT)
      then normalized ← state_gpus path (index + 1) rest; Ok (gpu :: normalized)
      else Raise (ValueError (at_index path index +:+ " is invalid"))
  | _ => Raise (ValueError (at_index path index +:+ " is invalid"))
  end.

Definition _validate_edit_state (value : json) (path : string) : res unit :=
  match value with
  | JObj value =>
      normalized ← match dict_get "gpus" value with
        | JList gpus =>
            if bool_decide (gpus = []) || (MAX_GPU_COUNT <? Z.of_nat (length gpus))
            then Raise (ValueError (path +:+ ".gpus must be a non-empty GPU list"))
            else state_gpus (path +:+ ".gpus") 0 gpus
        | _ => Raise (ValueError (path +:+ ".gpus must be a non-empty GPU list"))
        end;
      if negb (bool_decide (NoDup normalized))
      then Raise (ValueError (path +:+ ".gpus contains duplicates"))
      else
        _ ← require_choice (dict_get "mode" value) [MODE_SHARED; MODE_EXCLUSIVE]
              (path +:+ ".mode must be shared or exclusive");
        start ← _timestamp (dict_get "start_at" value) (path +:+ ".start_at");
        end_ ← _timestamp (dict_get "end_at" value) (path +:+ ".end_at");
        if end_ <=? start
        then Raise (ValueError (path +:+ ".end_at must be later than start_at"))
        else
          _ ← _optional_positive_integer (dict_get "expected_memory_mb" value)
                (path +:+ ".expected_memory_mb");
          _optional_positive_integer (dict_get "share_units" value) (path +:+ ".share_units")
  | _ => Raise (ValueError (path +:+ " must be an object"))
  end.

Definition _validate_edit_operation (uid : Z) (path : string) (index : Z) (item : json)
    (seen_operations : list (Z * string)) : res (list (Z * string)) :=
  let item_path := at_index path index in
  match item with
  | JObj item =>
      operation_id ← _bounded_text (dict_get "op_id" item) (item_path +:+ ".op_id") 128;
      _ ← _bounded_text (dict_get "signature" item) (item_path +:+ ".signature") 128;
      seen_operations ← _register_operation_id uid operation_id (item_path +:+ ".op_id")
        seen_operations;
      _ ← when_given (dict_get "at" item) (λ v, _timestamp v (item_path +:+ ".at"));
      _ ← when_given (dict_get "actor_uid" item) (λ v, _uid v (item_path +:+ ".actor_uid"));
      _ ← when_given (dict_get "actor_username" item)
            (λ v, _bounded_text v (item_path +:+ ".actor_username") MAX_USERNAME_LENGTH);
      _ ← when_given (dict_get "before" item)
            (λ v, _validate_edit_state v (item_path +:+ ".before"));
      _ ← when_given (dict_get "after" item) (λ v, _validate_edit_state v (item_path +:+ ".after"));
      Ok seen_operations
  | _ => Raise (ValueError (item_path +:+ " must be an object"))
  end.

Definition _validate_edit_operations (value : json) (reservation_path : string) (uid : Z)
    (seen_operations : list (Z * string)) : res (list (Z * string)) :=
  let path := reservation_path +:+ ".edit_operations" in
  match value with
  | JList value =>
      if MAX_EDIT_OPERATIONS_PER_RESERVATION <? Z.of_nat (length value)
      then Raise (ValueError (path +:+ " exceeds "
                    +:+ str_of_Z MAX_EDIT_OPERATIONS_PER_RESERVATION +:+ " entries"))
      else each_from (_validate_edit_operation uid path) 0 value seen_operations
  | _ => Raise (ValueError (path +:+ " must be a list"))
  end.

(** ** Cancellation and notifications *)

Definition _validate_cancel_operation (value : json) (reservation_path : string) (uid : Z)
    (seen_operations : list (Z * string)) : res (list (Z * string)) :=
  let path := reservation_path +:+ ".cancel_operation" in
  match value with
  | JObj value =>
      operation_id ← _bounded_text (dict_get "op_id" value) (path +:+ ".op_id") 128;
      _ ← _bounded_text (dict_get "signature" value) (path +:+ ".signature") 128;
      seen_operations ← _register_operation_id uid operation_id (path +:+ ".op_id") seen_operations;
      _ ← when_given (dict_get "at" value) (λ v, _timestamp v (path +:+ ".at"));
      _ ← when_given (dict_get "actor_uid" value) (λ v, _uid v (path +:+ ".actor_uid"));
      _ ← when_given (dict_get "actor_username" value)
            (λ v, _bounded_text v (path +:+ ".actor_username") MAX_USERNAME_LENGTH);
      _ ← when_given (dict_get "kind" value)
            (λ v, require_choice v ["owner"; "administrator"] (path +:+ ".kind is unsupported"));
      _ ← when_given (dict_get "reason" value) (λ v, _bounded_text v (path +:+ ".reason") 512);
      Ok seen_operations
  | _ => Raise (ValueError (path +:+ " must be an object"))
  end.

Definition _validate_notification (path : string) (index : Z) (item : json) (seen : list string)
    : res (list string) :=
  let item_path := at_index path index in
  match item with
  | JObj item =>
      notification_id ← _bounded_text (dict_get "id" item) (item_path +:+ ".id") 128;
      if bool_decide (notification_id ∈ seen)
      then Raise (ValueError (item_path +:+ ".id is duplicated"))
      else
        _ ← _bounded_text (dict_get "type" item) (item_path +:+ ".type") 64;
        _ ← _timestamp (dict_get "created_at" item) (item_path +:+ ".created_at");
        _ ← _uid (dict_get "actor_uid" item) (item_path +:+ ".actor_uid");
        _ ← _bounded_text (dict_get "actor_username" item) (item_path +:+ ".actor_username")
              MAX_USERNAME_LENGTH;
        _ ← _bounded_text (dict_get "reason" item) (item_path +:+ ".reason") 512;
        _ ← _bounded_text (dict_get "message" item) (item_path +:+ ".message") 1024;
        Ok (notification_id :: seen)
  | _ => Raise (ValueError (item_path +:+ " must be an object"))
  end.

Definition _validate_notifications (value : json) (reservation_path : string) : res unit :=
  let path := reservation_path +:+ ".notifications" in
  let bad := Raise (ValueError (path +:+ " must contain at most "
               +:+ str_of_Z MAX_NOTIFICATIONS_PER_RESERVATION +:+ " items")) in
  match value with
  | JList value =>
      if MAX_NOTIFICATIONS_PER_RESERVATION <? Z.of_nat (length value) then bad
      else _ ← each_from (_validate_notification path) 0 value []; Ok tt
  | _ => bad
  end.

(** ** Announcements *)

Definition _validate_announcement (index : Z) (item : json) (seen : list string)
    : res (list string) :=
  let path := at_index "announcements" index in
  match item with
  | JObj item =>
      announcement_id ← _bounded_text (dict_get "id" item) (path +:+ ".id") 128;
      if bool_decide (announcement_id ∈ seen)
      then Raise (ValueError (path +:+ ".id is duplicated"))
      else
        _ ← require_choice (dict_get "level" item) ["info"; "warning"; "critical"]
              (path +:+ ".level is unsupported");
        _ ← _bounded_multiline_text (dict_get "message" item) (path +:+ ".message") 1024;
        created ← _timestamp (dict_get "created_at" item) (path +:+ ".created_at");
        _ ← when_given (dict_get "updated_at" item) (λ v, _timestamp v (path +:+ ".updated_at"));
        starts ← _timestamp (dict_get "starts_at" item) (path +:+ ".starts_at");
        expires ← _timestamp (dict_get "expires_at" item) (path +:+ ".expires_at");
        if (expires <=? starts) || (expires <? created)
        then Raise (ValueError (path +:+ " has an invalid time window"))
        else
          _ ← _uid (dict_get "actor_uid" item) (path +:+ ".actor_uid");
          _ ← _bounded_text (dict_get "actor_username" item) (path +:+ ".actor_username")
                MAX_USERNAME_LENGTH;
          _ ← match dict_get "archived_at" item with
              | JNull => Ok tt
              | archived_at =>
                  _ ← _timestamp archived_at (path +:+ ".archived_at");
                  _ ← _uid (dict_get "archived_by_uid" item) (path +:+ ".archived_by_uid");
                  _ ← _bounded_text (dict_get "archived_by_username" item)
                        (path +:+ ".archived_by_username") MAX_USERNAME_LENGTH;
                  Ok tt
              end;
          Ok (announcement_id :: seen)
  | _ => Raise (ValueError (path +:+ " must be an object"))
  end.

Definition _validate_announcements (value : json) : res unit :=
  let bad := Raise (ValueError ("announcements must contain at most "
               +:+ str_of_Z MAX_ANNOUNCEMENT_HISTORY +:+ " items")) in
  match value with
  | JList value =>
      if MAX_ANNOUNCEMENT_HISTORY <? Z.of_nat (length value) then bad
      else _ ← each_from _validate_announcement 0 value []; Ok tt
  | _ => bad
  end.

(** ** Reservations *)

Fixpoint record_gpus (path : string) (gpu_index : Z) (gpus : list json) : res (list Z) :=
  match gpus with
  | [] => Ok []
  | JInt gpu :: rest =>
      if (gpu <? 0) || (MAX_GPU_COUNT <=? gpu)
      then Raise (ValueError (at_index path gpu_index +:+ " must be between 0 and "
                    +:+ str_of_Z (MAX_GPU_COUNT - 1)))
      else normalized ← record_gpus path (gpu_index + 1) rest; Ok (gpu :: normalized)
  | _ => Raise (ValueError (at_index path gpu_index +:+ " must be an integer"))
  end.

Definition _validate_gpus (value : json) (path : string) : res (list Z) :=
  match value with
  | JList gpus =>
      if bool_decide (gpus = []) then Raise (ValueError (path +:+ ".gpus must be a non-empty list"))
      else if MAX_GPU_COUNT <? Z.of_nat (length gpus)
      then Raise (ValueError (path +:+ ".gpus contains too many entries"))
      else
        normalized ← record_gpus (path +:+ ".gpus") 0 gpus;
        if negb (bool_decide (NoDup normalized))
        then Raise (ValueError (path +:+ ".gpus must not contain duplicates"))
        else Ok normalized
  | _ => Raise (ValueError (path +:+ ".gpus must be a non-empty list"))
  end.

(** From [op_id] to the end of [_validate_reservation]. *)
Definition _validate_operations (r : list (string * json)) (path : string) (uid : Z)
    (seen_operations : list (Z * string)) : res (list (Z * string)) :=
  seen_operations ← match dict_get "op_id" r with
    | JNull => Ok seen_operations
    | v =>
        operation_id ← _bounded_text v (path +:+ ".op_id") 128;
        _register_operation_id uid operation_id (path +:+ ".op_id") seen_operations
    end;
  _ ← when_given (dict_get "operation_signature" r)
        (λ v, _bounded_text v (path +:+ ".operation_signature") 128);
  _ ← match dict_get "job" r with
      | JNull | JObj _ => Ok tt
      | _ => Raise (ValueError (path +:+ ".job must be an object or null"))
      end;
  seen_operations ← match dict_get "edit_operations" r with
    | JNull => Ok seen_operations
    | history => _validate_edit_operations history path uid seen_operations
    end;
  seen_operations ← match dict_get "cancel_operation" r with
    | JNull => Ok seen_operations
    | cancellation => _validate_cancel_operation cancellation path uid seen_operations
    end;
  _ ← when_given (dict_get "notifications" r) (λ v, _validate_notifications v path);
  Ok seen_operations.

Definition _validate_reservation (index : Z) (reservation : json)
    (seen : list string * list (Z * string)) : res (list string * list (Z * string)) :=
  let path := at_index "reservations" index in
  let '(seen_ids, seen_operations) := seen in
  match reservation with
  | JObj r =>
      reservation_id ← _bounded_text (dict_get "id" r) (path +:+ ".id") MAX_RESERVATION_ID_LENGTH;
      if bool_decide (reservation_id ∈ seen_ids)
      then Raise (ValueError (path +:+ ".id duplicates reservation " +:+ str_repr reservation_id))
      else
        uid ← _uid (dict_get "uid" r) (path +:+ ".uid");
        _ ← when_given (dict_get "username" r)
              (λ v, _bounded_text v (path +:+ ".username") MAX_USERNAME_LENGTH);
        _ ← require_choice (dict_get "mode" r) [MODE_SHARED; MODE_EXCLUSIVE]
              (path +:+ ".mode must be shared or exclusive");
        _ ← require_choice (dict_get "status" r) [STATUS_ACTIVE; STATUS_CANCELLED; STATUS_EXPIRED]
              (path +:+ ".status is unsupported");
        _ ← _validate_gpus (dict_get "gpus" r) path;
        start ← _timestamp (dict_get "start_at" r) (path +:+ ".start_at");
        end_ ← _timestamp (dict_get "end_at" r) (path +:+ ".end_at");
        if end_ <=? start
        then Raise (ValueError (path +:+ ".end_at must be later than start_at"))
        else
          _ ← when_given (dict_get "created_at" r) (λ v, _timestamp v (path +:+ ".created_at"));
          _ ← when_given (dict_get "updated_at" r) (λ v, _timestamp v (path +:+ ".updated_at"));
          _ ← _optional_positive_integer (dict_get "expected_memory_mb" r)
                (path +:+ ".expected_memory_mb");
          seen_operations ← _validate_operations r path uid seen_operations;
          Ok (reservation_id :: seen_ids, seen_operations)
  | _ => Raise (ValueError (path +:+ " must be an object"))
  end.

Definition validate_ledger_document (data : json) : res unit :=
  match data with
  | JObj data =>
      let version := dict_get "version" data in
      if match version with JBool _ => true | v => negb (scalar_eq v (JInt 1)) end
      then Raise (ValueError "unsupported ledger version")
      else match dict_get "reservations" data with
      | JList reservations =>
          _ ← when_given (dict_get "last_transaction_id" data)
                (λ v, _bounded_text v "last_transaction_id" 128);
          _ ← _validate_announcements (default (JList []) (assoc_get "announcements" data));
          _ ← each_from _validate_reservation 0 reservations ([], []);
          Ok tt
      | _ => Raise (ValueError "ledger reservations must be a list")
      end
  | _ => Raise (ValueError "ledger must be an object")
  end.

(** ** Reading an accepted document *)

Definition read_text (v : json) : option string := match v with JStr s => Some s | _ => None end.

Definition read_int (v : json) : option Z := match v with JInt z => Some z | _ => None end.

(** [int(value)] of a user id *)
Definition read_uid (v : json) : option Z :=
  match v with JInt z => Some z | JStr s => py_int s | _ => None end.

Definition read_time (v : json) : option datetime :=
  match v with
  | JStr s => match parse_iso s with Ok t => Some t | Raise _ => None end
  | _ => None
  end.

Definition read_optional {A} (read : json → option A) (v : json) : option (option A) :=
  match v with JNull => Some None | v => Some <$> read v end.

Definition read_list {A} (read : json → option A) (v : json) : option (list A) :=
  match v with JList l => mapM read l | _ => None end.

Definition read_object {A} (read : list (string * json) → option A) (v : json) : option A :=
  match v with JObj kvs => read kvs | _ => None end.

Definition read_edit_state (s : list (string * json)) : option edit_state :=
  gpus ← read_list read_int (dict_get "gpus" s);
  mode ← read_text (dict_get "mode" s);
  start ← read_time (dict_get "start_at" s);
  end_ ← read_time (dict_get "end_at" s);
  memory ← read_optional read_int (dict_get "expected_memory_mb" s);
  Some (EditState gpus mode start end_ memory
          (match dict_get "share_units" s with JNull => None | v => Some v end)).

Definition read_edit_operation (o : list (string * json)) : option edit_operation :=
  op_id ← read_text (dict_get "op_id" o);
  signature ← read_text (dict_get "signature" o);
  at_ ← read_optional read_time (dict_get "at" o);
  actor_uid ← read_optional read_uid (dict_get "actor_uid" o);
  actor_username ← read_optional read_text (dict_get "actor_username" o);
  before ← read_optional (read_object read_edit_state) (dict_get "before" o);
  after ← read_optional (read_object read_edit_state) (dict_get "after" o);
  Some (EditOperation op_id signature at_ actor_uid actor_username before after).

Definition read_cancel_operation (o : list (string * json)) : option cancel_operation :=
  op_id ← read_text (dict_get "op_id" o);
  signature ← read_text (dict_get "signature" o);
  at_ ← read_optional read_time (dict_get "at" o);
  actor_uid ← read_optional read_uid (dict_get "actor_uid" o);
  actor_username ← read_optional read_text (dict_get "actor_username" o);
  kind ← read_optional read_text (dict_get "kind" o);
  reason ← read_optional read_text (dict_get "reason" o);
  Some (CancelOperation op_id signature at_ actor_uid actor_username kind reason).

Definition read_notification (n : list (string * json)) : option notification :=
  id ← read_text (dict_get "id" n);
  type ← read_text (dict_get "type" n);
  created ← read_time (dict_get "created_at" n);
  actor_uid ← read_uid (dict_get "actor_uid" n);
  actor_username ← read_text (dict_get "actor_username" n);
  reason ← read_text (dict_get "reason" n);
  message ← read_text (dict_get "message" n);
  Some (Notification id type created actor_uid actor_username reason message).

(** A list under [dict.get(key, [])]: absent reads as empty, null as [None]. *)
Definition read_history {A} (read : list (string * json) → option A) (v : option json)
    : option (option (list A)) :=
  match v with
  | None => Some (Some [])
  | Some JNull => Some None
  | Some v => Some <$> read_list (read_object read) v
  end.

(** An explicit null user name reads as the text [str] gives it. *)
Definition read_username (v : option json) : option (option string) :=
  match v with
  | None => Some None
  | Some JNull => Some (Some "None")
  | Some v => Some <$> read_text v
  end.

Definition read_job (v : json) : option (option (gmap string json)) :=
  match v with
  | JNull => Some None
  | JObj kvs => Some (Some (list_to_map kvs))
  | _ => None
  end.

Definition read_reservation (r : list (string * json)) : option reservation :=
  id ← read_text (dict_get "id" r);
  op_id ← read_optional read_text (dict_get "op_id" r);
  uid ← read_uid (dict_get "uid" r);
  username ← read_username (assoc_get "username" r);
  gpus ← read_list read_int (dict_get "gpus" r);
  mode ← read_text (dict_get "mode" r);
  start ← read_time (dict_get "start_at" r);
  end_ ← read_time (dict_get "end_at" r);
  status ← read_text (dict_get "status" r);
  created ← read_optional read_time (dict_get "created_at" r);
  updated ← read_optional read_time (dict_get "updated_at" r);
  memory ← read_optional read_int (dict_get "expected_memory_mb" r);
  signature ← read_optional read_text (dict_get "operation_signature" r);
  job ← read_job (dict_get "job" r);
  edits ← read_history read_edit_operation (assoc_get "edit_operations" r);
  cancellation ← read_optional (read_object read_cancel_operation) (dict_get "cancel_operation" r);
  notifications ← read_history read_notification (assoc_get "notifications" r);
  Some (Reservation id op_id uid username gpus mode start end_ status created updated memory
          (assoc_get "share_units" r) signature job edits cancellation notifications).

Definition read_archived (a : list (string * json)) : option (option (datetime * Z * string)) :=
  match dict_get "archived_at" a with
  | JNull => Some None
  | v =>
      at_ ← read_time v;
      uid ← read_uid (dict_get "archived_by_uid" a);
      name ← read_text (dict_get "archived_by_username" a);
      Some (Some (at_, uid, name))
  end.

Definition read_announcement (a : list (string * json)) : option announcement :=
  id ← read_text (dict_get "id" a);
  level ← read_text (dict_get "level" a);
  message ← read_text (dict_get "message" a);
  created ← read_time (dict_get "created_at" a);
  updated ← read_optional read_time (dict_get "updated_at" a);
  starts ← read_time (dict_get "starts_at" a);
  expires ← read_time (dict_get "expires_at" a);
  actor_uid ← read_uid (dict_get "actor_uid" a);
  actor_username ← read_text (dict_get "actor_username" a);
  archived ← read_archived a;
  Some (Announcement id level message created updated starts expires actor_uid actor_username
          archived).

(** The ledger a document stands for. *)
Definition read_ledger (data : json) : option ledger :=
  match data with
  | JObj data =>
      reservations ← read_list (read_object read_reservation) (dict_get "reservations" data);
      announcements ← read_list (read_object read_announcement)
        (default (JList []) (assoc_get "announcements" data));
      transaction_id ← read_optional read_text (dict_get "last_transaction_id" data);
      Some (Ledger reservations
              (match dict_get "policy" data with JNull => None | policy => Some policy end)
              announcements transaction_id)
  | _ => None
  end.

(** ** Lemmas: fields *)

Lemma bounded_text_Ok v p n s : _bounded_text v p n = Ok s → read_text v = Some s ∧ 1 ≤ slen s ≤ n.
Proof.
  unfold _bounded_text. destruct v as [| | | |x| |]; try done.
  destruct (too_long x n) eqn:Hl; [done|]. destruct (existsb _ _); [done|]. intros [= <-].
  unfold too_long in Hl. bk_split. split; [done|]. split; [|done].
  destruct x; [done|]. unfold slen. simpl. lia.
Qed.

Lemma multiline_text_Ok v p n s : _bounded_multiline_text v p n = Ok s → read_text v = Some s.
Proof. unfold _bounded_multiline_text. destruct v; try done. by repeat case_match; intros [= <-]. Qed.

Lemma timestamp_Ok v p t : _timestamp v p = Ok t → read_time v = Some t.
Proof.
  unfold _timestamp, read_time. destruct v; try done. destruct (too_long _ _); [done|].
  destruct (parse_iso s) as [t'|[]]; try done. by intros [= <-].
Qed.

Lemma uid_Ok v p z : _uid v p = Ok z → read_uid v = Some z ∧ 0 ≤ z ≤ MAX_UID.
Proof.
  unfold _uid, read_uid. destruct v as [| |z'| |s| |]; try done; [|destruct (py_int s) as [z'|]; [|done]];
    (destruct (_ || _) eqn:E; [done|]; intros [= <-]; bk_split; done).
Qed.

Lemma positive_integer_Ok v p :
  _optional_positive_integer v p = Ok tt →
  ∃ o, read_optional read_int v = Some o ∧ ∀ m, o = Some m → 1 ≤ m.
Proof.
  unfold _optional_positive_integer. destruct v as [| |z| | | |]; try done.
  - intros _. by exists None.
  - destruct (Z.ltb_spec z 1); [done|]. intros _. exists (Some z). split; [done|].
    by intros m [= <-].
Qed.

Lemma require_choice_Ok v choices msg :
  require_choice v choices msg = Ok tt → ∃ s, read_text v = Some s ∧ s ∈ choices.
Proof.
  unfold require_choice, _not_in. destruct v as [| | | |s| |]; try done. simpl.
  case_bool_decide; [|done]. intros _. by exists s.
Qed.

Lemma when_given_Ok {A B} (v : json) (check : json → res A) (read : json → option B) :
  when_given v check = Ok tt → (∀ a, check v = Ok a → ∃ b, read v = Some b) →
  ∃ o, read_optional read v = Some o.
Proof.
  intros H Hread. assert (Hcase : v = JNull ∨ ∃ a, check v = Ok a).
  { unfold when_given in H. destruct v; try (by left); right;
      by apply res_bind_Ok in H as (a & Ha & _); exists a. }
  destruct Hcase as [->|(a & Ha)]; [by exists None|].
  destruct (Hread a Ha) as [b Hb]. unfold read_optional. rewrite Hb.
  destruct v; (by exists None) || by exists (Some b).
Qed.

Lemma given_text v p n : when_given v (λ v, _bounded_text v p n) = Ok tt →
  ∃ o, read_optional read_text v = Some o.
Proof. intros H. eapply when_given_Ok; [exact H|]. intros s [? _]%bounded_text_Ok. by exists s. Qed.

Lemma given_time v p : when_given v (λ v, _timestamp v p) = Ok tt →
  ∃ o, read_optional read_time v = Some o.
Proof. intros H. eapply when_given_Ok; [exact H|]. intros t ?%timestamp_Ok. by exists t. Qed.

Lemma given_uid v p : when_given v (λ v, _uid v p) = Ok tt →
  ∃ o, read_optional read_uid v = Some o.
Proof. intros H. eapply when_given_Ok; [exact H|]. intros t [? _]%uid_Ok. by exists t. Qed.

Lemma state_gpus_Ok p i l gs : state_gpus p i l = Ok gs → mapM read_int l = Some gs.
Proof.
  revert i gs. induction l as [|v l IH]; intros i gs; simpl; [by intros [= <-]|].
  destruct v; try done. destruct (_ && _); [|done]. rewrite res_bind_Ok.
  intros (gs' & E & [= <-]). simpl. by rewrite (IH _ _ E).
Qed.

Lemma record_gpus_Ok p i l gs :
  record_gpus p i l = Ok gs →
  mapM read_int l = Some gs ∧ ∀ g, g ∈ gs → 0 ≤ g < MAX_GPU_COUNT.
Proof.
  revert i gs. induction l as [|v l IH]; intros i gs; simpl.
  { intros [= <-]. split; [done|]. by intros g ?%not_elem_of_nil. }
  destruct v as [| |z| | | |]; try done. destruct (_ || _) eqn:Hr; [done|]. rewrite res_bind_Ok.
  intros (gs' & E & [= <-]). destruct (IH _ _ E) as [H1 H2]. simpl. rewrite H1. split; [done|].
  bk_split. intros g [->|Hg]%elem_of_cons; [done|by apply H2].
Qed.

(** ** Lemmas: loops *)

Section Loop.
Context {S A : Type} (body : Z → json → S → res S) (read : json → option A) (Q : A → Prop).
Context (ext : S → A → S → Prop).
Context (Hbody : ∀ i x s s', body i x s = Ok s' → ∃ a, read x = Some a ∧ Q a ∧ ext s a s').

Fixpoint extends (s : S) (l : list A) (s' : S) : Prop :=
  match l with
  | [] => s' = s
  | a :: l => ∃ s1, ext s a s1 ∧ extends s1 l s'
  end.

Lemma each_from_Ok i l s s' :
  each_from body i l s = Ok s' →
  ∃ al, mapM read l = Some al ∧ (∀ a, a ∈ al → Q a) ∧ extends s al s'.
Proof.
  revert i s. induction l as [|x l IH]; intros i s; simpl.
  { intros [= <-]. exists []. split; [done|]. split; [by intros a ?%not_elem_of_nil|done]. }
  rewrite res_bind_Ok. intros (s1 & Hx & Hl). apply Hbody in Hx as (a & Ha & HQ & Hs).
  apply IH in Hl as (al & Hal & HQs & Hext). exists (a :: al). rewrite Ha. simpl. rewrite Hal.
  split; [done|]. split; [|by exists s1]. intros b [->|Hb]%elem_of_cons; [done|by apply HQs].
Qed.

(** A part of the state that collects distinct keys. *)
Lemma extends_keys {K} (part : S → list K) (keys : A → list K) s l s' :
  (∀ s a s', ext s a s' → part s' ≡ₚ keys a ++ part s ∧ (NoDup (part s) → NoDup (part s'))) →
  extends s l s' →
  part s' ≡ₚ (l ≫= keys) ++ part s ∧ (NoDup (part s) → NoDup (part s')).
Proof.
  intros Hkeys. revert s. induction l as [|a l IH]; intros s; csimpl; [by intros ->|].
  intros (s1 & Ha & Hl). apply Hkeys in Ha as [Hp1 Hd1]. apply IH in Hl as [Hp2 Hd2].
  split; [|tauto]. by rewrite Hp2, Hp1, !(assoc_L (++)), (comm (++) (keys a)).
Qed.
End Loop.

Lemma register_Ok uid o p seen seen' :
  _register_operation_id uid o p seen = Ok seen' → seen' = (uid, o) :: seen ∧ (uid, o) ∉ seen.
Proof.
  unfold _register_operation_id. case_bool_decide; [done|]. by intros [= <-].
Qed.

(** ** Lemmas: the parts of a document *)

(** Take a successful run of binds and tests apart. *)
Ltac res_inv H :=
  repeat match type of H with
  | _ ≫= _ = Ok _ => apply res_bind_Ok in H as (? & ? & H)
  | (if ?b then Raise _ else _) = Ok _ => destruct b eqn:?; [discriminate H|]
  | match ?v with JObj _ => _ | _ => _ end = Ok _ => destruct v; try discriminate H
  end.

(** Turn what the checks accepted into what the readers read. *)
Ltac read_inv :=
  repeat match goal with
  | x : unit |- _ => destruct x
  | H : _bounded_text _ _ _ = Ok _ |- _ => apply bounded_text_Ok in H as [H _]
  | H : _bounded_multiline_text _ _ _ = Ok _ |- _ => apply multiline_text_Ok in H
  | H : _timestamp _ _ = Ok _ |- _ => apply timestamp_Ok in H
  | H : _uid _ _ = Ok _ |- _ => apply uid_Ok in H as [H ?]
  | H : when_given _ (λ v, _bounded_text v _ _) = Ok _ |- _ => apply given_text in H as [? H]
  | H : when_given _ (λ v, _timestamp v _) = Ok _ |- _ => apply given_time in H as [? H]
  | H : when_given _ (λ v, _uid v _) = Ok _ |- _ => apply given_uid in H as [? H]
  | H : _optional_positive_integer _ _ = Ok _ |- _ =>
      apply positive_integer_Ok in H as (? & H & ?)
  | H : require_choice _ _ _ = Ok _ |- _ => apply require_choice_Ok in H as (? & H & ?)
  end.

(** Rewrite the reader's goal with every fact read so far. *)
Ltac read_rw :=
  repeat match goal with
  | H : ?l = Some ?x |- context [?l] => rewrite H; simpl
  end.

Lemma edit_state_Ok v p :
  _validate_edit_state v p = Ok tt → ∃ s, read_object read_edit_state v = Some s.
Proof.
  intros H. unfold _validate_edit_state in H. res_inv H. read_inv.
  match goal with
  | E : match dict_get "gpus" _ with JList _ => _ | _ => _ end = Ok ?g |- _ =>
      assert (Hg : read_list read_int (dict_get "gpus" kvs) = Some g)
  end.
  { destruct (dict_get "gpus" kvs); try done. simpl. destruct (_ || _); [done|].
    by eapply state_gpus_Ok. }
  eexists. simpl. unfold read_edit_state. rewrite Hg. simpl. read_rw. reflexivity.
Qed.

Lemma given_edit_state v p :
  when_given v (λ v, _validate_edit_state v p) = Ok tt →
  ∃ o, read_optional (read_object read_edit_state) v = Some o.
Proof. intros H. eapply when_given_Ok; [exact H|]. intros [] Ha. by eapply edit_state_Ok. Qed.

Lemma edit_operation_Ok uid p i v seen seen' :
  _validate_edit_operation uid p i v seen = Ok seen' →
  ∃ e, read_object read_edit_operation v = Some e ∧ True ∧
    seen' = (uid, eo_op_id e) :: seen ∧ (uid, eo_op_id e) ∉ seen.
Proof.
  intros H. unfold _validate_edit_operation in H. res_inv H. injection H as <-.
  match goal with E : _register_operation_id _ _ _ _ = Ok _ |- _ =>
    apply register_Ok in E as [-> Hnew] end.
  read_inv. repeat match goal with
  | E : when_given _ (λ v, _validate_edit_state v _) = Ok _ |- _ =>
      apply given_edit_state in E as [? E] end.
  eexists. simpl. unfold read_edit_operation. read_rw. split; [reflexivity|]. by split.
Qed.

Lemma cancel_operation_Ok uid p v seen seen' :
  _validate_cancel_operation v p uid seen = Ok seen' →
  ∃ o, read_object read_cancel_operation v = Some o ∧
    seen' = (uid, co_op_id o) :: seen ∧ (uid, co_op_id o) ∉ seen.
Proof.
  intros H. unfold _validate_cancel_operation in H. res_inv H. injection H as <-.
  match goal with E : _register_operation_id _ _ _ _ = Ok _ |- _ =>
    apply register_Ok in E as [-> Hnew] end.
  read_inv.
  match goal with E : when_given _ (λ v, require_choice _ _ _) = Ok _ |- _ =>
    assert (Hkind : ∃ o, read_optional read_text (dict_get "kind" kvs) = Some o)
      by (eapply when_given_Ok; [exact E|]; intros [] (k & Hk & _)%require_choice_Ok; by exists k)
  end.
  destruct Hkind as [k Hk].
  eexists. simpl. unfold read_cancel_operation. read_rw. split; [reflexivity|]. by split.
Qed.

Lemma notification_Ok p i v seen seen' :
  _validate_notification p i v seen = Ok seen' →
  ∃ n, read_object read_notification v = Some n ∧ True ∧ True.
Proof.
  intros H. unfold _validate_notification in H. res_inv H. read_inv.
  eexists. simpl. unfold read_notification. read_rw. by split.
Qed.

Lemma length_mapM {A B} (f : A → option B) l k : mapM f l = Some k → length k = length l.
Proof. intros H%mapM_Some. symmetry. by eapply Forall2_length. Qed.

Lemma notifications_Ok p v :
  _validate_notifications v p = Ok tt →
  ∃ ns, read_list (read_object read_notification) v = Some ns ∧
    Z.of_nat (length ns) ≤ MAX_NOTIFICATIONS_PER_RESERVATION.
Proof.
  unfold _validate_notifications. destruct v; try done. destruct (Z.ltb_spec
    MAX_NOTIFICATIONS_PER_RESERVATION (Z.of_nat (length l))); [done|]. rewrite res_bind_Ok.
  intros (seen & Hl & _).
  apply (each_from_Ok _ (read_object read_notification) (λ _, True) (λ _ _ _, True)) in Hl
    as (ns & Hns & _); [|intros; by eapply notification_Ok].
  exists ns. split; [done|]. by rewrite (length_mapM _ _ _ Hns).
Qed.

(** The keys of the operations a reservation remembers. *)
Definition operation_keys (r : reservation) : list (Z * string) :=
  (match r_op_id r with Some o => [(r_uid r, o)] | None => [] end)
  ++ ((λ e, (r_uid r, eo_op_id e)) <$> default [] (r_edit_operations r))
  ++ (match r_cancel_operation r with Some o => [(r_uid r, co_op_id o)] | None => [] end).

Lemma edit_operations_Ok v p uid seen seen' :
  _validate_edit_operations v p uid seen = Ok seen' →
  ∃ es, read_list (read_object read_edit_operation) v = Some es ∧
    Z.of_nat (length es) ≤ MAX_EDIT_OPERATIONS_PER_RESERVATION ∧
    seen' ≡ₚ ((λ e, (uid, eo_op_id e)) <$> es) ++ seen ∧ (NoDup seen → NoDup seen').
Proof.
  unfold _validate_edit_operations. destruct v; try done. destruct (Z.ltb_spec
    MAX_EDIT_OPERATIONS_PER_RESERVATION (Z.of_nat (length l))); [done|]. intros Hl.
  apply (each_from_Ok _ (read_object read_edit_operation) (λ _, True)
    (λ s e s', s' = (uid, eo_op_id e) :: s ∧ (uid, eo_op_id e) ∉ s)) in Hl
    as (es & Hes & _ & Hext); [|intros; by eapply edit_operation_Ok].
  exists es. split; [done|]. split; [by rewrite (length_mapM _ _ _ Hes)|].
  apply (extends_keys _ id (λ e, [(uid, eo_op_id e)])) in Hext as [Hp Hd].
  - split; [|done]. simpl in Hp. rewrite Hp.
    assert (E : (es ≫= λ e, [(uid, eo_op_id e)]) = (λ e, (uid, eo_op_id e)) <$> es)
      by (clear; induction es as [|e es IH]; csimpl; [done|]; by rewrite IH).
    by rewrite E.
  - intros s e s' [-> Hn]. split; [done|]. intros Hnd. by constructor.
Qed.

(** What an accepted announcement satisfies. *)
Record announcement_ok (a : announcement) : Prop := AnnouncementOk {
  ao_level : an_level a ∈ ["info"; "warning"; "critical"];
  ao_window : an_starts_at a < an_expires_at a;
  ao_created : an_created_at a ≤ an_expires_at a;
}.

Lemma announcement_Ok i v seen seen' :
  _validate_announcement i v seen = Ok seen' →
  ∃ a, read_object read_announcement v = Some a ∧ announcement_ok a ∧
    seen' = an_id a :: seen ∧ an_id a ∉ seen.
Proof.
  intros H. unfold _validate_announcement in H. res_inv H. injection H as <-.
  assert (Harch : ∃ o, read_archived kvs = Some o).
  { unfold read_archived. match goal with E : match dict_get "archived_at" kvs with _ => _ end = _ |- _ =>
      destruct (dict_get "archived_at" kvs) eqn:Ea; [by exists None|..]; res_inv E; clear Ea end;
    read_inv; simpl in *; try done; read_rw; by eexists. }
  destruct Harch as [o Ho]. read_inv. bk_split.
  eexists. simpl. unfold read_announcement. read_rw. split; [reflexivity|]. simpl. split; [|done].
  by constructor.
Qed.

Lemma announcements_Ok v :
  _validate_announcements v = Ok tt →
  ∃ al, read_list (read_object read_announcement) v = Some al ∧
    (∀ a, a ∈ al → announcement_ok a) ∧ NoDup (an_id <$> al) ∧
    Z.of_nat (length al) ≤ MAX_ANNOUNCEMENT_HISTORY.
Proof.
  unfold _validate_announcements. destruct v; try done. destruct (Z.ltb_spec
    MAX_ANNOUNCEMENT_HISTORY (Z.of_nat (length l))); [done|]. rewrite res_bind_Ok.
  intros (seen & Hl & _).
  apply (each_from_Ok _ (read_object read_announcement) announcement_ok
    (λ s a s', s' = an_id a :: s ∧ an_id a ∉ s)) in Hl as (al & Hal & Hok & Hext);
    [|intros; by eapply announcement_Ok].
  exists al. split; [done|]. split; [done|]. split; [|by rewrite (length_mapM _ _ _ Hal)].
  apply (extends_keys _ id (λ a, [an_id a])) in Hext as [Hp Hd].
  - simpl in Hp. rewrite app_nil_r in Hp.
    assert (E : (al ≫= λ a, [an_id a]) = an_id <$> al)
      by (clear; induction al as [|a al IH]; csimpl; [done|]; by rewrite IH).
    rewrite <- E, <- Hp. by apply Hd, NoDup_nil_2.
  - intros s a s' [-> Hn]. split; [done|]. intros Hnd. by constructor.
Qed.

Lemma gpus_Ok v p gs :
  _validate_gpus v p = Ok gs →
  read_list read_int v = Some gs ∧ NoDup gs ∧ gs ≠ [] ∧ ∀ g, g ∈ gs → 0 ≤ g < MAX_GPU_COUNT.
Proof.
  unfold _validate_gpus. destruct v as [| | | | |l|]; try done. case_bool_decide as Hne; [done|].
  destruct (_ <? _); [done|]. rewrite res_bind_Ok. intros (gs' & Hg & H).
  destruct (negb _) eqn:Hd; [done|]. injection H as ->. bk_split.
  apply record_gpus_Ok in Hg as [Hm Hr]. split; [done|]. split; [done|]. split; [|done].
  intros ->. apply Hne. apply length_mapM in Hm. by destruct l.
Qed.

Lemma read_history_null {A} (read : list (string * json) → option A) key r :
  dict_get key r = JNull → ∃ o, read_history read (assoc_get key r) = Some o ∧ default [] o = [].
Proof.
  unfold dict_get. destruct (assoc_get key r); simpl; [intros ->; by exists None|].
  intros _. by exists (Some []).
Qed.

Lemma read_history_list {A} (read : list (string * json) → option A) key r v l :
  dict_get key r = v → v ≠ JNull → read_list (read_object read) v = Some l →
  read_history read (assoc_get key r) = Some (Some l).
Proof.
  unfold dict_get. destruct (assoc_get key r) as [v'|]; simpl; [|by intros <-].
  intros -> Hn Hl. destruct v; try done. simpl in *. by rewrite Hl.
Qed.

(** The last part of a record, as the readers see it. *)
Record operations_read (r : list (string * json)) (uid : Z) (seen seen' : list (Z * string))
    (op_id signature : option string) (job : option (gmap string json))
    (edits : option (list edit_operation)) (cancellation : option cancel_operation)
    (notifications : option (list notification)) : Prop := OperationsRead {
  or_op_id : read_optional read_text (dict_get "op_id" r) = Some op_id;
  or_signature : read_optional read_text (dict_get "operation_signature" r) = Some signature;
  or_job : read_job (dict_get "job" r) = Some job;
  or_edits : read_history read_edit_operation (assoc_get "edit_operations" r) = Some edits;
  or_cancel : read_optional (read_object read_cancel_operation) (dict_get "cancel_operation" r)
              = Some cancellation;
  or_notifications : read_history read_notification (assoc_get "notifications" r)
                     = Some notifications;
  or_edits_max : Z.of_nat (length (default [] edits)) ≤ MAX_EDIT_OPERATIONS_PER_RESERVATION;
  or_notifications_max : Z.of_nat (length (default [] notifications))
                         ≤ MAX_NOTIFICATIONS_PER_RESERVATION;
  or_keys : seen' ≡ₚ
    ((match op_id with Some o => [(uid, o)] | None => [] end)
     ++ ((λ e, (uid, eo_op_id e)) <$> default [] edits)
     ++ (match cancellation with Some o => [(uid, co_op_id o)] | None => [] end)) ++ seen;
  or_distinct : NoDup seen → NoDup seen';
}.

(** A check that null passes. *)
Lemma unless_null {A} (v : json) (a b : A) (f : json → A) :
  match v with
  | JNull => a | JBool x => f (JBool x) | JInt x => f (JInt x) | JFloat x => f (JFloat x)
  | JStr x => f (JStr x) | JList x => f (JList x) | JObj x => f (JObj x)
  end = b → v = JNull ∧ a = b ∨ v ≠ JNull ∧ f v = b.
Proof. destruct v; intros H; (by left) || by right. Qed.

Lemma op_id_Ok r p uid seen seen' :
  (match dict_get "op_id" r with
   | JNull => Ok seen
   | v => o ← _bounded_text v p 128; _register_operation_id uid o p seen
   end) = Ok seen' →
  ∃ o, read_optional read_text (dict_get "op_id" r) = Some o ∧
    seen' = (match o with Some o => [(uid, o)] | None => [] end) ++ seen ∧
    (NoDup seen → NoDup seen').
Proof.
  intros H. apply (unless_null _ _ _ (λ v, o ← _bounded_text v p 128;
    _register_operation_id uid o p seen)) in H as [[-> [= <-]]|[Hn H]]; [by exists None|].
  apply res_bind_Ok in H as (o & [Ht _]%bounded_text_Ok & [-> Hnew]%register_Ok).
  exists (Some o). split; [|split; [done|by constructor]].
  unfold read_optional. rewrite Ht. by destruct (dict_get "op_id" r).
Qed.

Lemma edits_Ok r p uid seen seen' :
  (match dict_get "edit_operations" r with
   | JNull => Ok seen
   | history => _validate_edit_operations history p uid seen
   end) = Ok seen' →
  ∃ o, read_history read_edit_operation (assoc_get "edit_operations" r) = Some o ∧
    Z.of_nat (length (default [] o)) ≤ MAX_EDIT_OPERATIONS_PER_RESERVATION ∧
    seen' ≡ₚ ((λ e, (uid, eo_op_id e)) <$> default [] o) ++ seen ∧ (NoDup seen → NoDup seen').
Proof.
  intros H. apply (unless_null _ _ _ (λ v, _validate_edit_operations v p uid seen)) in H as [[Hn [= <-]]|[Hn H]].
  - destruct (read_history_null read_edit_operation _ _ Hn) as (o & Ho & Hd).
    exists o. by rewrite Hd.
  - apply edit_operations_Ok in H as (es & Hes & H). exists (Some es). split; [|done].
    by apply (read_history_list _ _ _ _ _ eq_refl).
Qed.

Lemma cancellation_Ok r p uid seen seen' :
  (match dict_get "cancel_operation" r with
   | JNull => Ok seen
   | cancellation => _validate_cancel_operation cancellation p uid seen
   end) = Ok seen' →
  ∃ o, read_optional (read_object read_cancel_operation) (dict_get "cancel_operation" r) = Some o ∧
    seen' = (match o with Some o => [(uid, co_op_id o)] | None => [] end) ++ seen ∧
    (NoDup seen → NoDup seen').
Proof.
  intros H. apply (unless_null _ _ _ (λ v, _validate_cancel_operation v p uid seen))
    in H as [[-> [= <-]]|[Hn H]]; [by exists None|].
  apply cancel_operation_Ok in H as (o & Ho & -> & Hnew). exists (Some o). split.
  - unfold read_optional. rewrite Ho. by destruct (dict_get "cancel_operation" r).
  - split; [done|]. by constructor.
Qed.

Lemma when_given_case v check :
  when_given v check = Ok tt → v = JNull ∨ v ≠ JNull ∧ check v = Ok tt.
Proof.
  unfold when_given. destruct v; [by left|right..]; (split; [done|]);
    by apply res_bind_Ok in H as ([] & ? & _).
Qed.

Lemma given_notifications r p :
  when_given (dict_get "notifications" r) (λ v, _validate_notifications v p) = Ok tt →
  ∃ o, read_history read_notification (assoc_get "notifications" r) = Some o ∧
    Z.of_nat (length (default [] o)) ≤ MAX_NOTIFICATIONS_PER_RESERVATION.
Proof.
  intros [Hn|[Hn H]]%when_given_case.
  - destruct (read_history_null read_notification _ _ Hn) as (o & Ho & Hd). exists o. by rewrite Hd.
  - apply notifications_Ok in H as (ns & Hns & H).
    exists (Some ns). split; [|done]. by apply (read_history_list _ _ _ _ _ eq_refl).
Qed.

Lemma job_Ok v p :
  (match v with
   | JNull | JObj _ => Ok tt
   | _ => Raise (ValueError (p +:+ ".job must be an object or null"))
   end) = Ok tt → ∃ o, read_job v = Some o.
Proof. destruct v; try done; intros _; by eexists. Qed.

Lemma operations_Ok r p uid seen seen' :
  _validate_operations r p uid seen = Ok seen' →
  ∃ op_id signature job edits cancellation notifications,
    operations_read r uid seen seen' op_id signature job edits cancellation notifications.
Proof.
  unfold _validate_operations. intros H. res_inv H. injection H as <-.
  repeat match goal with
  | E : (match dict_get "op_id" _ with _ => _ end) = _ |- _ => apply op_id_Ok in E as (o1 & R1 & K1 & D1)
  | E : (match dict_get "edit_operations" _ with _ => _ end) = _ |- _ =>
      apply edits_Ok in E as (o2 & R2 & M2 & K2 & D2)
  | E : (match dict_get "cancel_operation" _ with _ => _ end) = _ |- _ =>
      apply cancellation_Ok in E as (o3 & R3 & K3 & D3)
  | E : when_given (dict_get "notifications" _) _ = Ok ?u |- _ =>
      destruct u; apply given_notifications in E as (o4 & R4 & M4)
  | E : (match dict_get "job" _ with _ => _ end) = Ok ?u |- _ =>
      destruct u; apply job_Ok in E as (o5 & R5)
  end.
  read_inv. eexists o1, _, o5, o2, o3, o4. constructor; try done.
  - subst. rewrite K2. solve_Permutation.
  - tauto.
Qed.

Lemma in_two {A} (x a b : A) : x ∈ [a; b] → x = a ∨ x = b.
Proof. rewrite !elem_of_cons, elem_of_nil. tauto. Qed.

Lemma in_three {A} (x a b c : A) : x ∈ [a; b; c] → x = a ∨ x = b ∨ x = c.
Proof. rewrite !elem_of_cons, elem_of_nil. tauto. Qed.

(** What an accepted record satisfies beyond [reservation_ok]. *)
Record record_ranges (r : reservation) : Prop := RecordRanges {
  rr_uid : 0 ≤ r_uid r ≤ MAX_UID;
  rr_gpus : ∀ g, g ∈ r_gpus r → 0 ≤ g < MAX_GPU_COUNT;
}.

Lemma given_username r p n :
  when_given (dict_get "username" r) (λ v, _bounded_text v p n) = Ok tt →
  ∃ o, read_username (assoc_get "username" r) = Some o.
Proof.
  intros H. apply given_text in H as [o Ho]. revert Ho. unfold dict_get, read_username.
  destruct (assoc_get "username" r) as [[| | | |s| |]|]; simpl; try done; by eexists.
Qed.

Lemma reservation_Ok i v seen_ids seen_ids' seen seen' :
  _validate_reservation i v (seen_ids, seen) = Ok (seen_ids', seen') →
  ∃ r, read_object read_reservation v = Some r ∧ (reservation_ok r ∧ record_ranges r) ∧
    (seen_ids' = r_id r :: seen_ids ∧ r_id r ∉ seen_ids) ∧
    seen' ≡ₚ operation_keys r ++ seen ∧ (NoDup seen → NoDup seen').
Proof.
  intros H. unfold _validate_reservation in H. res_inv H. injection H as <- <-.
  match goal with E : _validate_gpus _ _ = Ok _ |- _ => apply gpus_Ok in E as (Hg & Hnd & Hne & Hr) end.
  match goal with E : _validate_operations _ _ _ _ = Ok _ |- _ =>
    apply operations_Ok in E as (o1 & o2 & o3 & o4 & o5 & o6 & []) end.
  match goal with E : when_given (dict_get "username" _) _ = Ok ?u |- _ =>
    destruct u; apply given_username in E as [name Hname] end.
  read_inv. bk_split.
  eexists. simpl. unfold read_reservation. read_rw. split; [reflexivity|]. simpl.
  split; [split; [constructor|]; simpl; try done|split; [done|]].
  - match goal with H : _ ∈ [_; _] |- _ => by apply in_two in H end.
  - match goal with H : _ ∈ [_; _; _] |- _ => by apply in_three in H end.
  - by split.
Qed.

Lemma extends_and {S T A} (e1 : S → A → S → Prop) (e2 : T → A → T → Prop) s l s' t t' :
  extends (λ p a q, e1 p.1 a q.1 ∧ e2 p.2 a q.2) (s, t) l (s', t') →
  extends e1 s l s' ∧ extends e2 t l t'.
Proof.
  revert s t. induction l as [|a l IH]; intros s t; simpl; [by intros [= -> ->]|].
  intros ([s1 t1] & [H1 H2] & H). apply IH in H as [H3 H4].
  simpl in *. split; [by exists s1|by exists t1].
Qed.

Lemma reservations_Ok l seen :
  each_from _validate_reservation 0 l ([], []) = Ok seen →
  ∃ rs, read_list (read_object read_reservation) (JList l) = Some rs ∧
    (∀ r, r ∈ rs → reservation_ok r ∧ record_ranges r) ∧
    NoDup (r_id <$> rs) ∧ NoDup (rs ≫= operation_keys).
Proof.
  destruct seen as [ids' ops']. intros Hl.
  apply (each_from_Ok _ (read_object read_reservation) (λ r, reservation_ok r ∧ record_ranges r)
    (λ p r q, (q.1 = r_id r :: p.1 ∧ r_id r ∉ p.1) ∧
      (q.2 ≡ₚ operation_keys r ++ p.2 ∧ (NoDup p.2 → NoDup q.2)))) in Hl as (rs & Hrs & Hok & Hext).
  2: { intros i x [s1 s2] [s1' s2'] Hx. by apply reservation_Ok in Hx. }
  apply (extends_and (λ s r s', s' = r_id r :: s ∧ r_id r ∉ s)
    (λ s r s', s' ≡ₚ operation_keys r ++ s ∧ (NoDup s → NoDup s'))) in Hext as [H1 H2].
  exists rs. split; [done|]. split; [done|]. split.
  - apply (extends_keys _ id (λ r, [r_id r])) in H1 as [Hp Hd].
    + simpl in Hp. rewrite app_nil_r in Hp.
      assert (E : (rs ≫= λ r, [r_id r]) = r_id <$> rs)
        by (clear; induction rs as [|r rs IH]; csimpl; [done|]; by rewrite IH).
      rewrite <- E, <- Hp. by apply Hd, NoDup_nil_2.
    + intros s r s' [-> Hn]. split; [done|]. intros Hnd. by constructor.
  - apply (extends_keys _ id operation_keys) in H2 as [Hp Hd]; [|done].
    simpl in Hp. rewrite app_nil_r in Hp. rewrite <- Hp. by apply Hd, NoDup_nil_2.
Qed.

(** ** An accepted document is a well-formed ledger *)

(** What the store hands to the scheduler. *)
Record document_ok (l : ledger) : Prop := DocumentOk {
  do_ledger : ledger_ok l;
  do_ranges : ∀ r, r ∈ l_reservations l → record_ranges r;
  do_operations : NoDup (l_reservations l ≫= operation_keys);
  do_announcements : ∀ a, a ∈ l_announcements l → announcement_ok a;
  do_announcement_ids : NoDup (an_id <$> l_announcements l);
  do_announcement_count : Z.of_nat (length (l_announcements l)) ≤ MAX_ANNOUNCEMENT_HISTORY;
}.

(** C24: a document the validator accepts stands for a well-formed ledger: every field the
    scheduler reads is there with its type, the records satisfy the record invariant,
    reservation identifiers, announcement identifiers and the operation identifiers of
    each user are distinct, user and GPU numbers are in range, and announcement windows
    are not empty. *)
Theorem validated_ledger_ok data :
  validate_ledger_document data = Ok tt →
  ∃ l, read_ledger data = Some l ∧ document_ok l.
Proof.
  intros H. unfold validate_ledger_document in H. destruct data as [| | | | | |data]; try done.
  destruct (match dict_get "version" data with JBool _ => _ | _ => _ end); [done|].
  destruct (dict_get "reservations" data) as [| | | | |rl|] eqn:Hr; try done. res_inv H.
  repeat match goal with u : unit |- _ => destruct u end.
  match goal with E : each_from _ _ _ _ = Ok _ |- _ =>
    apply reservations_Ok in E as (rs & Hrs & Hok & Hids & Hops) end.
  match goal with E : _validate_announcements _ = Ok _ |- _ =>
    apply announcements_Ok in E as (al & Hal & Haok & Haids & Hamax) end.
  read_inv. eexists. simpl. rewrite Hr, Hrs. simpl. read_rw. split; [reflexivity|].
  constructor; simpl; try done; [|by intros r [_ ?]%Hok].
  constructor; [done|]. by intros r [? _]%Hok.
Qed.

Definition example_document : json :=
  JObj [("version", JInt 1); ("reservations", JList [JObj [
    ("id", JStr "r1"); ("uid", JStr "1000"); ("username", JStr "ada"); ("mode", JStr "shared");
    ("status", JStr "active"); ("gpus", JList [JInt 0; JInt 2]);
    ("start_at", JStr "2024-01-01T10:00:00+00:00"); ("end_at", JStr "2024-01-01T11:00:00+00:00");
    ("expected_memory_mb", JInt 512); ("op_id", JStr "op1"); ("job", JNull);
    ("edit_operations", JList [JObj [("op_id", JStr "op2"); ("signature", JStr "s")]])]])].

Lemma validated_ledger_ok_witness :
  validate_ledger_document example_document = Ok tt ∧
  ∃ l, read_ledger example_document = Some l ∧ document_ok l.
Proof.
  split; [vm_compute; reflexivity|].
  apply (validated_ledger_ok example_document). vm_compute. reflexivity.
Defined.
