(* ===== verification/Announcements.v ===== *)
(** * Announcements: messages to all users ([src/src/bk/announcements.py])

    The administrator publishes, edits and archives announcements; users see the
    active ones. An announcement is never deleted: the history only grows, and
    an archived announcement does not change any more. *)

From S2P Require Import Prelude.
From S2P Require Import PyBase.
From S2P Require Import Timeparse.
From S2P Require Import Models.
From S2P Require Import Config.
From S2P Require Import LedgerSchema.

Definition ANNOUNCEMENT_LEVELS : list string := ["info"; "warning"; "critical"].

(** ** Reading *)

Definition priority (level : string) : Z :=
  if bool_decide (level = "critical") then 0
  else if bool_decide (level = "warning") then 1
  else if bool_decide (level = "info") then 2 else 3.

Definition visible (current : datetime) (a : announcement) : bool :=
  match an_archived a with
  | Some _ => false
  | None => (an_starts_at a <=? current) && (current <? an_expires_at a)
  end.

(** The sort key is [(priority, created_at)], the text of the time. *)
Definition announcement_leb (a b : announcement) : bool :=
  (priority (an_level a) <? priority (an_level b))
  || (priority (an_level a) =? priority (an_level b))
     && String.leb (to_iso (an_created_at a)) (to_iso (an_created_at b)).

Definition active_announcements (l : ledger) (now : datetime) : list announcement :=
  let current := replace_microsecond_0 now in
  sort_by announcement_leb (filter (λ a, visible current a = true) (l_announcements l)).

(** ** Checks *)

Definition _require_administrator (a : actor) : res unit :=
  if negb (a_uid a =? 0)
  then Raise (BookingError "permission denied: administrator announcement requires sudo")
  else Ok tt.

Definition _level (value : string) : res string :=
  let normalized := lower (strip value) in
  if bool_decide (normalized ∈ ANNOUNCEMENT_LEVELS) then Ok normalized
  else Raise (BookingError "announcement level must be info, warning, or critical").

Definition _message (value : string) : res string :=
  let normalized := strip value in
  if (slen normalized <? 1) || (1024 <? slen normalized)
  then Raise (BookingError "announcement message must contain 1-1024 characters")
  else if existsb is_control_line (chars normalized)
  then Raise (BookingError "announcement message contains control characters")
  else Ok normalized.

Definition valid_expiry (expires_in_seconds : Z) : res unit :=
  if (60 <=? expires_in_seconds) && (expires_in_seconds <=? 365 * 86400) then Ok tt
  else Raise (BookingError "announcement expiry must be between 1 minute and 365 days").

(** ** Operations *)

Record announcement_log := AnnouncementLog {
  al_timestamp : datetime;
  al_action : string;
  al_uid : Z;
  al_username : string;
  al_announcement : announcement;
  al_result : string;
}.

Definition _audit_log (action : string) (a : actor) (an : announcement) : M announcement_log :=
  ts ← utc_now; mret (AnnouncementLog ts action (a_uid a) (a_username a) an "ok").

Definition set_announcements (ans : list announcement) (l : ledger) : ledger :=
  Ledger (l_reservations l) (l_policy l) ans (l_last_transaction_id l).

(** What an announcement mutator returns: ledger, announcement, records, changed. *)
Definition announced : Type := ledger * announcement * list announcement_log * bool.

(** [datetime] addition. *)
Definition add_time (t : datetime) (seconds : Z) : res datetime :=
  date_in_range (t + seconds * usec).

Definition publish_mutate (a : actor) (an : announcement) (l : ledger) : M announced :=
  if MAX_ANNOUNCEMENT_HISTORY <=? Z.of_nat (length (l_announcements l))
  then raise (BookingError "announcement archive is full; back up server data before migrating history")
  else
    log ← _audit_log "announcement.publish" a an;
    mret (set_announcements (l_announcements l ++ [an]) l, an, [log], true).

Definition publish_announcement (a : actor) (message level : string) (expires_in_seconds : Z)
    (starts_at : option datetime) (l : ledger) : M announced :=
  _ ← lift (_require_administrator a);
  message ← lift (_message message);
  level ← lift (_level level);
  _ ← lift (valid_expiry expires_in_seconds);
  now ← utc_now;
  let starts := replace_microsecond_0 (default now starts_at) in
  expires ← lift (add_time starts expires_in_seconds);
  id ← uuid4;
  publish_mutate a (Announcement id level message now None starts expires (a_uid a) (a_username a) None) l.

(** The one announcement whose identifier begins with the token. *)
Definition matching (token : string) (l : ledger) : res announcement :=
  match filter (λ an, String.prefix token (an_id an) = true) (l_announcements l) with
  | [] => Raise (BookingError "announcement not found")
  | [an] => Ok an
  | _ => Raise (BookingError "announcement ID prefix is ambiguous")
  end.

(** The matching announcement is changed in place. *)
Definition replace_matching (token : string) (an : announcement) (l : ledger) : ledger :=
  set_announcements
    (map (λ old, if String.prefix token (an_id old) then an else old) (l_announcements l)) l.

Definition archive_announcement (a : actor) (token : string) (l : ledger) : M announced :=
  _ ← lift (_require_administrator a);
  target ← lift (matching token l);
  match an_archived target with
  | Some _ => mret (l, target, [], false)
  | None =>
      now ← utc_now;
      let target := Announcement (an_id target) (an_level target) (an_message target)
                      (an_created_at target) (an_updated_at target) (an_starts_at target)
                      (an_expires_at target) (an_actor_uid target) (an_actor_username target)
                      (Some (now, a_uid a, a_username a)) in
      log ← _audit_log "announcement.archive" a target;
      mret (replace_matching token target l, target, [log], true)
  end.

Definition remove_announcement := archive_announcement.

Definition optional {A B} (check : A → res B) (o : option A) : res (option B) :=
  match o with None => Ok None | Some a => b ← check a; Ok (Some b) end.

Definition edit_mutate_announcement (a : actor) (token : string) (message level : option string)
    (expires_in_seconds : option Z) (starts_at expires_at : option datetime) (l : ledger)
    : M announced :=
  target ← lift (matching token l);
  match an_archived target with
  | Some _ => raise (BookingError "archived announcement cannot be edited")
  | None =>
      let starts := default (an_starts_at target) (replace_microsecond_0 <$> starts_at) in
      expires ← match expires_in_seconds with
                | Some seconds =>
                    now ← utc_now; lift (add_time now seconds)
                | None => mret (default (an_expires_at target) (replace_microsecond_0 <$> expires_at))
                end;
      if expires <=? starts
      then raise (BookingError "announcement deadline must be after its start time")
      else if 365 * 86400 * usec <? expires - starts
      then raise (BookingError "announcement window must not exceed 365 days")
      else
        now ← utc_now;
        let target := Announcement (an_id target) (default (an_level target) level)
                        (default (an_message target) message) (an_created_at target) (Some now)
                        starts expires (an_actor_uid target) (an_actor_username target) None in
        log ← _audit_log "announcement.edit" a target;
        mret (replace_matching token target l, target, [log], true)
  end.

Definition edit_announcement (a : actor) (token : string) (message level : option string)
    (expires_in_seconds : option Z) (starts_at expires_at : option datetime) (l : ledger)
    : M announced :=
  _ ← lift (_require_administrator a);
  message ← lift (optional _message message);
  level ← lift (optional _level level);
  _ ← lift (optional valid_expiry expires_in_seconds);
  edit_mutate_announcement a token message level expires_in_seconds starts_at expires_at l.

(** ** The history of announcements *)

(** An announcement as the operations make it. *)
Record notice_ok (a : announcement) : Prop := NoticeOk {
  no_level : an_level a ∈ ANNOUNCEMENT_LEVELS;
  no_message : 1 ≤ slen (an_message a) ≤ 1024;
  no_control : existsb is_control_line (chars (an_message a)) = false;
  no_window : an_starts_at a < an_expires_at a;
  no_length : an_expires_at a - an_starts_at a ≤ 365 * 86400 * usec;
}.

(** A later state of an announcement: its origin is kept, and an archived one does not
    change. *)
Definition later_state (old new : announcement) : Prop :=
  an_id new = an_id old ∧ an_created_at new = an_created_at old ∧
  an_actor_uid new = an_actor_uid old ∧ an_actor_username new = an_actor_username old ∧
  (an_archived old ≠ None → new = old).

(** A later history: nothing is removed or reordered. *)
Definition extends_history (old new : list announcement) : Prop :=
  ∃ kept added, new = kept ++ added ∧ Forall2 later_state old kept.

Record history_ok (ans : list announcement) : Prop := HistoryOk {
  ho_each : Forall notice_ok ans;
  ho_ids : NoDup (map an_id ans);
  ho_count : Z.of_nat (length ans) ≤ MAX_ANNOUNCEMENT_HISTORY;
}.

Inductive notice_call :=
  | Publish (message level : string) (expires_in_seconds : Z) (starts_at : option datetime)
  | Archive (token : string)
  | EditNotice (token : string) (message level : option string) (expires_in_seconds : option Z)
      (starts_at expires_at : option datetime).

Definition run_notice (a : actor) (k : notice_call) (l : ledger) : M announced :=
  match k with
  | Publish message level seconds starts => publish_announcement a message level seconds starts l
  | Archive token => archive_announcement a token l
  | EditNotice token message level seconds starts expires =>
      edit_announcement a token message level seconds starts expires l
  end.

(** A call in a transaction: without a change, or with an error, the ledger stays. *)
Definition call_notice (k : actor * notice_call) (s : ledger * world) : ledger * world :=
  match run_notice k.1 k.2 s.1 s.2 with
  | (Ok (l', _, _, true), w') => (l', w')
  | (_, w') => (s.1, w')
  end.

#[export] Instance later_state_refl : Reflexive later_state.
Proof. by intros a. Qed.

#[export] Instance later_state_trans : Transitive later_state.
Proof.
  intros a b c (H1 & H2 & H3 & H4 & H5) (K1 & K2 & K3 & K4 & K5).
  split; [congruence|]. split; [congruence|]. split; [congruence|]. split; [congruence|].
  intros Ha. rewrite <- (H5 Ha) in Ha |- *. by apply K5.
Qed.

Lemma extends_refl ans : extends_history ans ans.
Proof. exists ans, []. rewrite app_nil_r. split; [done|]. reflexivity. Qed.

Lemma extends_trans a b c : extends_history a b → extends_history b c → extends_history a c.
Proof.
  intros (k1 & a1 & -> & H1) (k2 & a2 & -> & H2).
  apply Forall2_app_inv_l in H2 as (k3 & a3 & H3 & _ & ->). exists k3, (a3 ++ a2).
  rewrite (assoc_L (++)). split; [done|]. by etrans.
Qed.

Lemma message_Ok v s : _message v = Ok s → 1 ≤ slen s ≤ 1024 ∧ existsb is_control_line (chars s) = false.
Proof.
  unfold _message. destruct (_ || _) eqn:E; [done|]. destruct (existsb _ _) eqn:Ec; [done|].
  intros [= <-]. bk_split. split; [lia|done].
Qed.

Lemma level_Ok v s : _level v = Ok s → s ∈ ANNOUNCEMENT_LEVELS.
Proof. unfold _level. case_bool_decide; [|done]. by intros [= <-]. Qed.

Lemma matching_Ok token l an :
  matching token l = Ok an →
  an ∈ l_announcements l ∧ String.prefix token (an_id an) = true ∧
  ∀ old, old ∈ l_announcements l → String.prefix token (an_id old) = true → old = an.
Proof.
  unfold matching. destruct (filter _ _) as [|x [|? ?]] eqn:E; [done| |done]. intros [= ->].
  assert (H : ∀ old, old ∈ [an] ↔ String.prefix token (an_id old) = true ∧ old ∈ l_announcements l)
    by (intros old; by rewrite <- E, list_elem_of_filter).
  destruct (proj1 (H an)) as [Hp Hin]; [by left|]. split_and!; [done..|].
  intros old Ho Hpo. apply list_elem_of_singleton, H. by split.
Qed.

(** Replacing the matching announcement by a later state of it. *)
Lemma replace_matching_ok token l an an' :
  matching token l = Ok an → later_state an an' → notice_ok an' → history_ok (l_announcements l) →
  extends_history (l_announcements l) (l_announcements (replace_matching token an' l)) ∧
  history_ok (l_announcements (replace_matching token an' l)).
Proof.
  intros (Hin & Hp & Huniq)%matching_Ok Hl Hok [He Hn Hc]. cbn.
  set (f := λ old, if String.prefix token (an_id old) then an' else old).
  assert (Hf : ∀ old, old ∈ l_announcements l → later_state old (f old) ∧ (notice_ok old → notice_ok (f old))).
  { intros old Ho. unfold f. destruct (String.prefix token (an_id old)) eqn:E; [|by split].
    by rewrite (Huniq old Ho E). }
  assert (Hids : map an_id (map f (l_announcements l)) = map an_id (l_announcements l)).
  { rewrite map_map. apply map_ext_in. intros old Ho%list_elem_of_In. by destruct (Hf old Ho) as [(-> & _) _]. }
  split.
  - exists (map f (l_announcements l)), []. rewrite app_nil_r. split; [done|]. clear -Hf.
    induction (l_announcements l) as [|x xs IH]; constructor; [apply Hf; left|].
    apply IH. intros old Ho. apply Hf. by right.
  - split; [|by rewrite Hids|by rewrite length_map].
    apply Forall_forall. intros x (old & -> & Ho)%list_elem_of_fmap. apply Hf; [done|].
    rewrite Forall_forall in He. by apply He.
Qed.

Lemma audit_log_run action a an w :
  ∃ log w', _audit_log action a an w = (Ok log, w').
Proof. by eexists _, _. Qed.

(** Publishing adds one announcement; its identifier is drawn. *)
Lemma publish_run a message level seconds starts l w l' an logs changed w' :
  publish_announcement a message level seconds starts l w = (Ok (l', an, logs, changed), w') →
  l' = set_announcements (l_announcements l ++ [an]) l ∧ changed = true ∧ notice_ok an ∧
  an_archived an = None ∧ a_uid a = 0 ∧ length logs = 1%nat ∧
  Z.of_nat (length (l_announcements l)) < MAX_ANNOUNCEMENT_HISTORY ∧
  ∃ n, (w_draws w ≤ n)%nat ∧ an_id an = w_uuid w n ∧ later w w' ∧ (S n ≤ w_draws w')%nat.
Proof.
  unfold publish_announcement. rewrite M_bind_Ok. intros ([] & w1 & [Hadm <-]%lift_Ok & H).
  apply M_bind_Ok in H as (msg & w2 & [Hmsg <-]%lift_Ok & H).
  apply M_bind_Ok in H as (lev & w3 & [Hlev <-]%lift_Ok & H).
  apply M_bind_Ok in H as ([] & w4 & [Hexp <-]%lift_Ok & H).
  apply M_bind_Ok in H as (now & w5 & [-> ->]%clock_now_Ok & H).
  apply M_bind_Ok in H as (expires & w6 & [Hadd <-]%lift_Ok & H).
  apply M_bind_Ok in H as (id & w7 & [-> ->]%uuid4_Ok & H).
  unfold publish_mutate in H. cbn [w_clock w_uuid w_reads w_draws] in H.
  destruct (Z.leb_spec MAX_ANNOUNCEMENT_HISTORY (Z.of_nat (length (l_announcements l)))); [done|].
  apply M_bind_Ok in H as (log & w8 & Hlog & H). apply M_ret_Ok in H as [[= <- <- <- <-] Hw8].
  unfold _audit_log in Hlog. apply M_bind_Ok in Hlog as (ts & w9 & [_ Hw9]%clock_now_Ok & Hlog).
  apply M_ret_Ok in Hlog as [_ Hw]. subst.
  apply message_Ok in Hmsg as [Hm1 Hm2]. apply level_Ok in Hlev.
  unfold _require_administrator in Hadm. destruct (Z.eqb_spec (a_uid a) 0); [|done].
  unfold valid_expiry in Hexp. destruct (_ && _) eqn:Ee; [|done]. bk_split.
  apply date_in_range_Ok in Hadd as [-> _].
  split_and!; try done; [constructor; cbn; unfold usec in *; try done; lia|].
  exists (w_draws w). cbn. split_and!; [lia|done| |lia]. unfold later. cbn. split_and!; try done; lia.
Qed.

Lemma forward_audit_log action a an : forward (_audit_log action a an).
Proof. unfold _audit_log. apply forward_bind; auto with bk. Qed.

#[export] Hint Resolve forward_audit_log : bk.

Lemma archive_run a token l w l' an logs changed w' :
  archive_announcement a token l w = (Ok (l', an, logs, changed), w') →
  a_uid a = 0 ∧ ∃ target, matching token l = Ok target ∧ later_state target an ∧
    (notice_ok target → notice_ok an) ∧ an_archived an ≠ None ∧
    (l' = l ∧ changed = false ∨ l' = replace_matching token an l ∧ changed = true).
Proof.
  unfold archive_announcement. rewrite M_bind_Ok. intros ([] & w1 & [Hadm <-]%lift_Ok & H).
  apply M_bind_Ok in H as (target & w2 & [Hm <-]%lift_Ok & H).
  assert (a_uid a = 0) by (unfold _require_administrator in Hadm; by destruct (Z.eqb_spec (a_uid a) 0)).
  split; [done|]. exists target. destruct (an_archived target) as [arch|] eqn:Ea.
  - apply M_ret_Ok in H as [[= <- <- <- <-] _]. split_and!; [done|done|done|by rewrite Ea|by left].
  - apply M_bind_Ok in H as (now & w3 & _ & H). apply M_bind_Ok in H as (log & w4 & _ & H).
    apply M_ret_Ok in H as [[= <- <- <- <-] _]. split_and!; [done|by split_and!| |done|by right].
    by intros [? ? ? ? ?]; constructor.
Qed.

Lemma edit_run a token message level seconds starts expires l w l' an logs changed w' :
  edit_announcement a token message level seconds starts expires l w = (Ok (l', an, logs, changed), w') →
  a_uid a = 0 ∧ ∃ target, matching token l = Ok target ∧ later_state target an ∧
    (notice_ok target → notice_ok an) ∧ an_archived an = None ∧
    l' = replace_matching token an l ∧ changed = true.
Proof.
  unfold edit_announcement. rewrite M_bind_Ok. intros ([] & w1 & [Hadm <-]%lift_Ok & H).
  apply M_bind_Ok in H as (msg & w2 & [Hmsg <-]%lift_Ok & H).
  apply M_bind_Ok in H as (lev & w3 & [Hlev <-]%lift_Ok & H).
  apply M_bind_Ok in H as (ex & w4 & [Hexp <-]%lift_Ok & H).
  assert (a_uid a = 0) by (unfold _require_administrator in Hadm; by destruct (Z.eqb_spec (a_uid a) 0)).
  unfold edit_mutate_announcement in H. apply M_bind_Ok in H as (target & w5 & [Hm <-]%lift_Ok & H).
  split; [done|]. exists target. destruct (an_archived target) eqn:Ea; [done|].
  cbv zeta in H. apply M_bind_Ok in H as (until & w6 & _ & H).
  destruct (Z.leb_spec until (default (an_starts_at target) (replace_microsecond_0 <$> starts))); [done|].
  destruct (Z.ltb_spec (365 * 86400 * usec) (until - default (an_starts_at target) (replace_microsecond_0 <$> starts)));
    [done|].
  apply M_bind_Ok in H as (now & w7 & _ & H). apply M_bind_Ok in H as (log & w8 & _ & H).
  apply M_ret_Ok in H as [[= <- <- <- <-] _]. split_and!; [done|by split_and!| |done|done|done].
  assert (Hmsg' : ∀ m, msg = Some m → 1 ≤ slen m ≤ 1024 ∧ existsb is_control_line (chars m) = false).
  { intros m ->. destruct message as [v|]; [|done]. cbn in Hmsg. destruct (_message v) eqn:E; [|done].
    injection Hmsg as ->. by apply (message_Ok v). }
  assert (Hlev' : ∀ m, lev = Some m → m ∈ ANNOUNCEMENT_LEVELS).
  { intros m ->. destruct level as [v|]; [|done]. cbn in Hlev. destruct (_level v) eqn:E; [|done].
    injection Hlev as ->. by apply (level_Ok v). }
  intros [K1 K2 K3 K4 K5]. constructor; cbn; [destruct lev; [by apply Hlev'|done]|..|done|lia];
    destruct msg; try done; by apply Hmsg'.
Qed.

Lemma forward_run_notice a k l : forward (run_notice a k l).
Proof.
  destruct k; cbn [run_notice]; unfold publish_announcement, archive_announcement, edit_announcement,
    publish_mutate, edit_mutate_announcement, raise;
  repeat first [ apply forward_bind | match goal with |- ∀ _, _ => intro end | solve [auto with bk]
               | case_match | (intros ?; reflexivity) ].
Qed.

(** Identifiers still to be drawn are not in the history. *)
Definition ids_fresh (ans : list announcement) (w : world) : Prop :=
  (∀ i j, w_uuid w i = w_uuid w j → i = j) ∧
  ∀ a n, a ∈ ans → (w_draws w ≤ n)%nat → an_id a ≠ w_uuid w n.

Lemma ids_fresh_later ans w w' : later w w' → ids_fresh ans w → ids_fresh ans w'.
Proof.
  intros (_ & Hu & _ & Hd) [Hi Hf]. rewrite <- Hu in Hi.
  split; [by intros i j E; apply Hi; rewrite Hu in *|]. intros a n Ha Hn. rewrite Hu. apply Hf; [done|lia].
Qed.

Lemma ids_fresh_ids ans ans' w : map an_id ans' = map an_id ans → ids_fresh ans w → ids_fresh ans' w.
Proof.
  intros E [Hi Hf]. split; [done|]. intros a n Ha Hn.
  assert (Hin : an_id a ∈ map an_id ans) by (rewrite <- E; apply list_elem_of_fmap; eauto).
  apply list_elem_of_fmap in Hin as (b & -> & Hb). by apply Hf.
Qed.

Lemma extends_ids old new :
  extends_history old new → length new = length old → map an_id new = map an_id old.
Proof.
  intros (kept & added & -> & H) Hl. pose proof (Forall2_length _ _ _ H) as Hk. rewrite length_app in Hl.
  assert (added = []) as -> by (destruct added; [done|simpl in Hl; lia]). rewrite app_nil_r.
  clear Hl Hk. induction H as [|a b ? ? (Hid & _) _ IH]; [done|]. cbn [map]. by rewrite Hid, IH.
Qed.

(** One call keeps the history and everything else of the ledger. *)
Lemma call_notice_step k l w :
  history_ok (l_announcements l) → ids_fresh (l_announcements l) w →
  let '(l', w') := call_notice k (l, w) in
  extends_history (l_announcements l) (l_announcements l') ∧ history_ok (l_announcements l') ∧
  ids_fresh (l_announcements l') w' ∧ l' = set_announcements (l_announcements l') l ∧
  (a_uid k.1 ≠ 0 → l' = l).
Proof.
  intros Hok Hfr. unfold call_notice. cbn [fst snd].
  pose proof (forward_run_notice k.1 k.2 l w) as Hw.
  assert (Hsame : ∀ w', later w w' → extends_history (l_announcements l) (l_announcements l) ∧
    history_ok (l_announcements l) ∧ ids_fresh (l_announcements l) w' ∧
    l = set_announcements (l_announcements l) l ∧ (a_uid k.1 ≠ 0 → l = l)).
  { intros w' Hw'. split_and!; [apply extends_refl|done|by eapply ids_fresh_later|by destruct l|done]. }
  assert (Hreplace : ∀ token target an w', later w w' → matching token l = Ok target →
    later_state target an → (notice_ok target → notice_ok an) → a_uid k.1 = 0 →
    let l' := replace_matching token an l in
    extends_history (l_announcements l) (l_announcements l') ∧ history_ok (l_announcements l') ∧
    ids_fresh (l_announcements l') w' ∧ l' = set_announcements (l_announcements l') l ∧
    (a_uid k.1 ≠ 0 → l' = l)).
  { intros token target an w' Hw' Hm Hs Hn Hu l'. pose proof (matching_Ok _ _ _ Hm) as (Hin & _).
    destruct (replace_matching_ok token l target an Hm Hs) as [He Ho]; [|done|].
    { apply Hn. destruct Hok as [He _ _]. rewrite Forall_forall in He. by apply He. }
    split_and!; [done..| |done|by intros ?]. eapply ids_fresh_ids; [|by eapply ids_fresh_later].
    apply extends_ids; [done|]. cbn. by rewrite length_map. }
  destruct (run_notice k.1 k.2 l w) as [[[[[l' an] logs] [|]]|e] w'] eqn:E; cbn [snd] in Hw; [|by apply Hsame..].
  destruct k as [a [message level seconds starts|token|token message level seconds starts expires]];
    cbn [run_notice fst snd] in *.
  - apply publish_run in E as (-> & _ & Hn & _ & Hu & _ & Hlt & n & Hdn & Hid & _ & Hdn').
    destruct Hok as [He Hd Hc], Hfr as [Hi Hf]. cbn. split_and!; [..|done|by intros ?].
    + exists (l_announcements l), [an]. split; [done|reflexivity].
    + split; [by apply Forall_app; split; [|constructor]| |rewrite length_app; simpl; lia].
      rewrite map_app. apply NoDup_app. split_and!; [done| |apply NoDup_singleton].
      intros i (b & -> & Hb)%list_elem_of_fmap Hx%list_elem_of_singleton. rewrite Hid in Hx. by eapply Hf.
    + destruct Hw as (_ & Huu & _ & Hd'). split; [by intros i j; rewrite Huu; apply Hi|].
      intros b m [Hb|Hb%list_elem_of_singleton]%elem_of_app Hm; rewrite Huu; [apply Hf; [done|lia]|].
      subst b. rewrite Hid. intros Hx. apply Hi in Hx. lia.
  - apply archive_run in E as (Hu & target & Hm & Hs & Hn & _ & [[_ ?]|[-> _]]); [done|]. by eapply Hreplace.
  - apply edit_run in E as (Hu & target & Hm & Hs & Hn & _ & -> & _). by eapply Hreplace.
Qed.

Definition run_notices (calls : list (actor * notice_call)) (s : ledger * world) : ledger * world :=
  foldl (λ s k, call_notice k s) s calls.

(** C40: announcements are an append-only history. After any sequence of publications, edits
    and archivings, by anyone and with any arguments: no announcement was removed or
    reordered, each kept its identifier, author and creation time, an archived one did not
    change any more; identifiers stay distinct, the archive stays within its limit, every
    text and window is within its bounds; nothing else of the ledger changed, and nothing
    at all when no caller was the administrator. *)
Theorem announcements_history calls l w :
  history_ok (l_announcements l) → ids_fresh (l_announcements l) w →
  let l' := (run_notices calls (l, w)).1 in
  extends_history (l_announcements l) (l_announcements l') ∧ history_ok (l_announcements l') ∧
  l' = set_announcements (l_announcements l') l ∧
  ((∀ k, k ∈ calls → a_uid k.1 ≠ 0) → l' = l).
Proof.
  cbv zeta. unfold run_notices. revert l w. induction calls as [|k calls IH]; intros l w Hok Hfr.
  { cbn. split_and!; [apply extends_refl|done|by destruct l|done]. }
  cbn [foldl]. pose proof (call_notice_step k l w Hok Hfr) as H.
  destruct (call_notice k (l, w)) as [l1 w1]. destruct H as (He & Hok1 & Hfr1 & Hl1 & Hu1).
  destruct (IH l1 w1 Hok1 Hfr1) as (He2 & Hok2 & Hl2 & Hu2).
  split_and!; [by eapply extends_trans|done| |].
  - rewrite Hl2 at 1. rewrite Hl1. done.
  - intros Hall. rewrite Hu2; [apply Hu1, Hall; left|]. intros k' Hk'. apply Hall. by right.
Qed.

(** What users see at a time: exactly the announcements that are not archived and whose
    window holds the current second, each once, the most urgent level first. *)
Theorem active_announcements_spec l now :
  active_announcements l now ≡ₚ
    filter (λ a, an_archived a = None ∧
                 an_starts_at a ≤ replace_microsecond_0 now < an_expires_at a) (l_announcements l) ∧
  StronglySorted (λ a b, priority (an_level a) ≤ priority (an_level b)) (active_announcements l now).
Proof.
  split.
  - unfold active_announcements. rewrite sort_by_perm. apply reflexive_eq, filter_ext_in.
    intros a _. unfold visible. destruct (an_archived a); [naive_solver|].
    rewrite andb_true_iff, Z.leb_le, Z.ltb_lt. naive_solver.
  - apply sort_by_sorted_rel; [..|lia]; unfold announcement_leb; intros x y H.
    + apply orb_true_iff in H as [H|[H _]%andb_true_iff]; [apply Z.ltb_lt in H|apply Z.eqb_eq in H]; lia.
    + apply orb_false_iff in H as [H _]. apply Z.ltb_ge in H. lia.
Qed.

Lemma demo_ids (i j : nat) : "notice-" +:+ pretty i = "notice-" +:+ pretty j → i = j.
Proof. intros E. by apply (inj (String.append "notice-")), (inj pretty) in E. Qed.

(** Two announcements, an edit, an attempt of a user, an archiving. *)
Lemma announcements_history_witness :
  let w := World (λ n, Z.of_nat n * 60000000) (λ n, "notice-" +:+ pretty n) 0 0 in
  let root := Actor 0 "root" in
  let calls := [(root, Publish " Downtime " "Warning" 3600 None);
                (root, Publish "Disks are full" "critical" 600 None);
                (root, EditNotice "notice-0" (Some "Longer downtime") None (Some 7200) None None);
                (Actor 1000 "eve", Archive "notice-1");
                (root, Archive "notice-1")] in
  let l := Ledger [] None [] None in
  let l' := (run_notices calls (l, w)).1 in
  map (λ a, (an_message a, bool_decide (an_archived a = None))) (l_announcements l')
    = [("Longer downtime", true); ("Disks are full", false)] ∧
  extends_history (l_announcements l) (l_announcements l') ∧ history_ok (l_announcements l') ∧
  l' = set_announcements (l_announcements l') l.
Proof.
  cbv zeta. split; [by vm_compute|].
  match goal with |- context [run_notices ?c (?l, ?w)] =>
    destruct (announcements_history c l w) as (H1 & H2 & H3 & _) end.
  - split; [constructor|constructor|done].
  - split; [|by intros a n ?%not_elem_of_nil]. intros i j. cbn. apply demo_ids.
  - exact (conj H1 (conj H2 H3)).
Defined.
