(* ===== verification/Documents.v ===== *)
(** * Documents: the ledger as a JSON file

    The store writes a ledger with its members in the order of their keys. This
    file shows that the schema does not depend on that order: the document read
    back from a written ledger is accepted exactly when the ledger was. *)

From S2P Require Import Prelude.
From S2P Require Import PyBase.
From S2P Require Import Json.
From S2P Require Import Timeparse.
From S2P Require Import Models.
From S2P Require Import Policy.
From S2P Require Import LedgerSchema.

(** ** Checks do not see the order of members *)

Lemma bind_ext {A B} (m m' : res A) (f f' : A → res B) :
  m = m' → (∀ a, f a = f' a) → m ≫= f = m' ≫= f'.
Proof. intros -> H. destruct m'; simpl; [apply H|done]. Qed.

Lemma bounded_text_canonical v p n : _bounded_text (canonical v) p n = _bounded_text v p n.
Proof. by destruct v. Qed.

Lemma multiline_canonical v p n : _bounded_multiline_text (canonical v) p n = _bounded_multiline_text v p n.
Proof. by destruct v. Qed.

Lemma timestamp_canonical v p : _timestamp (canonical v) p = _timestamp v p.
Proof. by destruct v. Qed.

Lemma uid_canonical v p : _uid (canonical v) p = _uid v p.
Proof. by destruct v. Qed.

Lemma choice_canonical v choices msg :
  require_choice (canonical v) choices msg = require_choice v choices msg.
Proof. by destruct v. Qed.

Lemma positive_canonical v p : _optional_positive_integer (canonical v) p = _optional_positive_integer v p.
Proof. by destruct v. Qed.

Lemma when_given_canonical {A} v (f g : json → res A) :
  (v ≠ JNull → f (canonical v) = g v) → when_given (canonical v) f = when_given v g.
Proof.
  intros H. destruct v; try done; unfold when_given; cbn [canonical] in *; by rewrite H.
Qed.

Lemma each_from_canonical {S} (body : Z → json → S → res S) i l s :
  (∀ i v s, v ∈ l → body i (canonical v) s = body i v s) →
  each_from body i (map canonical l) s = each_from body i l s.
Proof.
  revert i s. induction l as [|v l IH]; intros i s H; [done|]. cbn [map each_from].
  apply bind_ext; [apply H; left|]. intros s'. apply IH. intros j v' s'' Hv. apply H. by right.
Qed.

Lemma state_gpus_canonical p i l : state_gpus p i (map canonical l) = state_gpus p i l.
Proof.
  revert i. induction l as [|v l IH]; intros i; [done|]. destruct v; try done. cbn.
  destruct (_ && _); [by rewrite IH|done].
Qed.

Lemma record_gpus_canonical p i l : record_gpus p i (map canonical l) = record_gpus p i l.
Proof.
  revert i. induction l as [|v l IH]; intros i; [done|]. destruct v; try done. cbn.
  destruct (_ || _); [done|by rewrite IH].
Qed.

Lemma map_nil_decide (l : list json) : bool_decide (map canonical l = []) = bool_decide (l = []).
Proof. by destruct l. Qed.

Lemma readable_member k kvs : readable (JObj kvs) → readable (dict_get k kvs).
Proof.
  rewrite readable_obj. intros [Hd Hr]. unfold dict_get.
  destruct (assoc_get k kvs) as [v|] eqn:E; [|done]. apply assoc_get_Some in E; [|done].
  rewrite Forall_forall in Hr. by apply (Hr (k, v)).
Qed.

Lemma readable_keys kvs : readable (JObj kvs) → NoDup kvs.*1.
Proof. rewrite readable_obj. by intros [? _]. Qed.

Lemma canonical_obj kvs : canonical (JObj kvs) = JObj (canonical_members kvs).
Proof. done. Qed.

Lemma canonical_list l : canonical (JList l) = JList (map canonical l).
Proof. done. Qed.

(** Push [canonical] through a check, member by member. *)
Ltac canon Hd :=
  repeat first
    [ reflexivity
    | progress rewrite ?(dict_get_canonical _ _ Hd), ?bounded_text_canonical, ?multiline_canonical,
        ?timestamp_canonical, ?uid_canonical, ?choice_canonical, ?positive_canonical
    | apply when_given_canonical; intros ?
    | apply bind_ext; [|intros ?]
    | match goal with |- (if ?b then _ else _) = (if ?b then _ else _) => destruct b end ].

Lemma edit_state_canonical v p :
  readable v → _validate_edit_state (canonical v) p = _validate_edit_state v p.
Proof.
  destruct v as [| | | | |l|kvs]; try done. intros Hr. pose proof (readable_keys _ Hr) as Hd.
  rewrite canonical_obj. cbn [_validate_edit_state]. canon Hd.
  destruct (dict_get "gpus" kvs); try done. cbn [canonical].
  rewrite map_nil_decide, length_map. by destruct (_ || _); [|rewrite state_gpus_canonical].
Qed.

Lemma edit_operation_canonical uid p i v seen :
  readable v → _validate_edit_operation uid p i (canonical v) seen = _validate_edit_operation uid p i v seen.
Proof.
  destruct v as [| | | | |l|kvs]; try done. intros Hr. pose proof (readable_keys _ Hr) as Hd.
  rewrite canonical_obj. cbn [_validate_edit_operation]. canon Hd.
  all: by apply edit_state_canonical, readable_member.
Qed.

Lemma edit_operations_canonical v p uid seen :
  readable v → _validate_edit_operations (canonical v) p uid seen = _validate_edit_operations v p uid seen.
Proof.
  destruct v as [| | | | |l|kvs]; try done. intros Hr%readable_list. rewrite canonical_list.
  unfold _validate_edit_operations. rewrite length_map. destruct (_ <? _); [done|].
  apply each_from_canonical. intros i v s Hv. rewrite Forall_forall in Hr.
  by apply edit_operation_canonical, Hr.
Qed.

Lemma cancel_operation_canonical v p uid seen :
  readable v → _validate_cancel_operation (canonical v) p uid seen = _validate_cancel_operation v p uid seen.
Proof.
  destruct v as [| | | | |l|kvs]; try done. intros Hr. pose proof (readable_keys _ Hr) as Hd.
  rewrite canonical_obj. cbn [_validate_cancel_operation]. canon Hd.
Qed.

Lemma notification_canonical p i v seen :
  readable v → _validate_notification p i (canonical v) seen = _validate_notification p i v seen.
Proof.
  destruct v as [| | | | |l|kvs]; try done. intros Hr. pose proof (readable_keys _ Hr) as Hd.
  rewrite canonical_obj. cbn [_validate_notification]. canon Hd.
Qed.

Lemma notifications_canonical v p :
  readable v → _validate_notifications (canonical v) p = _validate_notifications v p.
Proof.
  destruct v as [| | | | |l|kvs]; try done. intros Hr%readable_list. rewrite canonical_list.
  unfold _validate_notifications. rewrite length_map. destruct (_ <? _); [done|].
  apply bind_ext; [|done]. apply each_from_canonical. intros i v s Hv. rewrite Forall_forall in Hr.
  by apply notification_canonical, Hr.
Qed.

Lemma announcement_canonical i v seen :
  readable v → _validate_announcement i (canonical v) seen = _validate_announcement i v seen.
Proof.
  destruct v as [| | | | |l|kvs]; try done. intros Hr. pose proof (readable_keys _ Hr) as Hd.
  rewrite canonical_obj. cbn [_validate_announcement]. canon Hd.
  assert (Hn : ∀ v (m : res unit), match canonical v with JNull => Ok tt | _ => m end
                                   = match v with JNull => Ok tt | _ => m end) by by intros [].
  destruct (dict_get "archived_at" kvs); done.
Qed.

Lemma announcements_canonical v :
  readable v → _validate_announcements (canonical v) = _validate_announcements v.
Proof.
  destruct v as [| | | | |l|kvs]; try done. intros Hr%readable_list. rewrite canonical_list.
  unfold _validate_announcements. rewrite length_map. destruct (_ <? _); [done|].
  apply bind_ext; [|done]. apply each_from_canonical. intros i v s Hv. rewrite Forall_forall in Hr.
  by apply announcement_canonical, Hr.
Qed.

Lemma gpus_canonical v p : _validate_gpus (canonical v) p = _validate_gpus v p.
Proof.
  destruct v as [| | | | |l|kvs]; try done. rewrite canonical_list. unfold _validate_gpus.
  rewrite map_nil_decide, length_map. case_bool_decide; [done|]. destruct (_ <? _); [done|].
  by rewrite record_gpus_canonical.
Qed.

(** A check that null passes, on a member that may be printed. *)
Lemma unless_null_canonical {A} v (a : A) (f : json → A) :
  f (canonical v) = f v →
  match canonical v with
  | JNull => a | JBool x => f (JBool x) | JInt x => f (JInt x) | JFloat x => f (JFloat x)
  | JStr x => f (JStr x) | JList x => f (JList x) | JObj x => f (JObj x)
  end =
  match v with
  | JNull => a | JBool x => f (JBool x) | JInt x => f (JInt x) | JFloat x => f (JFloat x)
  | JStr x => f (JStr x) | JList x => f (JList x) | JObj x => f (JObj x)
  end.
Proof. by destruct v. Qed.

Lemma operations_canonical kvs p uid seen :
  readable (JObj kvs) →
  _validate_operations (canonical_members kvs) p uid seen = _validate_operations kvs p uid seen.
Proof.
  intros Hr. pose proof (readable_keys _ Hr) as Hd. unfold _validate_operations. canon Hd.
  - apply (unless_null_canonical _ _ (λ v, operation_id ← _bounded_text v (p +:+ ".op_id") 128;
      _register_operation_id uid operation_id (p +:+ ".op_id") seen)).
    by rewrite bounded_text_canonical.
  - by destruct (dict_get "job" kvs).
  - apply (unless_null_canonical _ _ (λ v, _validate_edit_operations v p uid a)).
    by apply edit_operations_canonical, readable_member.
  - apply (unless_null_canonical _ _ (λ v, _validate_cancel_operation v p uid a2)).
    by apply cancel_operation_canonical, readable_member.
  - by apply notifications_canonical, readable_member.
Qed.

#[local] Opaque _validate_operations.

Lemma reservation_canonical i v seen :
  readable v → _validate_reservation i (canonical v) seen = _validate_reservation i v seen.
Proof.
  destruct v as [| | | | |l|kvs]; try done. intros Hr. pose proof (readable_keys _ Hr) as Hd.
  rewrite canonical_obj. unfold _validate_reservation. destruct seen as [ids ops]. canon Hd.
  - apply gpus_canonical.
  - by apply operations_canonical.
Qed.

(** The schema accepts the document read back exactly when it accepts the ledger. *)
Lemma validate_canonical v :
  readable v → validate_ledger_document (canonical v) = validate_ledger_document v.
Proof.
  destruct v as [| | | | |l|kvs]; try done. intros Hr. pose proof (readable_keys _ Hr) as Hd.
  rewrite canonical_obj. cbn [validate_ledger_document].
  rewrite !(dict_get_canonical _ _ Hd), get_canonical by done.
  assert (Hv : ∀ version,
    match canonical version with JBool _ => true | _ => negb (scalar_eq (canonical version) (JInt 1)) end
    = match version with JBool _ => true | _ => negb (scalar_eq version (JInt 1)) end) by by intros [].
  rewrite Hv. destruct (match dict_get "version" kvs with JBool _ => _ | _ => _ end); [done|].
  destruct (dict_get "reservations" kvs) as [| | | | |rl|] eqn:Er; try done. cbn [canonical].
  canon Hd.
  - assert (Ha : default (JList []) (canonical <$> assoc_get "announcements" kvs)
               = canonical (default (JList []) (assoc_get "announcements" kvs)))
      by by destruct (assoc_get "announcements" kvs).
    rewrite Ha. apply announcements_canonical.
    pose proof (readable_member "announcements" _ Hr) as Hm. unfold dict_get in Hm.
    by destruct (assoc_get "announcements" kvs).
  - apply each_from_canonical. intros i v s Hv'. apply reservation_canonical.
    pose proof (readable_member "reservations" _ Hr) as Hm. rewrite Er in Hm.
    apply readable_list in Hm. rewrite Forall_forall in Hm. by apply Hm.
Qed.

(** ** The file of a JSON document *)

(** [json.dumps(value, ensure_ascii=False, allow_nan=False, indent=2, sort_keys=True) + "\n"] *)
Definition document_text (v : json) : list ascii :=
  utf8_encode (print_value indented 0 v ++ [newline]).

Lemma indented_ok : layout_ok indented.
Proof. done. Qed.

Lemma document_loads v : readable v → loads (document_text v) = Some (canonical v).
Proof. intros Hr. by apply loads_print. Qed.

Lemma document_canonical v : document_text (canonical v) = document_text v.
Proof. unfold document_text. by rewrite print_canonical. Qed.
