(* ===== verification/Storage.v ===== *)
(** * Storage: the ledger store ([src/src/bk/storage.py])

    A transaction writes a journal, applies it to the ledger file and the audit
    log, keeps a backup and removes the journal; every reader first completes a
    journal that an earlier process left behind. The store runs in the monad of
    [Files], so every call of the operating system may fail or be the last one
    of the process.

    Directories, file modes and groups are not state of the model: their checks
    are calls that may fail. Holding the lock file excludes other writers, so a
    run sees no other process between its calls; releasing the lock does not
    fail. *)

From S2P Require Import Prelude.
From S2P Require Import PyBase.
From S2P Require Import Json.
From S2P Require Import Files.
From S2P Require Import Jsonl.
From S2P Require Import Timeparse.
From S2P Require Import Models.
From S2P Require Import Policy.
From S2P Require Import LedgerSchema.
From S2P Require Import Documents.

Definition MAX_AUDIT_LINE_BYTES : Z := 1024 * 1024.
Definition MAX_AUDIT_SCAN_BYTES : Z := 64 * 1024 * 1024.

Definition _empty_ledger : json := JObj [("version", JInt 1); ("reservations", JList [])].

(** ** The store *)

(** [ls_pid] is the process identifier the lock file records. *)
Record ledger_store := LedgerStore {
  data_dir : string;
  backup_keep : Z;
  ls_file_mode : Z;
  ls_dir_mode : Z;
  ls_pid : Z;
}.

Definition ledger_path (s : ledger_store) : string := data_dir s +:+ "/ledger.json".
Definition lock_path (s : ledger_store) : string := data_dir s +:+ "/ledger.lock".
Definition log_path (s : ledger_store) : string := data_dir s +:+ "/ops.log".
Definition journal_path (s : ledger_store) : string := data_dir s +:+ "/transaction.json".
Definition backup_prefix (s : ledger_store) : string := data_dir s +:+ "/backups/ledger-".

Definition _add_warning (messages : list string) : F unit :=
  warning ← get_warning;
  let values := (match warning with Some "" | None => [] | Some m => [m] end)
                ++ filter (λ m, m ≠ "") messages in
  set_warning (match join "; " (rev (remove_dups (rev values))) with "" => None | m => Some m end).

(** [datetime.now(timezone.utc)] with its microseconds. *)
Definition clock_raw : M datetime := λ w,
  (Ok (w_clock w (w_reads w)),
   World (w_clock w) (w_uuid w) (S (w_reads w)) (w_draws w)).

Definition pad6 (n : Z) : list ascii := pad2 (n / 10000) ++ pad2 (n / 100 mod 100) ++ pad2 (n mod 100).

(** [.isoformat()] in UTC *)
Definition isoformat_utc (t : datetime) : string :=
  text (iso_chars t ++ (if t mod usec =? 0 then [] else "."%char :: pad6 (t mod usec))
        ++ chars "+00:00").

(** [.strftime("%Y%m%dT%H%M%S%fZ")] *)
Definition backup_stamp (t : datetime) : string :=
  text (filter (λ c, c ≠ "-"%char ∧ c ≠ ":"%char) (iso_chars t) ++ pad6 (t mod usec) ++ ["Z"%char]).

Definition _managed_gid : F unit := check.

Definition ensure : F unit := _ ← check; _ ← _managed_gid; check.

Definition lexists (path : string) : F bool :=
  fs ← get_files; mret (bool_decide (is_Some (fs !! path))).

(** The lock: the wait for it ends in a [TimeoutError], an [OSError]. *)
Definition acquire (s : ledger_store) : F unit :=
  _ ← _managed_gid;
  _ ← check;
  _ ← create (lock_path s);
  _ ← check;
  _ ← truncate (lock_path s) 0;
  now ← of_M clock_raw;
  _ ← append_bytes (lock_path s)
        (utf8_encode (print_items spaced 0 "{"%char "}"%char
           (map (print_member spaced)
              [("pid", chars (str_of_Z (ls_pid s))); ("locked_at", print_string spaced (isoformat_utc now))])));
  check.

(** ** Reading *)

(** [json.load] of a file that was opened safely. *)
Definition load_json (path : string) : F json :=
  _ ← check;
  fs ← get_files;
  match loads (content path fs) with
  | Some v => mret v
  | None => throw (ValueError "invalid JSON document")
  end.

Definition _validate_ledger (data : json) : res unit := validate_ledger_document data.

Definition stored_policy (data : json) : option json :=
  match data with
  | JObj kvs => match dict_get "policy" kvs with JNull => None | policy => Some policy end
  | _ => None
  end.

Definition _validate_storage_modes (s : ledger_store) (data : json) : res unit :=
  match ledger_storage_modes (Ledger [] (stored_policy data) [] None) with
  | Raise (BookingError msg) => Raise (OSError msg)
  | Raise e => Raise e
  | Ok None => Ok tt
  | Ok (Some (file, dir)) =>
      let '(my_file, my_dir) := (octal4 (ls_file_mode s), octal4 (ls_dir_mode s)) in
      if bool_decide (file = my_file) && bool_decide (dir = my_dir) then Ok tt
      else Raise (OSError ("local storage modes do not match ledger policy: ledger=" +:+ file +:+ "/"
             +:+ dir +:+ " local=" +:+ my_file +:+ "/" +:+ my_dir))
  end.

(** [except (json.JSONDecodeError, OSError, ValueError)] *)
Definition is_load_error (e : exn) : bool :=
  match e with ValueError _ => true | e => is_os_error e end.

(** A validated document, whose modes and group are checked on request. *)
Definition load_document (path : string) (require_modes : bool) : F json :=
  _ ← if require_modes then _managed_gid else mret tt;
  data ← load_json path;
  _ ← of_res (_validate_ledger data);
  mret data.

Fixpoint first_backup (paths : list string) (require_modes : bool) : F (option json) :=
  match paths with
  | [] => mret None
  | path :: paths =>
      loaded ← attempt (load_document path require_modes);
      match loaded with
      | Ok data => mret (Some data)
      | Raise e => if is_load_error e then first_backup paths require_modes else throw e
      end
  end.

Definition is_backup (s : ledger_store) (path : string) : bool :=
  String.prefix (backup_prefix s) path
  && bool_decide (rev (take 5 (rev (chars path))) = chars ".json").

(** [sorted(self.backup_dir.glob("ledger-*.json"), reverse=True)] *)
Definition backups (s : ledger_store) (fs : gmap string (list ascii)) : list string :=
  sort_by (λ a b, String.leb b a)
    (filter (λ path, is_backup s path = true) (map fst (map_to_list fs))).

Definition _load_latest_backup (s : ledger_store) (require_modes : bool) : F (option json) :=
  _ ← check;
  fs ← get_files;
  first_backup (backups s fs) require_modes.

Definition _load_unlocked (s : ledger_store) (require_modes : bool) : F json :=
  present ← lexists (ledger_path s);
  if negb present then mret _empty_ledger
  else
    loaded ← attempt (load_document (ledger_path s) require_modes);
    data ← match loaded with
           | Ok data => mret data
           | Raise exc =>
               if is_load_error exc then
                 restored ← _load_latest_backup s require_modes;
                 match restored with
                 | Some data =>
                     _ ← _add_warning ["ledger is invalid; loaded the latest valid backup: "
                                       +:+ error_text exc];
                     mret data
                 | None =>
                     throw (LedgerCorruptionError ("ledger is invalid and no valid backup exists: "
                              +:+ ledger_path s +:+ ": " +:+ error_text exc))
                 end
               else throw exc
           end;
    _ ← of_res (_validate_storage_modes s data);
    mret data.

(** ** Writing *)

(** [path] is replaced at once by a complete file. *)
Definition _atomic_write_json (path : string) (value : json) : F unit :=
  _ ← check;
  payload ← of_res (dumps indented value);
  _ ← check;
  present ← lexists path;
  _ ← if present : bool then check else mret tt;
  _ ← check;
  _ ← replace_file path (utf8_encode (payload ++ [newline]));
  check.

Definition _write_journal (s : ledger_store) (journal : json) : F unit :=
  _ ← _managed_gid; _atomic_write_json (journal_path s) journal.

Definition _atomic_write_ledger (s : ledger_store) (ledger : json) : F unit :=
  _ ← of_res (_validate_ledger ledger);
  _ ← _managed_gid;
  _atomic_write_json (ledger_path s) ledger.

Fixpoint prune (paths : list string) (removed : bool) : F bool :=
  match paths with
  | [] => mret removed
  | path :: paths =>
      _ ← _managed_gid; _ ← check; _ ← unlink path; prune paths true
  end.

(** Python's [l[n:]] counts a negative [n] from the end. *)
Definition slice_from {A} (n : Z) (l : list A) : list A :=
  if n <? 0 then drop (length l - Z.to_nat (- n)) l else drop (Z.to_nat n) l.

Definition _prune_backups (s : ledger_store) : F unit :=
  fs ← get_files;
  removed ← prune (slice_from (backup_keep s) (backups s fs)) false;
  if removed : bool then check else mret tt.

Definition _write_backup (s : ledger_store) (ledger : json) : F unit :=
  now ← of_M clock_raw;
  _ ← _managed_gid;
  _ ← _atomic_write_json (backup_prefix s +:+ backup_stamp now +:+ ".json") ledger;
  _prune_backups s.

(** ** The audit log *)

Definition event_key (item : list (string * json)) : string :=
  str_value (default (JStr "") (assoc_get "event_id" item)).

Definition members (v : json) : list (string * json) := match v with JObj kvs => kvs | _ => [] end.

Definition _recent_event_ids (s : ledger_store) (wanted : list string) (tail_bytes : Z)
    : F (list string) :=
  present ← lexists (log_path s);
  if bool_decide (wanted = []) || negb present then mret []
  else
    tail ← read_json_objects_tail (log_path s) (Z.of_nat (length wanted)) MAX_AUDIT_LINE_BYTES
      (λ item, bool_decide (event_key item ∈ wanted))
      (λ item, Some (JObj [("event_id", JStr (event_key item))]))
      (Some (Z.max 1 tail_bytes));
    mret (map (λ item, event_key (members item)) (t_records tail)).

Definition _append_missing_logs (s : ledger_store) (logs : list json) : F unit :=
  let event_ids := remove_dups (map (λ item, event_key (members item)) logs) in
  lines ← of_res (mapM (λ item, encode_json_object_line item MAX_AUDIT_LINE_BYTES "audit" false) logs);
  existing ← _recent_event_ids s event_ids (1 + sumZ size lines);
  let missing := filter (λ item, event_key (members item) ∉ existing) logs in
  match missing with
  | [] => mret tt
  | _ =>
      _ ← _managed_gid;
      result ← attempt (append_json_objects (log_path s) missing MAX_AUDIT_LINE_BYTES None "audit" false);
      match result with
      | Raise (ValueError exc) => throw (OSError ("cannot append audit log: " +:+ exc))
      | Raise e => throw e
      | Ok (_, []) => mret tt
      | Ok (_, warnings) => _add_warning warnings
      end
  end.

(** ** The journal *)

Definition is_member_list (v : json) : option (list json) :=
  match v with
  | JList items => if forallb (λ v, is_object (Some v)) items then Some items else None
  | _ => None
  end.

(** The loop over the records of a journal. *)
Fixpoint validate_journal_logs (transaction_id : string) (seen : list string) (logs : list json)
    : res unit :=
  match logs with
  | [] => Ok tt
  | item :: logs =>
      match dict_get "event_id" (members item) with
      | JStr event_id =>
          if bool_decide (event_id = "") || (128 <? slen event_id)
          then Raise (ValueError "journal log event ID is invalid")
          else if bool_decide (event_id ∈ seen)
          then Raise (ValueError "journal log event IDs must be unique")
          else if negb (scalar_eq (dict_get "transaction_id" (members item)) (JStr transaction_id))
          then Raise (ValueError "journal log transaction ID mismatch")
          else
            _ ← encode_json_object_line item MAX_AUDIT_LINE_BYTES "journal audit" false;
            validate_journal_logs transaction_id (event_id :: seen) logs
      | _ => Raise (ValueError "journal log event ID is invalid")
      end
  end.

Definition _validate_journal (s : ledger_store) (journal : json) : res unit :=
  match journal with
  | JObj j =>
      if negb (scalar_eq (dict_get "version" j) (JInt 1))
      then Raise (ValueError "unsupported journal")
      else match dict_get "transaction_id" j with
      | JStr transaction_id =>
          if bool_decide (transaction_id = "")
          then Raise (ValueError "journal transaction ID is missing")
          else
            _ ← match dict_get "ledger" j with
                | JNull => Ok tt
                | ledger =>
                    _ ← _validate_ledger ledger;
                    _ ← _validate_storage_modes s ledger;
                    if negb (scalar_eq (dict_get "last_transaction_id" (members ledger))
                                       (JStr transaction_id))
                    then Raise (ValueError "journal ledger transaction ID mismatch")
                    else Ok tt
                end;
            match is_member_list (dict_get "logs" j) with
            | None => Raise (ValueError "journal logs are invalid")
            | Some logs => validate_journal_logs transaction_id [] logs
            end
      | _ => Raise (ValueError "journal transaction ID is missing")
      end
  | _ => Raise (ValueError "unsupported journal")
  end.

(** A journal the checks accepted: its transaction, ledger and records. *)
Definition j_transaction_id (j : list (string * json)) : string :=
  match dict_get "transaction_id" j with JStr t => t | _ => "" end.
Definition j_logs (j : list (string * json)) : list json :=
  match dict_get "logs" j with JList l => l | _ => [] end.

(** The ledger of the journal, unless it is already in place. *)
Definition apply_ledger (s : ledger_store) (ledger : json) (transaction_id : string) : F unit :=
  loaded ← attempt (_load_unlocked s true);
  current ← match loaded with
            | Ok current => mret current
            | Raise (LedgerCorruptionError _) => mret _empty_ledger
            | Raise e => throw e
            end;
  if negb (scalar_eq (dict_get "last_transaction_id" (members current)) (JStr transaction_id))
  then _atomic_write_ledger s ledger
  else mret tt.

(** A backup that fails is a warning. *)
Definition backup_ledger (s : ledger_store) (ledger : json) : F unit :=
  backed_up ← attempt (_write_backup s ledger);
  match backed_up with
  | Ok _ => mret tt
  | Raise e =>
      if is_os_error e
      then _add_warning ["ledger committed but backup failed: " +:+ error_text e]
      else throw e
  end.

Definition _apply_journal_unlocked (s : ledger_store) (j : list (string * json)) : F unit :=
  let ledger := dict_get "ledger" j in
  _ ← match ledger with JNull => mret tt | ledger => apply_ledger s ledger (j_transaction_id j) end;
  _ ← match j_logs j with [] => mret tt | logs => _append_missing_logs s logs end;
  match ledger with JNull => mret tt | ledger => backup_ledger s ledger end.

Definition _clear_journal_best_effort (s : ledger_store) : F unit :=
  cleared ← attempt (_ ← unlink (journal_path s); check);
  match cleared with
  | Ok _ => mret tt
  | Raise e =>
      if is_os_error e
      then _add_warning ["transaction committed but journal cleanup failed: " +:+ error_text e]
      else throw e
  end.

(** The journal file, read and checked. *)
Definition load_journal (s : ledger_store) : F json :=
  _ ← _managed_gid;
  journal ← load_json (journal_path s);
  _ ← of_res (_validate_journal s journal);
  mret journal.

Definition _recover_journal_unlocked (s : ledger_store) : F unit :=
  present ← lexists (journal_path s);
  if negb present then mret tt
  else
    loaded ← attempt (load_journal s);
    match loaded with
    | Ok journal =>
        _ ← _apply_journal_unlocked s (members journal);
        _clear_journal_best_effort s
    | Raise e =>
        if is_load_error e
        then throw (OSError ("cannot recover invalid transaction journal " +:+ journal_path s +:+ ": "
                      +:+ error_text e))
        else throw e
    end.

Definition _journal_matches_transaction (s : ledger_store) (transaction_id : string) : F bool :=
  present ← lexists (journal_path s);
  if negb present then mret false
  else
    loaded ← attempt (load_journal s);
    match loaded with
    | Ok journal =>
        mret (scalar_eq (dict_get "transaction_id" (members journal)) (JStr transaction_id))
    | Raise e => if is_load_error e then mret false else throw e
    end.

(** ** Transactions *)

Fixpoint check_existing (paths : list string) : F unit :=
  match paths with
  | [] => mret tt
  | path :: paths =>
      present ← lexists path;
      _ ← if present : bool then (_ ← _managed_gid; check) else mret tt;
      check_existing paths
  end.

Definition _validate_managed_files_unlocked (s : ledger_store) : F unit :=
  check_existing [ledger_path s; log_path s; journal_path s].

Fixpoint preflight (s : ledger_store) (paths : list string) : F unit :=
  match paths with
  | [] => mret tt
  | path :: paths =>
      present ← lexists path;
      if negb present then preflight s paths
      else
        mode ← mode_as_expected;
        match mode with
        | None => mret tt
        | Some true => preflight s paths
        | Some false => _ ← _load_unlocked s false; mret tt
        end
  end.

Definition _preflight_storage_policy_on_mode_mismatch (s : ledger_store) : F unit :=
  journal ← lexists (journal_path s);
  ledger ← lexists (ledger_path s);
  if journal || negb ledger then mret tt
  else preflight s [ledger_path s; lock_path s; log_path s].

(** [uuid.uuid4()] is drawn for every record, also for one that has an event id. *)
Fixpoint _prepare_logs (logs : list (list (string * json))) (transaction_id : string)
    : M (list json) :=
  match logs with
  | [] => mret []
  | item :: logs =>
      let value := obj_set "transaction_id" (JStr transaction_id) item in
      event_id ← uuid4;
      let value := match assoc_get "event_id" value with
                   | Some _ => value
                   | None => obj_set "event_id" (JStr event_id) value
                   end in
      prepared ← _prepare_logs logs transaction_id;
      mret (JObj value :: prepared)
  end.

(** What a mutator returns: the new ledger, a result, the records, whether it changed. *)
Definition mutator (T : Type) : Type :=
  list (string * json) → M (list (string * json) * T * list (list (string * json)) * bool).

(** The journal of a transaction. *)
Definition make_journal (new_ledger : list (string * json)) (changed : bool) (transaction_id : string)
    (prepared_logs : list json) (created_at : string) : json :=
  JObj [("version", JInt 1); ("transaction_id", JStr transaction_id);
        ("ledger", if changed then JObj new_ledger else JNull);
        ("logs", JList prepared_logs); ("created_at", JStr created_at)].

(** From the journal on: [with] the lock held, after the mutator. *)
Definition commit (s : ledger_store) (journal : json) (transaction_id : string) : F unit :=
  _ ← of_res (_validate_journal s journal);
  written ← attempt (_write_journal s journal);
  match written with
  | Raise exc =>
      if is_os_error exc then
        matches ← _journal_matches_transaction s transaction_id;
        if negb matches then throw exc
        else _add_warning ["transaction accepted but deferred recovery is required after journal directory sync failed: "
                           +:+ error_text exc]
      else throw exc
  | Ok _ =>
      applied ← attempt (_apply_journal_unlocked s (members journal));
      match applied with
      | Raise exc =>
          if is_os_error exc
          then _add_warning ["transaction accepted but deferred recovery is required: "
                             +:+ error_text exc]
          else throw exc
      | Ok _ => _clear_journal_best_effort s
      end
  end.

Definition transaction {T} (s : ledger_store) (mutate : mutator T) : F T :=
  _ ← ensure;
  _ ← set_warning None;
  _ ← _preflight_storage_policy_on_mode_mismatch s;
  _ ← acquire s;
  _ ← _validate_managed_files_unlocked s;
  _ ← _recover_journal_unlocked s;
  ledger ← _load_unlocked s true;
  '(new_ledger, result, logs, changed) ← of_M (mutate (members ledger));
  if negb changed && bool_decide (logs = []) then mret result
  else
    transaction_id ← of_M uuid4;
    prepared_logs ← of_M (_prepare_logs logs transaction_id);
    let new_ledger := if changed : bool
                      then obj_set "last_transaction_id" (JStr transaction_id) new_ledger
                      else new_ledger in
    created_at ← of_M clock_raw;
    _ ← commit s (make_journal new_ledger changed transaction_id prepared_logs
                    (isoformat_utc created_at)) transaction_id;
    mret result.

(** ** Readers and reset *)

Definition load (s : ledger_store) : F json :=
  _ ← set_warning None;
  pending ← lexists (journal_path s);
  _ ← if pending : bool then
        _ ← ensure;
        _ ← acquire s;
        _ ← _validate_managed_files_unlocked s;
        _recover_journal_unlocked s
      else mret tt;
  _load_unlocked s false.

Definition load_read_only (s : ledger_store) : F json :=
  _ ← set_warning None;
  _load_unlocked s false.

Fixpoint check_each (paths : list string) : F unit :=
  match paths with
  | [] => mret tt
  | _ :: paths => _ ← _managed_gid; _ ← check; check_each paths
  end.

Fixpoint unlink_each (paths : list string) : F unit :=
  match paths with
  | [] => mret tt
  | path :: paths => _ ← unlink path; unlink_each paths
  end.

(** [sum(1 for _line in fh)]: the last line may lack its newline. *)
Definition _line_count (data : list ascii) : Z := Z.of_nat (length (drop_end (pieces data)))
  - (if bool_decide (data = []) then 1 else 0).

(** The counts of reservations, audit lines and backups that are gone. *)
Definition reset (s : ledger_store) : F (Z * Z * Z) :=
  _ ← ensure;
  _ ← _preflight_storage_policy_on_mode_mismatch s;
  _ ← acquire s;
  _ ← _validate_managed_files_unlocked s;
  _ ← _recover_journal_unlocked s;
  previous ← _load_unlocked s true;
  let reservation_count :=
    match dict_get "reservations" (members previous) with JList l => Z.of_nat (length l) | _ => 0 end in
  logged ← lexists (log_path s);
  _ ← if logged : bool then check else mret tt;
  fs ← get_files;
  let log_count := _line_count (content (log_path s) fs) in
  let backup_paths := backups s fs in
  _ ← check_each backup_paths;
  _ ← _atomic_write_ledger s _empty_ledger;
  _ ← unlink (log_path s);
  _ ← unlink (journal_path s);
  _ ← unlink_each backup_paths;
  _ ← check;
  _ ← check;
  mret (reservation_count, log_count, Z.of_nat (length backup_paths)).
