(* ===== verification/AuditLog.v ===== *)
(** * AuditLog: appending the records of a journal once

    A transaction that is interrupted is applied again, so its audit records are
    looked up at the end of the log before they are appended. This file shows
    that the lookup finds exactly the records the log holds, whatever part of
    them was written, and that the missing ones are appended in order. *)

From S2P Require Import Prelude.
From S2P Require Import PyBase.
From S2P Require Import Json.
From S2P Require Import Files.
From S2P Require Import Jsonl.
From S2P Require Import Models.
From S2P Require Import Policy.
From S2P Require Import LedgerSchema.
From S2P Require Import Documents.
From S2P Require Import Storage.

(** ** The lines at the end of a log *)

Abbreviation MAX := MAX_AUDIT_LINE_BYTES.

Abbreviation audit_ok := (record_ok MAX_AUDIT_LINE_BYTES) (only parsing).

Lemma pieces_log bs last :
  Forall audit_ok bs → newline ∉ last →
  pieces (log_text bs ++ last) = map record_text bs ++ [last].
Proof.
  intros Hbs Hl. induction Hbs as [|r bs Hr _ IH]; [by apply pieces_one|].
  change (log_text (r :: bs)) with (record_line r ++ log_text bs). unfold record_line.
  rewrite <- !(assoc_L (++)). cbn [app]. rewrite pieces_newline, IH.
  by rewrite (pieces_one _ (record_text_newline _ _ Hr)).
Qed.

Lemma pieces_drop n data p : p ∈ tail (pieces (drop n data)) → p ∈ pieces data.
Proof.
  intros Hp. destruct (pieces_nonempty (drop n data)) as (q & qs & E). rewrite E in Hp. cbn in Hp.
  rewrite <- (take_drop n data), (pieces_app _ _ _ _ E). set_solver.
Qed.

Lemma drop_end_snoc ps last :
  drop_end (ps ++ [last]) =
  match ps, last with _ :: _, [] => ps | _, _ => ps ++ [last] end.
Proof.
  unfold drop_end. rewrite rev_app_distr. cbn [rev app]. destruct last as [|c last].
  - destruct ps as [|p ps]; [done|]. destruct (rev (p :: ps)) as [|x xs] eqn:E.
    + apply (f_equal (@length _)) in E. rewrite length_rev in E. done.
    + by rewrite <- E, rev_involutive.
  - by destruct ps.
Qed.

(** The pieces that count as lines, after complete lines or at the start. *)
Definition end_lines (last : list ascii) : list (list ascii) := match last with [] => [] | _ => [last] end.

(** What a scan sees of a log whose last part is [B]: all lines of [B] after
    some of the lines before it. *)
Lemma lines_of_end rs K last lower :
  Forall audit_ok rs → Forall audit_ok K → newline ∉ last →
  0 ≤ lower → (rs = [] → lower = 0) → lower + 1 ≤ Z.max 1 (size (log_text rs)) →
  ∃ X, lines_from (log_text rs ++ log_text K ++ last) lower MAX
       = map (emit MAX) (X ++ map record_text K ++ end_lines last) ∧
       ∀ x, x ∈ X → x ∈ map record_text rs.
Proof.
  intros Hrs HK Hl H0 Hnil Hlow. unfold lines_from.
  destruct rs as [|r rs' _] using rev_ind.
  - rewrite (Hnil eq_refl). change (log_text [] ++ ?t) with t.
    change (drop (Z.to_nat 0) ?t) with t. rewrite pieces_log by done. rewrite drop_end_snoc. exists []. split; [|set_solver].
    cbn [app Z.eqb negb orb]. destruct K as [|k K].
    { cbn [map app]. destruct last as [|c last]; [done|].
      by destruct (size (c :: last) =? 0) eqn:E; [apply Z.eqb_eq in E; unfold size in E; simpl in E; lia|]. }
    assert (Hk : size (record_text k) =? 0 = false).
    { apply Z.eqb_neq. apply Forall_cons in HK as [HK _]. pose proof (record_text_nonempty _ _ HK) as Hne.
      unfold size. destruct (record_text k); [done|simpl; lia]. }
    cbn [map app]. destruct last as [|c last]; cbn [end_lines]; rewrite Hk, ?app_nil_r; done.
  - set (A' := log_text rs' ++ record_text r).
    assert (EA : log_text (rs' ++ [r]) = A' ++ [newline]) by apply log_text_snoc.
    apply Forall_app in Hrs as [Hrs' Hr]. apply Forall_cons in Hr as [Hr _].
    assert (HA : pieces A' = map record_text (rs' ++ [r])).
    { unfold A'. rewrite pieces_log by (done || by eapply record_text_newline). by rewrite map_app. }
    assert (Hlen : (Z.to_nat lower ≤ length A')%nat).
    { rewrite EA in Hlow. unfold size in Hlow. rewrite length_app in Hlow. simpl in Hlow. lia. }
    rewrite EA, <- (assoc_L (++)), drop_app_le by done. cbn [app].
    rewrite pieces_newline, pieces_log by done.
    destruct (pieces_nonempty (drop (Z.to_nat lower) A')) as (p & P & EP). rewrite EP.
    rewrite (assoc_L (++)), drop_end_snoc. cbn [app].
    assert (Hend : match last with [] => p :: P ++ map record_text K
                              | _ => (p :: P ++ map record_text K) ++ [last] end
                   = p :: (P ++ map record_text K ++ end_lines last)).
    { destruct last; cbn [end_lines app]; [by rewrite app_nil_r|by rewrite <- (assoc_L (++))]. }
    match goal with |- context [match last with [] => ?a | _ :: _ => ?b end] =>
      replace (match last with [] => a | _ :: _ => b end) with (p :: (P ++ map record_text K ++ end_lines last))
      by (rewrite <- Hend; by destruct last; cbn [app]; rewrite <- ?(assoc_L (++))) end.
    destruct (Z.eqb_spec lower 0) as [->|Hne]; cbn [negb orb].
    + change (drop (Z.to_nat 0) A') with A' in EP. rewrite EP in HA.
      assert (Hp : size p =? 0 = false).
      { apply Z.eqb_neq. assert (Hin : p ∈ map record_text (rs' ++ [r])) by (rewrite <- HA; left).
        apply list_elem_of_In, in_map_iff in Hin as (x & <- & Hx%list_elem_of_In).
        assert (Hok : audit_ok x).
        { apply elem_of_app in Hx as [Hx|Hx%list_elem_of_singleton]; [|by subst].
          rewrite Forall_forall in Hrs'. by apply Hrs'. }
        pose proof (record_text_nonempty _ _ Hok) as Hne. unfold size.
        destruct (record_text x); [done|simpl; lia]. }
      rewrite Hp. exists (p :: P). split; [done|]. intros x Hx. by rewrite <- HA.
    + exists P. split; [done|]. intros x Hx. rewrite <- HA. apply (pieces_drop (Z.to_nat lower)).
      by rewrite EP.
Qed.

Lemma lines_from_pieces data lower x :
  x ∈ lines_from data lower MAX → ∃ p, x = emit MAX p ∧ p ∈ pieces data.
Proof.
  unfold lines_from. rewrite list_elem_of_fmap. intros (p & -> & Hp). exists p. split; [done|].
  destruct (pieces_nonempty (drop (Z.to_nat lower) data)) as (q & qs & E). rewrite E, drop_end_cons in Hp.
  assert (Hsub : ∀ y, y ∈ rev (skip_end true (rev qs)) → y ∈ tail (pieces (drop (Z.to_nat lower) data))).
  { intros y. rewrite E. cbn [tail]. rewrite !list_elem_of_In, <- in_rev, (in_rev qs).
    unfold skip_end. destruct (rev qs) as [|[|c z] zs]; [done|by right|done]. }
  destruct (Z.eqb_spec lower 0) as [->|Hne]; cbn [negb orb] in Hp.
  - change (drop (Z.to_nat 0) data) with data in *. rewrite E.
    destruct (size q =? 0); [|apply elem_of_cons in Hp as [->|Hp]; [by left|]];
      right; apply Hsub in Hp; by rewrite E in Hp.
  - apply (pieces_drop (Z.to_nat lower)). by apply Hsub.
Qed.

(** ** Finding the records of a journal in the log *)

(** The event a scan of the log attributes to a record. *)
Definition rec_key (r : json) : string := event_key (members (canonical r)).

Lemma log_text_size l : sumZ size (map record_line l) = size (log_text l).
Proof.
  induction l as [|r l IH]; [done|]. change (log_text (r :: l)) with (record_line r ++ log_text l).
  rewrite size_app, <- IH. done.
Qed.

Section Events.
Context (rs js : list json) (Hrs : Forall audit_ok rs) (Hjs : Forall audit_ok js).
Context (Hnew : ∀ r j, r ∈ rs → j ∈ js → rec_key r ≠ rec_key j).

Let wanted : list string := map rec_key js.
Let is_wanted (item : list (string * json)) : bool := bool_decide (event_key item ∈ wanted).
Let event_of (item : list (string * json)) : option json :=
  Some (JObj [("event_id", JStr (event_key item))]).

Lemma kept_record r :
  audit_ok r →
  kept is_wanted event_of (emit MAX (record_text r)) =
  if bool_decide (rec_key r ∈ wanted) then Some (JObj [("event_id", JStr (rec_key r))]) else None.
Proof.
  intros Hr. destruct (fragment_short _ r (record_text r) Hr ltac:(done)) as [_ Hs].
  unfold emit. replace (MAX <? _) with false by (symmetry; apply Z.ltb_ge; lia).
  unfold kept. cbn [mbind option_bind]. pose proof (record_text_nonempty _ _ Hr) as Hne.
  rewrite (record_text_loads _ _ Hr). destruct (record_text r); [done|].
  destruct Hr as ((kvs & ->) & _). unfold rec_key. rewrite canonical_obj. cbn [members].
  unfold is_wanted, event_of. by destruct (bool_decide _).
Qed.

Lemma kept_fragment fragment : is_object (loads fragment) = false → kept is_wanted event_of (emit MAX fragment) = None.
Proof.
  intros H. unfold emit. destruct (_ <? _); [done|]. unfold kept. cbn [mbind option_bind].
  destruct fragment; [done|]. by destruct (loads _) as [[]|].
Qed.

Lemma kept_old r : r ∈ rs → kept is_wanted event_of (emit MAX (record_text r)) = None.
Proof.
  intros Hr. rewrite kept_record by (rewrite Forall_forall in Hrs; auto).
  rewrite bool_decide_eq_false_2; [done|]. unfold wanted. intros (j & E & Hj)%list_elem_of_fmap.
  by eapply Hnew.
Qed.

Lemma kept_none ls : (∀ x, x ∈ ls → kept is_wanted event_of x = None) → omap (kept is_wanted event_of) ls = [].
Proof.
  induction ls as [|x ls IH]; [done|]. intros H. csimpl. rewrite H by left. apply IH. intros y Hy.
  apply H. by right.
Qed.

Lemma kept_own K :
  (∀ j, j ∈ K → j ∈ js) →
  omap (kept is_wanted event_of) (map (emit MAX) (map record_text K))
  = map (λ j, JObj [("event_id", JStr (rec_key j))]) K.
Proof.
  induction K as [|j K IH]; [done|]. intros HK. assert (Hj : j ∈ js) by (apply HK; left).
  cbn [map]. csimpl. rewrite kept_record by (rewrite Forall_forall in Hjs; auto).
  rewrite bool_decide_eq_true_2 by (apply list_elem_of_fmap; eauto). rewrite IH; [done|].
  intros j' Hj'. apply HK. by right.
Qed.

Lemma found_after K last lower :
  (∀ j, j ∈ K → j ∈ js) → newline ∉ last →
  0 ≤ lower → (rs = [] → lower = 0) → lower + 1 ≤ Z.max 1 (size (log_text rs)) →
  omap (kept is_wanted event_of) (lines_from (log_text rs ++ log_text K ++ last) lower MAX)
  = map (λ j, JObj [("event_id", JStr (rec_key j))]) K
    ++ omap (kept is_wanted event_of) (map (emit MAX) (end_lines last)).
Proof.
  intros HK Hl H0 Hnil Hlow.
  assert (HKok : Forall audit_ok K) by (rewrite Forall_forall in *; auto).
  destruct (lines_of_end rs K last lower) as (X & -> & HX); try done.
  rewrite !map_app, !omap_app, kept_own by done. rewrite kept_none; [done|].
  intros x (p & -> & Hp)%list_elem_of_fmap. apply HX in Hp as (r & -> & Hr)%list_elem_of_fmap.
  by apply kept_old.
Qed.

(** A log without records of the journal. *)
Lemma found_none bs last lower :
  (∀ r, r ∈ bs → r ∈ rs) → newline ∉ last → kept is_wanted event_of (emit MAX last) = None →
  omap (kept is_wanted event_of) (lines_from (log_text bs ++ last) lower MAX) = [].
Proof.
  intros Hbs Hl Hlast. apply kept_none. intros x (p & -> & Hp)%lines_from_pieces.
  rewrite pieces_log in Hp by (done || rewrite Forall_forall in *; auto).
  apply elem_of_app in Hp as [(r & -> & Hr)%list_elem_of_fmap| ->%list_elem_of_singleton]; [|done].
  by apply kept_old, Hbs.
Qed.

Lemma kept_empty : kept is_wanted event_of (emit MAX []) = None.
Proof. done. Qed.

Lemma drop_S_lookup {A} (l : list A) k x : l !! k = Some x → drop k l = x :: drop (S k) l.
Proof. apply drop_S. Qed.

Definition tail_bound (L : list ascii) : Z := scan_bound (size L) (Some (Z.max 1 (1 + size (log_text js)))).

Lemma tail_bound_after more L :
  L = log_text rs ++ more → size more ≤ size (log_text js) →
  0 ≤ tail_bound L ∧ (rs = [] → tail_bound L = 0) ∧ tail_bound L + 1 ≤ Z.max 1 (size (log_text rs)).
Proof.
  intros -> Hm. unfold tail_bound, scan_bound. rewrite size_app.
  assert (Hpos : ∀ l : list ascii, 0 ≤ size l) by (intros l; unfold size; lia).
  pose proof (Hpos (log_text js)). split_and!; [lia| |lia].
  intros ->. change (size (log_text [])) with 0. lia.
Qed.

Lemma take_size k : size (log_text (take k js)) ≤ size (log_text js).
Proof.
  rewrite <- (take_drop k js) at 2. rewrite log_text_app, size_app. unfold size. lia.
Qed.

(** The scan finds exactly the records of the journal that the log holds. *)
Lemma events_found k L :
  log_at rs js k L →
  omap (kept is_wanted event_of) (lines_from L (tail_bound L) MAX)
  = map (λ j, JObj [("event_id", JStr (rec_key j))]) (take k js).
Proof.
  assert (Hsub : ∀ j, j ∈ take k js → j ∈ js).
  { intros j Hj. rewrite <- (take_drop k js). apply elem_of_app. by left. }
  intros [->|bs r E EL|j fragment Hj Hne Hp Hneq ->].
  - rewrite log_text_app.
    destruct (tail_bound_after (log_text (take k js)) (log_text rs ++ log_text (take k js)))
      as (H1 & H2 & H3); [done|apply take_size|].
    pose proof (found_after (take k js) [] _ Hsub (not_elem_of_nil _) H1 H2 H3) as H.
    by rewrite !app_nil_r in H.
  - destruct (take k js) as [|j K _] eqn:EK using rev_ind.
    + rewrite app_nil_r in E. rewrite EL.
      assert (Hin : r ∈ rs) by (rewrite E; apply elem_of_app; right; by left).
      apply found_none; [intros r' Hr'; rewrite E; apply elem_of_app; by left| |by apply kept_old].
      eapply record_text_newline. rewrite Forall_forall in Hrs. by apply Hrs.
    + rewrite (assoc_L (++)) in E. apply app_inj_tail in E as [<- <-]. subst L.
      assert (Hj : j ∈ js) by (apply Hsub; apply elem_of_app; right; by left).
      assert (Hok : audit_ok j) by (rewrite Forall_forall in Hjs; auto).
      rewrite log_text_app, <- (assoc_L (++)).
      destruct (tail_bound_after (log_text K ++ record_text j)
        (log_text rs ++ log_text K ++ record_text j)) as (H1 & H2 & H3); [done| |].
      { pose proof (take_size k) as Hs. rewrite EK, log_text_snoc, size_app in Hs.
        unfold size in *. simpl in *. lia. }
      rewrite found_after; [|intros j' Hj'; apply Hsub; apply elem_of_app; by left
        |by eapply record_text_newline|done..].
      rewrite map_app. f_equal. pose proof (record_text_nonempty _ _ Hok) as Hne.
      assert (El : end_lines (record_text j) = map record_text [j])
        by (cbn [map]; by destruct (record_text j)).
      rewrite El. apply kept_own. by intros j' ->%list_elem_of_singleton.
  - assert (Hok : audit_ok j) by (rewrite Forall_forall in Hjs; by eapply Hjs, list_elem_of_lookup_2).
    destruct (fragment_short _ j fragment Hok Hp) as [Hn Hs].
    rewrite log_text_app, <- (assoc_L (++)).
    destruct (tail_bound_after (log_text (take k js) ++ fragment)
        (log_text rs ++ log_text (take k js) ++ fragment)) as (H1 & H2 & H3); [done| |].
    { rewrite <- (take_drop k js) at 2. rewrite (drop_S_lookup _ _ _ Hj), log_text_app, !size_app.
      change (log_text (j :: drop (S k) js)) with (record_line j ++ log_text (drop (S k) js)).
      destruct Hp as [t Ht]. unfold record_line. rewrite Ht, !size_app. unfold size. lia. }
    rewrite found_after by done. rewrite kept_none; [by rewrite app_nil_r|].
    intros x (p & -> & Hp')%list_elem_of_fmap. destruct fragment; [done|].
    apply list_elem_of_singleton in Hp' as ->. apply kept_fragment. by eapply record_fragment.
Qed.
End Events.

Lemma remove_dups_id {A} `{!EqDecision A} (l : list A) : NoDup l → remove_dups l = l.
Proof.
  induction 1 as [|x l Hx _ IH]; [done|]. cbn [remove_dups]. destruct (decide_rel _ x l); [done|].
  by rewrite IH.
Qed.

Lemma filter_split {A} (P : A → Prop) `{!∀ x, Decision (P x)} (l1 l2 : list A) :
  (∀ x, x ∈ l1 → ¬ P x) → (∀ x, x ∈ l2 → P x) → filter P (l1 ++ l2) = l2.
Proof.
  intros H1 H2. induction l1 as [|x l1 IH]; cbn [app].
  - induction l2 as [|x l2 IH]; [done|]. rewrite filter_cons_True by (apply H2; left).
    rewrite IH; [done|]. intros y Hy. apply H2. by right.
  - rewrite filter_cons_False by (apply H1; left). apply IH. intros y Hy. apply H1. by right.
Qed.

(** What the log does not hold yet. *)
Lemma filter_missing {A} (key : A → string) k l :
  NoDup (map key l) → filter (λ x, key x ∉ map key (take k l)) l = drop k l.
Proof.
  intros Hnd. rewrite <- (take_drop k l), map_app in Hnd. apply NoDup_app in Hnd as (_ & Hd & _).
  transitivity (filter (λ x, key x ∉ map key (take k l)) (take k l ++ drop k l));
    [by rewrite take_drop|]. apply filter_split.
  - intros x Hx Hn. apply Hn, list_elem_of_fmap. eauto.
  - intros x Hx Hn. apply (Hd _ Hn), list_elem_of_fmap. eauto.
Qed.

Lemma log_at_done rs js k L :
  drop k js = [] → log_at rs js k L → log_at (rs ++ js) [] 0 L.
Proof.
  intros Hd H. assert (Ht : take k js = js) by (rewrite <- (take_drop k js) at 2; by rewrite Hd, app_nil_r).
  destruct H as [->|bs r E ->|j fragment Hj _ _ _ _].
  - apply LogWhole. by rewrite Ht, app_nil_r.
  - eapply LogUnterminated; [|done]. by rewrite app_nil_r, <- E, Ht.
  - by rewrite (drop_S _ _ _ Hj) in Hd.
Qed.

Lemma log_at_empty rs js k :
  Forall audit_ok rs → Forall audit_ok js → log_at rs js k [] → take k js = [].
Proof.
  intros Hrs Hjs.
  assert (Hline : ∀ l, [] = log_text l → l = []).
  { intros [|r l]; [done|]. change (log_text (r :: l)) with (record_line r ++ log_text l).
    unfold record_line. intros E. symmetry in E. apply app_eq_nil in E as [E _].
    by destruct (record_text r). }
  intros [E|bs r E EL|j fragment _ Hne _ _ E].
  - apply Hline, app_eq_nil in E. by destruct E.
  - symmetry in EL. apply app_eq_nil in EL as [_ EL]. pose proof (log_records_ok _ _ _ Hjs Hrs k) as Hall.
    rewrite E in Hall. apply Forall_app in Hall as [_ Hr]. apply Forall_cons in Hr as [Hr _].
    by apply record_text_nonempty in Hr.
  - symmetry in E. by apply app_eq_nil in E as [_ E].
Qed.

(** ** Appending the missing records *)

Section AppendLogs.
Context (faulty : bool) (s : ledger_store).

Section Missing.
Context (rs js : list json) (Hrs : Forall audit_ok rs) (Hjs : Forall audit_ok js).
Context (Hnew : ∀ r j, r ∈ rs → j ∈ js → rec_key r ≠ rec_key j).
Context (Hkey : ∀ j, j ∈ js → event_key (members j) = rec_key j) (Hnd : NoDup (map rec_key js)).

Lemma event_keys : map (λ item, event_key (members item)) js = map rec_key js.
Proof. apply map_ext_in. intros j Hj. by apply Hkey, list_elem_of_In. Qed.

Lemma recent_wp (crash : files → Prop) k fs w :
  log_at rs js k (content (log_path s) fs) → js ≠ [] → (faulty = true → crash fs) →
  wp faulty crash (_recent_event_ids s (map rec_key js) (1 + size (log_text js)))
    (λ r fs' w', fs' = fs ∧ w' = w ∧
       match r with Ok ids => ids = map rec_key (take k js) | Raise _ => faulty = true end) fs w.
Proof.
  intros HL Hne Hc. unfold _recent_event_ids. apply wp_bind, wp_bind, wp_get_files, wp_ret.
  rewrite (bool_decide_eq_false_2 (map rec_key js = [])) by by destruct js. cbn [orb].
  case_bool_decide as Hp; cbn [negb].
  - apply wp_bind. unfold read_json_objects_tail.
    assert (Hlen : 1 ≤ Z.of_nat (length (map rec_key js))) by (destruct js; [done|]; simpl length; lia).
    replace ((Z.of_nat (length (map rec_key js)) <? 1) || (MAX <? 2) || _) with false.
    2: { symmetry. rewrite !orb_false_iff. split_and!; [apply Z.ltb_ge; lia|done|apply Z.ltb_ge; lia]. }
    apply wp_bind, wp_check; [|done|intros Hf msg; by split_and!].
    apply wp_bind, wp_get_files, wp_ret, wp_ret. split_and!; [done..|].
    destruct (tail_of_spec (content (log_path s) fs) (Z.of_nat (length (map rec_key js))) MAX
      (λ item, bool_decide (event_key item ∈ map rec_key js))
      (λ item, Some (JObj [("event_id", JStr (event_key item))]))
      (Some (Z.max 1 (1 + size (log_text js))))) as [E _]; [done|done| |].
    { intros m [= <-]. lia. }
    fold (tail_bound js (content (log_path s) fs)) in E.
    rewrite E, (events_found rs js Hrs Hjs Hnew k _ HL). unfold last_n.
    replace (length _ - _)%nat with 0%nat.
    2: { rewrite !length_map, length_take, Nat2Z.id. lia. }
    rewrite drop_0, map_map. done.
  - apply wp_ret. split_and!; [done..|]. unfold content in HL.
    destruct (fs !! log_path s) as [d|] eqn:E; [by destruct Hp|]. cbn in HL.
    by rewrite (log_at_empty _ _ _ Hrs Hjs HL).
Qed.

Lemma missing_records k :
  filter (λ item, event_key (members item) ∉ map rec_key (take k js)) js = drop k js.
Proof.
  rewrite <- (filter_missing (λ item, event_key (members item)) k js) by by rewrite event_keys.
  apply filter_ext_in. intros j Hj.
  replace (map rec_key (take k js)) with (map (λ item, event_key (members item)) (take k js)); [done|].
  apply map_ext_in. intros j' Hj'. apply Hkey. rewrite <- (take_drop k js). apply elem_of_app. left.
  by apply list_elem_of_In.
Qed.

(** The records of a journal are appended once: those the log already holds are
    found and left out. *)
Lemma append_missing_wp fs0 k fs w :
  log_only (log_path s) fs0 (log_at rs js k) fs → js ≠ [] →
  wp faulty (some_log (log_path s) fs0 rs js) (_append_missing_logs s js)
    (λ r fs' _, some_log (log_path s) fs0 rs js fs' ∧
       match r with
       | Ok _ => log_at (rs ++ js) [] 0 (content (log_path s) fs')
       | Raise _ => faulty = true
       end) fs w.
Proof.
  intros H Hne. unfold _append_missing_logs.
  assert (Hs : some_log (log_path s) fs0 rs js fs) by by eapply some_log_at.
  rewrite (encode_records _ _ js Hjs), event_keys, remove_dups_id by done.
  apply wp_bind, wp_of_res. cbv beta iota. rewrite log_text_size.
  apply wp_bind. eapply wp_mono; [apply recent_wp; [apply H|done|done]|]. cbv beta.
  intros [ids|e] fs' w' (-> & -> & Hids); [|done]. rewrite Hids, missing_records.
  destruct (drop k js) as [|m ms] eqn:Ed.
  { apply wp_ret. split; [done|]. eapply log_at_done; [done|apply H]. }
  rewrite <- Ed. apply wp_bind, wp_check; [|done|done].
  apply wp_bind, wp_attempt. eapply wp_mono.
  { apply append_wp; [done..|by rewrite Ed]. }
  cbv beta. intros [[n ws]|e] fs' w' Hpost; cbv beta iota.
  - assert (Hd : some_log (log_path s) fs0 rs js fs' ∧ log_at (rs ++ js) [] 0 (content (log_path s) fs')).
    { split; [|apply LogWhole; destruct Hpost as [<- _]; by rewrite app_nil_r].
      apply (some_log_at _ _ _ _ (length js)). eapply log_only_mono; [|exact Hpost].
      intros L <-. apply LogWhole. by rewrite firstn_all. }
    destruct ws as [|w0 ws]; [by apply wp_ret|].
    unfold _add_warning. apply wp_bind, wp_get_warning. intros o. by apply wp_set_warning.
  - destruct Hpost as [Hf Hpost]. destruct e; by apply wp_throw.
Qed.
End Missing.
End AppendLogs.
