(* ===== verification/Recovery.v ===== *)
(** * Recovery: transactions survive crashes

    The abstract store is a ledger document and a list of audit records. This
    file states when the files of a store stand for an abstract state ([clean],
    [pending], [recoverable]) and shows that reading the ledger, applying a
    journal and recovering one keep that meaning whatever faults strike. The
    theorems about whole transactions are in the file Transactions. *)

From S2P Require Import Prelude.
From S2P Require Import PyBase.
From S2P Require Import Json.
From S2P Require Import Files.
From S2P Require Import Jsonl.
From S2P Require Import Models.
From S2P Require Import Policy.
From S2P Require Import LedgerSchema.
From S2P Require Import Documents.
From S2P Require Import Storage.
From S2P Require Import AuditLog.

(** ** Paths *)

Lemma string_app_inj a b c : a +:+ b = a +:+ c → b = c.
Proof. induction a as [|x a IH]; simpl; [done|]. intros [= H]. by apply IH. Qed.

Lemma string_app_assoc a b c : (a +:+ b) +:+ c = a +:+ (b +:+ c).
Proof. induction a as [|x a IH]; [done|]. exact (f_equal (String x) IH). Qed.

Lemma prefix_app p q : String.prefix p q = true → ∃ rest, q = p +:+ rest.
Proof.
  revert q. induction p as [|x p IH]; intros q; [by exists q|]. destruct q as [|y q]; [done|].
  simpl. destruct (ascii_dec x y) as [->|]; [|done]. intros (rest & ->)%IH. by exists rest.
Qed.

Section Paths.
Context (s : ledger_store).

Lemma backup_path p :
  is_backup s p = true → p ≠ ledger_path s ∧ p ≠ log_path s ∧ p ≠ journal_path s ∧ p ≠ lock_path s.
Proof.
  unfold is_backup. intros [Hp _]%andb_true_iff. apply prefix_app in Hp as (rest & ->).
  unfold backup_prefix, ledger_path, log_path, journal_path, lock_path.
  rewrite string_app_assoc. split_and!; intros E%string_app_inj; discriminate E.
Qed.

Lemma paths_differ :
  ledger_path s ≠ log_path s ∧ ledger_path s ≠ journal_path s ∧ log_path s ≠ journal_path s ∧
  lock_path s ≠ ledger_path s ∧ lock_path s ≠ log_path s ∧ lock_path s ≠ journal_path s.
Proof.
  unfold ledger_path, log_path, journal_path, lock_path.
  split_and!; intros E%string_app_inj; discriminate E.
Qed.

Lemma backup_name stamp :
  let p := backup_prefix s +:+ stamp in
  p ≠ ledger_path s ∧ p ≠ log_path s ∧ p ≠ journal_path s ∧ p ≠ lock_path s.
Proof.
  cbn zeta. unfold backup_prefix, ledger_path, log_path, journal_path, lock_path.
  rewrite string_app_assoc. split_and!; intros E%string_app_inj; discriminate E.
Qed.
End Paths.

(** ** Documents and journals that are accepted *)

Definition has_id (t : string) (v : json) : bool :=
  scalar_eq (dict_get "last_transaction_id" (members v)) (JStr t).

Lemma members_canonical k v :
  readable v → dict_get k (members (canonical v)) = canonical (dict_get k (members v)).
Proof.
  destruct v as [| | | | | |kvs]; try done. intros Hr. rewrite canonical_obj. cbn [members].
  apply dict_get_canonical. by apply readable_keys.
Qed.

Lemma scalar_eq_canonical v w :
  (∀ l, w ≠ JList l) → (∀ o, w ≠ JObj o) → scalar_eq (canonical v) w = scalar_eq v w.
Proof. intros Hl Ho. destruct v; try done; destruct w; naive_solver. Qed.

Lemma has_id_canonical t v : readable v → has_id t (canonical v) = has_id t v.
Proof. intros Hr. unfold has_id. rewrite members_canonical by done. by apply scalar_eq_canonical. Qed.

Lemma stored_policy_canonical v : readable v → stored_policy (canonical v) = canonical <$> stored_policy v.
Proof.
  destruct v as [| | | | | |kvs]; try done. intros Hr. rewrite canonical_obj. unfold stored_policy.
  rewrite dict_get_canonical by by apply readable_keys. by destruct (dict_get "policy" kvs).
Qed.

Lemma storage_modes_canonical s v :
  readable v → _validate_storage_modes s (canonical v) = _validate_storage_modes s v.
Proof.
  intros Hr. unfold _validate_storage_modes. rewrite stored_policy_canonical by done.
  assert (Hp : ∀ p, stored_policy v = Some p → readable p).
  { destruct v as [| | | | | |kvs]; try done. intros p. cbn [stored_policy].
    pose proof (readable_member "policy" kvs Hr) as Hm. by destruct (dict_get "policy" kvs); intros [= <-]. }
  destruct (stored_policy v) as [p|]; [|done]. specialize (Hp p eq_refl). cbn [fmap option_fmap option_map].
  destruct p as [| | | | | |kvs]; try done. rewrite canonical_obj. unfold ledger_storage_modes.
  cbn [l_policy]. rewrite !dict_get_canonical by by apply readable_keys.
  destruct (dict_get "file_mode" kvs); try done. by destruct (dict_get "dir_mode" kvs).
Qed.

Lemma null_cases (v : json) : v = JNull ∨ v ≠ JNull.
Proof. destruct v; auto. Qed.

Lemma not_null {A} v (a b : A) : v ≠ JNull → match v with JNull => a | _ => b end = b.
Proof. by destruct v. Qed.

Lemma dumps_canonical f v : readable v → dumps f (canonical v) = dumps f v.
Proof.
  intros Hr. unfold dumps.
  by rewrite (readable_printable _ _ Hr), (readable_printable _ _ (canonical_readable _ Hr)), print_canonical.
Qed.

Lemma encode_canonical r max_line_bytes name c :
  readable r →
  encode_json_object_line (canonical r) max_line_bytes name c = encode_json_object_line r max_line_bytes name c.
Proof.
  intros Hr. destruct r as [| | | | | |kvs]; try done.
  pose proof (dumps_canonical (line_layout c) _ Hr) as Hd. rewrite canonical_obj in *.
  unfold encode_json_object_line. by rewrite Hd.
Qed.

Lemma validate_logs_canonical t seen logs :
  Forall readable logs → validate_journal_logs t seen (map canonical logs) = validate_journal_logs t seen logs.
Proof.
  intros Hl. revert seen. induction Hl as [|item logs Hi _ IH]; intros seen; [done|].
  cbn [map validate_journal_logs]. rewrite !members_canonical by done.
  destruct (dict_get "event_id" (members item)); try done. cbn [canonical].
  rewrite scalar_eq_canonical, encode_canonical by done.
  destruct (_ || _); [done|]. destruct (bool_decide _); [done|]. destruct (negb _); [done|].
  apply bind_ext; [done|]. intros _. apply IH.
Qed.

Lemma member_list_canonical v :
  is_member_list (canonical v) = map canonical <$> is_member_list v.
Proof.
  destruct v as [| | | | |l|]; try done. rewrite canonical_list. cbn [is_member_list].
  assert (E : forallb (λ v, is_object (Some v)) (map canonical l) = forallb (λ v, is_object (Some v)) l).
  { induction l as [|v l IH]; [done|]. cbn [map forallb]. rewrite IH. by destruct v. }
  rewrite E. clear E. by destruct (forallb (λ v, is_object (Some v)) l).
Qed.

Lemma is_member_list_Some v l : is_member_list v = Some l → v = JList l.
Proof. destruct v; try done. cbn. destruct (forallb _ _); [by intros [= ->]|done]. Qed.

Lemma validate_journal_canonical s J :
  readable J → _validate_journal s (canonical J) = _validate_journal s J.
Proof.
  intros Hr. destruct J as [| | | | | |kvs]; try done.
  pose proof (readable_keys _ Hr) as Hd. rewrite canonical_obj. unfold _validate_journal.
  rewrite !dict_get_canonical, scalar_eq_canonical by done. destruct (negb _); [done|].
  destruct (dict_get "transaction_id" kvs) as [| | | |t| |]; try done. cbn [canonical].
  destruct (bool_decide _); [done|]. apply bind_ext.
  - pose proof (readable_member "ledger" kvs Hr) as Hl.
    destruct (dict_get "ledger" kvs) as [| | | | | |lkvs]; try done.
    pose proof (validate_canonical _ Hl) as Hv. pose proof (storage_modes_canonical s _ Hl) as Hm.
    pose proof (members_canonical "last_transaction_id" _ Hl) as Hi. rewrite canonical_obj in *.
    unfold _validate_ledger. by rewrite Hv, Hm, Hi, scalar_eq_canonical.
  - intros []. rewrite member_list_canonical.
    destruct (is_member_list (dict_get "logs" kvs)) as [l|] eqn:El; [|done].
    cbn [fmap option_fmap option_map]. apply validate_logs_canonical.
    apply is_member_list_Some in El. pose proof (readable_member "logs" kvs Hr) as Hm.
    rewrite El in Hm. by apply readable_list in Hm.
Qed.

Section Store.
Context (s : ledger_store).

(** A ledger the store can write and read. *)
Definition doc_ok (v : json) : Prop :=
  readable v ∧ _validate_ledger v = Ok tt ∧ _validate_storage_modes s v = Ok tt.

Definition tid (J : json) : string := j_transaction_id (members J).
Definition j_ledger (J : json) : json := dict_get "ledger" (members J).
Definition logs_of (J : json) : list json := j_logs (members J).

Lemma doc_ok_canonical v : doc_ok v → doc_ok (canonical v).
Proof.
  intros (Hr & Hv & Hm). split; [by apply canonical_readable|]. unfold _validate_ledger.
  by rewrite validate_canonical, storage_modes_canonical.
Qed.

Lemma empty_document_ok : doc_ok _empty_ledger.
Proof.
  split_and!; [|by vm_compute|by vm_compute]. cbn. split_and!; try done.
  repeat constructor; set_solver.
Qed.

(** The records of an accepted journal. *)
Lemma validate_logs_inv t seen logs :
  Forall readable logs → validate_journal_logs t seen logs = Ok tt →
  Forall audit_ok logs ∧ (∀ j, j ∈ logs → event_key (members j) = rec_key j) ∧
  NoDup (map rec_key logs) ∧ (∀ j, j ∈ logs → rec_key j ∉ seen).
Proof.
  intros Hr. revert seen. induction Hr as [|item logs Hi _ IH]; intros seen.
  { intros _. split_and!; [constructor|by intros j ?%not_elem_of_nil|constructor|by intros j ?%not_elem_of_nil]. }
  cbn [validate_journal_logs].
  destruct (dict_get "event_id" (members item)) as [| | | |e| |] eqn:Ee; try done.
  destruct (_ || _); [done|]. case_bool_decide as Hs; [done|]. destruct (negb _); [done|].
  destruct (encode_json_object_line _ _ _ _) as [line|] eqn:El; [|done]. cbn [mbind res_bind].
  intros H. apply IH in H as (Ha & Hk & Hn & Hseen).
  apply encode_record_inv in El as [Hok _]; [|done].
  assert (Hkey : event_key (members item) = e ∧ rec_key item = e).
  { assert (Hc : dict_get "event_id" (members (canonical item)) = JStr e)
      by by rewrite members_canonical, Ee.
    unfold rec_key, event_key, dict_get in *.
    destruct (assoc_get "event_id" (members item)) as [v|]; [|done].
    destruct (assoc_get "event_id" (members (canonical item))) as [v'|]; [|done].
    cbn in *. by subst. }
  destruct Hkey as [Hk1 Hk2]. split_and!; [by constructor| | |].
  - intros j [->|Hj]%elem_of_cons; [by rewrite Hk1, Hk2|by apply Hk].
  - cbn [map]. rewrite Hk2. apply NoDup_cons. split; [|done].
    intros (j & E & Hj)%list_elem_of_fmap. apply (Hseen j Hj). rewrite <- E. left.
  - intros j [->|Hj]%elem_of_cons; [by rewrite Hk2|]. intros Hn'. apply (Hseen j Hj). by right.
Qed.

(** An accepted journal: its transaction, ledger and records. *)
Record journal_ok (J : json) : Prop := JournalOk {
  jo_readable : readable J;
  jo_valid : _validate_journal s J = Ok tt;
  jo_transaction : dict_get "transaction_id" (members J) = JStr (tid J);
  jo_ledger : j_ledger J = JNull ∨ j_ledger J ≠ JNull ∧ doc_ok (j_ledger J) ∧ has_id (tid J) (j_ledger J) = true;
  jo_logs : Forall audit_ok (logs_of J);
  jo_keys : ∀ j, j ∈ logs_of J → event_key (members j) = rec_key j;
  jo_distinct : NoDup (map rec_key (logs_of J));
}.

Lemma journal_valid J : readable J → _validate_journal s J = Ok tt → journal_ok J.
Proof.
  intros Hr Hv. assert (Hv' := Hv). destruct J as [| | | | | |kvs]; try done. unfold _validate_journal in Hv.
  destruct (negb _); [done|].
  destruct (dict_get "transaction_id" kvs) as [| | | |t| |] eqn:Et; try done.
  assert (Ht : tid (JObj kvs) = t) by (unfold tid, j_transaction_id; cbn [members]; by rewrite Et).
  destruct (bool_decide _); [done|].
  match type of Hv with mbind _ ?m = _ => destruct m as [[]|] eqn:El end; [|done]. cbn [mbind res_bind] in Hv.
  destruct (is_member_list _) as [l|] eqn:Em; [|done]. apply is_member_list_Some in Em.
  pose proof (readable_member "logs" kvs Hr) as Hrl. rewrite Em in Hrl. apply readable_list in Hrl.
  destruct (validate_logs_inv _ _ _ Hrl Hv) as (Ha & Hk & Hn & _).
  assert (Hlogs : logs_of (JObj kvs) = l) by (unfold logs_of, j_logs; cbn [members]; by rewrite Em).
  split; rewrite ?Hlogs, ?Ht; try done. unfold j_ledger. cbn [members].
  pose proof (readable_member "ledger" kvs Hr) as Hrl'.
  destruct (dict_get "ledger" kvs) as [| | | | | |lk]; [by left|try done..]. right.
  split; [done|]. destruct (_validate_ledger (JObj lk)) as [[]|] eqn:E1; [|done].
  cbn [mbind res_bind] in El. destruct (_validate_storage_modes s (JObj lk)) as [[]|] eqn:E2; [|done].
  cbn [mbind res_bind] in El. split; [by split_and!|]. unfold has_id.
  by destruct (scalar_eq _ _).
Qed.

Lemma journal_ok_canonical J : journal_ok J → journal_ok (canonical J).
Proof.
  intros [Hr Hv _ _ _ _ _]. apply journal_valid; [by apply canonical_readable|].
  by rewrite validate_journal_canonical.
Qed.

Lemma tid_canonical J : readable J → tid (canonical J) = tid J.
Proof.
  intros Hr. unfold tid, j_transaction_id. rewrite members_canonical by done.
  by destruct (dict_get "transaction_id" (members J)).
Qed.

Lemma j_ledger_canonical J : readable J → j_ledger (canonical J) = canonical (j_ledger J).
Proof. apply members_canonical. Qed.

Lemma logs_of_canonical J : readable J → logs_of (canonical J) = map canonical (logs_of J).
Proof.
  intros Hr. unfold logs_of, j_logs. rewrite members_canonical by done.
  by destruct (dict_get "logs" (members J)).
Qed.

(** ** What the files of a store stand for *)

(** The abstract store: the ledger and the audit records, oldest first. *)
Record state := State { st_ledger : json; st_records : list json }.

Definition state_ok (V : state) : Prop := doc_ok (st_ledger V) ∧ Forall audit_ok (st_records V).

(** The state a journal leads to. *)
Definition after (V : state) (J : json) : state :=
  State (match j_ledger J with JNull => st_ledger V | ledger => ledger end) (st_records V ++ logs_of J).

Definition ledger_at (ledger : json) (fs : files) : Prop :=
  match fs !! ledger_path s with
  | Some data => data = document_text ledger
  | None => canonical ledger = canonical _empty_ledger
  end.

(** The documents the backups hold. *)
Definition backup_docs (B : json → Prop) (fs : files) : Prop :=
  ∀ p data v, is_backup s p = true → fs !! p = Some data → loads data = Some v →
    _validate_ledger v = Ok tt → B v.

(** No transaction is pending; the last record of the log may lack its newline. *)
Definition clean (V : state) (fs : files) : Prop :=
  fs !! journal_path s = None ∧ ledger_at (st_ledger V) fs ∧
  log_at (st_records V) [] 0 (content (log_path s) fs).

(** A journal for a state: its records are new. *)
Definition journal_for (V : state) (J : json) : Prop :=
  journal_ok J ∧ ∀ r j, r ∈ st_records V → j ∈ logs_of J → rec_key r ≠ rec_key j.

(** How far the journal is applied: the ledger is old or new, and the log holds some
    of the records. A backup with the ledger of the journal is only made from then on. *)
Definition applied (V : state) (J : json) (fs : files) : Prop :=
  (ledger_at (st_ledger (after V J)) fs ∨
   ledger_at (st_ledger V) fs ∧ has_id (tid J) (st_ledger V) = false ∧
   backup_docs (λ v, has_id (tid J) v = false) fs) ∧
  ∃ k, log_at (st_records V) (logs_of J) k (content (log_path s) fs).

(** The journal is durable. *)
Definition pending (V : state) (J : json) (fs : files) : Prop :=
  fs !! journal_path s = Some (document_text J) ∧ journal_for V J ∧ applied V J fs.

Lemma after_ok V J : state_ok V → journal_ok J → state_ok (after V J).
Proof.
  intros [Hl Hr] HJ. split; [|by apply Forall_app; split; [|apply (jo_logs _ HJ)]].
  unfold after. destruct (jo_ledger _ HJ) as [->|(Hn & Hd & _)]; [done|].
  cbn [st_ledger]. by destruct (j_ledger J).
Qed.

Lemma after_ledger V J :
  j_ledger J ≠ JNull → st_ledger (after V J) = j_ledger J.
Proof. intros H. unfold after. cbn [st_ledger]. by destruct (j_ledger J). Qed.

(** States are the same when their files are: the order of members is not stored. *)
#[global] Instance state_equiv : Equiv state := λ V V',
  canonical (st_ledger V) = canonical (st_ledger V') ∧
  map canonical (st_records V) = map canonical (st_records V').

#[global] Instance state_equivalence : Equivalence (≡@{state}).
Proof.
  split; [done|intros V V' [? ?]; by split|]. intros V1 V2 V3 [H1 H2] [H3 H4].
  split; by etrans.
Qed.

(** A transaction is pending that leads to [V']. *)
Definition pending_for (V' : state) (fs : files) : Prop :=
  ∃ V J, state_ok V ∧ pending V J fs ∧ after V J ≡ V'.

(** The files stand for [V'], directly or once their journal is applied. *)
Definition recoverable (V' : state) (fs : files) : Prop := clean V' fs ∨ pending_for V' fs.

(** The ledger and the log are those of [V']; the journal may still be there. *)
Definition settled (V' : state) (fs : files) : Prop :=
  ledger_at (st_ledger V') fs ∧ log_at (st_records V') [] 0 (content (log_path s) fs) ∧
  (fs !! journal_path s = None ∨ pending_for V' fs).

Lemma settled_recoverable V fs : settled V fs → recoverable V fs.
Proof. intros (Hl & Hlog & [Hj|Hp]); [by left|by right]. Qed.

Lemma clean_settled V fs : clean V fs → settled V fs.
Proof. intros (Hj & Hl & Hlog). split_and!; auto. Qed.

(** *** Values that print alike *)

Lemma record_text_canonical r : record_text (canonical r) = record_text r.
Proof. unfold record_text. by rewrite print_canonical. Qed.

Lemma log_text_canonical rs : log_text (map canonical rs) = log_text rs.
Proof.
  induction rs as [|r rs IH]; [done|]. cbn [map].
  change (log_text (?a :: ?l)) with (record_line a ++ log_text l). rewrite IH. unfold record_line.
  by rewrite record_text_canonical.
Qed.

Lemma log_at_canonical rs js k L :
  log_at rs js k L → log_at rs (map canonical js) k L.
Proof.
  assert (Hc : ∀ rs, log_text (rs ++ take k (map canonical js)) = log_text (rs ++ take k js)).
  { intros rs'. rewrite !log_text_app. by rewrite firstn_map, log_text_canonical. }
  intros [->|bs r E ->|j fragment Hj Hne Hp Hneq ->].
  - apply LogWhole. by rewrite Hc.
  - destruct (take k js) as [|j K _] eqn:EK using rev_ind.
    + apply (LogUnterminated _ _ _ _ bs r); [|done]. by rewrite firstn_map, EK.
    + rewrite (assoc_L (++)) in E. apply app_inj_tail in E as [<- <-].
      apply (LogUnterminated _ _ _ _ (rs ++ map canonical K) (canonical j)).
      * rewrite firstn_map, EK, map_app. by rewrite (assoc_L (++)).
      * by rewrite !log_text_app, log_text_canonical, record_text_canonical.
  - apply (LogTorn _ _ _ _ (canonical j) fragment); try done; rewrite ?record_text_canonical; try done.
    + rewrite list_lookup_fmap. by rewrite Hj.
    + by rewrite Hc.
Qed.

Lemma log_at_old rs rs' L :
  map canonical rs = map canonical rs' → log_at rs [] 0 L → log_at rs' [] 0 L.
Proof.
  intros E. assert (Ht : log_text rs = log_text rs').
  { by rewrite <- (log_text_canonical rs), E, log_text_canonical. }
  intros [->|bs r Er ->|j fragment Hj _ _ _ _]; [| |done].
  - apply LogWhole. cbn [take]. by rewrite !app_nil_r.
  - cbn [take] in Er. rewrite app_nil_r in Er. subst rs.
    destruct rs' as [|r' bs' _] using rev_ind; [by destruct bs|].
    rewrite !map_app in E. apply app_inj_tail in E as [Eb Er].
    apply (LogUnterminated _ _ _ _ bs' r'); [by rewrite app_nil_r|].
    rewrite <- (log_text_canonical bs), Eb, log_text_canonical.
    by rewrite <- (record_text_canonical r), Er, record_text_canonical.
Qed.

Lemma ledger_at_canonical led led' fs :
  canonical led = canonical led' → ledger_at led fs → ledger_at led' fs.
Proof.
  intros E. unfold ledger_at. destruct (fs !! ledger_path s); [|by rewrite E].
  intros ->. by rewrite <- (document_canonical led), E, document_canonical.
Qed.

(** ** Reading the ledger *)

Section Reading.
Context (faulty : bool).

Lemma load_json_reads p fs :
  reads faulty (load_json p) fs (λ r,
    match r with
    | Ok v => loads (content p fs) = Some v
    | Raise e => is_load_error e = true ∧ (faulty = true ∨ loads (content p fs) = None)
    end).
Proof.
  unfold load_json. apply reads_bind, reads_check; [|by intros Hf msg; split; [|left]].
  apply reads_bind, reads_get_files. destruct (loads _) as [v|] eqn:E; [by apply reads_ret|].
  apply reads_throw. by split; [|right].
Qed.

Lemma load_document_reads p b fs :
  reads faulty (load_document p b) fs (λ r,
    match r with
    | Ok v => loads (content p fs) = Some v ∧ _validate_ledger v = Ok tt
    | Raise e => is_load_error e = true ∧ faulty = true ∨ loads (content p fs) = None ∨
        ∃ v, loads (content p fs) = Some v ∧ _validate_ledger v = Raise e
    end).
Proof.
  unfold load_document. apply reads_bind.
  apply (reads_mono _ _ _ _ (λ r, match r with Ok _ => True | Raise e => is_load_error e = true ∧ faulty = true end)).
  { destruct b; [by apply reads_check|by apply reads_ret]. }
  intros [[]|e]; [|by left]. intros _. apply reads_bind. eapply reads_mono; [apply load_json_reads|].
  intros [v|e]; [|intros [H1 [H2|H2]]; auto]. intros Hv. apply reads_bind, reads_of_res.
  destruct (_validate_ledger v) as [[]|e] eqn:E; [by apply reads_ret|]. right. right. eauto.
Qed.

(** A document that a backup holds. *)
Definition backup_doc (fs : files) (v : json) : Prop :=
  ∃ p data, is_backup s p = true ∧ fs !! p = Some data ∧ loads data = Some v ∧ _validate_ledger v = Ok tt.

Lemma first_backup_reads paths b fs :
  (∀ p, p ∈ paths → is_backup s p = true ∧ is_Some (fs !! p)) →
  reads faulty (first_backup paths b) fs (λ r, match r with Ok (Some v) => backup_doc fs v | _ => True end).
Proof.
  induction paths as [|p paths IH]; intros Hp; [by apply reads_ret|]. cbn [first_backup].
  apply reads_bind, reads_attempt. eapply reads_mono; [apply load_document_reads|].
  intros [v|e] Hr; cbv beta iota in *.
  - apply reads_ret. destruct (Hp p) as [Hb [d Hd]]; [left|]. exists p, d.
    unfold content in Hr. by rewrite Hd in Hr.
  - destruct (is_load_error e); [|by apply reads_throw]. apply IH. intros q Hq. apply Hp. by right.
Qed.

Lemma backups_spec fs p : p ∈ backups s fs → is_backup s p = true ∧ is_Some (fs !! p).
Proof.
  unfold backups. rewrite (list_elem_of_In _ p), sort_by_perm, <- list_elem_of_In.
  rewrite list_elem_of_filter, list_elem_of_fmap. intros [Hb ([q d] & -> & Hq)].
  apply elem_of_map_to_list in Hq. split; [done|by exists d].
Qed.

(** What reading the ledger returns: the ledger, or a backup when it cannot be opened. *)
Definition base_of (led : json) (fs : files) (v : json) : Prop :=
  readable v ∧ canonical v = canonical led ∨ faulty = true ∧ backup_doc fs v.

Lemma load_unlocked_reads led b fs :
  ledger_at led fs → doc_ok led →
  reads faulty (_load_unlocked s b) fs
    (λ r, match r with Ok v => base_of led fs v | Raise _ => faulty = true end).
Proof.
  intros Hl (Hr & Hv & Hm). unfold _load_unlocked. apply reads_bind, reads_bind, reads_get_files, reads_ret.
  unfold ledger_at in Hl. case_bool_decide as Hp; cbn [negb].
  - destruct Hp as [d Hd]. rewrite Hd in Hl. subst d.
    apply reads_bind, reads_attempt. eapply reads_mono; [apply load_document_reads|].
    assert (Ec : loads (content (ledger_path s) fs) = Some (canonical led))
      by (unfold content; rewrite Hd; by apply document_loads).
    rewrite Ec. intros [v|e] Hres; cbv beta iota in *.
    + destruct Hres as [[= <-] _]. apply reads_bind, reads_ret.
      apply reads_bind, reads_of_res. rewrite storage_modes_canonical, Hm by done. apply reads_ret. left.
      by split; [apply canonical_readable|rewrite canonical_idemp].
    + destruct Hres as [[He Hf]|[?|(v & [= <-] & Hx)]]; [|done|].
      2: { unfold _validate_ledger in *. by rewrite validate_canonical, Hv in Hx. }
      rewrite He. apply reads_bind, reads_bind.
      apply (reads_mono _ _ _ _ (λ r, match r with Ok (Some v) => backup_doc fs v | _ => True end)).
      { apply reads_bind, reads_check; [|done]. apply reads_bind, reads_get_files.
        apply first_backup_reads. by intros p ?%backups_spec. }
      intros [[v|]|e']; cbv beta iota; [|intros _; by apply reads_throw|done].
      intros Hb. apply reads_bind. unfold _add_warning. apply reads_bind, reads_get_warning.
      intros o. apply reads_set_warning, reads_ret. apply reads_bind, reads_of_res.
      destruct (_validate_storage_modes s v) as [[]|]; [|done]. apply reads_ret. by right.
  - destruct (fs !! ledger_path s); [by destruct Hp|]. apply reads_ret. left.
    split; [apply empty_document_ok|done].
Qed.
End Reading.

(** ** Writing a document *)

Section Writing.
Context (faulty : bool).

Lemma atomic_write_wp crash path v (Q : res unit → assertion) fs w :
  readable v →
  (faulty = true → crash fs ∧ crash (<[path := document_text v]> fs)) →
  (∀ r, match r with Ok _ => True | Raise e => faulty = true ∧ is_os_error e = true end →
     Q r (<[path := document_text v]> fs) w) →
  (∀ e, faulty = true → is_os_error e = true → Q (Raise e) fs w) →
  wp faulty crash (_atomic_write_json path v) Q fs w.
Proof.
  intros Hr Hc Hnew Hold. unfold _atomic_write_json.
  assert (Hc1 : faulty = true → crash fs) by (intros Hf; by apply Hc).
  assert (Hfail : ∀ e, faulty = true → is_os_error e = true → Q (Raise e) fs w) by done.
  assert (Hos : faulty = true → ∀ msg, Q (Raise (OSError msg)) fs w) by auto.
  apply wp_bind, wp_check; [|done..]. apply wp_bind, wp_of_res. unfold dumps.
  rewrite (readable_printable _ _ Hr). cbv iota. apply wp_bind, wp_check; [|done..].
  apply wp_bind, wp_bind, wp_get_files, wp_ret. apply wp_bind.
  assert (Hrest : wp faulty crash (check ≫= λ _, replace_file path (utf8_encode (print_value indented 0 v ++ [newline]))
     ≫= λ _, check) Q fs w).
  { apply wp_bind, wp_check; [|done..]. fold (document_text v). apply wp_bind.
    assert (Hn : faulty = true → ∀ msg, Q (Raise (OSError msg)) (<[path := document_text v]> fs) w)
      by (intros Hf msg; by apply Hnew).
    apply wp_at_once; [|by intros Hf; apply Hc|done..].
    apply wp_check; [by apply Hnew|by intros Hf; apply Hc|done]. }
  case_bool_decide; [by apply wp_check|by apply wp_ret].
Qed.

(** ** Backups *)

Definition next_backup (now : datetime) : string := backup_prefix s +:+ backup_stamp now +:+ ".json".

Lemma prune_stays Φ paths removed :
  (∀ p fs, p ∈ paths → Φ fs → Φ (delete p fs)) → stays faulty Φ (prune paths removed).
Proof.
  revert removed. induction paths as [|p paths IH]; intros removed H; [by apply stays_ret|].
  cbn [prune]. apply stays_bind; [apply stays_check|intros _]. apply stays_bind; [apply stays_check|intros _].
  apply stays_bind; [apply stays_at_once; intros fs; apply H; left|]. intros _. apply IH.
  intros q fs Hq. apply H. by right.
Qed.

Lemma slice_from_sub {A} n (l : list A) x : x ∈ slice_from n l → x ∈ l.
Proof.
  assert (Hd : ∀ k, x ∈ drop k l → x ∈ l).
  { intros k Hx. rewrite <- (take_drop k l). apply elem_of_app. by right. }
  unfold slice_from. destruct (n <? 0); apply Hd.
Qed.

(** A backup adds one document and removes backups. *)
Lemma write_backup_stays Φ v :
  readable v →
  (∀ now fs, Φ fs → Φ (<[next_backup now := document_text v]> fs)) →
  (∀ p fs, is_backup s p = true → Φ fs → Φ (delete p fs)) →
  stays faulty Φ (_write_backup s v).
Proof.
  intros Hr Hadd Hdel. unfold _write_backup. intros fs w HΦ. apply wp_bind, wp_of_M.
  unfold clock_raw. cbn [fst snd]. apply wp_bind, wp_check; [|done..]. apply wp_bind.
  apply atomic_write_wp; [done|by intros Hf; split; [|apply Hadd]| |by intros].
  intros [[]|e] He; [|split; [by apply Hadd|by destruct He]].
  apply wp_stays; [|by apply Hadd|intros r fs' w' HΦ' Hr'; split; [done|]; destruct r; eauto].
  unfold _prune_backups. intros fs' w' HΦ'. apply wp_bind, wp_get_files, wp_bind.
  apply wp_stays; [|done|].
  - apply prune_stays. intros p fs1 Hp. apply Hdel. apply slice_from_sub, backups_spec in Hp. apply Hp.
  - intros [[]|e] fs1 w1 HΦ1 He1; [by apply wp_check|by apply wp_ret|]. split; [done|by eapply He1].
Qed.

Lemma add_warning_stays Φ ms : stays faulty Φ (_add_warning ms).
Proof.
  intros fs w H. unfold _add_warning. apply wp_bind, wp_get_warning. intros o. by apply wp_set_warning.
Qed.
End Writing.

(** ** Applying a journal *)

(** Nothing but these changes: the ledger, the log and the lock file, backups that go
    and backups of the ledger. *)
Definition grows (led : json) (fs0 fs : files) : Prop :=
  ∀ p, p ≠ ledger_path s → p ≠ log_path s → p ≠ lock_path s →
  fs !! p = fs0 !! p ∨ fs !! p = None ∨
  p ≠ journal_path s ∧ ∃ v, readable v ∧ canonical v = canonical led ∧ fs !! p = Some (document_text v).

Lemma grows_refl led fs : grows led fs fs.
Proof. intros p _ _ _. by left. Qed.

Lemma grows_trans led fs1 fs2 fs3 : grows led fs1 fs2 → grows led fs2 fs3 → grows led fs1 fs3.
Proof.
  intros H1 H2 p Hp1 Hp2 Hp3. destruct (H2 p) as [->|[H|H]]; [done..| | |]; auto.
Qed.

Lemma grows_insert led fs p d :
  p = ledger_path s ∨ p = log_path s ∨ p = lock_path s → grows led fs (<[p := d]> fs).
Proof. intros Hp q H1 H2 H3. left. apply lookup_insert_ne. naive_solver. Qed.

Lemma grows_delete led fs p : grows led fs (delete p fs).
Proof.
  intros q _ _ _. destruct (decide (q = p)) as [->|Hq]; [right; left; by apply lookup_delete_eq|].
  left. by apply lookup_delete_ne.
Qed.

Lemma grows_backup led fs v now :
  readable v → canonical v = canonical led → grows led fs (<[next_backup now := document_text v]> fs).
Proof.
  intros Hr Hv q _ _ _. destruct (decide (q = next_backup now)) as [->|Hq].
  - right. right. split; [|exists v; by rewrite lookup_insert_eq].
    apply (backup_name s (backup_stamp now +:+ ".json")).
  - left. by apply lookup_insert_ne.
Qed.

Lemma grows_log led fs Φ fs' : log_only (log_path s) fs Φ fs' → grows led fs fs'.
Proof. intros [_ H] p _ Hp _. left. by apply H. Qed.

(** A change of some files keeps what others stand for. *)
Lemma ledger_at_frame led fs fs' :
  fs' !! ledger_path s = fs !! ledger_path s → ledger_at led fs → ledger_at led fs'.
Proof. unfold ledger_at. by intros ->. Qed.

Lemma content_frame p fs fs' : fs' !! p = fs !! p → content p fs' = content p fs.
Proof. unfold content. by intros ->. Qed.

Lemma backup_docs_frame B fs fs' :
  (∀ p, is_backup s p = true → fs' !! p = fs !! p ∨ fs' !! p = None) → backup_docs B fs → backup_docs B fs'.
Proof.
  intros H HB p d v Hb Hd. destruct (H p Hb) as [E|E]; rewrite E in Hd; [|done]. by eapply HB.
Qed.

(** The three files of the store other than backups. *)
Definition same_files (fs fs' : files) : Prop :=
  ∀ p, p = ledger_path s ∨ p = log_path s ∨ p = journal_path s → fs' !! p = fs !! p.

Lemma applied_frame V J fs fs' :
  same_files fs fs' → (∀ p, is_backup s p = true → fs' !! p = fs !! p ∨ fs' !! p = None) →
  applied V J fs → applied V J fs'.
Proof.
  intros Hsame Hb [Hl [k Hk]]. split.
  - destruct Hl as [Hl|(Hl & Hid & HB)]; [left|right; split_and!; [|done|by eapply backup_docs_frame]];
      eapply ledger_at_frame, Hl; apply Hsame; auto.
  - exists k. by rewrite (content_frame _ fs) by (apply Hsame; auto).
Qed.

Lemma pending_frame V J fs fs' :
  same_files fs fs' → (∀ p, is_backup s p = true → fs' !! p = fs !! p ∨ fs' !! p = None) →
  pending V J fs → pending V J fs'.
Proof.
  intros Hsame Hb (Hj & HJ & Ha). split_and!; [by rewrite Hsame by auto|done|by eapply applied_frame].
Qed.

(** The ledger of the journal is in place. *)
Definition written (V : state) (J : json) (fs : files) : Prop :=
  pending V J fs ∧ ledger_at (st_ledger (after V J)) fs.

Lemma written_frame V J fs fs' : same_files fs fs' → written V J fs → written V J fs'.
Proof.
  intros Hsame [(Hj & HJ & [_ [k Hk]]) Hl].
  assert (Hl' : ledger_at (st_ledger (after V J)) fs') by (eapply ledger_at_frame, Hl; apply Hsame; auto).
  split; [split_and!|]; [by rewrite Hsame by auto|done| |done]. split; [by left|].
  exists k. by rewrite (content_frame _ fs) by (apply Hsame; auto).
Qed.

Lemma same_files_insert p d fs :
  p ≠ ledger_path s → p ≠ log_path s → p ≠ journal_path s → same_files fs (<[p := d]> fs).
Proof. intros H1 H2 H3 q Hq. apply lookup_insert_ne. naive_solver. Qed.

Lemma same_files_delete p fs :
  p ≠ ledger_path s → p ≠ log_path s → p ≠ journal_path s → same_files fs (delete p fs).
Proof. intros H1 H2 H3 q Hq. apply lookup_delete_ne. naive_solver. Qed.

Lemma written_ledger V J fs :
  pending V J fs → j_ledger J ≠ JNull → written V J (<[ledger_path s := document_text (j_ledger J)]> fs).
Proof.
  intros (Hj & HJ & [_ [k Hk]]) Hn. pose proof (paths_differ s) as (H1 & H2 & H3 & _).
  assert (Hl : ledger_at (st_ledger (after V J)) (<[ledger_path s := document_text (j_ledger J)]> fs)).
  { unfold ledger_at. rewrite lookup_insert_eq. by rewrite after_ledger. }
  split; [split_and!|done]; [by rewrite lookup_insert_ne|done|split; [by left|]].
  exists k. by rewrite content_insert_ne.
Qed.

(** Records that reach the log. *)
Lemma written_log V J fs fs' :
  written V J fs → some_log (log_path s) fs (st_records V) (logs_of J) fs' → written V J fs'.
Proof.
  intros [(Hj & HJ & _) Hl] [HL Hother]. pose proof (paths_differ s) as (H1 & H2 & H3 & _).
  assert (Hl' : ledger_at (st_ledger (after V J)) fs') by (eapply ledger_at_frame, Hl; by apply Hother).
  split; [split_and!|done]; [by rewrite Hother by auto|done|split; [by left|done]].
Qed.

Section Apply.
Context (faulty : bool) (V : state) (J : json) (fs0 : files) (HV : state_ok V).

Let new : json := st_ledger (after V J).
Let before (fs : files) : Prop := pending V J fs ∧ grows new fs0 fs.
Let done_ledger (fs : files) : Prop := written V J fs ∧ grows new fs0 fs.

Lemma done_before fs : done_ledger fs → before fs.
Proof. intros [[H _] Hg]. by split. Qed.

Lemma apply_ledger_wp fs w :
  before fs → j_ledger J ≠ JNull →
  wp faulty before (apply_ledger s (j_ledger J) (tid J))
    (λ r fs' _, match r with Ok _ => done_ledger fs' | Raise _ => faulty = true ∧ before fs' end) fs w.
Proof.
  intros [Hp Hg] Hn. pose proof Hp as (_ & [HJ _] & Ha). unfold apply_ledger.
  destruct (jo_ledger _ HJ) as [?|(_ & Hdoc & Hid)]; [done|].
  assert (Hnew : doc_ok new) by (unfold new; by rewrite after_ledger).
  assert (Hw : done_ledger (<[ledger_path s := document_text (j_ledger J)]> fs)).
  { split; [by apply written_ledger|]. eapply grows_trans; [exact Hg|]. apply grows_insert. by left. }
  assert (Hwrite : ∀ w1, wp faulty before (_atomic_write_ledger s (j_ledger J))
    (λ r fs' _, match r with Ok _ => done_ledger fs' | Raise _ => faulty = true ∧ before fs' end) fs w1).
  { intros w1. unfold _atomic_write_ledger. apply wp_bind, wp_of_res. destruct Hdoc as (Hr & -> & _).
    apply wp_bind, wp_check; [|by split..]. apply atomic_write_wp; [done| | |by intros].
    - intros _. split; [by split|by apply done_before].
    - intros [[]|e] He; [done|]. split; [by destruct He|by apply done_before]. }
  apply wp_bind, wp_attempt.
  set (Has := λ v, has_id (tid J) v = true → ledger_at new fs).
  apply wp_reads with (R := λ r, match r with Ok v => Has v | Raise _ => faulty = true end);
    [|by split|].
  - destruct Ha as [[Hl|(Hl & Hold & HB)] _].
    + eapply reads_mono; [by eapply load_unlocked_reads|]. by intros [v|e]; cbv beta iota; [intros _ _|].
    + destruct HV as [HVl _]. eapply reads_mono; [by eapply load_unlocked_reads|].
      intros [v|e]; cbv beta iota; [|done]. intros [[Hr Hc]|[Hf (p & d & Hb & Hd & Hld & Hv)]] Ht.
      * rewrite <- has_id_canonical, Hc, has_id_canonical, Hold in Ht; [done|apply HVl|done].
      * by rewrite (HB p d v Hb Hd Hld Hv) in Ht.
  - intros r w' Hr. assert (Hcont : ∀ v, Has v → wp faulty before
      (if negb (scalar_eq (dict_get "last_transaction_id" (members v)) (JStr (tid J)))
       then _atomic_write_ledger s (j_ledger J) else mret tt)
      (λ r fs' _, match r with Ok _ => done_ledger fs' | Raise _ => faulty = true ∧ before fs' end) fs w').
    { intros v Hv. fold (has_id (tid J) v). destruct (has_id (tid J) v) eqn:E; cbn [negb].
      - apply wp_ret. split; [|done]. split; [done|by apply Hv].
      - apply Hwrite. }
    destruct r as [v|e]; [by apply wp_bind, wp_ret, Hcont|].
    destruct e; try (apply wp_bind, wp_throw; by split). apply wp_bind, wp_ret, Hcont. by intros H.
Qed.

Lemma grows_new_log fs fs' Φ : log_only (log_path s) fs Φ fs' → grows new fs0 fs → grows new fs0 fs'.
Proof. intros H Hg. eapply grows_trans; [exact Hg|]. by eapply grows_log. Qed.

Lemma done_frame fs fs' :
  done_ledger fs → same_files fs fs' → grows new fs fs' → done_ledger fs'.
Proof. intros [H Hg] Hs Hg'. split; [by eapply written_frame|by eapply grows_trans]. Qed.

(** The backup of the new ledger keeps the store. *)
Lemma backup_stays Ψ :
  j_ledger J ≠ JNull → (∀ fs fs', same_files fs fs' → Ψ fs → Ψ fs') →
  stays faulty (λ fs, done_ledger fs ∧ Ψ fs) (backup_ledger s (j_ledger J)).
Proof.
  intros Hn HΨ fs w [H HΨfs]. unfold backup_ledger. pose proof H as [[(_ & [HJ _] & _) _] _].
  destruct (jo_ledger _ HJ) as [?|(_ & Hdoc & _)]; [done|].
  apply wp_bind, wp_attempt. apply wp_stays; [|done|].
  - apply write_backup_stays; [apply Hdoc| |].
    + intros now fs' [H' HΨ']. destruct (backup_name s (backup_stamp now +:+ ".json")) as (H1 & H2 & H3 & _).
      pose proof (same_files_insert (next_backup now) (document_text (j_ledger J)) fs' H1 H2 H3) as Hs.
      split; [|by eapply HΨ]. eapply done_frame; [exact H'|done|].
      apply grows_backup; [apply Hdoc|]. unfold new. by rewrite after_ledger.
    + intros p fs' Hb [H' HΨ']. destruct (backup_path s p Hb) as (H1 & H2 & H3 & _).
      pose proof (same_files_delete p fs' H1 H2 H3) as Hs.
      split; [|by eapply HΨ]. eapply done_frame; [exact H'|done|apply grows_delete].
  - intros [[]|e] fs' w' H' He; [by apply wp_ret|]. destruct (is_os_error e).
    + by apply add_warning_stays.
    + apply wp_throw. split; [done|by eapply He].
Qed.

(** The log holds all records of the journal. *)
Definition logged (fs : files) : Prop := log_at (st_records (after V J)) [] 0 (content (log_path s) fs).

Lemma append_step fs w :
  done_ledger fs →
  wp faulty before (match j_logs (members J) with [] => mret tt | logs => _append_missing_logs s logs end)
    (λ r fs' _, match r with
                | Ok _ => done_ledger fs' ∧ logged fs'
                | Raise _ => faulty = true ∧ before fs'
                end) fs w.
Proof.
  intros H. pose proof H as [[Hp Hl] Hg]. pose proof Hp as (_ & [HJ Hfresh] & [_ [k Hk]]).
  unfold logged, after. cbn [st_records]. fold (logs_of J) in *.
  destruct (logs_of J) as [|j js] eqn:Ejs.
  { apply wp_ret. split; [done|]. eapply log_at_done; [|exact Hk]. apply drop_nil. }
  cbv iota. rewrite <- Ejs in *.
  destruct HV as [_ Hrs].
  assert (Hlog : log_only (log_path s) fs (log_at (st_records V) (logs_of J) k) fs) by by split.
  assert (Hnext : ∀ fs', some_log (log_path s) fs (st_records V) (logs_of J) fs' → done_ledger fs').
  { intros fs' H'. split; [by eapply written_log; [exact (proj1 H)|]|by eapply grows_new_log]. }
  eapply wp_crash; [eapply wp_mono|].
  - apply (append_missing_wp faulty s (st_records V) (logs_of J)) with (k := k); [done|apply HJ|done|apply HJ|apply HJ|exact Hlog|].
    by rewrite Ejs.
  - cbv beta. intros r fs' w' [Hs Hr]. apply Hnext in Hs. destruct r; [by split|].
    split; [done|by apply done_before].
  - intros fs' H'. by apply done_before, Hnext.
Qed.

(** Applying a journal, from any point a crash left it at. *)
Lemma apply_wp fs w :
  before fs →
  wp faulty before (_apply_journal_unlocked s (members J))
    (λ r fs' _, before fs' ∧
       match r with Ok _ => done_ledger fs' ∧ logged fs' | Raise _ => faulty = true end) fs w.
Proof.
  intros H. unfold _apply_journal_unlocked. fold (j_ledger J). fold (tid J).
  assert (Hrest : ∀ fs w, done_ledger fs → wp faulty before
    (_ ← match j_logs (members J) with [] => mret tt | logs => _append_missing_logs s logs end;
     match j_ledger J with JNull => mret tt | _ => backup_ledger s (j_ledger J) end)
    (λ r fs' _, before fs' ∧
       match r with Ok _ => done_ledger fs' ∧ logged fs' | Raise _ => faulty = true end) fs w).
  { intros fs1 w1 H1. apply wp_bind. eapply wp_mono; [by apply append_step|]. cbv beta.
    intros [[]|e] fs2 w2 H2; [|by split; [|]; destruct H2]. destruct H2 as [Hd Hlg].
    destruct (null_cases (j_ledger J)) as [E|Hn].
    { rewrite E. apply wp_ret. split; [by apply done_before|done]. }
    rewrite not_null by done.
    eapply wp_crash; [eapply wp_mono; [apply (backup_stays logged Hn)|]|].
    - intros fs3 fs4 Hs. unfold logged. by rewrite (content_frame (log_path s) fs3 fs4) by (apply Hs; auto).
    - by split.
    - cbv beta. intros r fs3 w3 [[H3 H3'] Hr]. split; [by apply done_before|]. by destruct r.
    - intros fs3 [H3 _]. by apply done_before. }
  destruct (null_cases (j_ledger J)) as [E|Hn].
  - rewrite E in *. apply wp_bind, wp_ret. apply Hrest. destruct H as [Hp Hg].
    split; [|done]. split; [done|]. destruct Hp as (_ & _ & [[Hl|[Hl _]] _]); [done|].
    unfold after. by rewrite E.
  - rewrite (not_null (j_ledger J) (mret tt) (apply_ledger s (j_ledger J) (tid J))) by done.
    apply wp_bind. eapply wp_mono; [by apply apply_ledger_wp|]. cbv beta.
    intros [[]|e] fs' w' H'; [by apply Hrest|by destruct H'].
Qed.

Lemma clear_wp fs w :
  done_ledger fs → logged fs →
  wp faulty (λ fs', settled (after V J) fs' ∧ grows new fs0 fs') (_clear_journal_best_effort s)
    (λ r fs' _, r = Ok tt ∧ settled (after V J) fs' ∧ grows new fs0 fs' ∧
       (faulty = false → clean (after V J) fs')) fs w.
Proof.
  intros [[Hp Hl] Hg] Hlog. pose proof (paths_differ s) as (H1 & H2 & H3 & _).
  assert (Hhere : settled (after V J) fs ∧ grows new fs0 fs).
  { split; [|done]. split_and!; [done|done|]. right. exists V, J. by split_and!. }
  set (fs' := delete (journal_path s) fs).
  assert (Hl' : ledger_at new fs') by (eapply ledger_at_frame, Hl; by apply lookup_delete_ne).
  assert (Hlog' : logged fs').
  { unfold logged. by rewrite (content_frame (log_path s) fs fs') by by apply lookup_delete_ne. }
  assert (Hgone : clean (after V J) fs' ∧ settled (after V J) fs' ∧ grows new fs0 fs').
  { assert (Hc : clean (after V J) fs') by (split_and!; [by apply lookup_delete_eq|done..]).
    split; [done|]. split; [by apply clean_settled|]. eapply grows_trans; [exact Hg|apply grows_delete]. }
  unfold _clear_journal_best_effort. apply wp_bind, wp_attempt, wp_bind.
  assert (Hwarn : ∀ fs e w, faulty = true → settled (after V J) fs ∧ grows new fs0 fs →
    wp faulty (λ fs', settled (after V J) fs' ∧ grows new fs0 fs')
      (_add_warning ["transaction committed but journal cleanup failed: " +:+ error_text e])
      (λ r fs' _, r = Ok tt ∧ settled (after V J) fs' ∧ grows new fs0 fs' ∧
         (faulty = false → clean (after V J) fs')) fs w).
  { intros fs1 e w1 Hf [? ?]. unfold _add_warning. apply wp_bind, wp_get_warning. intros o.
    apply wp_set_warning. by rewrite Hf. }
  apply wp_at_once; [|by intros _; apply Hgone| |by intros _|].
  - apply wp_check; [cbv beta iota; apply wp_ret|by intros _; apply Hgone|].
    + split; [done|]. split; [apply Hgone|]. split; [apply Hgone|]. intros _. apply Hgone.
    + intros Hf msg. apply (Hwarn fs' (OSError msg)); [done|apply Hgone].
  - intros Hf msg. apply (Hwarn fs' (OSError msg)); [done|apply Hgone].
  - intros Hf msg. by apply (Hwarn fs (OSError msg)).
Qed.
End Apply.

(** ** Recovery *)

#[global] Instance clean_proper : Proper ((≡) ==> (=) ==> iff) clean.
Proof.
  assert (H : ∀ V V' fs, V ≡ V' → clean V fs → clean V' fs).
  { intros V V' fs [H1 H2] (Hj & Hl & Hlog).
    split_and!; [done|by eapply ledger_at_canonical|by eapply log_at_old]. }
  intros V V' HV fs _ <-. split; apply H; [done|by symmetry].
Qed.

#[global] Instance settled_proper : Proper ((≡) ==> (=) ==> iff) settled.
Proof.
  assert (H : ∀ V V' fs, V ≡ V' → settled V fs → settled V' fs).
  { intros V V' fs HV (Hl & Hlog & Hj). pose proof HV as [H1 H2].
    split_and!; [by eapply ledger_at_canonical|by eapply log_at_old|].
    destruct Hj as [Hj|(V0 & J & H0 & Hp & HV')]; [by left|]. right. exists V0, J.
    split_and!; [done..|by etrans]. }
  intros V V' HV fs _ <-. split; apply H; [done|by symmetry].
Qed.

Lemma grows_canonical led led' fs fs' : canonical led = canonical led' → grows led fs fs' → grows led' fs fs'.
Proof. intros E H. unfold grows. by rewrite <- E. Qed.

Lemma after_canonical V J : readable J → after V J ≡ after V (canonical J).
Proof.
  intros Hr. split.
  - destruct (null_cases (j_ledger J)) as [E|Hn].
    + unfold after. cbn [st_ledger]. by rewrite j_ledger_canonical, E.
    + assert (Hn' : j_ledger (canonical J) ≠ JNull)
        by (rewrite j_ledger_canonical by done; by destruct (j_ledger J)).
      by rewrite !after_ledger, j_ledger_canonical, canonical_idemp.
  - unfold after. cbn [st_records]. rewrite logs_of_canonical, !map_app, map_map by done. f_equal.
    apply map_ext. intros j. by rewrite canonical_idemp.
Qed.

Lemma pending_canonical V J fs : pending V J fs → pending V (canonical J) fs.
Proof.
  intros (Hj & [HJ Hfresh] & [Hl [k Hk]]). pose proof (jo_readable _ HJ) as Hr.
  split; [by rewrite document_canonical|]. split; [split|split].
  - by apply journal_ok_canonical.
  - rewrite logs_of_canonical by done.
    intros r j Hin (j' & -> & Hj')%list_elem_of_fmap. unfold rec_key at 2. rewrite canonical_idemp.
    by apply Hfresh.
  - rewrite tid_canonical by done. destruct Hl as [Hl|Hl]; [left|by right].
    eapply ledger_at_canonical, Hl. by destruct (after_canonical V J Hr).
  - rewrite logs_of_canonical by done. exists k. by apply log_at_canonical.
Qed.

Lemma load_journal_reads faulty J fs :
  fs !! journal_path s = Some (document_text J) → journal_ok J →
  reads faulty (load_journal s) fs
    (λ r, match r with Ok v => v = canonical J | Raise e => faulty = true ∧ is_load_error e = true end).
Proof.
  intros Hj HJ. pose proof (jo_readable _ HJ) as Hr. unfold load_journal.
  apply reads_bind, reads_check; [|done]. apply reads_bind. eapply reads_mono; [apply load_json_reads|].
  assert (Ec : loads (content (journal_path s) fs) = Some (canonical J))
    by (unfold content; rewrite Hj; by apply document_loads).
  rewrite Ec. intros [v|e]; [|by intros [? [?|?]]]. intros [= <-]. apply reads_bind, reads_of_res.
  rewrite validate_journal_canonical, (jo_valid _ HJ) by done. by apply reads_ret.
Qed.

(** Recovery completes a pending transaction or leaves it pending. *)
Lemma recover_wp faulty V fs w :
  state_ok V → recoverable V fs →
  wp faulty (λ fs', recoverable V fs' ∧ grows (st_ledger V) fs fs') (_recover_journal_unlocked s)
    (λ r fs' _, grows (st_ledger V) fs fs' ∧
       match r with
       | Ok _ => settled V fs' ∧ (faulty = false → clean V fs')
       | Raise _ => faulty = true ∧ recoverable V fs'
       end) fs w.
Proof.
  intros HV Hrec. pose proof (grows_refl (st_ledger V) fs) as Hg0.
  unfold _recover_journal_unlocked. apply wp_bind, wp_bind, wp_get_files, wp_ret.
  destruct Hrec as [Hc|(V0 & J & HV0 & Hp & HVJ)].
  { pose proof Hc as (-> & _). cbv beta iota. rewrite bool_decide_eq_false_2 by by intros [? ?].
    apply wp_ret. split; [done|]. split; [by apply clean_settled|done]. }
  pose proof Hp as (Hj & [HJ _] & _). rewrite Hj, bool_decide_eq_true_2 by by eexists.
  cbn [negb]. assert (Hrec : recoverable V fs) by (right; by exists V0, J).
  apply wp_bind, wp_attempt. eapply wp_reads; [by apply load_journal_reads|by intros _|].
  intros [J'|e] w' HJ'; cbv beta iota in *.
  2: { destruct HJ' as [Hf ->]. apply wp_throw. by split. }
  subst J'. apply pending_canonical in Hp. pose proof (jo_readable _ HJ) as Hr.
  assert (HVJ' : after V0 (canonical J) ≡ V) by (etrans; [symmetry; by apply after_canonical|done]).
  assert (Hled : canonical (st_ledger (after V0 (canonical J))) = canonical (st_ledger V)) by apply HVJ'.
  assert (Hgr : ∀ fs', grows (st_ledger (after V0 (canonical J))) fs fs' → grows (st_ledger V) fs fs')
    by (intros fs'; by apply grows_canonical).
  assert (Hback : ∀ fs', pending V0 (canonical J) fs' → recoverable V fs')
    by (intros fs' Hp'; right; by exists V0, (canonical J)).
  assert (Hset : ∀ fs', settled (after V0 (canonical J)) fs' → settled V fs')
    by (intros fs'; by rewrite HVJ').
  apply wp_bind. eapply wp_crash; [eapply wp_mono|].
  - apply (apply_wp faulty V0 (canonical J) fs HV0). split; [done|apply grows_refl].
  - cbv beta. intros [[]|e] fs' w1 [[Hp' Hg'] Hres]; [|by auto].
    destruct Hres as [Hd Hlog]. eapply wp_crash; [eapply wp_mono; [by apply clear_wp|]|].
    + cbv beta. intros r fs2 w2 (-> & Hs & Hg2 & Hc). split; [by apply Hgr|]. split; [by apply Hset|].
      intros Hf. rewrite <- HVJ'. by apply Hc.
    + cbv beta. intros fs2 [Hs Hg2]. split; [by apply settled_recoverable, Hset|by apply Hgr].
  - cbv beta. intros fs' [Hp' Hg']. split; [by apply Hback|by apply Hgr].
Qed.
End Store.
