(* ===== verification/Transactions.v ===== *)
(** * Transactions: all or nothing

    A transaction of the store is one step of the abstract store: whatever faults
    strike, the files stand for the state before it or for the state the mutator
    computes. Interrupted recoveries can be repeated, and a sound run completes. *)

From S2P Require Import Prelude.
From S2P Require Import PyBase.
From S2P Require Import Json.
From S2P Require Import Files.
From S2P Require Import Jsonl.
From S2P Require Import Models.
From S2P Require Import Policy.
From S2P Require Import LedgerSchema.
From S2P Require Import Documents.
From S2P Require Import Storage.
From S2P Require Import AuditLog.
From S2P Require Import Recovery.

(** ** The sources a run uses *)

Lemma forward_clock_raw : forward clock_raw.
Proof. intros w. unfold later; simpl. repeat split; lia. Qed.

#[export] Hint Resolve forward_clock_raw : advances.

Lemma write_lines_advances path chunk lines : advances (write_lines path chunk lines).
Proof.
  revert chunk. induction lines as [|line lines IH]; intros chunk; cbn [write_lines]; unfold _write_all; advance.
Qed.

Lemma append_advances path records m mf name c : advances (append_json_objects path records m mf name c).
Proof.
  pose proof write_lines_advances. unfold append_json_objects, _repair_tail, rollback, _write_batch. advance.
Qed.

Lemma load_json_advances p : advances (load_json p).
Proof. unfold load_json. advance. Qed.

#[export] Hint Resolve append_advances load_json_advances : advances.

Lemma load_document_advances p b : advances (load_document p b).
Proof. unfold load_document, _managed_gid. advance. Qed.

#[export] Hint Resolve load_document_advances : advances.

Lemma first_backup_advances paths b : advances (first_backup paths b).
Proof. induction paths as [|p paths IH]; cbn [first_backup]; advance. Qed.

#[export] Hint Resolve first_backup_advances : advances.

Section Sources.
Context (s : ledger_store).

Lemma add_warning_advances ms : advances (_add_warning ms).
Proof. unfold _add_warning. advance. Qed.

Lemma load_unlocked_advances b : advances (_load_unlocked s b).
Proof.
  pose proof add_warning_advances. unfold _load_unlocked, _load_latest_backup, lexists. advance.
Qed.

Lemma atomic_write_advances p v : advances (_atomic_write_json p v).
Proof. unfold _atomic_write_json, lexists. advance. Qed.

Lemma prune_advances paths b : advances (prune paths b).
Proof. revert b. induction paths as [|p paths IH]; intros b; cbn [prune]; unfold _managed_gid; advance. Qed.

Lemma recover_advances : advances (_recover_journal_unlocked s).
Proof.
  pose proof add_warning_advances. pose proof load_unlocked_advances. pose proof atomic_write_advances.
  pose proof prune_advances.
  unfold _recover_journal_unlocked, load_journal, _apply_journal_unlocked, apply_ledger, backup_ledger,
    _append_missing_logs, _recent_event_ids, read_json_objects_tail, _clear_journal_best_effort,
    _write_backup, _prune_backups, _atomic_write_ledger, _managed_gid, lexists.
  advance.
Qed.

Lemma preflight_advances paths : advances (preflight s paths).
Proof.
  pose proof load_unlocked_advances. induction paths as [|p paths IH]; cbn [preflight]; unfold lexists; advance.
Qed.

Lemma check_existing_advances paths : advances (check_existing paths).
Proof. induction paths as [|p paths IH]; cbn [check_existing]; unfold lexists, _managed_gid; advance. Qed.

Lemma acquire_advances : advances (acquire s).
Proof. unfold acquire, _managed_gid. advance. Qed.
End Sources.

(** ** Committing a journal *)

Lemma log_at_zero rs js L : log_at rs [] 0 L → log_at rs js 0 L.
Proof.
  intros [->|bs r E ->|j fragment Hj _ _ _ _]; [by apply LogWhole|by eapply LogUnterminated|done].
Qed.

Section Commit.
Context (faulty : bool) (s : ledger_store).

(** An identifier that no file of the store holds. *)
Definition unused (id : string) (V : state) (fs : files) : Prop :=
  has_id id (st_ledger V) = false ∧ backup_docs s (λ v, has_id id v = false) fs ∧
  (∀ data v, fs !! journal_path s = Some data → loads data = Some v →
     scalar_eq (dict_get "transaction_id" (members v)) (JStr id) = false) ∧
  ∀ r, r ∈ st_records V → rec_key r ≠ id.

(** Writing the journal makes the transaction durable. *)
Lemma journal_written V J fs :
  settled s V fs → journal_for s V J →
  has_id (tid J) (st_ledger V) = false → backup_docs s (λ v, has_id (tid J) v = false) fs →
  pending s V J (<[journal_path s := document_text J]> fs).
Proof.
  intros (Hl & Hlog & _) HJ Hid HB. pose proof (paths_differ s) as (H1 & H2 & H3 & _).
  set (fs' := <[journal_path s := document_text J]> fs).
  assert (Hl' : ledger_at s (st_ledger V) fs') by (eapply ledger_at_frame, Hl; by apply lookup_insert_ne).
  split; [by apply lookup_insert_eq|]. split; [done|]. split.
  - right. split_and!; [done..|]. eapply backup_docs_frame, HB. intros p Hb. left.
    apply lookup_insert_ne. by destruct (backup_path s p Hb) as (_ & _ & H & _).
  - exists 0%nat. apply log_at_zero. unfold fs'. by rewrite content_insert_ne.
Qed.

Lemma matches_reads fs t (R : res bool → Prop) :
  (∀ b, (b = true → ∃ data v, fs !! journal_path s = Some data ∧ loads data = Some v ∧
     scalar_eq (dict_get "transaction_id" (members v)) (JStr t) = true) → R (Ok b)) →
  (∀ e, R (Raise e)) →
  reads faulty (_journal_matches_transaction s t) fs R.
Proof.
  intros HR He. unfold _journal_matches_transaction, lexists.
  apply reads_bind, reads_bind, reads_get_files, reads_ret. case_bool_decide as Hp; cbn [negb];
    [|by apply reads_ret, HR].
  destruct Hp as [d Hd]. apply reads_bind, reads_attempt. unfold load_journal, _managed_gid.
  apply reads_bind, reads_check; [|by intros _ msg; apply reads_ret, HR].
  apply reads_bind. eapply reads_mono; [apply load_json_reads|]. unfold content. rewrite Hd.
  intros [v|e]; [|by intros [-> _]; apply reads_ret, HR]. intros Hv. cbn in Hv.
  apply reads_bind, reads_of_res. destruct (_validate_journal s v) as [[]|e].
  - apply reads_ret, reads_ret, HR. intros Hb. by exists d, v.
  - destruct (is_load_error e); [by apply reads_ret, HR|by apply reads_throw].
Qed.

(** The files stand for a state that is well formed. *)
Definition stands_for (V : state) (fs : files) : Prop := state_ok s V ∧ recoverable s V fs.

(** The result of a commit, and what is on disk when it fails. *)
Lemma commit_wp V J fs w :
  state_ok s V → settled s V fs → readable J →
  (∀ r j, r ∈ st_records V → j ∈ logs_of J → rec_key r ≠ rec_key j) → unused (tid J) V fs →
  wp faulty (λ fs', recoverable s V fs' ∨ stands_for (after V J) fs') (commit s J (tid J))
    (λ r fs' _,
       match r with
       | Ok _ => stands_for (after V J) fs' ∧ (faulty = false → clean s (after V J) fs')
       | Raise _ => fs' = fs ∨ faulty = true ∧ (recoverable s V fs' ∨ stands_for (after V J) fs')
       end) fs w.
Proof.
  intros HV Hs Hr Hfresh (Hid & HB & Hjid & _). unfold commit. apply wp_bind, wp_of_res.
  destruct (_validate_journal s J) as [[]|e] eqn:Ev; [|by left].
  pose proof (journal_valid s J Hr Ev) as HJ. assert (Hfor : journal_for s V J) by by split.
  pose proof (journal_written V J fs Hs Hfor Hid HB) as Hp.
  set (fs1 := <[journal_path s := document_text J]> fs) in *.
  assert (Hrec : ∀ fs', pending s V J fs' → stands_for (after V J) fs')
    by (intros fs' Hp'; split; [by apply after_ok|right; by exists V, J]).
  pose proof (settled_recoverable _ _ _ Hs) as Hold. pose proof (Hrec _ Hp) as Hnew.
  set (Q := λ (r : res ()) (fs' : files) (_ : world), match r with
       | Ok _ => stands_for (after V J) fs' ∧ (faulty = false → clean s (after V J) fs')
       | Raise _ => fs' = fs ∨ faulty = true ∧ (recoverable s V fs' ∨ stands_for (after V J) fs')
       end).
  assert (Hfailed : ∀ fs' w' e, faulty = true → fs' = fs ∨ fs' = fs1 →
    wp faulty (λ fs', recoverable s V fs' ∨ stands_for (after V J) fs')
      (matches ← _journal_matches_transaction s (tid J);
       if negb matches then throw e
       else _add_warning ["transaction accepted but deferred recovery is required after journal directory sync failed: " +:+ error_text e])
      Q fs' w').
  { intros fs' w' e Hf Hfs'. apply wp_bind.
    eapply wp_reads with (R := λ r, ∀ b, r = Ok b → b = true → fs' = fs1).
    - apply matches_reads; [|done]. intros b Hb _ [= <-] ->.
      destruct (Hb eq_refl) as (d & v & Hd & Hv & Ht). destruct Hfs' as [->|]; [|done].
      by rewrite (Hjid d v Hd Hv) in Ht.
    - intros _. destruct Hfs' as [->| ->]; auto.
    - intros [b|e'] w1 Hb; [|right; destruct Hfs' as [->| ->]; auto].
      destruct b; cbn [negb].
      + rewrite (Hb true eq_refl eq_refl). unfold _add_warning. apply wp_bind, wp_get_warning.
        intros o. apply wp_set_warning. unfold Q. by rewrite Hf.
      + apply wp_throw. right. destruct Hfs' as [->| ->]; auto. }
  apply wp_bind, wp_attempt. unfold _write_journal, _managed_gid.
  apply wp_bind, wp_check; [|by intros _; left|by intros Hf msg; apply Hfailed; auto].
  apply atomic_write_wp; [done|by intros _; split; [left|right]| |].
  - intros [[]|e] He; [|destruct He as [Hf ->]; by apply Hfailed; auto].
    apply wp_bind, wp_attempt. eapply wp_crash; [eapply wp_mono|].
    + apply (apply_wp s faulty V J fs1 HV). split; [done|apply grows_refl].
    + cbv beta. intros [[]|e] fs' w' [[Hp' Hg] Hres].
      * destruct Hres as [Hd Hlog]. eapply wp_crash; [eapply wp_mono; [by apply clear_wp|]|].
        -- cbv beta. intros r fs2 w2 (-> & Hs2 & _ & Hc). split; [split; [by apply after_ok|by apply settled_recoverable]|done].
        -- cbv beta. intros fs2 [Hs2 _]. right. split; [by apply after_ok|by apply settled_recoverable].
      * pose proof (Hrec _ Hp') as Hr'. destruct (is_os_error e).
        -- unfold _add_warning. apply wp_bind, wp_get_warning. intros o. apply wp_set_warning.
           split; [done|]. by rewrite Hres.
        -- apply wp_throw. right. auto.
    + cbv beta. intros fs' [Hp' _]. right. by apply Hrec.
  - intros e Hf ->. apply Hfailed; auto.
Qed.
End Commit.

(** ** Under the lock *)

Section Locked.
Context (faulty : bool) (s : ledger_store).

Lemma ensure_stays Φ : stays faulty Φ ensure.
Proof. unfold ensure, _managed_gid. repeat (apply stays_bind; [apply stays_check|intros _]). apply stays_check. Qed.

Lemma acquire_stays (Φ : files → Prop) :
  (∀ fs data, Φ fs → Φ (<[lock_path s := data]> fs)) → stays faulty Φ (acquire s).
Proof.
  intros H. unfold acquire, _managed_gid.
  apply stays_bind; [apply stays_check|intros _]. apply stays_bind; [apply stays_check|intros _].
  apply stays_bind; [apply stays_at_once; auto|intros _]. apply stays_bind; [apply stays_check|intros _].
  apply stays_bind; [apply stays_at_once; auto|intros _].
  apply stays_bind; [apply stays_of_M; intros w; by eexists|intros now].
  apply stays_bind; [by apply stays_append|intros _]. apply stays_check.
Qed.

Lemma lexists_stays Φ p : stays faulty Φ (lexists p).
Proof. apply stays_reads. intros fs _. apply reads_bind, reads_get_files. by apply reads_ret. Qed.

Lemma check_existing_stays Φ paths : stays faulty Φ (check_existing paths).
Proof.
  induction paths as [|p paths IH]; [apply stays_ret|]. cbn [check_existing].
  apply stays_bind; [apply lexists_stays|]. intros b. apply stays_bind; [|by intros _].
  destruct b; [|apply stays_ret]. apply stays_bind; [apply stays_check|intros _; apply stays_check].
Qed.

(** A change of the mode is looked into before the lock is taken, without a change. *)
Lemma preflight_stays V (Φ : files → Prop) :
  doc_ok s (st_ledger V) → (∀ fs, Φ fs → recoverable s V fs) →
  stays faulty Φ (_preflight_storage_policy_on_mode_mismatch s).
Proof.
  intros Hdoc HΦ. apply stays_reads. intros fs Hfs. apply HΦ in Hfs. clear HΦ Φ.
  set (R := λ r : res unit, match r with Ok _ => True | Raise _ => faulty = true end).
  unfold _preflight_storage_policy_on_mode_mismatch, lexists.
  apply reads_bind, reads_bind, reads_get_files, reads_ret.
  apply reads_bind, reads_bind, reads_get_files, reads_ret.
  case_bool_decide as Hj; cbn [orb]; [by apply reads_ret|]. destruct (negb _); [by apply reads_ret|].
  assert (Hl : ledger_at s (st_ledger V) fs).
  { destruct Hfs as [(_ & Hl & _)|(V0 & J & _ & (Hp & _) & _)]; [done|]. by destruct Hj; eexists. }
  induction [ledger_path s; lock_path s; log_path s] as [|p paths IH]; [by apply reads_ret|].
  cbn [preflight]. apply reads_bind, reads_bind, reads_get_files, reads_ret.
  case_bool_decide; cbn [negb]; [|done]. apply reads_bind. apply reads_mode; [done|].
  intros Hf [[|]|]; [done| |by apply reads_ret]. apply reads_bind.
  eapply reads_mono; [by eapply load_unlocked_reads|]. intros [v|e]; [intros _; by apply reads_ret|done].
Qed.

Lemma recoverable_lock V fs data : recoverable s V fs → recoverable s V (<[lock_path s := data]> fs).
Proof.
  pose proof (paths_differ s) as (_ & _ & _ & H4 & H5 & H6).
  pose proof (same_files_insert s (lock_path s) data fs H4 H5 H6) as Hsame.
  intros [(Hj & Hl & Hlog)|(V0 & J & HV0 & Hp & HV)].
  - left. split_and!; [by rewrite Hsame by auto|eapply ledger_at_frame, Hl; by apply Hsame; auto|].
    by rewrite (content_frame (log_path s) fs) by (apply Hsame; auto).
  - right. exists V0, J. split_and!; [done| |done]. eapply pending_frame; [done| |done].
    intros p Hb. left. apply lookup_insert_ne. by destruct (backup_path s p Hb) as (_ & _ & _ & H).
Qed.

(** What holds up to the recovery. *)
Definition held (V : state) (fs0 fs : files) : Prop :=
  recoverable s V fs ∧ grows s (st_ledger V) fs0 fs.

Lemma held_lock V fs0 fs data : held V fs0 fs → held V fs0 (<[lock_path s := data]> fs).
Proof.
  intros [H Hg]. split; [by apply recoverable_lock|]. eapply grows_trans; [exact Hg|].
  apply grows_insert. auto.
Qed.

(** Calls before the recovery. *)
Lemma held_wp {A B} (C : files → Prop) V (m : F A) (f : A → F B) Q fs0 fs w :
  (∀ fs', held V fs0 fs' → C fs') → stays faulty (held V fs0) m → advances m → held V fs0 fs →
  (∀ a fs' w', later w w' → held V fs0 fs' → wp faulty C (f a) Q fs' w') →
  (∀ e fs' w', faulty = true → held V fs0 fs' → Q (Raise e) fs' w') →
  wp faulty C (m ≫= f) Q fs w.
Proof.
  intros HC Hm Ha H Hf He. apply wp_bind.
  eapply wp_crash; [eapply wp_mono; [apply wp_advances; [exact Ha|by apply Hm]|]|exact HC]. cbv beta.
  intros [a|e] fs1 w1 (Hw1 & H1 & Hr1); [by apply Hf|by apply He].
Qed.

(** Taking the lock, checking the files and recovering. *)
Lemma enter_wp {A} (C : files → Prop) V (f : F A) Q fs0 fs w :
  (∀ fs', held V fs0 fs' → C fs') → state_ok s V → held V fs0 fs →
  (∀ fs' w', later w w' → settled s V fs' → grows s (st_ledger V) fs0 fs' → (faulty = false → clean s V fs') →
     wp faulty C f Q fs' w') →
  (∀ e fs' w', faulty = true → held V fs0 fs' → Q (Raise e) fs' w') →
  wp faulty C
    (_ ← acquire s; _ ← _validate_managed_files_unlocked s; _ ← _recover_journal_unlocked s; f) Q fs w.
Proof.
  intros HC HV H Hf He.
  apply (held_wp C V _ _ _ fs0); [done|by apply acquire_stays, held_lock|apply acquire_advances|done| |done].
  intros _ fs1 w1 Hw1 H1.
  apply (held_wp C V _ _ _ fs0); [done|apply check_existing_stays|apply check_existing_advances|done| |done].
  intros _ fs2 w2 Hw2 [H2 Hg2]. apply wp_bind.
  assert (Hheld : ∀ fs', recoverable s V fs' → grows s (st_ledger V) fs2 fs' → held V fs0 fs').
  { intros fs' Hrec Hg. split; [done|]. by eapply grows_trans. }
  eapply wp_crash; [eapply wp_mono; [apply wp_advances; [apply recover_advances|by apply recover_wp]|]|].
  - cbv beta. intros [[]|e] fs3 w3 (Hw3 & Hg3 & Hr3).
    + destruct Hr3 as [Hs Hc]. apply Hf; [by do 2 (etrans; [done|])|done| |done].
      by eapply grows_trans.
    + destruct Hr3 as [Hfl Hrec]. apply He; [done|by apply Hheld].
  - cbv beta. intros fs' [Hrec Hg]. by apply HC, Hheld.
Qed.
End Locked.

(** ** Members that are set *)

Lemma obj_set_get k k' v kvs :
  assoc_get k' (obj_set k v kvs) = if bool_decide (k' = k) then Some v else assoc_get k' kvs.
Proof.
  induction kvs as [|[k0 v0] kvs IH]; cbn [obj_set assoc_get]; [done|].
  destruct (bool_decide (k = k0)) eqn:E; cbn [assoc_get].
  - apply bool_decide_eq_true in E as ->. by destruct (bool_decide (k' = k0)).
  - rewrite IH. apply bool_decide_eq_false in E. repeat case_bool_decide; congruence.
Qed.

Lemma obj_set_keys k v kvs k' : k' ∈ (obj_set k v kvs).*1 ↔ k' = k ∨ k' ∈ kvs.*1.
Proof.
  induction kvs as [|[k0 v0] kvs IH]; cbn [obj_set].
  - csimpl. rewrite list_elem_of_singleton. set_solver.
  - case_bool_decide as E; csimpl; rewrite !elem_of_cons; [subst; naive_solver|]. rewrite IH. naive_solver.
Qed.

Lemma obj_set_readable k v kvs : readable (JObj kvs) → readable v → readable (JObj (obj_set k v kvs)).
Proof.
  rewrite !readable_obj. intros [Hd Hr] Hv. induction kvs as [|[k0 v0] kvs IH]; cbn [obj_set].
  - split; [apply NoDup_singleton|]. by constructor.
  - csimpl in Hd. apply NoDup_cons in Hd as [Hk Hd]. apply Forall_cons in Hr as [Hr0 Hr].
    case_bool_decide as E; csimpl.
    + split; [by apply NoDup_cons|by constructor].
    + destruct (IH Hd Hr) as [Hd' Hr']. split; [|by constructor]. apply NoDup_cons. split; [|done].
      rewrite obj_set_keys. naive_solver.
Qed.

Lemma rec_key_get v e : readable v → dict_get "event_id" (members v) = JStr e → rec_key v = e.
Proof.
  intros Hr He. unfold rec_key, event_key.
  assert (Hc : dict_get "event_id" (members (canonical v)) = JStr e) by by rewrite members_canonical, He.
  unfold dict_get in Hc. by destruct (assoc_get _ _) as [v'|]; cbn in *; subst.
Qed.

(** The records of a transaction: each gets a new event. *)
Lemma prepare_logs_spec logs t w :
  Forall (λ item, readable (JObj item) ∧ assoc_get "event_id" item = None) logs →
  ∃ prepared w', _prepare_logs logs t w = (Ok prepared, w') ∧ Forall readable prepared ∧
    ∀ j, j ∈ prepared → ∃ n, (w_draws w ≤ n)%nat ∧ rec_key j = w_uuid w n.
Proof.
  intros Hl. revert w. induction Hl as [|item logs [Hr Hn] _ IH]; intros w.
  { exists [], w. split_and!; [done|constructor|]. by intros j ?%not_elem_of_nil. }
  set (id := w_uuid w (w_draws w)). set (w1 := World (w_clock w) (w_uuid w) (w_reads w) (S (w_draws w))).
  destruct (IH w1) as (prepared & w' & E & Hp & Hk).
  set (value := obj_set "event_id" (JStr id) (obj_set "transaction_id" (JStr t) item)).
  assert (Hv : readable (JObj value)) by (apply obj_set_readable; [by apply obj_set_readable|done]).
  assert (Hitem : assoc_get "event_id" (obj_set "transaction_id" (JStr t) item) = None) by by rewrite obj_set_get.
  exists (JObj value :: prepared), w'. split; [|split].
  - cbn [_prepare_logs]. unfold mbind, M_bind. cbn [uuid4]. unfold uuid4. cbv beta iota. fold w1.
    by rewrite Hitem, E.
  - by constructor.
  - intros j [->|Hj]%elem_of_cons.
    + exists (w_draws w). split; [lia|]. apply rec_key_get; [done|]. cbn [members]. unfold dict_get, value.
      by rewrite obj_set_get.
    + destruct (Hk j Hj) as (n & Hn' & ->). exists n. split; [cbn in Hn'; lia|done].
Qed.

Lemma make_journal_readable new changed t prepared created :
  (changed = true → readable (JObj new)) → Forall readable prepared →
  readable (make_journal new changed t prepared created).
Proof.
  intros Hn Hp. apply readable_obj. split; [decide_now|].
  do 2 (apply Forall_cons; split; [done|]).
  apply Forall_cons; split; [destruct changed; [by apply Hn|done]|].
  apply Forall_cons; split; [by apply readable_list|]. by apply Forall_cons.
Qed.

(** ** Transactions *)

Section Transaction.
Context {T : Type} (faulty : bool) (s : ledger_store) (mutate : mutator T).

(** One step of the abstract store: the mutator reads [base] and returns a result and
    a state. A transaction without change and records leaves the state. *)
Inductive step (V : state) (base : json) (w : world) (x : T) : state → Prop :=
  | StepReads new w' :
      mutate (members base) w = (Ok (new, x, [], false), w') → step V base w x V
  | StepCommits new logs changed w1 t w2 prepared w3 :
      mutate (members base) w = (Ok (new, x, logs, changed), w1) →
      changed = true ∨ logs ≠ [] →
      uuid4 w1 = (Ok t, w2) → _prepare_logs logs t w2 = (Ok prepared, w3) →
      step V base w x
        (State (if changed then JObj (obj_set "last_transaction_id" (JStr t) new) else st_ledger V)
               (st_records V ++ prepared)).

(** The mutator returns documents that can be written, and records without events. *)
Definition mutator_ok (B : json → Prop) (w : world) : Prop :=
  ∀ base w', B base → later w w' →
  let '(r, w'') := mutate (members base) w' in
  later w' w'' ∧
  match r with
  | Ok (new, _, logs, _) =>
      readable (JObj new) ∧ Forall (λ item, readable (JObj item) ∧ assoc_get "event_id" item = None) logs
  | Raise _ => True
  end.

(** No uuid that is still to be drawn is in use. *)
Definition fresh_ids (V : state) (fs : files) (w : world) : Prop :=
  ∀ n, (w_draws w ≤ n)%nat → unused s (w_uuid w n) V fs.

(** What a transaction reads from the ledger file and what it makes of it. *)
Definition reaches (V : state) (fs : files) (w : world) (x : T) (V' : state) : Prop :=
  ∃ base w', base_of s faulty (st_ledger V) fs base ∧ later w w' ∧ step V base w' x V'.

Lemma base_of_grows led fs fs' v :
  grows s led fs fs' → base_of s faulty led fs' v → base_of s faulty led fs v.
Proof.
  intros Hg [H|(Hf & p & d & Hb & Hd & Hl & Hv)]; [by left|].
  destruct (backup_path s p Hb) as (H1 & H2 & H3 & H4).
  destruct (Hg p H1 H2 H4) as [E|[E|(_ & l & Hr & Hc & E)]].
  - right. split; [done|]. exists p, d. rewrite <- E. by split_and!.
  - by rewrite E in Hd.
  - left. rewrite E in Hd. injection Hd as <-. rewrite document_loads in Hl by done. injection Hl as <-.
    split; [by apply canonical_readable|by rewrite canonical_idemp].
Qed.

Lemma unused_grows id V fs fs' :
  doc_ok s (st_ledger V) → grows s (st_ledger V) fs fs' → unused s id V fs → unused s id V fs'.
Proof.
  intros (Hrl & _) Hg (H1 & H2 & H3 & H4). split_and!; [done| | |done].
  - intros p d v Hb Hd Hl Hv. destruct (backup_path s p Hb) as (P1 & P2 & P3 & P4).
    destruct (Hg p P1 P2 P4) as [E|[E|(_ & l & Hr & Hc & E)]]; rewrite E in Hd; [by eapply H2|done|].
    injection Hd as <-. rewrite document_loads in Hl by done. injection Hl as <-.
    by rewrite Hc, has_id_canonical.
  - intros d v Hd. pose proof (paths_differ s) as (P1 & P2 & P3 & P4 & P5 & P6).
    destruct (Hg (journal_path s)) as [E|[E|(? & _)]]; [done..| | |done]; rewrite E in Hd; [by apply H3|done].
Qed.

(** What a transaction may leave when it does not return. *)
Definition interrupted (V : state) (fs0 : files) (w : world) (fs : files) : Prop :=
  recoverable s V fs ∨ ∃ x V', reaches V fs0 w x V' ∧ stands_for s V' fs.

Definition transacted (V : state) (fs0 : files) (w : world) (r : res T) (fs : files) : Prop :=
  match r with
  | Ok x => ∃ V', reaches V fs0 w x V' ∧ stands_for s V' fs ∧ (faulty = false → clean s V' fs)
  | Raise _ => interrupted V fs0 w fs ∧ (faulty = false → clean s V fs)
  end.

(** After the mutator: the records are prepared and the journal is committed. *)
Lemma finish_wp V base fs0 w fs w1 :
  state_ok s V → settled s V fs → (faulty = false → clean s V fs) →
  grows s (st_ledger V) fs0 fs → fresh_ids V fs0 w → mutator_ok (base_of s faulty (st_ledger V) fs0) w →
  base_of s faulty (st_ledger V) fs0 base → later w w1 →
  wp faulty (interrupted V fs0 w)
    ('(new_ledger, result, logs, changed) ← of_M (mutate (members base));
     if negb changed && bool_decide (logs = []) then mret result
     else
       transaction_id ← of_M uuid4;
       prepared_logs ← of_M (_prepare_logs logs transaction_id);
       let new_ledger := if changed : bool
                         then obj_set "last_transaction_id" (JStr transaction_id) new_ledger
                         else new_ledger in
       created_at ← of_M clock_raw;
       _ ← commit s (make_journal new_ledger changed transaction_id prepared_logs
                       (isoformat_utc created_at)) transaction_id;
       mret result)
    (λ r fs' _, transacted V fs0 w r fs') fs w1.
Proof.
  intros HV Hs Hc Hg Hids Hmut Hbase Hw. pose proof (settled_recoverable _ _ _ Hs) as Hrec.
  specialize (Hmut base w1 Hbase Hw). apply wp_bind, wp_of_M.
  destruct (mutate (members base) w1) as [[[[[new x] logs] changed]|e] w2] eqn:Em; cbn [fst snd];
    [|by split; [left|]]. destruct Hmut as (Hw2 & Hnew & Hlogs).
  destruct (negb changed && bool_decide (logs = [])) eqn:En.
  { apply andb_true_iff in En as [Hch Hl]. apply negb_true_iff in Hch as ->.
    apply bool_decide_eq_true in Hl as ->. apply wp_ret. exists V. split; [|done].
    exists base, w1. split_and!; [done..|]. by eapply StepReads. }
  assert (Hsome : changed = true ∨ logs ≠ []).
  { destruct changed; [by left|]. right. by intros ->. }
  apply wp_bind, wp_of_M. set (t := w_uuid w2 (w_draws w2)).
  destruct (uuid4 w2) as [rt w3] eqn:Eu. pose proof Eu as Eu'. injection Eu' as <- Ew3. fold t in Eu. cbn [fst snd].
  fold t. apply wp_bind, wp_of_M.
  destruct (prepare_logs_spec logs t w3 Hlogs) as (prepared & w4 & Ep & Hpr & Hpk). rewrite Ep. cbn [fst snd].
  cbv zeta. apply wp_bind, wp_of_M. unfold clock_raw at 1 2. cbn [fst snd].
  set (new' := if changed then obj_set "last_transaction_id" (JStr t) new else new).
  set (J := make_journal _ _ _ _ _).
  assert (Huuid : w_uuid w2 = w_uuid w) by (destruct Hw2 as (_ & -> & _); apply Hw).
  assert (Hdraw : (w_draws w ≤ w_draws w2)%nat) by (destruct Hw2 as (_ & _ & _ & ?), Hw as (_ & _ & _ & ?); lia).
  assert (Hafter : after V J = State (if changed then JObj new' else st_ledger V) (st_records V ++ prepared))
    by by destruct changed.
  assert (Hreach : reaches V fs0 w x (after V J)).
  { exists base, w1. split_and!; [done..|]. rewrite Hafter.
    replace (if changed then JObj new' else st_ledger V)
      with (if changed then JObj (obj_set "last_transaction_id" (JStr t) new) else st_ledger V)
      by by destruct changed.
    by apply (StepCommits V base w1 x new logs changed w2 t w3 prepared w4). }
  assert (HrJ : readable J).
  { apply make_journal_readable; [|done]. intros ->. by apply obj_set_readable. }
  apply wp_bind. change (commit s J t) with (commit s J (tid J)).
  eapply wp_crash; [eapply wp_mono; [apply (commit_wp faulty s V J); [done..| |]|]|].
  - intros r j Hr (n & Hn & Hk)%Hpk E. rewrite Hk in E. subst w3. cbn in *.
    destruct (Hids n) as (_ & _ & _ & Hnew'); [lia|]. rewrite <- Huuid in Hnew'. by apply (Hnew' r Hr).
  - change (tid J) with t. unfold t. rewrite Huuid. apply (unused_grows _ _ fs0); [apply HV|done|].
    by apply Hids.
  - cbv beta. intros [[]|e] fs' w5.
    + intros [Hr' Hc']. apply wp_ret. exists (after V J). by split_and!.
    + intros [->|[Hf [Hr'|Hr']]].
      * by split; [left|].
      * split; [by left|]. by rewrite Hf.
      * split; [right; by exists x, (after V J)|]. by rewrite Hf.
  - cbv beta. intros fs' [Hr'|Hr']; [by left|]. right. by exists x, (after V J).
Qed.

Lemma transaction_wp V fs w :
  state_ok s V → recoverable s V fs → fresh_ids V fs w → mutator_ok (base_of s faulty (st_ledger V) fs) w →
  wp faulty (interrupted V fs w) (transaction s mutate) (λ r fs' _, transacted V fs w r fs') fs w.
Proof.
  intros HV Hrec Hids Hmut. assert (Hheld : held s V fs fs) by (split; [done|apply grows_refl]).
  assert (HC : ∀ fs', held s V fs fs' → interrupted V fs w fs') by (intros fs' [H _]; by left).
  assert (Hfail : ∀ (e : exn) fs' (w' : world), faulty = true → held s V fs fs' → transacted V fs w (Raise e) fs').
  { intros e fs' w' Hf H. split; [by apply HC|by rewrite Hf]. }
  unfold transaction.
  eapply (held_wp faulty s _ V _ _ _ fs); [done|apply ensure_stays|unfold ensure, _managed_gid; advance|done| |done].
  intros _ fs1 w1 Hw1 H1.
  eapply (held_wp faulty s _ V _ _ _ fs); [done|apply stays_set_warning|advance|done| |done].
  intros _ fs2 w2 Hw2 H2.
  eapply (held_wp faulty s _ V _ _ _ fs); [done| | |done| |done].
  { eapply preflight_stays; [apply HV|]. by intros fs' [? _]. }
  { pose proof preflight_advances. unfold _preflight_storage_policy_on_mode_mismatch, lexists. advance. }
  intros _ fs3 w3 Hw3 H3.
  eapply (enter_wp faulty s _ V _ _ fs); [done..| |done].
  intros fs4 w4 Hw4 Hs Hg Hc. apply wp_bind.
  eapply wp_mono; [apply wp_advances; [apply load_unlocked_advances|]|].
  { eapply load_unlocked_reads; [apply Hs|apply HV|]. intros _. left. by apply settled_recoverable. }
  cbv beta. intros [base|e] fs5 w5 (Hw5 & -> & Hb).
  - apply finish_wp; try done; [by eapply base_of_grows|]. by do 4 (etrans; [done|]).
  - apply Hfail; [done..|]. split; [by apply settled_recoverable|done].
Qed.
End Transaction.

(** Reading the ledger completes a pending transaction first. *)
Lemma load_wp faulty s V fs w :
  state_ok s V → recoverable s V fs →
  wp faulty (recoverable s V) (load s)
    (λ r fs' _, recoverable s V fs' ∧
       match r with
       | Ok data => base_of s faulty (st_ledger V) fs' data ∧ (faulty = false → clean s V fs')
       | Raise _ => faulty = true
       end) fs w.
Proof.
  intros HV Hrec. assert (HC : ∀ fs', held s V fs fs' → recoverable s V fs') by by intros fs' [? _].
  assert (Hread : ∀ fs' w', settled s V fs' → (faulty = false → clean s V fs') →
    wp faulty (recoverable s V) (_load_unlocked s false)
      (λ r fs' _, recoverable s V fs' ∧
         match r with
         | Ok data => base_of s faulty (st_ledger V) fs' data ∧ (faulty = false → clean s V fs')
         | Raise _ => faulty = true
         end) fs' w').
  { intros fs' w' Hs Hc. pose proof (settled_recoverable _ _ _ Hs) as Hr.
    eapply wp_reads; [eapply load_unlocked_reads; [apply Hs|apply HV]|done|].
    by intros [data|e] _ Hd. }
  unfold load. apply wp_bind, wp_set_warning. apply wp_bind, wp_bind, wp_get_files, wp_ret.
  apply wp_bind. case_bool_decide as Hj.
  - eapply (held_wp faulty s _ V _ _ _ fs); [done|apply ensure_stays|unfold ensure, _managed_gid; advance|split; [done|apply grows_refl]| |].
    2: { intros e fs' w' Hf [? _]. by split. }
    intros _ fs1 w1 _ H1. apply wp_unit.
    assert (Hassoc : ∀ (m1 m2 m3 : F unit) Q, wp faulty (recoverable s V) (_ ← m1; _ ← m2; _ ← m3; mret tt) Q fs1 w1 →
      wp faulty (recoverable s V) ((_ ← m1; _ ← m2; m3) ≫= λ _, mret tt) Q fs1 w1).
    { intros m1 m2 m3 Q H fa wa Hf. specialize (H fa wa Hf). unfold mbind, F_bind in *.
      destruct (m1 _) as [[[]|] h1]; [|done..]. by destruct (m2 h1) as [[[]|] h2]. }
    apply Hassoc. eapply (enter_wp faulty s _ V _ _ fs); [done..| |].
    + intros fs4 w4 _ Hs _ Hc. apply wp_ret. by apply Hread.
    + intros e fs' w' Hf [? _]. by split.
  - apply wp_ret. assert (Hc : clean s V fs).
    { destruct Hrec as [Hc|(V0 & J & _ & (Hp & _) & _)]; [done|]. destruct Hj. by eexists. }
    apply Hread; [by apply clean_settled|done].
Qed.

(** ** The theorems *)

(** The files and the sources after loads under the given faults, whatever they return. *)
Fixpoint after_loads (s : ledger_store) (schedules : list (list fault)) (fs : files) (w : world)
    : files * world :=
  match schedules with
  | [] => (fs, w)
  | faults :: schedules =>
      let '(_, h) := load s (Host fs w faults None) in after_loads s schedules (h_files h) (h_world h)
  end.

Lemma after_loads_recoverable s V schedules fs w :
  state_ok s V → recoverable s V fs → recoverable s V (after_loads s schedules fs w).1.
Proof.
  intros HV. revert fs w. induction schedules as [|faults schedules IH]; intros fs w Hrec; [done|].
  cbn [after_loads]. pose proof (load_wp true s V fs w HV Hrec faults None ltac:(done)) as H.
  destruct (load _ _) as [[r|] h]; apply IH, H.
Qed.

(** C25: a transaction is atomic on a host where any system call may fail after partial
    progress and the process may die at any of them. If it returns, the files of the store
    stand for the state that one step of the mutator leads to; if it fails or dies, they
    stand for the state before it or for such a state, never for a mixture: the journal,
    the ledger, the half-written log and the backups together always determine one. *)
Theorem transaction_atomic {T} s (mutate : mutator T) V fs w faults warning :
  state_ok s V → recoverable s V fs → fresh_ids s V fs w →
  mutator_ok mutate (base_of s true (st_ledger V) fs) w →
  let '(o, h) := transaction s mutate (Host fs w faults warning) in
  match o with
  | Done (Ok x) => ∃ V', reaches true s mutate V fs w x V' ∧ stands_for s V' (h_files h)
  | Done (Raise _) | Died =>
      recoverable s V (h_files h) ∨
      ∃ x V', reaches true s mutate V fs w x V' ∧ stands_for s V' (h_files h)
  end.
Proof.
  intros HV Hrec Hids Hmut.
  pose proof (transaction_wp true s mutate V fs w HV Hrec Hids Hmut faults warning ltac:(done)) as H.
  destruct (transaction _ _ _) as [[[x|e]|] h]; [|apply H..].
  destruct H as (_ & V' & H1 & H2 & _). by exists V'.
Qed.

(** C27: on a sound host a transaction always ends, and cleanly: without a journal left,
    with the ledger and the complete log of the state the mutator computed from the stored
    ledger, or of the state before when the mutator or the checks of the journal refuse. *)
Theorem transaction_completes {T} s (mutate : mutator T) V fs w warning :
  state_ok s V → recoverable s V fs → fresh_ids s V fs w →
  mutator_ok mutate (base_of s false (st_ledger V) fs) w →
  ∃ r h, transaction s mutate (Host fs w [] warning) = (Done r, h) ∧ h_faults h = [] ∧
    match r with
    | Ok x => ∃ V', reaches false s mutate V fs w x V' ∧ clean s V' (h_files h)
    | Raise _ => clean s V (h_files h)
    end.
Proof.
  intros HV Hrec Hids Hmut.
  pose proof (transaction_wp false s mutate V fs w HV Hrec Hids Hmut [] warning ltac:(done)) as H.
  destruct (transaction _ _ _) as [[r|] h]; [|by destruct H]. exists r, h.
  destruct H as [Hf H]. split; [done|]. split; [by apply Hf|]. destruct r as [x|e]; [|by apply H].
  destruct H as (V' & H1 & _ & H2). exists V'. split; [done|by apply H2].
Qed.

(** C26: after a transaction that any faults struck, recovery may itself be interrupted any
    number of times; the first load on a sound host still returns the ledger of the state
    before the transaction or of the state the mutator computed, and leaves the store
    clean, with each audit record of that state in the log exactly once. *)
Theorem recovery_completes {T} s (mutate : mutator T) V fs w faults warning schedules :
  state_ok s V → recoverable s V fs → fresh_ids s V fs w →
  mutator_ok mutate (base_of s true (st_ledger V) fs) w →
  let '(_, h) := transaction s mutate (Host fs w faults warning) in
  let '(fs', w') := after_loads s schedules (h_files h) (h_world h) in
  ∃ V' data h', (V' = V ∨ ∃ x, reaches true s mutate V fs w x V') ∧
    load s (Host fs' w' [] None) = (Done (Ok data), h') ∧
    canonical data = canonical (st_ledger V') ∧ clean s V' (h_files h').
Proof.
  intros HV Hrec Hids Hmut.
  pose proof (transaction_wp true s mutate V fs w HV Hrec Hids Hmut faults warning ltac:(done)) as H.
  destruct (transaction _ _ _) as [o h].
  assert (HV' : ∃ V', (V' = V ∨ ∃ x, reaches true s mutate V fs w x V') ∧ stands_for s V' (h_files h)).
  { assert (Hold : recoverable s V (h_files h) → stands_for s V (h_files h)) by by split.
    destruct o as [[x|e]|]; [destruct H as (_ & V' & H1 & H2 & _); eauto|..];
      destruct H as [_ H]; [destruct H as [H _]|]; destruct H as [H|(x & V' & H1 & H2)]; eauto. }
  destruct HV' as (V' & Hwhich & HVok & Hrec').
  pose proof (after_loads_recoverable s V' schedules (h_files h) (h_world h) HVok Hrec') as Hloads.
  destruct (after_loads _ _ _ _) as [fs' w']. cbn [fst] in Hloads.
  pose proof (load_wp false s V' fs' w' HVok Hloads [] None ltac:(done)) as Hl.
  destruct (load _ _) as [[[data|e]|] h'] eqn:El; [|by destruct Hl as (_ & _ & ?)|by destruct Hl].
  destruct Hl as (_ & _ & Hdata & Hc). exists V', data, h'. split_and!; [done..| |by apply Hc].
  by destruct Hdata as [[_ ?]|[? _]].
Qed.

(** ** A concrete store *)

Module Demo.

Definition store : ledger_store := LedgerStore "/var/bk" 10 384 448 7.
Definition source : world := World (λ n, Z.of_nat n * 1000000) (λ n, "id-" +:+ pretty n) 0 0.

(** A mutator that records one operation. *)
Definition touch : mutator unit := λ _,
  mret ([("version", JInt 1); ("reservations", JList [])], tt, [[("op", JStr "touch")]], true).

Definition fresh_state : state := State _empty_ledger [].

Lemma fresh_state_ok : state_ok store fresh_state.
Proof. split; [apply empty_document_ok|constructor]. Qed.

Lemma fresh_clean : clean store fresh_state ∅.
Proof. split_and!; [done|done|]. by apply LogWhole. Qed.

Lemma fresh_unused : fresh_ids store fresh_state ∅ source.
Proof.
  intros n _. split_and!; [done|by intros p d v|by intros d v|by intros r ?%not_elem_of_nil].
Qed.

Lemma touch_ok B : mutator_ok touch B source.
Proof.
  intros base w' _ _. split; [done|]. split.
  - apply readable_obj. split; [decide_now|]. by repeat constructor.
  - apply Forall_cons. split; [|constructor]. split; [|done]. apply readable_obj.
    split; [decide_now|]. by repeat constructor.
Qed.

(** The process dies while it writes the record to the log. *)
Definition torn : list fault := repeat Fine 26 ++ [Dies 7].

End Demo.

Lemma transaction_atomic_witness :
  state_ok Demo.store Demo.fresh_state ∧ recoverable Demo.store Demo.fresh_state ∅ ∧
  let '(o, h) := transaction Demo.store Demo.touch (Host ∅ Demo.source Demo.torn None) in
  match o with
  | Done (Ok x) => ∃ V', reaches true Demo.store Demo.touch Demo.fresh_state ∅ Demo.source x V' ∧
      stands_for Demo.store V' (h_files h)
  | Done (Raise _) | Died =>
      recoverable Demo.store Demo.fresh_state (h_files h) ∨
      ∃ x V', reaches true Demo.store Demo.touch Demo.fresh_state ∅ Demo.source x V' ∧
        stands_for Demo.store V' (h_files h)
  end.
Proof.
  split; [apply Demo.fresh_state_ok|]. split; [left; apply Demo.fresh_clean|].
  apply (transaction_atomic Demo.store Demo.touch Demo.fresh_state ∅ Demo.source Demo.torn None);
    [apply Demo.fresh_state_ok|left; apply Demo.fresh_clean|apply Demo.fresh_unused|apply Demo.touch_ok].
Defined.

Lemma transaction_completes_witness :
  recoverable Demo.store Demo.fresh_state ∅ ∧
  ∃ r h, transaction Demo.store Demo.touch (Host ∅ Demo.source [] None) = (Done r, h) ∧ h_faults h = [] ∧
    match r with
    | Ok x => ∃ V', reaches false Demo.store Demo.touch Demo.fresh_state ∅ Demo.source x V' ∧
        clean Demo.store V' (h_files h)
    | Raise _ => clean Demo.store Demo.fresh_state (h_files h)
    end.
Proof.
  split; [left; apply Demo.fresh_clean|].
  apply (transaction_completes Demo.store Demo.touch Demo.fresh_state ∅ Demo.source None);
    [apply Demo.fresh_state_ok|left; apply Demo.fresh_clean|apply Demo.fresh_unused|apply Demo.touch_ok].
Defined.

(** The log is torn, then a recovery dies, then another fails. *)
Lemma recovery_completes_witness :
  recoverable Demo.store Demo.fresh_state ∅ ∧
  let '(_, h) := transaction Demo.store Demo.touch (Host ∅ Demo.source Demo.torn None) in
  let '(fs', w') := after_loads Demo.store [repeat Fine 12 ++ [Dies 0]; [Fine; Fails 0 "EIO"]]
                      (h_files h) (h_world h) in
  ∃ V' data h',
    (V' = Demo.fresh_state ∨
     ∃ x, reaches true Demo.store Demo.touch Demo.fresh_state ∅ Demo.source x V') ∧
    load Demo.store (Host fs' w' [] None) = (Done (Ok data), h') ∧
    canonical data = canonical (st_ledger V') ∧ clean Demo.store V' (h_files h').
Proof.
  split; [left; apply Demo.fresh_clean|].
  apply (recovery_completes Demo.store Demo.touch Demo.fresh_state ∅ Demo.source Demo.torn None
           [repeat Fine 12 ++ [Dies 0]; [Fine; Fails 0 "EIO"]]);
    [apply Demo.fresh_state_ok|left; apply Demo.fresh_clean|apply Demo.fresh_unused|apply Demo.touch_ok].
Defined.

(** ** Runs *)

Module Runs.

Definition log_lines (h : host) : nat := length (lines_from (content (log_path Demo.store) (h_files h)) 0 MAX).

(** The transaction dies after [n] calls; the next load completes it or finds nothing. *)
Definition after_crash (n : nat) : bool :=
  let '(o, h) := transaction Demo.store Demo.touch (Host ∅ Demo.source (repeat Fine n ++ [Dies 7]) None) in
  let '(r, h) := load Demo.store (Host (h_files h) (h_world h) [] None) in
  match r with
  | Done (Ok data) =>
      bool_decide (h_files h !! journal_path Demo.store = None) &&
      match dict_get "last_transaction_id" (members data) with
      | JNull => bool_decide (log_lines h = 0%nat)
      | _ => bool_decide (log_lines h = 1%nat)
      end
  | _ => false
  end.

(** At every call of the transaction: the ledger and the log agree after recovery. *)
Example crash_sweep : forallb after_crash (seq 0 40) = true.
Proof. by vm_compute. Qed.

(** The journal is durable, but its directory cannot be synchronised and it cannot be
    read back: the caller sees an error of a transaction that will be completed. *)
Definition reported : outcome unit * host :=
  transaction Demo.store Demo.touch
    (Host ∅ Demo.source (repeat Fine 15 ++ [Fails 0 "EIO"; Fails 0 "EMFILE"]) None).

Example error_of_a_commit :
  reported.1 = Done (Raise (OSError "EIO")) ∧
  match (load Demo.store (Host (h_files reported.2) (h_world reported.2) [] None)).1 with
  | Done (Ok data) => has_id "id-0" data = true
  | _ => False
  end.
Proof. split; by vm_compute. Qed.

(** A ledger with a backup that is one transaction older. *)
Definition ledger_of (id : string) : json :=
  JObj [("last_transaction_id", JStr id); ("reservations", JList []); ("version", JInt 1)].

Definition stale_files : files :=
  <[ledger_path Demo.store := document_text (ledger_of "new")]>
  (<[backup_prefix Demo.store +:+ "20260101T000000000000Z.json" := document_text (ledger_of "old")]> ∅).

Definition reads_base : mutator string := λ base,
  mret (base, str_value (dict_get "last_transaction_id" base), [[("op", JStr "keep")]], true).

(** One failed open of the ledger: the transaction builds on the backup. *)
Example stale_base :
  (transaction Demo.store reads_base (Host stale_files Demo.source [] None)).1 = Done (Ok "new") ∧
  (transaction Demo.store reads_base
     (Host stale_files Demo.source (repeat Fine 13 ++ [Fails 0 "EIO"]) None)).1 = Done (Ok "old").
Proof. split; by vm_compute. Qed.

End Runs.
