(* ===== verification/ScheduleIndex.v ===== *)
(** * ScheduleIndex: active reservations grouped by GPU ([src/src/bk/schedule_index.py])

    The index sorts the parsed reservations once, groups them per GPU and finds
    the ones that overlap an interval with a binary search on their starts.
    [overlapping_spec] shows that this is the plain filter of the spans. *)

From S2P Require Import Prelude PyBase Models.

(** ** Definitions *)

Record span := Span {
  sp_record : reservation;
  sp_start : datetime;
  sp_end : datetime;
  sp_gpus : list Z;
  sp_mode : string;
}.

(** [(span.start, span.end, str(span.record.get("id", "")))] *)
Definition span_leb (a b : span) : bool :=
  (sp_start a <? sp_start b)
  || ((sp_start a =? sp_start b)
      && ((sp_end a <? sp_end b)
          || ((sp_end a =? sp_end b)
              && String.leb (r_id (sp_record a)) (r_id (sp_record b))))).

(** [by_gpu.setdefault(gpu, []).append(span)] for each GPU of the span. *)
Definition add_span (m : gmap Z (list span)) (sp : span) : gmap Z (list span) :=
  foldl (λ m g, <[g := default [] (m !! g) ++ [sp]]> m) m (sp_gpus sp).

Record reservation_index := ReservationIndex {
  ix_spans : list span;
  ix_by_gpu : gmap Z (list span);
  ix_starts_by_gpu : gmap Z (list datetime);
}.

Definition make_index (spans : list span) : reservation_index :=
  let sorted := sort_by span_leb spans in
  let by_gpu := foldl add_span ∅ sorted in
  ReservationIndex sorted by_gpu (fmap (M := gmap Z) (map sp_start) by_gpu).

Definition span_of (r : reservation) : span :=
  Span r (r_start_at r) (r_end_at r) (r_gpus r) (r_mode r).

(** [statuses] defaults to the active one. *)
Definition from_ledger_statuses (l : ledger) (active_after : datetime)
    (statuses : list string) : reservation_index :=
  make_index
    (span_of <$> filter (λ r, r_status r ∈ statuses ∧ active_after < r_end_at r)
                   (l_reservations l)).

Definition from_ledger (l : ledger) (active_after : datetime) : reservation_index :=
  from_ledger_statuses l active_after [STATUS_ACTIVE].

Definition records (ix : reservation_index) : list reservation := sp_record <$> ix_spans ix.

(** [bisect.bisect_left(a, x)]: the loop halves [hi - lo], so [length a] steps
    are enough ([bisect_left_spec]). *)
Fixpoint bisect_loop (fuel : nat) (a : list Z) (x : Z) (lo hi : nat) : nat :=
  match fuel with
  | O => lo
  | S fuel' =>
      if (lo <? hi)%nat then
        let mid := ((lo + hi) / 2)%nat in
        match a !! mid with
        | Some v => if v <? x then bisect_loop fuel' a x (S mid) hi
                    else bisect_loop fuel' a x lo mid
        | None => lo
        end
      else lo
  end.

Definition bisect_left (a : list Z) (x : Z) : nat := bisect_loop (length a) a x 0 (length a).

Definition overlapping (ix : reservation_index) (gpu : Z) (start end_ : datetime) : list span :=
  let spans := default [] (ix_by_gpu ix !! gpu) in
  let starts := default [] (ix_starts_by_gpu ix !! gpu) in
  let stop := bisect_left starts end_ in
  filter (λ sp, start < sp_end sp) (take stop spans).

(** ** Binary search *)

Lemma bisect_loop_spec fuel a x lo hi :
  StronglySorted Z.le a → (hi - lo ≤ fuel)%nat → (lo ≤ hi)%nat → (hi ≤ length a)%nat →
  (∀ i v, (i < lo)%nat → a !! i = Some v → v < x) →
  (∀ i v, (hi ≤ i)%nat → a !! i = Some v → x ≤ v) →
  let r := bisect_loop fuel a x lo hi in
  (r ≤ length a)%nat ∧
  (∀ i v, (i < r)%nat → a !! i = Some v → v < x) ∧
  (∀ i v, (r ≤ i)%nat → a !! i = Some v → x ≤ v).
Proof.
  intros Hs. assert (Hmono : ∀ i j u v, (i ≤ j)%nat → a !! i = Some u → a !! j = Some v → u ≤ v).
  { intros i j u v Hij Hi Hj. destruct (decide (i = j)) as [->|]; [by simplify_eq|].
    apply (StronglySorted_lookup_lt Z.le a i j); [done|lia|done..]. }
  revert lo hi. induction fuel as [|fuel IH]; intros lo hi Hfuel Hle Hhi Hlo' Hhi';
    cbn [bisect_loop].
  { assert (lo = hi) as -> by lia. done. }
  destruct (Nat.ltb_spec lo hi); [|assert (lo = hi) as -> by lia; done].
  set (mid := ((lo + hi) / 2)%nat).
  assert (Hmid : (lo ≤ mid ∧ mid < hi)%nat).
  { unfold mid. split.
    - apply Nat.div_le_lower_bound; lia.
    - apply Nat.div_lt_upper_bound; lia. }
  destruct (lookup_lt_is_Some_2 a mid) as [v Hv]; [lia|]. rewrite Hv.
  destruct (Z.ltb_spec v x) as [Hvx|Hvx].
  - apply IH; try lia; [|done]. intros i u Hi Hu. 
    pose proof (Hmono i mid u v ltac:(lia) Hu Hv). lia.
  - apply IH; try lia; [done|]. intros i u Hi Hu.
    pose proof (Hmono mid i v u ltac:(lia) Hv Hu). lia.
Qed.

Lemma bisect_left_spec a x :
  StronglySorted Z.le a →
  let r := bisect_left a x in
  (r ≤ length a)%nat ∧
  (∀ i v, (i < r)%nat → a !! i = Some v → v < x) ∧
  (∀ i v, (r ≤ i)%nat → a !! i = Some v → x ≤ v).
Proof.
  intros Hs. apply bisect_loop_spec; [done|lia..|].
  intros i v Hi E. apply lookup_lt_Some in E. lia.
Qed.

(** ** The index is a partition of the spans *)

Lemma span_leb_start a b : span_leb a b = true → sp_start a ≤ sp_start b.
Proof.
  unfold span_leb. rewrite orb_true_iff, andb_true_iff, Z.ltb_lt, Z.eqb_eq. lia.
Qed.

Lemma span_leb_start_false a b : span_leb a b = false → sp_start b ≤ sp_start a.
Proof. unfold span_leb. rewrite orb_false_iff, Z.ltb_ge. lia. Qed.

Lemma make_index_sorted spans :
  StronglySorted (λ a b, sp_start a ≤ sp_start b) (ix_spans (make_index spans)).
Proof.
  apply sort_by_sorted_rel; [apply span_leb_start|apply span_leb_start_false|intros *; lia].
Qed.

Lemma make_index_spans spans : ix_spans (make_index spans) ≡ₚ spans.
Proof. apply sort_by_perm. Qed.

Lemma add_span_lookup m sp g :
  NoDup (sp_gpus sp) →
  default [] (add_span m sp !! g) =
  default [] (m !! g) ++ (if bool_decide (g ∈ sp_gpus sp) then [sp] else []).
Proof.
  unfold add_span. generalize (sp_gpus sp) as gs. intros gs. revert m.
  induction gs as [|g' gs IH]; intros m Hd; simpl.
  { by rewrite app_nil_r. }
  apply NoDup_cons in Hd as [Hn Hd]. rewrite IH by done.
  destruct (decide (g = g')) as [->|Hne].
  - rewrite lookup_insert_eq; simpl.
    rewrite bool_decide_eq_false_2 by done. rewrite bool_decide_eq_true_2 by left.
    by rewrite app_nil_r.
  - rewrite lookup_insert_ne by done. f_equal.
    rewrite (bool_decide_ext (g ∈ gs) (g ∈ g' :: gs)); [done|]. rewrite elem_of_cons. tauto.
Qed.

Lemma by_gpu_lookup spans m g :
  (∀ sp, sp ∈ spans → NoDup (sp_gpus sp)) →
  default [] (foldl add_span m spans !! g) =
  default [] (m !! g) ++ filter (λ sp, g ∈ sp_gpus sp) spans.
Proof.
  revert m. induction spans as [|sp spans IH]; intros m Hd; simpl.
  { by rewrite app_nil_r. }
  rewrite IH by (intros; apply Hd; by right).
  rewrite add_span_lookup by (apply Hd; left).
  rewrite <- app_assoc. f_equal. rewrite filter_cons.
  case_bool_decide; case_decide; done.
Qed.

(** GPU lists of a validated ledger hold no duplicates. *)
Definition spans_ok (spans : list span) : Prop := ∀ sp, sp ∈ spans → NoDup (sp_gpus sp).

Lemma make_index_by_gpu spans g :
  spans_ok spans →
  default [] (ix_by_gpu (make_index spans) !! g) =
  filter (λ sp, g ∈ sp_gpus sp) (ix_spans (make_index spans)).
Proof.
  intros Hd. simpl. rewrite by_gpu_lookup, lookup_empty; [done|].
  intros sp. rewrite elem_of_sort_by. apply Hd.
Qed.

Lemma make_index_starts spans g :
  default [] (ix_starts_by_gpu (make_index spans) !! g) =
  map sp_start (default [] (ix_by_gpu (make_index spans) !! g)).
Proof. simpl. rewrite lookup_fmap. by destruct (_ !! g). Qed.

(** Taking a prefix of a list sorted by start is filtering on the start. *)
Lemma take_bisect (l : list span) x :
  StronglySorted (λ a b, sp_start a ≤ sp_start b) l →
  take (bisect_left (map sp_start l) x) l = filter (λ sp, sp_start sp < x) l.
Proof.
  intros Hs. apply (StronglySorted_fmap sp_start Z.le) in Hs.
  destruct (bisect_left_spec _ x Hs) as (Hr & Hlt & Hge).
  change (sp_start <$> l) with (map sp_start l) in *.
  set (r := bisect_left (map sp_start l) x) in *. clearbody r.
  rewrite <- (take_drop r l) at 2. rewrite filter_app.
  rewrite (list_filter_all _ (take r l)), (list_filter_none _ (drop r l));
    [by rewrite app_nil_r| |].
  - apply Forall_forall. intros sp [i Hi]%list_elem_of_lookup. rewrite lookup_drop in Hi.
    assert (x ≤ sp_start sp); [|lia]. apply (Hge (r + i)%nat); [lia|].
    change (map sp_start l) with (sp_start <$> l). by rewrite list_lookup_fmap, Hi.
  - apply Forall_forall. intros sp [i Hi]%list_elem_of_lookup.
    assert (Hir : (i < r)%nat).
    { apply lookup_lt_Some in Hi. rewrite length_take in Hi. lia. }
    rewrite lookup_take_lt in Hi by done.
    apply (Hlt i); [done|]. change (map sp_start l) with (sp_start <$> l).
    by rewrite list_lookup_fmap, Hi.
Qed.

(** ** Overlap queries *)

(** [_overlaps(start_a, end_a, start_b, end_b)] of scheduler.py. *)
Definition overlaps_span (start end_ : datetime) (sp : span) : Prop :=
  start < sp_end sp ∧ sp_start sp < end_.

#[export] Instance overlaps_span_dec start end_ sp : Decision (overlaps_span start end_ sp) :=
  and_dec _ _.

(** The spans of a GPU that overlap an interval, in the index's order. *)
Definition overlapping_ref (ix : reservation_index) (gpu : Z) (start end_ : datetime) : list span :=
  filter (λ sp, gpu ∈ sp_gpus sp ∧ overlaps_span start end_ sp) (ix_spans ix).

Lemma filter_filter_and {A} (P Q : A → Prop) `{!∀ a, Decision (P a), !∀ a, Decision (Q a)}
    (l : list A) :
  filter P (filter Q l) = filter (λ a, P a ∧ Q a) l.
Proof.
  induction l as [|a l IH]; [done|]. rewrite !filter_cons.
  repeat case_decide; rewrite ?filter_cons; repeat case_decide; try tauto.
  by f_equal.
Qed.

(** The binary search agrees with the linear scan. *)
Lemma overlapping_linear spans gpu start end_ :
  spans_ok spans →
  overlapping (make_index spans) gpu start end_ =
  overlapping_ref (make_index spans) gpu start end_.
Proof.
  intros Hd. unfold overlapping, overlapping_ref.
  rewrite make_index_starts, take_bisect.
  - rewrite make_index_by_gpu by done. rewrite !filter_filter_and.
    apply filter_ext_in. unfold overlaps_span. tauto.
  - rewrite make_index_by_gpu by done. apply StronglySorted_filter, make_index_sorted.
Qed.

(** The binary search over the per-GPU lists returns exactly the spans a
    linear scan of the whole index would: the reservations on the GPU whose
    interval meets the requested one, in the index's order. *)
Theorem overlapping_spec spans gpu start end_ :
  spans_ok spans →
  overlapping (make_index spans) gpu start end_ =
  overlapping_ref (make_index spans) gpu start end_.
Proof. apply overlapping_linear. Qed.

Definition example_reservation (id : string) (gpus : list Z) (mode : string)
    (start end_ : datetime) (units : option json) : reservation :=
  Reservation id None 1000 (Some "ada") gpus mode start end_ STATUS_ACTIVE None None
    None units None None (Some []) None (Some []).

Definition example_spans : list span :=
  [span_of (example_reservation "b" [0] MODE_SHARED (minutes 30) (minutes 90) None);
   span_of (example_reservation "a" [0; 1] MODE_EXCLUSIVE (minutes 0) (minutes 30) None)].

Lemma overlapping_spec_witness :
  spans_ok example_spans ∧
  map (λ sp, r_id (sp_record sp)) (overlapping (make_index example_spans) 0 (minutes 15) (minutes 31))
  = ["a"; "b"] ∧
  overlapping (make_index example_spans) 0 (minutes 15) (minutes 31)
  = overlapping_ref (make_index example_spans) 0 (minutes 15) (minutes 31).
Proof.
  assert (H : spans_ok example_spans).
  { intros sp [->|[->|[]%not_elem_of_nil]%elem_of_cons]%elem_of_cons; decide_now. }
  split; [exact H|]. split; [vm_compute; reflexivity|].
  exact (overlapping_spec example_spans 0 (minutes 15) (minutes 31) H).
Defined.

(** ** The spans of a ledger *)

Lemma elem_of_from_ledger l t sp :
  sp ∈ ix_spans (from_ledger l t) ↔
  ∃ r, r ∈ l_reservations l ∧ r_status r = STATUS_ACTIVE ∧ t < r_end_at r ∧ sp = span_of r.
Proof.
  unfold from_ledger, from_ledger_statuses. rewrite make_index_spans, list_elem_of_fmap.
  setoid_rewrite list_elem_of_filter. setoid_rewrite list_elem_of_singleton. naive_solver.
Qed.

Lemma elem_of_records l t r :
  r ∈ records (from_ledger l t) ↔
  r ∈ l_reservations l ∧ r_status r = STATUS_ACTIVE ∧ t < r_end_at r.
Proof.
  unfold records. rewrite list_elem_of_fmap. setoid_rewrite elem_of_from_ledger.
  split; [intros (sp & -> & r' & ?&?&?&->); done|].
  intros (?&?&?). exists (span_of r). split; [done|]. by exists r.
Qed.

Lemma records_perm l t :
  records (from_ledger l t) ≡ₚ
  filter (λ r, r_status r = STATUS_ACTIVE ∧ t < r_end_at r) (l_reservations l).
Proof.
  unfold records, from_ledger, from_ledger_statuses. rewrite make_index_spans.
  rewrite <- list_fmap_compose. change (sp_record ∘ span_of) with (@id reservation).
  rewrite list_fmap_id.
  rewrite (filter_ext_in _ (λ r, r_status r = STATUS_ACTIVE ∧ t < r_end_at r)); [done|].
  intros r _. by rewrite list_elem_of_singleton.
Qed.
