(* ===== verification/Availability.v ===== *)
(** * Availability: can one GPU take one more reservation?
    ([src/src/bk/scheduler.py], the availability functions)

    The scheduler cuts the requested interval at every start and end of the
    overlapping reservations and checks the share slots and the memory of each
    piece. [availability_pointwise] shows that this accepts exactly when every
    instant of the interval has room; [booking_policy_conflict] is the
    administrator's limits. *)

From S2P Require Import Prelude PyBase Granularity Timeparse Models Sharing Config.
From S2P Require Import ScheduleIndex.

(** ** Definitions *)

Definition _overlaps (start_a end_a start_b end_b : datetime) : bool :=
  (start_a <? end_b) && (start_b <? end_a).

Definition span_units (max_shared_users : Z) (sp : span) : Z :=
  reservation_share_units (r_share_units (sp_record sp)) max_shared_users.

(** [int(record.get("expected_memory_mb") or default_memory)] *)
Definition record_memory (default_memory : Z) (r : reservation) : Z :=
  match r_expected_memory_mb r with
  | Some e => if e =? 0 then default_memory else e
  | None => default_memory
  end.

Definition span_memory (usable_memory_mb max_shared_users : Z) (sp : span) : Z :=
  let default_memory :=
    inferred_share_memory_mb usable_memory_mb max_shared_users (span_units max_shared_users sp) in
  Z.max 1 (record_memory default_memory (sp_record sp)).

Definition shared_in_segment (start end_ : datetime) (sp : span) : bool :=
  bool_decide (sp_mode sp = MODE_SHARED) && _overlaps start end_ (sp_start sp) (sp_end sp).

Definition _shared_record_count_in_spans (spans : list span) (start end_ : datetime) : Z :=
  sumZ (λ _, 1) (filter (λ sp, shared_in_segment start end_ sp = true) spans).

Definition _shared_capacity_units_in_spans (spans : list span) (start end_ : datetime)
    (max_shared_users : Z) : Z :=
  sumZ (span_units max_shared_users)
       (filter (λ sp, shared_in_segment start end_ sp = true) spans).

Definition _shared_memory_in_spans (spans : list span) (start end_ : datetime)
    (usable_memory_mb max_shared_users : Z) : Z :=
  sumZ (span_memory usable_memory_mb max_shared_users)
       (filter (λ sp, shared_in_segment start end_ sp = true) spans).

(** [{start, end}] with the clipped ends of the overlapping spans, sorted. *)
Definition segment_points (start end_ : datetime) (relevant : list span) : list datetime :=
  sorted_set
    (start :: end_ ::
     (relevant ≫= λ sp, [Z.max start (sp_start sp); Z.min end_ (sp_end sp)])).

(** [(gpu_memory_capacity_mb or {}).get(gpu)], [None] also when it is zero. *)
Definition memory_capacity (caps : option (gmap Z Z)) (gpu : Z) : option Z :=
  match default ∅ caps !! gpu with
  | Some c => if c =? 0 then None else Some c
  | None => None
  end.

(** [expected_memory_mb or inferred_share_memory_mb(...)] *)
Definition requested_memory (expected : option Z) (usable max_shared_users share_units : Z) : Z :=
  match expected with
  | Some e => if e =? 0 then inferred_share_memory_mb usable max_shared_users share_units else e
  | None => inferred_share_memory_mb usable max_shared_users share_units
  end.

(** The loop over consecutive points. *)
Fixpoint segments_detail (relevant : list span) (gpu max_shared_users : Z)
    (expected : option Z) (capacity : option Z) (reserve share_units : Z)
    (segments : list (datetime * datetime)) : bool * string :=
  match segments with
  | [] => (true, "")
  | (seg_left, seg_right) :: rest =>
      if seg_right <=? seg_left then
        segments_detail relevant gpu max_shared_users expected capacity reserve share_units rest
      else
        let used_units := _shared_capacity_units_in_spans relevant seg_left seg_right max_shared_users in
        if max_shared_users <? used_units + share_units then
          (false, "shared capacity full on GPU " +:+ str_of_Z gpu +:+ " (request "
             +:+ str_of_Z share_units +:+ " slot(s), currently used " +:+ str_of_Z used_units
             +:+ ", projected " +:+ str_of_Z (used_units + share_units)
             +:+ ", maximum " +:+ str_of_Z max_shared_users +:+ ")")
        else
          match capacity with
          | None =>
              segments_detail relevant gpu max_shared_users expected capacity reserve share_units rest
          | Some c =>
              let usable := Z.max 0 (c - reserve) in
              let requested := requested_memory expected usable max_shared_users share_units in
              let committed := _shared_memory_in_spans relevant seg_left seg_right usable max_shared_users in
              if (usable <? requested) || (usable <? committed + requested) then
                (false, "shared memory full on GPU " +:+ str_of_Z gpu +:+ " (need "
                   +:+ str_of_Z requested +:+ "MiB, projected "
                   +:+ str_of_Z (committed + requested) +:+ "/" +:+ str_of_Z usable +:+ "MiB)")
              else
                segments_detail relevant gpu max_shared_users expected capacity reserve share_units rest
          end
  end.

Definition _availability_detail_indexed (index : reservation_index) (gpu : Z)
    (start end_ : datetime) (mode : string) (max_shared_users : Z)
    (expected_memory_mb : option Z) (gpu_memory_capacity_mb : option (gmap Z Z))
    (shared_memory_reserve_mb : Z) (share_units : Z) : bool * string :=
  let relevant := overlapping index gpu start end_ in
  let exclusive := existsb (λ sp, bool_decide (sp_mode sp = MODE_EXCLUSIVE)) relevant in
  if bool_decide (mode = MODE_EXCLUSIVE) then
    match relevant with
    | [] => (true, "")
    | _ => if exclusive then (false, "exclusive conflict on GPU " +:+ str_of_Z gpu)
           else (false, "GPU " +:+ str_of_Z gpu +:+ " already has shared reservations")
    end
  else if negb (bool_decide (mode = MODE_SHARED)) then
    (false, "unsupported booking mode: " +:+ mode)
  else
    match normalize_share_units (JInt share_units) max_shared_users with
    | Raise (ValueError msg) => (false, msg)
    | Raise _ => (false, "")
    | Ok share_units =>
        if exclusive then (false, "exclusive conflict on GPU " +:+ str_of_Z gpu)
        else segments_detail relevant gpu max_shared_users expected_memory_mb
               (memory_capacity gpu_memory_capacity_mb gpu) shared_memory_reserve_mb share_units
               (pairs (segment_points start end_ relevant))
    end.

Definition availability_detail (l : ledger) (gpu : Z) (start end_ : datetime) (mode : string)
    (uid max_shared_users : Z) (expected_memory_mb : option Z)
    (gpu_memory_capacity_mb : option (gmap Z Z)) (shared_memory_reserve_mb share_units : Z)
    : bool * string :=
  _availability_detail_indexed (from_ledger l start) gpu start end_ mode max_shared_users
    expected_memory_mb gpu_memory_capacity_mb shared_memory_reserve_mb share_units.

Definition can_place_gpu (l : ledger) (gpu : Z) (start end_ : datetime) (mode : string)
    (uid max_shared_users share_units : Z) : bool :=
  (availability_detail l gpu start end_ mode uid max_shared_users None None 0 share_units).1.

(** The administrator's limits at the reading [current] of the clock. The
    duration test compares exact instants: [(end - start).total_seconds() / 3600]
    rounds a quotient whose distance to an integer number of hours is at least a
    microsecond in 3600 s, far above the rounding error for the bounded durations
    a configuration allows. *)
Definition policy_conflict_at (c : config) (current start end_ : datetime) : string :=
  if hours (max_booking_duration_hours c) <? end_ - start then
    "reservation duration exceeds the administrator maximum of "
      +:+ str_of_Z (max_booking_duration_hours c) +:+ " hours"
  else
    let horizon := current + days (booking_horizon_days c) in
    if horizon <? end_ then
      "reservation ends beyond the " +:+ str_of_Z (booking_horizon_days c)
        +:+ "-day booking horizon (" +:+ to_iso horizon +:+ ")"
    else
      match filter (λ b, start < bo_end b ∧ bo_start b < end_) (booking_blackouts c) with
      | [] => ""
      | b :: _ => "administrator blackout " +:+ to_iso (bo_start b) +:+ " -> "
                    +:+ to_iso (bo_end b) +:+ ": " +:+ bo_reason b
      end.

(** The horizon is computed when the duration is not too long. *)
Definition check_horizon (c : config) (current start end_ : datetime) : res unit :=
  if hours (max_booking_duration_hours c) <? end_ - start then Ok tt
  else dates_in_range [current + days (booking_horizon_days c)].

(** [now] given by the caller, or a fresh reading of the clock. *)
Definition booking_policy_conflict (c : config) (start end_ : datetime) (now : option datetime)
    : M string :=
  now ← match now with Some now => mret now | None => utc_now end;
  let current := replace_microsecond_0 now in
  _ ← lift (check_horizon c current start end_);
  mret (policy_conflict_at c current start end_).

(** ** The pointwise specification *)

(** A span holds the instants of its half-open interval. *)
Definition covers (sp : span) (t : datetime) : Prop := sp_start sp ≤ t ∧ t < sp_end sp.

#[export] Instance covers_dec sp t : Decision (covers sp t) := and_dec _ _.

(** The spans that hold the GPU at an instant. *)
Definition holders (spans : list span) (gpu : Z) (t : datetime) : list span :=
  filter (λ sp, gpu ∈ sp_gpus sp ∧ covers sp t) spans.

Definition shared_holders (spans : list span) (gpu : Z) (t : datetime) : list span :=
  filter (λ sp, sp_mode sp = MODE_SHARED) (holders spans gpu t).

Definition units_at (max_shared_users : Z) (spans : list span) (gpu : Z) (t : datetime) : Z :=
  sumZ (span_units max_shared_users) (shared_holders spans gpu t).

Definition memory_at (usable max_shared_users : Z) (spans : list span) (gpu : Z) (t : datetime) : Z :=
  sumZ (span_memory usable max_shared_users) (shared_holders spans gpu t).

(** Room for one more reservation on a GPU at an instant. *)
Definition room_at (spans : list span) (gpu : Z) (mode : string) (max_shared_users : Z)
    (expected : option Z) (capacity : option Z) (reserve share_units : Z) (t : datetime) : Prop :=
  if bool_decide (mode = MODE_EXCLUSIVE) then holders spans gpu t = []
  else
    (∀ sp, sp ∈ holders spans gpu t → sp_mode sp ≠ MODE_EXCLUSIVE) ∧
    units_at max_shared_users spans gpu t + share_units ≤ max_shared_users ∧
    match capacity with
    | None => True
    | Some c =>
        let usable := Z.max 0 (c - reserve) in
        memory_at usable max_shared_users spans gpu t
          + requested_memory expected usable max_shared_users share_units ≤ usable
    end.

(** The mode and share a request may have at all. *)
Definition request_ok (mode : string) (max_shared_users share_units : Z) : Prop :=
  mode = MODE_EXCLUSIVE ∨ mode = MODE_SHARED ∧ 1 ≤ share_units ≤ max_shared_users.

(** ** Segments *)

Lemma _overlaps_spec a b c d : _overlaps a b c d = true ↔ a < d ∧ c < b.
Proof. unfold _overlaps. by rewrite andb_true_iff, !Z.ltb_lt. Qed.

Lemma span_memory_pos usable cap sp : 1 ≤ span_memory usable cap sp.
Proof. unfold span_memory. lia. Qed.

Lemma span_units_pos cap sp : 1 ≤ span_units cap sp.
Proof. apply reservation_share_units_pos. Qed.

Section Segments.
Context (start end_ : datetime) (relevant : list span).
Context (Hlt : start < end_).
Context (Hrel : ∀ sp, sp ∈ relevant → overlaps_span start end_ sp).

Let points := segment_points start end_ relevant.

Lemma elem_of_segment_points x :
  x ∈ points ↔ x = start ∨ x = end_ ∨
    ∃ sp, sp ∈ relevant ∧ (x = Z.max start (sp_start sp) ∨ x = Z.min end_ (sp_end sp)).
Proof.
  unfold points, segment_points. rewrite elem_of_sorted_set, !elem_of_cons.
  rewrite list_elem_of_bind. setoid_rewrite elem_of_cons. setoid_rewrite list_elem_of_singleton.
  naive_solver.
Qed.

Lemma segment_points_range x : x ∈ points → start ≤ x ≤ end_.
Proof.
  rewrite elem_of_segment_points. intros [->|[->|(sp & Hsp%Hrel & Hx)]]; [lia|lia|].
  unfold overlaps_span in Hsp. lia.
Qed.

(** Inside a segment the set of overlapping spans does not change. *)
Lemma segment_constant seg_left seg_right t sp :
  (seg_left, seg_right) ∈ pairs points → seg_left ≤ t → t < seg_right → sp ∈ relevant →
  _overlaps seg_left seg_right (sp_start sp) (sp_end sp) = true ↔ covers sp t.
Proof.
  intros Hp Hl Hr Hsp. rewrite _overlaps_spec.
  apply pairs_gap in Hp as (? & Hleft & Hright & Hgap); [|apply sorted_set_strict].
  apply segment_points_range in Hleft, Hright.
  assert (Hs : Z.max start (sp_start sp) ∈ points)
    by (apply elem_of_segment_points; right; right; eauto).
  assert (He : Z.min end_ (sp_end sp) ∈ points)
    by (apply elem_of_segment_points; right; right; eauto).
  apply Hgap in Hs, He. unfold covers. lia.
Qed.

Lemma segment_filter seg_left seg_right t :
  (seg_left, seg_right) ∈ pairs points → seg_left ≤ t → t < seg_right →
  filter (λ sp, shared_in_segment seg_left seg_right sp = true) relevant
  = filter (λ sp, sp_mode sp = MODE_SHARED) (filter (λ sp, covers sp t) relevant).
Proof.
  intros Hp Hl Hr. rewrite filter_filter_and. apply filter_ext_in. intros sp Hsp.
  unfold shared_in_segment. rewrite andb_true_iff, bool_decide_eq_true.
  by rewrite (segment_constant _ _ t _ Hp Hl Hr Hsp).
Qed.
End Segments.

(** ** Soundness and completeness of the availability test *)

(** What the segment loop checks on one segment. *)
Definition segment_room (relevant : list span) (max_shared_users : Z) (expected capacity : option Z)
    (reserve share_units : Z) (seg : datetime * datetime) : Prop :=
  _shared_capacity_units_in_spans relevant seg.1 seg.2 max_shared_users + share_units
    ≤ max_shared_users ∧
  match capacity with
  | None => True
  | Some c =>
      let usable := Z.max 0 (c - reserve) in
      _shared_memory_in_spans relevant seg.1 seg.2 usable max_shared_users
        + requested_memory expected usable max_shared_users share_units ≤ usable
  end.

Lemma segments_detail_true relevant gpu cap expected capacity reserve units segs :
  (∀ seg, seg ∈ segs → seg.1 < seg.2) →
  (segments_detail relevant gpu cap expected capacity reserve units segs).1 = true ↔
  ∀ seg, seg ∈ segs → segment_room relevant cap expected capacity reserve units seg.
Proof.
  induction segs as [|[a b] segs IH]; intros Hlt.
  { split; [by intros _ seg ?%not_elem_of_nil|done]. }
  assert (Hseg : a < b) by (apply (Hlt (a, b)); left).
  specialize (IH ltac:(intros; apply Hlt; by right)).
  assert (Hsplit : ∀ P : Prop, (segment_room relevant cap expected capacity reserve units (a, b) ↔ P) →
    ((∀ seg, seg ∈ (a, b) :: segs → segment_room relevant cap expected capacity reserve units seg)
     ↔ P ∧ ∀ seg, seg ∈ segs → segment_room relevant cap expected capacity reserve units seg)).
  { intros P HP. setoid_rewrite elem_of_cons. naive_solver. }
  cbn [segments_detail]. destruct (Z.leb_spec b a); [lia|].
  assert (Hmem : ∀ usable, 0 ≤ _shared_memory_in_spans relevant a b usable cap).
  { intros u. apply sumZ_nonneg. intros sp _. pose proof (span_memory_pos u cap sp). lia. }
  destruct (Z.ltb_spec cap (_shared_capacity_units_in_spans relevant a b cap + units)) as [Hc|Hc].
  { rewrite (Hsplit False); [naive_solver|]. unfold segment_room; simpl. lia. }
  destruct capacity as [c|].
  - set (usable := Z.max 0 (c - reserve)). specialize (Hmem usable).
    destruct (_ || _) eqn:Eb.
    + rewrite (Hsplit False); [naive_solver|]. unfold segment_room; cbn [fst snd]. fold usable.
      rewrite orb_true_iff, !Z.ltb_lt in Eb. lia.
    + bk_split. rewrite (Hsplit True), IH; [naive_solver|].
      unfold segment_room; cbn [fst snd]. fold usable. lia.
  - rewrite (Hsplit True), IH; [naive_solver|]. unfold segment_room; simpl. lia.
Qed.

Section Pointwise.
Context (spans : list span) (gpu : Z) (start end_ : datetime).
Context (Hok : spans_ok spans).
Context (Hne : ∀ sp, sp ∈ spans → sp_start sp < sp_end sp).
Context (Hlt : start < end_).

Let index := make_index spans.
Let relevant := overlapping index gpu start end_.

Lemma relevant_ref : relevant = overlapping_ref index gpu start end_.
Proof. by apply overlapping_linear. Qed.

Lemma elem_of_relevant sp :
  sp ∈ relevant ↔ gpu ∈ sp_gpus sp ∧ overlaps_span start end_ sp ∧ sp ∈ spans.
Proof.
  rewrite relevant_ref. unfold overlapping_ref. rewrite list_elem_of_filter.
  unfold index. rewrite make_index_spans. tauto.
Qed.

(** Inside the interval, the holders are the relevant spans covering the instant. *)
Lemma relevant_holders t :
  start ≤ t → t < end_ → filter (λ sp, covers sp t) relevant ≡ₚ holders spans gpu t.
Proof.
  intros Hl Hr. rewrite relevant_ref. unfold overlapping_ref, holders, index.
  rewrite filter_filter_and, make_index_spans.
  rewrite (filter_ext_in _ (λ sp, gpu ∈ sp_gpus sp ∧ covers sp t)); [done|].
  intros sp _. unfold covers, overlaps_span. split; [tauto|]. intros (?&?&?).
  split; [done|]. split; [done|]. lia.
Qed.

(** A non-empty span that meets the interval holds some instant of it. *)
Lemma relevant_witness sp :
  sp ∈ relevant → ∃ t, start ≤ t ∧ t < end_ ∧ sp ∈ holders spans gpu t.
Proof.
  rewrite elem_of_relevant. intros (Hg & Ho & Hsp). pose proof (Hne sp Hsp).
  unfold overlaps_span in Ho. exists (Z.max start (sp_start sp)).
  split; [lia|]. split; [lia|]. apply list_elem_of_filter. unfold covers. split; [|done].
  split; [done|lia].
Qed.

Lemma holders_relevant sp t :
  start ≤ t → t < end_ → sp ∈ holders spans gpu t → sp ∈ relevant.
Proof.
  intros Hl Hr Hin. rewrite <- (relevant_holders t) in Hin by done.
  by apply list_elem_of_filter in Hin as [_ ?].
Qed.

(** A check that depends on a segment only through its shared spans holds on
    every segment exactly when it holds at every instant. *)
Lemma segments_pointwise (P : list span → Prop) :
  (∀ l1 l2, l1 ≡ₚ l2 → P l1 ↔ P l2) →
  (∀ seg, seg ∈ pairs (segment_points start end_ relevant) →
     P (filter (λ sp, shared_in_segment seg.1 seg.2 sp = true) relevant)) ↔
  (∀ t, start ≤ t → t < end_ → P (shared_holders spans gpu t)).
Proof.
  intros HP.
  assert (Hrel : ∀ sp, sp ∈ relevant → overlaps_span start end_ sp)
    by (intros sp; rewrite elem_of_relevant; tauto).
  assert (Hmem : ∀ x, x = start ∨ x = end_ → x ∈ segment_points start end_ relevant)
    by (intros x Hx; apply elem_of_segment_points; tauto).
  assert (Hseg : ∀ a b t, (a, b) ∈ pairs (segment_points start end_ relevant) →
    a ≤ t → t < b → start ≤ t → t < end_ →
    P (filter (λ sp, shared_in_segment a b sp = true) relevant) ↔ P (shared_holders spans gpu t)).
  { intros a b t Hp Ha Hb Hl Hr. apply HP.
    rewrite (segment_filter start end_ relevant Hlt Hrel a b t Hp Ha Hb).
    unfold shared_holders. by rewrite relevant_holders. }
  split.
  - intros Hall t Hl Hr.
    destruct (pairs_cover (segment_points start end_ relevant) start end_ t)
      as (a & b & Hp & Ha & Hb); [apply sorted_set_strict|by apply Hmem; left|by apply Hmem; right|done..|].
    apply (Hseg a b); [done..|]. by apply (Hall (a, b)).
  - intros Hall [a b] Hp. pose proof Hp as Hp'.
    apply pairs_gap in Hp' as (Hab & Ha & Hb & _); [|apply sorted_set_strict].
    apply (segment_points_range start end_ relevant Hlt Hrel) in Ha, Hb.
    apply (Hseg a b a Hp); [lia..|]. apply Hall; lia.
Qed.

Lemma exclusive_relevant :
  existsb (λ sp, bool_decide (sp_mode sp = MODE_EXCLUSIVE)) relevant = false ↔
  ∀ t, start ≤ t → t < end_ → ∀ sp, sp ∈ holders spans gpu t → sp_mode sp ≠ MODE_EXCLUSIVE.
Proof.
  rewrite <- not_true_iff_false, existsb_exists. split.
  - intros Hn t Hl Hr sp Hsp He. apply Hn. exists sp. split.
    + apply list_elem_of_In. by eapply holders_relevant.
    + by apply bool_decide_eq_true.
  - intros Hall (sp & Hin & He). apply list_elem_of_In, relevant_witness in Hin
      as (t & ? & ? & ?). apply bool_decide_eq_true in He. by eapply Hall.
Qed.
End Pointwise.

#[local] Lemma perm_sum_room (cap units : Z) expected capacity reserve (l1 l2 : list span) :
  l1 ≡ₚ l2 →
  (sumZ (span_units cap) l1 + units ≤ cap ∧
   match capacity with
   | None => True
   | Some c =>
       let usable := Z.max 0 (c - reserve) in
       sumZ (span_memory usable cap) l1 + requested_memory expected usable cap units ≤ usable
   end) ↔
  (sumZ (span_units cap) l2 + units ≤ cap ∧
   match capacity with
   | None => True
   | Some c =>
       let usable := Z.max 0 (c - reserve) in
       sumZ (span_memory usable cap) l2 + requested_memory expected usable cap units ≤ usable
   end).
Proof. intros Hp. rewrite Hp. destruct capacity; [|done]. simpl. by rewrite Hp. Qed.

(** The interval test as room at every instant. *)
Lemma available_iff_room spans gpu start end_ mode cap expected caps reserve units :
  spans_ok spans → (∀ sp, sp ∈ spans → sp_start sp < sp_end sp) → start < end_ →
  (_availability_detail_indexed (make_index spans) gpu start end_ mode cap
     expected caps reserve units).1 = true ↔
  request_ok mode cap units ∧
  ∀ t, start ≤ t → t < end_ →
    room_at spans gpu mode cap expected (memory_capacity caps gpu) reserve units t.
Proof.
  intros Hok Hne Hlt. unfold _availability_detail_indexed, room_at, request_ok.
  set (relevant := overlapping (make_index spans) gpu start end_).
  destruct (bool_decide_reflect (mode = MODE_EXCLUSIVE)) as [->|Hme].
  { assert (Hnil : relevant = [] ↔ ∀ t, start ≤ t → t < end_ → holders spans gpu t = []).
    { split.
      - intros E t Hl Hr. destruct (holders spans gpu t) as [|sp l] eqn:Hh; [done|exfalso].
        assert (Hin : sp ∈ relevant)
          by (eapply (holders_relevant spans gpu start end_ Hok sp t Hl Hr); rewrite Hh; left).
        rewrite E in Hin. by apply not_elem_of_nil in Hin.
      - intros Hall. destruct relevant as [|sp l] eqn:E; [done|exfalso].
        destruct (relevant_witness spans gpu start end_ Hok Hne Hlt sp) as (t & ? & ? & Hin).
        { fold relevant. rewrite E. left. }
        rewrite Hall in Hin by done. by apply not_elem_of_nil in Hin. }
    rewrite <- Hnil. destruct relevant; [naive_solver|]. destruct (existsb _ _); naive_solver. }
  destruct (bool_decide_reflect (mode = MODE_SHARED)) as [->|Hms]; simpl; [|naive_solver].
  destruct (decide (1 ≤ units ≤ cap)) as [Hu|Hu].
  2:{ assert (Hnorm : ∀ n, normalize_share_units (JInt units) cap ≠ Ok n).
      { intros n E. pose proof (normalize_share_units_Ok _ _ _ E).
        unfold normalize_share_units in E. simpl in E. by case_match; simplify_eq. }
      destruct (normalize_share_units _ _) as [n|[]] eqn:E;
      [by destruct (Hnorm n)|..]; naive_solver. }
  rewrite (proj2 (normalize_share_units_int units cap) Hu).
  destruct (existsb _ relevant) eqn:Hex.
  { split; [done|]. intros [_ Hall]. exfalso. apply not_false_iff_true in Hex. apply Hex.
    apply exclusive_relevant; [done..|]. intros t Hl Hr. by apply Hall. }
  pose proof (proj1 (exclusive_relevant spans gpu start end_ Hok Hne Hlt) Hex) as Hnx.
  rewrite segments_detail_true.
  2:{ intros [a b] Hp. apply pairs_gap in Hp; [naive_solver|apply sorted_set_strict]. }
  etrans; [exact (segments_pointwise spans gpu start end_ Hok Hlt _
    (perm_sum_room cap units expected (memory_capacity caps gpu) reserve))|].
  unfold units_at, memory_at. split.
  - intros Hall. split; [by right|]. intros t Hl Hr. split; [by apply Hnx|by apply Hall].
  - intros [_ Hall] t Hl Hr. by apply Hall.
Qed.

(** C33: the optimised availability test is sound and complete: a GPU is
    reported available for an interval exactly when the mode and share are
    legal and at every instant of the interval there is room - no holder at all
    for an exclusive request; no exclusive holder, enough share slots and, when
    the capacity of the GPU is known, enough memory for a shared one. *)
Theorem availability_pointwise spans gpu start end_ mode cap expected caps reserve units :
  spans_ok spans → (∀ sp, sp ∈ spans → sp_start sp < sp_end sp) → start < end_ →
  (_availability_detail_indexed (make_index spans) gpu start end_ mode cap
     expected caps reserve units).1 = true ↔
  request_ok mode cap units ∧
  ∀ t, start ≤ t → t < end_ →
    room_at spans gpu mode cap expected (memory_capacity caps gpu) reserve units t.
Proof. apply available_iff_room. Qed.

Lemma availability_pointwise_witness :
  (_availability_detail_indexed (make_index example_spans) 0 (minutes 30) (minutes 60)
     MODE_SHARED 2 None None 0 1).1 = true ∧
  ∀ t, minutes 30 ≤ t → t < minutes 60 →
    room_at example_spans 0 MODE_SHARED 2 None None 0 1 t.
Proof.
  assert (Hok : spans_ok example_spans).
  { intros sp [->|[->|[]%not_elem_of_nil]%elem_of_cons]%elem_of_cons; decide_now. }
  assert (Hne : ∀ sp, sp ∈ example_spans → sp_start sp < sp_end sp).
  { intros sp [->|[->|[]%not_elem_of_nil]%elem_of_cons]%elem_of_cons; decide_now. }
  assert (Hrun : (_availability_detail_indexed (make_index example_spans) 0 (minutes 30)
    (minutes 60) MODE_SHARED 2 None None 0 1).1 = true) by (vm_compute; reflexivity).
  split; [exact Hrun|].
  exact (proj2 (proj1 (availability_pointwise example_spans 0 (minutes 30) (minutes 60)
    MODE_SHARED 2 None None 0 1 Hok Hne ltac:(decide_now)) Hrun)).
Defined.
