(* ===== verification/Placement.v ===== *)
(** * Placement: which GPUs and when ([src/src/bk/scheduler.py])

    Normalisation of the GPU arguments of a request, the ranking of available
    GPUs, and the searches for the earliest and the nearest feasible slot. *)

From S2P Require Import Prelude PyBase Granularity Timeparse Models Sharing Config Policy.
From S2P Require Import ScheduleIndex Availability.

(** ** GPU arguments *)

Definition _validate_gpu_index (c : config) (gpu : Z) : res unit :=
  if (gpu <? 0) || (gpu_count c <=? gpu)
  then Raise (BookingError ("GPU index out of range: " +:+ str_of_Z gpu))
  else Ok tt.

Definition _normalize_preferred_gpus (gpus : option (list Z)) : option (list Z) :=
  sorted_set <$> gpus.

Definition _normalize_excluded_gpus (gpus : option (list Z)) (c : config) : res (list Z) :=
  match gpus with
  | None => Ok []
  | Some l =>
      let normalized := sorted_set l in
      _ ← for_each (_validate_gpu_index c) normalized; Ok normalized
  end.

Definition csv (l : list Z) : string := join "," (map str_of_Z l).

Definition or_none (s : string) : string := if bool_decide (s = "") then "none" else s.

Definition eligible_gpus (c : config) (excluded : list Z) : list Z :=
  filter (λ g, g ∉ excluded) (enabled_gpus c).

Definition _eligible_gpu_count_message (c : config) (excluded : list Z) (count : Z) : string :=
  "requested " +:+ str_of_Z count +:+ " GPU(s), but only "
  +:+ str_of_Z (Z.of_nat (length (eligible_gpus c excluded))) +:+ " are eligible "
  +:+ "(administrator-disabled=" +:+ or_none (csv (disabled_gpus c))
  +:+ "; request-excluded=" +:+ or_none (csv (sorted_set excluded)) +:+ ")".

Definition _validate_gpu_scope (c : config) (count : Z) (preferred : option (list Z))
    (excluded : list Z) : res unit :=
  if count <? 1 then Raise (BookingError "GPU count must be >= 1") else
  match preferred with
  | Some gpus =>
      if negb (Z.of_nat (length gpus) =? count)
      then Raise (BookingError "--gpu count must match requested GPU count")
      else for_each (λ gpu,
             _ ← _validate_gpu_index c gpu;
             if bool_decide (gpu ∈ disabled_gpus c)
             then Raise (BookingError ("GPU " +:+ str_of_Z gpu +:+ " is disabled by the administrator"))
             else if bool_decide (gpu ∈ excluded)
             then Raise (BookingError ("GPU " +:+ str_of_Z gpu
                           +:+ " cannot be both selected and excluded"))
             else Ok tt) gpus
  | None =>
      if Z.of_nat (length (eligible_gpus c excluded)) <? count
      then Raise (BookingError (_eligible_gpu_count_message c excluded count))
      else Ok tt
  end.

(** The requested order first, each enabled GPU once, then the remaining ones. *)
Fixpoint gpu_order_loop (c : config) (result : list Z) (gpus : list Z) : res (list Z) :=
  match gpus with
  | [] => Ok (reverse result)
  | gpu :: rest =>
      _ ← _validate_gpu_index c gpu;
      if bool_decide (gpu ∈ enabled_gpus c) && bool_decide (gpu ∉ result)
      then gpu_order_loop c (gpu :: result) rest
      else gpu_order_loop c result rest
  end.

Definition _normalize_gpu_order (gpus : option (list Z)) (c : config) : res (list Z) :=
  match gpus with
  | None => Ok (enabled_gpus c)
  | Some l =>
      result ← gpu_order_loop c [] l;
      Ok (result ++ filter (λ g, g ∉ result) (enabled_gpus c))
  end.

Definition dict_of {V} (l : list (Z * V)) : gmap Z V := foldl (λ m '(k, v), <[k := v]> m) ∅ l.

Fixpoint gpu_scores_loop (c : config) (acc : gmap Z pyfloat) (l : list (Z * pyfloat))
    : res (gmap Z pyfloat) :=
  match l with
  | [] => Ok acc
  | (gpu, score) :: rest =>
      _ ← _validate_gpu_index c gpu;
      if is_finite score then gpu_scores_loop c (<[gpu := score]> acc) rest
      else Raise (BookingError "GPU score must be finite")
  end.

Definition _normalize_gpu_scores (scores : option (list (Z * pyfloat))) (c : config)
    : res (gmap Z pyfloat) :=
  match scores with None => Ok ∅ | Some l => gpu_scores_loop c ∅ l end.

Fixpoint memory_capacities_loop (c : config) (acc : gmap Z Z) (l : list (Z * Z))
    : res (gmap Z Z) :=
  match l with
  | [] => Ok acc
  | (gpu, capacity) :: rest =>
      _ ← _validate_gpu_index c gpu;
      memory_capacities_loop c (if capacity <=? 0 then acc else <[gpu := capacity]> acc) rest
  end.

Definition _normalize_memory_capacities (capacities : option (list (Z * Z))) (c : config)
    : res (gmap Z Z) :=
  match capacities with None => Ok ∅ | Some l => memory_capacities_loop c ∅ l end.

(** The first three distinct non-empty reasons. *)
Definition _combine_reasons (reasons : list string) : string :=
  let seen := foldl (λ seen r, if bool_decide (r ≠ "") && bool_decide (r ∉ seen)
                               then seen ++ [r] else seen) [] reasons in
  join "; " (take 3 seen).

(** ** Ranking *)

Definition _reservation_pressure_score_indexed (index : reservation_index) (gpu : Z)
    (start end_ : datetime) (max_shared_users : Z) : pyfloat :=
  let duration := fmax (float_of_Z 1) (total_seconds (end_ - start)) in
  let overlap_total :=
    foldl (λ acc item,
      if bool_decide (sp_mode item = MODE_SHARED) then
        let overlap := fmax (float_of_Z 0)
          (total_seconds (Z.min end_ (sp_end item) - Z.max start (sp_start item))) in
        fadd acc (fmul overlap (float_of_Z (span_units max_shared_users item)))
      else acc) (float_of_Z 0) (overlapping index gpu start end_) in
  round3 (fdiv (fdiv (fmul (float_of_Z 100) overlap_total) duration)
               (float_of_Z (Z.max 1 max_shared_users))).

(** The tuple [(priority, score, rank, gpu)] and its lexicographic [<]. *)
Record candidate := Candidate {
  cd_priority : Z;
  cd_score : pyfloat;
  cd_rank : nat;
  cd_gpu : Z;
}.

Definition candidate_lt (a b : candidate) : bool :=
  if negb (cd_priority a =? cd_priority b) then cd_priority a <? cd_priority b
  else if negb (feq (cd_score a) (cd_score b)) then flt (cd_score a) (cd_score b)
  else if negb (Nat.eqb (cd_rank a) (cd_rank b)) then (cd_rank a <? cd_rank b)%nat
  else cd_gpu a <? cd_gpu b.

Definition candidate_leb (a b : candidate) : bool := negb (candidate_lt b a).

(** [l[:n]] *)
Definition slice_to {A} (n : Z) (l : list A) : list A :=
  if n <? 0 then take (length l - Z.to_nat (- n)) l else take (Z.to_nat n) l.

(** The loop over the order: the ranked available GPUs and the other reasons. *)
Definition rank_gpus (index : reservation_index) (c : config) (start end_ : datetime)
    (mode : string) (gpu_scores : option (gmap Z pyfloat)) (expected_memory_mb : option Z)
    (gpu_memory_capacity_mb : option (gmap Z Z)) (share_units : Z) (order : list Z)
    : list candidate * list string :=
  foldr (λ '(rank, gpu) '(available, reasons),
    let '(ok, reason) := _availability_detail_indexed index gpu start end_ mode
      (max_shared_users c) expected_memory_mb gpu_memory_capacity_mb
      (shared_memory_reserve_mb c) share_units in
    if ok then
      let pressure := _reservation_pressure_score_indexed index gpu start end_ (max_shared_users c) in
      let score := fadd (default (float_of_Z 0) (default ∅ gpu_scores !! gpu)) pressure in
      (Candidate (default 0 (gpu_priority_map c !! gpu)) score rank gpu :: available, reasons)
    else (available, reason :: reasons))
    ([], []) (imap (λ i g, (i, g)) order).

Definition _find_available_gpus_with_reason (index : reservation_index) (c : config) (count : Z)
    (start end_ : datetime) (mode : string) (gpu_order : option (list Z))
    (gpu_scores : option (gmap Z pyfloat)) (expected_memory_mb : option Z)
    (gpu_memory_capacity_mb : option (gmap Z Z)) (share_units : Z)
    (excluded_gpus : option (list Z)) : M (list Z * string) :=
  policy_reason ← booking_policy_conflict c start end_ None;
  if negb (bool_decide (policy_reason = "")) then mret ([], policy_reason) else
  excluded ← lift (_normalize_excluded_gpus excluded_gpus c);
  full_order ← lift (_normalize_gpu_order gpu_order c);
  let order := filter (λ g, g ∉ excluded) full_order in
  if Z.of_nat (length order) <? count
  then mret ([], _eligible_gpu_count_message c excluded count)
  else
    let '(available, reasons) := rank_gpus index c start end_ mode gpu_scores
      expected_memory_mb gpu_memory_capacity_mb share_units order in
    let result := map cd_gpu (slice_to count (sort_by candidate_leb available)) in
    if Z.of_nat (length result) =? count then mret (result, "")
    else mret (result, _combine_reasons reasons).

Definition find_available_gpus_with_reason (l : ledger) (c : config) (count : Z)
    (start end_ : datetime) (mode : string) (uid : Z) (gpu_order : option (list Z))
    (gpu_scores : option (gmap Z pyfloat)) (expected_memory_mb : option Z)
    (gpu_memory_capacity_mb : option (gmap Z Z)) (share_units : Z)
    (excluded_gpus : option (list Z)) : M (list Z * string) :=
  _ ← lift (validate_ledger_policy l c);
  _find_available_gpus_with_reason (from_ledger l start) c count start end_ mode gpu_order
    gpu_scores expected_memory_mb gpu_memory_capacity_mb share_units excluded_gpus.

Definition find_available_gpus (l : ledger) (c : config) (count : Z)
    (start end_ : datetime) (mode : string) (uid : Z) (gpu_order : option (list Z))
    (gpu_scores : option (gmap Z pyfloat)) (expected_memory_mb : option Z)
    (gpu_memory_capacity_mb : option (gmap Z Z)) (share_units : Z)
    (excluded_gpus : option (list Z)) : M (list Z) :=
  '(gpus, _) ← find_available_gpus_with_reason l c count start end_ mode uid gpu_order
    gpu_scores expected_memory_mb gpu_memory_capacity_mb share_units excluded_gpus;
  mret gpus.

(** ** One candidate start *)

(** Every preferred GPU must be enabled, not excluded and available. *)
Definition preferred_available (index : reservation_index) (c : config) (start end_ : datetime)
    (mode : string) (expected_memory_mb : option Z) (gpu_memory_capacity_mb : option (gmap Z Z))
    (share_units : Z) (excluded : list Z) (gpus : list Z) : bool :=
  forallb (λ gpu,
    negb (bool_decide (gpu ∈ disabled_gpus c) || bool_decide (gpu ∈ excluded))
    && (_availability_detail_indexed index gpu start end_ mode (max_shared_users c)
          expected_memory_mb gpu_memory_capacity_mb (shared_memory_reserve_mb c) share_units).1)
    gpus.

Definition _gpus_at_start (index : reservation_index) (c : config) (count : Z)
    (start : datetime) (duration : timedelta) (mode : string) (preferred_gpus : option (list Z))
    (gpu_order : option (list Z)) (gpu_scores : option (gmap Z pyfloat))
    (expected_memory_mb : option Z) (gpu_memory_capacity_mb : option (gmap Z Z))
    (share_units : Z) (excluded_gpus : option (list Z)) : M (list Z) :=
  end_ ← lift (date_in_range (start + duration));
  conflict ← booking_policy_conflict c start end_ None;
  if negb (bool_decide (conflict = "")) then mret [] else
  excluded ← lift (_normalize_excluded_gpus excluded_gpus c);
  match preferred_gpus with
  | Some gpus =>
      mret (if preferred_available index c start end_ mode expected_memory_mb
                 gpu_memory_capacity_mb share_units excluded gpus
            then gpus else [])
  | None =>
      '(gpus, _) ← _find_available_gpus_with_reason index c count start end_ mode gpu_order
        gpu_scores expected_memory_mb gpu_memory_capacity_mb share_units (Some excluded);
      mret gpus
  end.

(** ** Candidate starts *)

(** Every end of a reservation is rounded up, also those that are no candidates. *)
Definition candidate_dates (index : reservation_index) (earliest_start : datetime)
    (slot_minutes : Z) : list datetime :=
  slot_ceil earliest_start slot_minutes ::
  map (λ sp, slot_ceil (sp_end sp) slot_minutes) (ix_spans index).

(** [_candidate_starts_from_index], as the set before sorting; [candidate_dates] says
    when it raises. *)
Definition candidate_set (index : reservation_index) (earliest_start search_until : datetime)
    (slot_minutes : Z) : list datetime :=
  slot_ceil earliest_start slot_minutes ::
  filter (λ e, earliest_start ≤ e ∧ e ≤ search_until)
    (map (λ sp, slot_ceil (sp_end sp) slot_minutes) (ix_spans index)).

Definition _candidate_starts_from_index (index : reservation_index)
    (earliest_start search_until : datetime) (slot_minutes : Z) : list datetime :=
  sorted_set (candidate_set index earliest_start search_until slot_minutes).

Definition blackout_candidates (c : config) (lo hi : datetime) : list datetime :=
  map (λ b, slot_ceil (bo_end b) (slot_minutes c))
    (filter (λ b, lo ≤ bo_end b ∧ bo_end b ≤ hi) (booking_blackouts c)).

(** The loop of both searches: the first candidate without a policy conflict at
    which [count] GPUs can be placed. *)
Fixpoint first_fit (index : reservation_index) (c : config) (count : Z) (now : datetime)
    (duration : timedelta) (mode : string) (preferred_gpus : option (list Z))
    (gpu_order : option (list Z)) (gpu_scores : option (gmap Z pyfloat))
    (expected_memory_mb : option Z) (gpu_memory_capacity_mb : option (gmap Z Z))
    (share_units : Z) (excluded_gpus : option (list Z)) (candidate_starts : list datetime)
    : M (option (datetime * list Z)) :=
  match candidate_starts with
  | [] => mret None
  | candidate_start :: rest =>
      candidate_end ← lift (date_in_range (candidate_start + duration));
      conflict ← booking_policy_conflict c candidate_start candidate_end (Some now);
      if negb (bool_decide (conflict = "")) then
        first_fit index c count now duration mode preferred_gpus gpu_order gpu_scores
          expected_memory_mb gpu_memory_capacity_mb share_units excluded_gpus rest
      else
        gpus ← _gpus_at_start index c count candidate_start duration mode preferred_gpus gpu_order
          gpu_scores expected_memory_mb gpu_memory_capacity_mb share_units excluded_gpus;
        if Z.of_nat (length gpus) =? count then mret (Some (candidate_start, gpus))
        else first_fit index c count now duration mode preferred_gpus gpu_order gpu_scores
          expected_memory_mb gpu_memory_capacity_mb share_units excluded_gpus rest
  end.

(** Start and end of the search window for the reading [now]. *)
Definition search_start_of (c : config) (earliest_start now : datetime) (allow_queue : bool)
    : datetime :=
  if allow_queue
  then normalize_queue_start (replace_microsecond_0 earliest_start) now (slot_minutes c)
  else earliest_start.

Definition search_until_of (c : config) (search_start now : datetime) : datetime :=
  Z.min (search_start + hours (queue_search_hours c)) (now + days (booking_horizon_days c)).

Definition earliest_candidates (index : reservation_index) (c : config)
    (earliest_start now : datetime) (allow_queue : bool) : list datetime :=
  let search_start := search_start_of c earliest_start now allow_queue in
  let search_until := search_until_of c search_start now in
  if allow_queue then
    sorted_set (_candidate_starts_from_index index search_start search_until (slot_minutes c)
                ++ blackout_candidates c search_start search_until)
  else [earliest_start].

(** The dates that are computed before the loop. *)
Definition earliest_dates (index : reservation_index) (c : config) (earliest_start now : datetime)
    (allow_queue : bool) : list datetime :=
  let search_start := search_start_of c earliest_start now allow_queue in
  [search_start; now + days (booking_horizon_days c); search_start + hours (queue_search_hours c)]
  ++ candidate_dates index search_start (slot_minutes c)
  ++ blackout_candidates c search_start (search_until_of c search_start now).

Definition find_earliest_slot (l : ledger) (c : config) (count : Z) (earliest_start : datetime)
    (duration : timedelta) (mode : string) (uid : Z) (preferred_gpus : option (list Z))
    (allow_queue : bool) (gpu_order : option (list Z)) (gpu_scores : option (gmap Z pyfloat))
    (expected_memory_mb : option Z) (gpu_memory_capacity_mb : option (gmap Z Z))
    (share_units : Z) (excluded_gpus : option (list Z)) : M (option (datetime * list Z)) :=
  _ ← lift (validate_ledger_policy l c);
  now ← utc_now;
  let index := from_ledger l now in
  _ ← lift (dates_in_range (earliest_dates index c earliest_start now allow_queue));
  first_fit index c count now duration mode preferred_gpus gpu_order gpu_scores
    expected_memory_mb gpu_memory_capacity_mb share_units excluded_gpus
    (earliest_candidates index c earliest_start now allow_queue).

(** [(abs((candidate - target).total_seconds()), candidate > target, candidate)] *)
Definition nearest_leb (target a b : datetime) : bool :=
  let da := Z.abs (a - target) in
  let db := Z.abs (b - target) in
  (da <? db) || ((da =? db) && (a <=? b)).

Definition nearest_candidates (index : reservation_index) (c : config)
    (lower_bound target search_until : datetime) (duration : timedelta) : list datetime :=
  sort_by (nearest_leb target) (remove_dups
    (_candidate_starts_from_index index lower_bound search_until (slot_minutes c)
     ++ [target]
     ++ blackout_candidates c lower_bound search_until
     ++ filter (λ b, lower_bound ≤ b ∧ b ≤ search_until)
          (map (λ sp, slot_floor (sp_start sp - duration) (slot_minutes c)) (ix_spans index)))).

Definition nearest_dates (index : reservation_index) (c : config)
    (lower_bound target now : datetime) (duration : timedelta) : list datetime :=
  [target; now + days (booking_horizon_days c); target + hours (queue_search_hours c)]
  ++ candidate_dates index lower_bound (slot_minutes c)
  ++ blackout_candidates c lower_bound (search_until_of c target now)
  ++ map (λ sp, sp_start sp - duration) (ix_spans index).

Definition find_nearest_slot (l : ledger) (c : config) (count : Z) (target_start : datetime)
    (duration : timedelta) (mode : string) (uid : Z) (preferred_gpus : option (list Z))
    (gpu_order : option (list Z)) (gpu_scores : option (gmap Z pyfloat))
    (expected_memory_mb : option Z) (gpu_memory_capacity_mb : option (gmap Z Z))
    (share_units : Z) (excluded_gpus : option (list Z)) : M (option (datetime * list Z)) :=
  _ ← lift (validate_ledger_policy l c);
  now ← utc_now;
  let lower_bound := slot_floor now (slot_minutes c) in
  let target := Z.max lower_bound (slot_ceil target_start (slot_minutes c)) in
  let search_until := search_until_of c target now in
  let index := from_ledger l lower_bound in
  _ ← lift (dates_in_range (nearest_dates index c lower_bound target now duration));
  first_fit index c count now duration mode preferred_gpus gpu_order gpu_scores
    expected_memory_mb gpu_memory_capacity_mb share_units excluded_gpus
    (nearest_candidates index c lower_bound target search_until duration).

(** ** Lemmas: the GPU arguments *)

Lemma for_each_validate_index c l :
  for_each (_validate_gpu_index c) l = Ok tt ↔ ∀ g, g ∈ l → 0 ≤ g < gpu_count c.
Proof.
  rewrite for_each_Ok. split; intros H g Hg; specialize (H g Hg);
    unfold _validate_gpu_index in *.
  - destruct (_ || _) eqn:E; [done|]. bk_split. lia.
  - destruct (_ || _) eqn:E; [|done]. rewrite orb_true_iff, Z.ltb_lt, Z.leb_le in E. lia.
Qed.

Lemma _validate_gpu_index_Ok c g u : _validate_gpu_index c g = Ok u → 0 ≤ g < gpu_count c.
Proof. unfold _validate_gpu_index. destruct (_ || _) eqn:E; [done|]. bk_split. lia. Qed.

Lemma _normalize_excluded_gpus_Ok gpus c ex :
  _normalize_excluded_gpus gpus c = Ok ex →
  NoDup ex ∧ (∀ g, g ∈ ex ↔ g ∈ default [] gpus) ∧ (∀ g, g ∈ ex → 0 ≤ g < gpu_count c).
Proof.
  unfold _normalize_excluded_gpus. destruct gpus as [l|]; simpl.
  - rewrite res_bind_Ok. intros ([] & Hv & ?). simplify_eq.
    pose proof (proj1 (for_each_validate_index _ _) Hv) as Hr.
    setoid_rewrite elem_of_sorted_set in Hr.
    split; [apply NoDup_sorted_set|].
    split; intros g; rewrite elem_of_sorted_set; [done|apply Hr].
  - intros; simplify_eq. split; [constructor|]. split; [done|]. by intros g ?%not_elem_of_nil.
Qed.

(** Normalising twice changes nothing, so nested calls agree. *)
Lemma _normalize_excluded_gpus_idem gpus c ex :
  _normalize_excluded_gpus gpus c = Ok ex →
  ∃ ex', _normalize_excluded_gpus (Some ex) c = Ok ex' ∧ (∀ g, g ∈ ex' ↔ g ∈ ex).
Proof.
  intros E. apply _normalize_excluded_gpus_Ok in E as (Hnd & _ & Hr). exists (sorted_set ex).
  split; [|intros g; apply elem_of_sorted_set]. unfold _normalize_excluded_gpus. simpl.
  assert (for_each (_validate_gpu_index c) (sorted_set ex) = Ok tt) as ->; [|done].
  apply for_each_validate_index. intros g. rewrite elem_of_sorted_set. apply Hr.
Qed.

Lemma gpu_order_loop_Ok c result l r :
  NoDup result → (∀ g, g ∈ result → g ∈ enabled_gpus c) → gpu_order_loop c result l = Ok r →
  NoDup r ∧ (∀ g, g ∈ r → g ∈ enabled_gpus c).
Proof.
  revert result. induction l as [|g l IH]; simpl; intros result Hd Hr E.
  - simplify_eq. rewrite (reverse_Permutation result).
    setoid_rewrite (reverse_Permutation result). done.
  - apply res_bind_Ok in E as (u & _ & E). destruct (_ && _) eqn:Hb.
    + bk_split. apply IH in E; [done|by constructor|].
      intros x [->|Hx]%elem_of_cons; [done|by apply Hr].
    + by eapply IH.
Qed.

(** The normalised order is a permutation of the enabled GPUs. *)
Lemma _normalize_gpu_order_perm gpus c r :
  _normalize_gpu_order gpus c = Ok r → r ≡ₚ enabled_gpus c.
Proof.
  unfold _normalize_gpu_order. destruct gpus as [l|]; [|by intros; simplify_eq].
  rewrite res_bind_Ok. intros (res & E & ?). simplify_eq.
  apply gpu_order_loop_Ok in E as [Hd Hin]; [|constructor|by intros g ?%not_elem_of_nil].
  apply NoDup_Permutation.
  - apply NoDup_app. split; [done|]. split; [|apply NoDup_filter, NoDup_enabled_gpus].
    intros g Hg [Hn _]%list_elem_of_filter. done.
  - apply NoDup_enabled_gpus.
  - intros g. rewrite elem_of_app, list_elem_of_filter.
    destruct (decide (g ∈ res)); naive_solver.
Qed.

(** A normalised order is accepted again. *)
Lemma _normalize_gpu_order_again gpus c r :
  _normalize_gpu_order gpus c = Ok r → ∃ r', _normalize_gpu_order (Some r) c = Ok r'.
Proof.
  intros E. assert (Hin : ∀ g, g ∈ r → 0 ≤ g < gpu_count c).
  { intros g. rewrite (_normalize_gpu_order_perm _ _ _ E), elem_of_enabled_gpus. tauto. }
  clear E. unfold _normalize_gpu_order.
  assert (Hloop : ∀ acc, ∃ res, gpu_order_loop c acc r = Ok res).
  { induction r as [|g r IH]; intros acc; [by eexists|]. cbn [gpu_order_loop].
    assert (_validate_gpu_index c g = Ok tt) as ->.
    { pose proof (Hin g ltac:(left)). unfold _validate_gpu_index.
      destruct (Z.ltb_spec g 0), (Z.leb_spec (gpu_count c) g); simpl; (done || lia). }
    cbn [mbind res_bind]. case_match; apply IH; intros; apply Hin; by right. }
  destruct (Hloop []) as [res ->]. by eexists.
Qed.

(** ** Lemmas: the policy test *)

Lemma policy_conflict_at_nil c current start end_ :
  policy_conflict_at c current start end_ = "" ↔
  end_ - start ≤ hours (max_booking_duration_hours c) ∧
  end_ ≤ current + days (booking_horizon_days c) ∧
  ∀ b, b ∈ booking_blackouts c → ¬ (start < bo_end b ∧ bo_start b < end_).
Proof.
  unfold policy_conflict_at. rewrite <- (filter_nil_iff (λ b, start < bo_end b ∧ bo_start b < end_)).
  destruct (Z.ltb_spec (hours (max_booking_duration_hours c)) (end_ - start)) as [Hd|Hd].
  { split; [discriminate|intros; lia]. }
  destruct (Z.ltb_spec (current + days (booking_horizon_days c)) end_) as [Hh|Hh].
  { split; [discriminate|intros; lia]. }
  destruct (filter _ _) as [|b bs]; [naive_solver|]. split; [discriminate|]. naive_solver.
Qed.

(** A later reading of the clock only moves the horizon away. *)
Lemma policy_conflict_at_mono c t1 t2 start end_ :
  t1 ≤ t2 → policy_conflict_at c t1 start end_ = "" → policy_conflict_at c t2 start end_ = "".
Proof. rewrite !policy_conflict_at_nil. intros ? (?&?&?). repeat split; [done|lia|done]. Qed.

Lemma forward_conflict c s e now : forward (booking_policy_conflict c s e now).
Proof.
  unfold booking_policy_conflict. apply forward_bind; [destruct now; [apply forward_ret|apply forward_clock]|].
  intros t. apply forward_bind; [apply forward_lift|]. intros ?. apply forward_ret.
Qed.

(** What the policy test answers, when it does. *)
Lemma conflict_Ok c s e now w r w' :
  booking_policy_conflict c s e now w = (Ok r, w') →
  ∃ current, r = policy_conflict_at c (replace_microsecond_0 current) s e ∧
    match now with Some now => current = now ∧ w' = w | None => utc_now w = (Ok current, w') end.
Proof.
  unfold booking_policy_conflict. intros (current & w1 & Hn & H)%M_bind_Ok.
  apply M_bind_Ok in H as (u & w2 & [_ ->]%lift_Ok & H). apply M_ret_Ok in H as [<- <-].
  exists current. split; [done|]. destruct now; [by apply M_ret_Ok in Hn as [-> ->]|done].
Qed.

(** The horizon of the reading [current] exists. *)
Definition horizon_exists (c : config) (current : datetime) : Prop :=
  representable (current + days (booking_horizon_days c)).

Lemma check_horizon_cases c current s e :
  check_horizon c current s e = Ok tt ∨
  (check_horizon c current s e = Raise date_overflow ∧ ¬ horizon_exists c current).
Proof.
  unfold check_horizon, horizon_exists. case_match; [by left|].
  destruct (dates_in_range_cases [current + days (booking_horizon_days c)]) as [[? _]|[? Hn]]; [by left|].
  right. split; [done|]. intros ?. apply Hn, Forall_singleton. done.
Qed.

(** ** Lemmas: one candidate start *)

Section AtStart.
Context (index : reservation_index) (c : config) (mode : string).
Context (expected : option Z) (caps : option (gmap Z Z)) (units : Z).

(** A GPU that the availability test accepts for the interval. *)
Definition gpu_available (start end_ : datetime) (g : Z) : bool :=
  (_availability_detail_indexed index g start end_ mode (max_shared_users c)
     expected caps (shared_memory_reserve_mb c) units).1.

(** The GPUs [excluded] leaves, in any order, that are available. *)
Definition free_gpus (start end_ : datetime) (excluded : list Z) : list Z :=
  filter (λ g, gpu_available start end_ g = true) (eligible_gpus c excluded).

Lemma rank_gpus_aux start end_ (scores : option (gmap Z pyfloat)) (f : nat → Z → nat * Z) order :
  (∀ i g, (f i g).2 = g) →
  map cd_gpu (foldr (λ '(rank, gpu) '(available, reasons),
    let '(ok, reason) := _availability_detail_indexed index gpu start end_ mode
      (max_shared_users c) expected caps (shared_memory_reserve_mb c) units in
    if ok then
      (Candidate (default 0 (gpu_priority_map c !! gpu))
         (fadd (default (float_of_Z 0) (default ∅ scores !! gpu))
            (_reservation_pressure_score_indexed index gpu start end_ (max_shared_users c)))
         rank gpu :: available, reasons)
    else (available, reason :: reasons)) ([], []) (imap f order)).1
  = filter (λ g, gpu_available start end_ g = true) order.
Proof.
  revert f. induction order as [|g order IH]; intros f Hf; [done|].
  rewrite imap_cons. cbn [foldr].
  specialize (IH (f ∘ S) ltac:(intros; apply Hf)).
  destruct (foldr _ ([], []) (imap (f ∘ S) order)) as [av rs]. cbn [fst] in IH.
  rewrite filter_cons.
  pose proof (Hf 0%nat g) as Hg. destruct (f 0%nat g) as [rk g']. simpl in Hg. subst g'.
  destruct (_availability_detail_indexed _ _ _ _ _ _ _ _ _ _) as [ok reason] eqn:Ed.
  assert (Ha : gpu_available start end_ g = ok) by (unfold gpu_available; by rewrite Ed).
  destruct ok; simpl; case_decide; try congruence.
Qed.

Lemma rank_gpus_available start end_ scores order :
  map cd_gpu (rank_gpus index c start end_ mode scores expected caps units order).1
  = filter (λ g, gpu_available start end_ g = true) order.
Proof. unfold rank_gpus. by apply rank_gpus_aux. Qed.

Lemma slice_to_take {A} n (l : list A) : 0 ≤ n → slice_to n l = take (Z.to_nat n) l.
Proof. intros. unfold slice_to. destruct (Z.ltb_spec n 0); [lia|done]. Qed.

(** The chosen GPUs are a prefix of a permutation of the available ones. *)
Lemma chosen_gpus start end_ scores order count :
  0 ≤ count →
  let chosen := map cd_gpu (slice_to count (sort_by candidate_leb
    (rank_gpus index c start end_ mode scores expected caps units order).1)) in
  ∃ rest, chosen ++ rest ≡ₚ filter (λ g, gpu_available start end_ g = true) order ∧
    (length chosen = Z.to_nat count `min`
       length (filter (λ g, gpu_available start end_ g = true) order))%nat.
Proof.
  intros Hc. cbv zeta. rewrite slice_to_take by done.
  set (av := (rank_gpus _ _ _ _ _ _ _ _ _ _).1).
  pose proof (rank_gpus_available start end_ scores order) as Hav. fold av in Hav.
  exists (map cd_gpu (drop (Z.to_nat count) (sort_by candidate_leb av))). split.
  - rewrite <- map_app, take_drop. rewrite <- Hav. 
    change (cd_gpu <$> sort_by candidate_leb av ≡ₚ cd_gpu <$> av). by rewrite sort_by_perm.
  - rewrite <- Hav, !length_map, length_take, length_sort_by. done.
Qed.

Lemma find_available_run count start end_ order scores excluded w res w' :
  _find_available_gpus_with_reason index c count start end_ mode order scores expected caps
    units excluded w = (Ok res, w') →
  res.1 = [] ∨
  ∃ ex ord now, _normalize_excluded_gpus excluded c = Ok ex ∧
    _normalize_gpu_order order c = Ok ord ∧
    policy_conflict_at c now start end_ = "" ∧
    res.1 = map cd_gpu (slice_to count (sort_by candidate_leb
      (rank_gpus index c start end_ mode scores expected caps units
         (filter (λ g, g ∉ ex) ord)).1)).
Proof.
  unfold _find_available_gpus_with_reason. intros Hrun.
  apply M_bind_Ok in Hrun as (pr & w1 & Hp & Hrun). apply conflict_Ok in Hp as (now & -> & _).
  case_bool_decide as Hpol; simpl in Hrun; [|apply M_ret_Ok in Hrun as [<- _]; by left].
  apply M_bind_Ok in Hrun as (ex & w2 & Hex & Hrun). apply lift_Ok in Hex as [Hex ->].
  apply M_bind_Ok in Hrun as (ord & w3 & Hord & Hrun). apply lift_Ok in Hord as [Hord ->].
  case_match; [apply M_ret_Ok in Hrun as [<- _]; by left|].
  right. exists ex, ord, (replace_microsecond_0 now).
  do 3 (split; [done|]).
  destruct (rank_gpus _ _ _ _ _ _ _ _ _ _) as [av rs] eqn:Er.
  case_match; apply M_ret_Ok in Hrun as [<- _]; done.
Qed.

(** What a successful placement at [start] returns. *)
Definition gpus_ok (count start : Z) (duration : timedelta) (preferred : option (list Z))
    (ex gpus : list Z) : Prop :=
  Z.of_nat (length gpus) = count ∧
  (∀ g, g ∈ gpus → g ∉ disabled_gpus c ∧ g ∉ ex ∧
     gpu_available start (start + duration) g = true) ∧
  match preferred with
  | Some p => gpus = p
  | None => NoDup gpus ∧ ∀ g, g ∈ gpus → g ∈ enabled_gpus c
  end.

(** When a placement at [start] is possible at all. *)
Definition can_place (count start : Z) (duration : timedelta) (preferred : option (list Z))
    (ex : list Z) : Prop :=
  match preferred with
  | Some p => gpus_ok count start duration preferred ex p
  | None => count ≤ Z.of_nat (length (free_gpus start (start + duration) ex))
  end.

Lemma preferred_available_true start end_ ex gpus :
  preferred_available index c start end_ mode expected caps units ex gpus = true ↔
  ∀ g, g ∈ gpus → g ∉ disabled_gpus c ∧ g ∉ ex ∧ gpu_available start end_ g = true.
Proof.
  unfold preferred_available, gpu_available. rewrite forallb_forall.
  split; intros H g Hg; specialize (H g ltac:(by apply list_elem_of_In)).
  - apply andb_true_iff in H as [H ?]. apply negb_true_iff, orb_false_iff in H as [H1 H2].
    apply bool_decide_eq_false in H1, H2. done.
  - destruct H as (?&?&->). by rewrite !bool_decide_eq_false_2.
Qed.

Lemma elem_of_free_gpus start end_ ex g :
  g ∈ free_gpus start end_ ex ↔
  gpu_available start end_ g = true ∧ g ∉ ex ∧ g ∈ enabled_gpus c.
Proof. unfold free_gpus, eligible_gpus. by rewrite !list_elem_of_filter. Qed.

(** The available part of the normalised order is the free GPUs, reordered. *)
Lemma order_free start end_ (ex ex' ord : list Z) :
  ord ≡ₚ enabled_gpus c → (∀ g, g ∈ ex' ↔ g ∈ ex) →
  filter (λ g, gpu_available start end_ g = true) (filter (λ g, g ∉ ex') ord)
  ≡ₚ free_gpus start end_ ex.
Proof.
  intros Hp Hex. unfold free_gpus, eligible_gpus.
  rewrite (filter_ext_in (λ g, g ∉ ex') (λ g, g ∉ ex)) by (intros g _; by rewrite Hex).
  by do 2 f_equiv.
Qed.

Lemma find_available_sound count start end_ order scores excluded w res w' :
  1 ≤ count →
  _find_available_gpus_with_reason index c count start end_ mode order scores expected caps
    units excluded w = (Ok res, w') →
  Z.of_nat (length res.1) = count →
  ∃ ex, _normalize_excluded_gpus excluded c = Ok ex ∧
    NoDup res.1 ∧ ∀ g, g ∈ res.1 → g ∈ free_gpus start end_ ex.
Proof.
  intros Hc Hrun Hlen.
  apply find_available_run in Hrun as [E|(ex & ord & now & Hex & Hord & _ & E)];
    [rewrite E in Hlen; simpl in Hlen; lia|].
  exists ex. split; [done|].
  destruct (chosen_gpus start end_ scores (filter (λ g, g ∉ ex) ord) count) as (rest & Hp & _);
    [lia|]. rewrite <- E in Hp.
  rewrite (order_free start end_ ex ex ord) in Hp;
    [|by eapply _normalize_gpu_order_perm|done].
  split.
  - assert (Hnd : NoDup (res.1 ++ rest)).
    { rewrite Hp. apply NoDup_filter, NoDup_filter, NoDup_enabled_gpus. }
    by apply NoDup_app in Hnd as [? _].
  - intros g Hg. rewrite <- Hp. apply elem_of_app. by left.
Qed.

Lemma gpus_at_start_sound count start duration preferred order scores excluded w gpus w' :
  1 ≤ count →
  _gpus_at_start index c count start duration mode preferred order scores expected caps units
    excluded w = (Ok gpus, w') →
  Z.of_nat (length gpus) = count →
  representable (start + duration) ∧
  ∃ ex, _normalize_excluded_gpus excluded c = Ok ex ∧
    gpus_ok count start duration preferred ex gpus.
Proof.
  intros Hc Hrun Hlen. unfold _gpus_at_start in Hrun.
  apply M_bind_Ok in Hrun as (end_ & w0 & [[-> Hend]%date_in_range_Ok ->]%lift_Ok & Hrun).
  apply M_bind_Ok in Hrun as (conf & w1 & _ & Hrun). split; [done|].
  case_match; [apply M_ret_Ok in Hrun as [<- _]; simpl in Hlen; lia|].
  apply M_bind_Ok in Hrun as (ex & w2 & Hex & Hrun). apply lift_Ok in Hex as [Hex ->].
  exists ex. split; [done|]. destruct preferred as [p|].
  - apply M_ret_Ok in Hrun as [<- _]. case_match eqn:Ha; [|simpl in Hlen; lia].
    split; [done|]. split; [|done]. by apply preferred_available_true.
  - apply M_bind_Ok in Hrun as ([g r] & w3 & Hf & Hrun). apply M_ret_Ok in Hrun as [<- _].
    destruct (find_available_sound _ _ _ _ _ _ _ _ _ Hc Hf Hlen) as (ex' & Hex' & Hnd & Hin).
    destruct (_normalize_excluded_gpus_idem _ _ _ Hex) as (ex'' & E & Heq).
    rewrite E in Hex'. simplify_eq. simpl in *.
    split; [done|]. split; [|split; [done|]]; intros x Hx;
      apply Hin, elem_of_free_gpus in Hx as (?&?&He); [|done].
    split; [|split; [by rewrite <- Heq|done]]. by apply elem_of_enabled_gpus in He as [_ ?].
Qed.

(** Code that computes dates ends with a result [Q] holds of, or raises the error of a
    date that does not exist, and then [bad] holds. *)
Definition dated {A} (bad : Prop) (m : M A) (w : world) (Q : A → world → Prop) : Prop :=
  match m w with
  | (Ok a, w') => later w w' ∧ Q a w'
  | (Raise e, w') => later w w' ∧ e = date_overflow ∧ bad
  end.

Lemma dated_ret {A} bad (a : A) w (Q : A → world → Prop) : Q a w → dated bad (mret a) w Q.
Proof. intros. by split. Qed.

Lemma dated_bind {A B} bad (m : M A) (f : A → M B) w (P : A → world → Prop) Q :
  dated bad m w P → (∀ a w', later w w' → P a w' → dated bad (f a) w' Q) → dated bad (m ≫= f) w Q.
Proof.
  unfold dated, mbind, M_bind. destruct (m w) as [[a|e] w']; [|done]. intros [Hl HP] Hf.
  specialize (Hf a w' Hl HP). destruct (f a w') as [[b|e] w'']; destruct Hf as [? ?]; split; (done || by etrans).
Qed.

Lemma dated_lift {A} bad (r : res A) a w (Q : A → world → Prop) : r = Ok a → Q a w → dated bad (lift r) w Q.
Proof. intros -> ?. by split. Qed.

Lemma dated_date bad t w (Q : datetime → world → Prop) :
  (¬ representable t → bad) → (representable t → Q t w) → dated bad (lift (date_in_range t)) w Q.
Proof.
  intros Hbad HQ. unfold dated, lift. destruct (date_in_range t) as [t'|e] eqn:E.
  - apply date_in_range_Ok in E as [-> ?]. split; [done|by apply HQ].
  - apply date_in_range_raises in E as [-> ?]. split_and!; [done|done|by apply Hbad].
Qed.

Lemma dated_mono {A} (bad bad' : Prop) (m : M A) w (P Q : A → world → Prop) :
  (bad → bad') → (∀ a w', P a w' → Q a w') → dated bad m w P → dated bad' m w Q.
Proof. unfold dated. destruct (m w) as [[a|e] w']; naive_solver. Qed.

(** The search does not outlive the years of [datetime]. *)
Definition horizons (w : world) : Prop := ∀ i, horizon_exists c (replace_microsecond_0 (w_clock w i)).

Lemma horizons_later w w' : later w w' → horizons w → horizons w'.
Proof. intros (E & _) H i. rewrite E. apply H. Qed.

Section Total.
Context (bad : Prop).

Lemma conflict_total (now : datetime) w s e :
  (¬ horizons w → bad) → reads_from now w → policy_conflict_at c now s e = "" →
  dated bad (booking_policy_conflict c s e None) w (λ r _, r = "").
Proof.
  intros Hbad Hr Hp. destruct (clock_now_run w) as (t & w' & Hrun & Hl & Ht).
  unfold booking_policy_conflict, dated, utc_now, mbind, M_bind, lift. rewrite Hrun.
  assert (Ht' : t = replace_microsecond_0 t) by (rewrite Ht; by rewrite replace_microsecond_0_idemp).
  destruct (check_horizon_cases c (replace_microsecond_0 t) s e) as [->|[-> Hn]].
  - split; [done|]. apply (policy_conflict_at_mono c now); [|done]. rewrite <- Ht', Ht. by apply Hr.
  - split_and!; [done..|]. apply Hbad. intros H. apply Hn. rewrite <- Ht', Ht. apply H.
Qed.

Lemma find_available_total now count start end_ order ord scores excluded ex w :
  1 ≤ count → (¬ horizons w → bad) → reads_from now w → policy_conflict_at c now start end_ = "" →
  _normalize_excluded_gpus excluded c = Ok ex → _normalize_gpu_order order c = Ok ord →
  dated bad (_find_available_gpus_with_reason index c count start end_ mode order scores
      expected caps units excluded) w
    (λ res _, Z.of_nat (length res.1) = count ↔ count ≤ Z.of_nat (length (free_gpus start end_ ex))).
Proof.
  intros Hc Hbad Hr Hp Hex Hord. unfold _find_available_gpus_with_reason.
  eapply dated_bind; [by apply (conflict_total now)|]. cbv beta. intros r w' Hl ->. simpl.
  eapply dated_bind; [by eapply dated_lift with (Q := λ a _, a = ex)|]. cbv beta. intros _ w1 _ ->.
  eapply dated_bind; [by eapply dated_lift with (Q := λ a _, a = ord)|]. cbv beta. intros _ w2 _ ->.
  set (order' := filter (λ g, g ∉ ex) ord).
  pose proof (order_free start end_ ex ex ord (_normalize_gpu_order_perm _ _ _ Hord)
    (λ g, iff_refl _)) as Hfree. fold order' in Hfree.
  assert (Hlen : (length (free_gpus start end_ ex) ≤ length order')%nat).
  { rewrite <- Hfree. apply length_filter. }
  destruct (Z.ltb_spec (Z.of_nat (length order')) count) as [Hlt|Hge].
  { apply dated_ret. simpl. lia. }
  destruct (chosen_gpus start end_ scores order' count) as (rest & _ & Hch); [lia|].
  rewrite (Permutation_length Hfree) in Hch.
  destruct (rank_gpus _ _ _ _ _ _ _ _ _ _) as [av rs] eqn:Er. cbn [fst] in Hch.
  case_match eqn:El; apply dated_ret; simpl; lia.
Qed.

Lemma gpus_at_start_total now count start duration preferred order ord scores excluded ex w :
  1 ≤ count → (¬ horizons w → bad) → (¬ representable (start + duration) → bad) →
  reads_from now w → policy_conflict_at c now start (start + duration) = "" →
  _normalize_excluded_gpus excluded c = Ok ex → _normalize_gpu_order order c = Ok ord →
  dated bad (_gpus_at_start index c count start duration mode preferred order scores
      expected caps units excluded) w
    (λ gpus _, Z.of_nat (length gpus) = count ↔ can_place count start duration preferred ex).
Proof.
  intros Hc Hbad Hend Hr Hp Hex Hord. unfold _gpus_at_start.
  eapply dated_bind; [by apply dated_date with (Q := λ t _, t = start + duration)|].
  cbv beta. intros _ w0 Hl0 ->. pose proof (reads_from_later _ _ _ Hl0 Hr) as Hr0.
  assert (Hbad0 : ¬ horizons w0 → bad). { intros H. apply Hbad. contradict H. by eapply horizons_later. }
  eapply dated_bind; [by apply (conflict_total now)|]. cbv beta. intros r w1 Hl1 ->. simpl.
  pose proof (reads_from_later _ _ _ Hl1 Hr0) as Hr1.
  assert (Hbad1 : ¬ horizons w1 → bad). { intros H. apply Hbad0. contradict H. by eapply horizons_later. }
  eapply dated_bind; [by eapply dated_lift with (Q := λ a w', a = ex ∧ w' = w1)|]. cbv beta. intros _ _ _ [-> ->].
  destruct preferred as [p|]; simpl.
  - apply dated_ret. unfold gpus_ok. rewrite <- preferred_available_true.
    destruct (preferred_available _ _ _ _ _ _ _ _ _ _); [tauto|].
    simpl. split; [lia|naive_solver].
  - destruct (_normalize_excluded_gpus_idem _ _ _ Hex) as (ex' & Hex' & Heq).
    eapply dated_bind; [by eapply (find_available_total now)|]. cbv beta. intros [g rs] w2 _ Hres.
    apply dated_ret. simpl in *. rewrite Hres.
    assert (free_gpus start (start + duration) ex' = free_gpus start (start + duration) ex) as ->;
      [|done].
    unfold free_gpus, eligible_gpus. f_equal. apply filter_ext_in. intros; by rewrite Heq.
Qed.
End Total.

(** ** Lemmas: the search loop *)

Lemma first_fit_sound count now duration preferred order scores excluded cands w s gpus w' :
  1 ≤ count →
  first_fit index c count now duration mode preferred order scores expected caps units
    excluded cands w = (Ok (Some (s, gpus)), w') →
  s ∈ cands ∧ policy_conflict_at c (replace_microsecond_0 now) s (s + duration) = "" ∧
  representable (s + duration) ∧
  ∃ ex, _normalize_excluded_gpus excluded c = Ok ex ∧
    gpus_ok count s duration preferred ex gpus.
Proof.
  intros Hc. revert w. induction cands as [|s' cands IH]; intros w Hrun; cbn [first_fit] in Hrun.
  { by apply M_ret_Ok in Hrun as [? _]. }
  apply M_bind_Ok in Hrun as (end_ & w0 & [[-> Hend]%date_in_range_Ok ->]%lift_Ok & Hrun).
  apply M_bind_Ok in Hrun as (conf & w1 & Hconf & Hrun).
  apply conflict_Ok in Hconf as (current & -> & [-> ->]).
  case_bool_decide as Hpol; simpl in Hrun.
  2:{ destruct (IH _ Hrun) as [? ?]. split; [by right|done]. }
  apply M_bind_Ok in Hrun as (g & w2 & Hg & Hrun).
  destruct (Z.eqb_spec (Z.of_nat (length g)) count) as [Hlen|].
  - apply M_ret_Ok in Hrun as [? ->]. simplify_eq. split; [left|]. split; [done|].
    by eapply gpus_at_start_sound.
  - destruct (IH _ Hrun) as [? ?]. split; [by right|done].
Qed.

(** A start the loop accepts. *)
Definition fits (count now : Z) (duration : timedelta) (preferred : option (list Z))
    (ex : list Z) (s : datetime) : Prop :=
  policy_conflict_at c now s (s + duration) = "" ∧ can_place count s duration preferred ex.

(** Under a clock that does not go back the loop always ends; its result is the first
    candidate that fits, unless a date it computes does not exist. *)
Lemma first_fit_total bad count now duration preferred order ord scores excluded ex cands w :
  1 ≤ count → (¬ horizons w → bad) → (¬ horizon_exists c now → bad) →
  (∀ s, s ∈ cands → ¬ representable (s + duration) → bad) →
  reads_from now w → replace_microsecond_0 now = now →
  _normalize_excluded_gpus excluded c = Ok ex → _normalize_gpu_order order c = Ok ord →
  dated bad (first_fit index c count now duration mode preferred order scores expected caps units
      excluded cands) w (λ r _,
    match r with
    | None => ∀ s, s ∈ cands → ¬ fits count now duration preferred ex s
    | Some (s, _) => ∃ pre post, cands = pre ++ s :: post ∧
        fits count now duration preferred ex s ∧
        ∀ s', s' ∈ pre → ¬ fits count now duration preferred ex s'
    end).
Proof.
  intros Hc Hbad Hnowbad Hend Hr Hnow Hex Hord. revert w Hbad Hr.
  induction cands as [|s cands IH]; intros w Hbad Hr; cbn [first_fit].
  { apply dated_ret. by intros s ?%not_elem_of_nil. }
  assert (Hskip : ∀ w1, later w w1 → ¬ fits count now duration preferred ex s →
    dated bad (first_fit index c count now duration mode preferred order scores expected caps units
      excluded cands) w1 (λ r _,
    match r with
    | None => ∀ s0, s0 ∈ s :: cands → ¬ fits count now duration preferred ex s0
    | Some (s0, _) => ∃ pre post, s :: cands = pre ++ s0 :: post ∧
        fits count now duration preferred ex s0 ∧
        ∀ s', s' ∈ pre → ¬ fits count now duration preferred ex s'
    end)).
  { intros w1 Hl Hn. eapply (dated_mono bad bad); [done| |apply IH].
    - intros [[s0 g]|] w2 Hres.
      + destruct Hres as (pre & post & -> & Hf & Hpre). exists (s :: pre), post.
        split; [done|]. split; [done|]. intros s' [->|?]%elem_of_cons; auto.
      + intros s0 [->|?]%elem_of_cons; auto.
    - intros s' Hs'. apply Hend. by right.
    - intros H. apply Hbad. contradict H. by eapply horizons_later.
    - by eapply reads_from_later. }
  eapply dated_bind; [apply dated_date with (Q := λ t w', t = s + duration ∧ w' = w); [apply Hend; left|done]|].
  cbv beta. intros _ _ _ [-> ->]. unfold booking_policy_conflict. cbn [mbind M_bind].
  eapply dated_bind with (P := λ r w', r = policy_conflict_at c now s (s + duration) ∧ w' = w).
  { eapply dated_bind; [by apply dated_ret with (Q := λ t w', t = now ∧ w' = w)|]. cbv beta.
    intros _ _ _ [-> ->]. rewrite Hnow. unfold dated, mbind, M_bind, lift.
    destruct (check_horizon_cases c now s (s + duration)) as [->|[-> Hn]]; [done|].
    split_and!; [done..|]. by apply Hnowbad. }
  cbv beta. intros _ _ _ [-> ->]. case_bool_decide as Hpol; simpl.
  2:{ apply Hskip; [done|]. by intros [? _]. }
  eapply dated_bind.
  { eapply (gpus_at_start_total bad now); try done. apply Hend. left. }
  cbv beta. intros gpus w1 Hl Hiff.
  destruct (Z.eqb_spec (Z.of_nat (length gpus)) count) as [Hlen|Hlen].
  - apply dated_ret. exists [], cands. split; [done|]. split; [|by intros s' ?%not_elem_of_nil].
    split; [done|]. by apply Hiff.
  - apply Hskip; [done|]. intros [_ Hf]. by apply Hiff in Hf.
Qed.
End AtStart.

Lemma forward_first_fit index c count now d mode p o s e k u x cands :
  forward (first_fit index c count now d mode p o s e k u x cands).
Proof.
  induction cands as [|t cands IH]; cbn [first_fit]; [apply forward_ret|].
  apply forward_bind; [apply forward_lift|]. intros ?.
  apply forward_bind; [apply forward_conflict|]. intros conflict. case_match; [exact IH|].
  apply forward_bind; [|intros; case_match; [apply forward_ret|exact IH]].
  unfold _gpus_at_start. apply forward_bind; [apply forward_lift|]. intros ?.
  apply forward_bind; [apply forward_conflict|]. intros conflict'.
  case_match; [apply forward_ret|]. apply forward_bind; [apply forward_lift|]. intros ex.
  case_match; [apply forward_ret|]. apply forward_bind; [|intros []; apply forward_ret].
  unfold _find_available_gpus_with_reason. apply forward_bind; [apply forward_conflict|].
  intros r. case_match; [apply forward_ret|]. apply forward_bind; [apply forward_lift|]. intros ?.
  apply forward_bind; [apply forward_lift|]. intros ?. case_match; [apply forward_ret|].
  repeat case_match; apply forward_ret.
Qed.
