(* ===== verification/Search.v ===== *)
(** * Search: the slot searches find the best slot ([src/src/bk/scheduler.py])

    [find_earliest_slot] and [find_nearest_slot] only look at a finite set of
    candidate starts: the first legal boundary and the boundaries after the ends
    of reservations and blackouts. Here the searches are related to the plain
    meaning of a feasible slot, an interval every instant of which has room. *)

From S2P Require Import Prelude PyBase Granularity Timeparse Models Sharing Config Policy.
From S2P Require Import ScheduleIndex Availability Placement.

(** ** The pointwise specification *)

(** The GPU has room for the request at every instant of [[s, e)]. *)
Definition gpu_room (spans : list span) (c : config) (mode : string) (expected : option Z)
    (caps : option (gmap Z Z)) (units : Z) (s e : datetime) (g : Z) : Prop :=
  request_ok mode (max_shared_users c) units ∧
  ∀ t, s ≤ t → t < e →
    room_at spans g mode (max_shared_users c) expected (memory_capacity caps g)
      (shared_memory_reserve_mb c) units t.

(** A legal choice of GPUs for the interval of length [d] from [s]. *)
Definition placed (spans : list span) (c : config) (count : Z) (d : timedelta) (mode : string)
    (preferred : option (list Z)) (ex : list Z) (expected : option Z) (caps : option (gmap Z Z))
    (units : Z) (s : datetime) (gpus : list Z) : Prop :=
  Z.of_nat (length gpus) = count ∧
  (∀ g, g ∈ gpus → g ∉ disabled_gpus c ∧ g ∉ ex ∧
     gpu_room spans c mode expected caps units s (s + d) g) ∧
  match preferred with
  | Some p => gpus = p
  | None => NoDup gpus ∧ ∀ g, g ∈ gpus → g ∈ enabled_gpus c
  end.

Definition feasible (spans : list span) (c : config) (now count : Z) (d : timedelta)
    (mode : string) (preferred : option (list Z)) (ex : list Z) (expected : option Z)
    (caps : option (gmap Z Z)) (units : Z) (s : datetime) : Prop :=
  policy_conflict_at c now s (s + d) = "" ∧
  ∃ gpus, placed spans c count d mode preferred ex expected caps units s gpus.

(** The intervals a search takes into account at the reading [now]. *)
Definition live_spans (l : ledger) (now : datetime) : list span :=
  span_of <$> filter (λ r, r_status r ∈ [STATUS_ACTIVE] ∧ now < r_end_at r) (l_reservations l).

Lemma from_ledger_live l now : from_ledger l now = make_index (live_spans l now).
Proof. done. Qed.

Lemma elem_of_live_spans l now sp :
  sp ∈ live_spans l now ↔
  ∃ r, sp = span_of r ∧ r ∈ l_reservations l ∧ r_status r = STATUS_ACTIVE ∧ now < r_end_at r.
Proof.
  unfold live_spans. rewrite list_elem_of_fmap. setoid_rewrite list_elem_of_filter.
  setoid_rewrite list_elem_of_singleton. naive_solver.
Qed.

Lemma live_spans_ok l now : ledger_ok l → spans_ok (live_spans l now).
Proof. intros Hl sp (r & -> & Hr & _)%elem_of_live_spans. by apply (lo_reservations l Hl). Qed.

Lemma live_spans_nonempty l now sp :
  ledger_ok l → sp ∈ live_spans l now → sp_start sp < sp_end sp.
Proof.
  intros Hl (r & -> & Hr & _)%elem_of_live_spans. by apply ro_interval, (lo_reservations l Hl).
Qed.

(** ** Feasibility and the availability test *)

(** Fewer holders leave more room. *)
Lemma room_at_fewer spans g mode cap expected capacity reserve units t (spans' : list span) t' :
  (∀ sp, sp ∈ holders spans g t → sp ∈ holders spans' g t') →
  (∀ f : span → Z, (∀ sp, 0 ≤ f sp) →
     sumZ f (shared_holders spans g t) ≤ sumZ f (shared_holders spans' g t')) →
  room_at spans' g mode cap expected capacity reserve units t' →
  room_at spans g mode cap expected capacity reserve units t.
Proof.
  intros Hh Hsum. unfold room_at. case_bool_decide.
  { intros E. destruct (holders spans g t) as [|sp ?]; [done|]. exfalso.
    specialize (Hh sp ltac:(left)). rewrite E in Hh. by apply not_elem_of_nil in Hh. }
  intros (Hx & Hu & Hm). unfold units_at, memory_at in *. split; [auto|].
  assert (Hu' := Hsum (span_units cap) ltac:(intros sp; pose proof (span_units_pos cap sp); lia)).
  split; [lia|]. destruct capacity as [k|]; [|done]. cbv zeta in *.
  assert (Hm' := Hsum (span_memory (Z.max 0 (k - reserve)) cap)
    ltac:(intros sp; pose proof (span_memory_pos (Z.max 0 (k - reserve)) cap sp); lia)).
  lia.
Qed.

Lemma room_at_mono spans g mode cap expected capacity reserve units t t' :
  (∀ sp, sp ∈ spans → covers sp t → covers sp t') →
  room_at spans g mode cap expected capacity reserve units t' →
  room_at spans g mode cap expected capacity reserve units t.
Proof.
  intros Hsub. apply room_at_fewer.
  - intros sp. unfold holders. rewrite !list_elem_of_filter. naive_solver.
  - intros f Hf. unfold shared_holders, holders. rewrite !filter_filter_and.
    apply sumZ_filter_mono; naive_solver.
Qed.

Lemma room_at_filter (P : span → Prop) `{!∀ sp, Decision (P sp)} spans g mode cap expected
    capacity reserve units t :
  room_at spans g mode cap expected capacity reserve units t →
  room_at (filter P spans) g mode cap expected capacity reserve units t.
Proof.
  apply room_at_fewer.
  - intros sp. unfold holders. rewrite !list_elem_of_filter. naive_solver.
  - intros f Hf. unfold shared_holders, holders. rewrite !filter_filter_and.
    apply sumZ_filter_mono; naive_solver.
Qed.

Section Feasible.
Context (spans : list span) (c : config) (mode : string).
Context (expected : option Z) (caps : option (gmap Z Z)) (units : Z).
Context (count : Z) (d : timedelta) (preferred : option (list Z)) (ex : list Z).
Context (Hok : spans_ok spans).
Context (Hne : ∀ sp, sp ∈ spans → sp_start sp < sp_end sp).
Context (Hcount : 1 ≤ count) (Hd : 0 < d).

Let index := make_index spans.

Lemma free_gpus_NoDup s e : NoDup (free_gpus index c mode expected caps units s e ex).
Proof. apply NoDup_filter, NoDup_filter, NoDup_enabled_gpus. Qed.

Lemma gpu_available_room s e g :
  s < e → gpu_available index c mode expected caps units s e g = true ↔
          gpu_room spans c mode expected caps units s e g.
Proof. intros. by apply available_iff_room. Qed.

Lemma gpus_ok_placed s gpus :
  gpus_ok index c mode expected caps units count s d preferred ex gpus ↔
  placed spans c count d mode preferred ex expected caps units s gpus.
Proof.
  unfold gpus_ok, placed. setoid_rewrite gpu_available_room; [done|lia].
Qed.

Lemma fits_feasible now s :
  fits index c mode expected caps units count now d preferred ex s ↔
  feasible spans c now count d mode preferred ex expected caps units s.
Proof.
  unfold fits, feasible. apply and_iff_compat_l. unfold can_place.
  setoid_rewrite <- gpus_ok_placed. destruct preferred as [p|].
  { split; [by intros; exists p|]. intros (gpus & Hg). by destruct Hg as (?&?&->). }
  split.
  - intros Hlen. exists (take (Z.to_nat count) (free_gpus index c mode expected caps units s (s + d) ex)).
    split; [rewrite length_take; lia|]. split; [|split].
    + intros g Hg%elem_of_take. destruct Hg as (i & Hi & _).
      apply list_elem_of_lookup_2, elem_of_free_gpus in Hi as (?&?&He).
      by apply elem_of_enabled_gpus in He as [_ ?].
    + eapply sublist_NoDup; [apply (free_gpus_NoDup s (s + d))|apply sublist_take].
    + intros g Hg%elem_of_take. destruct Hg as (i & Hi & _).
      by apply list_elem_of_lookup_2, elem_of_free_gpus in Hi as (?&?&?).
  - intros (gpus & Hlen & Hg & Hnd & Hen). rewrite <- Hlen. apply inj_le, submseteq_length.
    apply NoDup_submseteq; [done|]. intros g Hin. apply elem_of_free_gpus. naive_solver.
Qed.

(** A feasible slot can be moved as long as every new instant is covered by
    no more reservations than some instant of the old interval. *)
Lemma feasible_move now s s' :
  feasible spans c now count d mode preferred ex expected caps units s →
  policy_conflict_at c now s' (s' + d) = "" →
  (∀ t, s' ≤ t → t < s' + d → ∃ t', s ≤ t' ∧ t' < s + d ∧
     ∀ sp, sp ∈ spans → covers sp t → covers sp t') →
  feasible spans c now count d mode preferred ex expected caps units s'.
Proof.
  intros (_ & gpus & Hlen & Hg & Hp) Hpol Hcov. split; [done|]. exists gpus.
  split; [done|]. split; [|done]. intros g Hin. destruct (Hg g Hin) as (?&?&Hr&Hroom).
  do 3 (split; [done|]). intros t Hl Hr'. destruct (Hcov t Hl Hr') as (t' & ? & ? & Hsub).
  eapply room_at_mono; [exact Hsub|]. by apply Hroom.
Qed.
End Feasible.

Lemma live_spans_later l now now' :
  now ≤ now' → live_spans l now' = filter (λ sp, now' < sp_end sp) (live_spans l now).
Proof.
  intros Hle. unfold live_spans. rewrite filter_fmap_list, filter_filter_and. f_equal.
  apply filter_ext_in. intros r _. simpl. split; intros; destruct_and!; split_and!; (done || lia).
Qed.

(** What is feasible at one reading of the clock stays so at a later one. *)
Lemma feasible_later l c now now' count d mode preferred ex expected caps units s :
  now ≤ now' →
  feasible (live_spans l now) c now count d mode preferred ex expected caps units s →
  feasible (live_spans l now') c now' count d mode preferred ex expected caps units s.
Proof.
  intros Hle (Hpol & gpus & Hlen & Hg & Hp). split; [by apply (policy_conflict_at_mono c now)|].
  exists gpus. split; [done|]. split; [|done]. intros g Hin.
  destruct (Hg g Hin) as (?&?&?&Hroom). do 3 (split; [done|]). intros t Hl Hr.
  rewrite (live_spans_later l now now') by done. by apply room_at_filter, Hroom.
Qed.

(** ** Moving a feasible slot to a candidate *)

Section Move.
Context (spans : list span) (c : config) (mode : string).
Context (expected : option Z) (caps : option (gmap Z Z)) (units : Z).
Context (count : Z) (d : timedelta) (preferred : option (list Z)) (ex : list Z).
Context (Hd : 0 < d).

Let ok now s := feasible spans c now count d mode preferred ex expected caps units s.

(** To the left, down to an instant [c0] after which no reservation and no
    blackout ends. *)
Lemma feasible_left now s c0 :
  ok now s → c0 ≤ s →
  (∀ sp, sp ∈ spans → c0 < sp_end sp → s < sp_end sp) →
  (∀ b, b ∈ booking_blackouts c → c0 < bo_end b → s < bo_end b) →
  ok now c0.
Proof.
  intros Hs Hle Hsp Hbo. eapply feasible_move; [exact Hs| |].
  - destruct Hs as [Hpol _]. apply policy_conflict_at_nil in Hpol as (?&?&Hb).
    apply policy_conflict_at_nil. repeat split; [lia..|].
    intros b Hin [H1 H2]. apply (Hb b Hin). specialize (Hbo b Hin H1). lia.
  - intros t Hl Hr. destruct (decide (t < s)) as [Hts|Hts].
    + exists s. split; [lia|]. split; [lia|]. intros sp Hin [H1 H2].
      specialize (Hsp sp Hin). unfold covers. lia.
    + exists t. split; [lia|]. split; [lia|]. done.
Qed.

(** To the right, up to an instant before whose end no reservation and no
    blackout begins. *)
Lemma feasible_right now s c0 :
  ok now s → s ≤ c0 → c0 + d ≤ now + days (booking_horizon_days c) →
  (∀ sp, sp ∈ spans → sp_start sp < c0 + d → sp_start sp < s + d) →
  (∀ b, b ∈ booking_blackouts c → bo_start b < c0 + d → bo_start b < s + d) →
  ok now c0.
Proof.
  intros Hs Hle Hhor Hsp Hbo. eapply feasible_move; [exact Hs| |].
  - destruct Hs as [Hpol _]. apply policy_conflict_at_nil in Hpol as (?&?&Hb).
    apply policy_conflict_at_nil. repeat split; [lia..|].
    intros b Hin [H1 H2]. apply (Hb b Hin). specialize (Hbo b Hin H2). lia.
  - intros t Hl Hr. destruct (decide (s + d ≤ t)) as [Hts|Hts].
    + exists (s + d - 1). split; [lia|]. split; [lia|]. intros sp Hin [H1 H2].
      specialize (Hsp sp Hin). unfold covers. lia.
    + exists t. split; [lia|]. split; [lia|]. done.
Qed.
End Move.

(** The last element at or before [s], the first at or after it. *)
Lemma last_before (l : list Z) x s :
  x ∈ l → x ≤ s → ∃ m, m ∈ l ∧ m ≤ s ∧ x ≤ m ∧ ∀ y, y ∈ l → m < y → s < y.
Proof.
  intros Hx Hle. destruct (list_argmax (λ y, y ≤ s) id l x Hx Hle) as (m & Hm & Hms & Hmax).
  exists m. do 2 (split; [done|]). unfold id in *. split; [by apply Hmax|].
  intros y Hy Hlt. destruct (decide (y ≤ s)) as [Hy'|]; [|lia]. specialize (Hmax y Hy Hy'). lia.
Qed.

Lemma first_after (l : list Z) x s :
  x ∈ l → s ≤ x → ∃ m, m ∈ l ∧ s ≤ m ∧ m ≤ x ∧ ∀ y, y ∈ l → y < m → y < s.
Proof.
  intros Hx Hle. destruct (list_argmax (λ y, s ≤ y) Z.opp l x Hx Hle) as (m & Hm & Hms & Hmax).
  exists m. do 2 (split; [done|]). split; [specialize (Hmax x Hx Hle); lia|].
  intros y Hy Hlt. destruct (decide (s ≤ y)) as [Hy'|]; [|lia]. specialize (Hmax y Hy Hy'). lia.
Qed.

(** ** The earliest slot *)

Lemma elem_of_earliest_candidates index c es now x :
  x ∈ earliest_candidates index c es now true ↔
  let lo := search_start_of c es now true in
  let hi := search_until_of c lo now in
  x = slot_ceil lo (slot_minutes c) ∨
  (∃ sp, sp ∈ ix_spans index ∧ x = slot_ceil (sp_end sp) (slot_minutes c) ∧ lo ≤ x ≤ hi) ∨
  (∃ b, b ∈ booking_blackouts c ∧ x = slot_ceil (bo_end b) (slot_minutes c) ∧ lo ≤ bo_end b ≤ hi).
Proof.
  unfold earliest_candidates, _candidate_starts_from_index, candidate_set, blackout_candidates.
  cbv zeta. rewrite elem_of_sorted_set, elem_of_app, elem_of_sorted_set, elem_of_cons.
  change (map ?f ?l) with (f <$> l).
  rewrite list_elem_of_filter, !list_elem_of_fmap. setoid_rewrite list_elem_of_filter.
  naive_solver.
Qed.

Lemma normalize_queue_start_on m v now : valid_slot m → on_slot m (normalize_queue_start v now m).
Proof.
  intros Hm. unfold normalize_queue_start.
  destruct (v <=? now); [by apply slot_floor_on|by apply slot_ceil_on].
Qed.

Lemma search_start_on_slot c es now :
  valid_slot (slot_minutes c) → on_slot (slot_minutes c) (search_start_of c es now true).
Proof. apply normalize_queue_start_on. Qed.

Lemma sorted_first {A} (R : A → A → Prop) (pre post : list A) s x :
  StronglySorted R (pre ++ s :: post) → x ∈ pre ++ s :: post → x ∉ pre → x = s ∨ R s x.
Proof.
  intros Hs [?|[->|Hx]%elem_of_cons]%elem_of_app Hn; [done|by left|right].
  assert (Hs' : StronglySorted R (s :: post)).
  { revert Hs. clear. induction pre as [|a pre IH]; [done|]. intros [Hs _]%StronglySorted_inv.
    by apply IH. }
  apply StronglySorted_inv in Hs' as [_ Hf]. rewrite Forall_forall in Hf. by apply Hf.
Qed.

(** The candidate at or before a feasible slot that is feasible as well. *)
Lemma earliest_candidate_left l c es now mode expected caps units count d preferred ex s :
  valid_slot (slot_minutes c) → 0 < d →
  let spans := live_spans l now in
  let lo := search_start_of c es now true in
  let hi := search_until_of c lo now in
  feasible spans c now count d mode preferred ex expected caps units s →
  on_slot (slot_minutes c) s → lo ≤ s ≤ hi →
  ∃ c0, c0 ∈ earliest_candidates (from_ledger l now) c es now true ∧ c0 ≤ s ∧
    feasible spans c now count d mode preferred ex expected caps units c0.
Proof.
  intros Hslot Hd. cbv zeta. set (spans := live_spans l now).
  set (lo := search_start_of c es now true). set (hi := search_until_of c lo now).
  intros Hs Hon Hrange. set (cands := earliest_candidates _ _ _ _ _).
  assert (Hlo : lo ∈ cands).
  { apply elem_of_earliest_candidates. left. symmetry.
    by apply slot_ceil_id, search_start_on_slot. }
  destruct (last_before cands lo s Hlo) as (c0 & Hc0 & Hle & Hge & Hgap); [lia|].
  exists c0. split; [done|]. split; [done|].
  assert (Hend : ∀ e, lo ≤ e → slot_ceil e (slot_minutes c) ∈ cands ∨ hi < slot_ceil e (slot_minutes c) →
    c0 < e → s < e).
  { intros e Hlo' Hin Hlt. pose proof (slot_ceil_bounds (slot_minutes c) Hslot e) as Hb.
    destruct (Z.lt_ge_cases s e) as [|Hge']; [done|].
    pose proof (proj1 (slot_ceil_least (slot_minutes c) Hslot s e Hon) Hge').
    destruct Hin as [Hin|]; [|lia]. specialize (Hgap _ Hin ltac:(lia)). lia. }
  apply (feasible_left spans c mode expected caps units count d preferred ex Hd now s c0 Hs Hle).
  - intros sp Hsp Hlt. apply Hend; [lia| |done].
    pose proof (slot_ceil_bounds (slot_minutes c) Hslot (sp_end sp)).
    destruct (Z.lt_ge_cases hi (slot_ceil (sp_end sp) (slot_minutes c))); [by right|left].
    apply elem_of_earliest_candidates. right; left. exists sp.
    rewrite from_ledger_live. split; [by apply elem_of_sort_by|]. fold lo hi. split; [done|lia].
  - intros b Hb Hlt. destruct (Z.lt_ge_cases s (bo_end b)) as [|Hge']; [done|].
    apply Hend; [lia| |done]. left. apply elem_of_earliest_candidates. right; right.
    exists b. fold lo hi. split; [done|]. split; [done|lia].
Qed.

(** Whatever the clock does, a slot the search returns is legal at its reading. *)
Lemma find_earliest_slot_sound l c count es d mode uid preferred allow_queue order scores
    expected caps units excluded w s gpus w' :
  ledger_ok l → 1 ≤ count → 0 < d →
  find_earliest_slot l c count es d mode uid preferred allow_queue order scores expected caps
    units excluded w = (Ok (Some (s, gpus)), w') →
  ∃ now w1 ex, clock_now w = (Ok now, w1) ∧ later w1 w' ∧
    _normalize_excluded_gpus excluded c = Ok ex ∧
    policy_conflict_at c now s (s + d) = "" ∧
    placed (live_spans l now) c count d mode preferred ex expected caps units s gpus ∧
    s ∈ earliest_candidates (from_ledger l now) c es now allow_queue.
Proof.
  intros Hl Hc Hd Hrun. unfold find_earliest_slot, utc_now in Hrun.
  apply M_bind_Ok in Hrun as ([] & w0 & Hv & Hrun). apply lift_Ok in Hv as [_ <-].
  apply M_bind_Ok in Hrun as (now & w1 & Hnow & Hrun). cbv zeta in Hrun.
  apply M_bind_Ok in Hrun as (u & w2 & [_ <-]%lift_Ok & Hrun).
  assert (Hl1 : later w1 w').
  { eapply forward_Ok; [|exact Hrun]. apply forward_first_fit. }
  destruct (first_fit_sound _ _ _ _ _ _ _ _ _ _ _ _ _ _ _ _ _ _ Hc Hrun)
    as (Hin & Hpol & _ & ex & Hex & Hg).
  exists now, w1, ex. do 3 (split; [done|]). split; [|split; [|done]].
  - apply clock_now_Ok in Hnow as [-> _]. by rewrite replace_microsecond_0_idemp in Hpol.
  - apply gpus_ok_placed; [by apply live_spans_ok|intros sp; by apply live_spans_nonempty|
      done..].
Qed.

Lemma earliest_candidates_on_slot index c es now s :
  valid_slot (slot_minutes c) → s ∈ earliest_candidates index c es now true →
  on_slot (slot_minutes c) s.
Proof.
  intros Hslot. rewrite elem_of_earliest_candidates. cbv zeta.
  intros [->|[(sp & _ & -> & _)|(b & _ & -> & _)]]; by apply slot_ceil_on.
Qed.

(** No candidate is before the start of the window, nor is that before the
    requested boundary. *)
Lemma earliest_candidates_from index c es now s :
  valid_slot (slot_minutes c) → s ∈ earliest_candidates index c es now true →
  search_start_of c es now true ≤ s.
Proof.
  intros Hslot. rewrite elem_of_earliest_candidates. cbv zeta.
  intros [->|[(sp & _ & -> & ?)|(b & _ & -> & ?)]]; [|lia|].
  - pose proof (slot_ceil_bounds (slot_minutes c) Hslot (search_start_of c es now true)). lia.
  - pose proof (slot_ceil_bounds (slot_minutes c) Hslot (bo_end b)). lia.
Qed.

Lemma search_start_of_ge c es now s :
  valid_slot (slot_minutes c) → on_slot (slot_minutes c) es → search_start_of c es now true ≤ s →
  es ≤ s.
Proof.
  intros Hslot Hon. unfold search_start_of, normalize_queue_start.
  pose proof (slot_ceil_bounds (slot_minutes c) Hslot (replace_microsecond_0 es)).
  assert (replace_microsecond_0 es = es) as E by by apply (on_slot_whole_second (slot_minutes c)).
  rewrite E in *. destruct (Z.leb_spec es now) as [Hle|]; [|lia].
  pose proof (proj1 (slot_floor_greatest _ Hslot es now Hon) Hle). lia.
Qed.

(** The dates a search computes exist: those before its loop, the ends of its
    candidates, and the horizon of every reading of the clock. *)
Definition dates_exist (dates cands : list datetime) (c : config) (d : timedelta) (w : world) : Prop :=
  Forall representable dates ∧ (∀ s, s ∈ cands → representable (s + d)) ∧ horizons c w.

(** What the loop of a search answers, after its reading of the clock. *)
Lemma search_loop index c mode expected caps units count (now : datetime) d preferred order scores
    excluded ex ord dates cands (w w1 : world) :
  now = replace_microsecond_0 (w_clock w (w_reads w)) → later w w1 → reads_from now w1 → 1 ≤ count →
  _normalize_excluded_gpus excluded c = Ok ex → _normalize_gpu_order order c = Ok ord →
  dated (¬ dates_exist dates cands c d w)
    (_ ← lift (dates_in_range dates);
     first_fit index c count now d mode preferred order scores expected caps units excluded cands) w1
    (λ r _,
    let fit := fits index c mode expected caps units count now d preferred ex in
    match r with
    | None => ∀ s, s ∈ cands → ¬ fit s
    | Some (s, gpus) => (∃ pre post, cands = pre ++ s :: post ∧ fit s ∧ ∀ s', s' ∈ pre → ¬ fit s') ∧
        gpus_ok index c mode expected caps units count s d preferred ex gpus
    end).
Proof.
  intros Hnow Hlater Hreads Hc Hex Hord.
  eapply dated_bind with (P := λ _ w', w' = w1).
  { destruct (dates_in_range_cases dates) as [[E _]|[E Hn]]; unfold dated, lift; rewrite E; [done|].
    split_and!; [done..|]. by intros [? _]. }
  cbv beta. intros _ _ _ ->.
  assert (Hh : ¬ horizons c w1 → ¬ dates_exist dates cands c d w).
  { intros H (_ & _ & Hw). apply H. by eapply horizons_later. }
  assert (Hh' : ¬ horizon_exists c now → ¬ dates_exist dates cands c d w).
  { intros H (_ & _ & Hw). apply H. rewrite Hnow. apply Hw. }
  assert (Hend : ∀ s, s ∈ cands → ¬ representable (s + d) → ¬ dates_exist dates cands c d w).
  { intros s Hs H (_ & Hends & _). by apply H, Hends. }
  assert (Hidem : replace_microsecond_0 now = now) by (rewrite Hnow; apply replace_microsecond_0_idemp).
  pose proof (first_fit_total index c mode expected caps units _ count now d preferred order ord scores
    excluded ex cands w1 Hc Hh Hh' Hend Hreads Hidem Hex Hord) as Hff.
  unfold dated in *. destruct (first_fit _ _ _ _ _ _ _ _ _ _ _ _ _ _ w1) as [[[[s gpus]|]|e] w'] eqn:E; try done.
  destruct Hff as [Hl Hres]. split; [done|]. split; [exact Hres|].
  destruct (first_fit_sound index c mode expected caps units _ _ _ _ _ _ _ _ _ _ _ _ Hc E)
    as (_ & _ & _ & ex' & Hex' & Hg). by replace ex with ex' by congruence.
Qed.

(** Every date of the queued search, or of the exact one, exists. *)
Definition search_dates_exist (l : ledger) (c : config) (es now : datetime) (d : timedelta)
    (allow_queue : bool) (w : world) : Prop :=
  let index := from_ledger l now in
  dates_exist (earliest_dates index c es now allow_queue)
    (earliest_candidates index c es now allow_queue) c d w.

Lemma earliest_loop l c count es d mode uid preferred allow_queue order scores expected caps
    units excluded ex ord w :
  let now := replace_microsecond_0 (w_clock w (w_reads w)) in
  let index := from_ledger l now in
  let cands := earliest_candidates index c es now allow_queue in
  let fit := fits index c mode expected caps units count now d preferred ex in
  monotone_clock w → 1 ≤ count → validate_ledger_policy l c = Ok tt →
  _normalize_excluded_gpus excluded c = Ok ex → _normalize_gpu_order order c = Ok ord →
  dated (¬ search_dates_exist l c es now d allow_queue w)
    (find_earliest_slot l c count es d mode uid preferred allow_queue order scores expected caps
       units excluded) w (λ r _,
    match r with
    | None => ∀ s, s ∈ cands → ¬ fit s
    | Some (s, gpus) => (∃ pre post, cands = pre ++ s :: post ∧ fit s ∧ ∀ s', s' ∈ pre → ¬ fit s') ∧
        gpus_ok index c mode expected caps units count s d preferred ex gpus
    end).
Proof.
  cbv zeta. intros Hmono Hc Hpol Hex Hord. unfold find_earliest_slot, utc_now.
  eapply dated_bind; [by eapply dated_lift with (Q := λ _ w', w' = w)|]. cbv beta. intros _ _ _ ->.
  destruct (clock_now_run w) as (now & w1 & Hrun & Hlater & Hnow). rewrite <- Hnow.
  destruct (clock_now_reads_from _ _ _ Hmono Hrun) as (Hreads & _ & _).
  eapply dated_bind with (P := λ t w', t = now ∧ w' = w1); [unfold dated; by rewrite Hrun|].
  cbv beta. intros _ _ _ [-> ->]. by apply (search_loop _ _ _ _ _ _ _ _ _ _ _ _ _ _ ord).
Qed.

(** The run of the queued search and what its answer means. *)
Lemma earliest_slot_run l c count es d mode uid preferred order scores expected caps
    units excluded ex ord w :
  let now := replace_microsecond_0 (w_clock w (w_reads w)) in
  let spans := live_spans l now in
  let lo := search_start_of c es now true in
  let ok := feasible spans c now count d mode preferred ex expected caps units in
  let window s := on_slot (slot_minutes c) s ∧ lo ≤ s ≤ search_until_of c lo now in
  valid_slot (slot_minutes c) → ledger_ok l → monotone_clock w → 1 ≤ count → 0 < d →
  validate_ledger_policy l c = Ok tt →
  _normalize_excluded_gpus excluded c = Ok ex → _normalize_gpu_order order c = Ok ord →
  match find_earliest_slot l c count es d mode uid preferred true order scores expected caps
      units excluded w with
  | (Ok (Some (s, gpus)), w') => later w w' ∧
      policy_conflict_at c now s (s + d) = "" ∧
      placed spans c count d mode preferred ex expected caps units s gpus ∧
      ∀ s', window s' → ok s' → s ≤ s'
  | (Ok None, w') => later w w' ∧ ∀ s', window s' → ¬ ok s'
  | (Raise e, w') => later w w' ∧ e = OverflowError "date value out of range" ∧
      ¬ search_dates_exist l c es now d true w
  end.
Proof.
  cbv zeta. intros Hslot Hl Hmono Hc Hd Hpol Hex Hord.
  pose proof (earliest_loop l c count es d mode uid preferred true order scores expected caps units
    excluded ex ord w Hmono Hc Hpol Hex Hord) as Hrun. unfold dated in Hrun.
  set (now := replace_microsecond_0 _) in *.
  pose proof (live_spans_ok l now Hl) as Hok.
  pose proof (λ sp, live_spans_nonempty l now sp Hl) as Hne.
  destruct (find_earliest_slot _ _ _ _ _ _ _ _ _ _ _ _ _ _ _ w) as [[[[s gpus]|]|e] w'].
  - destruct Hrun as (Hlater & (pre & post & Hcands & Hf & Hpre) & Hg). split; [done|].
    split; [by destruct Hf|]. split; [by apply gpus_ok_placed|]. intros s' [Hon Hw] Hs'.
    destruct (earliest_candidate_left l c es now mode expected caps units count d preferred ex s'
      Hslot Hd Hs' Hon Hw) as (c0 & Hc0 & Hle & Hok0).
    assert (Hsorted : StronglySorted Z.lt (earliest_candidates (from_ledger l now) c es now true))
      by apply sorted_set_strict.
    rewrite Hcands in Hsorted, Hc0. apply (sorted_first _ _ _ _ _ Hsorted) in Hc0; [lia|].
    intros Hin. apply (Hpre c0 Hin). by apply fits_feasible.
  - destruct Hrun as [Hlater Hres]. split; [done|]. intros s' [Hon Hw] Hs'.
    destruct (earliest_candidate_left l c es now mode expected caps units count d preferred ex s'
      Hslot Hd Hs' Hon Hw) as (c0 & Hc0 & Hle & Hok0).
    apply (Hres c0 Hc0). by apply fits_feasible.
  - done.
Qed.

(** C32: under a clock that does not go back, a queued search always ends, and its
    answer is optimal: the slot it returns is feasible with the GPUs it returns, no
    slot boundary of the search window before it is feasible, and it answers that
    there is no slot only when no boundary of the window is. It raises nothing but the
    error of a date that does not exist, and only when one of the dates it computes
    (the window, rounded ends of reservations and blackouts, the end of a candidate,
    the horizon) is beyond the year 9999. *)
Theorem find_earliest_slot_optimal l c count es d mode uid preferred order scores expected caps
    units excluded ex ord w :
  let now := replace_microsecond_0 (w_clock w (w_reads w)) in
  let spans := live_spans l now in
  let lo := search_start_of c es now true in
  let ok := feasible spans c now count d mode preferred ex expected caps units in
  let window s := on_slot (slot_minutes c) s ∧ lo ≤ s ≤ search_until_of c lo now in
  valid_slot (slot_minutes c) → ledger_ok l → monotone_clock w → 1 ≤ count → 0 < d →
  validate_ledger_policy l c = Ok tt →
  _normalize_excluded_gpus excluded c = Ok ex → _normalize_gpu_order order c = Ok ord →
  match find_earliest_slot l c count es d mode uid preferred true order scores expected caps
      units excluded w with
  | (Ok (Some (s, gpus)), w') => later w w' ∧
      policy_conflict_at c now s (s + d) = "" ∧
      placed spans c count d mode preferred ex expected caps units s gpus ∧
      ∀ s', window s' → ok s' → s ≤ s'
  | (Ok None, w') => later w w' ∧ ∀ s', window s' → ¬ ok s'
  | (Raise e, w') => later w w' ∧ e = OverflowError "date value out of range" ∧
      ¬ search_dates_exist l c es now d true w
  end.
Proof. apply earliest_slot_run. Qed.

(** ** The nearest slot *)

Lemma elem_of_nearest_candidates index c lo target hi d x :
  x ∈ nearest_candidates index c lo target hi d ↔
  x = slot_ceil lo (slot_minutes c) ∨ x = target ∨
  (∃ sp, sp ∈ ix_spans index ∧ x = slot_ceil (sp_end sp) (slot_minutes c) ∧ lo ≤ x ≤ hi) ∨
  (∃ b, b ∈ booking_blackouts c ∧ x = slot_ceil (bo_end b) (slot_minutes c) ∧ lo ≤ bo_end b ≤ hi) ∨
  (∃ sp, sp ∈ ix_spans index ∧ x = slot_floor (sp_start sp - d) (slot_minutes c) ∧ lo ≤ x ≤ hi).
Proof.
  unfold nearest_candidates, _candidate_starts_from_index, candidate_set, blackout_candidates.
  rewrite elem_of_sort_by, elem_of_remove_dups, !elem_of_app, elem_of_sorted_set, elem_of_cons.
  change (map ?f ?l) with (f <$> l). rewrite list_elem_of_singleton.
  rewrite !list_elem_of_filter, !list_elem_of_fmap. setoid_rewrite list_elem_of_filter.
  naive_solver.
Qed.

Lemma nearest_sorted index c lo target hi d :
  StronglySorted (λ a b, Z.abs (a - target) ≤ Z.abs (b - target))
    (nearest_candidates index c lo target hi d).
Proof.
  apply sort_by_sorted_rel.
  - intros x y. unfold nearest_leb. rewrite orb_true_iff, andb_true_iff, Z.ltb_lt, Z.eqb_eq. lia.
  - intros x y. unfold nearest_leb. rewrite orb_false_iff, Z.ltb_ge. lia.
  - lia.
Qed.

Section Nearest.
Context (c : config) (mode : string) (expected : option Z) (caps : option (gmap Z Z)).
Context (units count : Z) (d : timedelta) (preferred : option (list Z)) (ex : list Z).
Context (Hslot : valid_slot (slot_minutes c)) (Hd : 0 < d).
Context (spans : list span) (now lo target hi : datetime).
Context (Hlo : on_slot (slot_minutes c) lo) (Htarget : lo ≤ target ≤ hi).

Let m := slot_minutes c.
Let ok s := feasible spans c now count d mode preferred ex expected caps units s.
Let cands := nearest_candidates (make_index spans) c lo target hi d.

(** A boundary at or after the target moves back, towards the target. *)
Lemma nearest_candidate_left s :
  ok s → on_slot m s → target ≤ s ≤ hi → ∃ c0, c0 ∈ cands ∧ target ≤ c0 ≤ s ∧ ok c0.
Proof.
  intros Hs Hon Hrange.
  assert (Ht : target ∈ cands) by (apply elem_of_nearest_candidates; tauto).
  destruct (last_before cands target s Ht) as (c0 & Hc0 & Hle & Hge & Hgap); [lia|].
  exists c0. split; [done|]. split; [lia|].
  assert (Hend : ∀ e, c0 < e → (e ≤ s → lo ≤ slot_ceil e m → slot_ceil e m ∈ cands) → s < e).
  { intros e Hlt Hin. pose proof (slot_ceil_bounds m Hslot e).
    destruct (Z.lt_ge_cases s e) as [|Hes]; [done|].
    pose proof (proj1 (slot_ceil_least m Hslot s e Hon) Hes).
    specialize (Hgap _ (Hin Hes ltac:(lia)) ltac:(lia)). lia. }
  apply (feasible_left spans c mode expected caps units count d preferred ex Hd now s c0 Hs Hle).
  - intros sp Hsp Hlt. apply Hend; [done|]. intros Hes Hl. apply elem_of_nearest_candidates.
    pose proof (proj1 (slot_ceil_least m Hslot s (sp_end sp) Hon) Hes).
    right; right; left. exists sp. split; [by apply elem_of_sort_by|]. split; [done|lia].
  - intros b Hb Hlt. apply Hend; [done|]. intros Hes Hl. apply elem_of_nearest_candidates.
    right; right; right; left. exists b. split; [done|]. split; [done|lia].
Qed.

(** A boundary before the target moves forward, when no blackout begins in
    between and the target itself is within the horizon. *)
Lemma nearest_candidate_right s :
  (∀ b, b ∈ booking_blackouts c → bo_start b ≤ lo ∨ target + d ≤ bo_start b) →
  target + d ≤ now + days (booking_horizon_days c) →
  ok s → on_slot m s → lo ≤ s ≤ target → ∃ c0, c0 ∈ cands ∧ s ≤ c0 ≤ target ∧ ok c0.
Proof.
  intros Hbo Hhor Hs Hon Hrange.
  assert (Ht : target ∈ cands) by (apply elem_of_nearest_candidates; tauto).
  destruct (first_after cands target s Ht) as (c0 & Hc0 & Hle & Hge & Hgap); [lia|].
  exists c0. split; [done|]. split; [lia|].
  apply (feasible_right spans c mode expected caps units count d preferred ex Hd now s c0 Hs Hle).
  - lia.
  - intros sp Hsp Hlt. destruct (Z.lt_ge_cases (sp_start sp) (s + d)) as [|Hes]; [done|].
    pose proof (proj1 (slot_floor_greatest m Hslot s (sp_start sp - d) Hon) ltac:(lia)).
    pose proof (slot_floor_bounds m Hslot (sp_start sp - d)).
    assert (Hin : slot_floor (sp_start sp - d) m ∈ cands).
    { apply elem_of_nearest_candidates. do 4 right. exists sp.
      split; [by apply elem_of_sort_by|]. split; [done|lia]. }
    specialize (Hgap _ Hin ltac:(lia)). lia.
  - intros b Hb Hlt. specialize (Hbo b Hb). lia.
Qed.
End Nearest.

(** The values [find_nearest_slot] computes from the reading of the clock. *)
Definition nearest_target (c : config) (target_start now : datetime) : datetime :=
  Z.max (slot_floor now (slot_minutes c)) (slot_ceil target_start (slot_minutes c)).

(** Of the boundaries around the target a candidate is the nearest that fits. *)
Lemma nearest_candidate l c count ts d mode preferred expected caps units ex now :
  let lo := slot_floor now (slot_minutes c) in
  let target := nearest_target c ts now in
  let hi := search_until_of c target now in
  let index := from_ledger l lo in
  valid_slot (slot_minutes c) → ledger_ok l → 1 ≤ count → 0 < d → 0 ≤ queue_search_hours c →
  (∀ b, b ∈ booking_blackouts c → bo_start b ≤ lo ∨ target + d ≤ bo_start b) →
  target + d ≤ now + days (booking_horizon_days c) →
  ∀ s, on_slot (slot_minutes c) s → lo ≤ s ≤ hi →
    feasible (live_spans l lo) c now count d mode preferred ex expected caps units s →
    ∃ c0, c0 ∈ nearest_candidates index c lo target hi d ∧ Z.abs (c0 - target) ≤ Z.abs (s - target) ∧
      fits index c mode expected caps units count now d preferred ex c0.
Proof.
  cbv zeta. intros Hslot Hl Hc Hd Hq Hbo Hhor s Hon Hrange Hs.
  set (lo := slot_floor now (slot_minutes c)) in *. set (target := nearest_target c ts now) in *.
  set (hi := search_until_of c target now) in *.
  pose proof (live_spans_ok l lo Hl) as Hok.
  pose proof (λ sp, live_spans_nonempty l lo sp Hl) as Hne.
  assert (Hlo : on_slot (slot_minutes c) lo) by by apply slot_floor_on.
  assert (Ht : lo ≤ target ≤ hi).
  { assert (lo ≤ target) by apply Z.le_max_l. assert (0 ≤ hours (queue_search_hours c)).
    { unfold hours, seconds, usec. lia. }
    unfold hi, search_until_of. clearbody target lo. lia. }
  destruct (Z.le_ge_cases target s).
  - destruct (nearest_candidate_left c mode expected caps units count d preferred ex Hslot Hd
      (live_spans l lo) now lo target hi Ht s Hs Hon) as (c0 & ? & ? & ?); [lia|].
    exists c0. split; [done|]. split; [lia|by apply fits_feasible].
  - destruct (nearest_candidate_right c mode expected caps units count d preferred ex Hslot Hd
      (live_spans l lo) now lo target hi Ht s Hbo Hhor Hs Hon) as (c0 & ? & ? & ?); [lia|].
    exists c0. split; [done|]. split; [lia|by apply fits_feasible].
Qed.

(** Under a clock that does not go back, the search around a target always ends,
    with a feasible slot at the least distance from the target when no blackout
    begins before the target slot ends and that slot is within the booking horizon,
    or with the error of a date that does not exist. *)
Theorem find_nearest_slot_optimal l c count ts d mode uid preferred order scores expected caps
    units excluded ex ord w :
  let now := replace_microsecond_0 (w_clock w (w_reads w)) in
  let lo := slot_floor now (slot_minutes c) in
  let target := nearest_target c ts now in
  let spans := live_spans l lo in
  let ok := feasible spans c now count d mode preferred ex expected caps units in
  let window s := on_slot (slot_minutes c) s ∧ lo ≤ s ≤ search_until_of c target now in
  valid_slot (slot_minutes c) → ledger_ok l → monotone_clock w → 1 ≤ count → 0 < d →
  0 ≤ queue_search_hours c →
  (∀ b, b ∈ booking_blackouts c → bo_start b ≤ lo ∨ target + d ≤ bo_start b) →
  target + d ≤ now + days (booking_horizon_days c) →
  validate_ledger_policy l c = Ok tt →
  _normalize_excluded_gpus excluded c = Ok ex → _normalize_gpu_order order c = Ok ord →
  match find_nearest_slot l c count ts d mode uid preferred order scores expected caps
      units excluded w with
  | (Ok (Some (s, gpus)), w') => later w w' ∧
      policy_conflict_at c now s (s + d) = "" ∧
      placed spans c count d mode preferred ex expected caps units s gpus ∧
      ∀ s', window s' → ok s' → Z.abs (s - target) ≤ Z.abs (s' - target)
  | (Ok None, w') => later w w' ∧ ∀ s', window s' → ¬ ok s'
  | (Raise e, w') => later w w' ∧ e = OverflowError "date value out of range" ∧
      let index := from_ledger l lo in
      ¬ dates_exist (nearest_dates index c lo target now d)
          (nearest_candidates index c lo target (search_until_of c target now) d) c d w
  end.
Proof.
  cbv zeta. intros Hslot Hl Hmono Hc Hd Hq Hbo Hhor Hpol Hex Hord.
  unfold find_nearest_slot, utc_now. rewrite Hpol.
  destruct (clock_now_run w) as (now & w1 & Hrun & Hlater & Hnow). rewrite <- Hnow in *.
  destruct (clock_now_reads_from _ _ _ Hmono Hrun) as (Hreads & _ & _).
  unfold mbind at 1, M_bind at 1, lift at 1. unfold mbind at 1, M_bind at 1. rewrite Hrun.
  fold (nearest_target c ts now).
  set (lo := slot_floor now (slot_minutes c)) in *. set (target := nearest_target c ts now) in *.
  set (hi := search_until_of c target now). set (index := from_ledger l lo).
  set (cands := nearest_candidates index c lo target hi d).
  pose proof (live_spans_ok l lo Hl) as Hok.
  pose proof (λ sp, live_spans_nonempty l lo sp Hl) as Hne.
  assert (Hcand : ∀ s, on_slot (slot_minutes c) s → lo ≤ s ≤ hi →
    feasible (live_spans l lo) c now count d mode preferred ex expected caps units s →
    ∃ c0, c0 ∈ cands ∧ Z.abs (c0 - target) ≤ Z.abs (s - target) ∧
      fits index c mode expected caps units count now d preferred ex c0).
  { apply nearest_candidate; done. }
  pose proof (search_loop index c mode expected caps units count now d preferred order scores excluded ex ord
    (nearest_dates index c lo target now d) cands w w1 Hnow Hlater Hreads Hc Hex Hord) as Hres.
  unfold dated in Hres. match type of Hres with match ?run with _ => _ end => destruct run as [[[[s gpus]|]|e] w'] end.
  - destruct Hres as (Hl' & (pre & post & Hcands & Hf & Hpre) & Hg). split; [by etrans|].
    split; [by destruct Hf|]. split; [by apply gpus_ok_placed|].
    intros s' [Hon Hw] Hs'. destruct (Hcand s' Hon Hw Hs') as (c0 & Hc0 & Hle & Hok0).
    pose proof (nearest_sorted index c lo target hi d) as Hsorted. fold cands in Hsorted.
    rewrite Hcands in Hsorted, Hc0. apply (sorted_first _ _ _ _ _ Hsorted) in Hc0; [|naive_solver].
    destruct Hc0 as [->|?]; lia.
  - destruct Hres as (Hl' & Hres). split; [by etrans|].
    intros s' [Hon Hw] Hs'. destruct (Hcand s' Hon Hw Hs') as (c0 & Hc0 & Hle & Hok0).
    by apply (Hres c0 Hc0).
  - destruct Hres as (Hl' & ? & ?). split_and!; [by etrans|done..].
Qed.

(** ** Examples *)

(** Noon of a day, the clock standing still there. *)
Definition noon : datetime := days 20000 + hours 12.

Definition example_world : world := World (λ _, noon) (λ n, "id" +:+ pretty n) 0 0.

(** Both GPUs held for the next hour. *)
Definition busy_reservation : reservation :=
  Reservation "busy" None 1001 (Some "ann") [0; 1] MODE_EXCLUSIVE noon (noon + hours 1)
    STATUS_ACTIVE None None None None None None (Some []) None (Some []).

Definition busy_ledger : ledger := Ledger [busy_reservation] None [] None.

Lemma busy_ledger_ok : ledger_ok busy_ledger.
Proof.
  constructor; [decide_now|]. intros r ->%list_elem_of_singleton.
  constructor; try decide_now; done.
Qed.

Lemma example_world_monotone : monotone_clock example_world.
Proof. intros i j _. reflexivity. Qed.

Lemma find_earliest_slot_witness :
  ∃ w', find_earliest_slot busy_ledger example_config 1 noon (minutes 30) MODE_SHARED 1000 None
      true None None None None 1 None example_world = (Ok (Some (noon + hours 1, [0])), w') ∧
    ∀ s', on_slot 15 s' ∧ noon ≤ s' ≤ noon + hours 168 →
      feasible (live_spans busy_ledger noon) example_config noon 1 (minutes 30) MODE_SHARED None []
        None None 1 s' → noon + hours 1 ≤ s'.
Proof.
  pose proof (find_earliest_slot_optimal busy_ledger example_config 1 noon (minutes 30) MODE_SHARED
    1000 None None None None None 1 None [] [0; 1] example_world ltac:(decide_now) busy_ledger_ok
    example_world_monotone ltac:(done) ltac:(done) ltac:(vm_compute; reflexivity)
    ltac:(vm_compute; reflexivity) ltac:(vm_compute; reflexivity)) as H.
  assert (Hrun : (find_earliest_slot busy_ledger example_config 1 noon (minutes 30) MODE_SHARED 1000 None
      true None None None None 1 None example_world).1 = Ok (Some (noon + hours 1, [0])))
    by (vm_compute; reflexivity).
  destruct (find_earliest_slot _ _ _ _ _ _ _ _ _ _ _ _ _ _ _ _) as [r w']. cbn [fst] in Hrun. subst r.
  exists w'. split; [reflexivity|]. destruct H as (_ & _ & _ & Hr). intros s' [? ?]. apply Hr. split; [done|].
  replace (search_until_of _ _ _) with (noon + hours 168) by (vm_compute; reflexivity).
  replace (search_start_of _ _ _ _) with noon by (vm_compute; reflexivity). done.
Defined.

(** An hour of maintenance from three hours after noon. *)
Definition blackout_config : config :=
  Config 2 2 168 30 720 [Blackout (noon + hours 3) (noon + hours 4) "maintenance"] 90 false 512
    384 448 15 None [] [] 10 64.

(** The search around a target overlooks the boundary right before a
    blackout: with an empty ledger and the target at the start of a one-hour
    blackout, it answers one hour after the target although a slot half an hour
    before it is feasible. *)
Theorem nearest_overlooks_blackout_start :
  ∃ w', find_nearest_slot empty_ledger blackout_config 1 (noon + hours 3) (minutes 30) MODE_SHARED
      1000 None None None None None 1 None example_world = (Ok (Some (noon + hours 4, [0])), w') ∧
    feasible (live_spans empty_ledger noon) blackout_config noon 1 (minutes 30) MODE_SHARED None []
      None None 1 (noon + hours 3 - minutes 30) ∧
    nearest_target blackout_config (noon + hours 3) noon = noon + hours 3 ∧
    Z.abs (noon + hours 3 - minutes 30 - (noon + hours 3)) < Z.abs (noon + hours 4 - (noon + hours 3)).
Proof.
  eexists. split; [vm_compute; reflexivity|]. split; [|split; decide_now].
  split; [vm_compute; reflexivity|]. exists [0]. split; [done|]. split.
  - intros g ->%list_elem_of_singleton. do 2 (split; [by intros ?%not_elem_of_nil|]).
    split; [right; done|]. intros t _ _. split; [by intros sp ?%not_elem_of_nil|]. done.
  - split; [decide_now|]. intros g ->%list_elem_of_singleton. in_list.
Qed.
