(* ===== verification/Requests.v ===== *)
(** * Requests: normalisation, signatures and metadata ([src/src/bk/scheduler.py])

    What the write operations check before they look at the ledger: operation
    ids, memory budgets, shares, job metadata, starts and durations; the
    signatures that make a retried write recognisable; and the metadata test
    that compares a stored reservation with a request. *)

From S2P Require Import Prelude PyBase Granularity Timeparse Models Sharing Config Sha256.

(** ** Scalars *)

Definition in_range (lo hi : N) (c : ascii) : bool := ((lo <=? code c) && (code c <=? hi))%N.

(** [[A-Za-z0-9._:-]] *)
Definition op_id_char (c : ascii) : bool :=
  in_range 65 90 c || in_range 97 122 c || is_digit c
  || bool_decide (c = "."%char) || bool_decide (c = "_"%char)
  || bool_decide (c = ":"%char) || bool_decide (c = "-"%char).

Definition _normalize_operation_id (value : option string) : res (option string) :=
  match value with
  | None => Ok None
  | Some v =>
      let normalized := strip v in
      if (slen normalized =? 0) || (128 <? slen normalized)
      then Raise (BookingError "operation ID must contain 1-128 characters")
      else if negb (forallb op_id_char (chars normalized))
      then Raise (BookingError "operation ID contains unsupported characters")
      else Ok (Some normalized)
  end.

Definition _normalize_expected_memory (value : option Z) : res (option Z) :=
  match value with
  | None => Ok None
  | Some parsed =>
      if parsed <=? 0 then Raise (BookingError "expected GPU memory must be positive")
      else Ok (Some parsed)
  end.

Definition json_of_option (v : option Z) : json := match v with Some z => JInt z | None => JNull end.

Definition _request_share_units (mode : string) (value : option Z) (capacity_units : Z) : res Z :=
  if bool_decide (mode = MODE_EXCLUSIVE) then
    match value with
    | Some _ => Raise (BookingError "shared slots apply only to shared reservations")
    | None => Ok capacity_units
    end
  else value_error_as_booking (normalize_share_units (json_of_option value) capacity_units).

Definition _normalize_start (value : datetime) (allow_queue : bool) (now : datetime)
    (slot_minutes : Z) : res datetime :=
  let start := replace_microsecond_0 value in
  if allow_queue then date_in_range (normalize_queue_start start now slot_minutes)
  else
    aligned ← is_slot_aligned start slot_minutes;
    if negb aligned then
      phrase ← slot_phrase slot_minutes;
      Raise (BookingError ("start time must align to a " +:+ phrase +:+ " boundary"))
    else Ok start.

(** Python's [%] has the sign of the divisor, as [Z.modulo]. *)
Definition _validate_duration_granularity (duration_seconds slot_minutes : Z) : res unit :=
  if negb (duration_seconds mod (slot_minutes * 60) =? 0)
  then Raise (BookingError ("duration must be a multiple of " +:+ str_of_Z slot_minutes
                            +:+ " minutes"))
  else Ok tt.

(** ** Job metadata *)

Definition hex_value (c : ascii) : option Z :=
  if is_digit c then Some (digit_value c)
  else if in_range 97 102 c then Some (Z.of_N (code c) - 87)
  else if in_range 65 70 c then Some (Z.of_N (code c) - 55)
  else None.

(** Digits of [int(s, 16)]: single underscores may separate them. *)
Fixpoint hex_digits (acc : Z) (after_digit : bool) (l : list ascii) : option Z :=
  match l with
  | [] => if after_digit then Some acc else None
  | c :: l' =>
      if bool_decide (c = "_"%char) then
        if after_digit then
          match l' with
          | c' :: _ => if bool_decide (c' = "_"%char) then None else hex_digits acc false l'
          | [] => None
          end
        else None
      else v ← hex_value c; hex_digits (16 * acc + v) true l'
  end.

(** An optional [0x] prefix, after which an underscore is allowed. *)
Definition hex_prefixed (l : list ascii) : option Z :=
  match l with
  | "0"%char :: x :: rest =>
      if bool_decide (x = "x"%char) || bool_decide (x = "X"%char) then
        match rest with
        | "_"%char :: rest' => hex_digits 0 false rest'
        | _ => hex_digits 0 false rest
        end
      else hex_digits 0 false l
  | _ => hex_digits 0 false l
  end.

Definition int16 (s : string) : option Z :=
  match chars (strip s) with
  | "-"%char :: l => Z.opp <$> hex_prefixed l
  | "+"%char :: l => hex_prefixed l
  | l => hex_prefixed l
  end.

(** [s.replace(old, "")] for a non-empty [old]; the fuel is the length. *)
Fixpoint remove_all (fuel : nat) (old l : list ascii) : list ascii :=
  match fuel, l with
  | O, _ | _, [] => l
  | S fuel', c :: l' =>
      if bool_decide (take (length old) l = old) then remove_all fuel' old (drop (length old) l)
      else c :: remove_all fuel' old l'
  end.

Definition remove_text (old : string) (l : list ascii) : list ascii :=
  remove_all (length l) (chars old) l.

Definition is_brace (c : ascii) : bool := bool_decide (c = "{"%char) || bool_decide (c = "}"%char).

Definition strip_braces (l : list ascii) : list ascii :=
  rev (drop_while is_brace (rev (drop_while is_brace l))).

Definition hex_nibbles (n : Z) : list ascii :=
  map (λ i, hex_digit (Z.land (Z.shiftr n (4 * i)) 15)) (reverse (seqZ 0 32)).

(** [str(uuid.UUID(s))], [None] when it raises [ValueError]. *)
Definition uuid_text (s : string) : option string :=
  let l := remove_text "-" (strip_braces (remove_text "uuid:" (remove_text "urn:" (chars s)))) in
  if negb (Z.of_nat (length l) =? 32) then None else
  n ← int16 (text l);
  if (n <? 0) || (2 ^ 128 <=? n) then None else
  let h := hex_nibbles n in
  Some (join "-" [text (take 8 h); text (take 4 (drop 8 h)); text (take 4 (drop 12 h));
                  text (take 4 (drop 16 h)); text (drop 20 h)]).

(** [[0-9a-f]{64}] *)
Definition is_digest (s : string) : bool :=
  (slen s =? 64) && forallb (λ c, is_digit c || in_range 97 102 c) (chars s).

(** The digest and the summary of a job; [jm_spec_id] is [None] in an intent. *)
Record job_metadata := JobMetadata {
  jm_spec_id : option string;
  jm_digest : string;
  jm_summary : string;
}.

Definition _normalize_job_intent (digest summary : option string) : res (option job_metadata) :=
  match digest, summary with
  | None, None => Ok None
  | Some digest, Some summary =>
      let normalized_digest := lower digest in
      if negb (is_digest normalized_digest)
      then Raise (BookingError "invalid job spec digest")
      else
        let normalized_summary := strip summary in
        if (slen normalized_summary =? 0) || (200 <? slen normalized_summary)
        then Raise (BookingError "job summary must contain 1-200 characters")
        else if existsb is_control (chars normalized_summary)
        then Raise (BookingError "job summary contains control characters")
        else Ok (Some (JobMetadata None normalized_digest normalized_summary))
  | _, _ => Raise (BookingError "job digest and summary must be provided together")
  end.

Definition _normalize_job_metadata (spec_id digest summary : option string)
    : res (option job_metadata) :=
  match spec_id, digest, summary with
  | None, None, None => Ok None
  | Some spec_id, Some _, Some _ =>
      match uuid_text spec_id with
      | None => Raise (BookingError "invalid job spec ID")
      | Some normalized_spec_id =>
          intent ← _normalize_job_intent digest summary;
          Ok (option_map (λ j, JobMetadata (Some normalized_spec_id) (jm_digest j) (jm_summary j))
                intent)
      end
  | _, _, _ => Raise (BookingError "job spec ID, digest, and summary must be provided together")
  end.

Fixpoint digest_aliases_loop (normalized : list string) (values : list string)
    : res (list string) :=
  match values with
  | [] => Ok normalized
  | value :: rest =>
      let digest := lower value in
      if negb (is_digest digest) then Raise (BookingError "invalid legacy job spec digest")
      else digest_aliases_loop
             (if bool_decide (digest ∈ normalized) then normalized else normalized ++ [digest]) rest
  end.

Definition _normalize_job_digest_aliases (values : list string) : res (list string) :=
  if 4 <? Z.of_nat (length values)
  then Raise (BookingError "legacy job spec digest aliases must contain at most 4 values")
  else digest_aliases_loop [] values.

(** ** Operation signatures *)

(** The values that occur in a signed payload. *)
Inductive payload_value :=
  | PNull
  | PBool (b : bool)
  | PInt (z : Z)
  | PStr (s : string)
  | PInts (l : list Z).

Definition p_int (v : option Z) : payload_value := match v with Some z => PInt z | None => PNull end.
Definition p_str (v : option string) : payload_value :=
  match v with Some s => PStr s | None => PNull end.
Definition p_ints (v : option (list Z)) : payload_value :=
  match v with Some l => PInts l | None => PNull end.

(** One character of [json.dumps(ensure_ascii=True)]; code points are below 256. *)
Definition json_char (c : ascii) : string :=
  let n := code c in
  if (n =? 34)%N then text ["\"%char; c]
  else if (n =? 92)%N then text ["\"%char; c]
  else if (n =? 8)%N then "\b"
  else if (n =? 9)%N then "\t"
  else if (n =? 10)%N then "\n"
  else if (n =? 12)%N then "\f"
  else if (n =? 13)%N then "\r"
  else if ((n <? 32) || (126 <? n))%N then
    "\u00" +:+ text (hex_byte (Z.of_N n))
  else text [c].

Definition quote_char : string := text [ascii_of_N 34].

Definition json_text (s : string) : string :=
  quote_char +:+ join "" (map json_char (chars s)) +:+ quote_char.

Definition json_value (v : payload_value) : string :=
  match v with
  | PNull => "null"
  | PBool b => if b then "true" else "false"
  | PInt z => str_of_Z z
  | PStr s => json_text s
  | PInts l => "[" +:+ join "," (map str_of_Z l) +:+ "]"
  end.

Definition key_leb (a b : string * payload_value) : bool := String.leb a.1 b.1.

(** [json.dumps(..., ensure_ascii=True, sort_keys=True, separators=(",", ":"))]
    of an object with distinct keys. *)
Definition json_dumps (fields : list (string * payload_value)) : string :=
  "{" +:+ join "," (map (λ '(k, v), json_text k +:+ ":" +:+ json_value v) (sort_by key_leb fields))
      +:+ "}".

Definition _operation_signature (kind : string) (payload : list (string * payload_value)) : string :=
  sha256_hexdigest (json_dumps (("kind", PStr kind) :: payload)).

Definition _create_operation_signature (request : booking_request) (start : datetime)
    (preferred_gpus : option (list Z)) (expected_memory_mb : option Z)
    (job_metadata : option job_metadata) (share_units : Z) (excluded_gpus : list Z) : string :=
  _operation_signature "create"
    [("count", PInt (b_count request));
     ("duration_seconds", PInt (b_duration_seconds request));
     ("start_at", if b_allow_queue request then PNull else PStr (to_iso start));
     ("mode", PStr (b_mode request));
     ("preferred_gpus", p_ints preferred_gpus);
     ("allow_queue", PBool (b_allow_queue request));
     ("expected_memory_mb", p_int expected_memory_mb);
     ("share_units", if bool_decide (b_mode request = MODE_SHARED) then PInt share_units else PNull);
     ("excluded_gpus", PInts excluded_gpus);
     ("job_summary", p_str (jm_summary <$> job_metadata))].

Definition _edit_operation_signature (request : edit_request) : string :=
  _operation_signature "edit"
    [("reservation_id", PStr (e_reservation_id request));
     ("start_at", p_str (to_iso <$> e_start_at request));
     ("duration_seconds", p_int (e_duration_seconds request));
     ("mode", p_str (e_mode request));
     ("preferred_gpus", p_ints (sorted_set <$> e_preferred_gpus request));
     ("count", p_int (e_count request));
     ("allow_queue", PBool (e_allow_queue request));
     ("expected_memory_mb", p_int (e_expected_memory_mb request));
     ("update_expected_memory", PBool (e_update_expected_memory request));
     ("share_units", p_int (e_share_units request));
     ("update_share_units", PBool (e_update_share_units request));
     ("excluded_gpus", PInts (sorted_set (default [] (e_excluded_gpus request))))].

#[global] Arguments _operation_signature : simpl never.
#[global] Arguments _create_operation_signature : simpl never.
#[global] Arguments _edit_operation_signature : simpl never.

(** ** Stored metadata *)

(** [int(reservation.get("share_units", 1))], [None] when it raises. *)
Definition stored_share_units (raw : option json) : option Z :=
  match raw with
  | None => Some 1
  | Some (JInt z) => Some z
  | Some (JBool b) => Some (Z.b2z b)
  | Some (JFloat f) =>
      match f with
      | SpecFloat.S754_zero _ => Some 0
      | SpecFloat.S754_finite s m e =>
          let n := Zpos m * 2 ^ Z.max e 0 / 2 ^ Z.max (- e) 0 in
          Some (if s then - n else n)
      | _ => None
      end
  | Some (JStr s) => py_int s
  | Some _ => None
  end.

(** [job.get(key)] as text, when it is text. *)
Definition job_text (j : job) (key : string) : option string :=
  match j !! key with Some (JStr s) => Some s | _ => None end.

Definition _same_request_metadata (r : reservation) (expected_memory_mb : option Z)
    (job_metadata : option job_metadata) (share_units : Z) (job_digest_aliases : list string)
    : bool :=
  if negb (bool_decide (r_expected_memory_mb r = expected_memory_mb)) then false else
  if bool_decide (r_mode r = MODE_SHARED)
     && negb (bool_decide (stored_share_units (r_share_units r) = Some share_units))
  then false else
  match job_metadata, r_job r with
  | None, None => true
  | None, Some _ => false
  | Some _, None => false
  | Some jm, Some j =>
      match job_text j "digest" with
      | Some digest => bool_decide (digest ∈ jm_digest jm :: job_digest_aliases)
      | None => false
      end
  end.

(** ** Applied operations *)

Inductive applied_kind := Created | Cancelled | Edited.

#[export] Instance applied_kind_eq_dec : EqDecision applied_kind.
Proof. solve_decision. Defined.

(** The applied operation of one reservation with the given id, if any. *)
Definition applied_in (operation_id : string) (r : reservation)
    : res (option (applied_kind * option string)) :=
  if bool_decide (r_op_id r = Some operation_id) then
    Ok (Some (Created, r_operation_signature r))
  else
    match r_cancel_operation r with
    | Some co =>
        if bool_decide (co_op_id co = operation_id)
        then Ok (Some (Cancelled, Some (co_signature co)))
        else Ok None
    | None => Ok None
    end ≫= λ found,
    match found with
    | Some f => Ok (Some f)
    | None =>
        match r_edit_operations r with
        | None => Raise (BookingError "invalid edit operation history")
        | Some history =>
            if MAX_EDIT_OPERATIONS_PER_RESERVATION <? Z.of_nat (length history)
            then Raise (BookingError "edit operation history exceeds the safety limit")
            else
              match filter (λ item, eo_op_id item = operation_id) history with
              | item :: _ => Ok (Some (Edited, Some (eo_signature item)))
              | [] => Ok None
              end
        end
    end.

Fixpoint find_applied (rs : list reservation) (uid : Z) (operation_id : string)
    : res (option (applied_kind * reservation * option string)) :=
  match rs with
  | [] => Ok None
  | r :: rest =>
      if negb (r_uid r =? uid) then find_applied rest uid operation_id
      else
        found ← applied_in operation_id r;
        match found with
        | Some (kind, signature) => Ok (Some (kind, r, signature))
        | None => find_applied rest uid operation_id
        end
  end.

Definition _find_applied_operation (l : ledger) (uid : Z) (operation_id : string)
    : res (option (applied_kind * reservation * option string)) :=
  find_applied (l_reservations l) uid operation_id.

Definition _find_reservation (l : ledger) (reservation_id : string) : option reservation :=
  find_first reservation_id (l_reservations l).

(** [_log_item]: the record names the given operation, or the creating one. *)
Definition _log_item (a : actor) (action : string) (r : reservation) (result message : string)
    (operation_id : option string) : M log_item :=
  ts ← utc_now;
  let op := match operation_id with
            | Some o => if bool_decide (o = "") then r_op_id r else Some o
            | None => r_op_id r
            end in
  mret (LogItem ts (a_uid a) (a_username a) action (r_id r) op (r_gpus r) (r_mode r)
          (r_share_units r) (r_start_at r) (r_end_at r) result message None).

(** ** Lemmas: looking up applied operations *)

Lemma find_applied_app rs1 rs2 uid o :
  find_applied rs1 uid o = Ok None → find_applied (rs1 ++ rs2) uid o = find_applied rs2 uid o.
Proof.
  induction rs1 as [|r rs1 IH]; cbn [find_applied app]; [done|].
  case_match; [exact IH|]. rewrite res_bind_Ok. intros ([[]|] & Hf & Hrest); [done|].
  rewrite Hf. by apply IH.
Qed.

(** The lookup only sees the owner, the operation ids and the signatures. *)
Lemma find_applied_map (f : reservation → reservation) (P : reservation → Prop)
    `{!∀ r, Decision (P r)} rs uid o :
  (∀ r, r_uid (f r) = r_uid r) → (∀ r, applied_in o (f r) = applied_in o r) →
  find_applied rs uid o = Ok None → find_applied (filter P (f <$> rs)) uid o = Ok None.
Proof.
  intros Hu Ha. induction rs as [|r rs IH]; [done|]. cbn [find_applied]. csimpl.
  destruct (r_uid r =? uid) eqn:E; simpl.
  - rewrite res_bind_Ok. intros ([[]|] & Hf & Hrest); [done|]. rewrite filter_cons.
    case_decide; [|by apply IH]. cbn [find_applied]. rewrite Hu, E, Ha, Hf. by apply IH.
  - intros Hnone. rewrite filter_cons. case_decide; [|by apply IH]. cbn [find_applied].
    rewrite Hu, E. by apply IH.
Qed.

Lemma find_applied_Some rs uid o kind r s :
  find_applied rs uid o = Ok (Some (kind, r, s)) →
  r ∈ rs ∧ r_uid r = uid ∧ applied_in o r = Ok (Some (kind, s)).
Proof.
  induction rs as [|x rs IH]; cbn [find_applied]; [done|].
  destruct (Z.eqb_spec (r_uid x) uid) as [Hu|]; simpl.
  2:{ intros H. destruct (IH H) as (?&?&?). split; [by right|done]. }
  rewrite res_bind_Ok. intros ([[kind' s']|] & Ha & H).
  - simplify_eq. split; [left|done].
  - destruct (IH H) as (?&?&?). split; [by right|done].
Qed.

Lemma forward_log_item a act r s m o : forward (_log_item a act r s m o).
Proof. apply forward_bind; [apply forward_clock|]. intros. apply forward_ret. Qed.

#[export] Hint Resolve forward_log_item : bk.

Lemma find_applied_map_Some (f : reservation → reservation) (P : reservation → Prop)
    `{!∀ r, Decision (P r)} rs uid o kind r s :
  (∀ r, r_uid (f r) = r_uid r) → (∀ r, applied_in o (f r) = applied_in o r) →
  find_applied rs uid o = Ok (Some (kind, r, s)) → P (f r) →
  find_applied (filter P (f <$> rs)) uid o = Ok (Some (kind, f r, s)).
Proof.
  intros Hu Ha Hfind HP. revert Hfind. induction rs as [|x rs IH]; [done|].
  cbn [find_applied]. csimpl. destruct (r_uid x =? uid) eqn:E; simpl.
  - rewrite res_bind_Ok. intros ([[kind' s']|] & Hf & Hrest).
    + simplify_eq. rewrite filter_cons_True by done. cbn [find_applied]. by rewrite Hu, E, Ha, Hf.
    + rewrite filter_cons. case_decide; [|by apply IH]. cbn [find_applied].
      rewrite Hu, E, Ha, Hf. by apply IH.
  - intros Hrest. rewrite filter_cons. case_decide; [|by apply IH]. cbn [find_applied].
    rewrite Hu, E. by apply IH.
Qed.

(** An operation recorded in the replaced reservation is found there. *)
Lemma find_applied_update id f rs uid o kind r s :
  find_applied rs uid o = Ok None → find_first id rs = Some r → r_uid r = uid →
  r_uid (f r) = r_uid r → applied_in o (f r) = Ok (Some (kind, s)) →
  find_applied (update_first id f rs) uid o = Ok (Some (kind, f r, s)).
Proof.
  intros Hnone Hf Hu Hu' Ha. revert Hnone Hf. induction rs as [|x rs IH]; [done|].
  cbn [find_applied find_first update_first]. case_bool_decide as Hid.
  - intros _ [= ->]. cbn [find_applied]. rewrite Hu', Hu, Z.eqb_refl. simpl. by rewrite Ha.
  - destruct (r_uid x =? uid) eqn:E; simpl.
    + rewrite res_bind_Ok. intros ([[]|] & Hx & Hrest) Hf; [done|]. rewrite E. simpl.
      rewrite Hx. by apply IH.
    + intros Hrest Hf. rewrite E. simpl. by apply IH.
Qed.

(** Without a match in the list there is none in any reservation of the user. *)
Lemma find_applied_None rs uid o r :
  find_applied rs uid o = Ok None → r ∈ rs → r_uid r = uid → applied_in o r = Ok None.
Proof.
  induction rs as [|x rs IH]; cbn [find_applied]; [by intros _ ?%not_elem_of_nil|].
  intros Hfind [->|Hr]%elem_of_cons Hu.
  - rewrite Hu, Z.eqb_refl in Hfind. simpl in Hfind.
    by apply res_bind_Ok in Hfind as ([[]|] & Hx & Hrest).
  - destruct (r_uid x =? uid); simpl in *; [|by apply IH].
    apply res_bind_Ok in Hfind as ([[]|] & Hx & Hrest); [done|]. by apply IH.
Qed.
