(* ===== verification/Maintenance.v ===== *)
(** * Maintenance: expiry, retention and listings ([src/src/bk/scheduler.py])

    Every write first expires the reservations that have ended and drops the
    terminal ones past their retention. [maintain_ledger_spec] says what is kept. *)

From S2P Require Import Prelude PyBase Granularity Timeparse Models ScheduleIndex.

(** ** Expiry *)

Definition job_set (kvs : list (string * json)) (j : job) : job :=
  foldr (λ '(k, v) m, <[k := v]> m) j kvs.

(** The job of a reservation that ended without the worker's completion. *)
Definition expire_job (now : datetime) (j : job) : job :=
  if bool_decide (job_status j = Some JOB_PENDING) || bool_decide (job_status j = Some JOB_CLAIMED)
  then job_set [("status", JStr JOB_MISSED); ("finished_at", JStr (to_iso now))] j
  else if bool_decide (job_status j = Some JOB_RUNNING)
  then job_set [("status", JStr JOB_UNCERTAIN); ("finished_at", JStr (to_iso now));
                ("recovery_state", JStr "expired-unverified");
                ("message", JStr
                   "reservation ended without worker completion; process state is uncertain")] j
  else j.

Definition is_expiring (now : datetime) (r : reservation) : bool :=
  bool_decide (r_status r = STATUS_ACTIVE) && (r_end_at r <=? now).

Definition expire_reservation (now : datetime) (r : reservation) : reservation :=
  if is_expiring now r
  then with_job (expire_job now <$> r_job r) (with_updated_at now (with_status STATUS_EXPIRED r))
  else r.

Definition _expire_old_reservations (l : ledger) (now : datetime) : ledger * bool :=
  (set_reservations (expire_reservation now <$> l_reservations l) l,
   existsb (is_expiring now) (l_reservations l)).

(** ** Retention *)

(** The end of an expired reservation, the last update of a cancelled one. *)
Definition terminal_at (r : reservation) : option datetime :=
  if bool_decide (r_status r = STATUS_EXPIRED) then Some (r_end_at r)
  else if bool_decide (r_status r = STATUS_CANCELLED)
  then Some (default (r_end_at r) (r_updated_at r))
  else None.

Definition retained (cutoff : datetime) (r : reservation) : bool :=
  match terminal_at r with
  | Some t => cutoff <? t
  | None => true
  end.

Definition _maintain_ledger (l : ledger) (now : datetime) (retention_days : Z) : ledger * bool :=
  let '(l, changed) := _expire_old_reservations l now in
  if retention_days <=? 0 then (l, changed)
  else
    let cutoff := now - days retention_days in
    let kept := filter (λ r, retained cutoff r = true) (l_reservations l) in
    (set_reservations kept l,
     changed || existsb (λ r, negb (retained cutoff r)) (l_reservations l)).

(** ** Listings *)

Definition list_active (l : ledger) (now : datetime) : list reservation :=
  records (from_ledger l now).

(** The default of [now] is a reading of the clock. *)
Definition list_active_default (l : ledger) (now : option datetime) : M (list reservation) :=
  match now with
  | Some t => mret (list_active l t)
  | None => t ← utc_now; mret (list_active l t)
  end.

(** [(start > current, start, end, id)] *)
Definition block_leb (current : datetime) (a b : reservation) : bool :=
  let fa := current <? r_start_at a in
  let fb := current <? r_start_at b in
  if negb (Bool.eqb fa fb) then negb fa
  else if negb (r_start_at a =? r_start_at b) then r_start_at a <? r_start_at b
  else if negb (r_end_at a =? r_end_at b) then r_end_at a <? r_end_at b
  else String.leb (r_id a) (r_id b).

Definition exclusive_blocks (l : ledger) (uid : Z) (current horizon : datetime)
    : list reservation :=
  sort_by (block_leb current)
    (filter (λ r, r_mode r = MODE_EXCLUSIVE ∧ r_uid r ≠ uid ∧ r_start_at r ≤ horizon)
       (list_active l current)).

Definition exclusive_blocks_for_uid (l : ledger) (uid : Z) (now until : option datetime)
    : M (list reservation) :=
  current ← match now with Some t => mret t | None => utc_now end;
  mret (exclusive_blocks l uid current (default current until)).

(** ** Lemmas *)

(** Active and not yet over: the reservations that occupy GPUs from [now] on. *)
Definition live (now : datetime) (r : reservation) : Prop :=
  r_status r = STATUS_ACTIVE ∧ now < r_end_at r.

#[export] Instance live_dec now r : Decision (live now r) := and_dec _ _.

Lemma expire_live now r : live now r → expire_reservation now r = r.
Proof.
  intros [Hs He]. unfold expire_reservation, is_expiring.
  rewrite bool_decide_eq_true_2 by done. destruct (Z.leb_spec (r_end_at r) now); [lia|done].
Qed.

Lemma live_expire now r : live now (expire_reservation now r) ↔ live now r.
Proof.
  split; [|intros H; by rewrite expire_live]. unfold expire_reservation.
  destruct (is_expiring now r); [|done]. by intros [? _].
Qed.

Lemma filter_live_expire now (rs : list reservation) :
  filter (live now) (expire_reservation now <$> rs) = filter (live now) rs.
Proof.
  induction rs as [|r rs IH]; [done|]. csimpl. rewrite !filter_cons.
  destruct (decide (live now r)) as [Hl|Hn].
  - rewrite decide_True by by apply live_expire. by rewrite IH, expire_live.
  - rewrite decide_False by by rewrite live_expire. done.
Qed.

Lemma expire_id now r : r_id (expire_reservation now r) = r_id r.
Proof. unfold expire_reservation. by destruct (is_expiring now r). Qed.

Lemma expire_uid now r : r_uid (expire_reservation now r) = r_uid r.
Proof. unfold expire_reservation. by destruct (is_expiring now r). Qed.

Lemma expire_ids now (rs : list reservation) : r_id <$> (expire_reservation now <$> rs) = r_id <$> rs.
Proof. rewrite <- list_fmap_compose. apply list_fmap_ext. intros; apply expire_id. Qed.

(** Nothing expires twice. *)
Lemma is_expiring_expire now r : is_expiring now (expire_reservation now r) = false.
Proof.
  unfold expire_reservation. destruct (is_expiring now r) eqn:E; [|done].
  unfold is_expiring. simpl. done.
Qed.

Lemma expire_idemp now r : expire_reservation now (expire_reservation now r) = expire_reservation now r.
Proof. unfold expire_reservation at 1. by rewrite is_expiring_expire. Qed.

Lemma existsb_false {A} (f : A → bool) l : existsb f l = false ↔ ∀ a, a ∈ l → f a = false.
Proof.
  rewrite <- not_true_iff_false, existsb_exists. setoid_rewrite <- list_elem_of_In.
  setoid_rewrite <- not_true_iff_false. naive_solver.
Qed.

Lemma live_retained now cutoff r : live now r → retained cutoff r = true.
Proof.
  intros [Hs _]. unfold retained, terminal_at. rewrite Hs.
  by rewrite !bool_decide_eq_false_2.
Qed.

(** An active reservation stays through its retention after its end. *)
Lemma retained_expire now days_ r :
  r_status r = STATUS_ACTIVE → days_ ≤ 0 ∨ now - days days_ < r_end_at r →
  days_ ≤ 0 ∨ retained (now - days days_) (expire_reservation now r) = true.
Proof.
  intros Hs [?|Hret]; [by left|right].
  unfold expire_reservation. destruct (is_expiring now r) eqn:Ex.
  - unfold retained, terminal_at. simpl. by apply Z.ltb_lt.
  - apply (live_retained now). split; [done|]. unfold is_expiring in Ex.
    rewrite bool_decide_eq_true_2 in Ex by done. simpl in Ex. by apply Z.leb_gt in Ex.
Qed.

Lemma set_reservations_same l : set_reservations (l_reservations l) l = l.
Proof. by destruct l. Qed.

Lemma maintain_reservations l now days_ :
  l_reservations (_maintain_ledger l now days_).1 =
  filter (λ r, days_ ≤ 0 ∨ retained (now - days days_) r = true)
    (expire_reservation now <$> l_reservations l).
Proof.
  unfold _maintain_ledger, _expire_old_reservations. destruct (Z.leb_spec days_ 0); simpl.
  - symmetry. apply list_filter_all, Forall_forall. by left.
  - apply filter_ext_in. intros r _. split; [by right|]. intros [?|?]; [lia|done].
Qed.

Lemma maintain_frame l now days_ :
  let l' := (_maintain_ledger l now days_).1 in
  l_policy l' = l_policy l ∧ l_announcements l' = l_announcements l ∧
  l_last_transaction_id l' = l_last_transaction_id l.
Proof. unfold _maintain_ledger, _expire_old_reservations. by case_match. Qed.

Lemma maintain_live l now days_ :
  filter (live now) (l_reservations (_maintain_ledger l now days_).1)
  = filter (live now) (l_reservations l).
Proof.
  rewrite maintain_reservations, <- (filter_live_expire now (l_reservations l)), filter_filter_and.
  apply filter_ext_in. intros r _. split; [tauto|]. intros Hl.
  split; [done|]. right. by eapply live_retained.
Qed.

Lemma maintain_active l now days_ r :
  r ∈ l_reservations (_maintain_ledger l now days_).1 → r_status r = STATUS_ACTIVE →
  live now r ∧ r ∈ l_reservations l.
Proof.
  rewrite maintain_reservations. intros [_ Hr]%list_elem_of_filter Hs.
  apply list_elem_of_fmap in Hr as (r0 & -> & Hr0).
  assert (Hl : live now (expire_reservation now r0)).
  { split; [done|]. revert Hs. unfold expire_reservation.
    destruct (is_expiring now r0) eqn:E; [done|]. intros Hs. unfold is_expiring in E.
    rewrite bool_decide_eq_true_2 in E by done. simpl in E. by apply Z.leb_gt in E. }
  split; [done|]. rewrite live_expire in Hl. by rewrite expire_live.
Qed.

Lemma maintain_unchanged l now days_ :
  (_maintain_ledger l now days_).2 = false → (_maintain_ledger l now days_).1 = l.
Proof.
  intros E. assert (Hsame : l_reservations (_maintain_ledger l now days_).1 = l_reservations l).
  2:{ destruct (maintain_frame l now days_) as (Hp & Ha & Ht).
      destruct ((_maintain_ledger l now days_).1) as [rs p a t], l as [rs' p' a' t'].
      simpl in *. by subst. }
  rewrite maintain_reservations. revert E.
  unfold _maintain_ledger, _expire_old_reservations.
  assert (Hexp : existsb (is_expiring now) (l_reservations l) = false →
    expire_reservation now <$> l_reservations l = l_reservations l).
  { rewrite existsb_false. intros H. rewrite <- (list_fmap_id (l_reservations l)) at 2.
    apply list_fmap_ext. intros i r Hr. unfold expire_reservation.
    rewrite H; [done|by eapply list_elem_of_lookup_2]. }
  destruct (Z.leb_spec days_ 0); simpl.
  - intros E. rewrite Hexp by done. apply list_filter_all, Forall_forall. by left.
  - intros [E1 E2]%orb_false_iff. rewrite Hexp in * by done.
    rewrite existsb_false in E2. apply list_filter_all, Forall_forall. intros r Hr.
    right. by apply negb_false_iff, E2.
Qed.

(** C37: maintenance expires exactly the active reservations that have ended,
    keeps every live one unchanged and in its place, drops a terminal
    reservation only when it is older than the retention, and reports a change
    exactly when it made one; running it again at the same time does nothing. *)
Theorem maintain_ledger_spec l now retention_days :
  let l' := (_maintain_ledger l now retention_days).1 in
  filter (live now) (l_reservations l') = filter (live now) (l_reservations l) ∧
  (∀ r, r ∈ l_reservations l' → r_status r = STATUS_ACTIVE → live now r) ∧
  (∀ r, r ∈ l_reservations l' ↔
     ∃ r0, r0 ∈ l_reservations l ∧ r = expire_reservation now r0 ∧
       (retention_days ≤ 0 ∨ ∀ t, terminal_at r = Some t → now - days retention_days < t)) ∧
  ((_maintain_ledger l now retention_days).2 = false → l' = l) ∧
  _maintain_ledger l' now retention_days = (l', false).
Proof.
  cbv zeta. split; [apply maintain_live|]. split.
  { intros r Hr Hs. by apply (maintain_active l now retention_days). }
  split.
  { intros r. rewrite maintain_reservations, list_elem_of_filter, list_elem_of_fmap.
    assert (Hret : retained (now - days retention_days) r = true ↔
      ∀ t, terminal_at r = Some t → now - days retention_days < t).
    { unfold retained. destruct (terminal_at r) as [t|]; [rewrite Z.ltb_lt|]; naive_solver. }
    rewrite Hret. naive_solver. }
  split; [apply maintain_unchanged|].
  assert (Hexp : existsb (is_expiring now)
    (l_reservations (_maintain_ledger l now retention_days).1) = false).
  { apply existsb_false. intros r. rewrite maintain_reservations.
    intros [_ Hr]%list_elem_of_filter. apply list_elem_of_fmap in Hr as (r0 & -> & _).
    apply is_expiring_expire. }
  assert (Hsnd : (_maintain_ledger (_maintain_ledger l now retention_days).1 now retention_days).2
    = false).
  { unfold _maintain_ledger at 1, _expire_old_reservations at 1.
    destruct (Z.leb_spec retention_days 0) as [|Hpos]; [done|]. simpl.
    rewrite Hexp. apply existsb_false. intros r Hr%list_elem_of_fmap.
    destruct Hr as (r0 & -> & Hr0). rewrite maintain_reservations in Hr0.
    apply list_elem_of_filter in Hr0 as [[?|Hret] Hr0]; [lia|].
    apply list_elem_of_fmap in Hr0 as (r1 & -> & _). by rewrite expire_idemp, Hret. }
  apply maintain_unchanged in Hsnd as Hfst.
  destruct (_maintain_ledger (_maintain_ledger _ _ _).1 _ _) as [l2 b]. by simpl in *; subst.
Qed.

(** An expired reservation keeps everything but its status, its update time
    and its job, and its job ends in the state the last known one implies:
    missed when it never started, uncertain when it was running. *)
Theorem expire_reservation_job now r :
  let r' := expire_reservation now r in
  (live now r ∨ r_status r ≠ STATUS_ACTIVE → r' = r) ∧
  (r_status r = STATUS_ACTIVE → r_end_at r ≤ now →
     r_status r' = STATUS_EXPIRED ∧ r_updated_at r' = Some now ∧
     with_job (r_job r) (with_status (r_status r) (with_updated_at now r'))
       = with_updated_at now r ∧
     (r_job r = None → r_job r' = None) ∧
     ∀ j, r_job r = Some j → ∃ j', r_job r' = Some j' ∧
       job_status j' =
         (if decide (job_status j = Some JOB_PENDING ∨ job_status j = Some JOB_CLAIMED)
          then Some JOB_MISSED
          else if decide (job_status j = Some JOB_RUNNING) then Some JOB_UNCERTAIN
          else job_status j)).
Proof.
  cbv zeta. split.
  { intros [Hl|Hs]; [by apply expire_live|]. unfold expire_reservation, is_expiring.
    by rewrite bool_decide_eq_false_2. }
  intros Hs He. unfold expire_reservation, is_expiring.
  rewrite bool_decide_eq_true_2, (proj2 (Z.leb_le _ _) He) by done. simpl.
  do 2 (split; [done|]). split; [by destruct r|]. split; [by intros ->|].
  intros j ->. eexists. split; [reflexivity|]. unfold expire_job, job_set.
  repeat case_bool_decide; repeat case_decide; simpl; try tauto;
    unfold job_status; by simplify_map_eq.
Qed.

(** ** Listings *)

Lemma elem_of_list_active l now r : r ∈ list_active l now ↔ r ∈ l_reservations l ∧ live now r.
Proof.
  unfold list_active, live. rewrite elem_of_records. tauto.
Qed.

(** The blocks shown to a user are exactly the live exclusive reservations
    of other users that begin by the horizon, the ones already running first. *)
Theorem exclusive_blocks_spec l uid current horizon :
  (∀ r, r ∈ exclusive_blocks l uid current horizon ↔
     r ∈ l_reservations l ∧ live current r ∧ r_mode r = MODE_EXCLUSIVE ∧ r_uid r ≠ uid ∧
     r_start_at r ≤ horizon) ∧
  StronglySorted (λ a b, r_start_at a ≤ current ∨ r_start_at a ≤ r_start_at b)
    (exclusive_blocks l uid current horizon).
Proof.
  split.
  - intros r. unfold exclusive_blocks. rewrite elem_of_sort_by, list_elem_of_filter.
    rewrite elem_of_list_active. tauto.
  - apply sort_by_sorted_rel.
    + intros x y. unfold block_leb.
      destruct (Z.ltb_spec current (r_start_at x)), (Z.ltb_spec current (r_start_at y)); simpl;
        try lia; try done.
      destruct (Z.eqb_spec (r_start_at x) (r_start_at y)); simpl; [lia|].
      rewrite Z.ltb_lt. lia.
    + intros x y. unfold block_leb.
      destruct (Z.ltb_spec current (r_start_at x)), (Z.ltb_spec current (r_start_at y)); simpl;
        try lia; try done.
      destruct (Z.eqb_spec (r_start_at x) (r_start_at y)); simpl; [lia|].
      rewrite Z.ltb_ge. lia.
    + lia.
Qed.
