(* ===== verification/Safety.v ===== *)
(** * Safety: what the ledger promises about every GPU at every instant

    The abstract contract of the scheduler. A GPU is held at an instant either
    by one exclusive reservation alone, or by shared reservations whose share
    slots fit the capacity ([slot_safe]); a ledger is safe from an instant on
    when that holds at every later instant ([safe_from]). The lemmas say which
    changes of the set of active reservations keep it. *)

From S2P Require Import Prelude PyBase Granularity Models Sharing Config Policy ScheduleIndex.
From S2P Require Import Availability Placement Search Maintenance.

Definition is_active (r : reservation) : Prop := r_status r = STATUS_ACTIVE.

#[export] Instance is_active_dec r : Decision (is_active r) := decide (r_status r = STATUS_ACTIVE).

Definition spans_of (rs : list reservation) : list span := span_of <$> filter is_active rs.

Definition active_spans (l : ledger) : list span := spans_of (l_reservations l).

(** One exclusive holder alone, or shared holders within the capacity. *)
Definition slot_safe (cap : Z) (spans : list span) (g : Z) (t : datetime) : Prop :=
  (∀ sp, sp ∈ holders spans g t → sp_mode sp = MODE_EXCLUSIVE →
     length (holders spans g t) = 1%nat) ∧
  units_at cap spans g t ≤ cap.

Definition safe_from (T : datetime) (cap : Z) (l : ledger) : Prop :=
  ∀ g t, T ≤ t → slot_safe cap (active_spans l) g t.

(** Every active reservation begins and ends on a slot boundary. *)
Definition on_grid (m : Z) (l : ledger) : Prop :=
  ∀ r, r ∈ l_reservations l → is_active r → on_slot m (r_start_at r) ∧ on_slot m (r_end_at r).

(** [T] is at or after every reading of the clock so far. *)
Definition read_by (T : datetime) (w : world) : Prop :=
  ∀ i, (i < w_reads w)%nat → replace_microsecond_0 (w_clock w i) ≤ T.

(** ** Lemmas *)

Lemma safe_from_later T T' cap l : T ≤ T' → safe_from T cap l → safe_from T' cap l.
Proof. intros HT H g t Ht. apply H. lia. Qed.

Lemma read_by_earlier T w w' : later w w' → read_by T w' → read_by T w.
Proof. intros (Hc & _ & Hr & _) H i Hi. rewrite <- Hc. apply H. lia. Qed.

Lemma read_by_now T w t w' : clock_now w = (Ok t, w') → read_by T w' → t ≤ T.
Proof. intros (-> & ->)%clock_now_Ok H. apply (H (w_reads w)). simpl. lia. Qed.

#[export] Instance spans_of_Permutation : Proper (Permutation ==> Permutation) spans_of.
Proof. intros l1 l2 H. unfold spans_of. by rewrite H. Qed.

#[export] Instance holders_Permutation :
  Proper (Permutation ==> eq ==> eq ==> Permutation) holders.
Proof. intros l1 l2 H g ? <- t ? <-. unfold holders. by rewrite H. Qed.

#[export] Instance units_at_Permutation cap :
  Proper (Permutation ==> eq ==> eq ==> eq) (units_at cap).
Proof.
  intros l1 l2 H g ? <- t ? <-. unfold units_at, shared_holders. apply sumZ_Permutation.
  by rewrite H.
Qed.

#[export] Instance slot_safe_Permutation cap :
  Proper (Permutation ==> eq ==> eq ==> iff) (slot_safe cap).
Proof.
  intros l1 l2 H g ? <- t ? <-. unfold slot_safe. rewrite H. by setoid_rewrite H.
Qed.

Lemma spans_of_app l1 l2 : spans_of (l1 ++ l2) = spans_of l1 ++ spans_of l2.
Proof. unfold spans_of. by rewrite filter_app, fmap_app. Qed.

Lemma holders_app l1 l2 g t : holders (l1 ++ l2) g t = holders l1 g t ++ holders l2 g t.
Proof. unfold holders. apply filter_app. Qed.

Lemma units_at_app cap l1 l2 g t :
  units_at cap (l1 ++ l2) g t = units_at cap l1 g t + units_at cap l2 g t.
Proof. unfold units_at, shared_holders. by rewrite holders_app, filter_app, sumZ_app. Qed.

Lemma units_at_nonneg cap spans g t : 0 ≤ units_at cap spans g t.
Proof. apply sumZ_nonneg. intros sp _. pose proof (span_units_pos cap sp). lia. Qed.

(** Dropping reservations keeps an instant safe. *)
Lemma slot_safe_drop cap spans dropped g t :
  slot_safe cap (spans ++ dropped) g t → slot_safe cap spans g t.
Proof.
  unfold slot_safe. rewrite holders_app, units_at_app. intros [Hx Hu]. split.
  - intros sp Hsp Hm. specialize (Hx sp ltac:(apply elem_of_app; by left) Hm).
    rewrite length_app in Hx. destruct (holders spans g t); [by apply not_elem_of_nil in Hsp|].
    simpl in *. lia.
  - pose proof (units_at_nonneg cap dropped g t). lia.
Qed.

(** Adding one keeps it safe when the instant has room for it. *)
Lemma slot_safe_add cap spans sp g t expected capacity reserve units :
  slot_safe cap spans g t → sp_mode sp = MODE_SHARED ∨ sp_mode sp = MODE_EXCLUSIVE →
  (sp_mode sp = MODE_SHARED → span_units cap sp = units) →
  (g ∈ sp_gpus sp → covers sp t →
     room_at spans g (sp_mode sp) cap expected capacity reserve units t) →
  slot_safe cap (sp :: spans) g t.
Proof.
  intros [Hx Hu] Hmode Hunits Hroom.
  change (sp :: spans) with ([sp] ++ spans). unfold slot_safe.
  rewrite holders_app, units_at_app.
  destruct (decide (g ∈ sp_gpus sp ∧ covers sp t)) as [[Hg Hc]|Hn].
  2:{ assert (holders [sp] g t = []) as E.
      { unfold holders. by rewrite filter_cons_False. }
      assert (units_at cap [sp] g t = 0) as -> by (unfold units_at, shared_holders; by rewrite E).
      rewrite E. simpl. split; [done|lia]. }
  assert (holders [sp] g t = [sp]) as E.
  { unfold holders. by rewrite filter_cons_True. }
  assert (Hs : units_at cap [sp] g t = if decide (sp_mode sp = MODE_SHARED) then units else 0).
  { unfold units_at, shared_holders. rewrite E, filter_cons.
    case_decide; [|done]. simpl. rewrite Hunits by done. lia. }
  rewrite E, Hs. specialize (Hroom Hg Hc). unfold room_at in Hroom.
  destruct Hmode as [Hm|Hm]; rewrite Hm in Hroom; rewrite ?Hm; simpl in Hroom.
  - destruct Hroom as (Hno & Hfit & _). rewrite decide_True by done. split; [|lia].
    intros x Hx' Hxm. apply elem_of_cons in Hx' as [->|Hx']; [by rewrite Hm in Hxm|].
    by destruct (Hno x Hx').
  - rewrite Hroom, decide_False by done. split; [done|]. unfold units_at, shared_holders. rewrite Hroom.
    pose proof (units_at_nonneg cap spans g t). simpl. lia.
Qed.

(** From an instant on, only the reservations that have not ended count. *)
Lemma holders_live l now g t :
  now ≤ t → holders (live_spans l now) g t = holders (active_spans l) g t.
Proof.
  intros Ht. unfold holders, live_spans, active_spans, spans_of.
  rewrite !filter_fmap_list, !filter_filter_and. f_equal. apply filter_ext_in.
  intros r _. rewrite list_elem_of_singleton. unfold is_active, covers. simpl.
  split; intros; destruct_and!; split_and!; (done || lia).
Qed.

Lemma room_at_live l now g mode cap expected capacity reserve units t :
  now ≤ t →
  room_at (live_spans l now) g mode cap expected capacity reserve units t ↔
  room_at (active_spans l) g mode cap expected capacity reserve units t.
Proof.
  intros Ht. unfold room_at, units_at, memory_at, shared_holders. by rewrite holders_live.
Qed.

(** ** Changes of a ledger *)

Lemma safe_from_sub T cap l l' dropped :
  safe_from T cap l → filter is_active (l_reservations l)
    ≡ₚ filter is_active (l_reservations l') ++ dropped → safe_from T cap l'.
Proof.
  intros H Hp g t Ht. specialize (H g t Ht). unfold active_spans, spans_of in *.
  rewrite Hp, fmap_app in H. by eapply slot_safe_drop.
Qed.

(** Maintenance at a time not after [T] does not touch what counts from [T] on. *)
Lemma filter_active_maintain l now days_ :
  filter is_active (l_reservations (_maintain_ledger l now days_).1)
  = filter (live now) (l_reservations l).
Proof.
  rewrite <- (maintain_live l now days_). apply filter_ext_in. intros r Hr.
  split; [|by intros [? _]]. intros Ha. by apply (maintain_active l now days_ r).
Qed.

Lemma safe_from_maintain T cap l now days_ :
  safe_from T cap l → safe_from T cap (_maintain_ledger l now days_).1.
Proof.
  intros H. eapply (safe_from_sub _ _ _ _ (filter (λ r, ¬ live now r)
    (filter is_active (l_reservations l)))); [exact H|].
  rewrite filter_active_maintain.
  assert (Hsplit : ∀ (P : reservation → Prop) `{!∀ r, Decision (P r)} rs,
    rs ≡ₚ filter P rs ++ filter (λ r, ¬ P r) rs).
  { intros P ? rs. induction rs as [|r rs IH]; [done|]. rewrite !filter_cons.
    destruct (decide (P r)); [rewrite decide_False by tauto|rewrite decide_True by tauto].
    - simpl. by constructor.
    - rewrite <- Permutation_middle. by constructor. }
  rewrite (Hsplit (live now) _ (filter is_active (l_reservations l))) at 1. f_equiv.
  rewrite filter_filter_and. rewrite (filter_ext_in _ (live now)); [done|].
  intros r _. unfold live, is_active. tauto.
Qed.

(** A new active reservation placed with room keeps the ledger safe. *)
Lemma safe_from_add T cap l now r rest expected caps reserve units :
  safe_from T cap (set_reservations rest l) → now ≤ T →
  r_mode r = MODE_SHARED ∨ r_mode r = MODE_EXCLUSIVE →
  (r_mode r = MODE_SHARED → reservation_share_units (r_share_units r) cap = units) →
  (∀ g t, g ∈ r_gpus r → T ≤ t → r_start_at r ≤ t → t < r_end_at r →
     room_at (live_spans (set_reservations rest l) now) g (r_mode r) cap expected
       (memory_capacity caps g) reserve units t) →
  ∀ l', l_reservations l' ≡ₚ r :: rest → safe_from T cap l'.
Proof.
  intros Hsafe Hnow Hmode Hunits Hroom l' Hp g t Ht.
  unfold active_spans. rewrite Hp.
  change (r :: rest) with ([r] ++ rest). rewrite spans_of_app.
  specialize (Hsafe g t Ht). unfold active_spans in Hsafe. simpl in Hsafe.
  unfold spans_of at 1. rewrite filter_cons. case_decide as Ha; [|done]. csimpl.
  eapply (slot_safe_add cap _ (span_of r) g t expected (memory_capacity caps g) reserve units);
    [done..|].
  intros Hg [Hs He]. simpl in *. specialize (Hroom g t Hg Ht Hs He).
  by apply room_at_live in Hroom; [|lia].
Qed.

Lemma on_grid_maintain m l now days_ : on_grid m l → on_grid m (_maintain_ledger l now days_).1.
Proof.
  intros H r Hr Ha. destruct (maintain_active l now days_ r Hr Ha) as [_ Hin]. by apply H.
Qed.

(** ** Well-formedness *)

Lemma expire_reservation_ok now r : reservation_ok r → reservation_ok (expire_reservation now r).
Proof.
  intros [? ? ? ? ? ? ? ?]. unfold expire_reservation.
  destruct (is_expiring now r); [|done]. constructor; simpl; auto.
Qed.

Lemma ledger_ok_reservations l l' :
  ledger_ok l → l_reservations l' = l_reservations l → ledger_ok l'.
Proof. intros [Hd Hr] E. constructor; unfold ids; by rewrite E. Qed.

Lemma ledger_ok_maintain l now days_ : ledger_ok l → ledger_ok (_maintain_ledger l now days_).1.
Proof.
  intros [Hd Hr]. constructor.
  - unfold ids in *. rewrite maintain_reservations.
    eapply sublist_NoDup; [|apply fmap_sublist, sublist_filter]. by rewrite expire_ids.
  - intros r. rewrite maintain_reservations. intros [_ Hin]%list_elem_of_filter.
    apply list_elem_of_fmap in Hin as (r0 & -> & Hr0). by apply expire_reservation_ok, Hr.
Qed.

#[export] Hint Resolve ledger_ok_maintain safe_from_maintain on_grid_maintain : bk.

(** ** Replacing one reservation *)

Lemma elem_of_update_first id f (rs : list reservation) r x :
  NoDup (r_id <$> rs) → find_first id rs = Some r →
  x ∈ update_first id f rs ↔ x = f r ∨ (x ∈ rs ∧ r_id x ≠ id).
Proof.
  intros Hd Hf. rewrite (update_first_perm id f rs r) by done.
  rewrite elem_of_cons, list_elem_of_filter. tauto.
Qed.

Section Update.
Context (id : string) (f : reservation → reservation) (l : ledger) (r : reservation).
Context (Hl : ledger_ok l) (Hf : find_first id (l_reservations l) = Some r).
Context (Hid : ∀ x, r_id x = id → r_id (f x) = id).

Let l' := set_reservations (update_first id f (l_reservations l)) l.

Lemma update_ids : ids l' = ids l.
Proof. unfold ids, l'. simpl. by apply update_first_ids. Qed.

Lemma update_elem x :
  x ∈ l_reservations l' ↔ x = f r ∨ (x ∈ l_reservations l ∧ r_id x ≠ id).
Proof. unfold l'. simpl. apply elem_of_update_first; [apply (lo_ids l Hl)|done..]. Qed.

Lemma update_ok : reservation_ok (f r) → ledger_ok l'.
Proof.
  intros Hr. constructor; [rewrite update_ids; apply (lo_ids l Hl)|].
  intros x [->|[Hx _]]%update_elem; [done|by apply (lo_reservations l Hl)].
Qed.

Lemma update_perm :
  l_reservations l' ≡ₚ f r :: filter (λ x, r_id x ≠ id) (l_reservations l).
Proof. unfold l'. simpl. apply update_first_perm; [apply (lo_ids l Hl)|done]. Qed.

Lemma update_safe_inactive T cap :
  ¬ is_active (f r) → safe_from T cap l → safe_from T cap l'.
Proof.
  intros Hn Hs. eapply (safe_from_sub _ _ _ _ (filter is_active [r])); [exact Hs|].
  rewrite update_perm, filter_cons_False by done.
  rewrite (find_first_perm id (l_reservations l) r) at 1 by (done || apply (lo_ids l Hl)).
  change (r :: ?x) with ([r] ++ x). rewrite filter_app. apply Permutation_app_comm.
Qed.

Lemma update_grid m : 
  (is_active (f r) → on_slot m (r_start_at (f r)) ∧ on_slot m (r_end_at (f r))) →
  on_grid m l → on_grid m l'.
Proof.
  intros Hr Hg x [->|[Hx _]]%update_elem Ha; [by apply Hr|by apply Hg].
Qed.
End Update.

(** The ledger without the reservation that is being replaced. *)
Lemma safe_from_shadow T cap l id :
  safe_from T cap l →
  safe_from T cap (set_reservations (filter (λ x, r_id x ≠ id) (l_reservations l)) l).
Proof.
  intros Hs. eapply (safe_from_sub _ _ _ _ (filter is_active (filter (λ x, r_id x = id)
    (l_reservations l)))); [exact Hs|]. simpl. rewrite <- filter_app.
  f_equiv. induction (l_reservations l) as [|x rs IH]; [done|]. rewrite !filter_cons.
  destruct (decide (r_id x = id)).
  - rewrite decide_False by tauto. rewrite <- Permutation_middle. by constructor.
  - rewrite decide_True by done. simpl. by constructor.
Qed.

(** ** The ledger a write works on *)

(** The ledger the closure of a write works on: bound to the policy and maintained. *)
Definition prepared (c : config) (now : datetime) (l lm : ledger) : Prop :=
  ∃ lb b, bind_ledger_policy l c = Ok (lb, b) ∧
    lm = (_maintain_ledger lb now (ledger_retention_days c)).1.

Lemma prepared_ok c now l lm : prepared c now l lm → ledger_ok l → ledger_ok lm.
Proof.
  intros (lb & b & Hb & ->) Hl. apply ledger_ok_maintain. eapply ledger_ok_reservations; [exact Hl|].
  by apply bind_ledger_policy_reservations in Hb as [? _].
Qed.

Lemma prepared_same c now l lm :
  prepared c now l lm →
  l_reservations lm = l_reservations (_maintain_ledger l now (ledger_retention_days c)).1.
Proof.
  intros (lb & b & Hb & ->). rewrite !maintain_reservations.
  by apply bind_ledger_policy_reservations in Hb as [-> _].
Qed.

Lemma safe_from_reservations T cap l l' :
  l_reservations l' = l_reservations l → safe_from T cap l → safe_from T cap l'.
Proof. intros E H g t Ht. unfold active_spans. rewrite E. by apply H. Qed.

Lemma prepared_safe T c now l lm cap :
  prepared c now l lm → safe_from T cap l → safe_from T cap lm.
Proof.
  intros Hp H. eapply safe_from_reservations; [by apply (prepared_same c now)|].
  by apply safe_from_maintain.
Qed.

Lemma prepared_grid c now l lm m : prepared c now l lm → on_grid m l → on_grid m lm.
Proof.
  intros Hp H r. rewrite (prepared_same _ _ _ _ Hp). by apply on_grid_maintain.
Qed.

Lemma prepared_ids c now l lm id : prepared c now l lm → id ∈ ids lm → id ∈ ids l.
Proof.
  intros Hp. unfold ids. rewrite (prepared_same _ _ _ _ Hp), maintain_reservations.
  intros Hin. rewrite <- (expire_ids now). revert Hin.
  apply sublist_subseteq, fmap_sublist, sublist_filter.
Qed.

Lemma shadow_ok l id :
  ledger_ok l → ledger_ok (set_reservations (filter (λ x, r_id x ≠ id) (l_reservations l)) l).
Proof.
  intros [Hd Hr]. constructor.
  - unfold ids in *. simpl. eapply sublist_NoDup; [exact Hd|]. apply fmap_sublist, sublist_filter.
  - intros r [_ Hin]%list_elem_of_filter. by apply Hr.
Qed.

(** Memory aside, room is about the holders only. *)
Lemma room_at_no_memory spans g mode cap expected capacity reserve units t e' r' :
  room_at spans g mode cap expected capacity reserve units t →
  room_at spans g mode cap e' None r' units t.
Proof. unfold room_at. case_bool_decide; [done|]. tauto. Qed.

Lemma holders_one sp g t :
  holders [sp] g t = if decide (g ∈ sp_gpus sp ∧ covers sp t) then [sp] else [].
Proof. unfold holders. rewrite filter_cons. by case_decide. Qed.

Lemma units_one cap sp g t :
  units_at cap [sp] g t =
  if decide (g ∈ sp_gpus sp ∧ covers sp t)
  then if decide (sp_mode sp = MODE_SHARED) then span_units cap sp else 0 else 0.
Proof.
  unfold units_at, shared_holders. rewrite holders_one. case_decide; [|done].
  rewrite filter_cons. case_decide; simpl; lia.
Qed.

(** A span that looks the same at an instant can take the place of another. *)
Lemma slot_safe_swap cap sp sp' rest g t :
  sp_gpus sp' = sp_gpus sp → sp_mode sp' = sp_mode sp → span_units cap sp' = span_units cap sp →
  (covers sp' t ↔ covers sp t) →
  slot_safe cap (sp :: rest) g t → slot_safe cap (sp' :: rest) g t.
Proof.
  intros Hg Hm Hu Hc. change (?x :: rest) with ([x] ++ rest). unfold slot_safe.
  rewrite !holders_app, !units_at_app, !holders_one, !units_one, Hg, Hm, Hu.
  destruct (decide (g ∈ sp_gpus sp ∧ covers sp t)), (decide (g ∈ sp_gpus sp ∧ covers sp' t));
    [|tauto..|done].
  intros [Hx Hle]. split; [|done]. intros x [->|Hx']%elem_of_cons He.
  - apply (Hx sp); [left|congruence].
  - apply (Hx x); [by right|done].
Qed.
