(* ===== verification/Jobs.v ===== *)
(** * Jobs: the worker's transactions on scheduled jobs ([src/src/bk/worker.py])

    A reservation may carry a job. Its owner's worker claims it when the window
    of the reservation has begun, marks it running once the command was started,
    and records how it ended; the owner may ask for a retry. Each definition
    [..._mutate] is the closure that the function of that name hands to
    [LedgerStore.transaction]. *)

From S2P Require Import Prelude PyBase Granularity Timeparse Models Sharing Config Policy.
From S2P Require Import ScheduleIndex Availability Placement Search Sha256 Requests.
From S2P Require Import Maintenance Safety.

(** ** The job object *)

(** [job.pop(key, None)] for each key. *)
Definition job_pop (keys : list string) (j : job) : job := foldr delete j keys.

(** [job.get(key) in values]: a list or an object has no hash. *)
Definition member_in (key : string) (j : job) (values : list string) : res bool :=
  match j !! key with
  | Some (JStr s) => Ok (bool_decide (s ∈ values))
  | Some (JList _) => Raise (TypeError "unhashable type: 'list'")
  | Some (JObj _) => Raise (TypeError "unhashable type: 'dict'")
  | _ => Ok false
  end.

Definition status_in : job → list string → res bool := member_in "status".

(** The [return] of a mutator that leaves the ledger alone. *)
Definition unchanged {A} (l : ledger) (a : A) : M (mutation A) := mret (l, a, [], false).

Definition _job_log (a : actor) (action : string) (r : reservation) (message : string)
    : M log_item :=
  ts ← utc_now;
  mret (LogItem ts (a_uid a) (a_username a) action (r_id r) (r_op_id r) (r_gpus r) (r_mode r)
          None (r_start_at r) (r_end_at r) (default "" (r_job r ≫= job_status)) message None).

(** A value that is no timestamp counts as past; one whose UTC form leaves the
    range of [datetime] is not caught. *)
Definition _timestamp_before (value : option json) (cutoff : datetime) : res bool :=
  match value with
  | Some (JStr s) =>
      match parse_iso s with
      | Ok t => Ok (t <=? cutoff)
      | Raise (ValueError _) => Ok true
      | Raise e => Raise e
      end
  | _ => Ok true
  end.

(** [message[:n]] *)
Definition clip (n : nat) (s : string) : string := text (take n (chars s)).

(** ** Claiming *)

(** The arguments of [claim_due_jobs]; [q_timeout] is the timedelta of
    [claim_timeout_seconds] and [q_eligible] the ids the launch guard passed. *)
Record claim_request := ClaimRequest {
  q_worker_id : string;
  q_lease_id : string;
  q_host : string;
  q_pid : Z;
  q_timeout : timedelta;
  q_limit : Z;
  q_eligible : option (gset string);
}.

Definition uncertain_job (now : datetime) (j : job) : job :=
  job_set [("status", JStr JOB_UNCERTAIN); ("finished_at", JStr (to_iso now));
           ("message", JStr "worker disappeared after durable claim; not retried automatically")] j.

Definition cancelled_job (now : datetime) (j : job) : job :=
  job_set [("status", JStr JOB_CANCELLED); ("finished_at", JStr (to_iso now))] j.

Definition missed_message (j : job) : string :=
  if bool_decide (job_text j "launch_guard_state" = Some "waiting")
  then "reservation window ended while waiting for live GPU safety"
  else "reservation window ended".

Definition missed_job (now : datetime) (j : job) : job :=
  job_set [("status", JStr JOB_MISSED); ("finished_at", JStr (to_iso now));
           ("message", JStr (missed_message j))] j.

Definition claimed_job (q : claim_request) (now : datetime) (token : string) (j : job) : job :=
  job_pop ["launch_guard_state"; "launch_guard_key"; "waiting_since"]
    (job_set [("status", JStr JOB_CLAIMED); ("claim_token", JStr token);
              ("claimed_at", JStr (to_iso now)); ("worker_id", JStr (q_worker_id q));
              ("worker_lease_id", JStr (q_lease_id q)); ("runner_host", JStr (q_host q));
              ("runner_pid", JInt (q_pid q)); ("message", JNull)] j).

Definition eligible (q : claim_request) (id : string) : bool :=
  match q_eligible q with None => true | Some ids => bool_decide (id ∈ ids) end.

(** One round of the loop: [None] leaves the record, otherwise the new record,
    its audit records and whether it was claimed. *)
Definition claim_one (a : actor) (now : datetime) (q : claim_request) (taken : Z) (r : reservation)
    : M (option (reservation * list log_item * bool)) :=
  if negb (r_uid r =? a_uid a) then mret None else
  match r_job r with
  | None => mret None
  | Some j =>
      stale ← lift (if bool_decide (job_status j = Some JOB_CLAIMED)
                    then _timestamp_before (j !! "claimed_at") (now - q_timeout q) else Ok false);
      if (stale : bool) then
        let r := with_job (Some (uncertain_job now j)) r in
        log ← _job_log a "job-uncertain" r "uncertain"; mret (Some (r, [log], false))
      else if negb (bool_decide (job_status j = Some JOB_PENDING)) then mret None
      else if bool_decide (r_status r = STATUS_CANCELLED)
      then mret (Some (with_job (Some (cancelled_job now j)) r, [], false))
      else if bool_decide (r_status r = STATUS_EXPIRED) || (r_end_at r <=? now)
      then
        let r := with_job (Some (missed_job now j))
                   (with_updated_at now (with_status STATUS_EXPIRED r)) in
        log ← _job_log a "job-missed" r (missed_message j); mret (Some (r, [log], false))
      else if negb (bool_decide (r_status r = STATUS_ACTIVE)) || (now <? r_start_at r)
      then mret None
      else if negb (eligible q (r_id r)) then mret None
      else if q_limit q <=? taken then mret None
      else
        token ← uuid4;
        let r := with_updated_at now (with_job (Some (claimed_job q now token j)) r) in
        log ← _job_log a "job-claim" r "claimed"; mret (Some (r, [log], true))
  end.

(** Reservations by the text of their start, then by id. *)
Definition claim_leb (a b : reservation) : bool :=
  let '(ka, kb) := (to_iso (r_start_at a), to_iso (r_start_at b)) in
  if bool_decide (ka = kb) then String.leb (r_id a) (r_id b) else String.leb ka kb.

(** [sorted] returns the same dicts: a position stands for the shared object. *)
Definition claim_order (rs : list reservation) : list nat :=
  (sort_by (λ x y, claim_leb x.2 y.2) (imap pair rs)).*1.

Fixpoint claim_loop (a : actor) (now : datetime) (q : claim_request) (order : list nat)
    (rs claimed : list reservation) (logs : list log_item) (changed : bool)
    : M (list reservation * list reservation * list log_item * bool) :=
  match order with
  | [] => mret (rs, claimed, logs, changed)
  | i :: order =>
      match rs !! i with
      | None => claim_loop a now q order rs claimed logs changed
      | Some r =>
          step ← claim_one a now q (Z.of_nat (length claimed)) r;
          match step with
          | None => claim_loop a now q order rs claimed logs changed
          | Some (r', ls, taken) =>
              claim_loop a now q order (<[i := r']> rs)
                (if (taken : bool) then claimed ++ [r'] else claimed) (logs ++ ls) true
          end
      end
  end.

Definition claim_mutate (a : actor) (now : datetime) (q : claim_request) (l : ledger)
    : M (mutation (list reservation)) :=
  '(rs, claimed, logs, changed) ←
    claim_loop a now q (claim_order (l_reservations l)) (l_reservations l) [] [] false;
  mret (set_reservations rs l, claimed, logs, changed).

(** ** Lookups under a claim *)

(** [_find_reservation] of this file compares the whole id. *)
Definition owned_job (a : actor) (id : string) (l : ledger) : option (reservation * job) :=
  r ← find_first id (l_reservations l);
  if r_uid r =? a_uid a then j ← r_job r; Some (r, j) else None.

Definition has_token (token : string) (j : job) : bool :=
  bool_decide (job_text j "claim_token" = Some token).

Definition is_claimed (token : string) (j : job) : bool :=
  bool_decide (job_status j = Some JOB_CLAIMED) && has_token token j.

(** Replace the job of the reservation with the given id and mark the update. *)
Definition put_job (now : datetime) (j : job) (r : reservation) : reservation :=
  with_updated_at now (with_job (Some j) r).

Definition store_job (now : datetime) (j : job) (r : reservation) (l : ledger) : ledger :=
  set_reservations (update_first (r_id r) (put_job now j) (l_reservations l)) l.

(** ** Starting *)

Definition mark_running_mutate (a : actor) (id token : string) (child_pid : Z) (l : ledger)
    : M (mutation bool) :=
  match owned_job a id l with
  | None => unchanged l false
  | Some (r, j) =>
      if negb (bool_decide (r_status r = STATUS_ACTIVE)) || negb (is_claimed token j)
      then unchanged l false
      else
        now ← utc_now;
        let j := job_set [("status", JStr JOB_RUNNING); ("started_at", JStr (to_iso now));
                          ("runner_pid", JInt child_pid)] j in
        log ← _job_log a "job-start" (put_job now j r) ("pid=" +:+ str_of_Z child_pid);
        mret (store_job now j r l, true, [log], true)
  end.

(** The check between the claim and the start of the command. *)
Definition _claim_is_launchable (a : actor) (id token : string) (l : ledger) : M bool :=
  match owned_job a id l with
  | None => mret false
  | Some (r, j) =>
      if bool_decide (r_status r = STATUS_ACTIVE) && is_claimed token j
      then now ← utc_now; mret (now <? r_end_at r)
      else mret false
  end.

Definition mark_launch_failure_mutate (a : actor) (id token message : string) (l : ledger)
    : M (mutation unit) :=
  match owned_job a id l with
  | None => unchanged l tt
  | Some (r, j) =>
      if negb (has_token token j) then unchanged l tt
      else
        now ← utc_now;
        let j := job_set [("status", JStr JOB_FAILED); ("finished_at", JStr (to_iso now));
                          ("message", JStr (clip 1000 message))] j in
        log ← _job_log a "job-failed" (put_job now j r) (clip 200 message);
        mret (store_job now j r l, tt, [log], true)
  end.

(** What became of a claim whose command was not kept. *)
Definition aborted_state (now : datetime) (r : reservation) : string * string :=
  if bool_decide (r_status r = STATUS_CANCELLED)
  then (JOB_CANCELLED, "reservation was cancelled while the claimed command was starting")
  else if r_end_at r <=? now
  then (JOB_MISSED, "reservation ended while the claimed command was starting")
  else (JOB_UNCERTAIN, "claimed command was stopped before running state could be committed").

Definition mark_aborted_mutate (a : actor) (id token : string) (l : ledger) : M (mutation unit) :=
  match owned_job a id l with
  | None => unchanged l tt
  | Some (r, j) =>
      if negb (is_claimed token j) then unchanged l tt
      else
        now ← utc_now;
        let '(status, message) := aborted_state now r in
        let j := job_set [("status", JStr status); ("finished_at", JStr (to_iso now));
                          ("message", JStr message)] j in
        log ← _job_log a ("job-" +:+ status) (put_job now j r) message;
        mret (store_job now j r l, tt, [log], true)
  end.

(** ** Completion *)

(** The fields of [RunningJob] that a transaction reads. *)
Record running_job := RunningJob {
  rj_id : string;
  rj_token : string;
  rj_reason : option string;
}.

Definition _completion_status (exit_code : Z) (reason : option string) : string :=
  if bool_decide (reason = Some "cancelled") then JOB_CANCELLED
  else if bool_decide (reason = Some "deadline") then JOB_TIMED_OUT
  else if bool_decide (reason = Some "worker-stop") then JOB_INTERRUPTED
  else if exit_code =? 0 then JOB_SUCCEEDED else JOB_FAILED.

(** A text that is present and not empty. *)
Definition some_text (o : option string) : option string :=
  match o with Some "" => None | o => o end.

Definition completed_job (now : datetime) (status : string) (exit_code : Z)
    (log_warning reason : option string) (log_rotations : Z) (j : job) : job :=
  let j := job_set [("status", JStr status); ("finished_at", JStr (to_iso now));
                    ("exit_code", JInt exit_code)] j in
  let j := job_pop ["recovery_state"; "recovery_worker_id"; "recovered_at"] j in
  let j := if negb (log_rotations =? 0) then job_set [("log_rotated", JBool true)] j else j in
  let j := match some_text log_warning with
           | Some _ => job_set [("log_warning",
                         JStr "private job log is incomplete; inspect the owning worker")] j
           | None => j
           end in
  match some_text reason with
  | Some reason => job_set [("message", JStr reason)] j
  | None => j
  end.

Definition complete_mutate (a : actor) (item : running_job) (status : string) (exit_code : Z)
    (log_warning : option string) (log_rotations : Z) (l : ledger) : M (mutation unit) :=
  match owned_job a (rj_id item) l with
  | None => unchanged l tt
  | Some (r, j) =>
      if negb (has_token (rj_token item) j) then unchanged l tt
      else
        now ← utc_now;
        let j := completed_job now status exit_code log_warning (rj_reason item) log_rotations j in
        log ← _job_log a ("job-" +:+ status) (put_job now j r) ("exit=" +:+ str_of_Z exit_code);
        mret (store_job now j r l, tt, [log], true)
  end.

(** ** Retry *)

(** Only text statuses are written by the program; no status prints as [None]. *)
Definition retry_status_text (j : job) : string := default "None" (job_status j).

Definition retried_keys : list string :=
  ["claim_token"; "claimed_at"; "started_at"; "finished_at"; "exit_code"; "runner_pid";
   "runner_host"; "worker_id"; "worker_lease_id"; "message"; "cancel_requested_at";
   "launch_guard_state"; "launch_guard_key"; "waiting_since"; "log_warning"; "log_rotated";
   "recovery_state"; "recovery_worker_id"; "recovered_at"].

Definition retried_job (j : job) : job :=
  job_pop retried_keys (job_set [("status", JStr JOB_PENDING)] j).

Definition retry_mutate (a : actor) (id : string) (accept_duplicate_risk : bool) (l : ledger)
    : M (mutation reservation) :=
  match find_first id (l_reservations l) with
  | None => raise (BookingError "job reservation not found")
  | Some r =>
      if negb (r_uid r =? a_uid a)
      then raise (BookingError "permission denied: job belongs to another UID")
      else match r_job r with
      | None => raise (BookingError "reservation has no job")
      | Some j =>
          if bool_decide (job_status j = Some JOB_UNCERTAIN) && negb accept_duplicate_risk
          then raise (BookingError ("uncertain job may already be running; "
                 +:+ "pass --accept-duplicate-risk after checking"))
          else
            retriable ← lift (status_in j [JOB_FAILED; JOB_INTERRUPTED; JOB_UNCERTAIN]);
            if negb retriable
            then raise (BookingError ("job in " +:+ retry_status_text j
                   +:+ " state cannot be retried"))
            else
              now ← utc_now;
              if negb (bool_decide (r_status r = STATUS_ACTIVE)) || (r_end_at r <=? now)
              then raise (BookingError
                     "reservation window is no longer active; create a new booking")
              else
                let r' := put_job now (retried_job j) r in
                log ← _job_log a "job-retry" r' "pending";
                mret (store_job now (retried_job j) r l, r', [log], true)
      end
  end.

(** ** The launch guard's record *)

(** A decision of the guard as the ledger records it. *)
Record guard_note := GuardNote { gn_ready : bool; gn_reason : string; gn_key : string }.

(** [not job.get(key)] *)
Definition job_falsy (key : string) (j : job) : bool :=
  match j !! key with
  | None | Some JNull | Some (JBool false) | Some (JInt 0) | Some (JStr "")
  | Some (JList []) | Some (JObj []) => true
  | Some (JFloat f) => feq f (float_of_Z 0)
  | _ => false
  end.

Definition cleared_job (j : job) : job :=
  job_set [("message", JNull)]
    (job_pop ["launch_guard_state"; "launch_guard_key"; "waiting_since"] j).

Definition waiting_job (now : datetime) (n : guard_note) (j : job) : job :=
  let j := job_set [("launch_guard_key", JStr (gn_key n));
                    ("launch_guard_state", JStr "waiting")] j in
  let j := if job_falsy "waiting_since" j
           then job_set [("waiting_since", JStr (to_iso now))] j else j in
  job_set [("message", JStr (clip 1000 (gn_reason n)))] j.

(** The notice printed for the reservation, when the record changes. *)
Definition guard_one (a : actor) (decisions : string → option guard_note) (now : datetime)
    (r : reservation) : M (option (reservation * log_item * string)) :=
  match decisions (r_id r) with
  | None => mret None
  | Some n =>
      if negb (r_uid r =? a_uid a) then mret None else
      match r_job r with
      | None => mret None
      | Some j =>
          if negb (bool_decide (job_status j = Some JOB_PENDING)) then mret None
          else
            let waiting := bool_decide (job_text j "launch_guard_state" = Some "waiting") in
            if gn_ready n then
              if negb waiting then mret None
              else
                let r := put_job now (cleared_job j) r in
                log ← _job_log a "job-ready" r "live GPU guard cleared";
                mret (Some (r, log, "ready: " +:+ clip 8 (r_id r) +:+ " live GPU guard cleared"))
            else if waiting && bool_decide (job_text j "launch_guard_key" = Some (gn_key n))
            then mret None
            else
              let r := put_job now (waiting_job now n j) r in
              let reason := clip 1000 (gn_reason n) in
              log ← _job_log a "job-waiting" r (clip 200 reason);
              mret (Some (r, log, "waiting: " +:+ clip 8 (r_id r) +:+ " " +:+ reason))
      end
  end.

(** A loop over all reservations that may replace each of them. *)
Fixpoint each_reservation {B} (f : reservation → M (option (reservation * log_item * B)))
    (rs : list reservation) : M (list reservation * list B * list log_item * bool) :=
  match rs with
  | [] => mret ([], [], [], false)
  | r :: rs =>
      step ← f r;
      '(rs', out, logs, changed) ← each_reservation f rs;
      match step with
      | None => mret (r :: rs', out, logs, changed)
      | Some (r', log, b) => mret (r' :: rs', b :: out, log :: logs, true)
      end
  end.

Definition record_guard_mutate (a : actor) (decisions : string → option guard_note)
    (now : datetime) (l : ledger) : M (mutation (list string)) :=
  '(rs, notices, logs, changed) ← each_reservation (guard_one a decisions now) (l_reservations l);
  mret (set_reservations rs l, notices, logs, changed).

Definition _due_pending_jobs (l : ledger) (a : actor) (now : datetime) : list reservation :=
  filter (λ r, r_uid r = a_uid a ∧ r_status r = STATUS_ACTIVE ∧
               (r_job r ≫= job_status) = Some JOB_PENDING ∧
               r_start_at r ≤ now ∧ now < r_end_at r) (l_reservations l).

(** ** Which private job specifications are still needed *)

Definition _job_spec_is_needed (r : reservation) (j : job) (now : datetime) : res bool :=
  started ← status_in j [JOB_CLAIMED; JOB_RUNNING];
  if (started : bool) then Ok true else
  known ← status_in j [JOB_PENDING; JOB_SUCCEEDED; JOB_FAILED; JOB_CANCELLED; JOB_MISSED;
                       JOB_TIMED_OUT; JOB_INTERRUPTED; JOB_UNCERTAIN];
  if negb known then Ok true else
  over ← status_in j [JOB_SUCCEEDED; JOB_CANCELLED; JOB_MISSED; JOB_TIMED_OUT];
  if (over : bool) then Ok false
  else if negb (bool_decide (r_status r = STATUS_ACTIVE)) then Ok false
  else Ok (now <? r_end_at r).

(** ** What a worker may change

    A worker rewrites the job and the update time of a record and may mark it
    expired once it has ended; owner, GPUs, mode, interval and share stay. *)

Definition set_work (status : string) (updated : option datetime) (j : option job)
    (r : reservation) : reservation :=
  Reservation (r_id r) (r_op_id r) (r_uid r) (r_username r) (r_gpus r) (r_mode r)
    (r_start_at r) (r_end_at r) status (r_created_at r) updated
    (r_expected_memory_mb r) (r_share_units r) (r_operation_signature r) j
    (r_edit_operations r) (r_cancel_operation r) (r_notifications r).

Definition rewritten (now : datetime) (r r' : reservation) : Prop :=
  ∃ s u j, r' = set_work s u j r ∧
    (s = r_status r ∨ (s = STATUS_EXPIRED ∧ r_status r = STATUS_ACTIVE ∧ r_end_at r ≤ now)) ∧
    (is_Some j ↔ is_Some (r_job r)).

Definition worked (now : datetime) (l l' : ledger) : Prop :=
  ∃ rs, l' = set_reservations rs l ∧ Forall2 (rewritten now) (l_reservations l) rs.

#[export] Instance rewritten_refl now : Reflexive (rewritten now).
Proof. intros r. exists (r_status r), (r_updated_at r), (r_job r). destruct r. by split_and!; [|left|]. Qed.

Lemma worked_refl now l : worked now l l.
Proof. exists (l_reservations l). split; [by destruct l|]. reflexivity. Qed.

Lemma rewritten_job now j j0 r : r_job r = Some j0 → rewritten now r (with_job (Some j) r).
Proof.
  intros E. exists (r_status r), (r_updated_at r), (Some j). rewrite E. split; [by destruct r|].
  split; [by left|]. by split; eauto.
Qed.

Lemma rewritten_put now t j j0 r : r_job r = Some j0 → rewritten now r (put_job t j r).
Proof.
  intros E. exists (r_status r), (Some t), (Some j). rewrite E. split; [by destruct r|].
  split; [by left|]. by split; eauto.
Qed.

(** Replacing one record by a rewritten one. *)
Lemma worked_update now id f l r :
  find_first id (l_reservations l) = Some r → rewritten now r (f r) →
  worked now l (set_reservations (update_first id f (l_reservations l)) l).
Proof.
  intros Hf Hr. eexists. split; [done|]. revert Hf.
  induction (l_reservations l) as [|x rs IH]; simpl; [done|].
  case_bool_decide; intros E; simplify_eq; constructor; auto.
  - reflexivity.
  - done.
Qed.

Lemma owned_job_Some a id l r j :
  owned_job a id l = Some (r, j) →
  find_first id (l_reservations l) = Some r ∧ r_uid r = a_uid a ∧ r_job r = Some j ∧ r_id r = id.
Proof.
  unfold owned_job. intros E. apply bind_Some in E as (x & Hx & E).
  destruct (Z.eqb_spec (r_uid x) (a_uid a)); [|done].
  apply bind_Some in E as (y & Hy & E). simplify_eq.
  by destruct (find_first_Some _ _ _ Hx).
Qed.

Lemma worked_store now t a id j' l r j :
  owned_job a id l = Some (r, j) → worked now l (store_job t j' r l).
Proof.
  intros (Hf & _ & Hj & <-)%owned_job_Some. by eapply worked_update; [|eapply rewritten_put].
Qed.

(** ** Preservation of what the scheduler relies on *)

Section Worked.
Context (now : datetime).

Lemma rewritten_ok r r' : rewritten now r r' → reservation_ok r → reservation_ok r'.
Proof.
  intros (s & u & j & -> & Hs & _) [? ? ? ? ? ? ? ?]. constructor; simpl; auto.
  destruct Hs as [->|(-> & _)]; auto.
Qed.

Lemma worked_ids l l' : worked now l l' → ids l' = ids l.
Proof.
  intros (rs & -> & H). unfold ids. simpl.
  induction H as [|r r' rs0 rs (s & u & j & -> & _) _ IH]; [done|]. csimpl. by rewrite IH.
Qed.

Lemma worked_elem l l' r' :
  worked now l l' → r' ∈ l_reservations l' → ∃ r, r ∈ l_reservations l ∧ rewritten now r r'.
Proof.
  intros (rs & -> & H) [i Hi]%list_elem_of_lookup. simpl in Hi.
  destruct (Forall2_lookup_r _ _ _ _ _ H Hi) as (r & Hr & ?). exists r. split; [|done].
  by eapply list_elem_of_lookup_2.
Qed.

Lemma worked_ok l l' : worked now l l' → ledger_ok l → ledger_ok l'.
Proof.
  intros Hw [Hd Hr]. constructor; [by rewrite (worked_ids l)|].
  intros r' (r & Hin & Hrw)%(worked_elem l l' _ Hw). by eapply rewritten_ok, Hr.
Qed.

Lemma rewritten_active r r' :
  rewritten now r r' → is_active r' →
  is_active r ∧ r_start_at r' = r_start_at r ∧ r_end_at r' = r_end_at r ∧ r_gpus r' = r_gpus r ∧
  r_mode r' = r_mode r ∧ r_share_units r' = r_share_units r ∧ r_uid r' = r_uid r.
Proof.
  intros (s & u & j & -> & Hs & _) Ha. unfold is_active in *. simpl in *.
  destruct Hs as [->|(-> & _)]; [by split_and!|by vm_compute in Ha].
Qed.

Lemma worked_grid m l l' : worked now l l' → on_grid m l → on_grid m l'.
Proof.
  intros Hw Hg r' (r & Hin & Hrw)%(worked_elem l l' _ Hw) Ha.
  destruct (rewritten_active _ _ Hrw Ha) as (? & -> & -> & _). by apply Hg.
Qed.

(** What holds a GPU after the worker held it before, with the same mode and share. *)
Lemma holders_worked cap g t rs rs' :
  Forall2 (rewritten now) rs rs' →
  let h := holders (spans_of rs) g t in
  let h' := holders (spans_of rs') g t in
  (length h' ≤ length h)%nat ∧ (∀ sp', sp' ∈ h' → ∃ sp, sp ∈ h ∧ sp_mode sp = sp_mode sp') ∧
  units_at cap (spans_of rs') g t ≤ units_at cap (spans_of rs) g t.
Proof.
  cbv zeta. unfold spans_of. induction 1 as [|r r' rs rs' Hr _ IH].
  { split; [done|]. split; [by intros ? ?%not_elem_of_nil|done]. }
  destruct IH as (Hl & Hm & Hu). rewrite !filter_cons.
  destruct (decide (is_active r')) as [Ha'|Ha'].
  - destruct (rewritten_active _ _ Hr Ha') as (Ha & Hs & He & Hg & Hmode & Hsh & _).
    rewrite decide_True by done. csimpl. unfold units_at, shared_holders, holders in *.
    rewrite !(filter_cons _ (span_of _)). unfold covers in *. simpl in *.
    destruct (decide (g ∈ r_gpus r' ∧ _)) as [Hc|Hc]; rewrite Hs, He, Hg in Hc;
      [rewrite decide_True by done|by rewrite decide_False by done].
    simpl. split; [lia|]. rewrite !(filter_cons _ (span_of _)). simpl.
    assert (E : span_units cap (span_of r') = span_units cap (span_of r))
      by (unfold span_units; simpl; by rewrite Hsh).
    split; [|destruct (decide (r_mode r' = _)) as [Hx|Hx]; rewrite Hmode in Hx;
             [rewrite decide_True by done|rewrite decide_False by done]; simpl; lia].
    intros sp' [->|Hin]%elem_of_cons; [eexists; split; [left|done]|].
    destruct (Hm _ Hin) as (sp & ? & ?). exists sp. split; [by right|done].
  - destruct (decide (is_active r)); [|done]. csimpl. unfold units_at, shared_holders, holders in *.
    rewrite !filter_cons. case_decide; [|done]. simpl. split; [lia|]. split.
    + intros sp' Hin. destruct (Hm _ Hin) as (sp & ? & ?). exists sp. split; [by right|done].
    + rewrite filter_cons. case_decide; simpl; [|lia].
      pose proof (span_units_pos cap (span_of r)). lia.
Qed.

Lemma worked_safe T cap l l' : worked now l l' → safe_from T cap l → safe_from T cap l'.
Proof.
  intros (rs & -> & H) Hs g t Ht. destruct (Hs g t Ht) as [Hx Hu].
  destruct (holders_worked cap g t _ _ H) as (Hl & Hm & Hle).
  unfold slot_safe, active_spans in *. simpl. split; [|lia].
  intros sp' Hin Hmode. destruct (Hm sp' Hin) as (sp & Hsp & E).
  specialize (Hx sp Hsp ltac:(congruence)). destruct (holders (spans_of rs) g t); [|simpl in *; lia].
  by apply not_elem_of_nil in Hin.
Qed.
End Worked.

(** ** One round of the claiming loop *)

(** One value cannot equal two different constants. *)
Ltac clash :=
  exfalso; simpl in *;
  match goal with
  | H : ?x = ?a, H' : ?x = ?b |- _ => rewrite H in H'; vm_compute in H'; discriminate H'
  end.

(** A reservation whose job can be claimed at [now]. *)
Definition claimable (a : actor) (now : datetime) (q : claim_request) (r : reservation) : Prop :=
  r_uid r = a_uid a ∧ r_status r = STATUS_ACTIVE ∧ (r_job r ≫= job_status) = Some JOB_PENDING ∧
  r_start_at r ≤ now ∧ now < r_end_at r ∧ eligible q (r_id r) = true.

Definition claim (q : claim_request) (now : datetime) (token : string) (j : job) (r : reservation)
    : reservation := with_updated_at now (with_job (Some (claimed_job q now token j)) r).

(** What the loop makes of a record, and whether that is a claim. *)
Inductive claim_effect (a : actor) (now : datetime) (q : claim_request) (r : reservation)
    : reservation → bool → Prop :=
  | effect_uncertain j :
      r_uid r = a_uid a → r_job r = Some j → job_status j = Some JOB_CLAIMED →
      claim_effect a now q r (with_job (Some (uncertain_job now j)) r) false
  | effect_cancelled j :
      r_uid r = a_uid a → r_job r = Some j → job_status j = Some JOB_PENDING →
      r_status r = STATUS_CANCELLED →
      claim_effect a now q r (with_job (Some (cancelled_job now j)) r) false
  | effect_missed j :
      r_uid r = a_uid a → r_job r = Some j → job_status j = Some JOB_PENDING →
      r_status r ≠ STATUS_CANCELLED → r_status r = STATUS_EXPIRED ∨ r_end_at r ≤ now →
      claim_effect a now q r
        (with_job (Some (missed_job now j)) (with_updated_at now (with_status STATUS_EXPIRED r))) false
  | effect_taken j token :
      claimable a now q r → r_job r = Some j →
      claim_effect a now q r (claim q now token j r) true.

(** Read a field of a job after a sequence of assignments and pops. *)
Ltac job_lookup :=
  unfold job_text, job_status, completed_job, claimed_job, retried_job, uncertain_job, cancelled_job,
    missed_job, cleared_job, waiting_job, job_set, job_pop, retried_keys; simpl;
  repeat first
    [ rewrite lookup_insert_eq | rewrite lookup_insert_ne by done
    | rewrite lookup_delete_eq | rewrite lookup_delete_ne by done ].

(** The token of a claimed job. *)
Definition token_of (r : reservation) : option string := j ← r_job r; job_text j "claim_token".

Lemma job_log_run a act r m w log w' :
  _job_log a act r m w = (Ok log, w') →
  lg_action log = act ∧ lg_reservation_id log = r_id r ∧ later w w' ∧ w_draws w' = w_draws w.
Proof.
  unfold _job_log, utc_now. intros H. inv_M. apply clock_now_Ok in H0 as [_ ->].
  split_and!; try done. unfold later; simpl. split_and!; lia || done.
Qed.

(** What an audit record of a transaction says. *)
Ltac inv_log :=
  match goal with
  | E : _job_log _ _ _ _ _ = (Ok ?lg, _) |- _ =>
      try rename lg into log;
      let Ha := fresh "Ha" in let Hi := fresh "Hi" in
      let Hl := fresh "Hl" in let Hd := fresh "Hd" in
      apply job_log_run in E as (Ha & Hi & Hl & Hd)
  end.

Lemma forward_job_log a act r m : forward (_job_log a act r m).
Proof. unfold _job_log, utc_now. apply forward_bind; [apply forward_clock|]. intros; apply forward_ret. Qed.

#[export] Hint Resolve forward_job_log : bk.

Ltac forward_work :=
  repeat first
    [ apply forward_ret | apply forward_lift | apply forward_clock | apply forward_uuid
    | apply forward_job_log | apply forward_bind
    | match goal with
      | |- forward (match ?x with _ => _ end) => destruct x
      | |- ∀ _, _ => intros ?
      end ].

Lemma forward_claim_loop a now q order rs claimed logs ch :
  forward (claim_loop a now q order rs claimed logs ch).
Proof.
  revert rs claimed logs ch. induction order as [|i order IH]; intros rs claimed logs ch; simpl;
    [apply forward_ret|]. destruct (rs !! i); [|apply IH].
  apply forward_bind; [unfold claim_one; forward_work|]. intros [[[? ?] ?]|]; apply IH.
Qed.

Lemma forward_claim a now q l : forward (claim_mutate a now q l).
Proof. apply forward_bind; [apply forward_claim_loop|]. forward_work. Qed.

Lemma forward_each {B} (f : reservation → M (option (reservation * log_item * B))) rs :
  (∀ r, forward (f r)) → forward (each_reservation f rs).
Proof.
  intros Hf. induction rs as [|r rs IH]; simpl; [apply forward_ret|].
  apply forward_bind; [apply Hf|intros]. apply forward_bind; [apply IH|]. forward_work.
Qed.

Lemma forward_record_guard a decisions now l : forward (record_guard_mutate a decisions now l).
Proof.
  apply forward_bind; [apply forward_each; intros; unfold guard_one; forward_work|forward_work].
Qed.

Lemma claim_one_run a now q k r w out w' :
  claim_one a now q k r w = (Ok out, w') →
  later w w' ∧
  match out with
  | None => w' = w ∧ (claimable a now q r → q_limit q ≤ k)
  | Some (r', ls, taken) =>
      claim_effect a now q r r' taken ∧ (∀ log, log ∈ ls → lg_reservation_id log = r_id r) ∧
      if taken
      then k < q_limit q ∧ token_of r' = Some (w_uuid w (w_draws w)) ∧
           w_draws w' = S (w_draws w) ∧ lg_action <$> ls = ["job-claim"]
      else w_draws w' = w_draws w ∧ "job-claim" ∉ (lg_action <$> ls) ∧ ¬ claimable a now q r
  end.
Proof.
  unfold claim_one, claimable. destruct (Z.eqb_spec (r_uid r) (a_uid a)) as [Hu|Hu]; simpl.
  2:{ intros [<- <-]%M_ret_Ok. do 2 (split; [done|]). by intros [? _]. }
  destruct (r_job r) as [j|] eqn:Hj; simpl.
  2:{ intros [<- <-]%M_ret_Ok. do 2 (split; [done|]). by intros (_ & _ & ? & _). }
  intros H. apply M_bind_Ok in H as (stale & w1 & Hst & H). apply lift_Ok in Hst as [Hst <-].
  destruct stale.
  { assert (Hc : job_status j = Some JOB_CLAIMED).
    { revert Hst. case_bool_decide; [done|]. by intros [=]. }
    inv_M. inv_log.
    split; [done|]. split; [by constructor|]. split; [by intros ? ->%list_elem_of_singleton|].
    csimpl. rewrite Ha. split; [done|]. split; [by intros ?%list_elem_of_singleton|].
    intros (_ & _ & Hp & _). clash. }
  destruct (bool_decide (job_status j = Some JOB_PENDING)) eqn:Hp; simpl in H; bk_split.
  2:{ inv_M. do 2 (split; [done|]). by intros (_ & _ & ? & _). }
  destruct (bool_decide (r_status r = STATUS_CANCELLED)) eqn:Hc; bk_split.
  { inv_M. split; [done|]. split; [by constructor|]. split; [by intros ? ?%not_elem_of_nil|].
    split; [done|]. split; [by intros ?%not_elem_of_nil|].
    intros (_ & Hx & _). clash. }
  destruct (bool_decide (r_status r = STATUS_EXPIRED) || (r_end_at r <=? now)) eqn:He.
  { assert (He' : r_status r = STATUS_EXPIRED ∨ r_end_at r ≤ now).
    { apply orb_true_iff in He as [He|He]; bk_split; auto. }
    inv_M. inv_log.
    split; [done|]. split; [by constructor|]. split; [by intros ? ->%list_elem_of_singleton|].
    csimpl. rewrite Ha. split; [done|]. split; [by intros ?%list_elem_of_singleton|].
    intros (_ & Hx & _ & _ & Hy & _). destruct He' as [E|E]; [clash|lia]. }
  destruct (negb _ || (now <? r_start_at r)) eqn:Hw; simpl in H.
  { inv_M. do 2 (split; [done|]). intros (_ & Hx & _ & Hy & _). apply orb_true_iff in Hw as [Hw|Hw]; bk_split; [done|lia]. }
  destruct (eligible q (r_id r)) eqn:Hel; simpl in H; [|inv_M; do 2 (split; [done|]); naive_solver].
  destruct (Z.leb_spec (q_limit q) k); [by inv_M|].
  bk_split. inv_M.
  match goal with E : uuid4 _ = _ |- _ => apply uuid4_Ok in E as [-> ->] end.
  inv_log.
  split; [etrans; [apply (forward_uuid w)|done]|]. split.
  { apply effect_taken; [|done]. unfold claimable. rewrite Hj. simpl. split_and!; done. }
  split; [by intros ? ->%list_elem_of_singleton|]. csimpl. rewrite Ha, Hd. split_and!; try done.
  unfold token_of, claim. simpl. by job_lookup.
Qed.

(** ** Counting claims and retries

    The audit log is the history of the jobs: a reservation that is open to one
    more claim was created or retried since its last claim. *)

Definition log_is (action id : string) (lg : log_item) : Z :=
  if decide (lg_action lg = action ∧ lg_reservation_id lg = id) then 1 else 0.

(** Records of an action on a reservation in an audit log. *)
Definition log_count (action id : string) (logs : list log_item) : Z := sumZ (log_is action id) logs.

Definition is_open (id : string) (r : reservation) : Z :=
  if decide (r_id r = id ∧ (r_job r ≫= job_status) = Some JOB_PENDING) then 1 else 0.

(** Reservations with this id whose job waits for a claim. *)
Definition open_count (id : string) (rs : list reservation) : Z := sumZ (is_open id) rs.

(** What every transaction of a worker keeps: it only rewrites jobs, and claims
    use up what retries open. *)
Record job_step (now : datetime) (l l' : ledger) (logs : list log_item) : Prop := JobStep {
  js_worked : worked now l l';
  js_claims id :
    open_count id (l_reservations l') + log_count "job-claim" id logs
    ≤ open_count id (l_reservations l) + log_count "job-retry" id logs;
  js_logged lg : lg ∈ logs → lg_reservation_id lg ∈ ids l;
}.

Lemma log_count_nonneg act id logs : 0 ≤ log_count act id logs.
Proof. apply sumZ_nonneg. intros lg _. unfold log_is. case_decide; lia. Qed.

Lemma is_open_nonneg id r : 0 ≤ is_open id r.
Proof. unfold is_open. case_decide; lia. Qed.

Lemma open_count_nonneg id rs : 0 ≤ open_count id rs.
Proof. apply sumZ_nonneg. intros r _. unfold is_open. case_decide; lia. Qed.

Lemma log_count_app act id l1 l2 : log_count act id (l1 ++ l2) = log_count act id l1 + log_count act id l2.
Proof. apply sumZ_app. Qed.

(** No record of an action that none of the records has. *)
Lemma log_count_none act id logs : act ∉ (lg_action <$> logs) → log_count act id logs = 0.
Proof.
  unfold log_count. induction logs as [|lg logs IH]; csimpl; [done|].
  intros [Hn Hl]%not_elem_of_cons. rewrite IH by done. unfold log_is.
  rewrite decide_False by naive_solver. done.
Qed.

Lemma log_count_other act id logs :
  (∀ lg, lg ∈ logs → lg_reservation_id lg ≠ id) → log_count act id logs = 0.
Proof.
  unfold log_count. induction logs as [|lg logs IH]; simpl; intros H; [done|].
  rewrite IH by (intros; apply H; by right). unfold log_is.
  rewrite decide_False; [done|]. intros [_ E]. by apply (H lg); [left|].
Qed.

Lemma job_step_refl now l : job_step now l l [].
Proof. constructor; [apply worked_refl|intros; unfold log_count; simpl; lia|by intros ? ?%not_elem_of_nil]. Qed.

Lemma sumZ_insert {A} (f : A → Z) (l : list A) i x y :
  l !! i = Some x → sumZ f (<[i := y]> l) = sumZ f l - f x + f y.
Proof. revert i. induction l as [|a l IH]; intros [|i] E; simplify_eq/=; [lia|]. rewrite (IH i) by done. lia. Qed.

(** A transaction on one reservation that leaves its job not pending. *)
Lemma job_step_store now t a id j' l r j log :
  owned_job a id l = Some (r, j) → job_status j' ≠ Some JOB_PENDING →
  lg_action log ≠ "job-claim" → lg_reservation_id log = id →
  job_step now l (store_job t j' r l) [log].
Proof.
  intros Ho Hj Ha Hid. pose proof (owned_job_Some _ _ _ _ _ Ho) as (Hf & _ & _ & Hr).
  constructor.
  - by eapply worked_store.
  - intros id'. rewrite (log_count_none "job-claim"); [|by intros ?%list_elem_of_singleton].
    pose proof (log_count_nonneg "job-retry" id' [log]).
    enough (open_count id' (l_reservations (store_job t j' r l)) ≤ open_count id' (l_reservations l)) by lia.
    unfold store_job. simpl. rewrite Hr. clear Hr. revert Hf.
    unfold open_count. induction (l_reservations l) as [|x rs IH]; simpl; [done|].
    case_bool_decide; intros; simplify_eq; simpl; [|specialize (IH ltac:(done)); lia].
    enough (is_open id' (put_job t j' r) ≤ is_open id' r) by lia.
    unfold is_open at 1. rewrite decide_False; [|simpl; naive_solver].
    unfold is_open. case_decide; lia.
  - intros lg ->%list_elem_of_singleton. rewrite Hid. apply find_first_Some in Hf as [Hin E].
    apply list_elem_of_fmap. by exists r.
Qed.

(** ** The transactions of a worker *)

Lemma effect_rewritten a now q r r' b :
  reservation_ok r → claim_effect a now q r r' b → rewritten now r r'.
Proof.
  intros Hok H. destruct H as [j ? Hj|j ? Hj|j ? Hj ? Hc He|j token Hc Hj].
  - by eapply rewritten_job.
  - by eapply rewritten_job.
  - exists STATUS_EXPIRED, (Some now), (Some (missed_job now j)). rewrite Hj.
    split; [by destruct r|]. split; [|by split; eauto].
    destruct (ro_status _ Hok) as [Hs|[Hs|Hs]]; [|done|by left].
    destruct He as [He|He]; [by left|by right].
  - unfold claim. exists (r_status r), (Some now), (Some (claimed_job q now token j)). rewrite Hj.
    split; [by destruct r|]. split; [by left|]. by split; eauto.
Qed.

#[export] Instance rewritten_trans now : Transitive (rewritten now).
Proof.
  intros r1 r2 r3 (s & u & j & -> & Hs & Hj) (s' & u' & j' & -> & Hs' & Hj'). simpl in *.
  exists s', u', j'. split; [done|]. split; [|tauto].
  destruct Hs' as [->|(-> & Ha & He)]; [done|]. right. split_and!; try done.
  destruct Hs as [<-|(E & _)]; [done|clash].
Qed.

Lemma effect_closes a now q r r' b : claim_effect a now q r r' b → (r_job r' ≫= job_status) ≠ Some JOB_PENDING.
Proof. intros H. destruct H; simpl; job_lookup; try done. Qed.

Lemma effect_open a now q r r' b id :
  claim_effect a now q r r' b →
  is_open id r' = 0 ∧ (b = true → r_id r = id → is_open id r = 1).
Proof.
  intros H. unfold is_open. split.
  - rewrite decide_False; [done|]. intros [_ E]. by apply (effect_closes _ _ _ _ _ _ H).
  - intros -> E. inversion H as [| | |j token Hc Hj]; subst. destruct Hc as (_ & _ & -> & _).
    by rewrite decide_True.
Qed.

Lemma effect_id a now q r r' b : claim_effect a now q r r' b → r_id r' = r_id r.
Proof. by destruct 1. Qed.

Lemma Forall2_insert_rel {A} (R : A → A → Prop) `{!Reflexive R} (l : list A) i x y :
  l !! i = Some x → R x y → Forall2 R l (<[i := y]> l).
Proof.
  intros E HR. revert i E. induction l as [|a l IH]; intros [|i] E; simplify_eq/=; constructor; auto.
  reflexivity.
Qed.

Lemma Forall2_rewritten_ok now rs rs' :
  Forall2 (rewritten now) rs rs' → Forall reservation_ok rs → Forall reservation_ok rs'.
Proof. induction 1; inversion 1; subst; constructor; auto. by eapply rewritten_ok. Qed.

Lemma Forall2_rewritten_ids now rs rs' : Forall2 (rewritten now) rs rs' → r_id <$> rs' = r_id <$> rs.
Proof. intros H. exact (worked_ids now (Ledger rs None [] None) _ (ex_intro _ rs' (conj eq_refl H))). Qed.

Lemma claim_loop_steps a now q order rs claimed logs ch w rs' claimed' logs' ch' w' :
  Forall reservation_ok rs →
  claim_loop a now q order rs claimed logs ch w = (Ok (rs', claimed', logs', ch'), w') →
  Forall2 (rewritten now) rs rs' ∧
  (∀ id, open_count id rs' + log_count "job-claim" id logs'
         ≤ open_count id rs + log_count "job-claim" id logs) ∧
  (∀ lg, lg ∈ logs' → lg ∈ logs ∨ lg_reservation_id lg ∈ (r_id <$> rs)).
Proof.
  revert rs claimed logs ch w. induction order as [|i order IH]; intros rs claimed logs ch w Hok H; simpl in H.
  { apply M_ret_Ok in H as [H ->]. simplify_eq. split; [reflexivity|].
    split; [done|by left]. }
  destruct (rs !! i) as [r|] eqn:Hi; [|by eapply IH].
  apply M_bind_Ok in H as (step & w1 & Hone & H). apply claim_one_run in Hone as [_ Hone].
  destruct step as [[[r' ls] taken]|]; [|by eapply IH].
  destruct Hone as (He & Hids & Hlog).
  pose proof (Forall_lookup_1 _ _ _ _ Hok Hi) as Hr.
  assert (Hrw : Forall2 (rewritten now) rs (<[i := r']> rs))
    by (eapply Forall2_insert_rel; [apply _|done|by eapply effect_rewritten]).
  destruct (IH _ _ _ _ _ (Forall2_rewritten_ok _ _ _ Hrw Hok) H) as (H2 & Hc & Hlg).
  split; [by etrans|]. split.
  - intros id. specialize (Hc id). rewrite log_count_app in Hc. unfold open_count in *.
    rewrite (sumZ_insert _ _ _ _ _ Hi) in Hc. destruct (effect_open _ _ _ _ _ _ id He) as [E0 Hopen]. rewrite E0 in Hc.
    enough (log_count "job-claim" id ls ≤ is_open id r) by lia.
    assert (0 ≤ is_open id r) by (unfold is_open; case_decide; lia).
    destruct taken.
    + destruct Hlog as (_ & _ & _ & Ha). destruct ls as [|lg [|? ?]]; try done.
      unfold log_count. simpl. unfold log_is. case_decide as E; [|lia]. destruct E as [_ E].
      rewrite (Hids lg) in E by left. rewrite (Hopen eq_refl E). lia.
    + rewrite log_count_none; [lia|]. by destruct Hlog as (_ & ? & _).
  - intros lg Hin. rewrite (Forall2_rewritten_ids _ _ _ Hrw) in Hlg.
    destruct (Hlg lg Hin) as [[?|Hl]%elem_of_app|?]; [by left| |by right].
    right. rewrite (Hids lg Hl). apply list_elem_of_fmap. exists r.
    split; [done|by eapply list_elem_of_lookup_2].
Qed.

Lemma claim_mutate_step a now q l w l' claimed logs ch w' :
  ledger_ok l → claim_mutate a now q l w = (Ok (l', claimed, logs, ch), w') →
  job_step now l l' logs.
Proof.
  intros Hok H. unfold claim_mutate in H.
  apply M_bind_Ok in H as ([[[rs cl] ls] c'] & w1 & Hrun & H). apply M_ret_Ok in H as [H <-]. simplify_eq.
  apply claim_loop_steps in Hrun as (H2 & Hc & Hlg); [|apply Forall_forall; exact (lo_reservations _ Hok)].
  constructor.
  - by exists rs.
  - intros id. specialize (Hc id). simpl. unfold log_count at 2 in Hc. simpl in Hc.
    pose proof (log_count_nonneg "job-retry" id logs). lia.
  - intros lg Hin. by destruct (Hlg lg Hin) as [?%not_elem_of_nil|].
Qed.

(** Break the successful run of a transaction on one owned job. *)
Ltac run_owned :=
  match goal with
  | H : match owned_job ?a ?id ?l with _ => _ end _ = (Ok _, _) |- _ =>
      let r := fresh "r" in let j := fresh "j" in let Ho := fresh "Ho" in
      destruct (owned_job a id l) as [[r j]|] eqn:Ho;
      [|unfold unchanged in H; inv_M; simplify_eq]
  end.

Lemma mark_running_step now a id token pid l w l' b logs ch w' :
  mark_running_mutate a id token pid l w = (Ok (l', b, logs, ch), w') → job_step now l l' logs.
Proof.
  unfold mark_running_mutate, unchanged, utc_now. intros H. run_owned; [|apply job_step_refl].
  destruct (_ || _); inv_M; simplify_eq; [apply job_step_refl|].
  inv_log.
  eapply job_step_store; [done| | |by destruct (owned_job_Some _ _ _ _ _ Ho) as (_ & _ & _ & <-)].
  - by job_lookup.
  - by rewrite Ha.
Qed.

Lemma mark_launch_failure_step now a id token m l w l' x logs ch w' :
  mark_launch_failure_mutate a id token m l w = (Ok (l', x, logs, ch), w') → job_step now l l' logs.
Proof.
  unfold mark_launch_failure_mutate, unchanged, utc_now. intros H. run_owned; [|apply job_step_refl].
  destruct (negb _); inv_M; simplify_eq; [apply job_step_refl|].
  inv_log.
  eapply job_step_store; [done| | |by destruct (owned_job_Some _ _ _ _ _ Ho) as (_ & _ & _ & <-)].
  - by job_lookup.
  - by rewrite Ha.
Qed.

Lemma aborted_not_pending now r : (aborted_state now r).1 ≠ JOB_PENDING.
Proof. unfold aborted_state. by repeat case_match. Qed.

Lemma mark_aborted_step now a id token l w l' x logs ch w' :
  mark_aborted_mutate a id token l w = (Ok (l', x, logs, ch), w') → job_step now l l' logs.
Proof.
  unfold mark_aborted_mutate, unchanged, utc_now. intros H. run_owned; [|apply job_step_refl].
  destruct (negb _); inv_M; [simplify_eq; apply job_step_refl|].
  match type of H with context [aborted_state ?t r] =>
    pose proof (aborted_not_pending t r) as Hn; destruct (aborted_state t r) as [status m] eqn:Es end.
  inv_M. simplify_eq. simpl in Hn.
  inv_log.
  eapply job_step_store; [done| | |by destruct (owned_job_Some _ _ _ _ _ Ho) as (_ & _ & _ & <-)].
  - job_lookup. congruence.
  - rewrite Ha. by unfold aborted_state in Es; repeat case_match; simplify_eq.
Qed.

(** The statuses a completion can record. *)
Definition finished_statuses : list string :=
  [JOB_CANCELLED; JOB_TIMED_OUT; JOB_INTERRUPTED; JOB_SUCCEEDED; JOB_FAILED].

Lemma completion_finished exit_code reason : _completion_status exit_code reason ∈ finished_statuses.
Proof. unfold _completion_status. repeat case_match; by in_list. Qed.

Lemma finished_not_pending s : s ∈ finished_statuses → s ≠ JOB_PENDING ∧ "job-" +:+ s ≠ "job-claim".
Proof.
  unfold finished_statuses. rewrite !elem_of_cons.
  by intros [->|[->|[->|[->|[->|?%not_elem_of_nil]]]]].
Qed.

Lemma completed_status now status e lw re rot j :
  job_status (completed_job now status e lw re rot j) = Some status.
Proof. unfold completed_job. destruct (negb _), (some_text lw), (some_text re); by job_lookup. Qed.

Lemma complete_step now a item status e lw rot l w l' x logs ch w' :
  status ∈ finished_statuses →
  complete_mutate a item status e lw rot l w = (Ok (l', x, logs, ch), w') → job_step now l l' logs.
Proof.
  intros [Hs Hact]%finished_not_pending H. unfold complete_mutate, unchanged, utc_now in H.
  run_owned; [|apply job_step_refl]. destruct (negb _); inv_M; simplify_eq; [apply job_step_refl|].
  inv_log.
  eapply job_step_store; [done| | |by destruct (owned_job_Some _ _ _ _ _ Ho) as (_ & _ & _ & <-)].
  - rewrite completed_status. congruence.
  - by rewrite Ha.
Qed.

Lemma retry_step now a id accept l w l' x logs ch w' :
  retry_mutate a id accept l w = (Ok (l', x, logs, ch), w') → job_step now l l' logs.
Proof.
  unfold retry_mutate, utc_now. destruct (find_first id (l_reservations l)) as [r|] eqn:Hf; [|done].
  destruct (negb (r_uid r =? a_uid a)); [done|]. destruct (r_job r) as [j|] eqn:Hj; [|done].
  destruct (_ && _); [done|]. intros H. apply M_bind_Ok in H as (b & w1 & Hb & H).
  destruct (negb b); [done|]. apply M_bind_Ok in H as (t & w2 & Ht & H).
  destruct (_ || _); [done|]. inv_M. simplify_eq.
  inv_log.
  pose proof (find_first_Some _ _ _ Hf) as [Hin Hr]. simpl in Hi. unfold store_job. rewrite Hr.
  constructor.
  - by eapply worked_update; [|eapply rewritten_put].
  - intros id'. rewrite (log_count_none "job-claim");
      [|csimpl; rewrite Ha; by intros ?%list_elem_of_singleton].
    unfold log_count, open_count. simpl. clear Hin.
    assert (Hup : is_open id' (put_job t (retried_job j) r) ≤ log_is "job-retry" id' log).
    { unfold is_open, log_is. rewrite Ha, Hi. simpl. repeat case_decide; naive_solver lia. }
    assert (0 ≤ is_open id' r) by (unfold is_open; case_decide; lia).
    revert Hf. induction (l_reservations l) as [|y rs IH]; simpl; [done|].
    case_bool_decide; intros; simplify_eq; simpl; [lia|specialize (IH ltac:(done)); lia].
  - intros lg ->%list_elem_of_singleton. rewrite Hi. apply list_elem_of_fmap. by exists r.
Qed.

(** A loop over the reservations whose rounds open no job. *)
Lemma each_reservation_step {B} now f l rs out logs ch w w' :
  (∀ r w r' log (b : B) w', f r w = (Ok (Some (r', log, b)), w') →
     rewritten now r r' ∧ (∀ id, is_open id r' ≤ is_open id r) ∧
     lg_action log ≠ "job-claim" ∧ lg_reservation_id log = r_id r) →
  each_reservation f (l_reservations l) w = (Ok (rs, out, logs, ch), w') →
  job_step now l (set_reservations rs l) logs.
Proof.
  intros Hf Hrun.
  assert (H : Forall2 (rewritten now) (l_reservations l) rs ∧
    (∀ id, open_count id rs ≤ open_count id (l_reservations l)) ∧
    (∀ lg, lg ∈ logs → lg_action lg ≠ "job-claim" ∧
       lg_reservation_id lg ∈ (r_id <$> l_reservations l))).
  { revert rs out logs ch w w' Hrun. induction (l_reservations l) as [|r rs0 IH];
      intros rs out logs ch w w' Hrun; simpl in Hrun.
    { apply M_ret_Ok in Hrun as [E _]. simplify_eq. split; [done|]. split; [done|].
      by intros ? ?%not_elem_of_nil. }
    apply M_bind_Ok in Hrun as (step & w1 & Hstep & Hrun).
    apply M_bind_Ok in Hrun as ([[[rs1 out1] logs1] ch1] & w2 & Hrest & Hrun).
    destruct (IH _ _ _ _ _ _ Hrest) as (H2 & Ho & Hl). csimpl.
    destruct step as [[[r' log] b]|]; apply M_ret_Ok in Hrun as [E _]; simplify_eq.
    - destruct (Hf _ _ _ _ _ _ Hstep) as (Hr & Hop & Ha & Hi). split; [by constructor|]. split.
      + intros id. specialize (Ho id). specialize (Hop id). unfold open_count in *. simpl. lia.
      + intros lg [->|Hin]%elem_of_cons; [split; [done|rewrite Hi; left]|].
        destruct (Hl lg Hin). split; [done|by right].
    - split; [constructor; [reflexivity|done]|]. split.
      + intros id. specialize (Ho id). unfold open_count in *. simpl. lia.
      + intros lg Hin. destruct (Hl lg Hin). split; [done|by right]. }
  destruct H as (H2 & Ho & Hl). constructor.
  - by exists rs.
  - intros id. simpl. rewrite (log_count_none "job-claim").
    + specialize (Ho id). pose proof (log_count_nonneg "job-retry" id logs). lia.
    + intros (lg & E & Hin)%list_elem_of_fmap. by destruct (Hl lg Hin).
  - intros lg Hin. by destruct (Hl lg Hin).
Qed.

Lemma guard_one_step a decisions now t r w r' log (b : string) w' :
  guard_one a decisions t r w = (Ok (Some (r', log, b)), w') →
  rewritten now r r' ∧ (∀ id, is_open id r' ≤ is_open id r) ∧
  lg_action log ≠ "job-claim" ∧ lg_reservation_id log = r_id r.
Proof.
  unfold guard_one. destruct (decisions (r_id r)) as [n|]; [|done].
  destruct (negb (r_uid r =? a_uid a)); [done|]. destruct (r_job r) as [j|] eqn:Hj; [|done].
  destruct (bool_decide (job_status j = Some JOB_PENDING)) eqn:Hp; simpl; [|done]. bk_split.
  assert (Hop : ∀ j' id, is_open id (put_job t j' r) ≤ is_open id r).
  { intros j' id. unfold is_open. simpl. rewrite Hj. simpl. rewrite Hp.
    repeat case_decide; try lia. tauto. }
  destruct (gn_ready n).
  - destruct (negb _); [done|]. intros H. inv_M. simplify_eq.
    inv_log.
    rewrite Ha. split_and!; try done. by eapply rewritten_put.
  - destruct (_ && _); [done|]. intros H. inv_M. simplify_eq.
    inv_log.
    rewrite Ha. split_and!; try done. by eapply rewritten_put.
Qed.

Lemma record_guard_step a decisions now t l w l' out logs ch w' :
  record_guard_mutate a decisions t l w = (Ok (l', out, logs, ch), w') → job_step now l l' logs.
Proof.
  unfold record_guard_mutate. intros H.
  apply M_bind_Ok in H as ([[[rs o] ls] c] & w1 & Hrun & H). apply M_ret_Ok in H as [H _]. simplify_eq.
  eapply each_reservation_step; [|exact Hrun]. intros. by eapply guard_one_step.
Qed.

(** ** What claiming does *)

(** [i] comes after [k] in the order of the loop. *)
Definition before (order : list nat) (k i : nat) : Prop :=
  ∃ pre post, order = pre ++ i :: post ∧ k ∈ pre.

(** The positions [ks] whose records the loop claims, and what it leaves. *)
Record claim_run (a : actor) (now : datetime) (q : claim_request) (order : list nat)
    (rs : list reservation) (taken : Z) (w : world) (rs' new : list reservation) (ks : list nat)
    (w' : world) : Prop := ClaimRun {
  cl_ks : ks `sublist_of` order;
  cl_new : Forall2 (λ i x, rs' !! i = Some x) ks new;
  cl_other i : i ∉ order → rs' !! i = rs !! i;
  cl_effect i r : i ∈ order → rs !! i = Some r →
    (rs' !! i = Some r ∧ i ∉ ks ∧
     (claimable a now q r → q_limit q ≤ taken + Z.of_nat (length new) ∧ ∀ k, k ∈ ks → before order k i)) ∨
    ∃ r' b, rs' !! i = Some r' ∧ claim_effect a now q r r' b ∧ (b = true ↔ i ∈ ks) ∧
            (b = false → ¬ claimable a now q r);
  cl_tokens : token_of <$> new = (λ n, Some (w_uuid w n)) <$> seq (w_draws w) (length new);
  cl_draws : w_draws w' = (w_draws w + length new)%nat;
  cl_limit : taken + Z.of_nat (length new) ≤ Z.max (q_limit q) taken;
}.

Lemma claim_loop_run a now q order rs claimed logs ch w rs' claimed' logs' ch' w' :
  NoDup order →
  claim_loop a now q order rs claimed logs ch w = (Ok (rs', claimed', logs', ch'), w') →
  later w w' ∧ ∃ new ks, claimed' = claimed ++ new ∧
    claim_run a now q order rs (Z.of_nat (length claimed)) w rs' new ks w'.
Proof.
  revert rs claimed logs ch w. induction order as [|i order IH]; intros rs claimed logs ch w Hd H; simpl in H.
  { apply M_ret_Ok in H as [H ->]. simplify_eq. split; [done|]. exists [], []. rewrite app_nil_r.
    split; [done|]. constructor; simpl; try done; try lia; by intros ? ? ?%not_elem_of_nil. }
  apply NoDup_cons in Hd as [Hi Hd].
  assert (Hskip : ∀ w1, later w w1 → w_draws w1 = w_draws w →
    (∀ r, rs !! i = Some r → claimable a now q r → q_limit q ≤ Z.of_nat (length claimed)) →
    claim_loop a now q order rs claimed logs ch w1 = (Ok (rs', claimed', logs', ch'), w') →
    later w w' ∧ ∃ new ks, claimed' = claimed ++ new ∧
      claim_run a now q (i :: order) rs (Z.of_nat (length claimed)) w rs' new ks w').
  { intros w1 Hl1 Hd1 Hno Hrun. destruct (IH _ _ _ _ _ Hd Hrun) as (Hl & new & ks & -> & [K N O E T D L]).
    split; [by etrans|]. exists new, ks. split; [done|]. pose proof Hl1 as (_ & Hu & _).
    rewrite Hd1, ?Hu in T. rewrite Hd1 in D.
    constructor; [by apply sublist_cons|done| | |done|done|done].
    - intros k [_ Hk]%not_elem_of_cons. by apply O.
    - intros k r [->|Hk]%elem_of_cons Hr.
      + left. rewrite O by done. split; [done|].
        assert (Hnk : i ∉ ks) by (intros ?; apply Hi; by eapply elem_of_sublist).
        split; [done|]. intros Hc. specialize (Hno r Hr Hc). split; [lia|].
        destruct new as [|x new]; [|simpl in L; lia]. apply Forall2_nil_inv_r in N as ->.
        by intros ? ?%not_elem_of_nil.
      + destruct (E k r Hk Hr) as [(? & ? & Hc)|?]; [left|by right].
        split_and!; [done..|]. intros [? Hb]%Hc. split; [done|]. intros k' Hk'.
        destruct (Hb k' Hk') as (pre & post & -> & ?). exists (i :: pre), post. split; [done|by right]. }
  destruct (rs !! i) as [r|] eqn:Hri; [|by eapply Hskip].
  apply M_bind_Ok in H as (step & w1 & Hone & H). apply claim_one_run in Hone as [Hl1 Hone].
  destruct step as [[[r' ls] taken]|].
  2:{ destruct Hone as [-> Hno]. apply (Hskip w); [done..|by intros ? [= <-]|done]. }
  destruct Hone as (He & _ & Hone). assert (Hlt : (i < length rs)%nat) by by eapply lookup_lt_Some.
  destruct taken.
  - destruct Hone as (Hlim & Ht & Hdr & _).
    destruct (IH _ _ _ _ _ Hd H) as (Hl & new & ks & -> & [K N O E T D L]).
    rewrite length_app in E, L. simpl in E, L. pose proof Hl1 as (_ & Hu & _).
    rewrite Hdr, ?Hu in T. rewrite Hdr in D.
    split; [by etrans|]. exists (r' :: new), (i :: ks). split; [by rewrite <- app_assoc|].
    assert (Hri' : rs' !! i = Some r') by (rewrite O by done; by rewrite list_lookup_insert_eq).
    constructor; simpl; [by apply sublist_skip|by constructor| | | |lia|lia].
    + intros k [Hne Hk]%not_elem_of_cons. rewrite O by done. by rewrite list_lookup_insert_ne.
    + intros k x [->|Hk]%elem_of_cons Hx.
      * simplify_eq. right. exists r', true. split_and!; try done. split; [left|done].
      * assert (k ≠ i) by (by intros ->).
        destruct (E k x Hk) as [(? & Hn & Hc)|(r1 & b & ? & ? & Hb & ?)];
          [by rewrite list_lookup_insert_ne|left|right].
        -- split; [done|]. split; [by apply not_elem_of_cons|]. intros [? Hb]%Hc. split; [lia|].
           intros k' [->|Hk']%elem_of_cons.
           ++ destruct (list_elem_of_split _ _ Hk) as (pre & post & ->).
              exists (i :: pre), post. split; [done|left].
           ++ destruct (Hb k' Hk') as (pre & post & -> & ?). exists (i :: pre), post.
              split; [done|by right].
        -- exists r1, b. split_and!; try done. rewrite elem_of_cons. naive_solver.
    + f_equal; [exact Ht|exact T].
  - destruct Hone as (Hdr & _ & Hno).
    destruct (IH _ _ _ _ _ Hd H) as (Hl & new & ks & -> & [K N O E T D L]).
    pose proof Hl1 as (_ & Hu & _). rewrite Hdr, ?Hu in T. rewrite Hdr in D.
    split; [by etrans|]. exists new, ks. split; [done|].
    constructor; [by apply sublist_cons|done| | |done|done|done].
    + intros k [Hne Hk]%not_elem_of_cons. rewrite O by done. by rewrite list_lookup_insert_ne.
    + intros k x [->|Hk]%elem_of_cons Hx.
      * simplify_eq. right. exists r', false. rewrite O by done. rewrite list_lookup_insert_eq by done.
        split_and!; try done. split; [done|]. intros Hk. destruct Hi. by eapply elem_of_sublist.
      * assert (k ≠ i) by (by intros ->).
        destruct (E k x Hk) as [(? & Hn & Hc)|?]; [by rewrite list_lookup_insert_ne|left|by right].
        split_and!; [done..|]. intros [? Hb]%Hc. split; [done|]. intros k' Hk'.
        destruct (Hb k' Hk') as (pre & post & -> & ?). exists (i :: pre), post. split; [done|by right].
Qed.

Lemma claim_leb_total x y : claim_leb x y = true ∨ claim_leb y x = true.
Proof.
  unfold claim_leb. rewrite (bool_decide_ext (to_iso (r_start_at y) = _) (to_iso (r_start_at x) = to_iso (r_start_at y))) by done.
  case_bool_decide; apply String.leb_total.
Qed.

Lemma claim_leb_trans x y z : claim_leb x y = true → claim_leb y z = true → claim_leb x z = true.
Proof.
  unfold claim_leb. case_bool_decide as Exy; case_bool_decide as Eyz; case_bool_decide as Exz;
    try congruence; try apply string_leb_trans.
  intros H1 H2. rewrite Exz in H1. destruct Exy. rewrite Exz. by apply String.leb_antisym.
Qed.

Lemma elem_of_imap_pair (rs : list reservation) i r : (i, r) ∈ imap pair rs ↔ rs !! i = Some r.
Proof.
  rewrite elem_of_lookup_imap. split; [by intros (k & x & [= <- <-] & ?)|]. intros. by exists i, r.
Qed.

Lemma imap_pair_fst (rs : list reservation) : (imap pair rs).*1 = seq 0 (length rs).
Proof.
  rewrite fmap_imap. apply list_eq. intros i. rewrite list_lookup_imap.
  destruct (decide (i < length rs)%nat).
  - rewrite lookup_seq_lt by done. by destruct (lookup_lt_is_Some_2 rs i) as [x ->].
  - rewrite lookup_ge_None_2, lookup_seq_ge by lia. done.
Qed.

Lemma claim_order_perm rs : claim_order rs ≡ₚ seq 0 (length rs).
Proof. unfold claim_order. by rewrite sort_by_perm, imap_pair_fst. Qed.

Lemma NoDup_claim_order rs : NoDup (claim_order rs).
Proof. rewrite claim_order_perm. apply NoDup_seq. Qed.

Lemma elem_of_claim_order rs i : i ∈ claim_order rs ↔ (i < length rs)%nat.
Proof. rewrite claim_order_perm, elem_of_seq. lia. Qed.

(** The loop visits the records in the order of their keys. *)
Lemma claim_order_sorted rs :
  StronglySorted (λ i k, ∀ x y, rs !! i = Some x → rs !! k = Some y → claim_leb x y = true)
    (claim_order rs).
Proof.
  unfold claim_order. apply StronglySorted_fmap.
  assert (H : StronglySorted (λ x y : nat * reservation, claim_leb x.2 y.2 = true)
    (sort_by (λ x y, claim_leb x.2 y.2) (imap pair rs))).
  { apply sort_by_sorted; intros *; [apply claim_leb_total|apply claim_leb_trans]. }
  assert (Hin : ∀ x, x ∈ sort_by (λ x y : nat * reservation, claim_leb x.2 y.2) (imap pair rs) →
    rs !! x.1 = Some x.2).
  { intros [i r]. rewrite elem_of_sort_by. apply elem_of_imap_pair. }
  induction H as [|x xs _ IH Hx]; constructor.
  - apply IH. intros y Hy. apply Hin. by right.
  - rewrite Forall_forall in Hx |- *. intros y Hy u v Hu Hv.
    rewrite (Hin x) in Hu by left. rewrite (Hin y) in Hv by by right. simplify_eq. by apply Hx.
Qed.

Lemma before_sorted {A} (R : A → A → Prop) order (f : nat → option A) k i x y :
  StronglySorted (λ i k, ∀ x y, f i = Some x → f k = Some y → R x y) order → before order k i →
  f k = Some x → f i = Some y → R x y.
Proof.
  intros Hs (pre & post & -> & Hk) Hx Hy.
  induction pre as [|p pre IH]; simpl in *; [by apply not_elem_of_nil in Hk|].
  apply StronglySorted_inv in Hs as [Hs Hp]. apply elem_of_cons in Hk as [->|Hk]; [|by apply IH].
  rewrite Forall_forall in Hp. apply (Hp i); [|done..]. apply elem_of_app. right. left.
Qed.

Lemma claim_leb_claim q now tk j tk' j' x y :
  claim_leb (claim q now tk j x) (claim q now tk' j' y) = claim_leb x y ∧
  claim_leb (claim q now tk j x) y = claim_leb x y.
Proof. done. Qed.

Lemma effect_key a now q r r' b :
  claim_effect a now q r r' b → r_start_at r' = r_start_at r ∧ r_id r' = r_id r.
Proof. by destruct 1. Qed.

(** C22: one round of claiming. Every claimed record was the worker's own, active,
    pending, inside its window and passed by the launch guard, and is written
    with a token that was just drawn, so no two claims share one. At most [limit]
    jobs are claimed, the earliest starts first; a claimable job is left only when
    the limit is reached, and then everything claimed comes before it. *)
Theorem claim_due_jobs_spec a now q l w l' claimed logs ch w' :
  0 ≤ q_limit q → claim_mutate a now q l w = (Ok (l', claimed, logs, ch), w') →
  (∀ x, x ∈ claimed → x ∈ l_reservations l' ∧
     ∃ r j token, r ∈ l_reservations l ∧ claimable a now q r ∧ r_job r = Some j ∧
       x = claim q now token j r) ∧
  token_of <$> claimed = (λ n, Some (w_uuid w n)) <$> seq (w_draws w) (length claimed) ∧
  Z.of_nat (length claimed) ≤ q_limit q ∧
  StronglySorted (λ x y, claim_leb x y = true) claimed ∧
  (∀ r, r ∈ l_reservations l → claimable a now q r →
     (∃ j token, r_job r = Some j ∧ claim q now token j r ∈ claimed) ∨
     (r ∈ l_reservations l' ∧ Z.of_nat (length claimed) = q_limit q ∧
      ∀ x, x ∈ claimed → claim_leb x r = true)).
Proof.
  intros Hlim H. unfold claim_mutate in H.
  apply M_bind_Ok in H as ([[[rs cl] ls] c'] & w1 & Hrun & H). apply M_ret_Ok in H as [H <-]. simplify_eq.
  apply claim_loop_run in Hrun as (_ & new & ks & -> & [K N O E T D L]); [|apply NoDup_claim_order].
  simpl in *. set (rs0 := l_reservations l) in *.
  assert (Hin : ∀ i r, rs0 !! i = Some r → i ∈ claim_order rs0).
  { intros i r Hr. apply elem_of_claim_order. by eapply lookup_lt_Some. }
  assert (Hnew : ∀ i x, i ∈ ks → rs !! i = Some x → ∃ r j token, rs0 !! i = Some r ∧
    claimable a now q r ∧ r_job r = Some j ∧ x = claim q now token j r).
  { intros i x Hi Hx. assert (Ho : i ∈ claim_order rs0) by by eapply elem_of_sublist.
    pose proof Ho as Hlen. apply elem_of_claim_order in Hlen.
    destruct (lookup_lt_is_Some_2 rs0 i Hlen) as [r Hr].
    destruct (E i r Ho Hr) as [(_ & ? & _)|(r' & b & Hr' & He & Hb & _)]; [done|].
    rewrite Hr' in Hx. injection Hx as ->. apply Hb in Hi as ->.
    inversion He; subst. by eauto 10. }
  assert (Hof : ∀ x, x ∈ new → ∃ i, i ∈ ks ∧ rs !! i = Some x).
  { intros x [k Hk]%list_elem_of_lookup. destruct (Forall2_lookup_r _ _ _ _ _ N Hk) as (i & Hi & Hx).
    exists i. split; [by eapply list_elem_of_lookup_2|done]. }
  split_and!.
  - intros x (i & Hi & Hx)%Hof. split; [by eapply list_elem_of_lookup_2|].
    destruct (Hnew i x Hi Hx) as (r & j & token & Hr & ?). exists r, j, token.
    split; [by eapply list_elem_of_lookup_2|done].
  - done.
  - lia.
  - eapply StronglySorted_Forall2; [|exact N]. eapply StronglySorted_sublist; [exact K|].
    pose proof (claim_order_sorted rs0) as Hs.
    assert (Hk : ∀ i x, i ∈ claim_order rs0 → rs !! i = Some x → ∃ r, rs0 !! i = Some r ∧
      r_start_at x = r_start_at r ∧ r_id x = r_id r).
    { intros i x Ho Hx. pose proof Ho as Hlen. apply elem_of_claim_order in Hlen.
      destruct (lookup_lt_is_Some_2 rs0 i Hlen) as [r Hr]. exists r. split; [done|].
      destruct (E i r Ho Hr) as [(Hr' & _)|(r' & b & Hr' & He & _)]; [by simplify_eq|].
      rewrite Hr' in Hx. injection Hx as ->. by eapply effect_key. }
    eapply StronglySorted_weaken; [|exact Hs]. simpl. intros i k Hi Hk' HR x y Hx Hy.
    destruct (Hk i x Hi Hx) as (r1 & Hr1 & E1 & E2). destruct (Hk k y Hk' Hy) as (r2 & Hr2 & E3 & E4).
    specialize (HR _ _ Hr1 Hr2). unfold claim_leb in *. by rewrite E1, E2, E3, E4.
  - intros r [i Hr]%list_elem_of_lookup Hc.
    destruct (E i r (Hin i r Hr) Hr) as [(Hr' & Hn & Hleft)|(r' & b & Hr' & He & Hb & Hno)].
    + right. destruct (Hleft Hc) as [Hl Hb]. split; [by eapply list_elem_of_lookup_2|].
      split; [lia|]. intros x (k & Hk & Hx)%Hof.
      destruct (Hnew k x Hk Hx) as (r0 & j & token & Hr0 & _ & _ & ->).
      change (claim_leb r0 r = true).
      by eapply (before_sorted (λ x y, claim_leb x y = true) _ (λ i, rs0 !! i));
        [apply claim_order_sorted|apply Hb|..].
    + left. destruct b; [|by destruct Hno]. assert (Hi : i ∈ ks) by by apply Hb.
      inversion He as [| | |j token _ Hj]; subst. exists j, token. split; [done|].
      apply list_elem_of_lookup in Hi as [k Hk].
      destruct (Forall2_lookup_l _ _ _ _ _ N Hk) as (x & Hx & Hrx). rewrite Hr' in Hrx.
      injection Hrx as <-. by eapply list_elem_of_lookup_2.
Qed.
