(* ===== verification/JobRecovery.v ===== *)
(** * JobRecovery: jobs whose worker disappeared ([src/src/bk/job_recovery.py])

    A worker that starts looks for jobs that an earlier worker of the same user
    left claimed or running. Such a job is never started again: it is recorded as
    uncertain, and the process groups that carry the reservation's marker are
    terminated. This file has the discovery of process groups, the decision for
    each job and the two transactions; RecoverJobs runs them. *)

From S2P Require Import Prelude PyBase Json Granularity Timeparse Models Sharing Config Policy.
From S2P Require Import ScheduleIndex Availability Placement Search Sha256 Requests.
From S2P Require Import Maintenance Safety Jobs.

Definition RECOVERABLE_STATES : list string := [JOB_CLAIMED; JOB_RUNNING].

Definition RETRYABLE_RECOVERY_STATES : list string :=
  ["terminating"; "remote-unverified"; "unverified"; "termination-unverified"; "legacy-remote";
   "legacy-unverified"; "legacy-not-found"].

Record process_group := ManagedProcessGroup {
  pg_pgid : Z;
  pg_member_pid : Z;
  pg_member_start_id : string;
}.

Record process_discovery := ProcessDiscovery {
  pd_available : bool;
  pd_groups : list process_group;
  pd_warning : option string;
}.

Definition no_discovery : process_discovery := ProcessDiscovery false [] None.

(** ** Discovery of process groups *)

(** What the calls on one entry of [/proc] return: a failed call, whose
    [OSError] or [ValueError] skips the entry, is [None]. *)
Record proc_entry := ProcEntry {
  pe_name : string;
  pe_stat : option (Z * Z * Z);
  pe_stat_text : option string;
  pe_environ : option (list ascii);
}.

(** The process group in a line of [/proc/<pid>/stat], [None] for its [ValueError]. *)
Definition _proc_process_group (raw_stat : string) : option Z :=
  rest ← after_last ")" (chars raw_stat);
  field ← words (text rest) !! 2%nat;
  py_int field.

(** [data.split(b"\0")] after the characters [seen] of the current part. *)
Fixpoint split_zero (seen l : list ascii) : list (list ascii) :=
  match l with
  | [] => [rev seen]
  | c :: l => if (code c =? 0)%N then rev seen :: split_zero [] l else split_zero (c :: seen) l
  end.

Definition marker (reservation_id : string) : list ascii :=
  utf8_encode (chars ("BK_RESERVATION_ID=" +:+ reservation_id)).

(** The process group of an entry, when it is the user's, marked and not our own. *)
Definition entry_group (reservation_id : string) (uid current_group : Z) (e : proc_entry)
    : option process_group :=
  if negb (forallb is_digit (chars (pe_name e))) || bool_decide (pe_name e = "") then None else
  '(owner, ino, ctime_ns) ← pe_stat e;
  if negb (owner =? uid) then None else
  raw ← pe_stat_text e;
  pgid ← _proc_process_group raw;
  if (pgid <=? 1) || (pgid =? current_group) then None else
  environ ← pe_environ e;
  if negb (bool_decide (marker reservation_id ∈ split_zero [] environ)) then None else
  Some (ManagedProcessGroup pgid (digits_value (chars (pe_name e)))
          (str_of_Z ino +:+ ":" +:+ str_of_Z ctime_ns)).

(** Of each group the member with the least process id stands for it. *)
Definition add_group (groups : gmap Z process_group) (candidate : process_group)
    : gmap Z process_group :=
  match groups !! pg_pgid candidate with
  | None => <[pg_pgid candidate := candidate]> groups
  | Some previous =>
      if pg_member_pid candidate <? pg_member_pid previous
      then <[pg_pgid candidate := candidate]> groups else groups
  end.

(** [tuple(groups[key] for key in sorted(groups))] *)
Definition groups_sorted (groups : gmap Z process_group) : list process_group :=
  omap (λ k, groups !! k) (sorted_set (map_to_list groups).*1).

(** [None] when [/proc] is no directory, an error text when it cannot be listed. *)
Definition discover_managed_process_groups (reservation_id : string) (uid current_group : Z)
    (proc : option (list proc_entry + string)) : process_discovery :=
  match proc with
  | None => ProcessDiscovery false [] (Some "Linux /proc process discovery is unavailable")
  | Some (inr error) => ProcessDiscovery false [] (Some ("cannot scan /proc: " +:+ error))
  | Some (inl entries) =>
      ProcessDiscovery true
        (groups_sorted (foldl add_group ∅ (omap (entry_group reservation_id uid current_group) entries)))
        None
  end.

(** ** Candidates *)

Definition _owned_by (r : reservation) (uid : Z) : bool := r_uid r =? uid.

(** A stored end is a valid timestamp. *)
Definition _safe_end_at (r : reservation) : option datetime := Some (r_end_at r).

(** [str(job.get(key) or "")] *)
Definition job_field (key : string) (j : job) : string :=
  if job_falsy key j then "" else match j !! key with Some v => str_value v | None => "" end.

Definition is_candidate (a : actor) (r : reservation) : res bool :=
  if negb (_owned_by r (a_uid a)) then Ok false else
  match r_job r with
  | None => Ok false
  | Some j =>
      active ← status_in j RECOVERABLE_STATES;
      if (active : bool) then Ok true
      else if bool_decide (job_status j = Some JOB_UNCERTAIN)
      then member_in "recovery_state" j RETRYABLE_RECOVERY_STATES
      else Ok false
  end.

Fixpoint filter_res {A} (f : A → res bool) (l : list A) : res (list A) :=
  match l with
  | [] => Ok []
  | x :: l => keep ← f x; rest ← filter_res f l; Ok (if (keep : bool) then x :: rest else rest)
  end.

Definition _recovery_candidates (l : ledger) (a : actor) : res (list reservation) :=
  filter_res (is_candidate a) (l_reservations l).

(** A job of a worker without a lease that may still be running. *)
Definition is_active_legacy (a : actor) (current : datetime) (r : reservation) : res bool :=
  if negb (_owned_by r (a_uid a)) then Ok false else
  match r_job r with
  | None => Ok false
  | Some j =>
      active ← status_in j RECOVERABLE_STATES;
      if negb active || negb (job_falsy "worker_lease_id" j) then Ok false
      else match _safe_end_at r with
           | None => Ok true
           | Some end_at => Ok (current <? end_at)
           end
  end.

Definition active_legacy_job_count (l : ledger) (a : actor) (now : datetime) : res Z :=
  jobs ← filter_res (is_active_legacy a now) (l_reservations l); Ok (Z.of_nat (length jobs)).

(** ** The two transactions *)

Record recovery_decision := RecoveryDecision {
  rd_state : string;
  rd_discovery : process_discovery;
  rd_message : string;
}.

Definition _recovery_log (a : actor) (r : reservation) (state message : string) : M log_item :=
  ts ← clock_now;
  mret (LogItem ts (a_uid a) (a_username a) "job-recovery" (r_id r) (r_op_id r) (r_gpus r)
          (r_mode r) None (r_start_at r) (r_end_at r) JOB_UNCERTAIN
          (clip 1000 (state +:+ ": " +:+ message)) None).

Definition uncertain_now (now : datetime) (worker_id : string) (d : recovery_decision) (j : job)
    : job :=
  job_set [("status", JStr JOB_UNCERTAIN); ("finished_at", JStr (to_iso now));
           ("message", JStr (rd_message d)); ("recovery_state", JStr (rd_state d));
           ("recovery_worker_id", JStr worker_id); ("recovered_at", JStr (to_iso now))] j.

(** An active reservation that has ended is marked expired on the way. *)
Definition expire_ended (now : datetime) (r : reservation) : reservation :=
  if (r_end_at r <=? now) && bool_decide (r_status r = STATUS_ACTIVE)
  then with_status STATUS_EXPIRED r else r.

(** The last component is the id when its groups are to be terminated. *)
Definition recover_one (a : actor) (now : datetime) (worker_id : string)
    (decisions : list (string * recovery_decision)) (r : reservation)
    : M (option (reservation * log_item * option string)) :=
  match assoc_get (r_id r) decisions with
  | None => mret None
  | Some d =>
      if negb (_owned_by r (a_uid a)) then mret None else
      match r_job r with
      | None => mret None
      | Some j =>
          open ← lift (status_in j [JOB_CLAIMED; JOB_RUNNING; JOB_UNCERTAIN]);
          if negb open then mret None
          else if bool_decide (job_text j "worker_lease_id" = Some worker_id) then mret None
          else
            let r := put_job now (uncertain_now now worker_id d j) (expire_ended now r) in
            log ← _recovery_log a r (rd_state d) (rd_message d);
            mret (Some (r, log, if bool_decide (rd_state d = "terminating")
                                then Some (r_id r) else None))
      end
  end.

Definition record_recovery_mutate (a : actor) (now : datetime) (worker_id : string)
    (decisions : list (string * recovery_decision)) (l : ledger) : M (mutation (list string)) :=
  '(rs, out, logs, changed) ←
    each_reservation (recover_one a now worker_id decisions) (l_reservations l);
  mret (set_reservations rs l, omap id out, logs, changed).

(** How the termination of a job's groups ended. *)
Definition finish_state (remaining signalled : list string) (id : string) : string * string :=
  if bool_decide (id ∈ remaining)
  then ("termination-unverified",
        "orphaned process group could not be confirmed stopped; do not retry automatically")
  else if negb (bool_decide (id ∈ signalled))
  then ("disappeared",
        "orphaned process group disappeared during recovery; prior completion remains uncertain")
  else ("terminated",
        "orphaned process group stopped after worker restart; prior completion remains uncertain").

Definition finish_one (a : actor) (now : datetime) (worker_id : string)
    (wanted remaining signalled : list string) (r : reservation)
    : M (option (reservation * log_item * unit)) :=
  if negb (bool_decide (r_id r ∈ wanted)) || negb (_owned_by r (a_uid a)) then mret None else
  match r_job r with
  | None => mret None
  | Some j =>
      if negb (bool_decide (job_status j = Some JOB_UNCERTAIN))
         || negb (bool_decide (job_text j "recovery_worker_id" = Some worker_id))
         || negb (bool_decide (job_text j "recovery_state" = Some "terminating"))
      then mret None
      else
        let '(state, message) := finish_state remaining signalled (r_id r) in
        let j := job_set [("recovery_state", JStr state); ("message", JStr message);
                          ("finished_at", JStr (to_iso now))] j in
        let r := put_job now j r in
        log ← _recovery_log a r state message;
        mret (Some (r, log, tt))
  end.

Definition finish_recovery_mutate (a : actor) (now : datetime) (worker_id : string)
    (wanted remaining signalled : list string) (l : ledger) : M (mutation unit) :=
  '(rs, _, logs, changed) ←
    each_reservation (finish_one a now worker_id wanted remaining signalled) (l_reservations l);
  mret (set_reservations rs l, tt, logs, changed).

(** ** The transactions only rewrite jobs, and open none *)

Lemma recovery_log_run a r s m w log w' :
  _recovery_log a r s m w = (Ok log, w') →
  lg_action log = "job-recovery" ∧ lg_reservation_id log = r_id r ∧ later w w'.
Proof.
  unfold _recovery_log. intros H. inv_M. apply clock_now_Ok in H0 as [_ ->].
  split_and!; try done. unfold later; simpl. split_and!; lia || done.
Qed.

Lemma forward_recovery_log a r s m : forward (_recovery_log a r s m).
Proof. unfold _recovery_log. apply forward_bind; [apply forward_clock|]. intros; apply forward_ret. Qed.

#[export] Hint Resolve forward_recovery_log : bk.

Lemma forward_record_recovery a now w ds l : forward (record_recovery_mutate a now w ds l).
Proof.
  apply forward_bind; [|forward_work]. apply forward_each. intros r.
  unfold recover_one. repeat first [apply forward_recovery_log | progress forward_work].
Qed.

Lemma forward_finish_recovery a now w wanted remaining sg l :
  forward (finish_recovery_mutate a now w wanted remaining sg l).
Proof.
  apply forward_bind; [|forward_work]. apply forward_each. intros r.
  unfold finish_one. repeat first [apply forward_recovery_log | progress forward_work].
Qed.

Lemma is_open_closed id r : (r_job r ≫= job_status) ≠ Some JOB_PENDING → is_open id r = 0.
Proof. intros H. unfold is_open. rewrite decide_False; tauto. Qed.

Lemma rewritten_expire now j j0 r :
  r_job r = Some j0 → rewritten now r (put_job now j (expire_ended now r)).
Proof.
  intros Hj. unfold expire_ended. destruct (_ && _) eqn:E; [|by eapply rewritten_put]. bk_split.
  exists STATUS_EXPIRED, (Some now), (Some j). rewrite Hj. split; [by destruct r|].
  split; [by right|]. by split; eauto.
Qed.

Lemma expire_ended_id now r : r_id (expire_ended now r) = r_id r.
Proof. unfold expire_ended. by destruct (_ && _). Qed.

Lemma recover_one_step a now worker_id decisions r w r' log b w' :
  recover_one a now worker_id decisions r w = (Ok (Some (r', log, b)), w') →
  rewritten now r r' ∧ (∀ id, is_open id r' ≤ is_open id r) ∧
  lg_action log ≠ "job-claim" ∧ lg_reservation_id log = r_id r.
Proof.
  unfold recover_one. destruct (assoc_get _ _) as [d|]; [|done].
  destruct (negb (_owned_by r (a_uid a))); [done|]. destruct (r_job r) as [j|] eqn:Hj; [|done].
  intros H. apply M_bind_Ok in H as (open & w1 & _ & H). destruct (negb open); [done|].
  destruct (bool_decide _); [done|]. inv_M. simplify_eq.
  match goal with E : _recovery_log _ _ _ _ _ = _ |- _ => apply recovery_log_run in E as (Ha & Hi & _) end.
  rewrite Ha, Hi. split; [by eapply rewritten_expire|]. split; [|split; [done|simpl; apply expire_ended_id]].
  intros id. rewrite is_open_closed; [apply is_open_nonneg|]. simpl. unfold uncertain_now. by job_lookup.
Qed.

Lemma finish_one_step a now worker_id wanted remaining signalled r w r' log (b : unit) w' :
  finish_one a now worker_id wanted remaining signalled r w = (Ok (Some (r', log, b)), w') →
  rewritten now r r' ∧ (∀ id, is_open id r' ≤ is_open id r) ∧
  lg_action log ≠ "job-claim" ∧ lg_reservation_id log = r_id r.
Proof.
  unfold finish_one. destruct (negb _ || _); [done|]. destruct (r_job r) as [j|] eqn:Hj; [|done].
  destruct (_ || _) eqn:Hs; [done|]. destruct (finish_state _ _ _) as [state message]. intros H. inv_M.
  simplify_eq. bk_split.
  match goal with E : _recovery_log _ _ _ _ _ = _ |- _ => apply recovery_log_run in E as (Ha & Hi & _) end.
  rewrite Ha, Hi. split; [by eapply rewritten_put|]. split; [|done].
  intros id. rewrite is_open_closed; [apply is_open_nonneg|]. simpl. job_lookup.
  match goal with E : job_status j = _ |- _ => unfold job_status in E; rewrite E end. done.
Qed.

Lemma record_recovery_step a now worker_id decisions l w l' out logs ch w' :
  record_recovery_mutate a now worker_id decisions l w = (Ok (l', out, logs, ch), w') →
  job_step now l l' logs.
Proof.
  unfold record_recovery_mutate. intros H.
  apply M_bind_Ok in H as ([[[rs o] ls] c] & w1 & Hrun & H). apply M_ret_Ok in H as [H _]. simplify_eq.
  eapply each_reservation_step; [|exact Hrun]. intros. by eapply recover_one_step.
Qed.

Lemma finish_recovery_step a now worker_id wanted remaining signalled l w l' out logs ch w' :
  finish_recovery_mutate a now worker_id wanted remaining signalled l w = (Ok (l', out, logs, ch), w') →
  job_step now l l' logs.
Proof.
  unfold finish_recovery_mutate. intros H.
  apply M_bind_Ok in H as ([[[rs o] ls] c] & w1 & Hrun & H). apply M_ret_Ok in H as [H _]. simplify_eq.
  eapply each_reservation_step; [|exact Hrun]. intros. by eapply finish_one_step.
Qed.

(** ** What discovery returns *)

Definition found (reservation_id : string) (uid current_group : Z) (entries : list proc_entry)
    (g : process_group) : Prop :=
  ∃ e, e ∈ entries ∧ entry_group reservation_id uid current_group e = Some g.

Lemma entry_group_Some id uid cur e g :
  entry_group id uid cur e = Some g →
  1 < pg_pgid g ∧ pg_pgid g ≠ cur ∧
  (∃ ino ctime, pe_stat e = Some (uid, ino, ctime)) ∧
  ∃ environ, pe_environ e = Some environ ∧ marker id ∈ split_zero [] environ.
Proof.
  unfold entry_group. destruct (_ || _); [done|]. intros E.
  apply bind_Some in E as ([[owner ino] ctime] & Hst & E).
  destruct (Z.eqb_spec owner uid) as [->|]; simpl in E; [|done].
  apply bind_Some in E as (raw & _ & E). apply bind_Some in E as (pgid & _ & E).
  destruct (_ || _) eqn:Hp; [done|]. apply bind_Some in E as (env & Henv & E).
  destruct (negb _) eqn:Hm; [done|]. simplify_eq. bk_split. simpl. split_and!; eauto.
Qed.

Lemma add_group_lookup l (m : gmap Z process_group) k g :
  (∀ k g, m !! k = Some g → pg_pgid g = k) → foldl add_group m l !! k = Some g →
  pg_pgid g = k ∧ (m !! k = Some g ∨ g ∈ l) ∧
  (∀ g', g' ∈ l → pg_pgid g' = k → pg_member_pid g ≤ pg_member_pid g') ∧
  (∀ g', m !! k = Some g' → pg_member_pid g ≤ pg_member_pid g').
Proof.
  revert m. induction l as [|x l IH]; intros m Hm; simpl.
  { intros Hk. split_and!; [by apply Hm|by left|by intros ? ?%not_elem_of_nil|intros; by simplify_eq]. }
  assert (Hm' : ∀ k g, add_group m x !! k = Some g → pg_pgid g = k).
  { intros k' g'. unfold add_group. repeat case_match; try apply Hm;
      (rewrite lookup_insert_Some; intros [[<- <-]|[_ ?]]; [done|by apply Hm]). }
  intros Hk. destruct (IH _ Hm' Hk) as (Hp & Hin & Hmin & Hold). split; [done|].
  assert (Hx : ∀ g', add_group m x !! k = Some g' → m !! k = Some g' ∨ (g' = x ∧ pg_pgid x = k)).
  { intros g'. unfold add_group. repeat case_match; try tauto;
      (rewrite lookup_insert_Some; intros [[<- <-]|[_ ?]]; [by right|by left]). }
  assert (Hle : ∀ g', m !! k = Some g' ∨ (g' = x ∧ pg_pgid x = k) →
    ∃ g'', add_group m x !! k = Some g'' ∧ pg_member_pid g'' ≤ pg_member_pid g').
  { intros g' Hg'. unfold add_group. destruct (decide (pg_pgid x = k)) as [Ek|Ek].
    - rewrite Ek in *. destruct (m !! k) as [p|] eqn:Ep; [destruct (Z.ltb_spec (pg_member_pid x) (pg_member_pid p))|].
      + exists x. rewrite lookup_insert_eq. split; [done|]. destruct Hg' as [Hg'|[-> _]]; [simplify_eq; lia|lia].
      + exists p. split; [done|]. destruct Hg' as [Hg'|[-> _]]; [simplify_eq; lia|lia].
      + exists x. rewrite lookup_insert_eq. split; [done|]. destruct Hg' as [Hg'|[-> _]]; [done|lia].
    - destruct Hg' as [Hg'|[_ ?]]; [|done]. exists g'. split; [|lia].
      repeat case_match; rewrite ?lookup_insert_ne by done; done. }
  split; [|split].
  - destruct Hin as [Hin|Hin]; [|right; by right]. destruct (Hx g Hin) as [?|[-> _]]; [by left|right; left].
  - intros g' [->|Hg']%elem_of_cons Ek; [|by apply Hmin].
    destruct (Hle x ltac:(by right)) as (g'' & Hg'' & ?). specialize (Hold g'' Hg''). lia.
  - intros g' Hg'. destruct (Hle g' ltac:(by left)) as (g'' & Hg'' & ?). specialize (Hold g'' Hg''). lia.
Qed.

Lemma add_group_is_Some l (m : gmap Z process_group) k :
  is_Some (m !! k) ∨ (∃ g, g ∈ l ∧ pg_pgid g = k) → is_Some (foldl add_group m l !! k).
Proof.
  revert m. induction l as [|x l IH]; intros m H; simpl.
  { destruct H as [?|(? & ?%not_elem_of_nil & _)]; done. }
  apply IH. destruct H as [H|(g & [->|Hg]%elem_of_cons & E)]; [left|left|right; eauto].
  - unfold add_group. repeat case_match; try done; (destruct (decide (pg_pgid x = k)) as [->|];
      [rewrite lookup_insert_eq; eauto|by rewrite lookup_insert_ne]).
  - rewrite <- E. unfold add_group. repeat case_match; rewrite ?lookup_insert_eq; eauto.
Qed.

Lemma groups_sorted_spec m :
  (∀ k g, m !! k = Some g → pg_pgid g = k) →
  (pg_pgid <$> groups_sorted m) = sorted_set (map_to_list m).*1 ∧
  ∀ g, g ∈ groups_sorted m ↔ m !! pg_pgid g = Some g.
Proof.
  intros Hm. unfold groups_sorted. set (ks := sorted_set (map_to_list m).*1).
  assert (Hks : ∀ k, k ∈ ks ↔ is_Some (m !! k)).
  { intros k. unfold ks. rewrite elem_of_sorted_set, list_elem_of_fmap. split.
    - intros ([k' g] & -> & Hg). apply elem_of_map_to_list in Hg. by eexists.
    - intros [g Hg]. exists (k, g). split; [done|]. by apply elem_of_map_to_list. }
  split.
  - assert (Hall : ∀ k, k ∈ ks → is_Some (m !! k)) by (intros; by apply Hks). clear Hks.
    clearbody ks. induction ks as [|k ks IH]; [done|]. simpl.
    destruct (Hall k ltac:(left)) as [g Hg]. rewrite Hg. csimpl. f_equal; [by apply Hm|].
    apply IH. intros. apply Hall. by right.
  - intros g. rewrite list_elem_of_omap. split.
    + intros (k & _ & Hg). by rewrite (Hm _ _ Hg).
    + intros Hg. exists (pg_pgid g). split; [|done]. apply Hks. by eexists.
Qed.

(** What the recovery may signal. Discovery returns each process group once,
    in order; each one is not the worker's own and not init's, and has a member
    of the user's that carries the marker of this very reservation as a whole
    environment variable, the one with the least process id stands for it; and no
    such group is missing. *)
Theorem discover_spec reservation_id uid current_group entries :
  let d := discover_managed_process_groups reservation_id uid current_group (Some (inl entries)) in
  let found := found reservation_id uid current_group entries in
  pd_available d = true ∧ StronglySorted Z.lt (pg_pgid <$> pd_groups d) ∧
  (∀ g, g ∈ pd_groups d →
     1 < pg_pgid g ∧ pg_pgid g ≠ current_group ∧ found g ∧
     (∃ e ino ctime environ, e ∈ entries ∧ pe_stat e = Some (uid, ino, ctime) ∧
        pe_environ e = Some environ ∧ marker reservation_id ∈ split_zero [] environ) ∧
     ∀ g', found g' → pg_pgid g' = pg_pgid g → pg_member_pid g ≤ pg_member_pid g') ∧
  (∀ g', found g' → ∃ g, g ∈ pd_groups d ∧ pg_pgid g = pg_pgid g').
Proof.
  cbv zeta. unfold discover_managed_process_groups. simpl.
  set (gs := omap (entry_group reservation_id uid current_group) entries).
  assert (Hgs : ∀ g, g ∈ gs ↔ found reservation_id uid current_group entries g).
  { intros g. unfold gs, found. apply list_elem_of_omap. }
  assert (Hkey : ∀ k g, foldl add_group ∅ gs !! k = Some g → pg_pgid g = k).
  { intros k g Hk. by apply (add_group_lookup gs ∅ k g). }
  destruct (groups_sorted_spec _ Hkey) as [Hsort Hmem].
  split; [done|]. split; [rewrite Hsort; apply sorted_set_strict|]. split.
  - intros g Hg. apply Hmem in Hg.
    destruct (add_group_lookup gs ∅ (pg_pgid g) g) as (_ & [?|Hin] & Hmin & _);
      [by intros ? ? ?%lookup_empty_Some|exact Hg|by simplify_map_eq|].
    apply Hgs in Hin. pose proof Hin as (e & He & Heg).
    destruct (entry_group_Some _ _ _ _ _ Heg) as (? & ? & (ino & ct & ?) & env & ? & ?).
    split_and!; try done; [by exists e, ino, ct, env|]. intros g' Hg' E. by apply Hmin; [apply Hgs|].
  - intros g' Hg'. apply Hgs in Hg'.
    destruct (add_group_is_Some gs ∅ (pg_pgid g')) as [g Hg]; [right; eauto|].
    exists g. pose proof (Hkey _ _ Hg) as E. split; [|done]. apply Hmem. by rewrite E.
Qed.
