(* ===== verification/Violations.v ===== *)
(** * Violations: the ledger audit and the usage of shared reservations
    ([src/src/bk/scheduler.py])

    [find_policy_violations] is what [bk doctor] and the administrator's checks
    report: shares out of range, exclusive reservations that overlap another
    one, and intervals in which the shares of a GPU exceed its slots. The
    functions before it compute the load of one reservation for the listings.
    [violations_iff_unsafe] shows that the audit finds something exactly when
    the ledger breaks the capacity promise of the file Safety, and
    [shared_load_is_peak] that the loads are the maxima over all instants. *)

From S2P Require Import Prelude PyBase Granularity Timeparse Models Sharing Config.
From S2P Require Import ScheduleIndex Availability Placement Search Maintenance Safety.

(** ** Load of a segment *)

Definition in_segment (start end_ : datetime) (item : reservation) : bool :=
  bool_decide (r_mode item = MODE_SHARED) && _overlaps start end_ (r_start_at item) (r_end_at item).

Definition _shared_record_count_in_segment (reservations : list reservation)
    (start end_ : datetime) : Z :=
  sumZ (λ _, 1) (filter (λ item, in_segment start end_ item = true) reservations).

Definition _shared_capacity_units_in_segment (reservations : list reservation)
    (start end_ : datetime) (max_shared_users : Z) : Z :=
  sumZ (λ item, reservation_share_units (r_share_units item) max_shared_users)
    (filter (λ item, in_segment start end_ item = true) reservations).

(** [max(1, int(item.get("expected_memory_mb") or default_memory))] *)
Definition item_memory (usable_memory_mb max_shared_users : Z) (item : reservation) : Z :=
  Z.max 1 (record_memory
    (inferred_share_memory_mb usable_memory_mb max_shared_users
       (reservation_share_units (r_share_units item) max_shared_users)) item).

Definition _shared_memory_in_segment (reservations : list reservation) (start end_ : datetime)
    (usable_memory_mb max_shared_users : Z) : Z :=
  sumZ (item_memory usable_memory_mb max_shared_users)
    (filter (λ item, in_segment start end_ item = true) reservations).

Definition shared_record_count_for_gpu (reservations : list reservation) (gpu : Z)
    (start end_ : datetime) : Z :=
  _shared_record_count_in_segment (filter (λ item, gpu ∈ r_gpus item) reservations) start end_.

Definition shared_capacity_units_for_gpu (reservations : list reservation) (gpu : Z)
    (start end_ : datetime) (max_shared_users : Z) : Z :=
  _shared_capacity_units_in_segment (filter (λ item, gpu ∈ r_gpus item) reservations) start end_
    max_shared_users.

(** ** Load of a reservation *)

(** [set(item.get("gpus", [])) & set(reservation.get("gpus", []))] *)
Definition common_gpus (a b : reservation) : list Z :=
  sorted_set (filter (λ g, g ∈ r_gpus b) (r_gpus a)).

(** [{start, end}] with the clipped ends of the given records, sorted. *)
Definition clipped_points (start end_ : datetime) (items : list reservation) : list datetime :=
  sorted_set
    (start :: end_ ::
     (items ≫= λ item, [Z.max start (r_start_at item); Z.min end_ (r_end_at item)])).

(** The records whose ends cut the interval of [r] into segments. *)
Definition neighbours (reservations : list reservation) (r : reservation) : list reservation :=
  filter (λ item, r_mode item = MODE_SHARED ∧ common_gpus item r ≠ [] ∧
                  _overlaps (r_start_at r) (r_end_at r) (r_start_at item) (r_end_at item) = true)
    reservations.

(** [peak = max(peak, load(gpu, left, right))] over the proper segments and GPUs. *)
Definition peak_of (points : list datetime) (gpus : list Z)
    (load : Z → datetime → datetime → Z) : Z :=
  foldl (λ peak '(seg_left, seg_right),
    if seg_right <=? seg_left then peak
    else foldl (λ peak gpu, Z.max peak (load gpu seg_left seg_right)) peak gpus)
    0 (pairs points).

Definition max_shared_record_count_for_reservation (reservations : list reservation)
    (r : reservation) : Z :=
  if negb (bool_decide (r_mode r = MODE_SHARED)) then 0
  else peak_of (clipped_points (r_start_at r) (r_end_at r) (neighbours reservations r)) (r_gpus r)
         (λ gpu seg_left seg_right, shared_record_count_for_gpu reservations gpu seg_left seg_right).

Definition max_shared_capacity_units_for_reservation (reservations : list reservation)
    (r : reservation) (max_shared_users : Z) : Z :=
  if negb (bool_decide (r_mode r = MODE_SHARED)) then 0
  else peak_of (clipped_points (r_start_at r) (r_end_at r) (neighbours reservations r)) (r_gpus r)
         (λ gpu seg_left seg_right,
            shared_capacity_units_for_gpu reservations gpu seg_left seg_right max_shared_users).

(** The records that share a GPU with [r] during its interval. *)
Definition on_gpu_during (reservations : list reservation) (r : reservation) (gpu : Z)
    : list reservation :=
  filter (λ item, r_mode item = MODE_SHARED ∧ gpu ∈ r_gpus item ∧
                  _overlaps (r_start_at r) (r_end_at r) (r_start_at item) (r_end_at item) = true)
    reservations.

(** One iteration of the headroom loop; [None] is its [continue]. *)
Definition gpu_headroom (reservations : list reservation) (r : reservation)
    (gpu_memory_capacity_mb : gmap Z Z) (max_shared_users shared_memory_reserve_mb gpu : Z)
    : option Z :=
  capacity ← memory_capacity (Some gpu_memory_capacity_mb) gpu;
  let usable := Z.max 0 (capacity - shared_memory_reserve_mb) in
  let relevant := on_gpu_during reservations r gpu in
  let peak := peak_of (clipped_points (r_start_at r) (r_end_at r) relevant) [gpu]
    (λ _ seg_left seg_right,
       _shared_memory_in_segment relevant seg_left seg_right usable max_shared_users) in
  Some (Z.max 0 (usable - peak)).

Definition shared_memory_headroom_for_reservation (reservations : list reservation)
    (r : reservation) (gpu_memory_capacity_mb : gmap Z Z)
    (max_shared_users shared_memory_reserve_mb : Z) : gmap Z Z :=
  if negb (bool_decide (r_mode r = MODE_SHARED)) then ∅
  else foldl (λ result gpu,
         match gpu_headroom reservations r gpu_memory_capacity_mb max_shared_users
                 shared_memory_reserve_mb gpu with
         | Some headroom => <[gpu := headroom]> result
         | None => result
         end) ∅ (r_gpus r).

(** ** The audit *)

Inductive violation :=
  | InvalidShareUnits (reservation_id : string) (share_units : json)
      (start_at end_at : datetime) (message : string)
  | ExclusiveOverlap (gpu : Z) (left_record right_record : reservation) (start_at end_at : datetime)
  | SharedCapacity (gpu count used_units limit : Z) (reservation_ids : list string)
      (start_at end_at : datetime).

Definition _find_invalid_share_unit_violations (active : list reservation) (max_shared_users : Z)
    : list violation :=
  active ≫= λ item,
    match r_share_units item with
    | Some raw =>
        if bool_decide (r_mode item = MODE_SHARED) then
          match normalize_share_units raw max_shared_users with
          | Ok _ => []
          | Raise (ValueError msg) =>
              [InvalidShareUnits (r_id item) raw (r_start_at item) (r_end_at item) msg]
          | Raise _ => []
          end
        else []
    | None => []
    end.

(** One pair of the double loop. *)
Definition overlap_violations (left_record right_record : reservation) : list violation :=
  if negb (bool_decide (r_mode left_record = MODE_EXCLUSIVE))
     && negb (bool_decide (r_mode right_record = MODE_EXCLUSIVE)) then []
  else if _overlaps (r_start_at left_record) (r_end_at left_record)
            (r_start_at right_record) (r_end_at right_record) then
    map (λ gpu, ExclusiveOverlap gpu left_record right_record
      (Z.max (r_start_at left_record) (r_start_at right_record))
      (Z.min (r_end_at left_record) (r_end_at right_record)))
      (common_gpus left_record right_record)
  else [].

Fixpoint _find_exclusive_overlap_violations (active : list reservation) : list violation :=
  match active with
  | [] => []
  | left_record :: rest =>
      (rest ≫= overlap_violations left_record) ++ _find_exclusive_overlap_violations rest
  end.

Definition shared_on_gpu (active : list reservation) (gpu : Z) : list reservation :=
  filter (λ item, r_mode item = MODE_SHARED ∧ gpu ∈ r_gpus item) active.

Definition capacity_violation (shared : list reservation) (gpu max_shared_users : Z)
    (seg_left seg_right : datetime) : list violation :=
  if seg_right <=? seg_left then []
  else
    let overlapping_items :=
      filter (λ item, _overlaps seg_left seg_right (r_start_at item) (r_end_at item) = true) shared in
    let used_units :=
      sumZ (λ item, reservation_share_units (r_share_units item) max_shared_users)
        overlapping_items in
    if used_units <=? max_shared_users then []
    else [SharedCapacity gpu (Z.of_nat (length overlapping_items)) used_units max_shared_users
            (r_id <$> overlapping_items) seg_left seg_right].

Definition boundary_points (shared : list reservation) : list datetime :=
  sorted_set (map r_start_at shared ++ map r_end_at shared).

Definition _find_shared_capacity_violations (active : list reservation) (max_shared_users : Z)
    : list violation :=
  sorted_set (active ≫= r_gpus) ≫= λ gpu,
    let shared := shared_on_gpu active gpu in
    pairs (boundary_points shared) ≫= λ '(seg_left, seg_right),
      capacity_violation shared gpu max_shared_users seg_left seg_right.

(** [(item.get("start_at", ""), item.get("gpu", -1), item.get("type", ""))]; the
    times are compared as their canonical texts. *)
Definition violation_key (v : violation) : string * Z * string :=
  match v with
  | InvalidShareUnits _ _ start_at _ _ => (to_iso start_at, -1, "invalid-share-units")
  | ExclusiveOverlap gpu _ _ start_at _ => (to_iso start_at, gpu, "exclusive-overlap")
  | SharedCapacity gpu _ _ _ _ start_at _ => (to_iso start_at, gpu, "shared-capacity")
  end.

Definition violation_leb (a b : violation) : bool :=
  let '(sa, ga, ta) := violation_key a in
  let '(sb, gb, tb) := violation_key b in
  if negb (bool_decide (sa = sb)) then String.leb sa sb
  else if negb (ga =? gb) then ga <? gb
  else String.leb ta tb.

Definition audit (active : list reservation) (max_shared_users : Z) : list violation :=
  sort_by violation_leb
    (_find_invalid_share_unit_violations active max_shared_users
     ++ _find_exclusive_overlap_violations active
     ++ _find_shared_capacity_violations active max_shared_users).

Definition find_policy_violations (l : ledger) (max_shared_users : Z) (now : option datetime)
    : M (list violation) :=
  active ← list_active_default l now;
  mret (audit active max_shared_users).

(** ** Pressure *)

Definition reservation_pressure_scores (l : ledger) (gpus : list Z) (start end_ : datetime)
    (max_shared_users : Z) : gmap Z pyfloat :=
  let index := from_ledger l start in
  foldl (λ m gpu,
    <[gpu := _reservation_pressure_score_indexed index gpu start end_ max_shared_users]> m) ∅ gpus.

Definition reservation_pressure_score (l : ledger) (gpu : Z) (start end_ : datetime)
    (max_shared_users : Z) : option pyfloat :=
  reservation_pressure_scores l [gpu] start end_ max_shared_users !! gpu.

(** [_candidate_starts]: the candidates at a fresh reading of the clock. *)
Definition _candidate_starts (l : ledger) (earliest_start search_until : datetime)
    (slot_minutes : Z) : M (list datetime) :=
  now ← utc_now;
  let index := from_ledger l now in
  _ ← lift (dates_in_range (candidate_dates index earliest_start slot_minutes));
  mret (_candidate_starts_from_index index earliest_start search_until slot_minutes).

(** ** Lemmas: peaks *)

Lemma foldl_max_spec {A} (f : A → Z) l z :
  let m := foldl (λ p x, Z.max p (f x)) z l in
  z ≤ m ∧ (∀ x, x ∈ l → f x ≤ m) ∧ (m = z ∨ ∃ x, x ∈ l ∧ m = f x).
Proof.
  cbv zeta. revert z. induction l as [|a l IH]; intros z; simpl.
  { split; [lia|]. split; [by intros x ?%not_elem_of_nil|by left]. }
  destruct (IH (Z.max z (f a))) as (H1 & H2 & H3). split; [lia|]. split.
  - intros x [->|Hx]%elem_of_cons; [lia|by apply H2].
  - destruct H3 as [->|(x & Hx & ->)]; [|right; exists x; by split; [right|]].
    destruct (Z.max_spec z (f a)) as [[_ ->]|[_ ->]]; [|by left].
    right. exists a. split; [left|done].
Qed.

Lemma peak_of_spec points gpus load :
  let m := peak_of points gpus load in
  0 ≤ m ∧
  (∀ a b g, (a, b) ∈ pairs points → a < b → g ∈ gpus → load g a b ≤ m) ∧
  (m = 0 ∨ ∃ a b g, (a, b) ∈ pairs points ∧ a < b ∧ g ∈ gpus ∧ m = load g a b).
Proof.
  cbv zeta. unfold peak_of. generalize (pairs points) as segs. intros segs.
  assert (Hgen : ∀ z, let m := foldl (λ peak '(a, b), if b <=? a then peak
      else foldl (λ peak gpu, Z.max peak (load gpu a b)) peak gpus) z segs in
    z ≤ m ∧ (∀ a b g, (a, b) ∈ segs → a < b → g ∈ gpus → load g a b ≤ m) ∧
    (m = z ∨ ∃ a b g, (a, b) ∈ segs ∧ a < b ∧ g ∈ gpus ∧ m = load g a b)).
  { cbv zeta. induction segs as [|[a b] segs IH]; intros z; simpl.
    { split; [lia|]. split; [by intros a b g ?%not_elem_of_nil|by left]. }
    destruct (Z.leb_spec b a) as [Hba|Hab].
    - destruct (IH z) as (H1 & H2 & H3). split; [done|]. split.
      + intros a' b' g [[= -> ->]|Hin]%elem_of_cons Hlt Hg; [lia|by apply H2].
      + destruct H3 as [->|(a' & b' & g & ? & ? & ? & ->)]; [by left|].
        right. exists a', b', g. split; [by right|done].
    - destruct (foldl_max_spec (λ gpu, load gpu a b) gpus z) as (F1 & F2 & F3).
      revert F1 F2 F3. generalize (foldl (λ p x, Z.max p (load x a b)) z gpus).
      intros z' F1 F2 F3. destruct (IH z') as (H1 & H2 & H3). split; [lia|]. split.
      + intros a' b' g [[= -> ->]|Hin]%elem_of_cons Hlt Hg; [|by apply H2].
        specialize (F2 g Hg). lia.
      + destruct H3 as [->|(a' & b' & g & ? & ? & ? & ->)].
        * destruct F3 as [->|(g & Hg & ->)]; [by left|]. right. exists a, b, g.
          split; [left|done].
        * right. exists a', b', g. split; [by right|done]. }
  apply Hgen.
Qed.

(** The records that hold a share of the GPU at an instant. *)
Definition sharers (reservations : list reservation) (gpu : Z) (t : datetime) : list reservation :=
  filter (λ item, r_mode item = MODE_SHARED ∧ gpu ∈ r_gpus item ∧ covers (span_of item) t)
    reservations.

Lemma clipped_points_spans start end_ items :
  clipped_points start end_ items = segment_points start end_ (span_of <$> items).
Proof.
  unfold clipped_points, segment_points. do 3 f_equal.
  induction items as [|i items IH]; [done|]. csimpl. by rewrite IH.
Qed.

Lemma common_gpus_nonempty a b g : g ∈ r_gpus a → g ∈ r_gpus b → common_gpus a b ≠ [].
Proof.
  intros Ha Hb E. assert (Hin : g ∈ common_gpus a b)
    by (unfold common_gpus; by rewrite elem_of_sorted_set, list_elem_of_filter).
  rewrite E in Hin. by apply not_elem_of_nil in Hin.
Qed.

(** A set of records cuts an interval well when it holds every record that
    shares one of the GPUs during it. *)
Section Cut.
Context (reservations items : list reservation) (r : reservation) (gpus : list Z).
Context (Hlt : r_start_at r < r_end_at r).
Context (Hitems : ∀ item, item ∈ items →
  _overlaps (r_start_at r) (r_end_at r) (r_start_at item) (r_end_at item) = true).
Context (Hall : ∀ item g, item ∈ reservations → g ∈ gpus → r_mode item = MODE_SHARED →
  g ∈ r_gpus item →
  _overlaps (r_start_at r) (r_end_at r) (r_start_at item) (r_end_at item) = true → item ∈ items).

Let points := clipped_points (r_start_at r) (r_end_at r) items.

Lemma cut_relevant sp :
  sp ∈ (span_of <$> items) → overlaps_span (r_start_at r) (r_end_at r) sp.
Proof.
  intros (item & -> & Hin)%list_elem_of_fmap. specialize (Hitems item Hin).
  apply _overlaps_spec in Hitems. unfold overlaps_span. simpl. lia.
Qed.

Lemma cut_segment a b t g :
  (a, b) ∈ pairs points → a ≤ t → t < b → g ∈ gpus →
  filter (λ item, in_segment a b item = true) (filter (λ item, g ∈ r_gpus item) reservations)
  = sharers reservations g t.
Proof.
  unfold points. rewrite clipped_points_spans. intros Hp Hl Hr Hg. unfold sharers.
  rewrite filter_filter_and. apply filter_ext_in. intros item Hin. unfold in_segment.
  rewrite andb_true_iff, bool_decide_eq_true.
  destruct (_overlaps (r_start_at r) (r_end_at r) (r_start_at item) (r_end_at item)) eqn:Ho.
  - split.
    + intros ((Hm & Hov) & Hgi). split; [done|]. split; [done|].
      apply (segment_constant _ _ _ Hlt cut_relevant a b t (span_of item) Hp Hl Hr); [|done].
      apply list_elem_of_fmap. exists item. split; [done|]. by eapply Hall.
    + intros (Hm & Hgi & Hc). split; [|done]. split; [done|].
      apply (segment_constant _ _ _ Hlt cut_relevant a b t (span_of item) Hp Hl Hr); [|done].
      apply list_elem_of_fmap. exists item. split; [done|]. by eapply Hall.
  - apply pairs_gap in Hp as (_ & Ha & Hb & _); [|apply sorted_set_strict].
    apply (segment_points_range _ _ _ Hlt cut_relevant) in Ha, Hb.
    assert (Hn : ¬ (r_start_at r < r_end_at item ∧ r_start_at item < r_end_at r))
      by (rewrite <- _overlaps_spec, Ho; done).
    rewrite _overlaps_spec. unfold covers. simpl. split; intros; exfalso; apply Hn; lia.
Qed.

(** The peak over the segments is the maximum over the instants. *)
Lemma cut_peak (f : list reservation → Z) (load : Z → datetime → datetime → Z) :
  gpus ≠ [] → (∀ l, 0 ≤ f l) →
  (∀ g a b, g ∈ gpus → load g a b =
     f (filter (λ item, in_segment a b item = true)
          (filter (λ item, g ∈ r_gpus item) reservations))) →
  let m := peak_of points gpus load in
  (∀ t g, covers (span_of r) t → g ∈ gpus → f (sharers reservations g t) ≤ m) ∧
  ∃ t g, covers (span_of r) t ∧ g ∈ gpus ∧ m = f (sharers reservations g t).
Proof.
  intros Hne Hf Hload. cbv zeta. destruct (peak_of_spec points gpus load) as (H0 & Hle & Hatt).
  assert (Hup : ∀ t g, covers (span_of r) t → g ∈ gpus →
    f (sharers reservations g t) ≤ peak_of points gpus load).
  { intros t g [Hl Hr] Hg. simpl in Hl, Hr.
    destruct (pairs_cover points (r_start_at r) (r_end_at r) t) as (a & b & Hp & ? & ?);
      [apply sorted_set_strict|unfold points, clipped_points; rewrite elem_of_sorted_set; in_list..
      |done|done|].
    rewrite <- (cut_segment a b t g), <- Hload by done. apply Hle; [done|lia|done]. }
  split; [done|]. destruct Hatt as [Hz|(a & b & g & Hp & Hab & Hg & Hm)].
  - destruct gpus as [|g gs] eqn:Eg; [done|]. exists (r_start_at r), g.
    assert (Hc : covers (span_of r) (r_start_at r)) by (unfold covers; simpl; lia).
    split; [done|]. split; [left|]. specialize (Hup (r_start_at r) g Hc ltac:(left)).
    specialize (Hf (sharers reservations g (r_start_at r))). lia.
  - exists a, g. rewrite Hm, Hload, (cut_segment a b a g) by (done || lia).
    pose proof Hp as Hp'. unfold points in Hp'. rewrite clipped_points_spans in Hp'.
    apply pairs_gap in Hp' as (_ & Ha & Hb & _); [|apply sorted_set_strict].
    apply (segment_points_range _ _ _ Hlt cut_relevant) in Ha, Hb.
    split; [unfold covers; simpl; lia|done].
Qed.
End Cut.

Lemma neighbours_overlap rs r item :
  item ∈ neighbours rs r →
  _overlaps (r_start_at r) (r_end_at r) (r_start_at item) (r_end_at item) = true.
Proof. by intros [(_ & _ & ?) _]%list_elem_of_filter. Qed.

Lemma neighbours_all rs r item g :
  item ∈ rs → g ∈ r_gpus r → r_mode item = MODE_SHARED → g ∈ r_gpus item →
  _overlaps (r_start_at r) (r_end_at r) (r_start_at item) (r_end_at item) = true →
  item ∈ neighbours rs r.
Proof.
  intros Hin Hg Hm Hgi Ho. apply list_elem_of_filter. split; [|done]. split; [done|].
  split; [by eapply common_gpus_nonempty|done].
Qed.

Lemma gpu_headroom_Some rs r caps cap reserve g c :
  memory_capacity (Some caps) g = Some c → reservation_ok r →
  let usable := Z.max 0 (c - reserve) in
  ∃ peak, gpu_headroom rs r caps cap reserve g = Some (Z.max 0 (usable - peak)) ∧
    (∀ t, covers (span_of r) t → sumZ (item_memory usable cap) (sharers rs g t) ≤ peak) ∧
    ∃ t, covers (span_of r) t ∧ peak = sumZ (item_memory usable cap) (sharers rs g t).
Proof.
  intros Hc Hr. cbv zeta. set (usable := Z.max 0 (c - reserve)).
  unfold gpu_headroom. rewrite Hc. eexists. split; [reflexivity|].
  set (relevant := on_gpu_during rs r g).
  assert (Heq : ∀ t, covers (span_of r) t → sharers relevant g t = sharers rs g t).
  { intros t [Hl Ht]. simpl in *. unfold sharers, relevant, on_gpu_during.
    rewrite filter_filter_and. apply filter_ext_in. intros item _. unfold covers. simpl.
    rewrite _overlaps_spec. split; [tauto|]. intros (? & ? & ?). split_and!; (done || lia). }
  pose proof (cut_peak relevant relevant r [g] (ro_interval r Hr)) as Hpk.
  destruct (Hpk ltac:(intros item [(_ & _ & ?) _]%list_elem_of_filter; done)
    ltac:(done) (sumZ (item_memory usable cap))
    (λ _ a b, _shared_memory_in_segment relevant a b usable cap)) as [Hup (t & g' & Ht & Hg & Hm)];
    [done| | |].
  - intros l. apply sumZ_nonneg. intros item _. unfold item_memory. lia.
  - intros g' a b ->%list_elem_of_singleton. unfold _shared_memory_in_segment.
    rewrite (list_filter_all (λ item, g ∈ r_gpus item) relevant); [done|].
    apply Forall_forall. by intros item [(_ & ? & _) _]%list_elem_of_filter.
  - split.
    + intros t' Ht'. rewrite <- (Heq t' Ht'). apply Hup; [done|left].
    + exists t. split; [done|]. apply list_elem_of_singleton in Hg as ->.
      by rewrite <- (Heq t Ht).
Qed.

(** A dictionary filled by a loop that may skip keys. *)
Lemma foldl_insert_lookup (f : Z → option Z) (l : list Z) (m : gmap Z Z) g :
  foldl (λ m x, match f x with Some v => <[x := v]> m | None => m end) m l !! g
  = if decide (g ∈ l) then match f g with Some v => Some v | None => m !! g end else m !! g.
Proof.
  revert m. induction l as [|x l IH]; intros m; cbn [foldl].
  { by rewrite decide_False by apply not_elem_of_nil. }
  rewrite IH. destruct (decide (g = x)) as [->|Hne].
  - rewrite (decide_True (P := x ∈ x :: l)) by left. destruct (f x) eqn:E; [|by case_decide].
    rewrite lookup_insert_eq. by case_decide.
  - assert (Hin : g ∈ x :: l ↔ g ∈ l) by (rewrite elem_of_cons; tauto).
    rewrite (decide_ext _ _ _ _ Hin).
    destruct (f x); [by rewrite lookup_insert_ne|done].
Qed.

Lemma headroom_lookup rs r caps cap reserve g :
  r_mode r = MODE_SHARED → g ∈ r_gpus r →
  shared_memory_headroom_for_reservation rs r caps cap reserve !! g
  = gpu_headroom rs r caps cap reserve g.
Proof.
  intros Hm Hg. unfold shared_memory_headroom_for_reservation.
  rewrite bool_decide_eq_true_2 by done. simpl.
  rewrite (foldl_insert_lookup (gpu_headroom rs r caps cap reserve)), decide_True by done.
  by destruct (gpu_headroom _ _ _ _ _ _).
Qed.

(** ** Lemmas: the audit *)

Lemma bind_nil {A B} (f : A → list B) l : l ≫= f = [] ↔ ∀ a, a ∈ l → f a = [].
Proof.
  induction l as [|a l IH]; csimpl; [split; [by intros _ a ?%not_elem_of_nil|done]|].
  rewrite app_nil, IH. setoid_rewrite elem_of_cons. naive_solver.
Qed.

Lemma whole_number_error v label e : _whole_number v label = Raise e → ∃ msg, e = ValueError msg.
Proof. unfold _whole_number. intros. repeat case_match; simplify_eq; eauto. Qed.

Lemma normalize_share_units_error raw cap e :
  normalize_share_units raw cap = Raise e → ∃ msg, e = ValueError msg.
Proof.
  unfold normalize_share_units. destruct (match raw with JNull => _ | _ => _ end) as [u|e'] eqn:E;
    simpl.
  - destruct (_ || _); [|done]. intros [= <-]. by eexists.
  - intros [= <-]. destruct raw; (done || by eapply whole_number_error).
Qed.

Lemma invalid_units_nil active cap :
  _find_invalid_share_unit_violations active cap = [] ↔
  ∀ r raw, r ∈ active → r_mode r = MODE_SHARED → r_share_units r = Some raw →
    ∃ n, normalize_share_units raw cap = Ok n.
Proof.
  unfold _find_invalid_share_unit_violations. rewrite bind_nil. split.
  - intros H r raw Hr Hm Hraw. specialize (H r Hr). rewrite Hraw, bool_decide_eq_true_2 in H by done.
    destruct (normalize_share_units raw cap) as [n|e] eqn:E; [by exists n|].
    by destruct (normalize_share_units_error _ _ _ E) as [msg ->].
  - intros H r Hr. destruct (r_share_units r) as [raw|] eqn:Hraw; [|done].
    case_bool_decide as Hm; [|done]. by destruct (H r raw Hr Hm Hraw) as [n ->].
Qed.

Lemma overlap_violations_nil a b :
  overlap_violations a b = [] ↔
  ((r_mode a = MODE_EXCLUSIVE ∨ r_mode b = MODE_EXCLUSIVE) →
   ∀ g, g ∈ r_gpus a → g ∈ r_gpus b →
     ¬ (r_start_at a < r_end_at b ∧ r_start_at b < r_end_at a)).
Proof.
  unfold overlap_violations. destruct (negb _ && negb _) eqn:Hm.
  { apply andb_true_iff in Hm as [Ha Hb]. bk_split. naive_solver. }
  assert (Hex : r_mode a = MODE_EXCLUSIVE ∨ r_mode b = MODE_EXCLUSIVE).
  { apply andb_false_iff in Hm as [Hm|Hm]; bk_split; tauto. }
  setoid_rewrite <- _overlaps_spec. destruct (_overlaps _ _ _ _).
  - split.
    + intros E _ g Ha Hb. exfalso. apply (common_gpus_nonempty a b g Ha Hb).
      by apply map_eq_nil in E.
    + intros H. destruct (common_gpus a b) as [|g gs] eqn:E; [done|].
      assert (Hg : g ∈ common_gpus a b) by (rewrite E; left).
      unfold common_gpus in Hg. rewrite elem_of_sorted_set, list_elem_of_filter in Hg.
      destruct Hg. by destruct (H Hex g).
  - naive_solver.
Qed.

(** No instant from [now] on has an exclusive holder beside another one. *)
Definition exclusive_alone (active : list reservation) (now : datetime) : Prop :=
  ∀ g t, now ≤ t →
    let hs := filter (λ r, g ∈ r_gpus r ∧ covers (span_of r) t) active in
    ∀ r, r ∈ hs → r_mode r = MODE_EXCLUSIVE → length hs = 1%nat.

Lemma exclusive_overlap_alone active now :
  (∀ r, r ∈ active → r_start_at r < r_end_at r ∧ now < r_end_at r) →
  _find_exclusive_overlap_violations active = [] → exclusive_alone active now.
Proof.
  induction active as [|a active IH]; intros Hok H g t Ht.
  { by intros hs r ?%not_elem_of_nil. }
  cbn [_find_exclusive_overlap_violations] in H. apply app_nil in H as [Ha Hrest].
  rewrite bind_nil in Ha. specialize (IH ltac:(intros; apply Hok; by right) Hrest g t Ht).
  cbv zeta in *. rewrite filter_cons. case_decide as Hh; [|exact IH].
  set (hs := filter _ active) in *. destruct hs as [|b hs'] eqn:Ehs; [done|].
  intros r Hr Hm. exfalso.
  assert (Hall : ∀ x, x ∈ b :: hs' → x ∈ active ∧ g ∈ r_gpus x ∧ covers (span_of x) t).
  { intros x Hx. rewrite <- Ehs in Hx. apply list_elem_of_filter in Hx. tauto. }
  assert (Hpair : ∀ x, x ∈ b :: hs' → r_mode a = MODE_EXCLUSIVE ∨ r_mode x = MODE_EXCLUSIVE → False).
  { intros x Hx Hex. destruct (Hall x Hx) as (Hin & Hg & Hc). specialize (Ha x Hin).
    rewrite overlap_violations_nil in Ha. destruct Hh as [Hga Hca].
    apply (Ha Hex g Hga Hg). unfold covers in *. simpl in *. lia. }
  apply elem_of_cons in Hr as [->|Hr]; [apply (Hpair b); [left|by left]|].
  apply (Hpair r); [done|by right].
Qed.

Lemma exclusive_alone_overlap active now :
  (∀ r, r ∈ active → r_start_at r < r_end_at r ∧ now < r_end_at r) →
  exclusive_alone active now → _find_exclusive_overlap_violations active = [].
Proof.
  induction active as [|a active IH]; intros Hok H; [done|].
  cbn [_find_exclusive_overlap_violations]. apply app_nil. split.
  - apply bind_nil. intros b Hb. apply overlap_violations_nil. intros Hex g Hga Hgb [Hab Hba].
    destruct (Hok a ltac:(left)) as [Ha1 Ha2]. destruct (Hok b ltac:(by right)) as [Hb1 Hb2].
    specialize (H g (Z.max now (Z.max (r_start_at a) (r_start_at b))) ltac:(lia)). cbv zeta in H.
    rewrite filter_cons, decide_True in H by (unfold covers; simpl; split; [done|lia]).
    assert (Hin : b ∈ filter (λ r, g ∈ r_gpus r ∧ covers (span_of r)
      (Z.max now (Z.max (r_start_at a) (r_start_at b)))) active).
    { apply list_elem_of_filter. unfold covers. simpl. split; [split; [done|lia]|done]. }
    revert H Hin. generalize (filter (λ r, g ∈ r_gpus r ∧ covers (span_of r)
      (Z.max now (Z.max (r_start_at a) (r_start_at b)))) active) as hs. intros hs H Hin.
    destruct hs as [|h hs]; [by apply not_elem_of_nil in Hin|].
    destruct Hex as [Hex|Hex].
    + by specialize (H a ltac:(left) Hex).
    + by specialize (H b ltac:(by right) Hex).
  - apply IH; [intros; apply Hok; by right|]. intros g t Ht. specialize (H g t Ht).
    cbv zeta in *. rewrite filter_cons in H. case_decide; [|done].
    intros r Hr Hm. specialize (H r ltac:(by right) Hm). simpl in H.
    destruct (filter _ active); [by apply not_elem_of_nil in Hr|done].
Qed.

Definition item_units (cap : Z) (item : reservation) : Z :=
  reservation_share_units (r_share_units item) cap.

Lemma item_units_pos cap item : 1 ≤ item_units cap item.
Proof. apply reservation_share_units_pos. Qed.

Lemma elem_of_boundary_points shared x :
  x ∈ boundary_points shared ↔
  ∃ item, item ∈ shared ∧ (x = r_start_at item ∨ x = r_end_at item).
Proof.
  unfold boundary_points. rewrite elem_of_sorted_set, elem_of_app.
  change (map r_start_at shared) with (r_start_at <$> shared).
  change (map r_end_at shared) with (r_end_at <$> shared).
  rewrite !list_elem_of_fmap. naive_solver.
Qed.

(** Between consecutive boundaries the sharers do not change. *)
Lemma boundary_segment shared a b item :
  (a, b) ∈ pairs (boundary_points shared) → item ∈ shared →
  a < b ∧ (_overlaps a b (r_start_at item) (r_end_at item) = true ↔
           r_start_at item ≤ a ∧ b ≤ r_end_at item) ∨ r_end_at item ≤ r_start_at item.
Proof.
  intros Hp Hin. destruct (decide (r_end_at item ≤ r_start_at item)); [by right|left].
  apply pairs_gap in Hp as (Hab & _ & _ & Hgap); [|apply sorted_set_strict].
  split; [done|]. rewrite _overlaps_spec.
  assert (Hs : r_start_at item ∈ boundary_points shared)
    by (apply elem_of_boundary_points; exists item; auto).
  assert (He : r_end_at item ∈ boundary_points shared)
    by (apply elem_of_boundary_points; exists item; auto).
  apply Hgap in Hs, He. lia.
Qed.

Lemma capacity_violation_nil shared g cap a b :
  a < b →
  capacity_violation shared g cap a b = [] ↔
  sumZ (item_units cap)
    (filter (λ item, _overlaps a b (r_start_at item) (r_end_at item) = true) shared) ≤ cap.
Proof.
  intros Hab. unfold capacity_violation. destruct (Z.leb_spec b a); [lia|].
  change (λ item, reservation_share_units (r_share_units item) cap) with (item_units cap).
  cbv zeta. destruct (Z.leb_spec (sumZ (item_units cap) (filter (λ item,
    _overlaps a b (r_start_at item) (r_end_at item) = true) shared)) cap); [done|].
  split; [done|lia].
Qed.

Definition capacity_kept (active : list reservation) (cap : Z) (now : datetime) : Prop :=
  ∀ g t, now ≤ t → sumZ (item_units cap) (sharers active g t) ≤ cap.

Lemma capacity_violations_nil active cap now :
  0 ≤ cap → (∀ r, r ∈ active → r_start_at r < r_end_at r ∧ now < r_end_at r) →
  _find_shared_capacity_violations active cap = [] ↔ capacity_kept active cap now.
Proof.
  intros Hcap Hok. unfold _find_shared_capacity_violations. rewrite bind_nil.
  setoid_rewrite elem_of_sorted_set. setoid_rewrite bind_nil.
  assert (Hsh : ∀ g item, item ∈ shared_on_gpu active g →
    item ∈ active ∧ r_mode item = MODE_SHARED ∧ g ∈ r_gpus item).
  { intros g item [[? ?] ?]%list_elem_of_filter. done. }
  split.
  - intros H g t Ht. destruct (sharers active g t) as [|x xs] eqn:E; [done|].
    assert (Hx : x ∈ sharers active g t) by (rewrite E; left).
    apply list_elem_of_filter in Hx as [(Hm & Hg & Hc) Hin]. unfold covers in Hc. simpl in Hc.
    assert (Hxs : x ∈ shared_on_gpu active g) by by apply list_elem_of_filter.
    destruct (pairs_cover (boundary_points (shared_on_gpu active g)) (r_start_at x) (r_end_at x) t)
      as (a & b & Hp & Ha & Hb); [apply sorted_set_strict|
      apply elem_of_boundary_points; exists x; by auto..|lia|lia|].
    specialize (H g ltac:(apply list_elem_of_bind; by exists x) (a, b) Hp). simpl in H.
    apply capacity_violation_nil in H; [|lia]. etrans; [|exact H]. rewrite <- E.
    unfold sharers, shared_on_gpu. rewrite filter_filter_and. apply sumZ_filter_mono.
    + intros i _. pose proof (item_units_pos cap i). lia.
    + intros i Hi (Him & Hig & Hic). split; [|done]. apply _overlaps_spec.
      unfold covers in Hic. simpl in Hic. lia.
  - intros H g _ [a b] Hp. pose proof Hp as Hp'.
    apply pairs_gap in Hp' as (Hab & _); [|apply sorted_set_strict].
    apply capacity_violation_nil; [done|]. etrans; [|apply (H g (Z.max now a)); lia].
    unfold sharers, shared_on_gpu. rewrite filter_filter_and. apply sumZ_filter_mono.
    + intros i _. pose proof (item_units_pos cap i). lia.
    + intros i Hi (Ho & Hm & Hg). split; [done|]. split; [done|].
      destruct (Hok i Hi) as [Hlt Hnow].
      destruct (boundary_segment _ a b i Hp) as [[_ Hseg]|?];
        [by apply list_elem_of_filter| |lia].
      apply Hseg in Ho. unfold covers. simpl. lia.
Qed.

(** ** The audit and the safety of the ledger *)

Lemma active_holders l now g t :
  now ≤ t →
  span_of <$> filter (λ r, g ∈ r_gpus r ∧ covers (span_of r) t) (list_active l now)
  ≡ₚ holders (active_spans l) g t.
Proof.
  intros Ht. unfold list_active. rewrite records_perm, filter_filter_and.
  unfold holders, active_spans, spans_of. rewrite !filter_fmap_list, filter_filter_and.
  rewrite (filter_ext_in _ (λ r, (g ∈ sp_gpus (span_of r) ∧ covers (span_of r) t) ∧ is_active r));
    [done|].
  intros r _. unfold is_active, covers. simpl. split; [tauto|].
  intros ((? & ? & ?) & ?). split_and!; (done || lia).
Qed.

Lemma audit_safe l now cap :
  exclusive_alone (list_active l now) now ∧ capacity_kept (list_active l now) cap now ↔
  safe_from now cap l.
Proof.
  unfold exclusive_alone, capacity_kept, safe_from, slot_safe.
  assert (Hunits : ∀ g t, now ≤ t → units_at cap (active_spans l) g t
    = sumZ (item_units cap) (sharers (list_active l now) g t)).
  { intros g t Ht. unfold units_at, shared_holders. rewrite <- (active_holders l now g t Ht).
    rewrite filter_fmap_list, filter_filter_and. unfold sharers.
    rewrite (filter_ext_in _ (λ r, r_mode r = MODE_SHARED ∧ g ∈ r_gpus r ∧ covers (span_of r) t))
      by done.
    set (rs := filter _ _). clearbody rs. induction rs as [|r rs IH]; csimpl; [done|].
    by rewrite IH. }
  assert (Hex : ∀ g t, now ≤ t →
    (∀ sp, sp ∈ holders (active_spans l) g t → sp_mode sp = MODE_EXCLUSIVE →
       length (holders (active_spans l) g t) = 1%nat) ↔
    (let hs := filter (λ r, g ∈ r_gpus r ∧ covers (span_of r) t) (list_active l now) in
     ∀ r, r ∈ hs → r_mode r = MODE_EXCLUSIVE → length hs = 1%nat)).
  { intros g t Ht. cbv zeta. pose proof (active_holders l now g t Ht) as Hp.
    assert (Hlen := Permutation_length Hp). rewrite length_fmap in Hlen.
    assert (Hel : ∀ sp, sp ∈ holders (active_spans l) g t ↔ ∃ r, sp = span_of r ∧
      r ∈ filter (λ r, g ∈ r_gpus r ∧ covers (span_of r) t) (list_active l now)).
    { intros sp. by rewrite <- Hp, list_elem_of_fmap. }
    setoid_rewrite Hel. rewrite <- Hlen.
    split; [intros H r Hr Hm; apply (H (span_of r)); [by exists r|done]|].
    intros H sp (r & -> & Hr) Hm. by apply (H r). }
  split.
  - intros [H1 H2] g t Ht. split; [by apply Hex, H1|]. rewrite Hunits by done. by apply H2.
  - intros H. split; intros g t Ht; destruct (H g t Ht) as [H1 H2]; [by apply Hex|].
    by rewrite <- Hunits.
Qed.

Lemma audit_nil active cap :
  audit active cap = [] ↔
  _find_invalid_share_unit_violations active cap = [] ∧
  _find_exclusive_overlap_violations active = [] ∧
  _find_shared_capacity_violations active cap = [].
Proof.
  unfold audit. split.
  - intros E. pose proof (length_sort_by violation_leb
      (_find_invalid_share_unit_violations active cap ++ _find_exclusive_overlap_violations active
       ++ _find_shared_capacity_violations active cap)) as Hl.
    rewrite E in Hl. symmetry in Hl. apply nil_length_inv in Hl.
    by apply app_nil in Hl as [? ?%app_nil].
  - by intros (-> & -> & ->).
Qed.

Lemma audit_iff_safe l now cap :
  ledger_ok l → 0 ≤ cap →
  audit (list_active l now) cap = [] ↔
  (∀ r raw, r ∈ l_reservations l → live now r → r_mode r = MODE_SHARED →
     r_share_units r = Some raw → ∃ n, normalize_share_units raw cap = Ok n) ∧
  safe_from now cap l.
Proof.
  intros Hl Hcap. rewrite audit_nil, invalid_units_nil, <- audit_safe.
  assert (Hok : ∀ r, r ∈ list_active l now → r_start_at r < r_end_at r ∧ now < r_end_at r).
  { intros r [Hr [_ He]]%elem_of_list_active. split; [by apply ro_interval, (lo_reservations l Hl)|done]. }
  rewrite (capacity_violations_nil _ cap now Hcap Hok). setoid_rewrite elem_of_list_active.
  split.
  - intros (H1 & H2 & H3). split; [naive_solver|].
    split; [by apply exclusive_overlap_alone|done].
  - intros (H1 & H2 & H3). split; [naive_solver|].
    split; [by eapply exclusive_alone_overlap|done].
Qed.

(** ** Properties *)

(** C28: the audit is exact: on a well-formed ledger it reports nothing at a
    given time exactly when every share recorded in a live shared reservation
    is a legal one and, from that time on, no GPU is ever over its capacity:
    no exclusive reservation beside another one, no more share slots than the
    GPU has. *)
Theorem violations_iff_unsafe l max_shared_users now w :
  ledger_ok l → 0 ≤ max_shared_users →
  ∃ issues, find_policy_violations l max_shared_users (Some now) w = (Ok issues, w) ∧
    (issues = [] ↔
     (∀ r raw, r ∈ l_reservations l → live now r → r_mode r = MODE_SHARED →
        r_share_units r = Some raw → ∃ n, normalize_share_units raw max_shared_users = Ok n) ∧
     safe_from now max_shared_users l).
Proof.
  intros Hl Hcap. exists (audit (list_active l now) max_shared_users). split; [done|].
  by apply audit_iff_safe.
Qed.

(** The load shown for a shared reservation is the maximum over the instants
    it covers and the GPUs it holds: no instant has more share slots in use, and
    some instant has exactly that many; the memory headroom of a GPU of known
    capacity is what the instant of greatest use leaves of the usable memory. *)
Theorem shared_load_is_peak reservations r max_shared_users caps reserve :
  reservation_ok r → r_mode r = MODE_SHARED →
  (let peak := max_shared_capacity_units_for_reservation reservations r max_shared_users in
   (∀ t g, covers (span_of r) t → g ∈ r_gpus r →
      sumZ (item_units max_shared_users) (sharers reservations g t) ≤ peak) ∧
   ∃ t g, covers (span_of r) t ∧ g ∈ r_gpus r ∧
     peak = sumZ (item_units max_shared_users) (sharers reservations g t)) ∧
  (let peak := max_shared_record_count_for_reservation reservations r in
   (∀ t g, covers (span_of r) t → g ∈ r_gpus r →
      Z.of_nat (length (sharers reservations g t)) ≤ peak) ∧
   ∃ t g, covers (span_of r) t ∧ g ∈ r_gpus r ∧
     peak = Z.of_nat (length (sharers reservations g t))) ∧
  ∀ g c, g ∈ r_gpus r → memory_capacity (Some caps) g = Some c →
    let usable := Z.max 0 (c - reserve) in
    ∃ peak,
      shared_memory_headroom_for_reservation reservations r caps max_shared_users reserve !! g
        = Some (Z.max 0 (usable - peak)) ∧
      (∀ t, covers (span_of r) t →
         sumZ (item_memory usable max_shared_users) (sharers reservations g t) ≤ peak) ∧
      ∃ t, covers (span_of r) t ∧
        peak = sumZ (item_memory usable max_shared_users) (sharers reservations g t).
Proof.
  intros Hr Hm. pose proof (cut_peak reservations (neighbours reservations r) r (r_gpus r)
    (ro_interval r Hr) (neighbours_overlap reservations r)
    ltac:(intros; by eapply neighbours_all)) as Hpk.
  assert (Hcount : ∀ l : list reservation, sumZ (λ _, 1) l = Z.of_nat (length l)).
  { induction l as [|x l IH]; csimpl; [done|]. rewrite IH. lia. }
  split; [|split].
  - unfold max_shared_capacity_units_for_reservation. rewrite bool_decide_eq_true_2 by done.
    apply (Hpk (sumZ (item_units max_shared_users))); [by apply ro_gpus_nonempty| |done].
    intros l. apply sumZ_nonneg. intros i _. pose proof (item_units_pos max_shared_users i). lia.
  - unfold max_shared_record_count_for_reservation. rewrite bool_decide_eq_true_2 by done.
    setoid_rewrite <- Hcount.
    apply (Hpk (sumZ (λ _, 1))); [by apply ro_gpus_nonempty| |done].
    intros l. apply sumZ_nonneg. lia.
  - intros g c Hg Hc. cbv zeta. rewrite headroom_lookup by done. by apply gpu_headroom_Some.
Qed.

Lemma violations_iff_unsafe_witness :
  ∃ issues, find_policy_violations busy_ledger 2 (Some noon) example_world = (Ok issues, example_world)
    ∧ issues = [] ∧ safe_from noon 2 busy_ledger.
Proof.
  destruct (violations_iff_unsafe busy_ledger 2 noon example_world busy_ledger_ok
    ltac:(vm_compute; discriminate)) as (issues & Hrun & Hiff).
  assert (E : issues = []) by (vm_compute in Hrun; by injection Hrun).
  exists issues. split; [exact Hrun|]. split; [exact E|]. exact (proj2 (proj1 Hiff E)).
Defined.

(** Two shared reservations that overlap for half an hour on GPU 0. *)
Definition first_shared : reservation :=
  Reservation "s-1" None 1001 (Some "ann") [0] MODE_SHARED noon (noon + hours 1)
    STATUS_ACTIVE None None (Some 1024) (Some (JInt 1)) None None (Some []) None (Some []).

Definition second_shared : reservation :=
  Reservation "s-2" None 1002 (Some "bob") [0] MODE_SHARED (noon + minutes 30) (noon + hours 2)
    STATUS_ACTIVE None None (Some 2048) (Some (JInt 2)) None None (Some []) None (Some []).

Lemma first_shared_ok : reservation_ok first_shared.
Proof. constructor; try decide_now; try done. intros m [= <-]. lia. Qed.

Lemma shared_load_is_peak_witness :
  max_shared_capacity_units_for_reservation [first_shared; second_shared] first_shared 4 = 3 ∧
  shared_memory_headroom_for_reservation [first_shared; second_shared] first_shared
    {[0 := 8192]} 4 192 !! 0 = Some 4928 ∧
  sumZ (item_units 4) (sharers [first_shared; second_shared] 0 (noon + minutes 45)) ≤ 3.
Proof.
  split; [vm_compute; reflexivity|]. split; [vm_compute; reflexivity|].
  destruct (shared_load_is_peak [first_shared; second_shared] first_shared 4 {[0 := 8192]} 192
    first_shared_ok eq_refl) as ((H & _) & _).
  exact (H (noon + minutes 45) 0 ltac:(decide_now) ltac:(left)).
Defined.
