(* ===== verification/Booking.v ===== *)
(** * Booking: creating reservations ([add_booking] in [src/src/bk/scheduler.py])

    [add_checks] is the part of [add_booking] before the transaction,
    [add_mutate] the closure the store runs on the current ledger. *)

From S2P Require Import Prelude PyBase Granularity Timeparse Models Sharing Config Policy.
From S2P Require Import ScheduleIndex Availability Placement Search Sha256 Requests.
From S2P Require Import Maintenance Safety.

(** ** Explaining a refusal *)

(** [request.share_units or 1] *)
Definition share_or_1 (units : option Z) : Z :=
  match units with Some u => if u =? 0 then 1 else u | None => 1 end.

Definition _nearest_available_hint (l : ledger) (c : config) (request : booking_request)
    (start : datetime) (preferred : option (list Z)) : M string :=
  slot ← find_earliest_slot l c (b_count request) start (seconds (b_duration_seconds request))
    (b_mode request) (a_uid (b_actor request)) preferred true (b_gpu_order request)
    (dict_of <$> b_gpu_scores request) (b_expected_memory_mb request)
    (dict_of <$> b_gpu_memory_capacity_mb request) (share_or_1 (b_share_units request))
    (b_excluded_gpus request);
  mret match slot with
  | None => ""
  | Some (candidate_start, gpus) =>
      "nearest available: GPU=" +:+ csv gpus +:+ " " +:+ to_iso candidate_start +:+ " -> "
        +:+ to_iso (candidate_start + seconds (b_duration_seconds request))
  end.

Definition or_text (s fallback : string) : string := if bool_decide (s = "") then fallback else s.

Definition _availability_failure_message (l : ledger) (c : config) (request : booking_request)
    (start end_ : datetime) (preferred : option (list Z)) : M string :=
  reason ←
    match preferred with
    | Some gpus =>
        let details := map (λ gpu, availability_detail l gpu start end_ (b_mode request)
          (a_uid (b_actor request)) (max_shared_users c) (b_expected_memory_mb request)
          (dict_of <$> b_gpu_memory_capacity_mb request) (shared_memory_reserve_mb c)
          (share_or_1 (b_share_units request))) gpus in
        let reasons := snd <$> filter (λ d, d.1 = false) details in
        mret (or_text (_combine_reasons reasons) "GPU(s) unavailable for this time range")
    | None =>
        '(_, reason) ← find_available_gpus_with_reason l c (b_count request) start end_
          (b_mode request) (a_uid (b_actor request)) (b_gpu_order request)
          (dict_of <$> b_gpu_scores request) (b_expected_memory_mb request)
          (dict_of <$> b_gpu_memory_capacity_mb request) (share_or_1 (b_share_units request))
          (b_excluded_gpus request);
        mret (or_text reason "not enough GPUs available for this request")
    end;
  hint ← _nearest_available_hint l c request start preferred;
  if negb (bool_decide (hint = "")) then mret (reason +:+ "; " +:+ hint)
  else mret (reason +:+ "; no available slot within next " +:+ str_of_Z (queue_search_hours c)
             +:+ " hours").

(** ** Duplicates *)

Definition _find_exact_duplicate (l : ledger) (uid : Z) (gpus : list Z) (start end_ : datetime)
    (mode : string) (expected_memory_mb : option Z) (jm : option job_metadata) (share_units : Z)
    (aliases : list string) : option reservation :=
  head (filter (λ item,
    r_uid item = uid ∧ r_mode item = mode ∧
    sort_by Z.leb (r_gpus item) = sort_by Z.leb gpus ∧
    _same_request_metadata item expected_memory_mb jm share_units aliases = true ∧
    r_start_at item = start ∧ r_end_at item = end_) (list_active l start)).

Definition _find_auto_duplicate (l : ledger) (uid count : Z) (start end_ : datetime)
    (mode : string) (expected_memory_mb : option Z) (jm : option job_metadata) (share_units : Z)
    (aliases : list string) : option reservation :=
  head (filter (λ item,
    r_uid item = uid ∧ r_mode item = mode ∧ Z.of_nat (length (r_gpus item)) = count ∧
    _same_request_metadata item expected_memory_mb jm share_units aliases = true ∧
    r_start_at item = start ∧ r_end_at item = end_) (list_active l start)).

(** ** [add_booking] *)

(** What the checks before the transaction produce. *)
Record checked := Checked {
  ck_job : option job_metadata;
  ck_aliases : list string;
  ck_op_id : option string;
  ck_memory : option Z;
  ck_units : Z;
  ck_capacities : gmap Z Z;
}.

Definition check_shape (c : config) (request : booking_request) : res unit :=
  if negb (bool_decide (b_mode request = MODE_SHARED)
           || bool_decide (b_mode request = MODE_EXCLUSIVE))
  then Raise (BookingError ("unsupported booking mode: " +:+ b_mode request))
  else if b_count request <? 1 then Raise (BookingError "GPU count must be >= 1")
  else if b_duration_seconds request <=? 0 then Raise (BookingError "duration must be positive")
  else _validate_duration_granularity (b_duration_seconds request) (slot_minutes c).

Definition check_budget (c : config) (request : booking_request) (expected : option Z) : res unit :=
  if bool_decide (b_mode request = MODE_SHARED) && require_shared_memory c
     && bool_decide (expected = None)
  then Raise (BookingError "shared reservations must include a resolved memory budget")
  else Ok tt.

Definition add_checks (c : config) (request : booking_request) : res checked :=
  _ ← check_shape c request;
  jm ← _normalize_job_metadata (b_job_spec_id request) (b_job_digest request)
         (b_job_summary request);
  aliases ← _normalize_job_digest_aliases (default [] (b_job_digest_aliases request));
  _ ← (if bool_decide (jm = None) && negb (bool_decide (aliases = []))
       then Raise (BookingError "legacy job digest aliases require job metadata") else Ok tt);
  op_id ← _normalize_operation_id (b_op_id request);
  expected ← _normalize_expected_memory (b_expected_memory_mb request);
  units ← _request_share_units (b_mode request) (b_share_units request) (max_shared_users c);
  _ ← check_budget c request expected;
  capacities ← _normalize_memory_capacities (b_gpu_memory_capacity_mb request) c;
  Ok (Checked jm aliases op_id expected units capacities).

(** The job object of a new reservation. *)
Definition new_job (jm : job_metadata) (now : datetime) : job :=
  job_set
    (match jm_spec_id jm with Some s => [("spec_id", JStr s)] | None => [] end ++
     [("digest", JStr (jm_digest jm)); ("summary", JStr (jm_summary jm));
      ("status", JStr JOB_PENDING); ("submitted_at", JStr (to_iso now));
      ("claimed_at", JNull); ("started_at", JNull); ("finished_at", JNull);
      ("exit_code", JNull); ("runner_pid", JNull); ("runner_host", JNull)]) ∅.

(** The record appended to the ledger. *)
Definition new_reservation (request : booking_request) (ck : checked) (signature : string)
    (now : datetime) (id op_id : string) (gpus : list Z) (start end_ : datetime) : reservation :=
  Reservation id (Some op_id) (a_uid (b_actor request)) (Some (a_username (b_actor request)))
    gpus (b_mode request) start end_ STATUS_ACTIVE (Some now) (Some now)
    (ck_memory ck)
    (if bool_decide (b_mode request = MODE_SHARED) then Some (JInt (ck_units ck)) else None)
    (match ck_op_id ck with Some _ => Some signature | None => None end)
    ((λ jm, new_job jm now) <$> ck_job ck)
    (Some []) None (Some []).

(** The create with this operation id, when the ledger already has one. *)
Definition applied_create (l : ledger) (request : booking_request) (ck : checked)
    (signature : string) : res (option reservation) :=
  match ck_op_id ck with
  | None => Ok None
  | Some op_id =>
      applied ← _find_applied_operation l (a_uid (b_actor request)) op_id;
      match applied with
      | None => Ok None
      | Some (action, existing, existing_signature) =>
          if negb (bool_decide (action = Created))
             || (negb (bool_decide (existing_signature = None))
                 && negb (bool_decide (existing_signature = Some signature)))
             || negb (_same_request_metadata existing (ck_memory ck) (ck_job ck) (ck_units ck)
                        (ck_aliases ck))
          then Raise (BookingError "operation ID was already used for a different write")
          else Ok (Some existing)
      end
  end.

Definition duplicate_of (l : ledger) (request : booking_request) (ck : checked)
    (preferred : option (list Z)) (start end_ : datetime) : option reservation :=
  if b_allow_queue request then None
  else
    let uid := a_uid (b_actor request) in
    match preferred with
    | Some gpus => _find_exact_duplicate l uid gpus start end_ (b_mode request) (ck_memory ck)
                     (ck_job ck) (ck_units ck) (ck_aliases ck)
    | None => _find_auto_duplicate l uid (b_count request) start end_ (b_mode request)
                (ck_memory ck) (ck_job ck) (ck_units ck) (ck_aliases ck)
    end.

(** From the search for a slot to the end of [mutate]. *)
Definition place_new (c : config) (request : booking_request) (ck : checked) (l : ledger)
    (now start : datetime) (signature : string) (preferred : option (list Z)) (excluded : list Z)
    (gpu_order : list Z) (gpu_scores : gmap Z pyfloat) : M (mutation booking_result) :=
  let duration := seconds (b_duration_seconds request) in
  slot ← find_earliest_slot l c (b_count request) start duration (b_mode request)
    (a_uid (b_actor request)) preferred (b_allow_queue request) (Some gpu_order)
    (Some gpu_scores) (ck_memory ck) (Some (ck_capacities ck)) (ck_units ck) (Some excluded);
  match slot with
  | None =>
      reason ← _availability_failure_message l c request start (start + duration) preferred;
      raise (BookingError reason)
  | Some (scheduled_start, gpus) =>
      let queued := start <? scheduled_start in
      if negb (b_allow_queue request) && negb (scheduled_start =? start)
      then raise (BookingError "internal scheduler error: exact request moved unexpectedly")
      else
        id ← uuid4;
        op_id ← match ck_op_id ck with Some o => mret o | None => uuid4 end;
        let r := new_reservation request ck signature now id op_id gpus scheduled_start
                   (scheduled_start + duration) in
        let message := if queued then "queued" else "created" in
        log ← _log_item (b_actor request) "add" r "ok" message None;
        mret (set_reservations (l_reservations l ++ [r]) l,
              BookingResult r true message queued, [log], true)
  end.

Definition add_mutate (c : config) (request : booking_request) (ck : checked) (l : ledger)
    : M (mutation booking_result) :=
  now ← utc_now;
  '(l, bound) ← lift (bind_ledger_policy l c);
  let '(l, maintained) := _maintain_ledger l now (ledger_retention_days c) in
  let changed := maintained || bound in
  start ← lift (_normalize_start (b_start_at request) (b_allow_queue request) now (slot_minutes c));
  end_ ← lift (date_in_range (start + seconds (b_duration_seconds request)));
  let preferred := _normalize_preferred_gpus (b_preferred_gpus request) in
  excluded ← lift (_normalize_excluded_gpus (b_excluded_gpus request) c);
  gpu_order ← lift (_normalize_gpu_order (b_gpu_order request) c);
  gpu_scores ← lift (_normalize_gpu_scores (b_gpu_scores request) c);
  _ ← lift (_validate_gpu_scope c (b_count request) preferred excluded);
  policy_reason ← booking_policy_conflict c start end_ (Some now);
  if negb (bool_decide (policy_reason = "")) && negb (b_allow_queue request)
  then raise (BookingError policy_reason)
  else
    let signature := _create_operation_signature request start preferred (ck_memory ck) (ck_job ck)
                       (ck_units ck) excluded in
    applied ← lift (applied_create l request ck signature);
    match applied with
    | Some existing =>
        mret (l, BookingResult existing false "operation already applied" false, [], changed)
    | None =>
        match duplicate_of l request ck preferred start end_ with
        | Some duplicate =>
            mret (l, BookingResult duplicate false "duplicate request ignored" false, [], changed)
        | None =>
            let current_slice_start := slot_floor now (slot_minutes c) in
            if start <? current_slice_start
            then raise (BookingError ("booking start must not be before the current booking slice ("
                          +:+ to_iso current_slice_start +:+ ")"))
            else place_new c request ck l now start signature preferred excluded gpu_order
                   gpu_scores
        end
    end.

(** ** [find_applied_create] *)

(** A read-only replay: the intent stands for the job metadata. *)
Definition find_applied_create (l : ledger) (c : config) (request : booking_request)
    : M (option booking_result) :=
  op_id ← lift (_normalize_operation_id (b_op_id request));
  match op_id with
  | None => mret None
  | Some op_id =>
      _ ← lift (validate_ledger_policy l c);
      _ ← lift (check_shape c request);
      intent ← lift (_normalize_job_intent (b_job_digest request) (b_job_summary request));
      aliases ← lift (_normalize_job_digest_aliases (default [] (b_job_digest_aliases request)));
      _ ← lift (if bool_decide (intent = None) && negb (bool_decide (aliases = []))
                then Raise (BookingError "legacy job digest aliases require job metadata")
                else Ok tt);
      expected ← lift (_normalize_expected_memory (b_expected_memory_mb request));
      units ← lift (_request_share_units (b_mode request) (b_share_units request)
                      (max_shared_users c));
      _ ← lift (check_budget c request expected);
      now ← utc_now;
      start ← lift (_normalize_start (b_start_at request) (b_allow_queue request) now
                      (slot_minutes c));
      let preferred := _normalize_preferred_gpus (b_preferred_gpus request) in
      excluded ← lift (_normalize_excluded_gpus (b_excluded_gpus request) c);
      _ ← lift (_validate_gpu_scope c (b_count request) preferred excluded);
      let signature := _create_operation_signature request start preferred expected intent units
                         excluded in
      applied ← lift (_find_applied_operation l (a_uid (b_actor request)) op_id);
      match applied with
      | None => mret None
      | Some (action, existing, existing_signature) =>
          match existing_signature with
          | None => mret None
          | Some existing_signature =>
              if negb (bool_decide (action = Created))
                 || negb (bool_decide (existing_signature = signature))
                 || negb (_same_request_metadata existing expected intent units aliases)
              then raise (BookingError "operation ID was already used for a different write")
              else mret (Some (BookingResult existing false "operation already applied" false))
          end
      end
  end.

(** ** Runs of [add_mutate] *)

Lemma forward_find_earliest l c count es d mode uid p q o s e k u x :
  forward (find_earliest_slot l c count es d mode uid p q o s e k u x).
Proof.
  unfold find_earliest_slot. apply forward_bind; [apply forward_lift|]. intros ?.
  apply forward_bind; [apply forward_clock|]. intros ?. apply forward_bind; [apply forward_lift|].
  intros ?. apply forward_first_fit.
Qed.

#[export] Hint Resolve forward_find_earliest : bk.

(** What a successful run that adds a reservation computed on the way. *)
Record creation := Creation {
  cn_start : datetime;
  cn_excluded : list Z;
  cn_order : list Z;
  cn_scores : gmap Z pyfloat;
  cn_signature : string;
  cn_id : string;
  cn_op_id : string;
  cn_slot : datetime;
  cn_gpus : list Z;
  cn_before : world;
  cn_after : world;
}.

Record created (c : config) (request : booking_request) (ck : checked) (now : datetime)
    (lm : ledger) (w : world) (l' : ledger) (res : booking_result) (logs : list log_item)
    (w' : world) (k : creation) : Prop := CreatedBy {
  cr_start_ok : _normalize_start (b_start_at request) (b_allow_queue request) now
                  (slot_minutes c) = Ok (cn_start k);
  cr_end_ok : representable (cn_start k + seconds (b_duration_seconds request));
  cr_excluded_ok : _normalize_excluded_gpus (b_excluded_gpus request) c = Ok (cn_excluded k);
  cr_order_ok : _normalize_gpu_order (b_gpu_order request) c = Ok (cn_order k);
  cr_scores_ok : _normalize_gpu_scores (b_gpu_scores request) c = Ok (cn_scores k);
  cr_scope : _validate_gpu_scope c (b_count request)
               (_normalize_preferred_gpus (b_preferred_gpus request)) (cn_excluded k) = Ok tt;
  cr_policy : b_allow_queue request = false →
    policy_conflict_at c now (cn_start k) (cn_start k + seconds (b_duration_seconds request)) = "";
  cr_signature : cn_signature k = _create_operation_signature request (cn_start k)
      (_normalize_preferred_gpus (b_preferred_gpus request)) (ck_memory ck) (ck_job ck)
      (ck_units ck) (cn_excluded k);
  cr_not_applied : applied_create lm request ck (cn_signature k) = Ok None;
  cr_not_duplicate : duplicate_of lm request ck
      (_normalize_preferred_gpus (b_preferred_gpus request)) (cn_start k)
      (cn_start k + seconds (b_duration_seconds request)) = None;
  cr_slice : slot_floor now (slot_minutes c) ≤ cn_start k;
  cr_search : find_earliest_slot lm c (b_count request) (cn_start k)
      (seconds (b_duration_seconds request)) (b_mode request) (a_uid (b_actor request))
      (_normalize_preferred_gpus (b_preferred_gpus request)) (b_allow_queue request)
      (Some (cn_order k)) (Some (cn_scores k)) (ck_memory ck) (Some (ck_capacities ck))
      (ck_units ck) (Some (cn_excluded k)) (cn_before k)
    = (Ok (Some (cn_slot k, cn_gpus k)), cn_after k);
  cr_exact : b_allow_queue request = false → cn_slot k = cn_start k;
  cr_before : later w (cn_before k);
  cr_after : later (cn_after k) w';
  cr_id : ∃ i, (w_draws w ≤ i < w_draws w')%nat ∧ cn_id k = w_uuid w i;
  cr_op_id : ∀ o, ck_op_id ck = Some o → cn_op_id k = o;
  cr_result : res = BookingResult
    (new_reservation request ck (cn_signature k) now (cn_id k) (cn_op_id k) (cn_gpus k)
       (cn_slot k) (cn_slot k + seconds (b_duration_seconds request)))
    true (if cn_start k <? cn_slot k then "queued" else "created") (cn_start k <? cn_slot k);
  cr_ledger : l' = set_reservations (l_reservations lm ++ [br_reservation res]) lm;
  cr_log : length logs = 1%nat;
}.

Lemma applied_create_Some l request ck sig r :
  applied_create l request ck sig = Ok (Some r) →
  ∃ o s, ck_op_id ck = Some o ∧ r_uid r = a_uid (b_actor request) ∧ r ∈ l_reservations l ∧
    applied_in o r = Ok (Some (Created, s)) ∧ (s = None ∨ s = Some sig) ∧
    _same_request_metadata r (ck_memory ck) (ck_job ck) (ck_units ck) (ck_aliases ck) = true.
Proof.
  unfold applied_create. destruct (ck_op_id ck) as [o|]; [|done].
  rewrite res_bind_Ok. intros ([[[kind existing] s]|] & Hf & H); [|done].
  destruct (_ || _) eqn:Hb; [done|]. simplify_eq. bk_split.
  apply find_applied_Some in Hf as (?&?&?). subst kind. exists o, s. do 4 (split; [done|]).
  split; [|done]. destruct s as [s|]; [|by left]. right.
  match goal with E : _ && _ = false |- _ => apply andb_false_iff in E end.
  rewrite !negb_false_iff, !bool_decide_eq_true in *. naive_solver.
Qed.

Lemma head_filter {A} (P : A → Prop) `{!∀ a, Decision (P a)} (l : list A) a :
  head (filter P l) = Some a → a ∈ l ∧ P a.
Proof.
  intros Hh. assert (Hin : a ∈ filter P l).
  { destruct (filter P l); simplify_eq/=. left. }
  by apply list_elem_of_filter in Hin as [? ?].
Qed.

Lemma duplicate_of_Some l request ck preferred start end_ r :
  duplicate_of l request ck preferred start end_ = Some r →
  r ∈ l_reservations l ∧ live start r ∧ r_uid r = a_uid (b_actor request) ∧
  r_mode r = b_mode request ∧ r_start_at r = start ∧ r_end_at r = end_ ∧
  _same_request_metadata r (ck_memory ck) (ck_job ck) (ck_units ck) (ck_aliases ck) = true.
Proof.
  unfold duplicate_of, _find_exact_duplicate, _find_auto_duplicate.
  destruct (b_allow_queue request); [done|].
  destruct preferred; intros (Hin & ?)%head_filter; apply elem_of_list_active in Hin; naive_solver.
Qed.

(** The outcomes of a successful run. *)
Lemma add_mutate_run c request ck l w l' res logs changed w' :
  add_mutate c request ck l w = (Ok (l', res, logs, changed), w') →
  ∃ now lm, now = replace_microsecond_0 (w_clock w (w_reads w)) ∧ prepared c now l lm ∧ later w w' ∧
    (w_reads w < w_reads w')%nat ∧
    ((l' = lm ∧ br_created res = false ∧ logs = [] ∧ br_reservation res ∈ l_reservations lm) ∨
     (changed = true ∧ ∃ k, created c request ck now lm w l' res logs w' k)).
Proof.
  intros Hrun. pose proof Hrun as Hfwd. unfold add_mutate in Hrun.
  apply M_bind_Ok in Hrun as (now & w1 & Hnow & Hrun). pose proof (forward_Ok _ _ _ _ forward_clock Hnow) as Hl1.
  apply clock_now_Ok in Hnow as [Hnow Hw1].
  apply M_bind_Ok in Hrun as ([lb bound] & w2 & Hb & Hrun). apply lift_Ok in Hb as [Hb <-].
  destruct (_maintain_ledger lb now (ledger_retention_days c)) as [lm maintained] eqn:Em.
  assert (Hprep : prepared c now l lm).
  { exists lb, bound. split; [done|]. by rewrite Em. }
  assert (Hr1 : (w_reads w < w_reads w1)%nat) by (subst w1; simpl; lia). clear Hw1.
  apply M_bind_Ok in Hrun as (start & w2 & Hs & Hrun). apply lift_Ok in Hs as [Hs <-].
  apply M_bind_Ok in Hrun as (end_ & w2 & [[-> Hend]%date_in_range_Ok <-]%lift_Ok & Hrun).
  apply M_bind_Ok in Hrun as (ex & w2 & Hex & Hrun). apply lift_Ok in Hex as [Hex <-].
  apply M_bind_Ok in Hrun as (ord & w2 & Hord & Hrun). apply lift_Ok in Hord as [Hord <-].
  apply M_bind_Ok in Hrun as (sc & w2 & Hsc & Hrun). apply lift_Ok in Hsc as [Hsc <-].
  apply M_bind_Ok in Hrun as ([] & w2 & Hscope & Hrun). apply lift_Ok in Hscope as [Hscope <-].
  apply M_bind_Ok in Hrun as (pol & w2 & Hpol & Hrun). apply conflict_Ok in Hpol as (now0 & Hpol & [-> ->]).
  rewrite Hnow, replace_microsecond_0_idemp, <- Hnow in Hpol.
  destruct (_ && _) eqn:Hq; [discriminate|].
  apply M_bind_Ok in Hrun as (app & w2 & Happ & Hrun). apply lift_Ok in Happ as [Happ <-].
  exists now, lm. split; [done|]. split; [done|].
  destruct app as [existing|].
  { apply M_ret_Ok in Hrun as [? ->]. simplify_eq. do 2 (split; [done|]). left. simpl.
    do 3 (split; [done|]). by apply applied_create_Some in Happ as (?&?&?&?&?&?). }
  destruct (duplicate_of _ _ _ _ _ _) as [dup|] eqn:Hdup.
  { apply M_ret_Ok in Hrun as [? ->]. simplify_eq. do 2 (split; [done|]). left. simpl.
    do 3 (split; [done|]). by apply duplicate_of_Some in Hdup as (?&?). }
  destruct (Z.ltb_spec start (slot_floor now (slot_minutes c))); [discriminate|].
  unfold place_new in Hrun.
  apply M_bind_Ok in Hrun as (slot & w3 & Hfind & Hrun).
  destruct slot as [[s gpus]|].
  2:{ apply M_bind_Ok in Hrun as (? & ? & _ & Hrun). discriminate. }
  destruct (negb (b_allow_queue request) && negb (s =? start)) eqn:Hexact; [discriminate|].
  apply M_bind_Ok in Hrun as (id & w4 & Hid & Hrun). apply uuid4_Ok in Hid as [Hid Hw4].
  apply M_bind_Ok in Hrun as (op & w5 & Hop & Hrun).
  apply M_bind_Ok in Hrun as (log & w6 & Hlog & Hrun). apply M_ret_Ok in Hrun as [? <-].
  assert (Hl3 : later w1 w3) by (eapply forward_Ok; [|exact Hfind]; auto with bk).
  assert (Hl5 : later w4 w5 ∧ ∀ o, ck_op_id ck = Some o → op = o).
  { destruct (ck_op_id ck) as [o|].
    - apply M_ret_Ok in Hop as [<- <-]. split; [done|]. by intros ? [= ->].
    - split; [|done]. eapply forward_Ok; [|exact Hop]. auto with bk. }
  destruct Hl5 as [Hl5 Hop'].
  assert (Hl6 : later w5 w6) by (eapply forward_Ok; [|exact Hlog]; auto with bk).
  assert (Hl4 : later w3 w4) by (subst w4; unfold later; simpl; repeat split; lia).
  assert (Hl36 : later w3 w6) by (etrans; [exact Hl4|]; by etrans).
  assert (Hl16 : later w1 w6) by by etrans. assert (Hl06 : later w w6) by by etrans.
  assert (Hdraw : (w_draws w ≤ w_draws w3 < w_draws w6)%nat).
  { destruct Hl1 as (_&_&_&?), Hl3 as (_&_&_&?), Hl5 as (_&_&_&?), Hl6 as (_&_&_&?).
    subst w4. simpl in *. lia. }
  split; [done|]. split; [destruct Hl16 as (_&_&?&_); lia|]. right. simplify_eq. split; [done|].
  eexists (Creation start ex ord sc _ (w_uuid w3 (w_draws w3)) op s gpus w1 w3).
  constructor; simpl; try done.
  - intros Eq. rewrite Eq in Hq. simpl in Hq. rewrite andb_true_r in Hq.
    apply negb_false_iff, bool_decide_eq_true in Hq. done.
  - intros Eq. rewrite Eq in Hexact. simpl in Hexact. bk_split. done.
  - exists (w_draws w3). split; [done|]. destruct Hl1 as (_&E1&_), Hl3 as (_&E3&_). congruence.
Qed.

(** ** What the checks establish *)

Lemma value_error_as_booking_Ok {A} (m : res A) a : value_error_as_booking m = Ok a ↔ m = Ok a.
Proof. by destruct m as [|[]]. Qed.

Lemma check_shape_Ok c request :
  check_shape c request = Ok tt →
  (b_mode request = MODE_SHARED ∨ b_mode request = MODE_EXCLUSIVE) ∧ 1 ≤ b_count request ∧
  0 < b_duration_seconds request ∧ b_duration_seconds request mod (slot_minutes c * 60) = 0.
Proof.
  unfold check_shape, _validate_duration_granularity.
  destruct (negb (_ || _)) eqn:Hm; [done|]. repeat (case_match; [done|]). intros _. bk_split.
  apply orb_true_iff in Hm. rewrite !bool_decide_eq_true in Hm. done.
Qed.

Record checked_ok (c : config) (request : booking_request) (ck : checked) : Prop := CheckedOk {
  co_mode : b_mode request = MODE_SHARED ∨ b_mode request = MODE_EXCLUSIVE;
  co_count : 1 ≤ b_count request;
  co_duration : 0 < b_duration_seconds request;
  co_granularity : b_duration_seconds request mod (slot_minutes c * 60) = 0;
  co_memory : ∀ m, ck_memory ck = Some m → 1 ≤ m;
  co_units : b_mode request = MODE_SHARED → 1 ≤ ck_units ck ≤ max_shared_users c;
  co_budget : b_mode request = MODE_SHARED → require_shared_memory c = true → ck_memory ck ≠ None;
}.

Lemma shared_not_exclusive : MODE_SHARED ≠ MODE_EXCLUSIVE.
Proof. done. Qed.

Lemma _normalize_expected_memory_Ok v m :
  _normalize_expected_memory v = Ok m → m = v ∧ ∀ z, m = Some z → 1 ≤ z.
Proof.
  unfold _normalize_expected_memory. destruct v as [z|]; [|naive_solver].
  destruct (Z.leb_spec z 0); [done|]. intros [= <-]. split; [done|]. intros ? [= <-]. lia.
Qed.

Lemma _request_share_units_shared v cap n :
  _request_share_units MODE_SHARED v cap = Ok n → 1 ≤ n ≤ cap.
Proof.
  unfold _request_share_units. rewrite bool_decide_eq_false_2 by apply shared_not_exclusive.
  rewrite value_error_as_booking_Ok. apply normalize_share_units_Ok.
Qed.

Lemma check_budget_Ok c request e :
  check_budget c request e = Ok tt → b_mode request = MODE_SHARED →
  require_shared_memory c = true → e ≠ None.
Proof.
  unfold check_budget. intros H Hm Hr. rewrite Hm, Hr, bool_decide_eq_true_2 in H by done.
  simpl in H. case_bool_decide; done.
Qed.

Lemma add_checks_Ok c request ck :
  add_checks c request = Ok ck → checked_ok c request ck.
Proof.
  unfold add_checks. rewrite res_bind_Ok. intros ([] & Hshape & H).
  apply check_shape_Ok in Hshape as (?&?&?&?).
  rewrite res_bind_Ok in H. destruct H as (jm & _ & H).
  rewrite res_bind_Ok in H. destruct H as (al & _ & H).
  rewrite res_bind_Ok in H. destruct H as ([] & _ & H).
  rewrite res_bind_Ok in H. destruct H as (op & _ & H).
  rewrite res_bind_Ok in H. destruct H as (mem & Hmem & H).
  rewrite res_bind_Ok in H. destruct H as (units & Hunits & H).
  rewrite res_bind_Ok in H. destruct H as ([] & Hbudget & H).
  rewrite res_bind_Ok in H. destruct H as (caps & _ & H). simplify_eq.
  apply _normalize_expected_memory_Ok in Hmem as [_ Hmem].
  constructor; simpl; try done.
  - intros Hm. rewrite Hm in Hunits. by apply _request_share_units_shared in Hunits.
  - by apply check_budget_Ok.
Qed.

(** ** The new reservation *)

Section Created.
Context (c : config) (request : booking_request) (ck : checked) (now : datetime).
Context (lm : ledger) (w : world) (l' : ledger) (res : booking_result).
Context (logs : list log_item) (w' : world) (k : creation).
Context (Hck : checked_ok c request ck) (Hslot : valid_slot (slot_minutes c)).
Context (Hlm : ledger_ok lm).
Context (Hcr : created c request ck now lm w l' res logs w' k).

Let r := br_reservation res.
Let d := seconds (b_duration_seconds request).

Lemma created_duration_pos : 0 < d.
Proof. pose proof (co_duration _ _ _ Hck). unfold d, seconds, usec. lia. Qed.

Lemma created_placed :
  ∃ now' w1, clock_now (cn_before k) = (Ok now', w1) ∧ later w1 (cn_after k) ∧
    policy_conflict_at c now' (r_start_at r) (r_end_at r) = "" ∧
    placed (live_spans lm now') c (b_count request) d (b_mode request)
      (_normalize_preferred_gpus (b_preferred_gpus request)) (cn_excluded k) (ck_memory ck)
      (Some (ck_capacities ck)) (ck_units ck) (r_start_at r) (r_gpus r) ∧
    r_start_at r ∈ earliest_candidates (from_ledger lm now') c (cn_start k) now'
                     (b_allow_queue request).
Proof.
  destruct (find_earliest_slot_sound _ _ _ _ _ _ _ _ _ _ _ _ _ _ _ _ _ _ _ Hlm
    (co_count _ _ _ Hck) created_duration_pos (cr_search _ _ _ _ _ _ _ _ _ _ _ Hcr))
    as (now' & w1 & ex & Hn & Hl & Hex & Hpol & Hpl & Hin).
  destruct (_normalize_excluded_gpus_idem _ _ _ (cr_excluded_ok _ _ _ _ _ _ _ _ _ _ _ Hcr))
    as (ex' & Hex' & Heq).
  exists now', w1. unfold r. rewrite (cr_result _ _ _ _ _ _ _ _ _ _ _ Hcr). simpl.
  do 3 (split; [done|]). split; [|done].
  assert (ex = ex') as -> by congruence.
  destruct Hpl as (Hlen & Hg & Hp). split; [done|]. split; [|done].
  intros g Hin'. destruct (Hg g Hin') as (?&?&?). by rewrite <- Heq.
Qed.

Lemma created_gpus : NoDup (r_gpus r) ∧ r_gpus r ≠ [].
Proof.
  destruct created_placed as (now' & w1 & _ & _ & _ & (Hlen & _ & Hp) & _). split.
  - unfold _normalize_preferred_gpus in Hp. destruct (b_preferred_gpus request); simpl in Hp.
    + rewrite Hp. apply NoDup_sorted_set.
    + by destruct Hp.
  - intros E. rewrite E in Hlen. pose proof (co_count _ _ _ Hck). simpl in Hlen. lia.
Qed.

Lemma created_ok : reservation_ok r.
Proof.
  destruct created_gpus as [Hnd Hne]. unfold r in *.
  rewrite (cr_result _ _ _ _ _ _ _ _ _ _ _ Hcr) in *. simpl in *.
  pose proof created_duration_pos as Hd. unfold d in Hd.
  constructor; simpl; try done.
  - lia.
  - apply (co_mode _ _ _ Hck).
  - by left.
  - apply (co_memory _ _ _ Hck).
Qed.

Lemma created_on_slot : on_slot (slot_minutes c) (r_start_at r) ∧ on_slot (slot_minutes c) (r_end_at r).
Proof.
  assert (Hs : on_slot (slot_minutes c) (r_start_at r)).
  { destruct created_placed as (now' & w1 & _ & _ & _ & _ & Hin).
    destruct (b_allow_queue request) eqn:Hq; [by eapply earliest_candidates_on_slot|].
    apply list_elem_of_singleton in Hin. rewrite Hin.
    pose proof (cr_start_ok _ _ _ _ _ _ _ _ _ _ _ Hcr) as Hst. unfold _normalize_start in Hst.
    rewrite Hq, is_slot_aligned_valid in Hst by done. simpl in Hst.
    destruct (slot_aligned _ _) eqn:Ha; simpl in Hst.
    - injection Hst as <-. by apply (slot_aligned_spec (slot_minutes c) Hslot).
    - apply res_bind_Ok in Hst as (? & _ & ?). done. }
  split; [done|].
  assert (He : r_end_at r = r_start_at r + d).
  { unfold r. by rewrite (cr_result _ _ _ _ _ _ _ _ _ _ _ Hcr). }
  rewrite He. by apply on_slot_add_seconds, (co_granularity _ _ _ Hck).
Qed.

Lemma created_safe T :
  read_by T w' → safe_from T (max_shared_users c) lm → safe_from T (max_shared_users c) l'.
Proof.
  intros HT Hsafe. destruct created_placed as (now' & w1 & Hn & Hl & _ & (_ & Hg & _) & _).
  assert (Hn' : now' ≤ T).
  { eapply read_by_now; [exact Hn|]. eapply read_by_earlier; [exact Hl|].
    eapply read_by_earlier; [|exact HT]. apply (cr_after _ _ _ _ _ _ _ _ _ _ _ Hcr). }
  assert (Hres : br_reservation res = r) by done.
  rewrite (cr_ledger _ _ _ _ _ _ _ _ _ _ _ Hcr), Hres.
  assert (Hfields : r_mode r = b_mode request ∧ r_end_at r = r_start_at r + d ∧
    r_share_units r = if bool_decide (b_mode request = MODE_SHARED)
                      then Some (JInt (ck_units ck)) else None).
  { unfold r. by rewrite (cr_result _ _ _ _ _ _ _ _ _ _ _ Hcr). }
  destruct Hfields as (Hm & He & Hu).
  apply (safe_from_add T (max_shared_users c) lm now' r (l_reservations lm) (ck_memory ck)
    (Some (ck_capacities ck)) (shared_memory_reserve_mb c) (ck_units ck)).
  - by rewrite set_reservations_same.
  - done.
  - rewrite Hm. apply (co_mode _ _ _ Hck).
  - rewrite Hm, Hu. intros E. rewrite bool_decide_eq_true_2 by done.
    apply reservation_share_units_int. pose proof (co_units _ _ _ Hck E). lia.
  - intros g t Hin _ Hs Ht. rewrite set_reservations_same, Hm.
    destruct (Hg g Hin) as (_ & _ & _ & Hroom). apply Hroom; [done|]. by rewrite <- He.
  - simpl. by rewrite Permutation_app_comm.
Qed.
End Created.

(** ** Properties *)

(** The uuid source never returns an id of the ledger or the same id twice. *)
Definition fresh_ids (w : world) (l : ledger) : Prop :=
  (∀ i j, w_uuid w i = w_uuid w j → i = j) ∧
  ∀ i, (w_draws w ≤ i)%nat → w_uuid w i ∉ ids l.

Lemma created_ids c request ck now lm w l' res logs w' k :
  created c request ck now lm w l' res logs w' k → ids l' = ids lm ++ [cn_id k].
Proof.
  intros Hcr. rewrite (cr_ledger _ _ _ _ _ _ _ _ _ _ _ Hcr), (cr_result _ _ _ _ _ _ _ _ _ _ _ Hcr).
  unfold ids. simpl. by rewrite fmap_app.
Qed.

Lemma add_mutate_keeps c request ck l w l' res logs changed w' :
  valid_slot (slot_minutes c) → ledger_ok l → fresh_ids w l → add_checks c request = Ok ck →
  add_mutate c request ck l w = (Ok (l', res, logs, changed), w') →
  ledger_ok l' ∧ fresh_ids w' l' ∧
  (on_grid (slot_minutes c) l → on_grid (slot_minutes c) l') ∧
  (∀ T, read_by T w' → safe_from T (max_shared_users c) l → safe_from T (max_shared_users c) l').
Proof.
  intros Hslot Hl Hfresh Hck Hrun. apply add_checks_Ok in Hck.
  apply add_mutate_run in Hrun as (now & lm & _ & Hp & Hlater & _ & Hout).
  pose proof (prepared_ok _ _ _ _ Hp Hl) as Hlm. destruct Hfresh as [Hinj Hfresh].
  pose proof Hlater as (_ & Huuid & _ & Hdraws).
  assert (Hflm : ∀ i, (w_draws w ≤ i)%nat → w_uuid w i ∉ ids lm).
  { intros i Hi Hin. by apply (Hfresh i Hi), (prepared_ids _ _ _ _ _ Hp). }
  destruct Hout as [(-> & _)|(_ & k & Hcr)].
  { split; [done|]. split.
    { split; rewrite Huuid; [done|]. intros i Hi. apply Hflm. lia. }
    split; [by apply (prepared_grid c now)|].
    intros T _. by apply (prepared_safe T c now). }
  pose proof (created_ids _ _ _ _ _ _ _ _ _ _ _ Hcr) as Hids.
  destruct (cr_id _ _ _ _ _ _ _ _ _ _ _ Hcr) as (i0 & Hi0 & Hid).
  pose proof (created_ok _ _ _ _ _ _ _ _ _ _ _ Hck Hlm Hcr) as Hrok.
  pose proof (cr_ledger _ _ _ _ _ _ _ _ _ _ _ Hcr) as Hl'.
  split; [|split; [|split]].
  - constructor.
    + rewrite Hids. apply NoDup_app. split; [apply (lo_ids _ Hlm)|]. split; [|apply NoDup_singleton].
      intros id Hin ->%list_elem_of_singleton. rewrite Hid in Hin. apply (Hflm i0); [lia|done].
    + rewrite Hl'. intros r [Hr|Hr%list_elem_of_singleton]%elem_of_app; [|by subst r].
      by apply (lo_reservations _ Hlm).
  - split; rewrite Huuid; [done|]. intros i Hi. rewrite Hids, elem_of_app, list_elem_of_singleton.
    intros [Hin|Heq]; [apply (Hflm i); [lia|done]|].
    rewrite Hid in Heq. apply Hinj in Heq. lia.
  - intros Hgrid r. rewrite Hl'. intros [Hr|Hr%list_elem_of_singleton]%elem_of_app Ha; last subst r.
    + by apply (prepared_grid c now l lm _ Hp Hgrid).
    + by eapply created_on_slot.
  - intros T HT Hsafe. eapply (created_safe c request ck now lm w l' res logs w' k); try done.
    by apply (prepared_safe T c now l).
Qed.

(** C29: creating a booking keeps the ledger well formed, keeps every active
    reservation on the slot grid, keeps every GPU within its capacity at every
    instant from the last clock reading on, and keeps future ids fresh. *)
Theorem add_booking_preserves c request ck l w l' res logs changed w' :
  valid_slot (slot_minutes c) → ledger_ok l → fresh_ids w l → add_checks c request = Ok ck →
  add_mutate c request ck l w = (Ok (l', res, logs, changed), w') →
  ledger_ok l' ∧ fresh_ids w' l' ∧
  (on_grid (slot_minutes c) l → on_grid (slot_minutes c) l') ∧
  (∀ T, read_by T w' → safe_from T (max_shared_users c) l → safe_from T (max_shared_users c) l').
Proof. apply add_mutate_keeps. Qed.

(** C30: what a successful create returns. Either the reservation was already
    there - an applied operation or a duplicate of the user's own - and the
    ledger is only maintained; or exactly one reservation is appended, owned by
    the requester, with the requested duration and mode, starting not before the
    current slice, on legal GPUs that have room at every instant of it. *)
Theorem add_booking_result c request ck l w l' res logs changed w' :
  valid_slot (slot_minutes c) → ledger_ok l → add_checks c request = Ok ck →
  add_mutate c request ck l w = (Ok (l', res, logs, changed), w') →
  let r := br_reservation res in
  ∃ now lm, now = replace_microsecond_0 (w_clock w (w_reads w)) ∧ prepared c now l lm ∧
  if br_created res then
    l_reservations l' = l_reservations lm ++ [r] ∧ changed = true ∧ length logs = 1%nat ∧
    r_uid r = a_uid (b_actor request) ∧ r_mode r = b_mode request ∧ r_status r = STATUS_ACTIVE ∧
    r_end_at r = r_start_at r + seconds (b_duration_seconds request) ∧
    r_expected_memory_mb r = b_expected_memory_mb request ∧
    Z.of_nat (length (r_gpus r)) = b_count request ∧
    slot_floor now (slot_minutes c) ≤ r_start_at r ∧
    (b_allow_queue request = false → r_start_at r = replace_microsecond_0 (b_start_at request)) ∧
    ∃ now' ex, _normalize_excluded_gpus (b_excluded_gpus request) c = Ok ex ∧
      policy_conflict_at c now' (r_start_at r) (r_end_at r) = "" ∧
      placed (live_spans lm now') c (b_count request) (seconds (b_duration_seconds request))
        (b_mode request) (sorted_set <$> b_preferred_gpus request) ex
        (b_expected_memory_mb request) (Some (ck_capacities ck)) (ck_units ck)
        (r_start_at r) (r_gpus r)
  else l' = lm ∧ logs = [] ∧ r ∈ l_reservations lm.
Proof.
  intros Hslot Hl Hchecks Hrun. pose proof (add_checks_Ok _ _ _ Hchecks) as Hck.
  apply add_mutate_run in Hrun as (now & lm & Hnow & Hp & _ & _ & Hout).
  exists now, lm. do 2 (split; [done|]). pose proof (prepared_ok _ _ _ _ Hp Hl) as Hlm.
  destruct Hout as [(-> & Hb & -> & Hin)|(-> & k & Hcr)]; [by rewrite Hb|].
  assert (Hmem : ck_memory ck = b_expected_memory_mb request).
  { clear -Hchecks. unfold add_checks in Hchecks. inv_M. simplify_eq/=.
    by match goal with E : _normalize_expected_memory _ = Ok _ |- _ =>
      apply _normalize_expected_memory_Ok in E as [-> _] end. }
  destruct (created_placed _ _ _ _ _ _ _ _ _ _ _ Hck Hlm Hcr)
    as (now' & w1 & _ & _ & Hpol & Hpl & Hin).
  pose proof (cr_log _ _ _ _ _ _ _ _ _ _ _ Hcr) as Hlog.
  pose proof (cr_ledger _ _ _ _ _ _ _ _ _ _ _ Hcr) as Hl'.
  pose proof (cr_slice _ _ _ _ _ _ _ _ _ _ _ Hcr) as Hslice.
  pose proof (cr_exact _ _ _ _ _ _ _ _ _ _ _ Hcr) as Hexact.
  pose proof (cr_start_ok _ _ _ _ _ _ _ _ _ _ _ Hcr) as Hst.
  pose proof (cr_excluded_ok _ _ _ _ _ _ _ _ _ _ _ Hcr) as Hex.
  pose proof (cr_result _ _ _ _ _ _ _ _ _ _ _ Hcr) as Hres.
  assert (Hge : cn_start k ≤ r_start_at (br_reservation res)).
  { revert Hin. rewrite Hres. simpl. destruct (b_allow_queue request) eqn:Hq.
    - intros Hcand. pose proof (earliest_candidates_from _ _ _ _ _ Hslot Hcand) as Hlo.
      unfold _normalize_start in Hst. rewrite ?Hq in Hst. apply date_in_range_Ok in Hst as [Hst _].
      assert (Hon : on_slot (slot_minutes c) (cn_start k)).
      { rewrite Hst. by apply normalize_queue_start_on. }
      by apply (search_start_of_ge c _ now').
    - intros _. rewrite Hexact by done. lia. }
  rewrite Hl'. rewrite <- Hmem. destruct Hpl as (Hlen & Hrest).
  rewrite Hres in Hpol, Hge, Hlen, Hrest |- *. simpl in *.
  do 8 (split; [done|]). split; [done|]. split; [lia|]. split.
  { intros Hq. rewrite (Hexact Hq). unfold _normalize_start in Hst.
    rewrite Hq, is_slot_aligned_valid in Hst by done. simpl in Hst.
    destruct (negb _); [|by injection Hst as <-]. by apply res_bind_Ok in Hst as (? & _ & ?). }
  by exists now', (cn_excluded k).
Qed.

Lemma new_job_digest jm now : job_text (new_job jm now) "digest" = Some (jm_digest jm).
Proof.
  unfold job_text, new_job, job_set. rewrite foldr_app. simpl.
  destruct (jm_spec_id jm); simpl; by simplify_map_eq.
Qed.

Lemma expire_job_digest now j : job_text (expire_job now j) "digest" = job_text j "digest".
Proof.
  unfold expire_job, job_text. destruct (_ || _); [|destruct (bool_decide _)]; simpl;
    by simplify_map_eq.
Qed.

Lemma expire_applied_in now o r : applied_in o (expire_reservation now r) = applied_in o r.
Proof. unfold expire_reservation. by destruct (is_expiring now r). Qed.

Lemma expire_same_metadata now r mem jm units aliases :
  _same_request_metadata (expire_reservation now r) mem jm units aliases
  = _same_request_metadata r mem jm units aliases.
Proof.
  unfold expire_reservation. destruct (is_expiring now r); [|done].
  unfold _same_request_metadata. simpl.
  destruct (r_job r); simpl; [|done]. by rewrite expire_job_digest.
Qed.

Lemma new_reservation_metadata request ck sig now id op gpus s e :
  _same_request_metadata (new_reservation request ck sig now id op gpus s e)
    (ck_memory ck) (ck_job ck) (ck_units ck) (ck_aliases ck) = true.
Proof.
  unfold _same_request_metadata, new_reservation. simpl.
  rewrite bool_decide_eq_true_2 by done. simpl.
  case_bool_decide; simpl; [rewrite bool_decide_eq_true_2 by done; simpl|];
    destruct (ck_job ck) as [jm|]; simpl; try done;
    rewrite new_job_digest; apply bool_decide_eq_true; left.
Qed.

(** Retries of a create, under a clock that does not go back. *)
Section Replay.
Context (c : config) (request : booking_request) (ck : checked) (now : datetime).
Context (l lm : ledger) (w : world) (l' : ledger) (res : booking_result).
Context (logs : list log_item) (w' : world) (k : creation) (o : string).
Context (Hck : ck_op_id ck = Some o) (Hp : prepared c now l lm).
Context (Hcr : created c request ck now lm w l' res logs w' k).

Let r := br_reservation res.

Lemma created_applied now2 days_ :
  (days_ ≤ 0 ∨ now2 - days days_ < r_end_at r) →
  applied_create (_maintain_ledger l' now2 days_).1 request ck (cn_signature k)
  = Ok (Some (expire_reservation now2 r)).
Proof.
  intros Hret. unfold applied_create. rewrite Hck. unfold _find_applied_operation.
  rewrite maintain_reservations.
  pose proof (cr_not_applied _ _ _ _ _ _ _ _ _ _ _ Hcr) as Hno.
  unfold applied_create in Hno. rewrite Hck in Hno. apply res_bind_Ok in Hno as ([[[]]|] & Hno & E).
  { by case_match. }
  assert (Hl : l_reservations l' = l_reservations lm ++ [r]).
  { by rewrite (cr_ledger _ _ _ _ _ _ _ _ _ _ _ Hcr). }
  pose proof (cr_result _ _ _ _ _ _ _ _ _ _ _ Hcr) as Hres.
  pose proof (retained_expire now2 days_ r ltac:(unfold r; by rewrite Hres) Hret) as Hkeep.
  rewrite Hl, fmap_app, filter_app, find_applied_app.
  2:{ apply find_applied_map; [apply expire_uid|intros; apply expire_applied_in|done]. }
  csimpl. rewrite filter_cons_True by done. cbn [find_applied filter list_filter].
  rewrite expire_uid, expire_applied_in. unfold r in *. rewrite Hres. simpl.
  rewrite Z.eqb_refl. simpl. unfold applied_in. simpl.
  rewrite (cr_op_id _ _ _ _ _ _ _ _ _ _ _ Hcr o Hck), bool_decide_eq_true_2 by done. simpl.
  rewrite Hck, expire_same_metadata, new_reservation_metadata. simpl.
  rewrite (bool_decide_eq_true_2 (Some (cn_signature k) = _)) by done. simpl.
  by rewrite ?andb_false_r.
Qed.

(** The signature of a retry is the one stored. *)
Lemma replay_signature start2 now2 :
  _normalize_start (b_start_at request) (b_allow_queue request) now2 (slot_minutes c) = Ok start2 →
  _create_operation_signature request start2
    (_normalize_preferred_gpus (b_preferred_gpus request)) (ck_memory ck) (ck_job ck)
    (ck_units ck) (cn_excluded k) = cn_signature k.
Proof.
  intros Hs. rewrite (cr_signature _ _ _ _ _ _ _ _ _ _ _ Hcr).
  pose proof (cr_start_ok _ _ _ _ _ _ _ _ _ _ _ Hcr) as Hs1.
  unfold _create_operation_signature. destruct (b_allow_queue request) eqn:Hq; [done|].
  unfold _normalize_start in Hs, Hs1. rewrite ?Hq in Hs1. rewrite Hs1 in Hs. by simplify_eq.
Qed.
End Replay.

(** Retrying a create is idempotent. When a run with an operation id adds a
    reservation, running the same request again later - on the ledger it left,
    under a clock that does not go back, while the reservation is within its
    retention and the dates of the request exist - adds nothing: it returns the stored reservation, only updated by
    maintenance, and the ledger is exactly the maintained one. *)
Theorem add_booking_replay c request ck l w l' res logs changed w' w2 :
  valid_slot (slot_minutes c) → monotone_clock w → ck_op_id ck ≠ None →
  add_mutate c request ck l w = (Ok (l', res, logs, changed), w') → br_created res = true →
  later w' w2 →
  let r := br_reservation res in
  let now2 := replace_microsecond_0 (w_clock w2 (w_reads w2)) in
  let maintained := _maintain_ledger l' now2 (ledger_retention_days c) in
  (ledger_retention_days c ≤ 0 ∨ now2 - days (ledger_retention_days c) < r_end_at r) →
  horizon_exists c now2 →
  (b_allow_queue request = true →
     let start := normalize_queue_start (replace_microsecond_0 (b_start_at request)) now2 (slot_minutes c) in
     representable start ∧ representable (start + seconds (b_duration_seconds request))) →
  ∃ w3, add_mutate c request ck l' w2 =
    (Ok (maintained.1, BookingResult (expire_reservation now2 r) false "operation already applied"
           false, [], maintained.2), w3).
Proof.
  cbv zeta. intros Hslot Hmono Hop Hrun Hcreated Hlater Hret Hhor Hdates.
  destruct (ck_op_id ck) as [o|] eqn:Hck; [|done].
  apply add_mutate_run in Hrun as (now & lm & Hnow & Hp & Hl0 & Hreads & [(_ & E & _)|(_ & k & Hcr)]).
  { congruence. }
  set (now2 := replace_microsecond_0 (w_clock w2 (w_reads w2))) in *.
  assert (Hle : now ≤ now2).
  { rewrite Hnow. unfold now2. apply replace_microsecond_0_mono.
    destruct Hlater as (Hc2 & _ & Hr2 & _), Hl0 as (Hc1 & _ & Hr1 & _).
    rewrite Hc2, Hc1. apply Hmono. lia. }
  destruct (clock_now_run w2) as (t & w3 & Hclock & _ & Ht). fold now2 in Ht. subst t.
  exists w3. unfold add_mutate, utc_now.
  unfold mbind at 1, M_bind at 1. rewrite Hclock.
  destruct Hp as (lb & b & Hb & Hlm).
  assert (Hpol' : l_policy l' = l_policy lb).
  { rewrite (cr_ledger _ _ _ _ _ _ _ _ _ _ _ Hcr). simpl. rewrite Hlm. by apply maintain_frame. }
  destruct (bind_stable l c lb b l' Hb Hpol') as [_ Hbind].
  unfold mbind, M_bind, lift. rewrite Hbind.
  pose proof (created_applied c request ck now lm w l' res logs w' k o Hck Hcr now2
    (ledger_retention_days c) Hret) as Happ.
  destruct (_maintain_ledger l' now2 (ledger_retention_days c)) as [lm2 m2]. cbn [fst snd] in *.
  assert (∃ start2, _normalize_start (b_start_at request) (b_allow_queue request) now2
    (slot_minutes c) = Ok start2 ∧ (b_allow_queue request = false → start2 = cn_start k) ∧
    representable (start2 + seconds (b_duration_seconds request)))
    as (start2 & Hs2 & Hs2' & Hend2).
  { pose proof (cr_start_ok _ _ _ _ _ _ _ _ _ _ _ Hcr) as Hs1.
    unfold _normalize_start in *. destruct (b_allow_queue request).
    - destruct (Hdates eq_refl). eexists. split; [by apply date_in_range_eq|]. done.
    - exists (cn_start k). split_and!; [done..|]. apply (cr_end_ok _ _ _ _ _ _ _ _ _ _ _ Hcr). }
  rewrite Hs2, (date_in_range_eq _ Hend2), (cr_excluded_ok _ _ _ _ _ _ _ _ _ _ _ Hcr), (cr_order_ok _ _ _ _ _ _ _ _ _ _ _ Hcr),
    (cr_scores_ok _ _ _ _ _ _ _ _ _ _ _ Hcr), (cr_scope _ _ _ _ _ _ _ _ _ _ _ Hcr).
  unfold booking_policy_conflict, mbind, M_bind, lift, mret, M_ret.
  destruct (check_horizon_cases c (replace_microsecond_0 now2) start2
    (start2 + seconds (b_duration_seconds request))) as [->|[_ []]].
  2:{ unfold now2 in *. by rewrite replace_microsecond_0_idemp. }
  assert (Hq : negb (bool_decide (policy_conflict_at c (replace_microsecond_0 now2) start2
    (start2 + seconds (b_duration_seconds request)) = "")) && negb (b_allow_queue request) = false).
  { destruct (b_allow_queue request) eqn:Hq; [by rewrite andb_false_r|].
    rewrite bool_decide_eq_true_2; [done|]. unfold now2. rewrite replace_microsecond_0_idemp.
    rewrite Hs2' by done. apply (policy_conflict_at_mono c now); [done|].
    by apply (cr_policy _ _ _ _ _ _ _ _ _ _ _ Hcr). }
  rewrite Hq, (replay_signature c request ck now lm w l' res logs w' k Hcr start2 now2 Hs2), Happ.
  by rewrite orb_false_r.
Qed.

(** C31: a queued create is placed at the earliest legal slot: no slot boundary of
    the search window before the start it chose is feasible. *)
Theorem add_booking_queue_earliest c request ck l w l' res logs changed w' :
  valid_slot (slot_minutes c) → ledger_ok l → monotone_clock w →
  add_checks c request = Ok ck → b_allow_queue request = true →
  add_mutate c request ck l w = (Ok (l', res, logs, changed), w') → br_created res = true →
  ∃ now now' lm ex, prepared c now l lm ∧ now ≤ now' ∧
    _normalize_excluded_gpus (b_excluded_gpus request) c = Ok ex ∧
    let asked := normalize_queue_start (replace_microsecond_0 (b_start_at request)) now
                   (slot_minutes c) in
    let lo := search_start_of c asked now' true in
    ∀ s, on_slot (slot_minutes c) s → lo ≤ s ≤ search_until_of c lo now' →
      feasible (live_spans lm now') c now' (b_count request) (seconds (b_duration_seconds request))
        (b_mode request) (sorted_set <$> b_preferred_gpus request) ex (ck_memory ck)
        (Some (ck_capacities ck)) (ck_units ck) s →
      r_start_at (br_reservation res) ≤ s.
Proof.
  intros Hslot Hl Hmono Hchecks Hq Hrun Hcreated.
  pose proof (add_checks_Ok _ _ _ Hchecks) as Hck.
  apply add_mutate_run in Hrun as (now & lm & Hnow & Hp & _ & _ & [(_ & E & _)|(_ & k & Hcr)]).
  { congruence. }
  pose proof (prepared_ok _ _ _ _ Hp Hl) as Hlm.
  pose proof (cr_excluded_ok _ _ _ _ _ _ _ _ _ _ _ Hcr) as Hex.
  pose proof (cr_search _ _ _ _ _ _ _ _ _ _ _ Hcr) as Hfind.
  pose proof (cr_before _ _ _ _ _ _ _ _ _ _ _ Hcr) as Hbefore.
  pose proof (monotone_later _ _ Hbefore Hmono) as Hmono1.
  destruct (_normalize_excluded_gpus_idem _ _ _ Hex) as (ex' & Hex' & Heq).
  destruct (_normalize_gpu_order_again _ _ _ (cr_order_ok _ _ _ _ _ _ _ _ _ _ _ Hcr))
    as [ord' Hord'].
  assert (Hvalid : validate_ledger_policy lm c = Ok tt).
  { destruct Hp as (lb & b & Hb & ->). eapply (bind_stable _ _ _ _ _ Hb). apply maintain_frame. }
  rewrite Hq in Hfind.
  pose proof (earliest_slot_run lm c (b_count request) (cn_start k)
    (seconds (b_duration_seconds request)) (b_mode request) (a_uid (b_actor request))
    (_normalize_preferred_gpus (b_preferred_gpus request)) (Some (cn_order k)) (Some (cn_scores k))
    (ck_memory ck) (Some (ck_capacities ck)) (ck_units ck) (Some (cn_excluded k)) ex' ord'
    (cn_before k) Hslot Hlm Hmono1 (co_count _ _ _ Hck) (created_duration_pos _ _ _ Hck)
    Hvalid Hex' Hord') as Hr.
  cbv zeta in Hr. rewrite Hfind in Hr. destruct Hr as (_ & _ & _ & Hmin).
  exists now, (replace_microsecond_0 (w_clock (cn_before k) (w_reads (cn_before k)))), lm,
    (cn_excluded k).
  split; [done|]. split.
  { rewrite Hnow. apply replace_microsecond_0_mono. destruct Hbefore as (Hc & _ & Hreads & _).
    rewrite Hc. by apply Hmono. }
  split; [done|]. cbv zeta.
  pose proof (cr_start_ok _ _ _ _ _ _ _ _ _ _ _ Hcr) as Hst.
  unfold _normalize_start in Hst. rewrite Hq in Hst. apply date_in_range_Ok in Hst as [Hst _]. rewrite <- Hst.
  intros s Hon Hw (Hpol & gpus & Hlen & Hg & Hp').
  rewrite (cr_result _ _ _ _ _ _ _ _ _ _ _ Hcr). simpl. apply Hmin; [done|].
  split; [done|]. exists gpus. split; [done|]. split; [|done].
  intros g Hin. rewrite Heq. by apply Hg.
Qed.

(** ** Examples *)

Definition example_request : booking_request :=
  BookingRequest (Actor 1000 "ada") 1 1800 noon MODE_SHARED None None None (Some "op-1") false
    None None None None (Some 2048) None None None.

Definition example_checked : checked := Checked None [] (Some "op-1") (Some 2048) 1 ∅.

Lemma example_checks : add_checks example_config example_request = Ok example_checked.
Proof. vm_compute. reflexivity. Qed.

Lemma pretty_id_inj i j : "id" +:+ pretty (i : nat) = "id" +:+ pretty j → i = j.
Proof. intros E. by apply (inj (String.append "id")), (inj pretty) in E. Qed.

Lemma empty_ledger_ok : ledger_ok empty_ledger.
Proof. constructor; [constructor|by intros r ?%not_elem_of_nil]. Qed.

Lemma empty_ledger_fresh : fresh_ids example_world empty_ledger.
Proof. split; [apply pretty_id_inj|by intros i _ ?%not_elem_of_nil]. Qed.

Lemma add_booking_preserves_witness :
  ∃ l' res logs w',
    add_mutate example_config example_request example_checked empty_ledger example_world
      = (Ok (l', res, logs, true), w') ∧
    br_created res = true ∧ ledger_ok l' ∧ fresh_ids w' l' ∧ on_grid 15 l' ∧ safe_from noon 2 l'.
Proof.
  eexists _, _, _, _. split; [vm_compute; reflexivity|]. split; [reflexivity|].
  match goal with |- ledger_ok ?l ∧ _ ∧ _ ∧ _ =>
    destruct (add_booking_preserves example_config example_request example_checked empty_ledger
      example_world l _ _ _ _ ltac:(decide_now) empty_ledger_ok empty_ledger_fresh example_checks
      ltac:(vm_compute; reflexivity)) as (H1 & H2 & H3 & H4) end.
  split; [exact H1|]. split; [exact H2|]. split.
  - apply H3. by intros r ?%not_elem_of_nil.
  - apply H4.
    + intros i _. vm_compute. discriminate.
    + intros g t _. split; [by intros sp ?%not_elem_of_nil|]. vm_compute. discriminate.
Defined.

Lemma add_booking_result_witness :
  ∃ l' res logs w',
    add_mutate example_config example_request example_checked empty_ledger example_world
      = (Ok (l', res, logs, true), w') ∧
    r_start_at (br_reservation res) = noon ∧ r_uid (br_reservation res) = 1000.
Proof.
  eexists _, _, _, _. split; [vm_compute; reflexivity|].
  match goal with |- r_start_at (br_reservation ?res) = _ ∧ _ =>
    destruct (add_booking_result example_config example_request example_checked empty_ledger
      example_world _ res _ _ _ ltac:(decide_now) empty_ledger_ok example_checks
      ltac:(vm_compute; reflexivity)) as (now & lm & _ & _ & H) end.
  destruct H as (_ & _ & _ & Huid & _ & _ & _ & _ & _ & _ & Hstart & _).
  split; [exact (Hstart eq_refl)|exact Huid].
Defined.

(** A day later the retry finds the reservation, by then expired. *)
Lemma add_booking_replay_witness :
  ∃ l' res logs w', 
    add_mutate example_config example_request example_checked empty_ledger example_world
      = (Ok (l', res, logs, true), w') ∧
    ∃ w3, add_mutate example_config example_request example_checked l' w'
      = (Ok ((_maintain_ledger l' noon 90).1,
             BookingResult (expire_reservation noon (br_reservation res)) false
               "operation already applied" false, [], (_maintain_ledger l' noon 90).2), w3).
Proof.
  eexists _, _, _, _. split; [vm_compute; reflexivity|].
  eapply (add_booking_replay example_config example_request example_checked empty_ledger
    example_world).
  - decide_now.
  - exact example_world_monotone.
  - discriminate.
  - vm_compute. reflexivity.
  - reflexivity.
  - reflexivity.
  - right. vm_compute. reflexivity.
  - decide_now.
  - done.
Defined.

(** With both GPUs held for an hour the queued request waits for them. *)
Definition queued_request : booking_request :=
  BookingRequest (Actor 1000 "ada") 1 1800 noon MODE_SHARED None None None None true
    None None None None None None None None.

Lemma add_booking_queue_earliest_witness :
  ∃ l' res logs w' now now' lm,
    add_mutate example_config queued_request (Checked None [] None None 1 ∅) busy_ledger
      example_world = (Ok (l', res, logs, true), w') ∧
    r_start_at (br_reservation res) = noon + hours 1 ∧ prepared example_config now busy_ledger lm ∧
    now ≤ now'.
Proof.
  eexists _, _, _, _.
  destruct (add_booking_queue_earliest example_config queued_request (Checked None [] None None 1 ∅)
    busy_ledger example_world _ _ _ _ _ ltac:(decide_now) busy_ledger_ok example_world_monotone
    ltac:(vm_compute; reflexivity) eq_refl ltac:(vm_compute; reflexivity) eq_refl)
    as (now & now' & lm & ex & Hp & Hle & _).
  exists now, now', lm. split; [vm_compute; reflexivity|]. split; [vm_compute; reflexivity|].
  split; [exact Hp|exact Hle].
Defined.
