(* ===== verification/Cancel.v ===== *)
(** * Cancel: ending reservations early ([src/src/bk/scheduler.py])

    [cancel_mutate] is the closure of [cancel_booking], [admin_cancel_mutate]
    the one of [cancel_booking_as_admin]. *)

From S2P Require Import Prelude PyBase Granularity Timeparse Models Sharing Config Policy.
From S2P Require Import ScheduleIndex Availability Placement Search Sha256 Requests.
From S2P Require Import Maintenance Safety.

(** ** Definitions *)

(** A job that has not started is cancelled, a started one is asked to stop. *)
Definition cancel_job (now : datetime) (j : job) : job :=
  if bool_decide (job_status j = Some JOB_PENDING)
  then job_set [("status", JStr JOB_CANCELLED); ("finished_at", JStr (to_iso now))] j
  else if bool_decide (job_status j = Some JOB_CLAIMED) || bool_decide (job_status j = Some JOB_RUNNING)
  then job_set [("cancel_requested_at", JStr (to_iso now))] j
  else j.

Definition cancel_signature (reservation_id : string) : string :=
  _operation_signature "cancel" [("reservation_id", PStr reservation_id)].

(** The assignments both cancellations make to the record. *)
Definition mark_cancelled (now : datetime) (co : cancel_operation) (r : reservation) : reservation :=
  with_job (cancel_job now <$> r_job r)
    (with_cancel_operation co (with_updated_at now (with_status STATUS_CANCELLED r))).

(** The cancel of this reservation with this operation id, when it is stored. *)
Definition applied_cancel (l : ledger) (reservation_id : string) (a : actor)
    (op_id : option string) (signature : string) : res (option reservation) :=
  match op_id with
  | None => Ok None
  | Some o =>
      applied ← _find_applied_operation l (a_uid a) o;
      match applied with
      | None => Ok None
      | Some (action, existing, existing_signature) =>
          if negb (bool_decide (action = Cancelled)) || negb (bool_decide (r_id existing = reservation_id))
             || negb (bool_decide (existing_signature = Some signature))
          then Raise (BookingError "operation ID was already used for a different write")
          else Ok (Some existing)
      end
  end.

Definition cancel_mutate (reservation_id : string) (a : actor) (op_id : option string) (l : ledger)
    : M (mutation reservation) :=
  now ← utc_now;
  let '(l, changed) := _expire_old_reservations l now in
  let signature := cancel_signature reservation_id in
  applied ← lift (applied_cancel l reservation_id a op_id signature);
  match applied with
  | Some existing => mret (l, existing, [], changed)
  | None =>
      match find_first reservation_id (l_reservations l) with
      | None => raise (BookingError "reservation not found")
      | Some r =>
          if negb (bool_decide (r_status r = STATUS_ACTIVE))
          then raise (BookingError "reservation is not active")
          else if negb (r_uid r =? a_uid a)
          then raise (BookingError "permission denied: reservation belongs to another UID")
          else
            cancel_op_id ← match op_id with Some o => mret o | None => uuid4 end;
            let co := CancelOperation cancel_op_id signature (Some now) (Some (a_uid a))
                        (Some (a_username a)) (Some "owner") (Some "cancelled by reservation owner") in
            let r' := mark_cancelled now co r in
            log ← _log_item a "cancel" r' "ok" "cancelled" (Some cancel_op_id);
            mret (set_reservations
                    (update_first reservation_id (mark_cancelled now co) (l_reservations l)) l,
                  r', [log], true)
      end
  end.

Definition _admin_cancellation_reason (value : json) : res string :=
  match value with
  | JStr v =>
      let reason := strip v in
      if slen reason =? 0 then Raise (BookingError "administrator cancellation requires a reason")
      else if 512 <? slen reason
      then Raise (BookingError "administrator cancellation reason must be at most 512 characters")
      else if existsb is_control (chars reason)
      then Raise (BookingError "administrator cancellation reason contains control characters")
      else Ok reason
  | _ => Raise (BookingError "administrator cancellation requires a reason")
  end.

Definition admin_signature (reservation_id reason : string) : string :=
  _operation_signature "admin-cancel" [("reservation_id", PStr reservation_id); ("reason", PStr reason)].

(** [l[-n:]] for [n > 0] *)
Definition last_n {A} (n : nat) (l : list A) : list A := drop (length l - n) l.

Definition admin_mark (now : datetime) (co : cancel_operation) (history : list notification)
    (n : notification) (r : reservation) : reservation :=
  with_job (cancel_job now <$> r_job r)
    (with_notifications (last_n 127 history ++ [n])
       (with_cancel_operation co (with_updated_at now (with_status STATUS_CANCELLED r)))).

Definition admin_cancel_mutate (c : config) (reservation_id : string) (a : actor) (reason : string)
    (l : ledger) : M (mutation reservation) :=
  now ← utc_now;
  '(l, bound) ← lift (bind_ledger_policy l c);
  let '(l, maintained) := _maintain_ledger l now (ledger_retention_days c) in
  match _find_reservation l reservation_id with
  | None => raise (BookingError "reservation not found")
  | Some r =>
      if negb (bool_decide (r_status r = STATUS_ACTIVE))
      then raise (BookingError "reservation is not active")
      else
        cancel_op_id ← uuid4;
        let co := CancelOperation cancel_op_id (admin_signature reservation_id reason) (Some now)
                    (Some (a_uid a)) (Some (a_username a)) (Some "administrator") (Some reason) in
        notification_id ← uuid4;
        let n := Notification notification_id "reservation-admin-cancelled" now (a_uid a)
                   (a_username a) reason
                   ("Reservation " +:+ text (take 8 (chars (r_id r))) +:+ " was cancelled "
                    +:+ "by administrator " +:+ a_username a +:+ ": " +:+ reason) in
        match r_notifications r with
        | None => raise (BookingError "invalid reservation notification history")
        | Some history =>
            let r' := admin_mark now co history n r in
            log ← _log_item a "admin-cancel" r' "ok" reason (Some cancel_op_id);
            let owner_username := default (str_of_Z (r_uid r)) (r_username r) in
            let log := LogItem (lg_ts log) (r_uid r) owner_username (lg_action log)
                         (lg_reservation_id log) (lg_op_id log) (lg_gpus log) (lg_mode log)
                         (lg_share_units log) (lg_start_at log) (lg_end_at log) (lg_result log)
                         (lg_message log) (Some a) in
            mret (set_reservations (update_first reservation_id (admin_mark now co history n)
                                      (l_reservations l)) l,
                  r', [log], true)
        end
  end.

(** The checks of [cancel_booking_as_admin] before the transaction. *)
Definition admin_checks (a : actor) (reason : json) : res string :=
  if negb (a_uid a =? 0)
  then Raise (BookingError "permission denied: administrator cancellation requires sudo")
  else _admin_cancellation_reason reason.

(** ** Lemmas *)

Lemma mark_cancelled_ok now co r : reservation_ok r → reservation_ok (mark_cancelled now co r).
Proof. intros [? ? ? ? ? ? ? ?]. constructor; simpl; auto. Qed.

Lemma admin_mark_ok now co history n r :
  reservation_ok r → reservation_ok (admin_mark now co history n r).
Proof.
  intros [? ? ? ? ? ? ? ?]. constructor; simpl; auto.
  unfold last_n, MAX_NOTIFICATIONS_PER_RESERVATION. rewrite length_app, length_drop. simpl. lia.
Qed.

Lemma expire_ledger_ok l now : ledger_ok l → ledger_ok (_expire_old_reservations l now).1.
Proof. exact (ledger_ok_maintain l now 0). Qed.

Lemma expire_ledger_safe l now T cap :
  safe_from T cap l → safe_from T cap (_expire_old_reservations l now).1.
Proof. exact (safe_from_maintain T cap l now 0). Qed.

Lemma expire_ledger_grid l now m : on_grid m l → on_grid m (_expire_old_reservations l now).1.
Proof. exact (on_grid_maintain m l now 0). Qed.

Lemma expire_ledger_ids l now : ids (_expire_old_reservations l now).1 = ids l.
Proof. unfold ids. simpl. apply expire_ids. Qed.

(** An active reservation after expiry was live before. *)
Lemma expire_active l now r :
  r ∈ l_reservations (_expire_old_reservations l now).1 → is_active r →
  r ∈ l_reservations l ∧ live now r.
Proof. intros Hr Ha. destruct (maintain_active l now 0 r Hr Ha). done. Qed.

Lemma applied_cancel_Some l id a op sig r :
  applied_cancel l id a op sig = Ok (Some r) →
  r ∈ l_reservations l ∧ r_uid r = a_uid a ∧ r_id r = id ∧
  ∃ o, op = Some o ∧ applied_in o r = Ok (Some (Cancelled, Some sig)).
Proof.
  unfold applied_cancel. destruct op as [o|]; [|done].
  rewrite res_bind_Ok. intros ([[[kind x] s]|] & Hf & E); [|done].
  destruct (_ || _) eqn:Hb; [done|]. simplify_eq. bk_split. subst.
  apply find_applied_Some in Hf as (?&?&?). do 3 (split; [done|]). by exists o.
Qed.

(** A successful run. *)
Record cancelled (id : string) (a : actor) (op_id : option string) (now : datetime) (le : ledger)
    (l' : ledger) (r' : reservation) (r : reservation) (co : cancel_operation) : Prop := CancelledBy {
  ca_found : find_first id (l_reservations le) = Some r;
  ca_active : is_active r;
  ca_owner : r_uid r = a_uid a;
  ca_op : ∀ o, op_id = Some o → co_op_id co = o;
  ca_operation : co = CancelOperation (co_op_id co) (cancel_signature id) (Some now) (Some (a_uid a))
                        (Some (a_username a)) (Some "owner") (Some "cancelled by reservation owner");
  ca_result : r' = mark_cancelled now co r;
  ca_ledger : l' = set_reservations (update_first id (mark_cancelled now co) (l_reservations le)) le;
}.

Lemma cancel_mutate_run id a op_id l w l' r' logs changed w' :
  cancel_mutate id a op_id l w = (Ok (l', r', logs, changed), w') →
  ∃ now le, now = replace_microsecond_0 (w_clock w (w_reads w)) ∧
    le = (_expire_old_reservations l now).1 ∧ later w w' ∧
    ((applied_cancel le id a op_id (cancel_signature id) = Ok (Some r') ∧ l' = le ∧ logs = []) ∨
     (applied_cancel le id a op_id (cancel_signature id) = Ok None ∧ changed = true ∧
      length logs = 1%nat ∧ ∃ r co, cancelled id a op_id now le l' r' r co)).
Proof.
  unfold cancel_mutate. intros Hrun.
  apply M_bind_Ok in Hrun as (now & w1 & Hnow & Hrun).
  pose proof (forward_Ok _ _ _ _ forward_clock Hnow) as Hl1.
  apply clock_now_Ok in Hnow as [Hnow _].
  destruct (_expire_old_reservations l now) as [le m] eqn:Ee.
  apply M_bind_Ok in Hrun as (app & w2 & Happ & Hrun). apply lift_Ok in Happ as [Happ <-].
  exists now, le. split; [done|]. split; [by rewrite Ee|].
  destruct app as [existing|].
  { apply M_ret_Ok in Hrun as [? <-]. simplify_eq. split; [done|]. by left. }
  destruct (find_first id (l_reservations le)) as [r|] eqn:Hf; [|discriminate].
  case_bool_decide as Ha; [|discriminate]. simpl in Hrun.
  destruct (Z.eqb_spec (r_uid r) (a_uid a)) as [Hu|]; [|discriminate]. simpl in Hrun.
  apply M_bind_Ok in Hrun as (cid & w3 & Hcid & Hrun).
  apply M_bind_Ok in Hrun as (log & w4 & Hlog & Hrun). apply M_ret_Ok in Hrun as [? <-].
  assert (Hl3 : later w1 w3 ∧ ∀ o, op_id = Some o → cid = o).
  { destruct op_id as [o|].
    - apply M_ret_Ok in Hcid as [<- <-]. split; [done|]. by intros ? [= ->].
    - split; [|done]. eapply forward_Ok; [|exact Hcid]. auto with bk. }
  destruct Hl3 as [Hl3 Hop].
  assert (Hl4 : later w3 w4) by (eapply forward_Ok; [|exact Hlog]; apply forward_log_item).
  simplify_eq. split; [by repeat (etrans; [eassumption|])|]. right.
  do 3 (split; [done|]). by exists r, (CancelOperation cid (cancel_signature id)
    (Some (replace_microsecond_0 (w_clock w (w_reads w)))) (Some (a_uid a))
    (Some (a_username a)) (Some "owner") (Some "cancelled by reservation owner")).
Qed.

(** What every successful cancellation keeps. *)
Lemma cancel_mutate_keeps id a op_id l w l' r' logs changed w' :
  ledger_ok l → cancel_mutate id a op_id l w = (Ok (l', r', logs, changed), w') →
  ledger_ok l' ∧ ids l' = ids l ∧ (∀ m, on_grid m l → on_grid m l') ∧
  (∀ T cap, safe_from T cap l → safe_from T cap l').
Proof.
  intros Hl Hrun. apply cancel_mutate_run in Hrun as (now & le & _ & -> & _ & Hout).
  pose proof (expire_ledger_ok l now Hl) as Hle.
  destruct Hout as [(_ & -> & _)|(_ & _ & _ & r & co & Hca)].
  { split; [done|]. split; [apply expire_ledger_ids|].
    split; [intros; by apply expire_ledger_grid|]. intros; by apply expire_ledger_safe. }
  destruct Hca as [Hf Ha Ho _ _ Hr Hl']. subst l'.
  pose proof (find_first_Some _ _ _ Hf) as [Hin Hid].
  assert (Hmid : ∀ x, r_id x = id → r_id (mark_cancelled now co x) = id) by done.
  split; [by eapply update_ok, mark_cancelled_ok, (lo_reservations _ Hle)|].
  split; [rewrite update_ids by done; apply expire_ledger_ids|].
  split; [intros m Hg; eapply update_grid; [done..|by apply expire_ledger_grid]|].
  intros T cap Hs; eapply update_safe_inactive; [done..| |by apply expire_ledger_safe]; done.
Qed.

(** ** Properties *)

(** C36: what a cancellation does: it changes no reservation but the named one
    beyond expiry, keeps the list of ids and the safety of the ledger, and a
    success means the requester owns the reservation it returns; when it wrote
    anything, that reservation was live and is now cancelled, its pending job
    cancelled and its started job asked to stop. *)
Theorem cancel_booking_effect id a op_id l w l' r' logs changed w' :
  ledger_ok l → cancel_mutate id a op_id l w = (Ok (l', r', logs, changed), w') →
  let now := replace_microsecond_0 (w_clock w (w_reads w)) in
  ledger_ok l' ∧ ids l' = ids l ∧
  (∀ T cap, safe_from T cap l → safe_from T cap l') ∧
  (∀ x, r_id x ≠ id → x ∈ l_reservations l' ↔ x ∈ (expire_reservation now <$> l_reservations l)) ∧
  r' ∈ l_reservations l' ∧ r_id r' = id ∧ r_uid r' = a_uid a ∧
  (logs ≠ [] → ∃ r, r ∈ l_reservations l ∧ live now r ∧ r_id r = id ∧
     r_status r' = STATUS_CANCELLED ∧ r_updated_at r' = Some now ∧
     r_job r' = cancel_job now <$> r_job r).
Proof.
  cbv zeta. intros Hl Hrun.
  destruct (cancel_mutate_keeps _ _ _ _ _ _ _ _ _ _ Hl Hrun) as (Hok & Hids & _ & Hsafe).
  do 3 (split; [done|]). apply cancel_mutate_run in Hrun as (now & le & <- & -> & _ & Hout).
  pose proof (expire_ledger_ok l now Hl) as Hle.
  destruct Hout as [(Happ & -> & ->)|(_ & _ & Hlogs & r & co & Hca)].
  { by apply applied_cancel_Some in Happ as (?&?&?&_). }
  destruct Hca as [Hf Ha Ho _ _ Hr Hl']. subst l' r'.
  pose proof (find_first_Some _ _ _ Hf) as [Hin Hid].
  pose proof (expire_active l now r Hin Ha) as [Hin' Hlive].
  split; [intros x Hx; rewrite (update_elem id _ _ r Hle Hf); simpl; split; [|by right];
          intros [->|[? _]]; [by destruct Hx|done]|].
  split; [apply (update_elem id _ _ r Hle Hf); by left|].
  split; [done|]. split; [done|]. intros _. by exists r.
Qed.

(** Nobody cancels another user's reservation: when the reservation with the
    given id belongs to another UID the call raises, whatever its state and
    whatever operation id it is given. *)
Theorem cancel_booking_permission id a op_id l w r :
  ledger_ok l → r ∈ l_reservations l → r_id r = id → r_uid r ≠ a_uid a →
  ∃ e w', cancel_mutate id a op_id l w = (Raise e, w').
Proof.
  intros Hl Hr Hid Hu.
  destruct (cancel_mutate id a op_id l w) as [[[[[l' r'] logs] changed]|e] w'] eqn:Hrun;
    [exfalso|by eexists _, _].
  apply cancel_mutate_run in Hrun as (now & le & _ & -> & _ & Hout).
  assert (Huniq : ∀ x, x ∈ expire_reservation now <$> l_reservations l → r_id x = id →
    r_uid x = a_uid a → False).
  { intros x (x0 & -> & Hx0)%list_elem_of_fmap Hxid Hxu. rewrite expire_id in Hxid.
    rewrite expire_uid in Hxu. apply Hu. rewrite <- Hxu. f_equal.
    apply (NoDup_fmap_inj r_id (l_reservations l)); [apply (lo_ids l Hl)|done|done|congruence]. }
  destruct Hout as [(Happ & _)|(_ & _ & _ & r0 & co & Hca)].
  - apply applied_cancel_Some in Happ as (?&?&?&_). by eapply Huniq.
  - pose proof (find_first_Some _ _ _ (ca_found _ _ _ _ _ _ _ _ _ Hca)) as [? ?].
    eapply Huniq; [done..|]. apply (ca_owner _ _ _ _ _ _ _ _ _ Hca).
Qed.

(** Retrying a cancellation is idempotent: after a run with an operation id
    that cancelled a reservation, the same call later returns the same record
    and changes nothing but expiry. *)
Theorem cancel_booking_replay id a o l w l' r' logs changed w' w2 :
  ledger_ok l → cancel_mutate id a (Some o) l w = (Ok (l', r', logs, changed), w') →
  logs ≠ [] → later w' w2 →
  let now2 := replace_microsecond_0 (w_clock w2 (w_reads w2)) in
  let expired := _expire_old_reservations l' now2 in
  ∃ w3, cancel_mutate id a (Some o) l' w2 = (Ok (expired.1, r', [], expired.2), w3).
Proof.
  cbv zeta. intros Hl Hrun Hlogs Hlater.
  apply cancel_mutate_run in Hrun as (now & le & _ & _ & _ & [(_ & _ & ->)|(Happ & _ & _ & r & co & Hca)]);
    [done|].
  destruct Hca as [Hf Ha Ho Hop Hco Hr Hl']. specialize (Hop o eq_refl).
  pose proof (find_first_Some _ _ _ Hf) as [Hin Hid].
  destruct (clock_now_run w2) as (now2 & w3 & Hclock & _ & Hnow2). rewrite <- Hnow2.
  exists w3. unfold cancel_mutate, utc_now, mbind, M_bind, lift. rewrite Hclock. simpl.
  unfold applied_cancel in Happ. apply res_bind_Ok in Happ as ([[[]]|] & Hnone & E); [by case_match|].
  unfold _find_applied_operation in Hnone.
  pose proof (find_applied_None _ _ _ _ Hnone Hin Ho) as Hr0.
  assert (Hr' : applied_in o r' = Ok (Some (Cancelled, Some (cancel_signature id)))).
  { rewrite Hr. unfold applied_in in *. simpl. case_bool_decide; [done|].
    rewrite bool_decide_eq_true_2 by done. simpl. by rewrite Hco. }
  assert (Hfind : find_applied (l_reservations l') (a_uid a) o
    = Ok (Some (Cancelled, r', Some (cancel_signature id)))).
  { rewrite Hl'. simpl. rewrite Hr in Hr' |- *. by eapply find_applied_update. }
  assert (Hexp : expire_reservation now2 r' = r').
  { unfold expire_reservation, is_expiring. by rewrite Hr. }
  assert (Hfind2 : find_applied (expire_reservation now2 <$> l_reservations l') (a_uid a) o
    = Ok (Some (Cancelled, r', Some (cancel_signature id)))).
  { rewrite <- Hexp at 1.
    rewrite <- (list_filter_all (λ _, True) (expire_reservation now2 <$> l_reservations l'))
      by by apply Forall_forall.
    eapply find_applied_map_Some; [apply expire_uid| |done|done].
    intros x. unfold expire_reservation. by destruct (is_expiring now2 x). }
  assert (Hrid : r_id r' = id) by by rewrite Hr.
  unfold applied_cancel, _find_applied_operation, _expire_old_reservations.
  cbn [l_reservations set_reservations]. rewrite Hfind2. cbn [mbind res_bind mret M_ret].
  rewrite (bool_decide_eq_true_2 (r_id r' = id) Hrid), !bool_decide_eq_true_2 by done.
  reflexivity.
Qed.

(** ** Administrator cancellation *)

Lemma admin_checks_Ok a v reason :
  admin_checks a v = Ok reason →
  a_uid a = 0 ∧ 1 ≤ slen reason ≤ 512 ∧ ∀ ch, ch ∈ chars reason → is_control ch = false.
Proof.
  unfold admin_checks, _admin_cancellation_reason.
  destruct (Z.eqb_spec (a_uid a) 0) as [Hu|]; [|done]. simpl. destruct v as [| | | |v| |]; try done.
  destruct (Z.eqb_spec (slen (strip v)) 0); [done|].
  destruct (Z.ltb_spec 512 (slen (strip v))); [done|].
  destruct (existsb _ _) eqn:Hc; [done|]. intros ?; simplify_eq.
  split; [done|]. split; [unfold slen in *; lia|]. by apply existsb_false.
Qed.

(** A successful administrator cancellation. *)
Lemma admin_cancel_run c id a reason l w l' r' logs changed w' :
  ledger_ok l → admin_cancel_mutate c id a reason l w = (Ok (l', r', logs, changed), w') →
  ∃ now lm r co history n log, now = replace_microsecond_0 (w_clock w (w_reads w)) ∧
    prepared c now l lm ∧ find_first id (l_reservations lm) = Some r ∧ is_active r ∧
    r ∈ l_reservations l ∧ live now r ∧
    r_notifications r = Some history ∧ n_reason n = reason ∧ r' = admin_mark now co history n r ∧
    l' = set_reservations (update_first id (admin_mark now co history n) (l_reservations lm)) lm ∧
    logs = [log] ∧ lg_uid log = r_uid r ∧ lg_acting log = Some a.
Proof.
  intros Hl Hrun. unfold admin_cancel_mutate in Hrun.
  apply M_bind_Ok in Hrun as (now & w1 & Hnow & Hrun). apply clock_now_Ok in Hnow as [Hnow _].
  apply M_bind_Ok in Hrun as ([lb bound] & w2 & Hb & Hrun). apply lift_Ok in Hb as [Hb <-].
  assert (Hp : prepared c now l (_maintain_ledger lb now (ledger_retention_days c)).1)
    by by exists lb, bound.
  pose proof (prepared_same _ _ _ _ Hp) as Hsame.
  destruct (_maintain_ledger lb now (ledger_retention_days c)) as [lm mt]. cbn [fst] in *.
  unfold _find_reservation in Hrun.
  destruct (find_first id (l_reservations lm)) as [r|] eqn:Hf; [|discriminate].
  case_bool_decide as Ha; [|discriminate]. simpl in Hrun.
  apply M_bind_Ok in Hrun as (cid & w3 & _ & Hrun).
  apply M_bind_Ok in Hrun as (nid & w4 & _ & Hrun).
  destruct (r_notifications r) as [history|] eqn:Hh; [|discriminate].
  apply M_bind_Ok in Hrun as (log & w5 & _ & Hrun). apply M_ret_Ok in Hrun as [E _].
  pose proof (find_first_Some _ _ _ Hf) as [Hin Hid].
  rewrite Hsame in Hin. destruct (maintain_active l now _ r Hin Ha) as [Hlive Hin'].
  injection E as <- <- <- _.
  do 7 eexists. do 7 (split; [done|]). split; [|by repeat split]. done.
Qed.

Lemma admin_mutate_keeps c id a reason l w l' r' logs changed w' :
  ledger_ok l → admin_cancel_mutate c id a reason l w = (Ok (l', r', logs, changed), w') →
  ledger_ok l' ∧ (∀ x, x ∈ ids l' → x ∈ ids l) ∧ (∀ m, on_grid m l → on_grid m l') ∧
  (∀ T cap, safe_from T cap l → safe_from T cap l').
Proof.
  intros Hl Hrun. apply admin_cancel_run in Hrun
    as (now & lm & r & co & history & n & log & _ & Hp & Hf & Ha & _ & _ & Hh & _ & _ & -> & _); [|done].
  pose proof (prepared_ok _ _ _ _ Hp Hl) as Hlm. pose proof (find_first_Some _ _ _ Hf) as [Hin Hid].
  assert (Hmid : ∀ x, r_id x = id → r_id (admin_mark now co history n x) = id) by done.
  split; [by eapply update_ok, admin_mark_ok, (lo_reservations _ Hlm)|].
  split; [intros x; rewrite update_ids by done; by eapply prepared_ids|].
  split; [intros m Hg; eapply update_grid; [done..|by eapply prepared_grid]|].
  intros T cap Hs; eapply update_safe_inactive; [done..| |by eapply prepared_safe]; done.
Qed.

(** An administrator cancels any active reservation, and only an
    administrator: the checks demand UID 0 and a clean reason of 1 to 512
    characters; the run cancels one live reservation, leaves every other one as
    maintenance leaves it, tells the owner why in a history that never exceeds
    128 entries, and logs under the owner with the administrator named. *)
Theorem admin_cancel_effect c id a v reason l w l' r' logs changed w' :
  ledger_ok l → admin_checks a v = Ok reason →
  admin_cancel_mutate c id a reason l w = (Ok (l', r', logs, changed), w') →
  let now := replace_microsecond_0 (w_clock w (w_reads w)) in
  a_uid a = 0 ∧ 1 ≤ slen reason ≤ 512 ∧ ledger_ok l' ∧
  (∀ T cap, safe_from T cap l → safe_from T cap l') ∧
  ∃ r log, r ∈ l_reservations l ∧ live now r ∧ r_id r = id ∧ r' ∈ l_reservations l' ∧
    r_id r' = id ∧ r_uid r' = r_uid r ∧ r_status r' = STATUS_CANCELLED ∧
    (∀ x, r_id x ≠ id → x ∈ l_reservations l' ↔
       x ∈ l_reservations (_maintain_ledger l now (ledger_retention_days c)).1) ∧
    (∃ history n, r_notifications r = Some history ∧
       r_notifications r' = Some (last_n 127 history ++ [n]) ∧ n_reason n = reason) ∧
    logs = [log] ∧ lg_uid log = r_uid r ∧ lg_acting log = Some a.
Proof.
  cbv zeta. intros Hl Hchecks Hrun. apply admin_checks_Ok in Hchecks as (Hu & Hlen & _).
  destruct (admin_mutate_keeps _ _ _ _ _ _ _ _ _ _ _ Hl Hrun) as (Hok & _ & _ & Hsafe).
  do 4 (split; [done|]).
  apply admin_cancel_run in Hrun as (now & lm & r & co & history & n & log & <- & Hp & Hf & Ha & Hin &
    Hlive & Hh & Hn & -> & -> & -> & Hlu & Hact); [|done].
  pose proof (prepared_ok _ _ _ _ Hp Hl) as Hlm. pose proof (find_first_Some _ _ _ Hf) as [_ Hid].
  exists r, log. do 3 (split; [done|]).
  split; [apply (update_elem id _ _ r Hlm Hf); by left|]. do 3 (split; [done|]).
  split; [|by split; [exists history, n|]].
  intros x Hx. rewrite (update_elem id _ _ r Hlm Hf), <- (prepared_same _ _ _ _ Hp).
  split; [|by right]. intros [->|[? _]]; [by destruct Hx|done].
Qed.

(** ** Examples *)

(** A retained ledger with one running reservation of user 1001 and its job. *)
Definition owned_reservation : reservation :=
  Reservation "r-1" (Some "create-1") 1001 (Some "ann") [1] MODE_SHARED noon (noon + hours 2)
    STATUS_ACTIVE (Some noon) (Some noon) (Some 1024) (Some (JInt 1)) None
    (Some {[ "status" := JStr JOB_RUNNING ]}) (Some []) None (Some []).

Definition owned_ledger : ledger := Ledger [busy_reservation; owned_reservation] None [] None.

Lemma owned_ledger_ok : ledger_ok owned_ledger.
Proof.
  constructor; [decide_now|]. intros r [->|Hr]%elem_of_cons;
    [|apply list_elem_of_singleton in Hr as ->];
    constructor; try decide_now; try done. intros m [= <-]. decide_now.
Qed.

Definition owner : actor := Actor 1001 "ann".

Lemma cancel_booking_effect_witness :
  ∃ l' r' logs w',
    cancel_mutate "r-1" owner (Some "cancel-1") owned_ledger example_world
      = (Ok (l', r', logs, true), w') ∧
    ledger_ok l' ∧ r_uid r' = 1001 ∧ r_status r' = STATUS_CANCELLED.
Proof.
  eexists _, _, _, _. split; [vm_compute; reflexivity|].
  match goal with |- ledger_ok ?l ∧ r_uid ?r = _ ∧ _ =>
    destruct (cancel_booking_effect "r-1" owner (Some "cancel-1") owned_ledger example_world l r
      _ _ _ owned_ledger_ok ltac:(vm_compute; reflexivity))
      as (H1 & _ & _ & _ & _ & _ & Hu & Hlog) end.
  split; [exact H1|]. split; [exact Hu|].
  destruct (Hlog ltac:(discriminate)) as (r & _ & _ & _ & Hs & _). exact Hs.
Defined.

Lemma cancel_booking_permission_witness :
  ∃ e w', cancel_mutate "r-1" (Actor 1000 "ada") None owned_ledger example_world = (Raise e, w').
Proof.
  apply (cancel_booking_permission "r-1" (Actor 1000 "ada") None owned_ledger example_world
    owned_reservation owned_ledger_ok).
  - right. left.
  - reflexivity.
  - discriminate.
Defined.

Lemma cancel_booking_replay_witness :
  ∃ l' r' logs w' w3 l2,
    cancel_mutate "r-1" owner (Some "cancel-1") owned_ledger example_world
      = (Ok (l', r', logs, true), w') ∧
    cancel_mutate "r-1" owner (Some "cancel-1") l' w' = (Ok (l2, r', [], false), w3).
Proof.
  eexists _, _, _, _.
  match goal with |- ∃ w3 l2, cancel_mutate _ _ _ _ _ = (Ok (?l, ?r, ?logs, true), ?w') ∧ _ =>
    destruct (cancel_booking_replay "r-1" owner "cancel-1" owned_ledger example_world l r logs true
      w' w' owned_ledger_ok ltac:(vm_compute; reflexivity) ltac:(discriminate) ltac:(reflexivity))
      as (w3 & H) end.
  eexists _, _. split; [vm_compute; reflexivity|exact H].
Defined.

Lemma admin_cancel_effect_witness :
  ∃ l' r' logs w',
    admin_cancel_mutate example_config "r-1" (Actor 0 "root") "node maintenance" owned_ledger
      example_world = (Ok (l', r', logs, true), w') ∧
    ledger_ok l' ∧ ∃ log, logs = [log] ∧ lg_uid log = 1001 ∧ lg_acting log = Some (Actor 0 "root").
Proof.
  eexists _, _, _, _. split; [vm_compute; reflexivity|].
  match goal with |- ledger_ok ?l ∧ _ =>
    destruct (admin_cancel_effect example_config "r-1" (Actor 0 "root")
      (JStr "  node maintenance ") "node maintenance" owned_ledger example_world l _
      _ _ _ owned_ledger_ok ltac:(vm_compute; reflexivity) ltac:(vm_compute; reflexivity))
      as (_ & _ & H1 & _ & r & log & Hin & _ & Hid & _ & _ & _ & _ & _ & _ & Hlogs & Hu & Ha) end.
  split; [exact H1|]. exists log. split; [exact Hlogs|]. split; [|exact Ha].
  rewrite Hu. apply elem_of_cons in Hin as [->|Hin]; [discriminate Hid|].
  apply list_elem_of_singleton in Hin as ->. reflexivity.
Defined.
