(* ===== verification/Edit.v ===== *)
(** * Edit: changing reservations ([edit_booking] in [src/src/bk/scheduler.py])

    A reservation that has not started may be moved and reshaped; one that has
    started may only change its end. [edit_mutate] is the closure of
    [edit_booking], [edit_started] is [_edit_started_reservation]. *)

From S2P Require Import Prelude PyBase Granularity Timeparse Models Sharing Config Policy.
From S2P Require Import ScheduleIndex Availability Placement Search Sha256 Requests.
From S2P Require Import Maintenance Safety Booking.

(** ** History *)

Definition _reservation_edit_state (r : reservation) : edit_state :=
  EditState (r_gpus r) (r_mode r) (r_start_at r) (r_end_at r) (r_expected_memory_mb r)
    (r_share_units r).

(** The new record and the operation id its history entry got. *)
Definition _append_edit_history (r : reservation) (a : actor) (now : datetime)
    (op_id : option string) (signature : string) (before : edit_state) : M (reservation * string) :=
  match r_edit_operations r with
  | None => raise (BookingError "invalid edit operation history")
  | Some history =>
      if MAX_EDIT_OPERATIONS_PER_RESERVATION <=? Z.of_nat (length history)
      then raise (BookingError ("reservation reached the idempotent edit limit (history full); "
                    +:+ "recreate it before further edits"))
      else
        history_op_id ← match op_id with Some o => mret o | None => uuid4 end;
        mret (with_edit_operations
                (history ++ [EditOperation history_op_id signature (Some now) (Some (a_uid a))
                               (Some (a_username a)) (Some before)
                               (Some (_reservation_edit_state r))]) r,
              history_op_id)
  end.

(** The edit of this reservation with this operation id, when it is stored. *)
Definition applied_edit (l : ledger) (request : edit_request) (op_id : option string)
    (signature : string) : res (option reservation) :=
  match op_id with
  | None => Ok None
  | Some o =>
      applied ← _find_applied_operation l (a_uid (e_actor request)) o;
      match applied with
      | None => Ok None
      | Some (action, existing, existing_signature) =>
          if negb (bool_decide (action = Edited))
             || negb (bool_decide (r_id existing = e_reservation_id request))
             || negb (bool_decide (existing_signature = Some signature))
          then Raise (BookingError "operation ID was already used for a different write")
          else Ok (Some existing)
      end
  end.

Definition shadow_ledger (l : ledger) (id : string) : ledger :=
  set_reservations (filter (λ x, r_id x ≠ id) (l_reservations l)) l.

Definition replace_reservation (l : ledger) (r : reservation) : ledger :=
  set_reservations (update_first (r_id r) (λ _, r) (l_reservations l)) l.

(** ** A started reservation *)

Definition immutable_changes (request : edit_request) : bool :=
  bool_decide (e_start_at request ≠ None) || bool_decide (e_mode request ≠ None)
  || bool_decide (e_preferred_gpus request ≠ None) || bool_decide (e_excluded_gpus request ≠ None)
  || bool_decide (e_count request ≠ None) || e_update_expected_memory request
  || e_update_share_units request || e_allow_queue request.

(** The search that an extension must pass. *)
Definition extension_slot (l : ledger) (r : reservation) (c : config) (request : edit_request)
    (future_start new_end : datetime) (memory_capacities : gmap Z Z)
    : M (option (datetime * list Z)) :=
  let gpus := sorted_set (r_gpus r) in
  gpu_order ← lift (_normalize_gpu_order (e_gpu_order request) c);
  gpu_scores ← lift (_normalize_gpu_scores (e_gpu_scores request) c);
  expected ← lift (_normalize_expected_memory (r_expected_memory_mb r));
  find_earliest_slot (shadow_ledger l (r_id r)) c (Z.of_nat (length gpus)) future_start
    (new_end - future_start) (r_mode r) (a_uid (e_actor request)) (Some gpus) false
    (Some gpu_order) (Some gpu_scores) expected (Some memory_capacities)
    (if bool_decide (r_mode r = MODE_SHARED)
     then reservation_share_units (r_share_units r) (max_shared_users c) else 1)
    (Some []).

(** The checks on an extension beyond the current end. *)
Definition check_extension (l : ledger) (r : reservation) (c : config) (request : edit_request)
    (now new_end : datetime) (memory_capacities : gmap Z Z) : M unit :=
  if r_end_at r <? new_end then
    let future_start := Z.max (slot_ceil now (slot_minutes c)) (r_end_at r) in
    policy_reason ← booking_policy_conflict c future_start new_end (Some now);
    if negb (bool_decide (policy_reason = "")) then raise (BookingError policy_reason)
    else
      slot ← extension_slot l r c request future_start new_end memory_capacities;
      match slot with
      | None => raise (BookingError ("cannot extend this reservation because its GPUs are unavailable "
                         +:+ "during the requested future interval"))
      | Some _ => mret tt
      end
  else mret tt.

Definition edit_started (l : ledger) (r : reservation) (c : config) (request : edit_request)
    (now : datetime) (op_id : option string) (signature : string) (memory_capacities : gmap Z Z)
    : M (mutation booking_result) :=
  if immutable_changes request
  then raise (BookingError ("a started reservation may only change its end time; "
                +:+ "elapsed time, GPUs, mode, share, and memory are immutable"))
  else
    match e_duration_seconds request with
    | None => raise (BookingError "a started reservation edit must provide a new total duration")
    | Some duration_seconds =>
        if duration_seconds <=? 0 then raise (BookingError "duration must be positive") else
        _ ← lift (_validate_duration_granularity duration_seconds (slot_minutes c));
        new_end ← lift (date_in_range (r_start_at r + seconds duration_seconds));
        let earliest_end := slot_ceil now (slot_minutes c) in
        if (new_end <? earliest_end) || (new_end <=? now)
        then raise (BookingError ("cannot edit elapsed time; the new end must be at or after "
                      +:+ to_iso earliest_end))
        else
          _ ← check_extension l r c request now new_end memory_capacities;
          '(r', history_op_id) ← _append_edit_history (with_updated_at now (with_end_at new_end r))
            (e_actor request) now op_id signature (_reservation_edit_state r);
          log ← _log_item (e_actor request) "edit" r' "ok"
            "updated future end of started reservation" (Some history_op_id);
          mret (replace_reservation l r', BookingResult r' true "updated" false, [log], true)
    end.

(** ** A reservation that has not started *)

(** The share of an edited reservation; the stored one is kept within a shared mode. *)
Definition edited_units (c : config) (request : edit_request) (r : reservation) (mode : string)
    : res Z :=
  if bool_decide (mode = MODE_SHARED) then
    let stored := if bool_decide (r_mode r = MODE_SHARED)
                  then Some (reservation_share_units (r_share_units r) (max_shared_users c))
                  else None in
    _request_share_units mode
      (if e_update_share_units request then e_share_units request else stored) (max_shared_users c)
  else
    _request_share_units mode
      (if e_update_share_units request then e_share_units request else None) (max_shared_users c).

(** [f"{job.get('status')}"]; only text statuses are written by the program. *)
Definition job_status_text (j : job) : string := default "None" (job_status j).

(** The start of the edited reservation, after the two tests against [now]. *)
Definition edited_start `{LocalTime} (c : config) (request : edit_request) (r : reservation)
    (now : datetime) : res datetime :=
  let start := replace_microsecond_0 (default (r_start_at r) (e_start_at request)) in
  if bool_decide (e_start_at request ≠ None) && (start <? now)
  then Raise (BookingError ("edit start must not be in the past; earliest editable slot is "
                +:+ format_local_minute (slot_ceil now (slot_minutes c))))
  else Ok start.

Definition edited_duration (request : edit_request) (r : reservation) : Z :=
  default (Z.quot (r_end_at r - r_start_at r) usec) (e_duration_seconds request).

Definition settled_start (c : config) (request : edit_request) (start now : datetime)
    : res datetime :=
  start ← _normalize_start start (e_allow_queue request) now (slot_minutes c);
  let earliest_start := slot_ceil now (slot_minutes c) in
  if start <? earliest_start then
    if e_allow_queue request then Ok earliest_start
    else Raise (BookingError "edit start must not be in the past")
  else Ok start.

Definition edited_preferred (request : edit_request) (r : reservation) : option (list Z) :=
  match e_preferred_gpus request with
  | Some gpus => Some (sorted_set gpus)
  | None =>
      if bool_decide (e_count request = None) && bool_decide (e_excluded_gpus request = None)
      then Some (sorted_set (r_gpus r)) else None
  end.

Definition edited_count (request : edit_request) (r : reservation) (preferred : option (list Z)) : Z :=
  match e_count request with
  | Some n => n
  | None => match preferred with
            | Some p => Z.of_nat (length p)
            | None => Z.of_nat (length (r_gpus r))
            end
  end.

(** The request that explains a refused edit. *)
Definition reason_request (request : edit_request) (count duration_seconds : Z) (start : datetime)
    (mode : string) (preferred : option (list Z)) (gpu_order : list Z) (gpu_scores : gmap Z pyfloat)
    (expected : option Z) (memory_capacities : gmap Z Z) (units : Z) (excluded : list Z)
    : booking_request :=
  BookingRequest (e_actor request) count duration_seconds start mode preferred (Some gpu_order)
    (Some (map_to_list gpu_scores)) None (e_allow_queue request) None None None None expected
    (Some (map_to_list memory_capacities))
    (if bool_decide (mode = MODE_SHARED) then Some units else None) (Some excluded).

(** From the search for a slot to the end of [mutate]. *)
Definition place_edit (l : ledger) (r : reservation) (c : config) (request : edit_request)
    (now start : datetime) (duration_seconds count : Z) (mode : string) (expected : option Z)
    (units : Z) (memory_capacities : gmap Z Z) (preferred : option (list Z)) (excluded : list Z)
    (op_id : option string) (signature : string) : M (mutation booking_result) :=
  let duration := seconds duration_seconds in
  let shadow := shadow_ledger l (r_id r) in
  gpu_order ← lift (_normalize_gpu_order (e_gpu_order request) c);
  gpu_scores ← lift (_normalize_gpu_scores (e_gpu_scores request) c);
  slot ← find_earliest_slot shadow c count start duration mode (a_uid (e_actor request)) preferred
    (e_allow_queue request) (Some gpu_order) (Some gpu_scores) expected (Some memory_capacities)
    units (Some excluded);
  match slot with
  | None =>
      reason ← _availability_failure_message shadow c
        (reason_request request count duration_seconds start mode preferred gpu_order gpu_scores
           expected memory_capacities units excluded) start (start + duration) preferred;
      raise (BookingError reason)
  | Some (scheduled_start, gpus) =>
      let queued := start <? scheduled_start in
      if negb (e_allow_queue request) && negb (scheduled_start =? start)
      then raise (BookingError "internal scheduler error: exact edit moved unexpectedly")
      else
        let moved := with_schedule gpus mode scheduled_start (scheduled_start + duration) expected
          (if bool_decide (mode = MODE_SHARED) then Some (JInt units) else None) r in
        '(r', history_op_id) ← _append_edit_history moved (e_actor request) now op_id signature
          (_reservation_edit_state r);
        let r' := with_updated_at now r' in
        let message := if queued then "queued" else "updated" in
        log ← _log_item (e_actor request) "edit" r' "ok" message (Some history_op_id);
        mret (replace_reservation l r', BookingResult r' true message queued, [log], true)
  end.

(** The checks of the future branch, up to the search. *)
Definition edit_future `{LocalTime} (l : ledger) (r : reservation) (c : config)
    (request : edit_request) (now : datetime) (mode : string) (expected : option Z) (units : Z)
    (memory_capacities : gmap Z Z) (op_id : option string) (signature : string)
    : M (mutation booking_result) :=
  _ ← lift match r_job r with
           | Some j =>
               if bool_decide (job_status j = Some JOB_PENDING) then Ok tt
               else Raise (BookingError ("cannot edit reservation after job entered "
                             +:+ job_status_text j +:+ " state"))
           | None => Ok tt
           end;
  _ ← lift (if bool_decide (mode = MODE_SHARED) && require_shared_memory c
               && bool_decide (expected = None)
            then Raise (BookingError "shared reservations must include a resolved memory budget")
            else Ok tt);
  start ← lift (edited_start c request r now);
  let duration_seconds := edited_duration request r in
  if duration_seconds <=? 0 then raise (BookingError "duration must be positive") else
  _ ← lift (_validate_duration_granularity duration_seconds (slot_minutes c));
  start ← lift (settled_start c request start now);
  end_ ← lift (date_in_range (start + seconds duration_seconds));
  policy_reason ← booking_policy_conflict c start end_ (Some now);
  if negb (bool_decide (policy_reason = "")) && negb (e_allow_queue request)
  then raise (BookingError policy_reason)
  else
    excluded ← lift (_normalize_excluded_gpus (e_excluded_gpus request) c);
    let preferred := edited_preferred request r in
    let count := edited_count request r preferred in
    _ ← lift (_validate_gpu_scope c count preferred excluded);
    place_edit l r c request now start duration_seconds count mode expected units
      memory_capacities preferred excluded op_id signature.

(** ** [edit_booking] *)

Definition edit_found `{LocalTime} (l : ledger) (r : reservation) (c : config)
    (request : edit_request) (now : datetime) (op_id : option string) (signature : string)
    : M (mutation booking_result) :=
  if negb (bool_decide (r_status r = STATUS_ACTIVE))
  then raise (BookingError "reservation is not active")
  else if negb (r_uid r =? a_uid (e_actor request))
  then raise (BookingError "permission denied: reservation belongs to another UID")
  else
    let mode := default (r_mode r) (e_mode request) in
    if negb (bool_decide (mode = MODE_SHARED) || bool_decide (mode = MODE_EXCLUSIVE))
    then raise (BookingError ("unsupported booking mode: " +:+ mode))
    else
      expected ← lift (_normalize_expected_memory
        (if e_update_expected_memory request then e_expected_memory_mb request
         else r_expected_memory_mb r));
      units ← lift (edited_units c request r mode);
      memory_capacities ← lift (_normalize_memory_capacities (e_gpu_memory_capacity_mb request) c);
      if r_start_at r <=? now
      then edit_started l r c request now op_id signature memory_capacities
      else edit_future l r c request now mode expected units memory_capacities op_id signature.

Definition edit_mutate `{LocalTime} (c : config) (request : edit_request) (op_id : option string)
    (l : ledger) : M (mutation booking_result) :=
  now ← utc_now;
  '(l, bound) ← lift (bind_ledger_policy l c);
  let '(l, maintained) := _maintain_ledger l now (ledger_retention_days c) in
  let signature := _edit_operation_signature request in
  applied ← lift (applied_edit l request op_id signature);
  match applied with
  | Some existing =>
      mret (l, BookingResult existing false "operation already applied" false, [],
            maintained || bound)
  | None =>
      match _find_reservation l (e_reservation_id request) with
      | None => raise (BookingError "reservation not found")
      | Some r => edit_found l r c request now op_id signature
      end
  end.

(** ** Read-only replays *)

Definition find_applied_edit (l : ledger) (c : config) (request : edit_request)
    : res (option booking_result) :=
  op_id ← _normalize_operation_id (e_op_id request);
  match op_id with
  | None => Ok None
  | Some o =>
      _ ← validate_ledger_policy l c;
      applied ← applied_edit l request (Some o) (_edit_operation_signature request);
      Ok (option_map (λ existing, BookingResult existing false "operation already applied" false)
            applied)
  end.

Definition find_applied_operation (l : ledger) (a : actor) (operation_id : string)
    : res (option (applied_kind * reservation)) :=
  op_id ← _normalize_operation_id (Some operation_id);
  match op_id with
  | None => Ok None
  | Some o =>
      applied ← _find_applied_operation l (a_uid a) o;
      Ok (option_map fst applied)
  end.

(** ** Runs of [edit_mutate] *)

(** What an edit made of the reservation [r]. *)
Record edition := Edition {
  ed_gpus : list Z;
  ed_mode : string;
  ed_start : datetime;
  ed_end : datetime;
  ed_memory : option Z;
  ed_units : option json;
  ed_history : list edit_operation;
  ed_entry : edit_operation;
}.

Definition edited_reservation (now : datetime) (e : edition) (r : reservation) : reservation :=
  with_updated_at now (with_edit_operations (ed_history e ++ [ed_entry e])
    (with_schedule (ed_gpus e) (ed_mode e) (ed_start e) (ed_end e) (ed_memory e) (ed_units e) r)).

(** The history grows by the entry of this edit, within its limit. *)
Record recorded (a : actor) (now : datetime) (op_id : option string) (signature : string)
    (r r' : reservation) (e : edition) : Prop := Recorded {
  rc_history : r_edit_operations r = Some (ed_history e);
  rc_limit : Z.of_nat (length (ed_history e)) < MAX_EDIT_OPERATIONS_PER_RESERVATION;
  rc_op : ∀ o, op_id = Some o → eo_op_id (ed_entry e) = o;
  rc_signature : eo_signature (ed_entry e) = signature;
  rc_actor : eo_actor_uid (ed_entry e) = Some (a_uid a);
  rc_before : eo_before (ed_entry e) = Some (_reservation_edit_state r);
  rc_after : eo_after (ed_entry e) = Some (_reservation_edit_state r');
  rc_result : r' = edited_reservation now e r;
}.

(** An edit of a started reservation changed its end only. *)
Record started_edit (c : config) (request : edit_request) (now : datetime) (lm : ledger)
    (r : reservation) (e : edition) (w w' : world) : Prop := StartedEdit {
  se_started : r_start_at r ≤ now;
  se_request : immutable_changes request = false;
  se_same : ed_gpus e = r_gpus r ∧ ed_mode e = r_mode r ∧ ed_start e = r_start_at r ∧
            ed_memory e = r_expected_memory_mb r ∧ ed_units e = r_share_units r;
  se_duration : ∃ n, e_duration_seconds request = Some n ∧ 0 < n ∧
    n mod (slot_minutes c * 60) = 0 ∧ ed_end e = r_start_at r + seconds n;
  se_future : slot_ceil now (slot_minutes c) ≤ ed_end e ∧ now < ed_end e;
  se_extension : r_end_at r < ed_end e →
    let from := Z.max (slot_ceil now (slot_minutes c)) (r_end_at r) in
    policy_conflict_at c now from (ed_end e) = "" ∧
    ∃ order scores expected caps gpus w1 w2, later w w1 ∧ later w2 w' ∧
      find_earliest_slot (shadow_ledger lm (r_id r)) c (Z.of_nat (length (sorted_set (r_gpus r))))
        from (ed_end e - from) (r_mode r) (a_uid (e_actor request)) (Some (sorted_set (r_gpus r)))
        false (Some order) (Some scores) expected (Some caps)
        (if bool_decide (r_mode r = MODE_SHARED)
         then reservation_share_units (r_share_units r) (max_shared_users c) else 1) (Some [])
        w1 = (Ok (Some gpus), w2);
}.

(** An edit of a future reservation re-placed it. *)
Record future_edit (c : config) (request : edit_request) (now : datetime) (lm : ledger)
    (r : reservation) (e : edition) (w w' : world) : Prop := FutureEdit {
  fe_future : now < r_start_at r;
  fe_job : ∀ j, r_job r = Some j → job_status j = Some JOB_PENDING;
  fe_mode : ed_mode e = default (r_mode r) (e_mode request) ∧
            (ed_mode e = MODE_SHARED ∨ ed_mode e = MODE_EXCLUSIVE);
  fe_memory : ∀ m, ed_memory e = Some m → 1 ≤ m;
  fe_budget : ed_mode e = MODE_SHARED → require_shared_memory c = true → ed_memory e ≠ None;
  fe_duration : 0 < edited_duration request r ∧
    edited_duration request r mod (slot_minutes c * 60) = 0 ∧
    ed_end e = ed_start e + seconds (edited_duration request r);
  fe_search : ∃ start units excluded count order scores caps w1 w2,
    settled_start c request (replace_microsecond_0 (default (r_start_at r) (e_start_at request))) now
      = Ok start ∧
    edited_units c request r (ed_mode e) = Ok units ∧
    ed_units e = (if bool_decide (ed_mode e = MODE_SHARED) then Some (JInt units) else None) ∧
    _normalize_excluded_gpus (e_excluded_gpus request) c = Ok excluded ∧
    count = edited_count request r (edited_preferred request r) ∧
    _validate_gpu_scope c count (edited_preferred request r) excluded = Ok tt ∧
    (e_allow_queue request = false → ed_start e = start) ∧ later w w1 ∧ later w2 w' ∧
    find_earliest_slot (shadow_ledger lm (r_id r)) c count start
      (seconds (edited_duration request r)) (ed_mode e) (a_uid (e_actor request))
      (edited_preferred request r) (e_allow_queue request) (Some order) (Some scores) (ed_memory e)
      (Some caps) units (Some excluded) w1 = (Ok (Some (ed_start e, ed_gpus e)), w2);
}.

Lemma append_history_Ok r a now op_id sig before w r' o w' :
  _append_edit_history r a now op_id sig before w = (Ok (r', o), w') →
  later w w' ∧ ∃ history entry, r_edit_operations r = Some history ∧
    Z.of_nat (length history) < MAX_EDIT_OPERATIONS_PER_RESERVATION ∧
    r' = with_edit_operations (history ++ [entry]) r ∧ eo_op_id entry = o ∧
    (∀ o', op_id = Some o' → o = o') ∧
    entry = EditOperation o sig (Some now) (Some (a_uid a)) (Some (a_username a)) (Some before)
      (Some (_reservation_edit_state r)).
Proof.
  unfold _append_edit_history. destruct (r_edit_operations r) as [history|]; [|discriminate].
  destruct (Z.leb_spec MAX_EDIT_OPERATIONS_PER_RESERVATION (Z.of_nat (length history)));
    [discriminate|]. intros Hrun.
  apply M_bind_Ok in Hrun as (o1 & w1 & Ho & Hrun). apply M_ret_Ok in Hrun as [? <-]. simplify_eq.
  assert (Hl : later w w1 ∧ ∀ o', op_id = Some o' → o = o').
  { destruct op_id as [o'|].
    - apply M_ret_Ok in Ho as [<- <-]. split; [done|]. by intros ? [= ->].
    - split; [|done]. eapply forward_Ok; [|exact Ho]. auto with bk. }
  destruct Hl. split; [done|]. by eexists history, _.
Qed.

Lemma _validate_duration_granularity_Ok n m :
  _validate_duration_granularity n m = Ok tt → n mod (m * 60) = 0.
Proof. unfold _validate_duration_granularity. destruct (Z.eqb_spec (n mod (m * 60)) 0); done. Qed.

Lemma edit_started_run l r c request now op_id sig caps w l' res logs changed w' :
  edit_started l r c request now op_id sig caps w = (Ok (l', res, logs, changed), w') →
  r_start_at r ≤ now → replace_microsecond_0 now = now →
  later w w' ∧ changed = true ∧ length logs = 1%nat ∧ br_created res = true ∧
  l' = replace_reservation l (br_reservation res) ∧
  ∃ e, recorded (e_actor request) now op_id sig r (br_reservation res) e ∧
    started_edit c request now l r e w w'.
Proof.
  intros Hrun Hstart Hnow. unfold edit_started in Hrun.
  destruct (immutable_changes request) eqn:Him; [discriminate|].
  destruct (e_duration_seconds request) as [n|] eqn:Hdur; [|discriminate].
  destruct (Z.leb_spec n 0); [discriminate|].
  apply M_bind_Ok in Hrun as ([] & w0 & Hg & Hrun). apply lift_Ok in Hg as [Hg <-].
  apply _validate_duration_granularity_Ok in Hg.
  cbv zeta in Hrun. apply M_bind_Ok in Hrun as (ne & w0 & [[-> _]%date_in_range_Ok <-]%lift_Ok & Hrun).
  set (new_end := r_start_at r + seconds n) in *.
  destruct (_ || _) eqn:Hend; [discriminate|].
  apply M_bind_Ok in Hrun as ([] & w1 & Hext & Hrun).
  apply M_bind_Ok in Hrun as ([r' o] & w2 & Hhist & Hrun).
  apply M_bind_Ok in Hrun as (log & w3 & Hlog & Hrun). apply M_ret_Ok in Hrun as [? <-].
  apply append_history_Ok in Hhist as (Hl2 & history & entry & Hh & Hlen & Hr' & Ho & Hop & Hentry).
  assert (Hl3 : later w2 w3) by (eapply forward_Ok; [|exact Hlog]; auto with bk).
  simplify_eq. bk_split.
  assert (Hext' : later w w1 ∧ (r_end_at r < new_end →
    let from := Z.max (slot_ceil now (slot_minutes c)) (r_end_at r) in
    policy_conflict_at c now from new_end = "" ∧
    ∃ order scores expected caps gpus wa wb, later w wa ∧ later wb w1 ∧
      find_earliest_slot (shadow_ledger l (r_id r)) c (Z.of_nat (length (sorted_set (r_gpus r))))
        from (new_end - from) (r_mode r) (a_uid (e_actor request)) (Some (sorted_set (r_gpus r)))
        false (Some order) (Some scores) expected (Some caps)
        (if bool_decide (r_mode r = MODE_SHARED)
         then reservation_share_units (r_share_units r) (max_shared_users c) else 1) (Some [])
        wa = (Ok (Some gpus), wb))).
  { unfold check_extension in Hext. destruct (Z.ltb_spec (r_end_at r) new_end).
    2:{ apply M_ret_Ok in Hext as [_ ->]. split; [done|lia]. }
    apply M_bind_Ok in Hext as (pol & wa & Hpol & Hext).
    apply conflict_Ok in Hpol as (now0 & Hpol & [-> ->]). symmetry in Hpol.
    destruct (bool_decide (pol = "")) eqn:Hp; [|discriminate]. simpl in Hext.
    apply bool_decide_eq_true in Hp. rewrite Hnow in Hpol.
    apply M_bind_Ok in Hext as (slot & wb & Hslot & Hext).
    destruct slot as [gpus|]; [|discriminate]. apply M_ret_Ok in Hext as [_ <-].
    unfold extension_slot in Hslot.
    apply M_bind_Ok in Hslot as (ord & wx & E & Hslot). apply lift_Ok in E as [_ <-].
    apply M_bind_Ok in Hslot as (sc & wx & E & Hslot). apply lift_Ok in E as [_ <-].
    apply M_bind_Ok in Hslot as (ex & wx & E & Hslot). apply lift_Ok in E as [_ <-].
    split; [eapply forward_Ok; [|exact Hslot]; auto with bk|].
    intros _. split; [congruence|]. by exists ord, sc, ex, caps, gpus, w, wb. }
  destruct Hext' as [Hl1 Hext'].
  split; [by etrans; [|etrans]|]. do 4 (split; [done|]).
  exists (Edition (r_gpus r) (r_mode r) (r_start_at r) new_end (r_expected_memory_mb r)
    (r_share_units r) history
    (EditOperation o sig (Some now) (Some (a_uid (e_actor request)))
       (Some (a_username (e_actor request))) (Some (_reservation_edit_state r))
       (Some (_reservation_edit_state (with_updated_at now (with_end_at new_end r)))))).
  split.
  - by constructor.
  - constructor; simpl; try done.
    + by exists n.
    + intros Hlt. destruct (Hext' Hlt) as (Hp & ord & sc & ex & cp & gpus & wa & wb & Ha & Hb & Hf).
      split; [done|]. exists ord, sc, ex, cp, gpus, wa, wb. split; [done|]. split; [|done].
      by etrans; [|etrans].
Qed.

Lemma place_edit_run l r c request now start n count mode expected units caps preferred excluded
    op_id sig w l' res logs changed w' :
  place_edit l r c request now start n count mode expected units caps preferred excluded op_id sig w
    = (Ok (l', res, logs, changed), w') →
  later w w' ∧ changed = true ∧ length logs = 1%nat ∧ br_created res = true ∧
  l' = replace_reservation l (br_reservation res) ∧
  ∃ e, recorded (e_actor request) now op_id sig r (br_reservation res) e ∧
    ed_mode e = mode ∧ ed_memory e = expected ∧ ed_end e = ed_start e + seconds n ∧
    ed_units e = (if bool_decide (mode = MODE_SHARED) then Some (JInt units) else None) ∧
    (e_allow_queue request = false → ed_start e = start) ∧
    ∃ order scores w2, later w2 w' ∧
      find_earliest_slot (shadow_ledger l (r_id r)) c count start (seconds n) mode
        (a_uid (e_actor request)) preferred (e_allow_queue request) (Some order) (Some scores)
        expected (Some caps) units (Some excluded) w = (Ok (Some (ed_start e, ed_gpus e)), w2).
Proof.
  unfold place_edit. intros Hrun.
  apply M_bind_Ok in Hrun as (ord & w0 & E & Hrun). apply lift_Ok in E as [_ <-].
  apply M_bind_Ok in Hrun as (sc & w0 & E & Hrun). apply lift_Ok in E as [_ <-].
  apply M_bind_Ok in Hrun as (slot & w1 & Hfind & Hrun).
  destruct slot as [[s gpus]|].
  2:{ apply M_bind_Ok in Hrun as (? & ? & _ & Hrun). discriminate. }
  destruct (negb (e_allow_queue request) && negb (s =? start)) eqn:Hexact; [discriminate|].
  apply M_bind_Ok in Hrun as ([r' o] & w2 & Hhist & Hrun). cbv zeta in Hrun.
  apply M_bind_Ok in Hrun as (log & w3 & Hlog & Hrun). apply M_ret_Ok in Hrun as [? <-].
  apply append_history_Ok in Hhist as (Hl2 & history & entry & Hh & Hlen & Hr' & Ho & Hop & Hentry).
  assert (Hl1 : later w w1) by (eapply forward_Ok; [|exact Hfind]; auto with bk).
  assert (Hl3 : later w2 w3) by (eapply forward_Ok; [|exact Hlog]; auto with bk).
  simplify_eq. split; [by etrans; [|etrans]|]. do 4 (split; [done|]).
  set (moved := with_schedule _ _ _ _ _ _ r).
  exists (Edition gpus mode s (s + seconds n) expected
    (if bool_decide (mode = MODE_SHARED) then Some (JInt units) else None) history
    (EditOperation o sig (Some now) (Some (a_uid (e_actor request)))
       (Some (a_username (e_actor request))) (Some (_reservation_edit_state r))
       (Some (_reservation_edit_state moved)))).
  split; [by constructor|]. do 4 (split; [done|]). split.
  - intros Hq. rewrite Hq in Hexact. simpl in Hexact. by bk_split.
  - exists ord, sc, w1. split; [by etrans|done].
Qed.

(** The outcomes of a successful run. *)
Lemma edit_mutate_run `{LocalTime} c request op_id l w l' res logs changed w' :
  edit_mutate c request op_id l w = (Ok (l', res, logs, changed), w') →
  ∃ now lm, now = replace_microsecond_0 (w_clock w (w_reads w)) ∧ prepared c now l lm ∧ later w w' ∧
    ((applied_edit lm request op_id (_edit_operation_signature request)
        = Ok (Some (br_reservation res)) ∧ l' = lm ∧ br_created res = false ∧ logs = []) ∨
     (applied_edit lm request op_id (_edit_operation_signature request) = Ok None ∧
      changed = true ∧ length logs = 1%nat ∧ br_created res = true ∧
      l' = replace_reservation lm (br_reservation res) ∧
      ∃ r e w1, later w w1 ∧ w_draws w1 = w_draws w ∧
        find_first (e_reservation_id request) (l_reservations lm) = Some r ∧ is_active r ∧
        r_uid r = a_uid (e_actor request) ∧
        recorded (e_actor request) now op_id (_edit_operation_signature request) r
          (br_reservation res) e ∧
        (started_edit c request now lm r e w1 w' ∨ future_edit c request now lm r e w1 w'))).
Proof.
  unfold edit_mutate. intros Hrun.
  apply M_bind_Ok in Hrun as (now & w1 & Hclock & Hrun).
  pose proof (forward_Ok _ _ _ _ forward_clock Hclock) as Hl1.
  apply clock_now_Ok in Hclock as [Hnow Hw1].
  assert (Hdraws : w_draws w1 = w_draws w) by by subst w1. clear Hw1.
  assert (Hidem : replace_microsecond_0 now = now) by (rewrite Hnow; apply replace_microsecond_0_idemp).
  apply M_bind_Ok in Hrun as ([lb bound] & w2 & Hb & Hrun). apply lift_Ok in Hb as [Hb <-].
  destruct (_maintain_ledger lb now (ledger_retention_days c)) as [lm mt] eqn:Em.
  exists now, lm. split; [done|].
  split; [exists lb, bound; split; [done|by rewrite Em]|]. clear Hnow.
  apply M_bind_Ok in Hrun as (app & w2 & Happ & Hrun). apply lift_Ok in Happ as [Happ <-].
  destruct app as [existing|].
  { apply M_ret_Ok in Hrun as [? <-]. simplify_eq. split; [done|]. by left. }
  unfold _find_reservation in Hrun.
  destruct (find_first (e_reservation_id request) (l_reservations lm)) as [r|] eqn:Hf;
    [|discriminate].
  unfold edit_found in Hrun. case_bool_decide as Ha; [|discriminate]. simpl in Hrun.
  destruct (Z.eqb_spec (r_uid r) (a_uid (e_actor request))) as [Hu|]; [|discriminate].
  simpl in Hrun. set (mode := default (r_mode r) (e_mode request)) in *.
  destruct (negb (_ || _)) eqn:Hmode; [discriminate|].
  apply M_bind_Ok in Hrun as (expected & w2 & Hmem & Hrun). apply lift_Ok in Hmem as [Hmem <-].
  apply M_bind_Ok in Hrun as (units & w2 & Hunits & Hrun). apply lift_Ok in Hunits as [Hunits <-].
  apply M_bind_Ok in Hrun as (caps & w2 & Hcaps & Hrun). apply lift_Ok in Hcaps as [_ <-].
  apply _normalize_expected_memory_Ok in Hmem as [_ Hmem].
  destruct (Z.leb_spec (r_start_at r) now) as [Hstart|Hstart].
  { apply edit_started_run in Hrun as (Hl2 & -> & Hlogs & Hcr & -> & e & Hrec & Hse); [|done..].
    split; [by etrans|]. right. do 5 (split; [done|]). exists r, e, w1. by eauto 10. }
  unfold edit_future in Hrun.
  apply M_bind_Ok in Hrun as ([] & w2 & Hjob & Hrun). apply lift_Ok in Hjob as [Hjob <-].
  apply M_bind_Ok in Hrun as ([] & w2 & Hbudget & Hrun). apply lift_Ok in Hbudget as [Hbudget <-].
  apply M_bind_Ok in Hrun as (start0 & w2 & Hs0 & Hrun). apply lift_Ok in Hs0 as [Hs0 <-].
  destruct (Z.leb_spec (edited_duration request r) 0); [discriminate|].
  apply M_bind_Ok in Hrun as ([] & w2 & Hg & Hrun). apply lift_Ok in Hg as [Hg <-].
  apply M_bind_Ok in Hrun as (start & w2 & Hs & Hrun). apply lift_Ok in Hs as [Hs <-].
  apply M_bind_Ok in Hrun as (end_ & w2 & [[-> _]%date_in_range_Ok <-]%lift_Ok & Hrun).
  apply M_bind_Ok in Hrun as (pol & w2 & Hpol & Hrun). apply conflict_Ok in Hpol as (now0 & _ & [-> ->]).
  destruct (negb (bool_decide (pol = "")) && negb (e_allow_queue request)); [discriminate|].
  apply M_bind_Ok in Hrun as (excluded & w2 & Hex & Hrun). apply lift_Ok in Hex as [Hex <-].
  apply M_bind_Ok in Hrun as ([] & w2 & Hscope & Hrun). apply lift_Ok in Hscope as [Hscope <-].
  apply place_edit_run in Hrun as (Hl2 & -> & Hlogs & Hcr & -> & e & Hrec & Em' & Emem & Eend & Eu & Hq
    & ord & sc & w2 & Hl3 & Hfind).
  split; [by etrans|]. right. do 5 (split; [done|]). exists r, e, w1.
  do 6 (split; [done|]). right.
  assert (start0 = replace_microsecond_0 (default (r_start_at r) (e_start_at request))) as ->.
  { revert Hs0. unfold edited_start. cbv zeta.
    destruct (bool_decide (e_start_at request ≠ None) && _); congruence. }
  constructor; try done.
  - intros j Hj. rewrite Hj in Hjob.
    destruct (decide (job_status j = Some JOB_PENDING)); [done|].
    by rewrite bool_decide_eq_false_2 in Hjob.
  - split; [done|]. rewrite Em'. apply negb_false_iff, orb_true_iff in Hmode.
    by rewrite !bool_decide_eq_true in Hmode.
  - by rewrite Emem.
  - rewrite Em', Emem. intros E1 E2. rewrite E1, E2, bool_decide_eq_true_2 in Hbudget by done.
    simpl in Hbudget. intros ->. by rewrite bool_decide_eq_true_2 in Hbudget.
  - split; [done|]. split; [by apply _validate_duration_granularity_Ok|done].
  - rewrite Em', Emem. eexists start, units, excluded, _, ord, sc, caps, w1, w2.
    do 6 (split; [done|]). split; [done|]. split; [done|]. by split.
Qed.

(** ** An edit keeps the ledger well formed and safe *)

Section Edited.
Context (c : config) (request : edit_request) (now : datetime) (lm : ledger).
Context (r r' : reservation) (e : edition) (op_id : option string) (w w' : world).
Context (Hslot : valid_slot (slot_minutes c)) (Hlm : ledger_ok lm).
Context (Hgrid : on_grid (slot_minutes c) lm).
Context (Hf : find_first (e_reservation_id request) (l_reservations lm) = Some r).
Context (Ha : is_active r) (Hlive : now < r_end_at r).
Context (Hrec : recorded (e_actor request) now op_id (_edit_operation_signature request) r r' e).

Let m := slot_minutes c.
Let l' := replace_reservation lm r'.
Let rest := filter (λ x, r_id x ≠ r_id r) (l_reservations lm).

Lemma edited_in : r ∈ l_reservations lm ∧ r_id r = e_reservation_id request.
Proof. by apply find_first_Some in Hf. Qed.

Lemma edited_fields :
  r_id r' = r_id r ∧ r_uid r' = r_uid r ∧ r_status r' = r_status r ∧ r_gpus r' = ed_gpus e ∧
  r_mode r' = ed_mode e ∧ r_start_at r' = ed_start e ∧ r_end_at r' = ed_end e ∧
  r_share_units r' = ed_units e ∧ r_expected_memory_mb r' = ed_memory e ∧
  r_edit_operations r' = Some (ed_history e ++ [ed_entry e]).
Proof. by rewrite (rc_result _ _ _ _ _ _ _ Hrec). Qed.

Lemma replaced : l' = set_reservations
  (update_first (e_reservation_id request) (λ _, r') (l_reservations lm)) lm.
Proof.
  unfold l', replace_reservation. destruct edited_fields as (-> & _). by destruct edited_in as [_ ->].
Qed.

Lemma replaced_id x : r_id x = e_reservation_id request → r_id r' = e_reservation_id request.
Proof. destruct edited_fields as (-> & _). by destruct edited_in as [_ ->]. Qed.

Lemma replaced_perm : l_reservations l' ≡ₚ r' :: rest.
Proof.
  rewrite replaced. unfold rest. destruct edited_in as [_ ->].
  by apply (update_perm _ (λ _, r') lm r).
Qed.

Lemma original_perm : l_reservations lm ≡ₚ r :: rest.
Proof.
  unfold rest. destruct edited_in as [_ ->]. by apply find_first_perm; [apply (lo_ids lm Hlm)|].
Qed.

Lemma edited_history_ok : Z.of_nat (length (default [] (r_edit_operations r')))
  ≤ MAX_EDIT_OPERATIONS_PER_RESERVATION.
Proof.
  destruct edited_fields as (_&_&_&_&_&_&_&_&_& ->). simpl. rewrite length_app. simpl.
  pose proof (rc_limit _ _ _ _ _ _ _ Hrec). lia.
Qed.

Lemma edited_notifications : r_notifications r' = r_notifications r.
Proof. by rewrite (rc_result _ _ _ _ _ _ _ Hrec). Qed.

Lemma shadow_safe T :
  safe_from T (max_shared_users c) lm →
  ∀ g t, T ≤ t → slot_safe (max_shared_users c) (spans_of rest) g t.
Proof. intros Hs g t Ht. by apply (safe_from_shadow T _ lm (r_id r) Hs). Qed.

(** Dropping or adding: a safe place for the new record beside the rest. *)
Lemma slot_safe_beside g t expected capacity reserve units :
  slot_safe (max_shared_users c) (spans_of rest) g t →
  r_mode r' = MODE_SHARED ∨ r_mode r' = MODE_EXCLUSIVE →
  (r_mode r' = MODE_SHARED →
     reservation_share_units (r_share_units r') (max_shared_users c) = units) →
  (g ∈ r_gpus r' → r_start_at r' ≤ t → t < r_end_at r' →
     room_at (spans_of rest) g (r_mode r') (max_shared_users c) expected capacity reserve units t) →
  slot_safe (max_shared_users c) (active_spans l') g t.
Proof.
  intros Hs Hm Hu Hroom. unfold active_spans. rewrite replaced_perm.
  change (r' :: rest) with ([r'] ++ rest). rewrite spans_of_app.
  unfold spans_of at 1. rewrite filter_cons. case_decide; [|done]. csimpl.
  eapply (slot_safe_add _ _ (span_of r')); [done..|]. intros Hg [? ?]. by apply Hroom.
Qed.

(** *** Started *)

Section Started.
Context (Hse : started_edit c request now lm r e w w').

Lemma started_fields :
  r_gpus r' = r_gpus r ∧ r_mode r' = r_mode r ∧ r_start_at r' = r_start_at r ∧
  r_share_units r' = r_share_units r ∧ r_expected_memory_mb r' = r_expected_memory_mb r.
Proof.
  destruct edited_fields as (_&_&_&->&->&->&_&->&->&_).
  by destruct (se_same _ _ _ _ _ _ _ _ Hse) as (->&->&->&->&->).
Qed.

Lemma started_ok : reservation_ok r'.
Proof.
  destruct started_fields as (Hg&Hm&Hs&Hu&Hmem).
  destruct edited_fields as (_&_&Hst&_&_&_&He&_).
  pose proof (lo_reservations _ Hlm r (proj1 edited_in)) as Hr.
  destruct (se_duration _ _ _ _ _ _ _ _ Hse) as (n & _ & Hn & _ & Hend).
  constructor; rewrite ?Hg, ?Hm, ?Hs, ?Hmem, ?He, ?Hst, ?edited_notifications;
    try apply Hr; [|apply edited_history_ok].
  rewrite Hend. unfold seconds, usec. lia.
Qed.

Lemma started_on_grid : on_slot m (r_start_at r') ∧ on_slot m (r_end_at r').
Proof.
  destruct started_fields as (_&_&Hs&_). destruct edited_fields as (_&_&_&_&_&_&He&_).
  destruct (Hgrid r (proj1 edited_in) Ha) as [Hon _].
  destruct (se_duration _ _ _ _ _ _ _ _ Hse) as (n & _ & _ & Hn & Hend).
  rewrite Hs, He, Hend. split; [done|]. by apply on_slot_add_seconds.
Qed.

(** The extension starts where the reservation ended. *)
Lemma extension_from : Z.max (slot_ceil now m) (r_end_at r) = r_end_at r.
Proof.
  destruct (Hgrid r (proj1 edited_in) Ha) as [_ Hon].
  pose proof (proj1 (slot_ceil_least m Hslot (r_end_at r) now Hon)). lia.
Qed.

Lemma extension_room T g t :
  read_by T w' → T ≤ t → g ∈ r_gpus r → r_end_at r ≤ t → t < ed_end e →
  room_at (spans_of rest) g (r_mode r) (max_shared_users c) None None 0
    (if bool_decide (r_mode r = MODE_SHARED)
     then reservation_share_units (r_share_units r) (max_shared_users c) else 1) t.
Proof.
  intros HT Ht Hg Hl Hr. destruct (se_extension _ _ _ _ _ _ _ _ Hse) as (_ & H); [lia|].
  fold m in H. rewrite extension_from in H.
  destruct H as (ord & sc & ex & caps & [s gpus] & w1 & w2 & Hl1 & Hl2 & Hfind).
  pose proof (shadow_ok lm (r_id r) Hlm) as Hsh.
  apply find_earliest_slot_sound in Hfind
    as (now' & w3 & ex' & Hn & Hl3 & _ & _ & (_ & Hplaced & ->) & Hin); [|done| |lia].
  2:{ pose proof (ro_gpus_nonempty _ (lo_reservations _ Hlm r (proj1 edited_in))) as Hne.
      destruct (r_gpus r) as [|g0 gs] eqn:E; [done|].
      assert (g0 ∈ sorted_set (g0 :: gs)) as Hin by (apply elem_of_sorted_set; left).
      destruct (sorted_set (g0 :: gs)); [by apply not_elem_of_nil in Hin|simpl; lia]. }
  apply list_elem_of_singleton in Hin as ->.
  destruct (Hplaced g) as (_ & _ & _ & Hroom); [by apply elem_of_sorted_set|].
  specialize (Hroom t Hl ltac:(lia)).
  apply (room_at_live (shadow_ledger lm (r_id r)) now') in Hroom;
    [exact (room_at_no_memory _ _ _ _ _ _ _ _ _ _ _ Hroom)|].
  assert (now' ≤ T); [|lia]. eapply read_by_now; [exact Hn|].
  by eapply read_by_earlier; [exact Hl3|eapply read_by_earlier].
Qed.

Lemma started_safe T :
  read_by T w' → safe_from T (max_shared_users c) lm → safe_from T (max_shared_users c) l'.
Proof.
  intros HT Hs g t Ht. destruct started_fields as (Hg&Hm&Hst&Hu&_).
  destruct edited_fields as (_&_&_&_&_&_&He&_).
  pose proof (lo_reservations _ Hlm r (proj1 edited_in)) as Hrok.
  destruct (decide (t < r_end_at r ∧ t < ed_end e)) as [[Hlt1 Hlt2]|Hn].
  - specialize (Hs g t Ht). unfold active_spans in *. rewrite original_perm in Hs.
    rewrite replaced_perm. change (?x :: rest) with ([x] ++ rest) in *.
    rewrite spans_of_app in *. unfold spans_of at 1 in Hs. unfold spans_of at 1.
    rewrite !filter_cons in *. rewrite decide_True in Hs by done.
    rewrite decide_True by by rewrite (rc_result _ _ _ _ _ _ _ Hrec). csimpl in *.
    eapply slot_safe_swap; [..|exact Hs]; simpl; try done.
    + unfold span_units; simpl. by rewrite Hu.
    + unfold covers; simpl. rewrite Hst, He. lia.
  - eapply (slot_safe_beside g t None None 0); [by apply (shadow_safe T)| | |].
    + rewrite Hm. apply Hrok.
    + by intros _.
    + rewrite Hg, Hst, He, Hm, Hu. intros Hin Hl Hr.
      pose proof (extension_room T g t HT Ht Hin ltac:(lia) Hr) as Hroom.
      destruct (ro_mode _ Hrok) as [Hmode|Hmode]; rewrite Hmode in Hroom |- *; [done|].
      done.
Qed.
End Started.

(** *** Not started *)

Section Future.
Context (Hfe : future_edit c request now lm r e w w').

Lemma edited_count_pos n p ex : _validate_gpu_scope c n p ex = Ok tt → 1 ≤ n.
Proof. unfold _validate_gpu_scope. destruct (Z.ltb_spec n 1); [done|lia]. Qed.

Lemma edited_preferred_sorted p : edited_preferred request r = Some p → NoDup p.
Proof.
  unfold edited_preferred. destruct (e_preferred_gpus request); [intros [= <-]; auto with bk|].
  case_match; [|done]. intros [= <-]. auto with bk.
Qed.

Lemma edited_units_shared units :
  edited_units c request r MODE_SHARED = Ok units → 1 ≤ units ≤ max_shared_users c.
Proof.
  unfold edited_units. rewrite bool_decide_eq_true_2 by done.
  apply _request_share_units_shared.
Qed.

Lemma future_placed :
  ∃ now' units count expected caps ex, (∀ T, read_by T w' → now' ≤ T) ∧
    1 ≤ count ∧
    edited_units c request r (ed_mode e) = Ok units ∧
    ed_units e = (if bool_decide (ed_mode e = MODE_SHARED) then Some (JInt units) else None) ∧
    policy_conflict_at c now' (ed_start e) (ed_end e) = "" ∧
    placed (live_spans (shadow_ledger lm (r_id r)) now') c count
      (seconds (edited_duration request r)) (ed_mode e) (edited_preferred request r) ex expected
      caps units (ed_start e) (ed_gpus e) ∧
    on_slot m (ed_start e).
Proof.
  destruct (fe_search _ _ _ _ _ _ _ _ Hfe) as (start & units & excluded & count & ord & sc & caps
    & w1 & w2 & Hst & Hu & Hue & Hex & Hcount & Hscope & Hq & Hl1 & Hl2 & Hfind).
  destruct (fe_duration _ _ _ _ _ _ _ _ Hfe) as (Hd & _ & Hend).
  pose proof (shadow_ok lm (r_id r) Hlm) as Hsh.
  pose proof (edited_count_pos _ _ _ Hscope) as Hpos.
  pose proof Hfind as Hfind'.
  apply find_earliest_slot_sound in Hfind
    as (now' & w3 & ex' & Hn & Hl3 & _ & Hpol & Hplaced & Hin); [|done..|].
  2:{ unfold seconds, usec. lia. }
  exists now', units, count, (ed_memory e), (Some caps), ex'.
  split.
  { intros T HT. eapply read_by_now; [exact Hn|].
    by eapply read_by_earlier; [exact Hl3|eapply read_by_earlier]. }
  do 3 (split; [done|]). rewrite Hend. do 2 (split; [done|]).
  destruct (e_allow_queue request) eqn:Hqueue; [by eapply earliest_candidates_on_slot|].
  rewrite (Hq eq_refl). unfold settled_start in Hst. apply res_bind_Ok in Hst as (s0 & Hs0 & Hst).
  rewrite Hqueue in Hst, Hs0. unfold _normalize_start in Hs0.
  rewrite is_slot_aligned_valid in Hs0 by done. cbn [mbind res_bind] in Hs0.
  destruct (slot_aligned _ _) eqn:Hal; simpl in Hs0.
  - injection Hs0 as <-. destruct (Z.ltb_spec (replace_microsecond_0 (replace_microsecond_0
      (default (r_start_at r) (e_start_at request)))) (slot_ceil now (slot_minutes c))); [done|].
    injection Hst as <-. by apply (slot_aligned_spec m Hslot).
  - apply res_bind_Ok in Hs0 as (? & _ & ?). done.
Qed.

Lemma future_ok : reservation_ok r'.
Proof.
  destruct future_placed as (now' & units & count & ex & caps & excl & _ & Hpos & _ & _ & _ &
    (Hlen & _ & Hp) & _).
  destruct edited_fields as (_&_&Hst&Hg&Hm&Hs&He&_&Hmem&_).
  destruct (fe_duration _ _ _ _ _ _ _ _ Hfe) as (Hd & _ & Hend).
  pose proof (lo_reservations _ Hlm r (proj1 edited_in)) as Hr.
  constructor; rewrite ?Hg, ?Hm, ?Hs, ?Hmem, ?He, ?Hst, ?edited_notifications; try apply Hr.
  - destruct (edited_preferred request r) as [p|] eqn:E; [|by destruct Hp].
    rewrite Hp. by eapply edited_preferred_sorted.
  - intros E. rewrite E in Hlen. simpl in Hlen. lia.
  - rewrite Hend. unfold seconds, usec. lia.
  - by destruct (fe_mode _ _ _ _ _ _ _ _ Hfe).
  - apply (fe_memory _ _ _ _ _ _ _ _ Hfe).
  - apply edited_history_ok.
Qed.

Lemma future_on_grid : on_slot m (r_start_at r') ∧ on_slot m (r_end_at r').
Proof.
  destruct future_placed as (_&_&_&_&_&_&_&_&_&_&_&_&Hon).
  destruct edited_fields as (_&_&_&_&_&->&->&_).
  destruct (fe_duration _ _ _ _ _ _ _ _ Hfe) as (_ & Hn & ->).
  split; [done|]. by apply on_slot_add_seconds.
Qed.

Lemma future_safe T :
  read_by T w' → safe_from T (max_shared_users c) lm → safe_from T (max_shared_users c) l'.
Proof.
  intros HT Hs g t Ht.
  destruct future_placed as (now' & units & count & ex & caps & excl & Hnow' & _ & Hu & Hue & _ &
    (_ & Hplaced & _) & _).
  destruct edited_fields as (_&_&_&Hg&Hm&Hst&He&Hus&_).
  destruct (fe_duration _ _ _ _ _ _ _ _ Hfe) as (_ & _ & Hend).
  apply (slot_safe_beside g t ex (memory_capacity caps g) (shared_memory_reserve_mb c) units);
    [by apply (shadow_safe T)|..]; rewrite ?Hg, ?Hm, ?Hst, ?He, ?Hus.
  - by destruct (fe_mode _ _ _ _ _ _ _ _ Hfe).
  - intros E. rewrite Hue, E in *. rewrite bool_decide_eq_true_2 by done.
    apply reservation_share_units_int. pose proof (edited_units_shared _ Hu). lia.
  - rewrite Hend. intros Hin Hl Hr. destruct (Hplaced g Hin) as (_&_&_&Hroom).
    specialize (Hroom t Hl Hr). specialize (Hnow' T HT).
    by apply (room_at_live (shadow_ledger lm (r_id r)) now') in Hroom; [|lia].
Qed.
End Future.
End Edited.

(** ** Properties *)

Lemma edit_mutate_keeps `{LocalTime} c request op_id l w l' res logs changed w' :
  valid_slot (slot_minutes c) → ledger_ok l → on_grid (slot_minutes c) l →
  edit_mutate c request op_id l w = (Ok (l', res, logs, changed), w') →
  ledger_ok l' ∧ on_grid (slot_minutes c) l' ∧
  (∃ now lm, prepared c now l lm ∧ ids l' = ids lm) ∧
  (∀ T, read_by T w' → safe_from T (max_shared_users c) l → safe_from T (max_shared_users c) l').
Proof.
  intros Hslot Hl Hgrid Hrun.
  apply edit_mutate_run in Hrun as (now & lm & _ & Hp & _ & Hout).
  pose proof (prepared_ok _ _ _ _ Hp Hl) as Hlm.
  pose proof (prepared_grid _ _ _ _ _ Hp Hgrid) as Hglm.
  pose proof (λ T, prepared_safe T _ _ _ _ (max_shared_users c) Hp) as Hslm.
  destruct Hout as [(_ & -> & _)|(_ & _ & _ & _ & -> & r & e & w1 & _ & _ & Hf & Ha & _ & Hrec & Hkind)].
  { split; [done|]. split; [done|]. split; [by exists now, lm|]. intros T _. apply Hslm. }
  assert (Hlive : now < r_end_at r).
  { destruct (find_first_Some _ _ _ Hf) as [Hin _]. rewrite (prepared_same _ _ _ _ Hp) in Hin.
    by destruct (maintain_active _ _ _ _ Hin Ha) as [[_ ?] _]. }
  assert (Hids : ids (replace_reservation lm (br_reservation res)) = ids lm).
  { rewrite (replaced request now lm r _ e op_id Hf Hrec). apply update_ids.
    exact (replaced_id request now lm r _ e op_id Hf Hrec). }
  assert (Hnew : reservation_ok (br_reservation res) ∧
    (on_slot (slot_minutes c) (r_start_at (br_reservation res)) ∧
     on_slot (slot_minutes c) (r_end_at (br_reservation res))) ∧
    ∀ T, read_by T w' → safe_from T (max_shared_users c) lm →
      safe_from T (max_shared_users c) (replace_reservation lm (br_reservation res))).
  { destruct Hkind as [Hse|Hfe].
    - split; [by eapply started_ok|]. split; [by eapply started_on_grid|].
      intros T. by eapply started_safe.
    - split; [by eapply future_ok|]. split; [by eapply future_on_grid|].
      intros T. by eapply future_safe. }
  destruct Hnew as (Hok & Hon & Hsafe).
  split; [|split; [|split; [by exists now, lm|]]].
  - rewrite (replaced request now lm r _ e op_id Hf Hrec). eapply update_ok; try done.
    exact (replaced_id request now lm r _ e op_id Hf Hrec).
  - rewrite (replaced request now lm r _ e op_id Hf Hrec). by eapply update_grid.
  - intros T HT Hs. by apply Hsafe, Hslm.
Qed.

(** C34: editing keeps the ledger well formed, on the slot grid and within the
    capacity of every GPU from the last clock reading on, whether the
    reservation has started or not, and keeps the list of ids maintenance
    leaves. *)
Theorem edit_booking_preserves `{LocalTime} c request op_id l w l' res logs changed w' :
  valid_slot (slot_minutes c) → ledger_ok l → on_grid (slot_minutes c) l →
  edit_mutate c request op_id l w = (Ok (l', res, logs, changed), w') →
  ledger_ok l' ∧ on_grid (slot_minutes c) l' ∧
  (∃ now lm, prepared c now l lm ∧ ids l' = ids lm) ∧
  (∀ T, read_by T w' → safe_from T (max_shared_users c) l → safe_from T (max_shared_users c) l').
Proof. apply edit_mutate_keeps. Qed.

Lemma applied_edit_Some l request op sig r :
  applied_edit l request op sig = Ok (Some r) →
  r ∈ l_reservations l ∧ r_uid r = a_uid (e_actor request) ∧ r_id r = e_reservation_id request.
Proof.
  unfold applied_edit. destruct op as [o|]; [|done].
  rewrite res_bind_Ok. intros ([[[kind x] s]|] & Hf & E); [|done].
  destruct (_ || _) eqn:Hb; [done|]. simplify_eq. bk_split. subst.
  by apply find_applied_Some in Hf as (?&?&?).
Qed.

(** A future edit lands at or after the next boundary. *)
Lemma future_not_past c request now lm r e w w' :
  valid_slot (slot_minutes c) → ledger_ok lm → future_edit c request now lm r e w w' →
  slot_ceil now (slot_minutes c) ≤ ed_start e.
Proof.
  intros Hslot Hlm Hfe.
  destruct (fe_search _ _ _ _ _ _ _ _ Hfe) as (start & units & excluded & count & ord & sc & caps
    & w1 & w2 & Hst & _ & _ & _ & _ & Hscope & Hq & _ & _ & Hfind).
  destruct (fe_duration _ _ _ _ _ _ _ _ Hfe) as (Hd & _ & _).
  unfold settled_start in Hst. apply res_bind_Ok in Hst as (s0 & Hs0 & Hst).
  assert (Hge : slot_ceil now (slot_minutes c) ≤ start).
  { destruct (Z.ltb_spec s0 (slot_ceil now (slot_minutes c))).
    - destruct (e_allow_queue request); [|done]. injection Hst as <-. lia.
    - injection Hst as <-. lia. }
  destruct (e_allow_queue request) eqn:Hqueue; [|by rewrite Hq].
  apply find_earliest_slot_sound in Hfind as (now' & w3 & ex' & _ & _ & _ & _ & _ & Hin);
    [|by apply shadow_ok|by eapply edited_count_pos|unfold seconds, usec; lia].
  apply earliest_candidates_from in Hin; [|done].
  assert (Hon : on_slot (slot_minutes c) start).
  { unfold _normalize_start in Hs0. rewrite ?Hqueue in Hs0. apply date_in_range_Ok in Hs0 as [-> _].
    destruct (_ <? slot_ceil _ _); injection Hst as <-;
      [by apply slot_ceil_on|by apply normalize_queue_start_on]. }
  pose proof (search_start_of_ge c start now' (ed_start e) Hslot Hon Hin). lia.
Qed.

(** C35: what an edit may do. A success returns the requester's own reservation
    with the requested id and touches no other one. An applied edit changes
    nothing else. A new edit records the states before and after in a history of
    at most 256 entries, keeps the owner, the status and the job, and respects
    time: a started reservation keeps its start, GPUs, mode, share and memory
    and ends in the future; one that has not started is not moved into the past,
    and its job is still pending. *)
Theorem edit_booking_effect `{LocalTime} c request op_id l w l' res logs changed w' :
  valid_slot (slot_minutes c) → ledger_ok l →
  edit_mutate c request op_id l w = (Ok (l', res, logs, changed), w') →
  let r' := br_reservation res in
  let now := replace_microsecond_0 (w_clock w (w_reads w)) in
  let maintained := l_reservations (_maintain_ledger l now (ledger_retention_days c)).1 in
  r' ∈ l_reservations l' ∧ r_uid r' = a_uid (e_actor request) ∧ r_id r' = e_reservation_id request ∧
  (∀ x, r_id x ≠ e_reservation_id request → x ∈ l_reservations l' ↔ x ∈ maintained) ∧
  (br_created res = false → l_reservations l' = maintained ∧ logs = []) ∧
  (br_created res = true → ∃ r history entry,
     r ∈ l_reservations l ∧ live now r ∧ r_id r = r_id r' ∧
     r_edit_operations r = Some history ∧ r_edit_operations r' = Some (history ++ [entry]) ∧
     Z.of_nat (length (history ++ [entry])) ≤ MAX_EDIT_OPERATIONS_PER_RESERVATION ∧
     eo_before entry = Some (_reservation_edit_state r) ∧
     eo_after entry = Some (_reservation_edit_state r') ∧
     r_uid r' = r_uid r ∧ r_status r' = r_status r ∧ r_job r' = r_job r ∧
     if decide (r_start_at r ≤ now) then
       r_start_at r' = r_start_at r ∧ r_gpus r' = r_gpus r ∧ r_mode r' = r_mode r ∧
       r_share_units r' = r_share_units r ∧ r_expected_memory_mb r' = r_expected_memory_mb r ∧
       slot_ceil now (slot_minutes c) ≤ r_end_at r' ∧ now < r_end_at r'
     else
       slot_ceil now (slot_minutes c) ≤ r_start_at r' ∧
       ∀ j, r_job r = Some j → job_status j = Some JOB_PENDING).
Proof.
  intros Hslot Hl Hrun. cbv zeta.
  apply edit_mutate_run in Hrun as (now & lm & <- & Hp & _ & Hout).
  pose proof (prepared_ok _ _ _ _ Hp Hl) as Hlm. rewrite <- (prepared_same _ _ _ _ Hp).
  destruct Hout as [(Happ & -> & Hcr & ->)|(_ & _ & _ & Hcr & -> & r & e & w1 & _ & _ & Hf & Ha & Hu & Hrec & Hkind)].
  { apply applied_edit_Some in Happ as (?&?&?). do 3 (split; [done|]). split; [done|].
    split; [done|]. by rewrite Hcr. }
  pose proof (replaced request now lm r _ e op_id Hf Hrec) as Hl'.
  destruct (find_first_Some _ _ _ Hf) as [Hin Hid].
  destruct (edited_fields request now r _ e op_id Hrec) as (Hid' & Hu' & Hs' & Hg & Hm & Hst & He & Hus & Hmem & Hh).
  rewrite Hl'.
  split; [apply (update_elem _ (λ _, br_reservation res) lm r Hlm Hf); by left|].
  split; [congruence|]. split; [congruence|]. split.
  { intros x Hx. rewrite (update_elem _ (λ _, br_reservation res) lm r Hlm Hf). split; [|by right].
    intros [->|[? _]]; [|done]. congruence. }
  split; [congruence|]. intros _.
  assert (Hin' : r ∈ l_reservations l ∧ live now r).
  { rewrite (prepared_same _ _ _ _ Hp) in Hin. by destruct (maintain_active _ _ _ _ Hin Ha). }
  exists r, (ed_history e), (ed_entry e). destruct Hin' as [Hin' Hlive].
  do 2 (split; [done|]). split; [congruence|]. split; [by apply (rc_history _ _ _ _ _ _ _ Hrec)|].
  split; [done|]. split.
  { rewrite length_app. simpl. pose proof (rc_limit _ _ _ _ _ _ _ Hrec). lia. }
  split; [by apply (rc_before _ _ _ _ _ _ _ Hrec)|]. split; [by apply (rc_after _ _ _ _ _ _ _ Hrec)|].
  do 2 (split; [done|]). split; [by rewrite (rc_result _ _ _ _ _ _ _ Hrec)|].
  destruct Hkind as [Hse|Hfe].
  - rewrite decide_True by apply (se_started _ _ _ _ _ _ _ _ Hse).
    destruct (se_same _ _ _ _ _ _ _ _ Hse) as (?&?&?&?&?).
    destruct (se_future _ _ _ _ _ _ _ _ Hse). rewrite Hst, Hg, Hm, Hus, Hmem, He. done.
  - pose proof (fe_future _ _ _ _ _ _ _ _ Hfe). rewrite decide_False by lia. rewrite Hst.
    split; [by eapply future_not_past|]. apply (fe_job _ _ _ _ _ _ _ _ Hfe).
Qed.

(** Nobody edits another user's reservation. *)
Theorem edit_booking_permission `{LocalTime} c request op_id l w r :
  valid_slot (slot_minutes c) → ledger_ok l → r ∈ l_reservations l →
  r_id r = e_reservation_id request → r_uid r ≠ a_uid (e_actor request) →
  ∃ e w', edit_mutate c request op_id l w = (Raise e, w').
Proof.
  intros Hslot Hl Hr Hid Hu.
  destruct (edit_mutate c request op_id l w) as [[[[[l' res] logs] changed]|e] w'] eqn:Hrun;
    [exfalso|by eexists _, _].
  apply edit_mutate_run in Hrun as (now & lm & _ & Hp & _ & Hout).
  assert (Huniq : ∀ x, x ∈ l_reservations lm → r_id x = e_reservation_id request →
    r_uid x = a_uid (e_actor request) → False).
  { intros x Hx Hxid Hxu. rewrite (prepared_same _ _ _ _ Hp), maintain_reservations in Hx.
    apply list_elem_of_filter in Hx as [_ Hx]. apply list_elem_of_fmap in Hx as (x0 & -> & Hx0).
    rewrite expire_id in Hxid. rewrite expire_uid in Hxu. apply Hu. rewrite <- Hxu. f_equal.
    apply (NoDup_fmap_inj r_id (l_reservations l)); [apply (lo_ids l Hl)|done|done|congruence]. }
  destruct Hout as [(Happ & _)|(_ & _ & _ & _ & _ & r0 & e & w1 & _ & _ & Hf & _ & Hu0 & _)].
  - apply applied_edit_Some in Happ as (?&?&?). by eapply Huniq.
  - apply find_first_Some in Hf as [??]. by eapply Huniq.
Qed.

(** The operation is found in the record it changed. *)
Lemma edited_applied a now o sig r r' e :
  recorded a now (Some o) sig r r' e → applied_in o r = Ok None →
  applied_in o r' = Ok (Some (Edited, Some sig)).
Proof.
  intros Hrec. rewrite (rc_result _ _ _ _ _ _ _ Hrec). unfold applied_in. simpl.
  case_bool_decide; [done|].
  rewrite (rc_history _ _ _ _ _ _ _ Hrec).
  pose proof (rc_limit _ _ _ _ _ _ _ Hrec) as Hlim.
  pose proof (rc_op _ _ _ _ _ _ _ Hrec o eq_refl) as Ho.
  pose proof (rc_signature _ _ _ _ _ _ _ Hrec) as Hsig.
  destruct (match r_cancel_operation r with Some _ => _ | None => _ end) as [[f|]|];
    [done| |done]. simpl.
  destruct (Z.ltb_spec MAX_EDIT_OPERATIONS_PER_RESERVATION (Z.of_nat (length (ed_history e)))); [lia|].
  destruct (Z.ltb_spec MAX_EDIT_OPERATIONS_PER_RESERVATION
    (Z.of_nat (length (ed_history e ++ [ed_entry e])))) as [Hlong|_].
  { rewrite length_app in Hlong. simpl in Hlong. lia. }
  rewrite filter_app. destruct (filter _ (ed_history e)); [|done]. intros _. simpl.
  rewrite filter_cons_True by done. simpl. by rewrite Hsig.
Qed.

(** Retrying an edit is idempotent: after a run with an operation id that
    changed a reservation, the same request later - while the reservation is
    within its retention - returns the stored reservation and changes nothing
    but maintenance. *)
Theorem edit_booking_replay `{LocalTime} c request o l w l' res logs changed w' w2 :
  ledger_ok l → edit_mutate c request (Some o) l w = (Ok (l', res, logs, changed), w') →
  br_created res = true →
  let r' := br_reservation res in
  let now2 := replace_microsecond_0 (w_clock w2 (w_reads w2)) in
  let maintained := _maintain_ledger l' now2 (ledger_retention_days c) in
  (ledger_retention_days c ≤ 0 ∨ now2 - days (ledger_retention_days c) < r_end_at r') →
  ∃ w3, edit_mutate c request (Some o) l' w2 =
    (Ok (maintained.1, BookingResult (expire_reservation now2 r') false "operation already applied"
           false, [], maintained.2), w3).
Proof.
  cbv zeta. intros Hl Hrun Hcreated Hret.
  apply edit_mutate_run in Hrun as (now & lm & _ & Hp & _ & [(_ & _ & E & _)|(Happ & _ & _ & _ & Hl' & r & e & w1 & _ & _ & Hf & Ha & Hu & Hrec & _)]).
  { congruence. }
  destruct (find_first_Some _ _ _ Hf) as [Hin Hid].
  destruct (clock_now_run w2) as (t & w3 & Hclock & _ & Ht). rewrite <- Ht in *.
  exists w3. unfold edit_mutate, utc_now, mbind, M_bind, lift. rewrite Hclock.
  destruct Hp as (lb & b & Hb & Hlm).
  assert (Hpol' : l_policy l' = l_policy lb).
  { rewrite Hl', Hlm. unfold replace_reservation. simpl. by apply maintain_frame. }
  destruct (bind_stable l c lb b l' Hb Hpol') as [_ Hbind]. rewrite Hbind.
  set (sig := _edit_operation_signature request) in *.
  set (r' := br_reservation res) in *.
  unfold applied_edit in Happ. apply res_bind_Ok in Happ as ([[[]]|] & Hnone & E).
  - by case_match.
  - unfold _find_applied_operation in Hnone.
    pose proof (find_applied_None _ _ _ _ Hnone Hin Hu) as Hr0.
    destruct (edited_fields request now r r' e (Some o) Hrec) as (Hid' & Hu' & Hs' & _).
    pose proof (rc_result _ _ _ _ _ _ _ Hrec) as Hr'.
    pose proof (edited_applied _ _ _ _ _ _ _ Hrec Hr0) as Hr1.
    assert (Hfind : find_applied (l_reservations l') (a_uid (e_actor request)) o
      = Ok (Some (Edited, r', Some sig))).
    { rewrite Hl', (replaced request now lm r r' e (Some o) Hf Hrec). simpl.
      by apply (find_applied_update _ (λ _, r') _ _ _ _ r). }
    assert (Hact : r_status r' = STATUS_ACTIVE) by by rewrite Hs'.
    pose proof (retained_expire t (ledger_retention_days c) r' Hact Hret) as Hkeep.
    assert (Hfind2 : _find_applied_operation (_maintain_ledger l' t (ledger_retention_days c)).1
      (a_uid (e_actor request)) o = Ok (Some (Edited, expire_reservation t r', Some sig))).
    { unfold _find_applied_operation. rewrite maintain_reservations.
      apply find_applied_map_Some; [apply expire_uid|intros; apply expire_applied_in|done|done]. }
    destruct (_maintain_ledger l' t (ledger_retention_days c)) as [lm2 m2]. cbn [fst snd] in *.
    unfold applied_edit. rewrite Hfind2. simpl.
    rewrite expire_id, Hid', Hid, !bool_decide_eq_true_2 by done. simpl.
    by rewrite orb_false_r.
Qed.

(** ** Examples *)

#[local] Instance utc_text : LocalTime := to_iso.

(** A running reservation and a future one of the same user. *)
Definition running_reservation : reservation :=
  Reservation "r-1" (Some "create-1") 1001 (Some "ann") [1] MODE_SHARED noon (noon + hours 1)
    STATUS_ACTIVE (Some noon) (Some noon) (Some 1024) (Some (JInt 1)) None None
    (Some []) None (Some []).

Definition future_reservation : reservation :=
  Reservation "r-2" (Some "create-2") 1001 (Some "ann") [0] MODE_SHARED (noon + hours 2)
    (noon + hours 3) STATUS_ACTIVE (Some noon) (Some noon) None (Some (JInt 1)) None None
    (Some []) None (Some []).

Definition edit_ledger : ledger := Ledger [running_reservation; future_reservation] None [] None.

Definition editor : actor := Actor 1001 "ann".

(** Make the running reservation an hour longer; move the future one. *)
Definition extend_request : edit_request :=
  EditRequest editor "r-1" (Some "edit-1") None (Some 7200) None None None None None false None false
    None None false None.

Definition move_request : edit_request :=
  EditRequest editor "r-2" (Some "edit-2") (Some (noon + hours 4)) None None None None None None
    false None false None None false None.

Lemma edit_ledger_ok : ledger_ok edit_ledger.
Proof.
  constructor; [decide_now|]. intros r [->|Hr]%elem_of_cons;
    [|apply list_elem_of_singleton in Hr as ->]; constructor; try decide_now; try done.
  intros m [= <-]. decide_now.
Qed.

Lemma edit_ledger_grid : on_grid 15 edit_ledger.
Proof.
  intros r [->|Hr]%elem_of_cons _; [|apply list_elem_of_singleton in Hr as ->]; decide_now.
Qed.

Lemma edit_booking_preserves_witness :
  ∃ l' res logs w',
    edit_mutate example_config extend_request (Some "edit-1") edit_ledger example_world
      = (Ok (l', res, logs, true), w') ∧
    r_end_at (br_reservation res) = noon + hours 2 ∧ ledger_ok l' ∧ on_grid 15 l'.
Proof.
  eexists _, _, _, _. split; [vm_compute; reflexivity|]. split; [vm_compute; reflexivity|].
  match goal with |- ledger_ok ?l ∧ _ =>
    destruct (edit_booking_preserves example_config extend_request (Some "edit-1") edit_ledger
      example_world l _ _ _ _ ltac:(decide_now) edit_ledger_ok edit_ledger_grid
      ltac:(vm_compute; reflexivity)) as (H1 & H2 & _) end.
  split; [exact H1|exact H2].
Defined.

Lemma edit_booking_effect_witness :
  ∃ l' res logs w',
    edit_mutate example_config move_request (Some "edit-2") edit_ledger example_world
      = (Ok (l', res, logs, true), w') ∧
    r_start_at (br_reservation res) = noon + hours 4 ∧ r_uid (br_reservation res) = 1001 ∧
    running_reservation ∈ l_reservations l'.
Proof.
  eexists _, _, _, _. split; [vm_compute; reflexivity|]. split; [vm_compute; reflexivity|].
  match goal with |- r_uid (br_reservation ?res) = _ ∧ _ ∈ l_reservations ?l =>
    destruct (edit_booking_effect example_config move_request (Some "edit-2") edit_ledger
      example_world l res _ _ _ ltac:(decide_now) edit_ledger_ok
      ltac:(vm_compute; reflexivity)) as (_ & H1 & _ & H2 & _) end.
  split; [exact H1|]. apply H2; [discriminate|]. vm_compute. left.
Defined.

Lemma edit_booking_permission_witness :
  ∃ e w', edit_mutate example_config
    (EditRequest (Actor 1000 "ada") "r-1" None None (Some 7200) None None None None None false None
       false None None false None) None edit_ledger example_world = (Raise e, w').
Proof.
  apply (edit_booking_permission example_config
    (EditRequest (Actor 1000 "ada") "r-1" None None (Some 7200) None None None None None false None
       false None None false None) None edit_ledger example_world running_reservation
    ltac:(decide_now) edit_ledger_ok).
  - left.
  - reflexivity.
  - discriminate.
Defined.

Lemma edit_booking_replay_witness :
  ∃ l' res logs w',
    edit_mutate example_config extend_request (Some "edit-1") edit_ledger example_world
      = (Ok (l', res, logs, true), w') ∧
    ∃ w3, edit_mutate example_config extend_request (Some "edit-1") l' w' =
      (Ok ((_maintain_ledger l' noon 90).1,
           BookingResult (expire_reservation noon (br_reservation res)) false
             "operation already applied" false, [], (_maintain_ledger l' noon 90).2), w3).
Proof.
  eexists _, _, _, _. split; [vm_compute; reflexivity|].
  eapply (edit_booking_replay example_config extend_request "edit-1" edit_ledger example_world).
  - exact edit_ledger_ok.
  - vm_compute. reflexivity.
  - reflexivity.
  - right. vm_compute. reflexivity.
Defined.

(** ** Why the slot grid matters *)

(** Off the grid, at 12:46: the editor's reservation ends at 12:50, where another
    user's exclusive one begins. *)
Definition off_grid_mine : reservation :=
  Reservation "r-1" None 1001 (Some "ann") [1] MODE_EXCLUSIVE noon (noon + minutes 50)
    STATUS_ACTIVE None None None None None None (Some []) None (Some []).

Definition off_grid_other : reservation :=
  Reservation "r-9" None 1002 (Some "bob") [1] MODE_EXCLUSIVE (noon + minutes 50)
    (noon + minutes 60) STATUS_ACTIVE None None None None None None (Some []) None (Some []).

Definition off_grid_ledger : ledger := Ledger [off_grid_mine; off_grid_other] None [] None.

Definition world_1246 : world := World (λ _, noon + minutes 46) (λ n, "id" +:+ pretty n) 0 0.

Definition overlap_request : edit_request :=
  EditRequest editor "r-1" None None (Some 4500) None None None None None false None false
    None None false None.

(** The extension of a started reservation is only checked from the next slot
    boundary on. On a well-formed and safe ledger whose reservations are off the
    grid it can be granted over another user's exclusive reservation: here the
    ten minutes from 12:50 are never looked at. The grid hypothesis of
    [edit_booking_preserves] cannot be dropped. *)
Theorem extension_off_grid_overlaps :
  ledger_ok off_grid_ledger ∧ safe_from (noon + minutes 46) 2 off_grid_ledger ∧
  ∃ l' res logs w',
    edit_mutate example_config overlap_request None off_grid_ledger world_1246
      = (Ok (l', res, logs, true), w') ∧
    read_by (noon + minutes 46) w' ∧ ¬ safe_from (noon + minutes 46) 2 l'.
Proof.
  split; [|split].
  - constructor; [decide_now|]. intros r [->|Hr]%elem_of_cons;
      [|apply list_elem_of_singleton in Hr as ->]; constructor; try decide_now; done.
  - intros g t Ht. unfold active_spans, spans_of.
    change (filter is_active (l_reservations off_grid_ledger))
      with (l_reservations off_grid_ledger).
    change (slot_safe 2 (span_of off_grid_mine :: [span_of off_grid_other]) g t).
    apply (slot_safe_add 2 _ _ g t None None 0 1); [|by right|done|].
    + apply (slot_safe_add 2 [] _ g t None None 0 1); [|by right|done|done].
      split; [by intros sp ?%not_elem_of_nil|done].
    + intros _ [_ Hend]. change (t < noon + minutes 50) in Hend.
      change (holders [span_of off_grid_other] g t = []). rewrite holders_one.
      rewrite decide_False; [done|]. intros [_ [Hstart _]].
      change (noon + minutes 50 ≤ t) in Hstart. lia.
  - eexists _, _, _, _. split; [vm_compute; reflexivity|]. split.
    + intros i _. vm_compute. discriminate.
    + intros Hs. destruct (Hs 1 (noon + minutes 52) ltac:(vm_compute; discriminate)) as [Hx _].
      match type of Hx with ∀ sp, sp ∈ ?h → _ =>
        destruct h as [|sp rest] eqn:E; [vm_compute in E; discriminate|] end.
      specialize (Hx sp ltac:(left)).
      assert (El : length (sp :: rest) = 2%nat) by (rewrite <- E; vm_compute; reflexivity).
      assert (Hm : sp_mode sp = MODE_EXCLUSIVE).
      { apply (f_equal (λ l, sp_mode <$> head l)) in E. vm_compute in E. injection E as E.
        symmetry. exact E. }
      specialize (Hx Hm). rewrite El in Hx. discriminate.
Qed.
