(* ===== verification/Records.v ===== *)
(** * Records: properties of the single reservations of a ledger

    The four write operations change records in five ways only: expiry, the two
    cancellations, the creation of a record and an edit. [RecordLaws] is the
    interface a property of records offers: it survives those five. Any such
    property then holds of every record in every ledger the writes produce
    ([add_records], [cancel_records], [admin_records], [edit_records]). *)

From S2P Require Import Prelude PyBase Granularity Timeparse Models Sharing Config Policy.
From S2P Require Import ScheduleIndex Availability Placement Search Sha256 Requests Maintenance.
From S2P Require Import Safety Booking Cancel Edit.

(** ** The interface *)

Class RecordLaws (c : config) (P : reservation → Prop) : Prop := {
  rl_expire now r : P r → P (expire_reservation now r);
  rl_cancel now co r : P r → is_active r → P (mark_cancelled now co r);
  rl_admin now co history n r :
    P r → r_notifications r = Some history → P (admin_mark now co history n r);
  rl_new request ck now lm w l' res logs w' k :
    checked_ok c request ck → created c request ck now lm w l' res logs w' k →
    P (br_reservation res);
  rl_started `{LocalTime} request now lm r e w w' :
    P r → started_edit c request now lm r e w w' → P (edited_reservation now e r);
  rl_future `{LocalTime} request now lm r e w w' :
    P r → future_edit c request now lm r e w w' → P (edited_reservation now e r);
}.

Definition every (P : reservation → Prop) (l : ledger) : Prop :=
  ∀ r, r ∈ l_reservations l → P r.

(** ** The writes *)

Section Laws.
Context `{LocalTime} (c : config) (P : reservation → Prop) `{!RecordLaws c P}.

Lemma every_maintain l now d : every P l → every P (_maintain_ledger l now d).1.
Proof.
  intros Hall r. rewrite maintain_reservations. intros [_ Hr]%list_elem_of_filter.
  apply list_elem_of_fmap in Hr as (r0 & -> & Hr0). by apply rl_expire, Hall.
Qed.

Lemma every_prepared now l lm : prepared c now l lm → every P l → every P lm.
Proof.
  intros Hp Hall r. rewrite (prepared_same _ _ _ _ Hp). by apply every_maintain.
Qed.

Lemma every_update id f lm r :
  ledger_ok lm → every P lm → find_first id (l_reservations lm) = Some r → P (f r) →
  every P (set_reservations (update_first id f (l_reservations lm)) lm).
Proof.
  intros Hl Hall Hf Hr x. simpl. rewrite (elem_of_update_first id f _ r) by (done || apply (lo_ids _ Hl)).
  intros [->|[Hx _]]; [done|by apply Hall].
Qed.

Lemma add_records request ck l w l' res logs changed w' :
  add_checks c request = Ok ck → every P l →
  add_mutate c request ck l w = (Ok (l', res, logs, changed), w') → every P l'.
Proof.
  intros Hck Hall Hrun. apply add_mutate_run in Hrun as (now & lm & _ & Hp & _ & _ & Hcase).
  pose proof (every_prepared _ _ _ Hp Hall) as Hlm.
  destruct Hcase as [(-> & _)|(_ & k & Hk)]; [done|]. intros r.
  rewrite (cr_ledger _ _ _ _ _ _ _ _ _ _ _ Hk). simpl.
  intros [Hr|Hr%list_elem_of_singleton]%elem_of_app; [by apply Hlm|subst r].
  eapply rl_new; [by eapply add_checks_Ok|done].
Qed.

Lemma cancel_records id a o l w l' r' logs changed w' :
  ledger_ok l → every P l → cancel_mutate id a o l w = (Ok (l', r', logs, changed), w') →
  every P l'.
Proof.
  intros Hl Hall Hrun. apply cancel_mutate_run in Hrun as (now & le & _ & -> & _ & Hcase).
  pose proof (every_maintain l now 0 Hall) as Hle. change (_maintain_ledger l now 0).1 with
    (_expire_old_reservations l now).1 in Hle.
  destruct Hcase as [(_ & -> & _)|(_ & _ & _ & r & co & Hca)]; [done|].
  rewrite (ca_ledger _ _ _ _ _ _ _ _ _ Hca).
  pose proof (ca_found _ _ _ _ _ _ _ _ _ Hca) as Hf.
  eapply every_update; [by apply expire_ledger_ok|done|done|].
  apply rl_cancel; [|by apply (ca_active _ _ _ _ _ _ _ _ _ Hca)].
  apply Hle. by apply find_first_Some in Hf as [? _].
Qed.

Lemma admin_records id a reason l w l' r' logs changed w' :
  ledger_ok l → every P l →
  admin_cancel_mutate c id a reason l w = (Ok (l', r', logs, changed), w') → every P l'.
Proof.
  intros Hl Hall Hrun. apply admin_cancel_run in Hrun
    as (now & lm & r & co & history & n & log & _ & Hp & Hf & _ & _ & _ & Hh & _ & _ & -> & _); [|done].
  pose proof (every_prepared _ _ _ Hp Hall) as Hlm.
  eapply every_update; [by eapply prepared_ok|done|done|]. apply rl_admin; [|done].
  apply Hlm. by apply find_first_Some in Hf as [? _].
Qed.

Lemma edit_records request o l w l' res logs changed w' :
  ledger_ok l → every P l → edit_mutate c request o l w = (Ok (l', res, logs, changed), w') →
  every P l'.
Proof.
  intros Hl Hall Hrun. apply edit_mutate_run in Hrun as (now & lm & _ & Hp & _ & Hcase).
  pose proof (every_prepared _ _ _ Hp Hall) as Hlm.
  destruct Hcase as [(_ & -> & _)|(_ & _ & _ & _ & -> & r & e & w1 & _ & _ & Hf & _ & _ & Hrec & He)];
    [done|].
  pose proof (find_first_Some _ _ _ Hf) as [Hin _].
  rewrite (replaced request now lm r _ e _ Hf Hrec).
  eapply every_update; [by eapply prepared_ok|done|done|].
  rewrite (rc_result _ _ _ _ _ _ _ Hrec).
  destruct He as [He|He]; [by eapply rl_started; [apply Hlm|]|by eapply rl_future; [apply Hlm|]].
Qed.
End Laws.

(** ** Shares *)

(** A shared reservation records a number of slots the GPU has. *)
Definition share_valid (cap : Z) (r : reservation) : Prop :=
  r_mode r = MODE_SHARED → ∃ n, r_share_units r = Some (JInt n) ∧ 1 ≤ n ≤ cap.

#[export] Instance share_valid_laws c : RecordLaws c (share_valid (max_shared_users c)).
Proof.
  constructor.
  - intros now r Hr. unfold expire_reservation. by destruct (is_expiring now r).
  - by intros now co r Hr _.
  - by intros now co history n r Hr _.
  - intros request ck now lm w l' res logs w' k Hck Hk. rewrite (cr_result _ _ _ _ _ _ _ _ _ _ _ Hk).
    unfold share_valid. simpl. intros Hm. rewrite bool_decide_eq_true_2 by done.
    exists (ck_units ck). split; [done|]. by apply (co_units _ _ _ Hck).
  - intros ? request now lm r e w w' Hr He. unfold share_valid. simpl.
    destruct (se_same _ _ _ _ _ _ _ _ He) as (_ & -> & _ & _ & ->). exact Hr.
  - intros ? request now lm r e w w' Hr He. unfold share_valid. simpl. intros Hm.
    destruct (fe_search _ _ _ _ _ _ _ _ He)
      as (? & units & ? & ? & ? & ? & ? & ? & ? & _ & Hu & -> & _).
    rewrite bool_decide_eq_true_2 by done. exists units. split; [done|].
    rewrite Hm in Hu. by eapply edited_units_shared.
Qed.

Lemma share_valid_normal cap r raw :
  share_valid cap r → r_mode r = MODE_SHARED → r_share_units r = Some raw →
  ∃ n, normalize_share_units raw cap = Ok n.
Proof.
  intros Hv Hm Hraw. destruct (Hv Hm) as (n & E & Hn). rewrite Hraw in E. injection E as ->.
  exists n. by apply normalize_share_units_int.
Qed.
