(* ===== verification/JobHistory.v ===== *)
(** * JobHistory: the scheduler's writes as seen by the workers

    The audit log tells how often the job of a reservation was claimed and
    retried (the counts of the file Jobs). The writes of the scheduler log no
    claim and open no job to a further one, but for the creation of a record,
    whose id was never used before. *)

From S2P Require Import Prelude PyBase Granularity Timeparse Models Sharing Config Policy.
From S2P Require Import ScheduleIndex Availability Placement Search Sha256 Requests Maintenance.
From S2P Require Import Safety Jobs Booking Cancel Edit Records.

(** ** The results of a computation *)

(** Every result of a run that does not raise. *)
Definition yields {A} (Q : A → Prop) (m : M A) : Prop := ∀ w a w', m w = (Ok a, w') → Q a.

Lemma yields_ret {A} (Q : A → Prop) (a : A) : Q a → yields Q (mret a).
Proof. intros H w b w' [-> _]%M_ret_Ok. done. Qed.

Lemma yields_raise {A} (Q : A → Prop) e : yields Q (raise e : M A).
Proof. by intros w a w' H. Qed.

Lemma yields_bind {A B} (Q : B → Prop) (m : M A) (f : A → M B) :
  (∀ a, yields Q (f a)) → yields Q (m ≫= f).
Proof. intros Hf w b w' (a & w1 & _ & H)%M_bind_Ok. by eapply Hf. Qed.

(** The audit record of a booking names its action and its reservation. *)
Lemma yields_log {B} (Q : B → Prop) a act r s m o (f : log_item → M B) :
  (∀ log, lg_action log = act → yields Q (f log)) → yields Q (_log_item a act r s m o ≫= f).
Proof.
  intros Hf w b w' (log & w1 & Hlog & H)%M_bind_Ok. eapply Hf; [|exact H].
  unfold _log_item in Hlog. inv_M. done.
Qed.

Definition no_claims {A} (m : mutation A) : Prop := "job-claim" ∉ (lg_action <$> m.1.2).

Ltac yields_step :=
  first
    [ apply yields_raise
    | apply yields_log; intros ? ?
    | apply yields_bind; intros ?
    | apply yields_ret; unfold no_claims; csimpl;
      (by intros ?%not_elem_of_nil) ||
      (match goal with H : lg_action ?x = _ |- _ => rewrite H end; by intros ?%list_elem_of_singleton)
    | match goal with |- yields _ (match ?x with _ => _ end) => destruct x end ].

Lemma add_no_claims c request ck l : yields no_claims (add_mutate c request ck l).
Proof. unfold add_mutate, place_new. repeat yields_step. Qed.

Lemma cancel_no_claims id a o l : yields no_claims (cancel_mutate id a o l).
Proof. unfold cancel_mutate. repeat yields_step. Qed.

Lemma admin_no_claims c id a reason l : yields no_claims (admin_cancel_mutate c id a reason l).
Proof. unfold admin_cancel_mutate. repeat yields_step. Qed.

Lemma edit_no_claims `{LocalTime} c request o l : yields no_claims (edit_mutate c request o l).
Proof.
  unfold edit_mutate, edit_found, edit_started, edit_future, place_edit. repeat yields_step.
Qed.

(** ** A transaction without a change logs nothing *)

Definition quiet {A} (m : mutation A) : Prop := m.2 = false → m.1.2 = [].

Ltac quiet_step :=
  first
    [ apply yields_raise
    | apply yields_bind; intros ?
    | apply yields_ret; unfold quiet; simpl; done
    | match goal with |- yields _ (match ?x with _ => _ end) => destruct x end ].

Lemma claim_loop_quiet a now q order rs claimed logs ch w rs' claimed' logs' ch' w' :
  (ch = false → logs = []) →
  claim_loop a now q order rs claimed logs ch w = (Ok (rs', claimed', logs', ch'), w') →
  ch' = false → logs' = [].
Proof.
  revert rs claimed logs ch w. induction order as [|i order IH]; intros rs claimed logs ch w Hq H; simpl in H.
  { apply M_ret_Ok in H as [H _]. by simplify_eq. }
  destruct (rs !! i) as [r|]; [|by eapply IH].
  apply M_bind_Ok in H as ([[[r' ls] taken]|] & w1 & _ & H); [|by eapply IH].
  eapply IH; [|exact H]. done.
Qed.

Lemma each_reservation_quiet {B} (f : reservation → M (option (reservation * log_item * B))) rs w rs' out logs ch w' :
  each_reservation f rs w = (Ok (rs', out, logs, ch), w') → ch = false → logs = [].
Proof.
  revert rs' out logs ch w w'. induction rs as [|r rs IH]; intros rs' out logs ch w w' H; simpl in H.
  { apply M_ret_Ok in H as [H _]. by simplify_eq. }
  apply M_bind_Ok in H as (step & w1 & _ & H). apply M_bind_Ok in H as ([[[? ?] ?] ?] & w2 & Hr & H).
  destruct step as [[[? ?] ?]|]; apply M_ret_Ok in H as [H _]; simplify_eq; [done|by eapply IH].
Qed.

Lemma claim_quiet a now q l : yields quiet (claim_mutate a now q l).
Proof.
  intros w m w' H. unfold claim_mutate in H.
  apply M_bind_Ok in H as ([[[rs cl] ls] c'] & w1 & Hrun & H). apply M_ret_Ok in H as [<- _].
  unfold quiet. simpl. eapply claim_loop_quiet; [|exact Hrun]. done.
Qed.

Lemma each_quiet {A B} (f : reservation → M (option (reservation * log_item * B))) rs
    (g : list reservation → list B → ledger * A) w m w' :
  ('(rs', out, logs, ch) ← each_reservation f rs; mret (g rs' out, logs, ch)) w = (Ok m, w') → quiet m.
Proof.
  intros H. apply M_bind_Ok in H as ([[[rs' out] ls] c'] & w1 & Hrun & H). apply M_ret_Ok in H as [<- _].
  unfold quiet. simpl. by eapply each_reservation_quiet.
Qed.

(** ** What the writes open *)

Lemma open_count_app id l1 l2 : open_count id (l1 ++ l2) = open_count id l1 + open_count id l2.
Proof. apply sumZ_app. Qed.

Lemma is_open_expire now id r : is_open id (expire_reservation now r) ≤ is_open id r.
Proof.
  unfold expire_reservation. destruct (is_expiring now r); [|done]. unfold is_open. simpl.
  destruct (r_job r) as [j|]; simpl; [|rewrite decide_False by naive_solver; repeat case_decide; lia].
  assert (H : job_status (expire_job now j) ≠ Some JOB_PENDING).
  { unfold expire_job. destruct (bool_decide _ || _) eqn:E; [by job_lookup|].
    destruct (bool_decide (job_status j = Some JOB_RUNNING)); [by job_lookup|].
    apply orb_false_iff in E as [E _]. by bk_split. }
  rewrite decide_False by tauto. case_decide; lia.
Qed.

Lemma open_maintain id l now d :
  open_count id (l_reservations (_maintain_ledger l now d).1) ≤ open_count id (l_reservations l).
Proof.
  rewrite maintain_reservations. unfold open_count.
  induction (l_reservations l) as [|r rs IH]; [done|]. csimpl. rewrite filter_cons.
  pose proof (is_open_expire now id r). pose proof (is_open_nonneg id (expire_reservation now r)).
  match goal with |- context [if decide ?P then _ else _] => destruct (decide P) end; simpl; lia.
Qed.

Lemma open_prepared id c now l lm :
  prepared c now l lm → open_count id (l_reservations lm) ≤ open_count id (l_reservations l).
Proof. intros Hp. rewrite (prepared_same _ _ _ _ Hp). apply open_maintain. Qed.

Lemma open_update id id' f rs r :
  find_first id' rs = Some r → is_open id (f r) ≤ is_open id r →
  open_count id (update_first id' f rs) ≤ open_count id rs.
Proof.
  intros Hf Hle. revert Hf. unfold open_count. induction rs as [|x rs IH]; simpl; [done|].
  case_bool_decide; intros; simplify_eq; simpl; [lia|]. specialize (IH ltac:(done)). lia.
Qed.

Lemma cancel_job_closes now j : job_status (cancel_job now j) = Some JOB_PENDING → False.
Proof.
  unfold cancel_job. case_bool_decide; [by job_lookup|]. destruct (_ || _); [|done].
  unfold job_status, job_set. simpl. rewrite lookup_insert_ne by done. done.
Qed.

Lemma is_open_cancelled id now co r : is_open id (mark_cancelled now co r) = 0.
Proof.
  unfold is_open. rewrite decide_False; [done|]. simpl. intros [_ E].
  destruct (r_job r) as [j|]; simpl in E; [|done]. by eapply cancel_job_closes.
Qed.

Lemma is_open_admin id now co h n r : is_open id (admin_mark now co h n r) = 0.
Proof.
  unfold is_open. rewrite decide_False; [done|]. simpl. intros [_ E].
  destruct (r_job r) as [j|]; simpl in E; [|done]. by eapply cancel_job_closes.
Qed.

Lemma cancel_opens id' a o l w l' r' logs ch w' id :
  cancel_mutate id' a o l w = (Ok (l', r', logs, ch), w') →
  open_count id (l_reservations l') ≤ open_count id (l_reservations l).
Proof.
  intros (now & le & _ & -> & _ & Hcase)%cancel_mutate_run.
  pose proof (open_maintain id l now 0) as Hm.
  change (_maintain_ledger l now 0).1 with (_expire_old_reservations l now).1 in Hm.
  destruct Hcase as [(_ & -> & _)|(_ & _ & _ & r & co & Hca)]; [done|].
  rewrite (ca_ledger _ _ _ _ _ _ _ _ _ Hca). etrans; [|exact Hm].
  eapply open_update; [apply (ca_found _ _ _ _ _ _ _ _ _ Hca)|]. rewrite is_open_cancelled.
  apply is_open_nonneg.
Qed.

Lemma admin_opens c id' a reason l w l' r' logs ch w' id :
  ledger_ok l → admin_cancel_mutate c id' a reason l w = (Ok (l', r', logs, ch), w') →
  open_count id (l_reservations l') ≤ open_count id (l_reservations l).
Proof.
  intros Hl Hrun. apply admin_cancel_run in Hrun
    as (now & lm & r & co & h & n & log & _ & Hp & Hf & _ & _ & _ & _ & _ & _ & -> & _); [|done].
  etrans; [|by eapply open_prepared]. eapply open_update; [exact Hf|]. rewrite is_open_admin.
  apply is_open_nonneg.
Qed.

Lemma edit_opens `{LocalTime} c request o l w l' res logs ch w' id :
  edit_mutate c request o l w = (Ok (l', res, logs, ch), w') →
  open_count id (l_reservations l') ≤ open_count id (l_reservations l).
Proof.
  intros (now & lm & _ & Hp & _ & Hcase)%edit_mutate_run.
  pose proof (open_prepared id _ _ _ _ Hp).
  destruct Hcase as [(_ & -> & _)|(_ & _ & _ & _ & -> & r & e & w1 & _ & _ & Hf & _ & _ & Hrec & _)];
    [done|].
  rewrite (replaced request now lm r _ e _ Hf Hrec). etrans; [|done].
  eapply open_update; [exact Hf|]. rewrite (rc_result _ _ _ _ _ _ _ Hrec). done.
Qed.

(** A create opens at most one job, under an id that was just drawn. *)
Lemma add_opens c request ck l w l' res logs ch w' id :
  add_mutate c request ck l w = (Ok (l', res, logs, ch), w') →
  open_count id (l_reservations l') ≤ open_count id (l_reservations l) ∨
  (∃ i, (w_draws w ≤ i)%nat ∧ id = w_uuid w i) ∧
    open_count id (l_reservations l') ≤ 1 + open_count id (l_reservations l).
Proof.
  intros (now & lm & _ & Hp & _ & _ & Hcase)%add_mutate_run.
  pose proof (open_prepared id _ _ _ _ Hp). destruct Hcase as [(-> & _)|(_ & k & Hk)]; [by left|].
  rewrite (cr_ledger _ _ _ _ _ _ _ _ _ _ _ Hk), (cr_result _ _ _ _ _ _ _ _ _ _ _ Hk). simpl.
  rewrite open_count_app. set (r := new_reservation _ _ _ _ _ _ _ _ _).
  assert (E1 : open_count id [r] = is_open id r) by (unfold open_count; simpl; lia). rewrite E1.
  destruct (cr_id _ _ _ _ _ _ _ _ _ _ _ Hk) as (i & Hi & E).
  unfold is_open. case_decide as D; [right|left; lia]. destruct D as [<- _].
  split; [|lia]. exists i. split; [lia|done].
Qed.
