(* ===== verification/System.v ===== *)
(** * System: the ledger under any sequence of calls

    The writes of [src/src/bk/scheduler.py], of the workers
    ([src/src/bk/worker.py], [src/src/bk/job_recovery.py]) and of the
    administrator's announcements as one transition function on the committed
    ledger and its audit log, and what holds in every reachable state. [execute]
    is a call with the contract of the store: a mutator that raises, or that
    reports no change, leaves the ledger as it was. The store itself, with the
    transaction identifiers it draws, is modelled in the file Storage, and the
    file Transactions shows that it keeps this contract. *)

From S2P Require Import Prelude PyBase Granularity Timeparse Models Sharing Config Policy.
From S2P Require Import Announcements ScheduleIndex Availability Placement Search Sha256 Requests.
From S2P Require Import Maintenance Safety Jobs JobRecovery Violations Booking Cancel Edit Records.
From S2P Require Import JobHistory.

(** ** Definitions *)

(** The writes of the scheduler, of a worker, of the recovery of jobs, and the
    announcements. Times and decisions a worker made before its transaction are
    arguments, whatever they are. *)
Inductive call :=
  | Add (request : booking_request)
  | CancelOwn (reservation_id : string) (a : actor) (operation_id : option string)
  | CancelAsAdmin (reservation_id : string) (a : actor) (reason : json)
  | EditCall (request : edit_request)
  | ClaimJobs (a : actor) (now : datetime) (q : claim_request)
  | MarkRunning (a : actor) (id token : string) (child_pid : Z)
  | MarkLaunchFailure (a : actor) (id token message : string)
  | MarkAborted (a : actor) (id token : string)
  | CompleteJob (a : actor) (item : running_job) (exit_code : Z) (log_warning : option string)
      (log_rotations : Z)
  | RetryJob (a : actor) (id : string) (accept_duplicate_risk : bool)
  | RecordGuard (a : actor) (decisions : string → option guard_note) (now : datetime)
  | RecordRecovery (a : actor) (now : datetime) (worker_id : string)
      (decisions : list (string * recovery_decision))
  | FinishRecovery (a : actor) (now : datetime) (worker_id : string)
      (wanted remaining signalled : list string)
  | Notice (a : actor) (k : notice_call).

(** The ledger a mutator hands to the store, [None] when nothing is written, and
    its audit records. *)
Definition written {A} (m : mutation A) : option ledger * list log_item :=
  let '(l, _, logs, changed) := m in (if changed then Some l else None, logs).

(** Announcements have audit records of their own. *)
Definition written_notice (m : announced) : option ledger * list log_item :=
  let '(l, _, _, changed) := m in (if changed then Some l else None, []).

(** [claim_due_jobs] returns before the transaction when nothing may be claimed. *)
Definition claim_due_jobs (a : actor) (now : datetime) (q : claim_request) (l : ledger)
    : M (mutation (list reservation)) :=
  if q_limit q <=? 0 then unchanged l [] else claim_mutate a now q l.

Definition _complete_job (a : actor) (item : running_job) (exit_code : Z)
    (log_warning : option string) (log_rotations : Z) (l : ledger) : M (mutation unit) :=
  complete_mutate a item (_completion_status exit_code (rj_reason item)) exit_code log_warning
    log_rotations l.

Definition run_call `{LocalTime} (c : config) (k : call) (l : ledger)
    : M (option ledger * list log_item) :=
  match k with
  | Add request =>
      ck ← lift (add_checks c request);
      m ← add_mutate c request ck l; mret (written m)
  | CancelOwn id a operation_id =>
      op_id ← lift (_normalize_operation_id operation_id);
      m ← cancel_mutate id a op_id l; mret (written m)
  | CancelAsAdmin id a reason =>
      reason ← lift (admin_checks a reason);
      m ← admin_cancel_mutate c id a reason l; mret (written m)
  | EditCall request =>
      op_id ← lift (_normalize_operation_id (e_op_id request));
      m ← edit_mutate c request op_id l; mret (written m)
  | ClaimJobs a now q => m ← claim_due_jobs a now q l; mret (written m)
  | MarkRunning a id token pid => m ← mark_running_mutate a id token pid l; mret (written m)
  | MarkLaunchFailure a id token message =>
      m ← mark_launch_failure_mutate a id token message l; mret (written m)
  | MarkAborted a id token => m ← mark_aborted_mutate a id token l; mret (written m)
  | CompleteJob a item exit_code warning rotations =>
      m ← _complete_job a item exit_code warning rotations l; mret (written m)
  | RetryJob a id accept => m ← retry_mutate a id accept l; mret (written m)
  | RecordGuard a decisions now => m ← record_guard_mutate a decisions now l; mret (written m)
  | RecordRecovery a now worker_id decisions =>
      m ← record_recovery_mutate a now worker_id decisions l; mret (written m)
  | FinishRecovery a now worker_id wanted remaining signalled =>
      m ← finish_recovery_mutate a now worker_id wanted remaining signalled l; mret (written m)
  | Notice a k => m ← run_notice a k l; mret (written_notice m)
  end.

(** One call on the ledger and the audit log. *)
Definition execute `{LocalTime} (c : config) (k : call) (s : ledger * list log_item) (w : world)
    : ledger * list log_item * world :=
  match run_call c k s.1 w with
  | (Ok (Some l', logs), w') => (l', s.2 ++ logs, w')
  | (Ok (None, logs), w') => (s.1, s.2 ++ logs, w')
  | (Raise _, w') => (s, w')
  end.

(** States reached from an empty ledger, time passing between the calls. *)
Inductive reachable `{LocalTime} (c : config) : ledger → list log_item → world → Prop :=
  | reach_empty w : (∀ i j, w_uuid w i = w_uuid w j → i = j) → reachable c empty_ledger [] w
  | reach_wait l logs w w' : reachable c l logs w → later w w' → reachable c l logs w'
  | reach_call k l logs w l' logs' w' : reachable c l logs w →
      execute c k (l, logs) w = (l', logs', w') → reachable c l' logs' w'.

(** ** Every call only draws from its sources *)

Ltac forward_step :=
  first
    [ apply forward_ret | apply forward_lift | apply forward_clock | apply forward_uuid
    | apply forward_conflict | apply forward_find_earliest | apply forward_log_item
    | apply forward_job_log | apply forward_recovery_log
    | apply forward_bind
    | match goal with
      | |- forward (match ?x with _ => _ end) => destruct x
      | |- ∀ _, _ => intros ?
      end ].

Ltac forward_tac := repeat forward_step.

Lemma forward_raise {A} e : forward (raise e : M A).
Proof. apply forward_lift. Qed.

Lemma forward_failure l c request s e p : forward (_availability_failure_message l c request s e p).
Proof.
  unfold _availability_failure_message, _nearest_available_hint, find_available_gpus_with_reason,
    _find_available_gpus_with_reason. forward_tac.
Qed.

Lemma forward_add c request ck l : forward (add_mutate c request ck l).
Proof.
  unfold add_mutate, place_new, utc_now.
  repeat first [apply forward_raise | apply forward_failure | forward_step].
Qed.

Lemma forward_cancel id a o l : forward (cancel_mutate id a o l).
Proof. unfold cancel_mutate, utc_now. repeat first [apply forward_raise | forward_step]. Qed.

Lemma forward_admin c id a reason l : forward (admin_cancel_mutate c id a reason l).
Proof. unfold admin_cancel_mutate, utc_now. repeat first [apply forward_raise | forward_step]. Qed.

Lemma forward_edit `{LocalTime} c request o l : forward (edit_mutate c request o l).
Proof.
  unfold edit_mutate, edit_found, edit_started, edit_future, place_edit, check_extension,
    extension_slot, _append_edit_history, utc_now.
  repeat first [apply forward_raise | apply forward_failure | forward_step].
Qed.

Ltac forward_job := repeat first [apply forward_raise | forward_step].

Lemma forward_run_call `{LocalTime} c k l : forward (run_call c k l).
Proof.
  destruct k; simpl;
    try ((apply forward_bind; [apply forward_lift|intros]));
    (apply forward_bind; [|intros; apply forward_ret]).
  - apply forward_add.
  - apply forward_cancel.
  - apply forward_admin.
  - apply forward_edit.
  - unfold claim_due_jobs, unchanged. destruct (_ <=? _); [apply forward_ret|apply forward_claim].
  - unfold mark_running_mutate, unchanged, utc_now. forward_job.
  - unfold mark_launch_failure_mutate, unchanged, utc_now. forward_job.
  - unfold mark_aborted_mutate, unchanged, utc_now. forward_job.
  - unfold _complete_job, complete_mutate, unchanged, utc_now. forward_job.
  - unfold retry_mutate, utc_now. forward_job.
  - apply forward_record_guard.
  - apply forward_record_recovery.
  - apply forward_finish_recovery.
  - apply forward_run_notice.
Qed.

(** ** The invariant *)

Record invariant (c : config) (l : ledger) (w : world) : Prop := Invariant {
  inv_ok : ledger_ok l;
  inv_fresh : fresh_ids w l;
  inv_grid : on_grid (slot_minutes c) l;
  inv_safe : ∀ T, read_by T w → safe_from T (max_shared_users c) l;
  inv_shares : every (share_valid (max_shared_users c)) l;
}.

Lemma invariant_later c l w w' : later w w' → invariant c l w → invariant c l w'.
Proof.
  intros Hl [Hok [Hinj Hf] Hg Hs Hv]. pose proof Hl as (_ & Hu & _ & Hd).
  constructor; [done| |done| |done].
  - split; rewrite Hu; [done|]. intros i Hi. apply Hf. lia.
  - intros T HT. by apply Hs, (read_by_earlier _ _ w').
Qed.

(** Ids only come from the creates: what removes none and adds none stays fresh. *)
Lemma fresh_ids_sub w w' l l' :
  later w w' → fresh_ids w l → (∀ id, id ∈ ids l' → id ∈ ids l) → fresh_ids w' l'.
Proof.
  intros (_ & Hu & _ & Hd) [Hinj Hf] Hsub. split; rewrite Hu; [done|].
  intros i Hi Hin. apply (Hf i); [lia|]. by apply Hsub.
Qed.

Lemma read_by_start T w w' : later w w' → read_by T w' → read_by T w.
Proof. apply read_by_earlier. Qed.

Section Steps.
Context `{LocalTime} (c : config) (Hslot : valid_slot (slot_minutes c)).

Lemma add_invariant request ck l w l' res logs changed w' :
  add_checks c request = Ok ck → invariant c l w →
  add_mutate c request ck l w = (Ok (l', res, logs, changed), w') → invariant c l' w'.
Proof.
  intros Hck [Hok Hf Hg Hs Hv] Hrun.
  pose proof (forward_Ok _ _ _ _ (forward_add _ _ _ _) Hrun) as Hl.
  destruct (add_mutate_keeps c request ck l w l' res logs changed w' Hslot Hok Hf Hck Hrun)
    as (Hok' & Hf' & Hg' & Hs').
  constructor; [done|done|by apply Hg'| |by eapply (add_records c (share_valid _))].
  intros T HT. apply Hs'; [done|]. by apply Hs, (read_by_earlier _ _ w').
Qed.

Lemma cancel_invariant id a o l w l' r' logs changed w' :
  invariant c l w → cancel_mutate id a o l w = (Ok (l', r', logs, changed), w') →
  invariant c l' w'.
Proof.
  intros [Hok Hf Hg Hs Hv] Hrun.
  pose proof (forward_Ok _ _ _ _ (forward_cancel _ _ _ _) Hrun) as Hl.
  destruct (cancel_mutate_keeps id a o l w l' r' logs changed w' Hok Hrun)
    as (Hok' & Hids & Hg' & Hs').
  constructor; [done| |by apply Hg'| |
    exact (cancel_records c (share_valid _) id a o l w l' r' logs changed w' Hok Hv Hrun)].
  - eapply fresh_ids_sub; [done..|]. by rewrite Hids.
  - intros T HT. by apply Hs', Hs, (read_by_earlier _ _ w').
Qed.

Lemma admin_invariant id a v reason l w l' r' logs changed w' :
  admin_checks a v = Ok reason → invariant c l w →
  admin_cancel_mutate c id a reason l w = (Ok (l', r', logs, changed), w') →
  invariant c l' w'.
Proof.
  intros Hchecks [Hok Hf Hg Hs Hv] Hrun.
  pose proof (forward_Ok _ _ _ _ (forward_admin _ _ _ _ _) Hrun) as Hl.
  destruct (admin_mutate_keeps c id a reason l w l' r' logs changed w' Hok Hrun)
    as (Hok' & Hids & Hg' & Hs').
  constructor; [done| |by apply Hg'| |
    exact (admin_records c (share_valid _) id a reason l w l' r' logs changed w' Hok Hv Hrun)].
  - by eapply fresh_ids_sub.
  - intros T HT. by apply Hs', Hs, (read_by_earlier _ _ w').
Qed.

Lemma edit_invariant request o l w l' res logs changed w' :
  invariant c l w → edit_mutate c request o l w = (Ok (l', res, logs, changed), w') →
  invariant c l' w'.
Proof.
  intros [Hok Hf Hg Hs Hv] Hrun.
  pose proof (forward_Ok _ _ _ _ (forward_edit _ _ _ _) Hrun) as Hl.
  destruct (edit_mutate_keeps c request o l w l' res logs changed w' Hslot Hok Hg Hrun)
    as (Hok' & Hg' & (now & lm & Hp & Hids) & Hs').
  constructor; [done| |done| |
    exact (edit_records c (share_valid _) request o l w l' res logs changed w' Hok Hv Hrun)].
  - eapply fresh_ids_sub; [done..|]. intros id. rewrite Hids. by eapply prepared_ids.
  - intros T HT. apply Hs'; [done|]. by apply Hs, (read_by_earlier _ _ w').
Qed.

(** A worker's transaction keeps the invariant. *)
Lemma job_step_invariant now l l' logs w w' :
  later w w' → job_step now l l' logs → invariant c l w → invariant c l' w'.
Proof.
  intros Hl [Hw _ _] [Hok Hf Hg Hs Hv]. constructor.
  - by eapply worked_ok.
  - eapply fresh_ids_sub; [done..|]. intros id. by rewrite (worked_ids _ _ _ Hw).
  - by eapply worked_grid.
  - intros T HT. eapply worked_safe; [done|]. by apply Hs, (read_by_earlier _ _ w').
  - intros r' Hr'. destruct (worked_elem _ _ _ _ Hw Hr') as (r & Hr & s & u & j & -> & _).
    exact (Hv r Hr).
Qed.

Lemma set_announcements_invariant ans l w w' :
  later w w' → invariant c l w → invariant c (set_announcements ans l) w'.
Proof.
  intros Hl Hinv. apply (invariant_later _ _ _ _ Hl) in Hinv as [[? ?] Hf Hg Hs Hv]. by constructor.
Qed.

(** The worker's calls. *)
Definition is_job_call (k : call) : bool :=
  match k with
  | Add _ | CancelOwn _ _ _ | CancelAsAdmin _ _ _ | EditCall _ | Notice _ _ => false
  | _ => true
  end.

Lemma job_call_step k l w o logs w' :
  is_job_call k = true → ledger_ok l → run_call c k l w = (Ok (o, logs), w') →
  ∃ now l1, job_step now l l1 logs ∧ (o = Some l1 ∨ (o = None ∧ logs = [])).
Proof.
  intros Hk Hok Hcall.
  assert (Hw : ∀ {A} (f : M (mutation A)), yields quiet f →
    (∀ l1 x ls ch w1, f w = (Ok (l1, x, ls, ch), w1) → ∃ now, job_step now l l1 ls) →
    (m ← f; mret (written m)) w = (Ok (o, logs), w') →
    ∃ now l1, job_step now l l1 logs ∧ (o = Some l1 ∨ (o = None ∧ logs = []))).
  { intros A f Hq Hf Hrun. apply M_bind_Ok in Hrun as ([[[l1 x] ls] ch] & w1 & Hm & Hrun).
    apply M_ret_Ok in Hrun as [E _]. destruct (Hf _ _ _ _ _ Hm) as [now Hs].
    exists now, l1. unfold written in E. destruct ch; simplify_eq; [split; [done|by left]|].
    pose proof (Hq _ _ _ Hm eq_refl) as Hnil. simpl in Hnil. subst. split; [done|by right]. }
  destruct k; try done; simpl in Hcall; apply Hw in Hcall; try done; clear Hcall Hw.
  - unfold claim_due_jobs, unchanged. destruct (_ <=? _); [repeat quiet_step|apply claim_quiet].
  - intros l1 x ls ch w1. unfold claim_due_jobs, unchanged. destruct (_ <=? _).
    + intros [E _]%M_ret_Ok. simplify_eq. exists now. apply job_step_refl.
    + intros. exists now. by eapply claim_mutate_step.
  - unfold mark_running_mutate, unchanged. repeat quiet_step.
  - intros. exists 0. by eapply mark_running_step.
  - unfold mark_launch_failure_mutate, unchanged. repeat quiet_step.
  - intros. exists 0. by eapply mark_launch_failure_step.
  - unfold mark_aborted_mutate, unchanged. repeat quiet_step.
  - intros. exists 0. by eapply mark_aborted_step.
  - unfold _complete_job, complete_mutate, unchanged. repeat quiet_step.
  - intros. exists 0. by eapply complete_step; [apply completion_finished|].
  - unfold retry_mutate. repeat quiet_step.
  - intros. exists 0. by eapply retry_step.
  - intros w1 m w2. apply each_quiet.
  - intros. exists now. by eapply record_guard_step.
  - intros w1 m w2. apply each_quiet.
  - intros. exists now. by eapply record_recovery_step.
  - intros w1 m w2. apply (each_quiet _ _ (λ rs _, (set_reservations rs l, tt))).
  - intros. exists now. by eapply finish_recovery_step.
Qed.

Lemma run_notice_frame a k l w l' an logs ch w' :
  run_notice a k l w = (Ok (l', an, logs, ch), w') → ∃ ans, l' = set_announcements ans l.
Proof.
  destruct k; simpl; intros Hrun.
  - apply publish_run in Hrun as (-> & _). by eexists.
  - apply archive_run in Hrun as (_ & t & _ & _ & _ & _ & [[-> _]|[-> _]]); [|by eexists].
    exists (l_announcements l). by destruct l.
  - apply edit_run in Hrun as (_ & t & _ & _ & _ & _ & -> & _). by eexists.
Qed.

(** What one call makes of the ledger and of the audit log. *)
Lemma run_call_kept k l w o logs w' :
  invariant c l w → run_call c k l w = (Ok (o, logs), w') →
  (∀ l', o = Some l' → invariant c l' w') ∧
  ∀ id, log_count "job-claim" id logs ≤ log_count "job-retry" id logs +
    open_count id (l_reservations l) - open_count id (l_reservations (default l o)) ∨
    (log_count "job-claim" id logs = 0 ∧ (∃ i, (w_draws w ≤ i)%nat ∧ id = w_uuid w i) ∧
     open_count id (l_reservations (default l o)) ≤ 1 + open_count id (l_reservations l)).
Proof.
  intros Hinv Hrun. pose proof (inv_ok _ _ _ Hinv) as Hok.
  pose proof (forward_Ok _ _ _ _ (forward_run_call c k l) Hrun) as Hl.
  destruct (is_job_call k) eqn:Hk.
  { destruct (job_call_step k l w o logs w' Hk Hok Hrun) as (now & l1 & Hs & Ho). split.
    - intros l' ->. destruct Ho as [[= ->]|[? _]]; [|done]. by eapply job_step_invariant.
    - intros id. left. destruct Ho as [->|[-> ->]]; simpl.
      + pose proof (js_claims _ _ _ _ Hs id). lia.
      + unfold log_count. simpl. lia. }
  assert (Hclose : ∀ id (l1 : ledger) (ls : list log_item) (ch : bool),
    "job-claim" ∉ (lg_action <$> ls) →
    open_count id (l_reservations l1) ≤ open_count id (l_reservations l) →
    log_count "job-claim" id ls ≤ log_count "job-retry" id ls + open_count id (l_reservations l)
      - open_count id (l_reservations (default l (if ch then Some l1 else None)))).
  { intros id l1 ls ch Hn Hle. rewrite (log_count_none "job-claim") by done.
    pose proof (log_count_nonneg "job-retry" id ls). destruct ch; simpl; lia. }
  destruct k; try done; simpl in Hrun;
    try (apply M_bind_Ok in Hrun as (x & w1 & Hx & Hrun); apply lift_Ok in Hx as [Hx <-]);
    apply M_bind_Ok in Hrun as ([[[l1 r] ls] ch] & w2 & Hm & Hrun);
    apply M_ret_Ok in Hrun as [Hwr <-]; simpl in Hwr; simplify_eq.
  - split; [intros l' E; destruct ch; simplify_eq; by eapply add_invariant|].
    intros id. pose proof (add_no_claims _ _ _ _ _ _ _ Hm) as Hn.
    destruct (add_opens _ _ _ _ _ _ _ _ _ _ id Hm) as [Hle|[Hi Hle]]; [left; by apply Hclose|right].
    split; [by apply log_count_none|]. split; [done|]. destruct ch; simpl; lia.
  - split; [intros l' E; destruct ch; simplify_eq; by eapply cancel_invariant|].
    intros id. left. apply Hclose; [apply (cancel_no_claims _ _ _ _ _ _ _ Hm)|by eapply cancel_opens].
  - split; [intros l' E; destruct ch; simplify_eq; by eapply admin_invariant|].
    intros id. left. apply Hclose; [apply (admin_no_claims _ _ _ _ _ _ _ _ Hm)|by eapply admin_opens].
  - split; [intros l' E; destruct ch; simplify_eq; by eapply edit_invariant|].
    intros id. left. apply Hclose; [apply (edit_no_claims _ _ _ _ _ _ _ Hm)|by eapply edit_opens].
  - destruct (run_notice_frame _ _ _ _ _ _ _ _ _ Hm) as [ans ->]. split.
    + intros l' E. destruct ch; simplify_eq. by eapply set_announcements_invariant.
    + intros id. left. apply Hclose; [by intros ?%not_elem_of_nil|done].
Qed.

(** How often the jobs were claimed: once, and once more for each retry. *)
Record claims_kept (l : ledger) (logs : list log_item) (w : world) : Prop := ClaimsKept {
  ck_bound id : open_count id (l_reservations l) + log_count "job-claim" id logs
                ≤ 1 + log_count "job-retry" id logs;
  ck_unused i : (w_draws w ≤ i)%nat → log_count "job-claim" (w_uuid w i) logs = 0;
}.

Lemma open_count_unused id (l : ledger) : id ∉ ids l → open_count id (l_reservations l) = 0.
Proof.
  unfold ids, open_count. induction (l_reservations l) as [|r rs IH]; csimpl; [done|].
  intros [Hr Hrs]%not_elem_of_cons. rewrite IH by done. unfold is_open.
  rewrite decide_False by naive_solver. done.
Qed.

(** Records of a call name reservations of the ledger. *)
Lemma unused_claims k l w o logs w' i :
  invariant c l w → run_call c k l w = (Ok (o, logs), w') → (w_draws w' ≤ i)%nat →
  log_count "job-claim" (w_uuid w' i) logs = 0.
Proof.
  intros Hinv Hrun Hi. pose proof (forward_Ok _ _ _ _ (forward_run_call c k l) Hrun) as (_ & Hu & _ & Hd).
  destruct (is_job_call k) eqn:Hk.
  - destruct (job_call_step k l w o logs w' Hk (inv_ok _ _ _ Hinv) Hrun) as (now & l1 & Hs & _).
    apply log_count_other. intros lg Hlg E. destruct (inv_fresh _ _ _ Hinv) as [_ Hf].
    apply (Hf i); [lia|]. rewrite <- Hu, <- E. by eapply js_logged.
  - destruct (run_call_kept k l w o logs w' Hinv Hrun) as [_ _]. apply log_count_none.
    destruct k; try done; simpl in Hrun;
      try (apply M_bind_Ok in Hrun as (x & w1 & Hx & Hrun); apply lift_Ok in Hx as [Hx <-]);
      apply M_bind_Ok in Hrun as ([[[l1 r] ls] ch] & w2 & Hm & Hrun);
      apply M_ret_Ok in Hrun as [Hwr <-]; simpl in Hwr; simplify_eq.
    + apply (add_no_claims _ _ _ _ _ _ _ Hm).
    + apply (cancel_no_claims _ _ _ _ _ _ _ Hm).
    + apply (admin_no_claims _ _ _ _ _ _ _ _ Hm).
    + apply (edit_no_claims _ _ _ _ _ _ _ Hm).
    + by intros ?%not_elem_of_nil.
Qed.

Lemma execute_kept k l logs w l' logs' w' :
  execute c k (l, logs) w = (l', logs', w') → invariant c l w → claims_kept l logs w →
  invariant c l' w' ∧ claims_kept l' logs' w'.
Proof.
  unfold execute. simpl. intros Hex Hinv [Hb Hn].
  pose proof (forward_run_call c k l w) as Hl.
  destruct (run_call c k l w) as [[[o ls]|e] w1] eqn:Hrun; simpl in Hl.
  2:{ simplify_eq. split; [by eapply invariant_later|]. destruct Hl as (_ & Hu & _ & Hd).
      constructor; [done|]. intros i Hi. rewrite Hu. apply Hn. lia. }
  destruct (run_call_kept k l w o ls w1 Hinv Hrun) as [Hi Hc].
  assert (l' = default l o ∧ logs' = logs ++ ls ∧ w' = w1) as (-> & -> & ->)
    by (destruct o; simplify_eq; done).
  split; [destruct o; simpl; [by apply Hi|by eapply invariant_later]|].
  pose proof Hl as (_ & Hu & _ & Hd). constructor.
  - intros id. rewrite !log_count_app. specialize (Hb id). destruct (Hc id) as [?|(Hz & (i & Hi' & ->) & Hle)]; [lia|].
    rewrite Hz. destruct (inv_fresh _ _ _ Hinv) as [_ Hf].
    rewrite (open_count_unused (w_uuid w i) l) in Hle by by apply Hf.
    rewrite (Hn i) by done. pose proof (log_count_nonneg "job-retry" (w_uuid w i) logs).
    pose proof (log_count_nonneg "job-retry" (w_uuid w i) ls). lia.
  - intros i Hi'. rewrite log_count_app, (unused_claims k l w o ls w1 i) by done. rewrite Hu, Hn by lia. done.
Qed.
End Steps.

Lemma empty_invariant c w :
  0 ≤ max_shared_users c → (∀ i j, w_uuid w i = w_uuid w j → i = j) →
  invariant c empty_ledger w.
Proof.
  intros Hcap Hinj. constructor.
  - apply empty_ledger_ok.
  - split; [done|]. by intros i _ ?%not_elem_of_nil.
  - by intros r ?%not_elem_of_nil.
  - intros T _ g t _. split; [by intros sp ?%not_elem_of_nil|done].
  - by intros r ?%not_elem_of_nil.
Qed.

Lemma reachable_kept `{LocalTime} c l logs w :
  valid_slot (slot_minutes c) → 0 ≤ max_shared_users c → reachable c l logs w →
  invariant c l w ∧ claims_kept l logs w.
Proof.
  intros Hslot Hcap. induction 1 as [w Hinj|l logs w w' _ [Hi [Hb Hn]] Hl|k l logs w l' logs' w' _ [Hi Hk] He].
  - split; [by apply empty_invariant|]. constructor; [by intros id; unfold log_count; simpl|done].
  - split; [by eapply invariant_later|]. constructor; [done|]. intros i Hi'.
    destruct Hl as (_ & -> & _ & Hd). apply Hn. lia.
  - by eapply execute_kept.
Qed.

Lemma reachable_inv `{LocalTime} c l logs w :
  valid_slot (slot_minutes c) → 0 ≤ max_shared_users c → reachable c l logs w → invariant c l w.
Proof. intros. by eapply reachable_kept. Qed.

(** ** Properties *)

(** C2: whatever sequence of creates, edits, cancellations, claims, starts,
    completions, retries and recoveries of jobs and announcements runs, by any users
    and workers, interleaved with the passing of time, the ledger stays
    well formed, its active reservations stay on the slot grid, and from the
    last clock reading on no GPU is ever over capacity. *)
Theorem reachable_invariant `{LocalTime} c l logs w :
  valid_slot (slot_minutes c) → 0 ≤ max_shared_users c → reachable c l logs w →
  ledger_ok l ∧ on_grid (slot_minutes c) l ∧
  ∀ T, read_by T w → safe_from T (max_shared_users c) l.
Proof. intros Hslot Hcap Hr. by destruct (reachable_inv c l logs w Hslot Hcap Hr). Qed.

(** The reservations that hold a GPU at an instant. *)
Definition holds_at (g : Z) (t : datetime) (r : reservation) : Prop :=
  r_status r = STATUS_ACTIVE ∧ g ∈ r_gpus r ∧ r_start_at r ≤ t ∧ t < r_end_at r.

Lemma holds_at_holders l g t r :
  r ∈ l_reservations l → holds_at g t r → span_of r ∈ holders (active_spans l) g t.
Proof.
  intros Hin (Ha & Hg & Hc). apply list_elem_of_filter. split; [done|].
  apply list_elem_of_fmap. exists r. split; [done|]. by apply list_elem_of_filter.
Qed.

(** Where an exclusive holder is alone, two holders are one record. *)
Lemma exclusive_alone_at cap l g t r1 r2 :
  slot_safe cap (active_spans l) g t →
  r1 ∈ l_reservations l → r2 ∈ l_reservations l → holds_at g t r1 → holds_at g t r2 →
  r_mode r1 = MODE_EXCLUSIVE → r1 = r2.
Proof.
  intros [Hx _] H1 H2 Hh1 Hh2 Hm.
  pose proof (holds_at_holders l g t r1 H1 Hh1) as Hi1.
  pose proof (holds_at_holders l g t r2 H2 Hh2) as Hi2.
  specialize (Hx (span_of r1) Hi1 Hm).
  destruct (holders (active_spans l) g t) as [|x [|y rest]]; try done.
  apply list_elem_of_singleton in Hi1, Hi2.
  assert (E : span_of r1 = span_of r2) by congruence. exact (f_equal sp_record E).
Qed.

(** C1: the promise to the users, in terms of records: in every reachable state,
    at any instant not before the last clock reading, a GPU held by an exclusive
    reservation is held by no other one, and the share slots of the shared
    reservations that hold a GPU together never exceed its slots. *)
Theorem no_double_booking `{LocalTime} c l logs w T g t :
  valid_slot (slot_minutes c) → 0 ≤ max_shared_users c → reachable c l logs w →
  read_by T w → T ≤ t →
  let holds r := r_status r = STATUS_ACTIVE ∧ g ∈ r_gpus r ∧ r_start_at r ≤ t ∧ t < r_end_at r in
  (∀ r1 r2, r1 ∈ l_reservations l → r2 ∈ l_reservations l → holds r1 → holds r2 →
     r_mode r1 = MODE_EXCLUSIVE → r1 = r2) ∧
  sumZ (λ r, reservation_share_units (r_share_units r) (max_shared_users c))
    (filter (λ r, (r_status r = STATUS_ACTIVE ∧ g ∈ r_gpus r ∧ r_start_at r ≤ t ∧ t < r_end_at r) ∧
                  r_mode r = MODE_SHARED) (l_reservations l)) ≤ max_shared_users c.
Proof.
  cbv zeta. intros Hslot Hcap Hr HT Ht.
  pose proof (inv_safe _ _ _ (reachable_inv c l logs w Hslot Hcap Hr) T HT g t Ht) as Hsafe.
  split.
  - intros r1 r2 H1 H2 Hh1 Hh2 Hm. by eapply exclusive_alone_at.
  - etrans; [|exact (proj2 Hsafe)]. unfold units_at, shared_holders, holders, active_spans, spans_of.
    rewrite !filter_fmap_list, !filter_filter_and.
    rewrite (filter_ext_in _ (λ r, (r_mode (r : reservation) = MODE_SHARED ∧
      g ∈ r_gpus r ∧ covers (span_of r) t) ∧ is_active r)).
    { set (rs := filter _ _). clearbody rs. induction rs as [|r rs IH]; simpl; [lia|].
      apply Z.add_le_mono; [|exact IH]. done. }
    intros r _. unfold covers, is_active. simpl. tauto.
Qed.

(** C3: the audit never finds anything in a ledger the calls produced: at any
    time not before the last clock reading, [find_policy_violations] returns the
    empty list, whatever was booked, edited, cancelled, run as a job or left to expire. *)
Theorem reachable_audit_clean `{LocalTime} c l logs w T :
  valid_slot (slot_minutes c) → 0 ≤ max_shared_users c → reachable c l logs w → read_by T w →
  find_policy_violations l (max_shared_users c) (Some T) w = (Ok [], w).
Proof.
  intros Hslot Hcap Hr HT. destruct (reachable_inv c l logs w Hslot Hcap Hr) as [Hok _ _ Hs Hv].
  unfold find_policy_violations. simpl. unfold mbind, M_bind, mret, M_ret.
  rewrite (proj2 (audit_iff_safe l T (max_shared_users c) Hok Hcap)); [done|].
  split; [|by apply Hs]. intros r raw Hin _ Hm Hraw.
  by eapply share_valid_normal; [apply Hv|..].
Qed.


(** C4: no job is started twice on its own. However the calls of the scheduler and
    of any number of workers, recoveries and users interleave, the audit log holds
    at most one claim of a reservation's job, and one more for each retry that was
    asked for; a job that waits for a worker has not been claimed since it was
    created or last retried. *)
Theorem claims_bounded `{LocalTime} c l logs w id :
  valid_slot (slot_minutes c) → 0 ≤ max_shared_users c → reachable c l logs w →
  log_count "job-claim" id logs ≤ 1 + log_count "job-retry" id logs ∧
  (∀ r, r ∈ l_reservations l → r_id r = id → (r_job r ≫= job_status) = Some JOB_PENDING →
     log_count "job-claim" id logs ≤ log_count "job-retry" id logs).
Proof.
  intros Hslot Hcap Hr. destruct (reachable_kept c l logs w Hslot Hcap Hr) as [_ [Hb _]].
  specialize (Hb id). split; [pose proof (open_count_nonneg id (l_reservations l)); lia|].
  intros r Hin Hid Hp. enough (1 ≤ open_count id (l_reservations l)) by lia.
  clear Hb Hr. unfold open_count. induction (l_reservations l) as [|x rs IH]; [by apply not_elem_of_nil in Hin|].
  simpl. pose proof (is_open_nonneg id x). pose proof (open_count_nonneg id rs). unfold open_count in *.
  apply elem_of_cons in Hin as [->|Hin]; [|specialize (IH Hin); lia].
  unfold is_open at 1. rewrite decide_True by done. lia.
Qed.

(** ** Examples *)

#[local] Instance utc_text : LocalTime := to_iso.

Definition run_calls (ks : list call) (s : ledger * list log_item * world)
    : ledger * list log_item * world :=
  foldl (λ s k, execute example_config k s.1 s.2) s ks.

Definition from_empty (ks : list call) : ledger * list log_item * world :=
  run_calls ks (empty_ledger, [], example_world).

Lemma from_empty_reachable ks :
  reachable example_config (from_empty ks).1.1 (from_empty ks).1.2 (from_empty ks).2.
Proof.
  assert (H : ∀ s, reachable example_config s.1.1 s.1.2 s.2 →
    reachable example_config (run_calls ks s).1.1 (run_calls ks s).1.2 (run_calls ks s).2).
  { induction ks as [|k ks IH]; intros [[l logs] w] Hr; [done|]. simpl in *. apply IH.
    destruct (execute example_config k (l, logs) w) as [[l' logs'] w'] eqn:E. simpl.
    by eapply reach_call. }
  apply H, reach_empty, pretty_id_inj.
Qed.

(** One create and a queued one. *)
Definition example_calls : ledger * list log_item * world :=
  from_empty [Add example_request; Add queued_request].

Lemma example_calls_read : read_by noon example_calls.2.
Proof. intros i _. vm_compute. discriminate. Qed.

Lemma reachable_invariant_witness :
  length (l_reservations example_calls.1.1) = 2%nat ∧
  ledger_ok example_calls.1.1 ∧ on_grid 15 example_calls.1.1 ∧ safe_from noon 2 example_calls.1.1.
Proof.
  split; [vm_compute; reflexivity|].
  destruct (reachable_invariant example_config _ _ _ ltac:(decide_now) ltac:(vm_compute; discriminate)
    (from_empty_reachable [Add example_request; Add queued_request])) as (H1 & H2 & H3).
  split; [exact H1|]. split; [exact H2|]. apply H3, example_calls_read.
Defined.

Lemma no_double_booking_witness :
  sumZ (λ r, reservation_share_units (r_share_units r) 2)
    (filter (λ r, (r_status r = STATUS_ACTIVE ∧ 0 ∈ r_gpus r ∧ r_start_at r ≤ noon ∧ noon < r_end_at r) ∧
                  r_mode r = MODE_SHARED) (l_reservations example_calls.1.1)) ≤ 2.
Proof.
  exact (proj2 (no_double_booking example_config _ _ example_calls.2 noon 0 noon
    ltac:(decide_now) ltac:(vm_compute; discriminate)
    (from_empty_reachable [Add example_request; Add queued_request]) example_calls_read
    ltac:(vm_compute; discriminate))).
Defined.

Lemma reachable_audit_clean_witness :
  find_policy_violations example_calls.1.1 2 (Some noon) example_calls.2 = (Ok [], example_calls.2).
Proof.
  exact (reachable_audit_clean example_config _ _ example_calls.2 noon ltac:(decide_now)
    ltac:(vm_compute; discriminate)
    (from_empty_reachable [Add example_request; Add queued_request]) example_calls_read).
Defined.

(** A job that is claimed, fails to start, is retried and claimed again. *)
Definition job_request : booking_request :=
  BookingRequest (Actor 1000 "ada") 1 1800 noon MODE_EXCLUSIVE None None None None false
    (Some "12345678-1234-4234-8234-123456789abc")
    (Some (text (repeat "a"%char 64))) (Some "python train.py") None None None None None.

Definition example_claim : claim_request :=
  ClaimRequest "worker" "lease" "host" 4242 (seconds 300) 4 None.

Definition job_calls : list call :=
  let ada := Actor 1000 "ada" in
  [Add job_request; ClaimJobs ada noon example_claim; ClaimJobs ada noon example_claim;
   MarkLaunchFailure ada "id0" "id2" "no such file"; RetryJob ada "id0" false;
   ClaimJobs ada noon example_claim; MarkRunning ada "id0" "id3" 77;
   CompleteJob ada (RunningJob "id0" "id3" None) 0 None 0].

Lemma claims_bounded_witness :
  log_count "job-claim" "id0" (from_empty job_calls).1.2 = 2 ∧
  log_count "job-retry" "id0" (from_empty job_calls).1.2 = 1 ∧
  log_count "job-claim" "id0" (from_empty job_calls).1.2
    ≤ 1 + log_count "job-retry" "id0" (from_empty job_calls).1.2.
Proof.
  split; [vm_compute; reflexivity|]. split; [vm_compute; reflexivity|].
  exact (proj1 (claims_bounded example_config _ _ _ "id0" ltac:(decide_now)
    ltac:(vm_compute; discriminate) (from_empty_reachable job_calls))).
Defined.

(** Two jobs wait; only one may be claimed. *)
Definition waiting_ledger : ledger :=
  let due id start :=
    Reservation id None 1000 (Some "ada") [0] MODE_SHARED start (noon + hours 1) STATUS_ACTIVE
      None None None None None (Some (job_set [("status", JStr JOB_PENDING)] ∅)) (Some []) None
      (Some []) in
  Ledger [due "late" noon; due "early" (noon - minutes 15)] None [] None.

Lemma claim_due_jobs_witness :
  ∃ l' x logs ch w', claim_mutate (Actor 1000 "ada") noon
      (ClaimRequest "worker" "lease" "host" 4242 (seconds 300) 1 None) waiting_ledger example_world
    = (Ok (l', [x], logs, ch), w') ∧ r_id x = "early" ∧ token_of x = Some "id0" ∧
    Z.of_nat (length [x]) ≤ 1.
Proof.
  eexists _, _, _, _, _. split; [vm_compute; reflexivity|]. split; [reflexivity|].
  split; [vm_compute; reflexivity|].
  match goal with |- Z.of_nat (length [?x]) ≤ _ =>
    destruct (claim_due_jobs_spec (Actor 1000 "ada") noon
      (ClaimRequest "worker" "lease" "host" 4242 (seconds 300) 1 None) waiting_ledger example_world
      _ [x] _ _ _ ltac:(vm_compute; discriminate) ltac:(vm_compute; reflexivity))
      as (_ & _ & H & _); exact H
  end.
Defined.
