(* ===== verification/Gpu.v ===== *)
(** * Gpu: telemetry of the GPUs ([src/src/bk/gpu.py])

    The snapshots of the devices and of the processes on them, read from the
    simulation file, from NVML or from [nvidia-smi]. What NVML and [nvidia-smi]
    report is an argument; everything the program does with it is modelled. *)

From S2P Require Import Prelude PyBase Json Granularity Timeparse Models Config.
From Stdlib Require Import SpecFloat.

(** ** Data *)

Record gpu_process := GpuProcessSnapshot {
  p_pid : Z;
  p_uid : option Z;
  p_username : string;
  p_command : string;
  p_gpu_memory_mb : Z;
  p_sm_utilization_percent : option Z;
  p_kind : string;
  p_host_start_id : string;
  p_host_uid : option Z;
  p_identity_source : string;
  p_container_runtime : string;
  p_container_id : string;
}.

Record gpu_snapshot := GpuSnapshot {
  g_index : Z;
  g_name : string;
  g_memory_used_mb : Z;
  g_memory_total_mb : Z;
  g_utilization_percent : option Z;
  g_temperature_c : option Z;
  g_processes : list gpu_process;
  g_source : string;
  g_process_telemetry_available : option bool;
  g_process_utilization_available : option bool;
  g_device_uuid : string;
}.

Definition MAX_SIMULATION_FILE_BYTES : Z := 4 * 1024 * 1024.
Definition MAX_SIMULATION_PROCESSES_PER_GPU : Z := 100000.
Definition MAX_CUDA_DEVICE_IDENTIFIER_BYTES : Z := 256.

Definition _CONTAINER_RUNTIMES : list string := ["docker"; "containerd"; "podman"].
Definition _IDENTITY_SOURCES : list string := ["host"; "container-reservation"; "container-ambiguous"].

(** [GpuSnapshot(index=index, name="unknown")] *)
Definition unknown_snapshot (index : Z) : gpu_snapshot :=
  GpuSnapshot index "unknown" 0 0 None None [] "none" None None "".

Definition _unknown_snapshots (c : config) : list gpu_snapshot :=
  unknown_snapshot <$> seqZ 0 (gpu_count c).

Definition has_process_telemetry (d : gpu_snapshot) : bool :=
  match g_process_telemetry_available d with
  | Some b => b
  | None => bool_decide (g_source d ∈ ["nvml"; "simulation"])
  end.

Definition has_process_utilization (d : gpu_snapshot) : bool :=
  match g_process_utilization_available d with
  | Some b => b
  | None => bool_decide (g_source d ∈ ["nvml"; "simulation"])
  end.

(** ** Device identifiers *)

Definition is_alnum (c : ascii) : bool :=
  let n := code c in
  is_digit c || ((65 <=? n) && (n <=? 90))%N || ((97 <=? n) && (n <=? 122))%N.

Definition is_ascii (c : ascii) : bool := (code c <? 128)%N.

Definition identifier_char (c : ascii) : bool :=
  is_ascii c && (is_alnum c || bool_decide (c ∈ ["-"%char; "_"%char; "/"%char; "."%char; ":"%char])).

Definition _cuda_device_identifier (value : json) : res string :=
  match value with
  | JStr s =>
      if negb (String.prefix "GPU-" s || String.prefix "MIG-" s)
      then Raise (ValueError "GPU UUID must start with GPU- or MIG-")
      else if negb (forallb is_ascii (chars s))
      then Raise (ValueError "GPU UUID must be ASCII")
      else if MAX_CUDA_DEVICE_IDENTIFIER_BYTES <? slen s
      then Raise (ValueError "GPU UUID is too long")
      else if negb (forallb identifier_char (chars s))
      then Raise (ValueError "GPU UUID contains an unsafe character")
      else Ok s
  | _ => Raise (ValueError "GPU UUID must be text")
  end.

Definition unsupported_texts : list string := [""; "n/a"; "[n/a]"; "not supported"; "[not supported]"].

Definition _optional_cuda_device_identifier (value : json) : res string :=
  match value with
  | JNull => Ok ""
  | JStr s =>
      if bool_decide (lower (strip s) ∈ unsupported_texts) then Ok ""
      else _cuda_device_identifier value
  | _ => _cuda_device_identifier value
  end.

Definition has_stable_device_identifier (d : gpu_snapshot) : bool :=
  match _cuda_device_identifier (JStr (g_device_uuid d)) with
  | Ok s => bool_decide (s = g_device_uuid d)
  | Raise _ => false
  end.

(** [{item.index: item for item in devices}.get(index)]: the last one wins. *)
Definition device_at (devices : list gpu_snapshot) (index : Z) : option gpu_snapshot :=
  last (filter (λ d, g_index d = index) devices).

(** The identifiers of all selected devices, or their indices when one has none. *)
Definition cuda_visible_device_tokens (selected_gpus : list Z) (devices : list gpu_snapshot)
    : list string :=
  match mapM (λ index, d ← device_at devices index;
              if has_stable_device_identifier d then Some (g_device_uuid d) else None)
          selected_gpus with
  | Some stable => stable
  | None => str_of_Z <$> selected_gpus
  end.

(** ** Bounded integers *)

(** [int(x)] and [x.is_integer()] of a float: [None] for an infinity or a NaN. *)
Definition float_trunc (f : pyfloat) : option Z :=
  match f with
  | S754_zero _ => Some 0
  | S754_finite s m e =>
      let z := if 0 <=? e then Zpos m * 2 ^ e else Zpos m / 2 ^ (- e) in
      Some (if s then - z else z)
  | _ => None
  end.

Definition is_integer (f : pyfloat) : bool :=
  match f with
  | S754_zero _ => true
  | S754_finite _ m e => (0 <=? e) || (Zpos m mod 2 ^ (- e) =? 0)
  | _ => false
  end.

(** [int(s)] refuses a text of too many digits. *)
Definition int_text (s : string) : option Z :=
  if MAX_STR_DIGITS <? Z.of_nat (length (filter (λ c, is_digit c = true) (chars s))) then None
  else py_int s.

Definition _bounded_int (value : json) (label : string) (minimum : Z) (maximum : option Z) : res Z :=
  let bad := Raise (ValueError (label +:+ " must be an integer")) in
  parsed ← match value with
           | JInt z => Ok z
           | JStr s => match int_text s with Some z => Ok z | None => bad end
           | JFloat f =>
               if is_integer f then match float_trunc f with Some z => Ok z | None => bad end
               else bad
           | _ => bad
           end;
  if parsed <? minimum
  then Raise (ValueError (label +:+ " must be >= " +:+ str_of_Z minimum))
  else match maximum with
       | Some m => if m <? parsed
                   then Raise (ValueError (label +:+ " must be <= " +:+ str_of_Z m)) else Ok parsed
       | None => Ok parsed
       end.

Definition _optional_bounded_int (value : json) (label : string) (minimum : Z) (maximum : option Z)
    : res (option Z) :=
  match value with
  | JNull => Ok None
  | v => z ← _bounded_int v label minimum maximum; Ok (Some z)
  end.

(** ** The simulation file *)

(** [raw[key]] *)
Definition required (key : string) (kvs : list (string * json)) : res json :=
  match assoc_get key kvs with Some v => Ok v | None => Raise (KeyError key) end.

(** [raw.get(key, default)] *)
Definition get_or (key : string) (default_ : json) (kvs : list (string * json)) : json :=
  default default_ (assoc_get key kvs).

(** [re.fullmatch(r"[0-9a-f]{12,64}", s)] *)
Definition is_container_id (s : string) : bool :=
  (12 <=? slen s) && (slen s <=? 64)
  && forallb (λ c, is_digit c || ((97 <=? code c) && (code c <=? 102))%N) (chars s).

Definition _simulation_process (raw : json) : res gpu_process :=
  match raw with
  | JObj kvs =>
      let runtime := lower (strip (str_value (get_or "container_runtime" (JStr "") kvs))) in
      let container := lower (strip (str_value (get_or "container_id" (JStr "") kvs))) in
      let '(runtime, container) :=
        if negb (bool_decide (runtime ∈ _CONTAINER_RUNTIMES)) || negb (is_container_id container)
        then ("", "") else (runtime, container) in
      let source := str_value (get_or "identity_source" (JStr "host") kvs) in
      let source := if bool_decide (source ∈ _IDENTITY_SOURCES) then source else "host" in
      raw_pid ← required "pid" kvs;
      pid ← _bounded_int raw_pid "process pid" 1 (Some (2 ^ 31 - 1));
      uid ← _optional_bounded_int (dict_get "uid" kvs) "process uid" 0 (Some MAX_UID);
      memory ← _bounded_int (get_or "gpu_memory_mb" (JInt 0) kvs) "gpu_memory_mb" 0 None;
      sm ← _optional_bounded_int (dict_get "sm_utilization_percent" kvs) "sm_utilization_percent"
             0 (Some 100);
      host_uid ← _optional_bounded_int (get_or "host_uid" (dict_get "uid" kvs) kvs)
                   "process host uid" 0 (Some MAX_UID);
      Ok (GpuProcessSnapshot pid uid (str_value (get_or "username" (JStr "?") kvs))
            (str_value (get_or "command" (JStr "") kvs)) memory sm
            (str_value (get_or "kind" (JStr "C") kvs))
            (str_value (get_or "host_start_id" (JStr "") kvs)) host_uid source runtime container)
  | _ => Raise (ValueError "simulation process must be an object")
  end.

Definition simulation_gpu (raw : json) : res gpu_snapshot :=
  match raw with
  | JObj kvs =>
      match get_or "processes" (JList []) kvs with
      | JList raw_processes =>
          if MAX_SIMULATION_PROCESSES_PER_GPU <? Z.of_nat (length raw_processes)
          then Raise (ValueError "simulation GPU has too many processes")
          else
            processes ← map_res _simulation_process raw_processes;
            used ← _bounded_int (get_or "memory_used_mb" (JInt 0) kvs) "memory_used_mb" 0 None;
            total ← _bounded_int (get_or "memory_total_mb" (JInt 0) kvs) "memory_total_mb" 0 None;
            if total <? used
            then Raise (ValueError "simulation memory_used_mb exceeds memory_total_mb")
            else
              raw_index ← required "index" kvs;
              index ← _bounded_int raw_index "GPU index" 0 (Some (MAX_GPU_COUNT - 1));
              utilization ← _optional_bounded_int (dict_get "utilization_percent" kvs)
                              "utilization_percent" 0 (Some 100);
              temperature ← _optional_bounded_int (dict_get "temperature_c" kvs)
                              "temperature_c" (-100) (Some 250);
              uuid ← _optional_cuda_device_identifier (dict_get "uuid" kvs);
              Ok (GpuSnapshot index (str_value (get_or "name" (JStr "simulated") kvs)) used total
                    utilization temperature processes "simulation" (Some true) (Some true) uuid)
      | _ => Raise (ValueError "simulation processes must be a list")
      end
  | _ => Raise (ValueError "simulation GPU must be an object")
  end.

Definition index_leb (a b : gpu_snapshot) : bool := g_index a <=? g_index b.

(** Sorted by index; the indices must count from 0. *)
Definition contiguous (message : string) (items : list gpu_snapshot) : res (list gpu_snapshot) :=
  let items := sort_by index_leb items in
  if bool_decide (g_index <$> items = seqZ 0 (Z.of_nat (length items))) then Ok items
  else Raise (ValueError message).

(** [data] is the content of the file. *)
Definition _simulation_snapshot (data : list ascii) : res (list gpu_snapshot) :=
  if MAX_SIMULATION_FILE_BYTES <? Z.of_nat (length data)
  then Raise (ValueError "simulation file exceeds the 4 MiB limit")
  else match loads data with
  | None => Raise (ValueError "invalid JSON document")
  | Some payload =>
      match (match payload with JObj kvs => dict_get "gpus" kvs | v => v end) with
      | JList raw_gpus =>
          if bool_decide (raw_gpus = [])
          then Raise (ValueError "simulation file must contain at least one GPU")
          else if MAX_GPU_COUNT <? Z.of_nat (length raw_gpus)
          then Raise (ValueError ("simulation file exceeds the " +:+ str_of_Z MAX_GPU_COUNT
                 +:+ " GPU limit"))
          else
            snapshots ← map_res simulation_gpu raw_gpus;
            contiguous "simulation GPU indices must be unique and contiguous from 0" snapshots
      | _ => Raise (ValueError "simulation file must contain a gpus list")
      end
  end.

(** ** [nvidia-smi] *)

Definition _nvidia_smi_optional_int (value : string) (minimum : Z) (maximum : option Z)
    : res (option Z) :=
  if bool_decide (lower (strip value) ∈ unsupported_texts) then Ok None
  else z ← _bounded_int (JStr value) "nvidia-smi value" minimum maximum; Ok (Some z).

(** One row of the table, as [csv.reader] splits it. *)
Definition smi_gpu (row : list string) : res gpu_snapshot :=
  match strip <$> row with
  | [index; uuid; name; used; total; utilization; temperature] =>
      index ← _bounded_int (JStr index) "nvidia-smi GPU index" 0 (Some (MAX_GPU_COUNT - 1));
      used ← _nvidia_smi_optional_int used 0 None;
      total ← _nvidia_smi_optional_int total 0 None;
      utilization ← _nvidia_smi_optional_int utilization 0 (Some 100);
      temperature ← _nvidia_smi_optional_int temperature (-100) (Some 250);
      uuid ← _optional_cuda_device_identifier (JStr uuid);
      Ok (GpuSnapshot index name (default 0 used) (default 0 total) utilization temperature []
            "nvidia-smi" None None uuid)
  | fields => Raise (ValueError ("unexpected nvidia-smi CSV field count: "
                +:+ str_of_Z (Z.of_nat (length fields))))
  end.

Definition _nvidia_smi_snapshot (rows : list (list string)) : res (list gpu_snapshot) :=
  items ← map_res smi_gpu (filter (λ row, row ≠ []) rows);
  if bool_decide (items = []) then Raise (ValueError "nvidia-smi returned no GPU rows")
  else contiguous "nvidia-smi GPU indices must be unique and contiguous from 0" items.

(** ** The snapshot *)

(** What the environment offers: the content of the simulation file when one is
    named, the devices NVML reports when it works, the rows of [nvidia-smi]. *)
Record gpu_sources := GpuSources {
  gs_simulation : option (res (list ascii));
  gs_nvml : option (res (list gpu_snapshot));
  gs_nvidia_smi : res (list (list string));
}.

(** [except (OSError, ValueError, TypeError, json.JSONDecodeError)] *)
Definition is_snapshot_error (e : exn) : bool :=
  match e with OSError _ | ValueError _ | TypeError _ => true | _ => false end.

Definition limited (c : config) (devices : list gpu_snapshot) : list gpu_snapshot :=
  take (Z.to_nat (gpu_count c)) devices.

Definition smi_or_unknown (c : config) (s : gpu_sources) : list gpu_snapshot :=
  match (rows ← gs_nvidia_smi s; _nvidia_smi_snapshot rows) with
  | Ok devices => limited c devices
  | Raise _ => _unknown_snapshots c
  end.

Definition snapshot (c : config) (s : gpu_sources) : res (list gpu_snapshot) :=
  match gs_simulation s with
  | Some file =>
      match (data ← file; _simulation_snapshot data) with
      | Ok devices => Ok (limited c devices)
      | Raise e => if is_snapshot_error e then Ok (_unknown_snapshots c) else Raise e
      end
  | None =>
      match gs_nvml s with
      | Some (Ok devices) => Ok devices
      | Some (Raise _) | None => Ok (smi_or_unknown c s)
      end
  end.

(** ** Lemmas *)

Definition within (minimum : Z) (maximum : option Z) (z : Z) : Prop :=
  minimum ≤ z ∧ ∀ m, maximum = Some m → z ≤ m.

Lemma bounded_int_Ok v label lo hi z : _bounded_int v label lo hi = Ok z → within lo hi z.
Proof.
  unfold _bounded_int. rewrite res_bind_Ok. intros (p & _ & H).
  destruct (Z.ltb_spec p lo); [done|]. destruct hi as [m|].
  - destruct (Z.ltb_spec m p); [done|]. simplify_eq. split; [done|]. intros; simplify_eq. lia.
  - simplify_eq. by split.
Qed.

Lemma optional_bounded_int_Ok v label lo hi o z :
  _optional_bounded_int v label lo hi = Ok o → o = Some z → within lo hi z.
Proof.
  unfold _optional_bounded_int. intros H ->. destruct v; simplify_eq;
    (apply res_bind_Ok in H as (z' & Hz & ?); simplify_eq; by eapply bounded_int_Ok).
Qed.

Lemma smi_int_Ok v lo hi o z :
  _nvidia_smi_optional_int v lo hi = Ok o → o = Some z → within lo hi z.
Proof.
  unfold _nvidia_smi_optional_int. intros H ->. case_bool_decide; [done|].
  apply res_bind_Ok in H as (z' & Hz & ?). simplify_eq. by eapply bounded_int_Ok.
Qed.

Lemma within_Some lo hi z : within lo (Some hi) z ↔ lo ≤ z ≤ hi.
Proof. unfold within. naive_solver. Qed.

Lemma cuda_identifier_Ok v s : _cuda_device_identifier v = Ok s → v = JStr s.
Proof. destruct v; try done. simpl. repeat case_match; naive_solver. Qed.

Lemma optional_identifier_Ok v s :
  _optional_cuda_device_identifier v = Ok s → s = "" ∨ _cuda_device_identifier (JStr s) = Ok s.
Proof.
  unfold _optional_cuda_device_identifier. intros H.
  destruct v as [| | | |t| |]; try (by simplify_eq; left); try done.
  case_bool_decide; [simplify_eq; by left|]. right.
  pose proof (cuda_identifier_Ok _ _ H) as E. by simplify_eq.
Qed.

(** What the program accepts as a device and as a process. *)
Record process_ok (p : gpu_process) : Prop := ProcessOk {
  po_pid : 1 ≤ p_pid p < 2 ^ 31;
  po_uid u : p_uid p = Some u → 0 ≤ u ≤ MAX_UID;
  po_memory : 0 ≤ p_gpu_memory_mb p;
  po_container : p_container_runtime p = "" ∧ p_container_id p = "" ∨
    p_container_runtime p ∈ _CONTAINER_RUNTIMES ∧ is_container_id (p_container_id p) = true;
  po_source : p_identity_source p ∈ _IDENTITY_SOURCES;
}.

Record device_ok (d : gpu_snapshot) : Prop := DeviceOk {
  do_used : 0 ≤ g_memory_used_mb d;
  do_total : 0 ≤ g_memory_total_mb d;
  do_utilization u : g_utilization_percent d = Some u → 0 ≤ u ≤ 100;
  do_uuid : g_device_uuid d = "" ∨ has_stable_device_identifier d = true;
  do_processes p : p ∈ g_processes d → process_ok p;
}.

Lemma unknown_ok i : device_ok (unknown_snapshot i).
Proof. constructor; simpl; [lia|lia|done|by left|by intros ? ?%not_elem_of_nil]. Qed.

Lemma stable_identifier d :
  _cuda_device_identifier (JStr (g_device_uuid d)) = Ok (g_device_uuid d) →
  has_stable_device_identifier d = true.
Proof. intros E. unfold has_stable_device_identifier. rewrite E. by apply bool_decide_eq_true_2. Qed.

Lemma simulation_process_Ok raw p : _simulation_process raw = Ok p → process_ok p.
Proof.
  destruct raw as [| | | | | |kvs]; try done. cbn [_simulation_process].
  set (rt := lower _). set (ct := lower _). set (src := str_value _). clearbody rt ct src.
  destruct (if negb _ || _ then _ else _) as [rt' ct'] eqn:E.
  assert (Hc : rt' = "" ∧ ct' = "" ∨ rt' ∈ _CONTAINER_RUNTIMES ∧ is_container_id ct' = true).
  { destruct (negb _ || _) eqn:Hb; simplify_eq; [by left|right]. by bk_split. }
  clear E. intros H. inv_M. simplify_eq.
  repeat match goal with H : _bounded_int _ _ _ _ = Ok _ |- _ => apply bounded_int_Ok in H; rewrite ?within_Some in H end.
  constructor; simpl; [| |by match goal with E : within 0 None _ |- _ => destruct E end|exact Hc|case_bool_decide; [done|unfold _IDENTITY_SOURCES; in_list]].
  - lia.
  - intros u Hu. match goal with E : _optional_bounded_int _ "process uid" _ _ = Ok _ |- _ =>
      by apply within_Some, (optional_bounded_int_Ok _ _ _ _ _ u E Hu) end.
Qed.

Lemma simulation_gpu_Ok raw d :
  simulation_gpu raw = Ok d → device_ok d ∧ g_memory_used_mb d ≤ g_memory_total_mb d.
Proof.
  destruct raw as [| | | | | |kvs]; try done. cbn [simulation_gpu].
  destruct (get_or "processes" _ _) as [| | | | |raws|]; try done.
  destruct (_ <? _); [done|]. intros H.
  apply res_bind_Ok in H as (ps & Hps & H). apply res_bind_Ok in H as (used & Hu & H).
  apply res_bind_Ok in H as (total & Ht & H). destruct (Z.ltb_spec total used); [done|]. inv_M. simplify_eq.
  apply bounded_int_Ok in Hu as [? _], Ht as [? _]. split; [|done].
  constructor; simpl; try done.
  - intros u Hu. match goal with E : _optional_bounded_int _ "utilization_percent" _ _ = Ok _ |- _ =>
      by apply within_Some, (optional_bounded_int_Ok _ _ _ _ _ u E Hu) end.
  - match goal with E : _optional_cuda_device_identifier _ = Ok _ |- _ =>
      apply optional_identifier_Ok in E as [?|?]; [by left|right] end. by apply stable_identifier.
  - intros p Hp. apply map_res_Ok in Hps. apply list_elem_of_lookup in Hp as [i Hi].
    destruct (Forall2_lookup_r _ _ _ _ _ Hps Hi) as (r & _ & Hr). by eapply simulation_process_Ok.
Qed.

Lemma smi_gpu_Ok row d : smi_gpu row = Ok d → device_ok d ∧ g_processes d = [].
Proof.
  unfold smi_gpu. destruct (strip <$> row) as [|a [|b [|c [|e [|f [|g [|h [|? ?]]]]]]]]; try done.
  intros H. inv_M. simplify_eq. split; [|done].
  assert (Hnn : ∀ v o, _nvidia_smi_optional_int v 0 None = Ok o → 0 ≤ default 0 o).
  { intros v [z|] E; [|done]. by destruct (smi_int_Ok _ _ _ _ z E eq_refl). }
  constructor; simpl; eauto.
  - intros u Hu. match goal with E : _nvidia_smi_optional_int _ 0 (Some 100) = Ok _ |- _ =>
      by apply within_Some, (smi_int_Ok _ _ _ _ u E Hu) end.
  - match goal with E : _optional_cuda_device_identifier _ = Ok _ |- _ =>
      apply optional_identifier_Ok in E as [?|?]; [by left|right] end. by apply stable_identifier.
  - by intros ? ?%not_elem_of_nil.
Qed.

Lemma contiguous_Ok m items ds :
  contiguous m items = Ok ds → ds ≡ₚ items ∧ g_index <$> ds = seqZ 0 (Z.of_nat (length ds)).
Proof.
  unfold contiguous. case_bool_decide; [|done]. intros [= <-]. split; [apply sort_by_perm|done].
Qed.

Lemma map_res_all {A B} (f : A → res B) (P : B → Prop) l bs :
  (∀ a b, f a = Ok b → P b) → map_res f l = Ok bs → ∀ b, b ∈ bs → P b.
Proof.
  intros Hf Hm b [i Hi]%list_elem_of_lookup. apply map_res_Ok in Hm.
  destruct (Forall2_lookup_r _ _ _ _ _ Hm Hi) as (a & _ & Ha). by eapply Hf.
Qed.

(** Devices counted from 0, each within its bounds. *)
Definition well_formed (ds : list gpu_snapshot) : Prop :=
  g_index <$> ds = seqZ 0 (Z.of_nat (length ds)) ∧ ∀ d, d ∈ ds → device_ok d.

Lemma simulation_snapshot_Ok data ds : _simulation_snapshot data = Ok ds → well_formed ds.
Proof.
  unfold _simulation_snapshot. destruct (_ <? _); [done|]. destruct (loads data) as [payload|]; [|done].
  destruct (match payload with JObj kvs => _ | v => _ end) as [| | | | |raws|]; try done.
  case_bool_decide; [done|]. destruct (_ <? _); [done|]. intros (items & Hm & Hc)%res_bind_Ok.
  apply contiguous_Ok in Hc as [Hp Hi]. split; [done|]. intros d. rewrite Hp.
  eapply map_res_all; [|exact Hm]. intros ? ? ?. by eapply simulation_gpu_Ok.
Qed.

Lemma smi_snapshot_Ok rows ds : _nvidia_smi_snapshot rows = Ok ds → well_formed ds.
Proof.
  unfold _nvidia_smi_snapshot. intros (items & Hm & H)%res_bind_Ok. case_bool_decide; [done|].
  apply contiguous_Ok in H as [Hp Hi]. split; [done|]. intros d. rewrite Hp.
  eapply map_res_all; [|exact Hm]. intros ? ? ?. by eapply smi_gpu_Ok.
Qed.

Lemma take_seqZ n k m : take n (seqZ k m) = seqZ k (Z.min (Z.of_nat n) m).
Proof.
  apply list_eq. intros i. destruct (decide (i < n)%nat).
  - rewrite lookup_take_lt by done. apply option_eq. intros x. rewrite !lookup_seqZ. lia.
  - rewrite lookup_take_ge by lia. symmetry. apply lookup_seqZ_ge. lia.
Qed.

Lemma limited_ok c ds : well_formed ds → well_formed (limited c ds) ∧
  Z.of_nat (length (limited c ds)) ≤ Z.max 0 (gpu_count c).
Proof.
  intros [Hi Hd]. unfold limited. split; [split|].
  - rewrite fmap_take, Hi, take_seqZ, length_take. f_equal. lia.
  - intros d Hin. apply Hd. by eapply elem_of_take in Hin as (? & ?%list_elem_of_lookup_2 & _).
  - rewrite length_take. lia.
Qed.

Lemma unknown_well_formed c : well_formed (_unknown_snapshots c) ∧
  Z.of_nat (length (_unknown_snapshots c)) ≤ Z.max 0 (gpu_count c).
Proof.
  unfold _unknown_snapshots. rewrite length_fmap, length_seqZ. split; [|lia]. split.
  - rewrite <- list_fmap_compose. rewrite length_fmap, length_seqZ.
    transitivity (id <$> seqZ 0 (gpu_count c)); [done|]. rewrite list_fmap_id.
    unfold seqZ. by rewrite Nat2Z.id.
  - intros d (i & -> & _)%list_elem_of_fmap. apply unknown_ok.
Qed.

(** ** Which errors leave the reading of the simulation file *)

Definition raises {A} (P : exn → Prop) (m : res A) : Prop := ∀ e, m = Raise e → P e.

Definition value_or_key (e : exn) : Prop := (∃ msg, e = ValueError msg) ∨ ∃ key, e = KeyError key.

Lemma raises_bind {A B} P (m : res A) (f : A → res B) :
  raises P m → (∀ a, raises P (f a)) → raises P (m ≫= f).
Proof. intros Hm Hf e. destruct m; simpl; [apply Hf|]. intros [= ->]. by apply Hm. Qed.

Lemma raises_Ok {A} P (a : A) : raises P (Ok a).
Proof. done. Qed.

Lemma raises_value {A} msg : raises value_or_key (Raise (ValueError msg) : res A).
Proof. intros e [= <-]. left. by eexists. Qed.

Lemma raises_map {A B} P (f : A → res B) l : (∀ a, raises P (f a)) → raises P (map_res f l).
Proof.
  intros Hf. induction l as [|a l IH]; simpl; [apply raises_Ok|].
  apply raises_bind; [apply Hf|intros]. apply raises_bind; [apply IH|intros]. apply raises_Ok.
Qed.

Lemma raises_bounded v label lo hi : raises value_or_key (_bounded_int v label lo hi).
Proof.
  unfold _bounded_int. apply raises_bind; [|intros p].
  - destruct v; try apply raises_value; try apply raises_Ok.
    + destruct (is_integer f); [destruct (float_trunc f)|]; try apply raises_value; apply raises_Ok.
    + destruct (int_text s); [apply raises_Ok|apply raises_value].
  - destruct (_ <? _); [apply raises_value|]. destruct hi; [destruct (_ <? _)|];
      try apply raises_value; apply raises_Ok.
Qed.

Lemma raises_optional v label lo hi : raises value_or_key (_optional_bounded_int v label lo hi).
Proof.
  unfold _optional_bounded_int. destruct v;
    first [apply raises_bind; [apply raises_bounded|intros; apply raises_Ok]|apply raises_Ok].
Qed.

Lemma raises_required key kvs : raises value_or_key (required key kvs).
Proof. unfold required. destruct (assoc_get key kvs); [apply raises_Ok|]. intros e [= <-]. right. by eexists. Qed.

Lemma raises_identifier v : raises value_or_key (_optional_cuda_device_identifier v).
Proof.
  destruct v; simpl; try apply raises_value; try apply raises_Ok.
  repeat case_match; try apply raises_value; apply raises_Ok.
Qed.

Ltac raises_step :=
  first [ apply raises_bind; [|intros ?] | apply raises_Ok | apply raises_value
        | apply raises_bounded | apply raises_optional | apply raises_required
        | apply raises_identifier | apply raises_map; intros ?
        | match goal with |- raises _ (match ?x with _ => _ end) => destruct x end ].

Lemma raises_process raw : raises value_or_key (_simulation_process raw).
Proof. destruct raw; cbn [_simulation_process]; repeat raises_step. Qed.

Lemma raises_gpu raw : raises value_or_key (simulation_gpu raw).
Proof.
  destruct raw; cbn [simulation_gpu]; try apply raises_value.
  destruct (get_or _ _ _); repeat first [apply raises_process | raises_step].
Qed.

Lemma raises_simulation data : raises value_or_key (_simulation_snapshot data).
Proof.
  unfold _simulation_snapshot, contiguous. repeat first [apply raises_gpu | raises_step].
Qed.

(** Telemetry is validated before use. Whatever the simulation file and
    [nvidia-smi] contain, the snapshot has devices numbered from 0, at most as many
    as are configured, with memory, utilisation, identifiers and processes within
    their bounds, or the devices that NVML reports; anything malformed becomes
    devices of unknown state. The one error that gets out is the [KeyError] of a
    simulated device or process without an index or a pid, which the handler does
    not name, and an error of the file that it does not name. *)
Theorem snapshot_spec c s :
  match snapshot c s with
  | Ok ds =>
      (gs_simulation s = None ∧ gs_nvml s = Some (Ok ds)) ∨
      (well_formed ds ∧ Z.of_nat (length ds) ≤ Z.max 0 (gpu_count c))
  | Raise e =>
      (∃ key data, e = KeyError key ∧ gs_simulation s = Some (Ok data)) ∨
      (gs_simulation s = Some (Raise e) ∧ is_snapshot_error e = false)
  end.
Proof.
  assert (Hsmi : well_formed (smi_or_unknown c s) ∧
    Z.of_nat (length (smi_or_unknown c s)) ≤ Z.max 0 (gpu_count c)).
  { unfold smi_or_unknown. destruct (rows ← gs_nvidia_smi s; _) as [ds|e] eqn:E;
      [|apply unknown_well_formed]. apply res_bind_Ok in E as (rows & _ & Hr).
    by apply limited_ok, (smi_snapshot_Ok rows). }
  unfold snapshot. destruct (gs_simulation s) as [file|].
  - destruct (data ← file; _) as [ds|e] eqn:E.
    + right. apply res_bind_Ok in E as (data & _ & Hr). by apply limited_ok, (simulation_snapshot_Ok data).
    + destruct (is_snapshot_error e) eqn:He; [right; apply unknown_well_formed|].
      destruct file as [data|e0]; simpl in E; [left|right].
      * destruct (raises_simulation data e E) as [[msg ->]|[key ->]]; [done|]. by exists key, data.
      * by simplify_eq.
  - destruct (gs_nvml s) as [[ds|e]|]; [by left|by right..].
Qed.

(** A device without an index stops the sampling instead of counting as unknown. *)
Example simulation_without_index c :
  snapshot c (GpuSources (Some (Ok (chars "[{}]"))) None (Ok [])) = Raise (KeyError "index").
Proof. vm_compute. reflexivity. Qed.
