(* ===== verification/Usage.v ===== *)
(** * Usage: who uses a GPU and how busy it is ([src/src/bk/usage.py])

    Every process on a GPU is compared with the reservations that hold now: it is
    authorized, on a GPU its owner did not reserve, without a reservation, of the
    system, or of an unknown owner. Whether a user may start containers is asked
    of the system, so it is a parameter here. *)

From S2P Require Import Prelude PyBase Json Granularity Timeparse Models Sharing Config Gpu.
From Stdlib Require Import SpecFloat.

Definition USAGE_AUTHORIZED : string := "ok".
Definition USAGE_WRONG_GPU : string := "wrong-gpu".
Definition USAGE_UNRESERVED : string := "unreserved".
Definition USAGE_UNKNOWN : string := "unknown".
Definition USAGE_SYSTEM : string := "system".

Definition GPU_LIVE_IDLE : string := "idle".
Definition GPU_LIVE_UNKNOWN : string := "unknown".
Definition GPU_LIVE_BUSY : string := "busy".
Definition GPU_BUSY_UTILIZATION_PERCENT : Z := 10.
Definition GPU_BUSY_MEMORY_MIN_MB : Z := 1024.
Definition CONTAINER_IDENTITY_INFERRED : string := "container-reservation".
Definition CONTAINER_IDENTITY_AMBIGUOUS : string := "container-ambiguous".

Definition SYSTEM_GPU_PROCESS_NAMES : list string :=
  ["gnome-shell"; "kwin_wayland"; "kwin_x11"; "nvidia-persistenced"; "nvidia-powerd"; "xorg";
   "xwayland"].

Record process_usage := ProcessUsage {
  u_gpu : Z;
  u_process : gpu_process;
  u_status : string;
  u_reservation_ids : list string;
}.

Definition violation (u : process_usage) : bool :=
  bool_decide (u_status u ∈ [USAGE_WRONG_GPU; USAGE_UNRESERVED]).

Record gpu_live_state := GpuLiveState {
  v_index : Z;
  v_status : string;
  v_reason : string;
  v_score : Z;
  v_utilization_percent : option Z;
  v_memory_percent : pyfloat;
  v_process_count : Z;
}.

(** ** Processes *)

(** The base name of the first word of the command, in lower case. *)
Definition _is_system_process (p : gpu_process) : bool :=
  let executable := hd "" (words (p_command p)) in
  let name := match after_last "/" (chars executable) with
              | Some rest => text rest
              | None => executable
              end in
  bool_decide (lower name ∈ SYSTEM_GPU_PROCESS_NAMES).

(** [replace(process, ...)] for a process in a container. *)
Definition with_identity (uid : option Z) (username source : string) (p : gpu_process)
    : gpu_process :=
  GpuProcessSnapshot (p_pid p) uid username (p_command p) (p_gpu_memory_mb p)
    (p_sm_utilization_percent p) (p_kind p) (p_host_start_id p)
    (match p_host_uid p with Some u => Some u | None => p_uid p end) source
    (p_container_runtime p) (p_container_id p).

Definition process_owner_label (p : gpu_process) : string :=
  if bool_decide (p_identity_source p = CONTAINER_IDENTITY_INFERRED) then p_username p +:+ "*"
  else if bool_decide (p_identity_source p = CONTAINER_IDENTITY_AMBIGUOUS) then "container?"
  else p_username p.

Definition process_container_label (p : gpu_process) : string :=
  if bool_decide (p_container_runtime p = "") || bool_decide (p_container_id p = "") then ""
  else p_container_runtime p +:+ ":" +:+ text (take 12 (chars (p_container_id p))).

Section Classify.
(** [container_uid_allowed(runtime, uid)] *)
Variable container_uid_allowed : string → Z → bool.

(** The users whose reservations hold the GPU and who may run the container. *)
Definition container_candidates (gpu : Z) (p : gpu_process) (current : list reservation)
    : list reservation :=
  filter (λ r, gpu ∈ r_gpus r ∧ 0 < r_uid r ∧
               container_uid_allowed (p_container_runtime p) (r_uid r) = true) current.

Definition _infer_container_owner (gpu : Z) (p : gpu_process) (current : list reservation)
    : option process_usage :=
  let candidates := container_candidates gpu p current in
  match remove_dups (r_uid <$> candidates) with
  | [] => None
  | [uid] =>
      let username := match candidates with
                      | r :: _ => default (str_of_Z uid) (r_username r)
                      | [] => str_of_Z uid
                      end in
      Some (ProcessUsage gpu (with_identity (Some uid) username CONTAINER_IDENTITY_INFERRED p)
              USAGE_AUTHORIZED (r_id <$> candidates))
  | _ => Some (ProcessUsage gpu
                 (with_identity (p_uid p) (p_username p) CONTAINER_IDENTITY_AMBIGUOUS p)
                 USAGE_UNKNOWN [])
  end.

Definition _classify_process (gpu : Z) (p : gpu_process) (current : list reservation)
    : process_usage :=
  if _is_system_process p then ProcessUsage gpu p USAGE_SYSTEM [] else
  match p_uid p with
  | None => ProcessUsage gpu p USAGE_UNKNOWN []
  | Some uid =>
      let user_reservations := filter (λ r, r_uid r = uid) current in
      let matches := filter (λ r, gpu ∈ r_gpus r) user_reservations in
      if negb (bool_decide (matches = [])) then ProcessUsage gpu p USAGE_AUTHORIZED (r_id <$> matches)
      else
        let inferred :=
          if (uid =? 0) && negb (bool_decide (p_container_runtime p = ""))
             && negb (bool_decide (p_container_id p = ""))
          then _infer_container_owner gpu p current else None in
        match inferred with
        | Some u => u
        | None =>
            if negb (bool_decide (user_reservations = []))
            then ProcessUsage gpu p USAGE_WRONG_GPU (r_id <$> user_reservations)
            else ProcessUsage gpu p USAGE_UNRESERVED []
        end
  end.

(** [(not item.violation, item.process.username, item.process.pid)] *)
Definition usage_leb (a b : process_usage) : bool :=
  let '(va, vb) := (violation a, violation b) in
  let '(na, nb) := (p_username (u_process a), p_username (u_process b)) in
  if negb (Bool.eqb va vb) then va
  else if negb (bool_decide (na = nb)) then String.leb na nb
  else p_pid (u_process a) <=? p_pid (u_process b).

(** The reservations that hold at an instant. *)
Definition current_reservations (reservations : list reservation) (at_ : datetime)
    : list reservation :=
  filter (λ r, r_status r = STATUS_ACTIVE ∧ r_start_at r ≤ at_ ∧ at_ < r_end_at r) reservations.

(** The dict is filled device by device: of two with one index the last counts. *)
Definition classify_process_usage (snapshots : list gpu_snapshot)
    (reservations : list reservation) (at_ : datetime) : gmap Z (list process_usage) :=
  let current := current_reservations reservations at_ in
  foldl (λ result gpu,
           <[g_index gpu := sort_by usage_leb
               ((λ p, _classify_process (g_index gpu) p current) <$> g_processes gpu)]> result)
    ∅ snapshots.

End Classify.

(** ** Live states *)

Definition _memory_percent (gpu : gpu_snapshot) : pyfloat :=
  if g_memory_total_mb gpu =? 0 then float_of_Z 0
  else
    let share := fdiv (fmul (float_of_Z (g_memory_used_mb gpu)) (float_of_Z 100))
                      (float_of_Z (g_memory_total_mb gpu)) in
    let low := fmax (float_of_Z 0) share in
    if flt low (float_of_Z 100) then low else float_of_Z 100.

(** [int(total * 0.10)] *)
Definition tenth_of (total : Z) : Z := default 0 (float_trunc (fmul (float_of_Z total) (ratio 1 10))).

Definition memory_limit (gpu : gpu_snapshot) : Z :=
  Z.max GPU_BUSY_MEMORY_MIN_MB
    (if g_memory_total_mb gpu =? 0 then GPU_BUSY_MEMORY_MIN_MB else tenth_of (g_memory_total_mb gpu)).

(** [(-(sm_utilization_percent or 0), -gpu_memory_mb, pid)] *)
Definition busiest_leb (a b : gpu_process) : bool :=
  let '(sa, sb) := (default 0 (p_sm_utilization_percent a), default 0 (p_sm_utilization_percent b)) in
  if negb (sa =? sb) then sb <? sa
  else if negb (p_gpu_memory_mb a =? p_gpu_memory_mb b) then p_gpu_memory_mb b <? p_gpu_memory_mb a
  else p_pid a <=? p_pid b.

(** [process.username or (str(process.uid) if process.uid is not None else "unknown")] *)
Definition owner_text (p : gpu_process) : string :=
  if bool_decide (p_username p = "")
  then match p_uid p with Some u => str_of_Z u | None => "unknown" end
  else p_username p.

Definition live_state (index : Z) (device : option gpu_snapshot) : gpu_live_state :=
  let unknown := GpuLiveState index GPU_LIVE_UNKNOWN "live state unavailable" 0 None
                   (float_of_Z 0) 0 in
  match device with
  | None => unknown
  | Some gpu =>
      if bool_decide (g_source gpu = "none") then unknown else
      let util := g_utilization_percent gpu in
      let active := filter (λ p, _is_system_process p = false) (g_processes gpu) in
      match sort_by busiest_leb active with
      | p :: _ =>
          let n := Z.of_nat (length active) in
          GpuLiveState index GPU_LIVE_BUSY
            ("user=" +:+ owner_text p +:+ " pid=" +:+ str_of_Z (p_pid p))
            (100000 + n * 10000 + default 0 util * 100 + g_memory_used_mb gpu) util
            (_memory_percent gpu) n
      | [] =>
          let utilization := default 0 util in
          if GPU_BUSY_UTILIZATION_PERCENT <=? utilization
          then GpuLiveState index GPU_LIVE_BUSY ("util=" +:+ str_of_Z utilization +:+ "%")
                 (50000 + utilization * 100 + g_memory_used_mb gpu) util (_memory_percent gpu) 0
          else if memory_limit gpu <=? g_memory_used_mb gpu
          then GpuLiveState index GPU_LIVE_BUSY
                 ("memory=" +:+ str_of_Z (g_memory_used_mb gpu) +:+ "MiB")
                 (40000 + g_memory_used_mb gpu) util (_memory_percent gpu) 0
          else GpuLiveState index GPU_LIVE_IDLE "" (utilization * 100 + g_memory_used_mb gpu) util
                 (_memory_percent gpu) 0
      end
  end.

(** One state for each configured index, in order. *)
Definition assess_gpu_live_states (snapshots : list gpu_snapshot) (gpu_count : Z)
    : list gpu_live_state :=
  (λ index, live_state index (device_at snapshots index)) <$> seqZ 0 gpu_count.

(** [result.get(index)] *)
Definition live_at (states : list gpu_live_state) (index : Z) : option gpu_live_state :=
  head (filter (λ s, v_index s = index) states).

(** ** Selection *)

Record historical_gpu_load := HistoricalGpuLoad {
  h_index : Z;
  h_predicted_percent : pyfloat;
  h_average_utilization_percent : pyfloat;
  h_busy_fraction : pyfloat;
  h_memory_percent : pyfloat;
  h_sample_count : Z;
}.

(** [min(a, b)]: the first unless the second is less. *)
Definition fmin (a b : pyfloat) : pyfloat := if flt b a then b else a.

Definition percent (n d : Z) : pyfloat := ratio n (Z.to_pos d).

Definition live_score (s : gpu_live_state) : pyfloat :=
  let utilization := float_of_Z (default 0 (v_utilization_percent s)) in
  if bool_decide (v_status s = GPU_LIVE_BUSY) then
    fmin (float_of_Z 100)
      (fadd (fadd (fadd (float_of_Z 70) (fmul utilization (percent 20 100)))
                  (fmul (v_memory_percent s) (percent 10 100)))
            (fmul (float_of_Z (v_process_count s)) (float_of_Z 5)))
  else if bool_decide (v_status s = GPU_LIVE_UNKNOWN) then float_of_Z 45
  else fmin (float_of_Z 20)
         (fadd (fmul utilization (percent 50 100)) (fmul (v_memory_percent s) (percent 10 100))).

Definition combined_gpu_scores (states : list gpu_live_state)
    (historical : gmap Z historical_gpu_load) : list (Z * pyfloat) :=
  (λ s,
     let live := live_score s in
     match historical !! v_index s with
     | Some recent =>
         if negb (h_sample_count recent =? 0)
         then (v_index s, round3 (fadd (fmul live (percent 65 100))
                                       (fmul (h_predicted_percent recent) (percent 35 100))))
         else (v_index s, round3 live)
     | None => (v_index s, round3 live)
     end) <$> states.

Definition status_order (status : string) : Z :=
  if bool_decide (status = GPU_LIVE_IDLE) then 0
  else if bool_decide (status = GPU_LIVE_UNKNOWN) then 1
  else if bool_decide (status = GPU_LIVE_BUSY) then 2 else 1.

(** [scores.get(index, 0.0)] of a dict. *)
Fixpoint score_of (scores : list (Z * pyfloat)) (index : Z) : pyfloat :=
  match scores with
  | [] => float_of_Z 0
  | (i, s) :: scores => if i =? index then s else score_of scores index
  end.

(** Tuples of a float or the status, the status, the score and the index. *)
Definition selection_leb (scores : option (list (Z * pyfloat))) (a b : gpu_live_state) : bool :=
  let '(oa, ob) := (status_order (v_status a), status_order (v_status b)) in
  let key s := match scores with
               | Some scores => score_of scores (v_index s)
               | None => float_of_Z (status_order (v_status s))
               end in
  if negb (feq (key a) (key b)) then flt (key a) (key b)
  else if negb (oa =? ob) then oa <? ob
  else if negb (v_score a =? v_score b) then v_score a <? v_score b
  else v_index a <=? v_index b.

Definition gpu_selection_order (states : list gpu_live_state)
    (scores : option (list (Z * pyfloat))) : list Z :=
  v_index <$> sort_by (selection_leb scores) states.

(** ** Lemmas *)

Lemma device_at_Some ds g d : device_at ds g = Some d → d ∈ ds ∧ g_index d = g.
Proof.
  unfold device_at. intros H. rewrite last_lookup in H. apply list_elem_of_lookup_2 in H.
  by apply list_elem_of_filter in H as [? ?].
Qed.

Lemma live_at_assess snapshots n g :
  live_at (assess_gpu_live_states snapshots n) g =
  if bool_decide (0 ≤ g < n) then Some (live_state g (device_at snapshots g)) else None.
Proof.
  unfold live_at, assess_gpu_live_states. rewrite filter_fmap_list.
  assert (Hi : ∀ i, v_index (live_state i (device_at snapshots i)) = i).
  { intros i. unfold live_state. repeat case_match; done. }
  rewrite (filter_ext_in _ (λ i, i = g)) by (intros i _; by rewrite Hi). case_bool_decide as Hg.
  - assert (E : filter (λ i, i = g) (seqZ 0 n) = [g]).
    { assert (Hp : filter (λ i, i = g) (seqZ 0 n) ≡ₚ [g]).
      { apply NoDup_Permutation; [apply NoDup_filter, NoDup_seqZ|apply NoDup_singleton|].
        intros x. rewrite list_elem_of_filter, elem_of_seqZ, list_elem_of_singleton. lia. }
      by apply Permutation_singleton_r in Hp. }
    by rewrite E.
  - assert (E : filter (λ i, i = g) (seqZ 0 n) = []).
    { apply filter_nil_iff. intros x Hx ->. apply elem_of_seqZ in Hx. lia. }
    by rewrite E.
Qed.

Section Lemmas.
Variable allowed : string → Z → bool.

(** The rows of a device are the classes of its processes. *)
Lemma classify_lookup snapshots reservations at_ g :
  classify_process_usage allowed snapshots reservations at_ !! g =
  (λ d, sort_by usage_leb
     ((λ p, _classify_process allowed g p (current_reservations reservations at_)) <$> g_processes d))
  <$> device_at snapshots g.
Proof.
  unfold classify_process_usage, device_at. induction snapshots as [|d ds IH] using rev_ind; [done|].
  rewrite foldl_app, filter_app. simpl. rewrite filter_cons.
  destruct (decide (g_index d = g)) as [<-|Hn].
  - rewrite lookup_insert_eq. change (filter _ []) with (@nil gpu_snapshot). by rewrite last_snoc.
  - rewrite lookup_insert_ne by done. change (filter _ []) with (@nil gpu_snapshot).
    rewrite app_nil_r. exact IH.
Qed.

(** When a process counts as authorized. *)
Definition authorized (g : Z) (p : gpu_process) (current : list reservation) : Prop :=
  (∃ r, r ∈ current ∧ g ∈ r_gpus r ∧ p_uid p = Some (r_uid r)) ∨
  (p_uid p = Some 0 ∧ p_container_runtime p ≠ "" ∧ p_container_id p ≠ "" ∧
   ∃ r, r ∈ container_candidates allowed g p current ∧
     ∀ r', r' ∈ container_candidates allowed g p current → r_uid r' = r_uid r).

Lemma infer_status g p current :
  match _infer_container_owner allowed g p current with
  | None => container_candidates allowed g p current = []
  | Some u =>
      (u_status u = USAGE_AUTHORIZED ↔
       ∃ r, r ∈ container_candidates allowed g p current ∧
         ∀ r', r' ∈ container_candidates allowed g p current → r_uid r' = r_uid r) ∧
      u_status u ≠ USAGE_SYSTEM
  end.
Proof.
  unfold _infer_container_owner. set (cs := container_candidates allowed g p current).
  destruct (remove_dups (r_uid <$> cs)) as [|uid [|uid' us]] eqn:E.
  - destruct cs as [|r cs']; [done|]. exfalso.
    assert (H : r_uid r ∈ remove_dups (r_uid <$> r :: cs'))
      by (apply elem_of_remove_dups; rewrite fmap_cons; left).
    rewrite E in H. by apply not_elem_of_nil in H.
  - split; [|done]. split; [intros _|done].
    assert (Hall : ∀ r, r ∈ cs → r_uid r = uid).
    { intros r Hr. apply list_elem_of_singleton. rewrite <- E. apply elem_of_remove_dups.
      apply list_elem_of_fmap. by exists r. }
    assert (Hin : uid ∈ r_uid <$> cs) by (apply elem_of_remove_dups; rewrite E; left).
    apply list_elem_of_fmap in Hin as (r & -> & Hr). exists r. split; [done|]. intros. by apply Hall.
  - split; [|done]. split; [done|]. intros (r & Hr & Hall). exfalso.
    pose proof (NoDup_remove_dups (r_uid <$> cs)) as Hd. rewrite E in Hd.
    assert (Hin : ∀ x, x ∈ [uid; uid'] → x = r_uid r).
    { intros x Hx. assert (H : x ∈ uid :: uid' :: us) by (apply elem_of_cons in Hx as [->|Hx%list_elem_of_singleton]; [left|subst; right; left]).
      rewrite <- E in H. apply elem_of_remove_dups, list_elem_of_fmap in H as (r' & -> & Hr').
      by apply Hall. }
    apply NoDup_cons in Hd as [Hn _]. apply Hn. rewrite (Hin uid), (Hin uid') by set_solver. left.
Qed.

Lemma classify_status g p current :
  let u := _classify_process allowed g p current in
  (u_status u = USAGE_SYSTEM ↔ _is_system_process p = true) ∧
  (u_status u = USAGE_AUTHORIZED ↔ _is_system_process p = false ∧ authorized g p current).
Proof.
  cbv zeta. unfold _classify_process, authorized. destruct (_is_system_process p); simpl.
  { split; [done|]. split; [done|]. by intros [? _]. }
  destruct (p_uid p) as [uid|]; simpl.
  2:{ split; [done|]. split; [done|]. intros (_ & [(r & _ & _ & ?)|(? & _)]); done. }
  set (ur := filter (λ r, r_uid r = uid) current). set (m := filter (λ r, g ∈ r_gpus r) ur).
  assert (Hm : m ≠ [] ↔ ∃ r, r ∈ current ∧ g ∈ r_gpus r ∧ r_uid r = uid).
  { split.
    - destruct m as [|r m'] eqn:E; [done|]. intros _. exists r.
      assert (Hr : r ∈ m) by (rewrite E; left). unfold m, ur in Hr.
      apply list_elem_of_filter in Hr as [? Hr]. by apply list_elem_of_filter in Hr as [? ?].
    - intros (r & ? & ? & ?) E. assert (Hr : r ∈ m).
      { apply list_elem_of_filter. split; [done|]. by apply list_elem_of_filter. }
      rewrite E in Hr. by apply not_elem_of_nil in Hr. }
  case_bool_decide as Hnil; simpl.
  2:{ split; [done|]. split; [|done]. intros _. split; [done|]. left.
      apply Hm in Hnil as (r & ? & ? & ?). exists r. split_and!; congruence || done. }
  assert (Hno : ∀ u : process_usage, u_status u = USAGE_WRONG_GPU ∨ u_status u = USAGE_UNRESERVED →
    (u_status u = USAGE_SYSTEM ↔ false = true) ∧ (u_status u = USAGE_AUTHORIZED ↔ False)).
  { intros u [->| ->]; split; done. }
  assert (Hdirect : ¬ ∃ r, r ∈ current ∧ g ∈ r_gpus r ∧ Some uid = Some (r_uid r)).
  { intros (r & ? & ? & ?). apply Hm; [|done]. exists r. split_and!; congruence. }
  set (fallback := if negb (bool_decide (ur = [])) then _ else _).
  assert (Hf : (u_status fallback = USAGE_SYSTEM ↔ false = true) ∧ (u_status fallback = USAGE_AUTHORIZED ↔ False)).
  { apply Hno. unfold fallback. destruct (negb _); [by left|by right]. }
  destruct Hf as [Hf1 Hf2].
  destruct ((uid =? 0) && _ && _) eqn:Hc.
  - bk_split. subst uid. pose proof (infer_status g p current) as Hi.
    destruct (_infer_container_owner allowed g p current) as [u|].
    + destruct Hi as [-> Hs]. split; [split; done|]. naive_solver.
    + rewrite Hi, Hf1, Hf2. split; [done|]. split; [done|].
      intros (_ & [?|(_ & _ & _ & r & ?%not_elem_of_nil & _)]); done.
  - rewrite Hf1, Hf2. split; [done|]. split; [done|]. intros (_ & [?|(E & ? & ? & _)]); [done|].
    injection E as ->. rewrite !bool_decide_eq_false_2 in Hc by done. done.
Qed.
End Lemmas.

(** A device is busy when somebody uses it or its load says so. *)
Definition loaded (d : gpu_snapshot) : Prop :=
  GPU_BUSY_UTILIZATION_PERCENT ≤ default 0 (g_utilization_percent d) ∨
  memory_limit d ≤ g_memory_used_mb d.

Lemma live_state_status index d :
  g_source d ≠ "none" →
  let s := live_state index (Some d) in
  v_status s ≠ GPU_LIVE_UNKNOWN ∧
  (v_status s = GPU_LIVE_BUSY ↔
     (∃ p, p ∈ g_processes d ∧ _is_system_process p = false) ∨ loaded d).
Proof.
  intros Hs. cbv zeta. unfold live_state. rewrite bool_decide_eq_false_2 by done.
  set (active := filter _ (g_processes d)).
  assert (Ha : active ≠ [] ↔ ∃ p, p ∈ g_processes d ∧ _is_system_process p = false).
  { unfold active. rewrite filter_nil_iff. split.
    - intros H. destruct (decide (Exists (λ p, _is_system_process p = false) (g_processes d)))
        as [(p & ? & ?)%Exists_exists|Hn]; [eauto|].
      destruct H. intros p Hp E. apply Hn, Exists_exists. eauto.
    - intros (p & Hp & E) H. by apply (H p). }
  destruct (sort_by busiest_leb active) as [|p ps] eqn:Hsort.
  - assert (Hnil : active = []).
    { pose proof (sort_by_perm busiest_leb active) as Hp. rewrite Hsort in Hp. by apply Permutation_nil. }
    assert (Hno : ¬ ∃ p, p ∈ g_processes d ∧ _is_system_process p = false) by (rewrite <- Ha; tauto).
    unfold loaded.
    destruct (Z.leb_spec GPU_BUSY_UTILIZATION_PERCENT (default 0 (g_utilization_percent d))); simpl;
      [|destruct (Z.leb_spec (memory_limit d) (g_memory_used_mb d)); simpl].
    + split; [done|]. split; [intros _; right; by left|done].
    + split; [done|]. split; [intros _; right; by right|done].
    + split; [done|]. split; [done|]. intros [?|[?|?]]; [done|lia|lia].
  - simpl. split; [done|]. split; [|done]. intros _. left. apply Ha. intros E.
    rewrite E in Hsort. done.
Qed.
