(* ===== verification/LaunchGuard.v ===== *)
(** * LaunchGuard: may a job start now? ([src/src/bk/launch_guard.py])

    Before a due job is claimed, the worker compares the live state of its GPUs
    with the reservations. [assess_job_launch] answers ready, with the devices to
    make visible to the command, or why not. *)

From S2P Require Import Prelude PyBase Json Granularity Timeparse Models Sharing Config.
From S2P Require Import Gpu Usage.

Record launch_decision := LaunchGuardDecision {
  ld_ready : bool;
  ld_reason : string;
  ld_key : string;
  ld_cuda_visible_devices : list string;
}.

Definition refuse (reason key : string) : launch_decision := LaunchGuardDecision false reason key [].

Definition _inferred_share_memory (c : config) (r : reservation) (device : gpu_snapshot)
    : option Z :=
  if g_memory_total_mb device <=? 0 then None
  else
    let usable := Z.max 0 (g_memory_total_mb device - shared_memory_reserve_mb c) in
    Some (inferred_share_memory_mb usable (max_shared_users c)
            (reservation_share_units (r_share_units r) (max_shared_users c))).

(** [_positive_int] of a stored budget, an integer or null. *)
Definition _positive_int (value : option Z) : option Z :=
  z ← value; if 0 <? z then Some z else None.

(** Memory the launch may still take from the device. *)
Definition launch_headroom (c : config) (device : gpu_snapshot) : Z :=
  Z.max 0 (g_memory_total_mb device - g_memory_used_mb device - shared_memory_reserve_mb c).

(** The checks of the memory: [Some] refusal, or the device has enough. *)
Definition memory_refusal (c : config) (r : reservation) (index : Z) (device : gpu_snapshot)
    : option launch_decision :=
  let gpu := "GPU " +:+ str_of_Z index in
  let key := "gpu:" +:+ str_of_Z index in
  let unavailable := refuse (gpu +:+ " memory capacity is unavailable") (key +:+ ":memory-capacity") in
  let expected := _positive_int (r_expected_memory_mb r) in
  let shared := negb (bool_decide (r_mode r = MODE_EXCLUSIVE)) in
  let required := if shared && bool_decide (expected = None)
                  then _inferred_share_memory c r device else expected in
  match required with
  | None => if shared then Some unavailable else None
  | Some required =>
      if g_memory_total_mb device <=? 0 then Some unavailable
      else
        let available := launch_headroom c device in
        if available <? required
        then Some (refuse (gpu +:+ " has " +:+ str_of_Z available +:+ "MiB launch headroom; "
                     +:+ str_of_Z required +:+ "MiB is required") (key +:+ ":vram"))
        else None
  end.

(** One round of the loop over the selected GPUs: the refusal, if any. *)
Definition gpu_refusal (c : config) (r : reservation) (devices : list gpu_snapshot)
    (live : list gpu_live_state) (usage : gmap Z (list process_usage)) (index : Z)
    : option launch_decision :=
  let gpu := "GPU " +:+ str_of_Z index in
  let key := "gpu:" +:+ str_of_Z index in
  match device_at devices index, live_at live index with
  | Some device, Some state =>
      if bool_decide (g_source device = "none") || bool_decide (v_status state = GPU_LIVE_UNKNOWN)
      then Some (refuse (gpu +:+ " live telemetry is unavailable") (key +:+ ":telemetry"))
      else if negb (has_process_telemetry device)
      then Some (refuse (gpu +:+ " process telemetry is unavailable") (key +:+ ":process-telemetry"))
      else if bool_decide (g_source device = "nvml") && negb (has_stable_device_identifier device)
      then Some (refuse (gpu +:+ " stable identifier is unavailable") (key +:+ ":stable-identifier"))
      else
        let rows := filter (λ u, u_status u ≠ USAGE_SYSTEM) (default [] (usage !! index)) in
        match filter (λ u, u_status u ≠ USAGE_AUTHORIZED) rows with
        | u :: _ =>
            Some (refuse (gpu +:+ " has " +:+ u_status u +:+ " process user="
                    +:+ owner_text (u_process u) +:+ " pid=" +:+ str_of_Z (p_pid (u_process u)))
                   (key +:+ ":process:" +:+ u_status u))
        | [] =>
            let exclusive := bool_decide (r_mode r = MODE_EXCLUSIVE) in
            match (if exclusive then rows else []) with
            | u :: _ =>
                Some (refuse ("exclusive " +:+ gpu +:+ " still has process user="
                        +:+ owner_text (u_process u) +:+ " pid=" +:+ str_of_Z (p_pid (u_process u)))
                       (key +:+ ":exclusive-process"))
            | [] =>
                match memory_refusal c r index device with
                | Some refusal => Some refusal
                | None =>
                    if bool_decide (v_status state = GPU_LIVE_BUSY)
                       && (exclusive || bool_decide (rows = []))
                    then
                      let reason :=
                        if bool_decide (v_reason state = "")
                        then "activity is present but process ownership is unavailable"
                        else v_reason state in
                      Some (refuse (gpu +:+ " is busy: " +:+ reason) (key +:+ ":busy"))
                    else None
                end
            end
        end
  | _, _ => Some (refuse (gpu +:+ " live telemetry is unavailable") (key +:+ ":telemetry"))
  end.

(** The first refusal of the selected GPUs. *)
Fixpoint first_refusal (f : Z → option launch_decision) (gpus : list Z) : option launch_decision :=
  match gpus with
  | [] => None
  | g :: gpus => match f g with Some d => Some d | None => first_refusal f gpus end
  end.

Section Assess.
Variable container_uid_allowed : string → Z → bool.

Definition assess_job_launch (c : config) (r : reservation) (snapshots : list gpu_snapshot)
    (active_reservations : list reservation) (checked_at : datetime) : launch_decision :=
  let live := assess_gpu_live_states snapshots (gpu_count c) in
  let usage := classify_process_usage container_uid_allowed snapshots active_reservations checked_at in
  let selected := r_gpus r in
  if bool_decide (selected = [])
  then refuse "reservation has no GPU assignment" "invalid-assignment"
  else match first_refusal (gpu_refusal c r snapshots live usage) selected with
       | Some refusal => refusal
       | None => LaunchGuardDecision true "" "" (cuda_visible_device_tokens selected snapshots)
       end.
End Assess.

(** ** What a positive answer promises *)

Section Ready.
Variable allowed : string → Z → bool.

(** The memory the launch needs on a device, [None] when it declares nothing. *)
Definition launch_memory (c : config) (r : reservation) (d : gpu_snapshot) : option Z :=
  match _positive_int (r_expected_memory_mb r) with
  | Some m => Some m
  | None =>
      if bool_decide (r_mode r = MODE_EXCLUSIVE) then None
      else Some (inferred_share_memory_mb (Z.max 0 (g_memory_total_mb d - shared_memory_reserve_mb c))
                   (max_shared_users c) (reservation_share_units (r_share_units r) (max_shared_users c)))
  end.

(** One selected GPU is clear for the job. *)
Record gpu_clear (c : config) (r : reservation) (snapshots : list gpu_snapshot)
    (current : list reservation) (g : Z) (d : gpu_snapshot) : Prop := GpuClear {
  gc_device : device_at snapshots g = Some d;
  gc_configured : 0 ≤ g < gpu_count c;
  gc_source : g_source d ≠ "none";
  gc_telemetry : has_process_telemetry d = true;
  gc_identifier : g_source d = "nvml" → has_stable_device_identifier d = true;
  gc_processes p : p ∈ g_processes d → _is_system_process p = true ∨ authorized allowed g p current;
  gc_exclusive p : r_mode r = MODE_EXCLUSIVE → p ∈ g_processes d → _is_system_process p = true;
  gc_memory m : launch_memory c r d = Some m →
    0 < g_memory_total_mb d ∧ m ≤ launch_headroom c d;
  gc_idle : (∀ p, p ∈ g_processes d → _is_system_process p = true) → ¬ loaded d;
}.

Lemma memory_refusal_None c r g d :
  memory_refusal c r g d = None ↔
  ∀ m, launch_memory c r d = Some m → 0 < g_memory_total_mb d ∧ m ≤ launch_headroom c d.
Proof.
  unfold memory_refusal, launch_memory, _inferred_share_memory.
  destruct (_positive_int (r_expected_memory_mb r)) as [m|]; simpl.
  - rewrite andb_false_r. destruct (Z.leb_spec (g_memory_total_mb d) 0).
    { split; [done|]. intros H'. destruct (H' m eq_refl). lia. }
    destruct (Z.ltb_spec (launch_headroom c d) m); split; try done.
    + intros H'. destruct (H' m eq_refl). lia.
    + intros _ ? [= <-]. lia.
  - rewrite andb_true_r. case_bool_decide; simpl; [by split|].
    destruct (Z.leb_spec (g_memory_total_mb d) 0).
    { split; [done|]. intros H'. destruct (H' _ eq_refl). lia. }
    set (m := inferred_share_memory_mb _ _ _). destruct (Z.ltb_spec (launch_headroom c d) m); split; try done.
    + intros H'. destruct (H' m eq_refl). lia.
    + intros _ ? [= <-]. lia.
Qed.

(** Filtering by a status that tells system processes apart. *)
Lemma rows_spec snapshots reservations at_ g d :
  device_at snapshots g = Some d →
  let current := current_reservations reservations at_ in
  let rows := filter (λ u, u_status u ≠ USAGE_SYSTEM)
    (default [] (classify_process_usage allowed snapshots reservations at_ !! g)) in
  (rows = [] ↔ ∀ p, p ∈ g_processes d → _is_system_process p = true) ∧
  (filter (λ u, u_status u ≠ USAGE_AUTHORIZED) rows = [] ↔
     ∀ p, p ∈ g_processes d → _is_system_process p = true ∨ authorized allowed g p current).
Proof.
  intros Hd. cbv zeta. rewrite classify_lookup, Hd. simpl.
  set (current := current_reservations reservations at_).
  assert (Hin : ∀ u, u ∈ sort_by usage_leb ((λ p, _classify_process allowed g p current) <$> g_processes d) ↔
    ∃ p, p ∈ g_processes d ∧ u = _classify_process allowed g p current).
  { intros u. rewrite elem_of_sort_by, list_elem_of_fmap. naive_solver. }
  split.
  - rewrite filter_nil_iff. split.
    + intros H p Hp. apply (classify_status allowed g p current). apply dec_stable, H, Hin. eauto.
    + intros H u (p & Hp & ->)%Hin Hs. apply Hs, classify_status. by apply H.
  - rewrite filter_nil_iff. split.
    + intros H p Hp. destruct (_is_system_process p) eqn:E; [by left|right].
      destruct (classify_status allowed g p current) as [Hs Ha].
      assert (Hu : u_status (_classify_process allowed g p current) = USAGE_AUTHORIZED).
      { apply dec_stable, H, list_elem_of_filter. split; [by rewrite Hs, E|]. apply Hin. eauto. }
      by apply Ha in Hu as [_ ?].
    + intros H u [Hs (p & Hp & ->)%Hin]%list_elem_of_filter Hn.
      destruct (classify_status allowed g p current) as [Hs' Ha]. rewrite Hs' in Hs.
      destruct (H p Hp) as [?|?]; [done|]. apply Hn, Ha. split; [by apply not_true_is_false|done].
Qed.

Lemma gpu_refusal_None c r snapshots reservations at_ g :
  gpu_refusal c r snapshots (assess_gpu_live_states snapshots (gpu_count c))
    (classify_process_usage allowed snapshots reservations at_) g = None ↔
  ∃ d, gpu_clear c r snapshots (current_reservations reservations at_) g d.
Proof.
  unfold gpu_refusal. rewrite live_at_assess.
  destruct (device_at snapshots g) as [d|] eqn:Hd.
  2:{ split; [done|]. intros [d [E _ _ _ _ _ _ _ _]]. congruence. }
  case_bool_decide as Hg; [|split; [done|by intros [d' []]]].
  assert (Hsame : ∀ d', device_at snapshots g = Some d' → d' = d) by congruence.
  destruct (decide (g_source d = "none")) as [Hs|Hs].
  { rewrite (bool_decide_eq_true_2 (g_source d = "none")) by done. simpl. split; [done|].
    intros [d' [E _ ? _ _ _ _ _ _]]. by rewrite (Hsame d' E) in *. }
  destruct (live_state_status g d Hs) as [Hunk Hbusy].
  generalize dependent (live_state g (Some d)). intros state Hunk Hbusy.
  rewrite !bool_decide_eq_false_2 by done. simpl.
  destruct (rows_spec snapshots reservations at_ g d Hd) as [Hrows Hauth].
  set (rows := filter _ (default [] _)) in *.
  split.
  - destruct (has_process_telemetry d) eqn:Ht; [|done]. simpl.
    destruct (bool_decide (g_source d = "nvml") && negb (has_stable_device_identifier d)) eqn:Hid; [done|].
    destruct (filter _ rows) eqn:Hf; [|done].
    destruct (if bool_decide (r_mode r = MODE_EXCLUSIVE) then rows else []) eqn:Hex; [|done].
    destruct (memory_refusal c r g d) eqn:Hm; [done|].
    destruct (bool_decide (v_status state = GPU_LIVE_BUSY)
      && (bool_decide (r_mode r = MODE_EXCLUSIVE) || bool_decide (rows = []))) eqn:Hb; [done|].
    intros _. exists d.
    pose proof (proj1 (memory_refusal_None c r g d) Hm) as Hmem.
    assert (Hexr : r_mode r = MODE_EXCLUSIVE → rows = []) by (intros E; by rewrite bool_decide_eq_true_2 in Hex).
    constructor; try done.
    + intros E. rewrite E in Hid. simpl in Hid. by apply negb_false_iff.
    + by apply Hauth.
    + intros p E Hp. by apply Hrows; [apply Hexr|].
    + intros Hall Hl. apply Hrows in Hall.
      rewrite (bool_decide_eq_true_2 (v_status state = _)) in Hb by (apply Hbusy; by right).
      by rewrite (bool_decide_eq_true_2 (rows = [])), orb_true_r in Hb.
  - intros [d' [E _ _ Ht Hid Hp Hx Hm Hi]]. rewrite (Hsame d' E) in *. clear d' E Hsame.
    rewrite Ht. simpl.
    replace (bool_decide (g_source d = "nvml") && negb (has_stable_device_identifier d)) with false.
    2:{ case_bool_decide as E; [|done]. by rewrite Hid. }
    rewrite (proj2 Hauth Hp).
    assert (Hexr : r_mode r = MODE_EXCLUSIVE → rows = []) by (intros ?; apply Hrows; eauto).
    replace (if bool_decide (r_mode r = MODE_EXCLUSIVE) then rows else []) with (@nil process_usage)
      by (case_bool_decide; [by rewrite Hexr|done]).
    rewrite (proj2 (memory_refusal_None c r g d) Hm).
    destruct (decide (rows = [])) as [Hnil|Hne].
    + rewrite (bool_decide_eq_false_2 (v_status _ = _)); [done|]. intros Hbu. apply Hbusy in Hbu as [Hbu|Hl].
      * destruct Hbu as (p & Hin & Hsys). by rewrite (proj1 Hrows Hnil p Hin) in Hsys.
      * by apply Hi; [apply Hrows|].
    + rewrite (bool_decide_eq_false_2 (r_mode r = MODE_EXCLUSIVE)) by auto.
      rewrite (bool_decide_eq_false_2 (rows = [])) by done. by rewrite andb_false_r.
Qed.

Lemma first_refusal_None f gpus : first_refusal f gpus = None ↔ ∀ g, g ∈ gpus → f g = None.
Proof.
  induction gpus as [|g gpus IH]; simpl; [split; [by intros _ ? ?%not_elem_of_nil|done]|].
  destruct (f g) eqn:E.
  - split; [done|]. intros H. rewrite (H g) in E by left. done.
  - rewrite IH. split; [intros H x [->|Hx]%elem_of_cons; auto|intros H x Hx; apply H; by right].
Qed.

Lemma first_refusal_not_ready c r snapshots live usage gpus d :
  first_refusal (gpu_refusal c r snapshots live usage) gpus = Some d → ld_ready d = false.
Proof.
  induction gpus as [|g gpus IH]; simpl; [done|].
  destruct (gpu_refusal c r snapshots live usage g) as [d'|] eqn:E; [|exact IH]. intros [= <-].
  revert E. unfold gpu_refusal, memory_refusal, refuse. repeat case_match; intros; by simplify_eq.
Qed.

Lemma launch_ready c r snapshots reservations at_ :
  ld_ready (assess_job_launch allowed c r snapshots reservations at_) = true ↔
  r_gpus r ≠ [] ∧ ∀ g, g ∈ r_gpus r →
    ∃ device, gpu_clear c r snapshots (current_reservations reservations at_) g device.
Proof.
  unfold assess_job_launch. case_bool_decide as Hn; simpl; [split; [done|by intros [? _]]|].
  destruct (first_refusal _ (r_gpus r)) as [d|] eqn:E.
  - rewrite (first_refusal_not_ready _ _ _ _ _ _ _ E). split; [done|].
    intros [_ H]. enough (first_refusal (gpu_refusal c r snapshots (assess_gpu_live_states snapshots (gpu_count c))
      (classify_process_usage allowed snapshots reservations at_)) (r_gpus r) = None) by congruence.
    apply first_refusal_None. intros g Hg. by apply gpu_refusal_None, H.
  - simpl. split; [intros _|done]. split; [done|]. intros g Hg. apply gpu_refusal_None.
    by apply (proj1 (first_refusal_None _ _) E).
Qed.

(** C23: the launch guard. A job is ready exactly when it has a GPU and every one of
    its GPUs is clear: live telemetry with its processes and, from NVML, a stable
    identifier is there; each process is of the system or belongs to a user whose
    reservation holds this GPU now, none but system processes when the job is
    exclusive; the declared or inferred memory fits what is free beyond the
    reserve; and a GPU that only system processes use is not loaded. The command
    then sees exactly its GPUs, all by their stable identifiers or all by index. *)
Theorem launch_ready_iff c r snapshots reservations at_ :
  let d := assess_job_launch allowed c r snapshots reservations at_ in
  (ld_ready d = true ↔
     r_gpus r ≠ [] ∧ ∀ g, g ∈ r_gpus r →
       ∃ device, gpu_clear c r snapshots (current_reservations reservations at_) g device) ∧
  (ld_ready d = true →
     ld_cuda_visible_devices d = (str_of_Z <$> r_gpus r) ∨
     Forall2 (λ g token, ∃ device, device_at snapshots g = Some device ∧
                has_stable_device_identifier device = true ∧ token = g_device_uuid device)
       (r_gpus r) (ld_cuda_visible_devices d)).
Proof.
  cbv zeta. split; [apply launch_ready|]. unfold assess_job_launch.
  case_bool_decide; simpl; [done|].
  destruct (first_refusal _ (r_gpus r)) as [d|] eqn:E.
  { by rewrite (first_refusal_not_ready _ _ _ _ _ _ _ E). }
  intros _. simpl. unfold cuda_visible_device_tokens.
  destruct (mapM _ (r_gpus r)) as [tokens|] eqn:Em; [right|by left].
  apply mapM_Some in Em. eapply Forall2_impl; [exact Em|]. simpl. intros g t Ht.
  apply bind_Some in Ht as (dev & Hdev & Ht). destruct (has_stable_device_identifier dev) eqn:Hst; [|done].
  simplify_eq. by exists dev.
Qed.
End Ready.
