(* ===== verification/LaunchSafety.v ===== *)
(** * LaunchSafety: which jobs may start, in the states the scheduler reaches

    [_launch_guard_eligibility] of [src/src/bk/worker.py] combines a ledger with
    telemetry. In a reachable ledger the launch guard and the schedule together
    keep other users off the GPUs of a job that starts. *)

From S2P Require Import Prelude PyBase Json Granularity Timeparse Models Sharing Config.
From S2P Require Import ScheduleIndex Availability Safety Maintenance Jobs.
From S2P Require Import Search Booking System Gpu Usage LaunchGuard.

Section Eligibility.
Variable container_uid_allowed : string → Z → bool.

(** One decision for each due job of the actor, by reservation id. *)
Definition launch_decisions (c : config) (l : ledger) (a : actor) (now : datetime)
    (devices : list gpu_snapshot) : list (string * launch_decision) :=
  (λ r, (r_id r, assess_job_launch container_uid_allowed c r devices (list_active l now) now))
    <$> _due_pending_jobs l a now.

(** A dict that maps an id to the last decision made for it. *)
Definition decision_of (decisions : list (string * launch_decision)) (id : string)
    : option launch_decision :=
  snd <$> last (filter (λ d, d.1 = id) decisions).

(** What the transaction that records the decisions is told. *)
Definition note_of (decisions : list (string * launch_decision)) (id : string)
    : option guard_note :=
  d ← decision_of decisions id; Some (GuardNote (ld_ready d) (ld_reason d) (ld_key d)).

(** The ids of the result, in the order of the ledger. *)
Definition eligible_of (decisions : list (string * launch_decision)) : list string :=
  filter (λ id, ld_ready <$> decision_of decisions id = Some true) (remove_dups (fst <$> decisions)).

(** The ledger is loaded, the snapshot taken, the decisions are recorded in a
    transaction of its own on the ledger as it is then. *)
Definition _launch_guard_eligibility (c : config) (loaded : ledger) (a : actor) (now : datetime)
    (devices : list gpu_snapshot) (stored : ledger)
    : M (mutation (list string * Z * list string * list (string * list string))) :=
  if bool_decide (_due_pending_jobs loaded a now = [])
  then mret (stored, ([], 0, [], []), [], false)
  else
    let decisions := launch_decisions c loaded a now devices in
    '(l, notices, logs, changed) ← record_guard_mutate a (note_of decisions) now stored;
    let eligible := eligible_of decisions in
    let waiting := Z.of_nat (length (remove_dups (fst <$> decisions))) - Z.of_nat (length eligible) in
    let launch_devices :=
      omap (λ id, d ← decision_of decisions id;
                  if ld_ready d && negb (bool_decide (ld_cuda_visible_devices d = []))
                  then Some (id, ld_cuda_visible_devices d) else None)
           (remove_dups (fst <$> decisions)) in
    mret (l, (eligible, waiting, notices, launch_devices), logs, changed).

Lemma forward_launch_guard c loaded a now devices stored :
  forward (_launch_guard_eligibility c loaded a now devices stored).
Proof.
  unfold _launch_guard_eligibility. case_bool_decide; [apply forward_ret|].
  apply forward_bind; [apply forward_record_guard|forward_work].
Qed.
End Eligibility.

(** ** What eligibility promises *)

Section Promise.
Variable allowed : string → Z → bool.

(** The process belongs to the user of a shared reservation that holds the GPU, by
    its owner or, in a container of root, as the only user it can be attributed to. *)
Definition of_shared_holder (l : ledger) (g : Z) (now : datetime) (p : gpu_process) : Prop :=
  ∃ r, r ∈ l_reservations l ∧ holds_at g now r ∧ r_mode r ≠ MODE_EXCLUSIVE ∧
    (p_uid p = Some (r_uid r) ∨
     (p_uid p = Some 0 ∧ p_container_id p ≠ "" ∧
      allowed (p_container_runtime p) (r_uid r) = true)).

Lemma elem_of_current l g now r :
  r ∈ current_reservations (list_active l now) now → g ∈ r_gpus r →
  r ∈ l_reservations l ∧ holds_at g now r.
Proof.
  intros [(Ha & Hs & He) (Hin & _ & _)%elem_of_records]%list_elem_of_filter Hg. done.
Qed.

Lemma authorized_holder l g now p :
  authorized allowed g p (current_reservations (list_active l now) now) →
  ∃ r, r ∈ l_reservations l ∧ holds_at g now r ∧
    (p_uid p = Some (r_uid r) ∨
     (p_uid p = Some 0 ∧ p_container_id p ≠ "" ∧
      allowed (p_container_runtime p) (r_uid r) = true)).
Proof.
  intros [(r & Hr & Hg & Hu)|(Hu & _ & Hc & r & [(Hg & _ & Hal) Hr]%list_elem_of_filter & _)];
    exists r; destruct (elem_of_current l g now r Hr Hg); eauto 10.
Qed.

Lemma eligible_ready c l a now devices r :
  NoDup (ids l) → r ∈ l_reservations l →
  r_id r ∈ eligible_of (launch_decisions allowed c l a now devices) →
  r ∈ _due_pending_jobs l a now ∧
  ld_ready (assess_job_launch allowed c r devices (list_active l now) now) = true.
Proof.
  intros Hnd Hin [Hd Hx]%list_elem_of_filter. apply fmap_Some in Hd as (d & Hd & Hready).
  unfold decision_of in Hd. apply fmap_Some in Hd as ([i d'] & Hlast & E). simpl in E. subst d'.
  rewrite last_lookup in Hlast. apply list_elem_of_lookup_2, list_elem_of_filter in Hlast as [Hi Hm].
  simpl in Hi. subst i. apply list_elem_of_fmap in Hm as (r' & E & Hr'). simplify_eq.
  assert (r = r') as <-; [|done].
  pose proof Hr' as [_ Hin']%list_elem_of_filter. by apply (NoDup_fmap_inj r_id (l_reservations l)).
Qed.

(** C5: a job that may start meets nobody else. In every ledger the calls produce,
    at an instant not before the last clock reading, each GPU of a job found
    eligible is held by the job's own reservation; when that is exclusive, no other
    reservation holds the GPU and only system processes run on it; otherwise every
    process there is of the system or of a user with a shared reservation that
    holds this GPU now. *)
Theorem eligible_job_alone `{LocalTime} c l logs w T a now devices stored w1
    l' eligible waiting notices launch_devices logs' ch w2 r g :
  valid_slot (slot_minutes c) → 0 ≤ max_shared_users c → reachable c l logs w →
  read_by T w → T ≤ now →
  _launch_guard_eligibility allowed c l a now devices stored w1
    = (Ok (l', (eligible, waiting, notices, launch_devices), logs', ch), w2) →
  r ∈ l_reservations l → r_id r ∈ eligible → g ∈ r_gpus r →
  r_uid r = a_uid a ∧ holds_at g now r ∧
  (r_mode r = MODE_EXCLUSIVE → ∀ r', r' ∈ l_reservations l → holds_at g now r' → r' = r) ∧
  ∃ d, device_at devices g = Some d ∧
    ∀ p, p ∈ g_processes d → _is_system_process p = false →
      r_mode r ≠ MODE_EXCLUSIVE ∧ of_shared_holder l g now p.
Proof.
  intros Hslot Hcap Hreach HT Hnow Hel Hin Hid Hg.
  destruct (reachable_inv c l logs w Hslot Hcap Hreach) as [Hok _ _ Hsafe _].
  assert (He : eligible = [] ∨ eligible = eligible_of (launch_decisions allowed c l a now devices)).
  { revert Hel. unfold _launch_guard_eligibility. case_bool_decide.
    - intros E. injection E as <- <- <- <- <- <- <- <-. by left.
    - intros (y & w' & _ & Hk)%M_bind_Ok. destruct y as [[[? ?] ?] ?].
      injection Hk as <- <- <- <- <- <- <- <-. by right. }
  destruct He as [->| ->]; [by apply not_elem_of_nil in Hid|].
  apply eligible_ready in Hid as [Hdue Hready]; [|apply (lo_ids l Hok)|done].
  apply list_elem_of_filter in Hdue as [(Hu & Ha & _ & Hs & Hend) _].
  assert (Hh : holds_at g now r) by done.
  assert (Halone : ∀ r1 r2, r1 ∈ l_reservations l → r2 ∈ l_reservations l → holds_at g now r1 →
    holds_at g now r2 → r_mode r1 = MODE_EXCLUSIVE → r1 = r2).
  { intros r1 r2. eapply exclusive_alone_at. by apply (Hsafe T HT g now). }
  split; [done|]. split; [done|]. split; [intros Hm r' ? ?; symmetry; by apply Halone|].
  apply launch_ready in Hready as [_ Hclear]. destruct (Hclear g Hg) as (d & Hd).
  exists d. split; [apply Hd|]. intros p Hp Hsys.
  assert (Hx : r_mode r ≠ MODE_EXCLUSIVE) by (intros Hm; by rewrite (gc_exclusive _ _ _ _ _ _ _ Hd p Hm Hp) in Hsys).
  split; [done|]. destruct (gc_processes _ _ _ _ _ _ _ Hd p Hp) as [?|Hau]; [congruence|].
  destruct (authorized_holder _ _ _ _ Hau) as (r' & Hin' & Hh' & Hown). exists r'.
  split; [done|]. split; [done|]. split; [|done]. intros Hm. apply Hx.
  by rewrite <- (Halone r' r Hin' Hin Hh' Hh Hm).
Qed.
End Promise.

(** ** Example *)

#[local] Existing Instance utc_text.

(** Two idle GPUs; the X server runs on the first. *)
Definition idle_devices : list gpu_snapshot :=
  let xorg := GpuProcessSnapshot 900 (Some 0) "root" "/usr/lib/xorg/Xorg :0" 40 (Some 0) "G" "" None
                "host" "" "" in
  [GpuSnapshot 0 "sim" 40 81920 (Some 0) None [xorg] "simulation" (Some true) (Some true) "GPU-a";
   GpuSnapshot 1 "sim" 0 81920 (Some 0) None [] "simulation" (Some true) (Some true) "GPU-b"].

Definition queued_job : ledger * list log_item * world := from_empty [Add job_request].

Lemma eligible_job_alone_witness :
  ∃ l' logs' ch w2 r d,
    _launch_guard_eligibility (λ _ _, false) example_config queued_job.1.1 (Actor 1000 "ada") noon
      idle_devices queued_job.1.1 queued_job.2
    = (Ok (l', (["id0"], 0, [], [("id0", ["GPU-a"])]), logs', ch), w2) ∧
    r ∈ l_reservations queued_job.1.1 ∧ r_id r = "id0" ∧ r_gpus r = [0] ∧
    device_at idle_devices 0 = Some d ∧
    ∀ p, p ∈ g_processes d → _is_system_process p = false → r_mode r ≠ MODE_EXCLUSIVE.
Proof.
  destruct (l_reservations queued_job.1.1 !! 0%nat) as [r|] eqn:Hr; [|by vm_compute in Hr].
  assert (Hin : r ∈ l_reservations queued_job.1.1) by by eapply list_elem_of_lookup_2.
  assert (E : r_id r = "id0" ∧ r_gpus r = [0]) by (vm_compute in Hr; injection Hr as <-; done).
  destruct E as [Hid Hg].
  destruct (_launch_guard_eligibility (λ _ _, false) example_config queued_job.1.1 (Actor 1000 "ada")
    noon idle_devices queued_job.1.1 queued_job.2) as [[[[[l' [[[el wt] nt] dv]] lg] ch]|e] w2] eqn:He.
  2:{ apply (f_equal (λ x, match x.1 with Ok _ => true | Raise _ => false end)) in He. by vm_compute in He. }
  assert (Ev : el = ["id0"] ∧ wt = 0 ∧ nt = [] ∧ dv = [("id0", ["GPU-a"])]).
  { pose proof (f_equal (λ x, match x.1 with Ok (_, e, _, _) => Some e | Raise _ => None end) He) as Ev.
    vm_compute in Ev. injection Ev as <- <- <- <-. repeat split; reflexivity. }
  destruct Ev as (-> & -> & -> & ->).
  destruct (eligible_job_alone (λ _ _, false) example_config queued_job.1.1 queued_job.1.2 queued_job.2 noon
    (Actor 1000 "ada") noon idle_devices queued_job.1.1 queued_job.2 l' ["id0"] 0 []
    [("id0", ["GPU-a"])] lg ch w2 r 0) as (_ & _ & _ & d & Hd & Hp).
  - decide_now.
  - by vm_compute.
  - apply (from_empty_reachable [Add job_request]).
  - intros i _. vm_compute. discriminate.
  - done.
  - exact He.
  - done.
  - rewrite Hid. by left.
  - rewrite Hg. by left.
  - exists l', lg, ch, w2, r, d. split; [done|]. split; [done|]. split; [done|]. split; [done|].
    split; [done|]. intros p Hin' Hs. by destruct (Hp p Hin' Hs).
Defined.
