(* ===== verification/JobSpecs.v ===== *)
(** * JobSpecs: private job specifications ([src/src/bk/worker.py])

    The command of a job, its directory and its [PATH] are kept in a file only its
    owner can read; the shared ledger holds the digest of that file. This file
    models the validation of a submission, the digest, writing and reading of the
    specification, and the removal of specifications no job needs any more. *)

From S2P Require Import Prelude PyBase Json Files Granularity Timeparse Models.
From S2P Require Import Sha256 Requests Maintenance Jobs Gpu.
From Stdlib Require Import SpecFloat.

Definition JOB_SPEC_VERSION : Z := 2.
Definition LEGACY_JOB_SPEC_VERSION : Z := 1.
Definition MAX_JOB_PATH_BYTES : Z := 32 * 1024.
Definition JOB_SPEC_ORPHAN_GRACE_SECONDS : Z := 24 * 60 * 60.

(** [len(s.encode("utf-8"))] *)
Definition byte_length (s : string) : Z := Z.of_nat (length (utf8_encode (chars s))).

Definition has_nul (s : string) : bool := bool_decide (ascii_of_N 0 ∈ chars s).

Record identity := JobSubmissionIdentity {
  js_digest : string;
  js_summary : string;
  js_legacy_digests : list string;
}.

Record spec_reference := JobSpecReference {
  sr_spec_id : string;
  sr_digest : string;
  sr_summary : string;
}.

(** ** Validation *)

(** A list of texts, [None] for any other value. *)
Definition text_items (v : json) : option (list string) :=
  match v with
  | JList l => mapM (λ v, match v with JStr s => Some s | _ => None end) l
  | _ => None
  end.

Section Validation.
(** [Path(cwd).is_dir()] *)
Variable is_dir : string → bool.

Definition _validate_submission_payload (raw_argv cwd : json) (require_working_directory : bool)
    : res (list string * string) :=
  match text_items raw_argv with
  | None | Some [] => Raise (BookingError "invalid job argv")
  | Some (executable :: arguments) =>
      let argv := executable :: arguments in
      if (256 <? Z.of_nat (length argv)) || existsb has_nul argv
      then Raise (BookingError "invalid job argv")
      else if bool_decide (executable = "") || (64 * 1024 <? sumZ byte_length argv)
      then Raise (BookingError "invalid job argv")
      else match cwd with
      | JStr cwd =>
          if negb (String.prefix "/" cwd) || has_nul cwd
          then Raise (BookingError "job working directory must be absolute")
          else if 4096 <? byte_length cwd
          then Raise (BookingError "invalid job working directory")
          else if require_working_directory && negb (is_dir cwd)
          then Raise (BookingError ("job working directory does not exist: " +:+ cwd))
          else Ok (argv, cwd)
      | _ => Raise (BookingError "job working directory must be absolute")
      end
  end.
End Validation.

Definition is_control_path (c : ascii) : bool := is_control c || (code c =? 127)%N.

(** The environment of a job is its [PATH] alone. *)
Definition _validate_job_environment (raw : json) : res string :=
  match raw with
  | JObj kvs =>
      if negb (bool_decide (kvs.*1 = ["PATH"]))
      then Raise (BookingError "job environment must contain only PATH")
      else match dict_get "PATH" kvs with
      | JStr path =>
          if MAX_JOB_PATH_BYTES <? byte_length path
          then Raise (BookingError ("job PATH must not exceed " +:+ str_of_Z MAX_JOB_PATH_BYTES
                 +:+ " bytes"))
          else if existsb is_control_path (chars path)
          then Raise (BookingError "job PATH contains a control character")
          else Ok path
      | _ => Raise (BookingError "job PATH must be text")
      end
  | _ => Raise (BookingError "job environment must contain only PATH")
  end.

(** [path] is the caller's [PATH], [defpath] the [os.defpath] of the platform. *)
Definition capture_job_environment (defpath : string) (path : option string) : res string :=
  _validate_job_environment (JObj [("PATH", JStr (default defpath path))]).

(** ** The digest *)

Definition environment_json (path : string) : json := JObj [("PATH", JStr path)].

(** [payload.get("version") == JOB_SPEC_VERSION] of an integer. *)
Definition has_environment (payload : list (string * json)) : bool :=
  match dict_get "version" payload with JInt z => z =? JOB_SPEC_VERSION | _ => false end.

(** The members the digest covers; a version 1 payload has no environment. *)
Definition signed_members (payload : list (string * json)) : json :=
  let get key := (key, dict_get key payload) in
  JObj ([get "version"; get "uid"; get "argv"; get "cwd"]
        ++ if has_environment payload then [get "environment"] else []).

Definition _job_spec_digest (payload : list (string * json)) : res string :=
  raw ← dumps_nan signed (signed_members payload); Ok (sha256_hexdigest (text raw)).

(** [Path(s).name]: the last component that is not a dot. *)
Fixpoint split_on (c : ascii) (word : list ascii) (l : list ascii) : list (list ascii) :=
  match l with
  | [] => [reverse word]
  | x :: l => if Ascii.eqb x c then reverse word :: split_on c [] l else split_on c (x :: word) l
  end.

Definition path_name (s : string) : string :=
  text (default [] (last (filter (λ part, part ≠ [] ∧ part ≠ ["."%char]) (split_on "/" [] (chars s))))).

(** [Path(s).name or s] *)
Definition name_or_self (s : string) : string :=
  if bool_decide (path_name s = "") then s else path_name s.

(** A description of the command that shows none of its other arguments. *)
Definition _job_command_summary (argv : list string) : string :=
  let executable := name_or_self (hd "" argv) in
  let '(detail, consumed) :=
    if String.prefix "python" (lower executable)
    then match tail argv with
         | "-m" :: module :: _ => (" -m " +:+ module, 3)
         | "-c" :: _ => (" -c", 2)
         | argument :: _ =>
             if String.prefix "-" argument then ("", 1) else (" " +:+ path_name argument, 2)
         | [] => ("", 1)
         end
    else ("", 1) in
  let hidden := Z.max 0 (Z.of_nat (length argv) - consumed) in
  let suffix := if hidden =? 0 then "" else " (+" +:+ str_of_Z hidden +:+ " args)" in
  clip 200 (executable +:+ detail +:+ suffix).

(** ** Submissions *)

Definition argv_json (argv : list string) : json := JList (JStr <$> argv).

Definition legacy_payload (a : actor) (argv : list string) (cwd : string) : list (string * json) :=
  [("version", JInt LEGACY_JOB_SPEC_VERSION); ("uid", JInt (a_uid a)); ("argv", argv_json argv);
   ("cwd", JStr cwd)].

Definition submission_payload (a : actor) (argv : list string) (cwd path : string)
    : list (string * json) :=
  [("version", JInt JOB_SPEC_VERSION); ("uid", JInt (a_uid a)); ("argv", argv_json argv);
   ("cwd", JStr cwd); ("environment", environment_json path)].

(** [getuid] is the user the process runs as. *)
Definition _job_submission_components (is_dir : string → bool) (defpath : string) (getuid : Z)
    (a : actor) (command_argv : list string) (working_directory : string)
    (require_working_directory : bool) (path : option string)
    : res (list string * string * string * identity) :=
  if negb (a_uid a =? getuid)
  then Raise (BookingError "job spec actor must match the current process UID")
  else
    '(argv, cwd) ← _validate_submission_payload is_dir (argv_json command_argv)
                     (JStr working_directory) require_working_directory;
    environment ← capture_job_environment defpath path;
    legacy_digest ← _job_spec_digest (legacy_payload a argv cwd);
    digest ← _job_spec_digest (submission_payload a argv cwd environment);
    Ok (argv, cwd, environment,
        JobSubmissionIdentity digest (_job_command_summary argv)
          (if bool_decide (legacy_digest = digest) then [] else [legacy_digest])).

Definition job_submission_identity (is_dir : string → bool) (defpath : string) (getuid : Z)
    (a : actor) (argv : list string) (cwd : string) (path : option string) : res identity :=
  '(_, _, _, i) ← _job_submission_components is_dir defpath getuid a argv cwd false path; Ok i.

Definition validate_job_submission (is_dir : string → bool) (defpath : string) (getuid : Z)
    (a : actor) (argv : list string) (cwd : string) (path : option string) : res identity :=
  '(_, _, _, i) ← _job_submission_components is_dir defpath getuid a argv cwd true path; Ok i.

(** ** Writing a specification *)

(** The normalised file name under the private directory. *)
Definition job_spec_path (dir spec_id : string) : res string :=
  match uuid_text spec_id with
  | Some normalized => Ok (dir +:+ "/" +:+ normalized +:+ ".json")
  | None => Raise (BookingError "invalid job spec ID")
  end.

Definition spec_payload (a : actor) (argv : list string) (cwd path spec_id digest : string)
    (created_at : datetime) : list (string * json) :=
  [("version", JInt JOB_SPEC_VERSION); ("spec_id", JStr spec_id); ("uid", JInt (a_uid a));
   ("argv", argv_json argv); ("cwd", JStr cwd); ("environment", environment_json path);
   ("created_at", JStr (to_iso created_at)); ("digest", JStr digest)].

(** [os.open] with [O_CREAT | O_EXCL] in the private directory. *)
Definition create_exclusive (path : string) : F unit :=
  fs ← get_files;
  if bool_decide (is_Some ((fs : files) !! path)) then throw (OSError "File exists")
  else device (λ _ fs, fs) <[path := []]>.

(** The body of the [try]: mode, text, synchronisation of file and directory. *)
Definition write_spec (path : string) (payload : list (string * json)) : F unit :=
  _ ← check;
  raw ← of_res (dumps_nan indented (JObj payload));
  _ ← append_bytes path (utf8_encode (raw ++ [newline]));
  _ ← check;
  check.

Definition prepare_job_spec (is_dir : string → bool) (defpath dir : string) (getuid : Z) (a : actor)
    (command_argv : list string) (working_directory : string) (path : option string)
    : F spec_reference :=
  '(argv, cwd, environment, identity) ←
    of_res (_job_submission_components is_dir defpath getuid a command_argv working_directory true path);
  spec_id ← of_M uuid4;
  now ← of_M utc_now;
  let payload := spec_payload a argv cwd environment spec_id (js_digest identity) now in
  file ← of_res (job_spec_path dir spec_id);
  _ ← check;
  _ ← create_exclusive file;
  written ← attempt (write_spec file payload);
  match written with
  | Ok _ => mret (JobSpecReference spec_id (js_digest identity) (js_summary identity))
  | Raise e => _ ← attempt (unlink file); _ ← attempt check; throw e
  end.

(** ** Reading a specification *)

(** What [fstat] reports of a file, and its content. *)
Record spec_file := SpecFile {
  sf_regular : bool;
  sf_links : Z;
  sf_uid : Z;
  sf_mode : Z;
  sf_mtime : pyfloat;
  sf_content : list ascii;
}.

(** [stat.S_IMODE(mode) & 0o077] *)
Definition shared_mode (f : spec_file) : bool := negb (Z.land (sf_mode f) 63 =? 0).

(** [int(value)] *)
Definition int_value (v : json) : res Z :=
  match v with
  | JInt z => Ok z
  | JBool b => Ok (if b then 1 else 0)
  | JStr s =>
      match int_text s with
      | Some z => Ok z
      | None => Raise (ValueError ("invalid literal for int() with base 10: " +:+ str_repr s))
      end
  | JFloat (S754_infinity _) => Raise (OverflowError "cannot convert float infinity to integer")
  | JFloat S754_nan => Raise (ValueError "cannot convert float NaN to integer")
  | JFloat x => Ok (default 0 (float_trunc x))
  | _ => Raise (TypeError "int() argument must be a string, a bytes-like object or a real number")
  end.

Definition is_spec_version (v : json) : bool :=
  match v with
  | JInt z => (z =? LEGACY_JOB_SPEC_VERSION) || (z =? JOB_SPEC_VERSION)
  | _ => false
  end.

Definition is_text (s : string) (v : json) : bool :=
  match v with JStr t => bool_decide (t = s) | _ => false end.

(** [open_spec] opens the file in the private directory: its status and content,
    or the exception of the call. *)
Definition _read_job_spec (open_spec : string → res spec_file) (dir : string) (a : actor)
    (spec_id : string) : res (list (string * json)) :=
  path ← job_spec_path dir spec_id;
  file ← open_spec path;
  if negb (sf_regular file) then Raise (BookingError "job spec is not a regular file")
  else if negb (sf_uid file =? a_uid a)
  then Raise (BookingError "job spec is not owned by the reservation UID")
  else if shared_mode file
  then Raise (BookingError "job spec must not be accessible by group or other users")
  else if 128 * 1024 <? Z.of_nat (length (sf_content file))
  then Raise (BookingError "job spec is too large")
  else match loads (sf_content file) with
  | None => Raise (ValueError "invalid JSON document")
  | Some (JObj payload) =>
      if negb (is_spec_version (dict_get "version" payload))
      then Raise (BookingError "invalid private job spec")
      else
        uid ← int_value (default (JInt (-1)) (assoc_get "uid" payload));
        if negb (uid =? a_uid a) || negb (is_text spec_id (dict_get "spec_id" payload))
        then Raise (BookingError "private job spec identity mismatch")
        else Ok payload
  | Some _ => Raise (BookingError "invalid private job spec")
  end.

(** [hmac.compare_digest] takes ASCII texts only. *)
Definition compare_digest (expected actual : string) : res bool :=
  if forallb is_ascii (chars expected) && forallb is_ascii (chars actual)
  then Ok (bool_decide (expected = actual))
  else Raise (TypeError "comparing strings with non-ASCII characters is not supported").

(** [str(d.get(key, ""))] *)
Definition str_or_empty (v : option json) : string :=
  match v with Some v => str_value v | None => "" end.

(** The command of a job: its arguments, its directory and, from a version 2
    specification, its [PATH]. *)
Definition _validated_job_payload (is_dir : string → bool) (open_spec : string → res spec_file)
    (dir : string) (a : actor) (j : job) : res (list string * string * option string) :=
  match j !! "spec_id" with
  | None | Some JNull =>
      '(argv, cwd) ← _validate_submission_payload is_dir (default JNull (j !! "argv"))
                       (default JNull (j !! "cwd")) true;
      Ok (argv, cwd, None)
  | Some spec_id =>
      payload ← _read_job_spec open_spec dir a (str_value spec_id);
      let expected := str_or_empty (j !! "digest") in
      actual ← _job_spec_digest payload;
      same ← compare_digest expected actual;
      if negb same
      then Raise (BookingError "private job spec digest does not match the shared ledger")
      else
        same ← compare_digest (str_or_empty (assoc_get "digest" payload)) actual;
        if negb same then Raise (BookingError "private job spec is internally inconsistent")
        else
          '(argv, cwd) ← _validate_submission_payload is_dir (dict_get "argv" payload)
                           (dict_get "cwd" payload) true;
          if has_environment payload
          then path ← _validate_job_environment (dict_get "environment" payload);
               Ok (argv, cwd, Some path)
          else Ok (argv, cwd, None)
  end.

(** ** Removing specifications *)

(** The private directory with what the system does on it: a [stat] or an [unlink]
    that fails, whether the file is gone or the directory cannot be synchronised. *)
Record spec_host := SpecHost {
  sh_stat_error : string → option string;
  sh_unlink_error : string → option (bool * string);
  sh_listing : gmap string spec_file → res (list string);
}.

Definition _job_spec_metadata_at (h : spec_host) (name : string) (uid : Z)
    (files : gmap string spec_file) : spec_file + string :=
  match sh_stat_error h name with
  | Some e => inr ("cannot inspect private job spec: " +:+ e)
  | None =>
      match files !! name with
      | None => inr "referenced private job spec is missing"
      | Some f =>
          if negb (sf_regular f) then inr "private job spec is not a regular file"
          else if negb (sf_links f =? 1)
          then inr ("private job spec has " +:+ str_of_Z (sf_links f) +:+ " hard links")
          else if negb (sf_uid f =? uid)
          then inr ("private job spec is not owned by UID " +:+ str_of_Z uid)
          else if shared_mode f
          then inr "private job spec is accessible by group or other users"
          else inl f
      end
  end.

(** [("removed" | "missing" | "failed", message)] *)
Inductive removal := Removed | Missing | Failed (message : string).

Definition _remove_job_spec_at (h : spec_host) (name : string) (uid : Z)
    (files : gmap string spec_file) : removal * gmap string spec_file :=
  match _job_spec_metadata_at h name uid files with
  | inr issue =>
      if bool_decide (issue = "referenced private job spec is missing") then (Missing, files)
      else (Failed issue, files)
  | inl _ =>
      match sh_unlink_error h name with
      | None => (Removed, delete name files)
      | Some (true, e) => (Failed e, delete name files)
      | Some (false, e) => (Failed e, files)
      end
  end.

Definition ends_with (suffix l : list ascii) : bool :=
  bool_decide (drop (length l - length suffix) l = suffix).

Definition _spec_id_from_filename (name : string) : option string :=
  if ends_with (chars ".json") (chars name)
  then uuid_text (text (take (length (chars name) - 5) (chars name))) else None.

(** [references[spec_id] = references.get(spec_id, False) or needed] *)
Definition merge (references : list (string * bool)) (spec_id : string) (needed : bool)
    : list (string * bool) :=
  match assoc_get spec_id references with
  | Some old =>
      (λ '(k, b), (k, if bool_decide (k = spec_id) then old || needed else b)) <$> references
  | None => references ++ [(spec_id, needed)]
  end.

(** The job of a reservation that names a specification, and the name. *)
Definition job_spec_id (r : reservation) : option (job * json) :=
  j ← r_job r; v ← j !! "spec_id"; match v with JNull => None | v => Some (j, v) end.

(** The spec ids of the user's jobs and whether one of them needs the file, in
    the order of their first job, with the warnings. *)
Definition add_reference (a : actor) (current : datetime) (acc : list (string * bool) * list string)
    (r : reservation) : res (list (string * bool) * list string) :=
  let '(references, warnings) := acc in
  match job_spec_id r with
  | None => Ok acc
  | Some (j, v) =>
      match uuid_text (str_value v) with
      | None =>
          if r_uid r =? a_uid a
          then Ok (references, warnings ++ ["reservation " +:+ clip 8 (r_id r)
                     +:+ " has an invalid private job spec ID"])
          else Ok acc
      | Some spec_id =>
          if negb (r_uid r =? a_uid a) then Ok acc
          else
            needed ← _job_spec_is_needed r j current;
            Ok (merge references spec_id needed, warnings)
      end
  end.

Fixpoint fold_res {A B} (f : B → A → res B) (b : B) (l : list A) : res B :=
  match l with
  | [] => Ok b
  | x :: l => b ← f b x; fold_res f b l
  end.

(** The counters of the result. *)
Record cleanup := JobSpecCleanupResult {
  cl_removed : Z;
  cl_retained : Z;
  cl_deferred_orphans : Z;
  cl_failed : Z;
  cl_warnings : list string;
}.

Definition file_name (spec_id : string) : string := spec_id +:+ ".json".

(** One reference: a needed file is only inspected, another one removed. *)
Definition clean_reference (h : spec_host) (uid : Z) (acc : cleanup * gmap string spec_file)
    (reference : string * bool) : cleanup * gmap string spec_file :=
  let '(JobSpecCleanupResult removed retained deferred failed warnings, files) := acc in
  let '(spec_id, needed) := reference in
  let warn message := warnings ++ [clip 8 spec_id +:+ ": " +:+ message] in
  if (needed : bool) then
    match _job_spec_metadata_at h (file_name spec_id) uid files with
    | inr issue => (JobSpecCleanupResult removed (retained + 1) deferred (failed + 1) (warn issue), files)
    | inl _ => (JobSpecCleanupResult removed (retained + 1) deferred failed warnings, files)
    end
  else
    match _remove_job_spec_at h (file_name spec_id) uid files with
    | (Removed, files) => (JobSpecCleanupResult (removed + 1) retained deferred failed warnings, files)
    | (Missing, files) => (JobSpecCleanupResult removed retained deferred failed warnings, files)
    | (Failed e, files) => (JobSpecCleanupResult removed retained deferred (failed + 1) (warn e), files)
    end.

(** [current.timestamp() - st_mtime < orphan_grace_seconds] *)
Definition is_young (current : datetime) (grace : Z) (f : spec_file) : bool :=
  flt (SFsub f_prec f_emax (total_seconds current) (sf_mtime f)) (float_of_Z grace).

(** One name of the listing: a file that looks like a specification and that no
    job of the ledger names is removed once it is old. *)
Definition clean_orphan (h : spec_host) (uid : Z) (current : datetime) (grace : Z)
    (references : list (string * bool)) (acc : cleanup * gmap string spec_file) (name : string)
    : cleanup * gmap string spec_file :=
  let '(JobSpecCleanupResult removed retained deferred failed warnings, files) := acc in
  let fail message := JobSpecCleanupResult removed retained deferred (failed + 1)
                        (warnings ++ [name +:+ ": " +:+ message]) in
  match _spec_id_from_filename name with
  | None => acc
  | Some spec_id =>
      if bool_decide (spec_id ∈ references.*1) then acc else
      match _job_spec_metadata_at h name uid files with
      | inr issue => (fail issue, files)
      | inl f =>
          if is_young current grace f
          then (JobSpecCleanupResult removed retained (deferred + 1) failed warnings, files)
          else match _remove_job_spec_at h name uid files with
          | (Removed, files) => (JobSpecCleanupResult (removed + 1) retained deferred failed warnings, files)
          | (Missing, files) => (JobSpecCleanupResult removed retained deferred failed warnings, files)
          | (Failed e, files) => (fail e, files)
          end
      end
  end.

(** [directory] is [None] when the private directory does not exist. *)
Definition cleanup_job_specs (h : spec_host) (getuid : Z) (a : actor) (l : ledger)
    (current : datetime) (grace : Z) (directory : option (gmap string spec_file))
    : res (cleanup * option (gmap string spec_file)) :=
  if negb (a_uid a =? getuid)
  then Raise (BookingError "job spec cleanup actor must match the current process UID")
  else if grace <? 0 then Raise (ValueError "job spec orphan grace must be nonnegative")
  else match directory with
  | None => Ok (JobSpecCleanupResult 0 0 0 0 [], None)
  | Some files =>
      '(references, warnings) ← fold_res (add_reference a current) ([], []) (l_reservations l);
      let start := JobSpecCleanupResult 0 0 0 (Z.of_nat (length warnings)) warnings in
      let '(result, files) := foldl (clean_reference h (a_uid a)) (start, files) references in
      match sh_listing h files with
      | Raise (OSError e) =>
          let '(JobSpecCleanupResult removed retained deferred failed warnings) := result in
          Ok (JobSpecCleanupResult removed retained deferred (failed + 1)
                (warnings ++ ["cannot scan private job specs: " +:+ e]), Some files)
      | Raise e => Raise e
      | Ok names =>
          let '(result, files) :=
            foldl (clean_orphan h (a_uid a) current grace references) (result, files) names in
          Ok (result, Some files)
      end
  end.

(** ** Canonical spec ids *)

Lemma remove_all_absent fuel c old l : c ∉ l → remove_all fuel (c :: old) l = l.
Proof.
  revert l. induction fuel as [|fuel IH]; intros [|x l] Hc; [done..|]. cbn [remove_all].
  apply not_elem_of_cons in Hc as [Hx Hl].
  rewrite bool_decide_eq_false_2; [by rewrite IH|]. cbn [length take]. congruence.
Qed.

Lemma remove_all_char fuel c l : (length l ≤ fuel)%nat → remove_all fuel [c] l = filter (λ x, x ≠ c) l.
Proof.
  revert l. induction fuel as [|fuel IH]; intros [|x l] Hf; simpl in *; try done; [lia|].
  rewrite filter_cons. destruct (decide (x = c)) as [->|Hx].
  - rewrite bool_decide_eq_true_2 by by rewrite take_0. rewrite drop_0, IH by lia.
    by rewrite decide_False by tauto.
  - rewrite bool_decide_eq_false_2 by (rewrite take_0; congruence).
    by rewrite IH, decide_True by (done || lia).
Qed.

Lemma trim_none (p : ascii → bool) l :
  Forall (λ c, p c = false) l → rev (drop_while p (rev (drop_while p l))) = l.
Proof.
  assert (Hd : ∀ l, Forall (λ c, p c = false) l → drop_while p l = l).
  { intros l' H. destruct H as [|c l' Hc]; [done|]. simpl. by rewrite Hc. }
  intros H. rewrite (Hd l H), Hd; [apply rev_involutive|]. by apply List.Forall_rev.
Qed.

Definition nibble (n i : Z) : Z := Z.land (Z.shiftr n (4 * i)) 15.

Lemma nibble_mod n i : 0 ≤ i → nibble n i = n / 16 ^ i mod 16.
Proof.
  intros Hi. unfold nibble. change 15 with (Z.ones 4). rewrite Z.land_ones by lia.
  rewrite Z.shiftr_div_pow2 by lia. by rewrite Z.pow_mul_r by lia.
Qed.

Lemma hex_digit_value d : 0 ≤ d < 16 →
  hex_value (hex_digit d) = Some d ∧ hex_digit d ∉ chars "-u:{}_xX+ " ∧ is_space (hex_digit d) = false.
Proof.
  intros Hd. assert (Hin : d ∈ seqZ 0 16) by (apply elem_of_seqZ; lia).
  revert Hd. apply (Forall_forall (λ d, 0 ≤ d < 16 → hex_value (hex_digit d) = Some d ∧
    hex_digit d ∉ chars "-u:{}_xX+ " ∧ is_space (hex_digit d) = false)  (seqZ 0 16)); [|done].
  clear. repeat constructor; decide_now.
Qed.

Lemma hex_digits_value ds acc b :
  Forall (λ d, 0 ≤ d < 16) ds → (b = true ∨ ds ≠ []) →
  hex_digits acc b (map hex_digit ds) = Some (foldl (λ a d, 16 * a + d) acc ds).
Proof.
  revert acc b. induction ds as [|d ds IH]; intros acc b Hds Hb; [by destruct Hb as [->|]|].
  apply Forall_cons in Hds as [Hd Hds]. destruct (hex_digit_value d Hd) as (Hv & Hx & _).
  cbn [map hex_digits]. rewrite bool_decide_eq_false_2.
  2:{ intros E. apply Hx. rewrite E. decide_now. }
  rewrite Hv. simpl. apply IH; [done|by left].
Qed.

Lemma foldl_nibbles n k acc :
  foldl (λ a d, 16 * a + d) acc (map (nibble n) (reverse (seqZ 0 (Z.of_nat k))))
  = acc * 16 ^ Z.of_nat k + n mod 16 ^ Z.of_nat k.
Proof.
  revert acc. induction k as [|k IH]; intros acc; [change (16 ^ Z.of_nat 0) with 1; simpl; rewrite Z.mod_1_r; lia|].
  replace (Z.of_nat (S k)) with (Z.of_nat k + 1) by lia. rewrite seqZ_app, reverse_app by lia.
  rewrite map_app, foldl_app, IH. change (seqZ (0 + Z.of_nat k) 1) with [0 + Z.of_nat k]. simpl.
  rewrite Z.add_0_l, nibble_mod, (Z.pow_add_r 16 (Z.of_nat k) 1) by lia. change (16 ^ 1) with 16. set (p := 16 ^ Z.of_nat k).
  assert (0 < p) by (apply Z.pow_pos_nonneg; lia).
  rewrite (Z.rem_mul_r n p 16) by lia. lia.
Qed.

Lemma hex_nibbles_map n : hex_nibbles n = map hex_digit (map (nibble n) (reverse (seqZ 0 32))).
Proof. unfold hex_nibbles. by rewrite map_map. Qed.

Lemma nibbles_range n : Forall (λ d, 0 ≤ d < 16) (map (nibble n) (reverse (seqZ 0 32))).
Proof.
  apply Forall_map, Forall_forall. intros i [Hi _]%elem_of_reverse%elem_of_seqZ.
  rewrite nibble_mod by lia. apply Z.mod_pos_bound. lia.
Qed.

Lemma hex_nibbles_chars n c :
  c ∈ hex_nibbles n → c ∉ chars "-u:{}_xX+ " ∧ is_space c = false.
Proof.
  rewrite hex_nibbles_map. intros (d & -> & Hd)%list_elem_of_fmap.
  pose proof (proj1 (Forall_forall _ _) (nibbles_range n) d Hd) as Hr.
  by destruct (hex_digit_value d Hr) as (_ & ? & ?).
Qed.

Lemma int16_nibbles n : 0 ≤ n < 2 ^ 128 → int16 (text (hex_nibbles n)) = Some n.
Proof.
  intros Hn.
  assert (Hd : hex_digits 0 false (hex_nibbles n) = Some n).
  { rewrite hex_nibbles_map, hex_digits_value; [|apply nibbles_range|by right].
    change 32 with (Z.of_nat 32). rewrite foldl_nibbles. f_equal.
    change (16 ^ Z.of_nat 32) with (2 ^ 128). rewrite Z.mod_small by lia. lia. }
  pose proof (hex_nibbles_chars n) as Hc.
  assert (Hlen : ∃ x y r, hex_nibbles n = x :: y :: r).
  { unfold hex_nibbles. change (reverse (seqZ 0 32)) with (31 :: 30 :: reverse (seqZ 0 30)).
    simpl. eauto. }
  unfold int16. assert (Hstrip : chars (strip (text (hex_nibbles n))) = hex_nibbles n).
  { unfold strip, text, chars. rewrite !String.list_ascii_of_string_of_list_ascii.
    apply trim_none, Forall_forall. intros c. apply Hc. }
  rewrite Hstrip. destruct Hlen as (x & y & r & E). rewrite E in *.
  assert (Hx : x ∉ chars "-u:{}_xX+ ") by (apply Hc; left).
  assert (Hy : y ∉ chars "-u:{}_xX+ ") by (apply Hc; right; left).
  assert (Hp : hex_prefixed (x :: y :: r) = Some n).
  { unfold hex_prefixed. rewrite !(bool_decide_eq_false_2 (y = _)) by (intros ->; apply Hy; decide_now).
    simpl orb. every_ascii x; exact Hd. }
  every_ascii x; first [exact Hp | destruct Hx; decide_now].
Qed.

Lemma chars_app a b : chars (a +:+ b) = chars a ++ chars b.
Proof. unfold chars. induction a as [|c a IH]; simpl; [done|]. by rewrite <- IH. Qed.

Definition uuid_form (h : list ascii) : string :=
  join "-" [text (take 8 h); text (take 4 (drop 8 h)); text (take 4 (drop 12 h));
            text (take 4 (drop 16 h)); text (drop 20 h)].

Lemma uuid_form_chars h :
  chars (uuid_form h) = take 8 h ++ "-"%char :: take 4 (drop 8 h) ++ "-"%char :: take 4 (drop 12 h)
    ++ "-"%char :: take 4 (drop 16 h) ++ "-"%char :: drop 20 h.
Proof.
  unfold uuid_form. cbn [join]. rewrite !chars_app, !chars_text. cbn [chars String.list_ascii_of_string].
  done.
Qed.


Lemma uuid_form_parts (h : list ascii) :
  take 8 h ++ take 4 (drop 8 h) ++ take 4 (drop 12 h) ++ take 4 (drop 16 h) ++ drop 20 h = h.
Proof.
  pose proof (take_drop 4 (drop 16 h)) as H16. pose proof (take_drop 4 (drop 12 h)) as H12.
  pose proof (take_drop 4 (drop 8 h)) as H8. rewrite drop_drop in H16, H12, H8. simpl in *.
  by rewrite H16, H12, H8, take_drop.
Qed.

Lemma elem_of_uuid_form c h : c ∈ chars (uuid_form h) → c = "-"%char ∨ c ∈ h.
Proof.
  rewrite uuid_form_chars. intros Hin.
  assert (Hp : c = "-"%char ∨ c ∈ take 8 h ++ take 4 (drop 8 h) ++ take 4 (drop 12 h)
    ++ take 4 (drop 16 h) ++ drop 20 h); [|by rewrite uuid_form_parts in Hp].
  revert Hin. repeat first [rewrite elem_of_app | rewrite elem_of_cons]. tauto.
Qed.

Lemma uuid_form_digits h : "-"%char ∉ h → filter (λ x, x ≠ "-"%char) (chars (uuid_form h)) = h.
Proof.
  intros Hh. assert (Hd : ∀ l : list ascii, l ⊆ h → filter (λ x, x ≠ "-"%char) l = l).
  { intros l Hl. apply list_filter_all, Forall_forall. intros c Hc ->. by apply Hh, Hl. }
  rewrite uuid_form_chars. repeat (rewrite filter_app, filter_cons, decide_False by tauto).
  assert (Ht : ∀ k m, take k (drop m h) ⊆ h) by (intros k m c Hc; eapply subseteq_drop, subseteq_take, Hc).
  rewrite !Hd by (apply Ht || apply subseteq_take || apply subseteq_drop). apply uuid_form_parts.
Qed.

(** A spec id that was normalised is its own normal form. *)
Lemma uuid_text_idemp s t : uuid_text s = Some t → uuid_text t = Some t.
Proof.
  unfold uuid_text at 1. destruct (negb _); [done|]. intros (n & _ & H)%bind_Some.
  destruct ((n <? 0) || (2 ^ 128 <=? n)) eqn:Hb; [done|].
  assert (Ht : t = uuid_form (hex_nibbles n)) by (injection H as <-; done). clear H.
  assert (Hn : 0 ≤ n < 2 ^ 128) by (bk_split; lia).
  pose proof (hex_nibbles_chars n) as Hc. pose proof (int16_nibbles n Hn) as Hi.
  assert (Hlen : length (hex_nibbles n) = 32%nat) by done.
  assert (Hall : ∀ c, c ∈ chars t → c ∉ chars "u:{}_xX+ ").
  { subst t. intros c [-> | Hin]%elem_of_uuid_form; [decide_now|].
    intros Hx. apply (proj1 (Hc c Hin)). by apply elem_of_cons; right. }
  assert (Hrem : remove_text "uuid:" (remove_text "urn:" (chars t)) = chars t).
  { assert (Hu : "u"%char ∉ chars t) by (intros Hin; apply (Hall _ Hin); decide_now).
    unfold remove_text. change (chars "urn:") with ("u"%char :: chars "rn:").
    rewrite remove_all_absent by done. change (chars "uuid:") with ("u"%char :: chars "uid:").
    by rewrite remove_all_absent. }
  assert (Hstrip : strip_braces (chars t) = chars t).
  { apply trim_none, Forall_forall. intros c Hin. unfold is_brace.
    rewrite !bool_decide_eq_false_2; [done|..]; intros ->; apply (Hall _ Hin); decide_now. }
  assert (Hdash : remove_text "-" (chars t) = hex_nibbles n).
  { unfold remove_text. change (chars "-") with ["-"%char]. rewrite remove_all_char by lia.
    subst t. apply uuid_form_digits. intros Hin. apply (proj1 (Hc _ Hin)). decide_now. }
  unfold uuid_text. rewrite Hrem, Hstrip, Hdash, Hlen. cbn iota. rewrite Hi. simpl.
  rewrite Hb. by subst t.
Qed.

(** ** The text that is signed *)

Lemma be_bytes_range n z : Forall (λ b, 0 ≤ b < 256) (be_bytes n z).
Proof.
  revert z. induction n as [|n IH]; intros z; cbn [be_bytes]; [constructor|]. constructor; [|apply IH].
  change 255 with (Z.ones 8). rewrite Z.land_ones by lia. apply Z.mod_pos_bound. lia.
Qed.

Lemma hex_digit_ascii d : 0 ≤ d < 16 → is_ascii (hex_digit d) = true.
Proof.
  intros Hd. unfold is_ascii. apply N.ltb_lt. unfold code, hex_digit.
  rewrite N_ascii_embedding; destruct (Z.ltb_spec d 10); lia.
Qed.

Lemma sha256_ascii s : forallb is_ascii (chars (sha256_hexdigest s)) = true.
Proof.
  unfold sha256_hexdigest. rewrite chars_text. apply forallb_forall. intros c Hc%list_elem_of_In.
  apply list_elem_of_bind in Hc as (b & Hc & Hb). apply list_elem_of_bind in Hb as (z & Hb & _).
  pose proof (proj1 (Forall_forall _ _) (be_bytes_range 4 z) b Hb) as Hr. simpl in Hr.
  unfold hex_byte in Hc. rewrite !elem_of_cons in Hc. destruct Hc as [->|[->|Hc]].
  - apply hex_digit_ascii. rewrite Z.shiftr_div_pow2 by lia. lia.
  - apply hex_digit_ascii. change 15 with (Z.ones 4). rewrite Z.land_ones by lia.
    apply Z.mod_pos_bound. lia.
  - by apply not_elem_of_nil in Hc.
Qed.

Lemma text_items_argv argv : text_items (argv_json argv) = Some argv.
Proof.
  unfold argv_json. simpl. apply mapM_Some, Forall2_fmap_l, Forall_Forall2_diag, Forall_forall. done.
Qed.

Lemma text_items_Some v argv : text_items v = Some argv → v = argv_json argv.
Proof.
  destruct v as [| | | | |l|]; try done. simpl. intros H%mapM_Some. unfold argv_json. f_equal.
  induction H as [|v s l argv Hv _ IH]; [done|]. csimpl. rewrite <- IH. f_equal. by destruct v; simplify_eq.
Qed.

Lemma canonical_argv argv : canonical (argv_json argv) = argv_json argv.
Proof. unfold argv_json. simpl. f_equal. induction argv as [|s argv IH]; csimpl; [done|by rewrite IH]. Qed.

Lemma readable_argv argv : readable (argv_json argv).
Proof. apply readable_list, Forall_fmap, Forall_forall. done. Qed.

(** A valid submission is the list of texts and the text it was given as. *)
Lemma submission_Ok is_dir raw cwd b argv c :
  _validate_submission_payload is_dir raw cwd b = Ok (argv, c) →
  raw = argv_json argv ∧ cwd = JStr c ∧
  ∀ is_dir' b', (b' = true → is_dir' c = true) →
    _validate_submission_payload is_dir' raw cwd b' = Ok (argv, c).
Proof.
  unfold _validate_submission_payload. destruct (text_items raw) as [[|x xs]|] eqn:Hraw; try done.
  destruct (_ || existsb has_nul (x :: xs)); [done|].
  destruct (_ || (64 * 1024 <? sumZ byte_length (x :: xs))); [done|].
  destruct cwd as [| | | |s| |]; try done. destruct (_ || has_nul s); [done|].
  destruct (4096 <? byte_length s); [done|]. destruct (b && negb (is_dir s)); [done|].
  intros [= <- <-]. split; [by apply text_items_Some|]. split; [done|]. intros is_dir' b' Hb.
  destruct b'; [|done]. by rewrite Hb.
Qed.

Lemma environment_Ok v path :
  _validate_job_environment v = Ok path → v = environment_json path.
Proof.
  destruct v as [| | | | | |kvs]; try done. unfold _validate_job_environment.
  case_bool_decide as Hk; [|done]. simpl. destruct kvs as [|[k v] [|]]; try done.
  injection Hk as ->. unfold dict_get. simpl. destruct v as [| | | |s| |]; try done.
  repeat case_match; try done. intros [= <-]. done.
Qed.

Lemma digest_Ok payload d :
  _job_spec_digest payload = Ok d ↔
  unprintable true (signed_members payload) = None ∧
  d = sha256_hexdigest (text (print_value signed 0 (signed_members payload))).
Proof.
  unfold _job_spec_digest, dumps_nan. destruct (unprintable true (signed_members payload)); simpl.
  - split; [done|by intros [? _]].
  - split; [by intros [= <-]|by intros [_ ->]].
Qed.

Lemma components_Ok is_dir defpath getuid a argv cwd b path argv' cwd' env i :
  _job_submission_components is_dir defpath getuid a argv cwd b path = Ok (argv', cwd', env, i) →
  a_uid a = getuid ∧ argv' = argv ∧ cwd' = cwd ∧ env = default defpath path ∧
  _validate_submission_payload is_dir (argv_json argv) (JStr cwd) b = Ok (argv, cwd) ∧
  _validate_job_environment (environment_json env) = Ok env ∧
  _job_spec_digest (submission_payload a argv cwd env) = Ok (js_digest i).
Proof.
  unfold _job_submission_components. destruct (Z.eqb_spec (a_uid a) getuid); [|done]. simpl.
  intros ([argv1 cwd1] & Hv & H)%res_bind_Ok. apply res_bind_Ok in H as (env1 & He & H). unfold capture_job_environment in He.
  apply res_bind_Ok in H as (legacy & _ & H). apply res_bind_Ok in H as (d & Hd & H).
  injection H as <- <- <- <-. pose proof (submission_Ok _ _ _ _ _ _ Hv) as (Ha & Hc & _).
  injection Hc as <-. assert (argv1 = argv) as ->.
  { apply (f_equal text_items) in Ha. rewrite !text_items_argv in Ha. by injection Ha. }
  assert (env1 = default defpath path) as ->.
  { apply environment_Ok in He. by injection He. }
  by split_and!.
Qed.

(** ** Reading back what was written *)

Definition spec_text (payload : list (string * json)) : list ascii :=
  utf8_encode (print_value indented 0 (JObj payload) ++ [newline]).

Lemma spec_payload_readable a argv cwd env id d now :
  unprintable true (signed_members (submission_payload a argv cwd env)) = None →
  readable (JObj (spec_payload a argv cwd env id d now)).
Proof.
  intros Hu. apply readable_obj. split; [decide_now|].
  assert (Ha : int_too_long (a_uid a) = false).
  { apply not_true_is_false. intros E. revert Hu. unfold signed_members, submission_payload. simpl.
    rewrite E. by destruct (head (omap (unprintable true) (JStr <$> argv))). }
  unfold spec_payload. repeat (apply Forall_cons; split); [try done..|apply Forall_nil; done];
    cbn [snd]; [apply readable_argv|]. split; [decide_now|by split].
Qed.

Lemma spec_text_loads payload :
  readable (JObj payload) → loads (spec_text payload) = Some (JObj (canonical_members payload)).
Proof.
  intros Hr. unfold spec_text. rewrite loads_print; [done|by split|done|done].
Qed.

(** Every member but the argument list is its own canonical form, and that is too. *)
Lemma spec_member a argv cwd env id d now k :
  let payload := spec_payload a argv cwd env id d now in
  dict_get k (canonical_members payload) = dict_get k payload ∧
  assoc_get k (canonical_members payload) = assoc_get k payload.
Proof.
  cbv zeta. assert (Hnd : NoDup (spec_payload a argv cwd env id d now).*1) by decide_now.
  assert (Hc : ∀ v, assoc_get k (spec_payload a argv cwd env id d now) = Some v → canonical v = v).
  { intros v Hv. apply assoc_get_Some in Hv; [|done]. unfold spec_payload in Hv. rewrite !elem_of_cons in Hv.
    destruct_or!; try (by apply not_elem_of_nil in Hv); injection Hv as -> ->; try done. apply canonical_argv. }
  unfold dict_get. rewrite !get_canonical by done.
  destruct (assoc_get k (spec_payload a argv cwd env id d now)) as [v|] eqn:E; simpl; [|done].
  by rewrite Hc.
Qed.

(** A file that holds a payload and is private to its owner. *)
Definition holds_spec (uid : Z) (payload : list (string * json)) (f : spec_file) : Prop :=
  sf_regular f = true ∧ sf_uid f = uid ∧ shared_mode f = false ∧ sf_content f = spec_text payload.

(** The reader takes files up to its limit only. *)
Definition within_limit {A} (payload : list (string * json)) (a : A) : res A :=
  if 128 * 1024 <? Z.of_nat (length (spec_text payload)) then Raise (BookingError "job spec is too large")
  else Ok a.

Lemma read_written open_spec dir a argv cwd env id d now file f :
  let payload := spec_payload a argv cwd env id d now in
  uuid_text id = Some id → job_spec_path dir id = Ok file → open_spec file = Ok f →
  unprintable true (signed_members (submission_payload a argv cwd env)) = None →
  holds_spec (a_uid a) payload f →
  _read_job_spec open_spec dir a id = within_limit payload (canonical_members payload).
Proof.
  cbv zeta. intros Hid Hfile Hopen Hu (Hreg & Huid & Hmode & Hcontent).
  unfold _read_job_spec. rewrite Hfile. simpl. rewrite Hopen. simpl. rewrite Hreg, Huid, Hmode, Hcontent.
  rewrite Z.eqb_refl. simpl negb. cbn iota. unfold within_limit. destruct (_ <? _); [done|].
  rewrite spec_text_loads by by apply spec_payload_readable.
  pose proof (spec_member a argv cwd env id d now) as Hm. cbv zeta in Hm.
  rewrite (proj1 (Hm "version")), (proj1 (Hm "spec_id")), (proj2 (Hm "uid")).
  change (is_spec_version _) with true. simpl negb. cbn iota.
  change (default _ (assoc_get "uid" _)) with (JInt (a_uid a)).
  change (dict_get "spec_id" (spec_payload _ _ _ _ _ _ _)) with (JStr id).
  unfold is_text. cbn [int_value mbind res_bind]. by rewrite Z.eqb_refl, bool_decide_eq_true_2.
Qed.

Lemma signed_written a argv cwd env id d now :
  signed_members (canonical_members (spec_payload a argv cwd env id d now)) =
  signed_members (submission_payload a argv cwd env).
Proof.
  pose proof (spec_member a argv cwd env id d now) as Hm. cbv zeta in Hm.
  unfold signed_members, has_environment. by rewrite !(λ k, proj1 (Hm k)).
Qed.

Lemma prepared_command is_dir defpath getuid a argv cwd b path argv' cwd' env i is_dir' open_spec
    dir id now file f j :
  _job_submission_components is_dir defpath getuid a argv cwd b path = Ok (argv', cwd', env, i) →
  uuid_text id = Some id → job_spec_path dir id = Ok file → open_spec file = Ok f →
  holds_spec (a_uid a) (spec_payload a argv cwd env id (js_digest i) now) f → is_dir' cwd = true →
  j !! "spec_id" = Some (JStr id) → j !! "digest" = Some (JStr (js_digest i)) →
  _validated_job_payload is_dir' open_spec dir a j
  = within_limit (spec_payload a argv cwd env id (js_digest i) now) (argv, cwd, Some env).
Proof.
  intros Hc Hid Hfile Hopen Hf Hdir Hj Hd.
  apply components_Ok in Hc as (_ & _ & _ & _ & Hv & He & Hdig). pose proof Hdig as [Hu Ht]%digest_Ok.
  unfold _validated_job_payload. rewrite Hj, Hd. cbn [str_value str_or_empty].
  rewrite (read_written _ _ _ _ _ _ _ _ now _ _ Hid Hfile Hopen Hu Hf).
  unfold within_limit. destruct (_ <? _); [done|]. cbn [mbind res_bind].
  assert (Hs : _job_spec_digest (canonical_members (spec_payload a argv cwd env id (js_digest i) now))
    = Ok (js_digest i)) by (apply digest_Ok; by rewrite signed_written).
  rewrite Hs. cbn [mbind res_bind].
  pose proof (spec_member a argv cwd env id (js_digest i) now) as Hm. cbv zeta in Hm.
  assert (Hcmp : compare_digest (js_digest i) (js_digest i) = Ok true).
  { unfold compare_digest. rewrite Ht, sha256_ascii. cbn [andb]. by rewrite bool_decide_eq_true_2. }
  rewrite (proj2 (Hm "digest")). change (assoc_get "digest" (spec_payload _ _ _ _ _ _ _)) with (Some (JStr (js_digest i))).
  cbn [str_or_empty str_value]. rewrite Hcmp. cbn [mbind res_bind negb].
  rewrite (proj1 (Hm "argv")), (proj1 (Hm "cwd")).
  change (dict_get "argv" (spec_payload _ _ _ _ _ _ _)) with (argv_json argv).
  change (dict_get "cwd" (spec_payload _ _ _ _ _ _ _)) with (JStr cwd).
  rewrite (proj2 (proj2 (submission_Ok _ _ _ _ _ _ Hv)) is_dir' true) by done. cbn [mbind res_bind].
  unfold has_environment. rewrite (proj1 (Hm "version")), (proj1 (Hm "environment")).
  change (dict_get "version" (spec_payload _ _ _ _ _ _ _)) with (JInt JOB_SPEC_VERSION).
  change (dict_get "environment" (spec_payload _ _ _ _ _ _ _)) with (environment_json env).
  cbn iota. rewrite Z.eqb_refl, He. done.
Qed.

(** One new file, with the first part of a text. *)
Definition part_written (file : string) (text : list ascii) (fs fs' : files) : Prop :=
  ∃ part, part `prefix_of` text ∧ fs' = <[file := part]> fs.

Lemma write_spec_wp faulty file payload (fs : files) w :
  readable (JObj payload) →
  wp faulty (part_written file (spec_text payload) fs) (write_spec file payload)
    (λ r fs' _,
       match r with
       | Ok _ => fs' = <[file := spec_text payload]> fs
       | Raise _ => faulty = true ∧ part_written file (spec_text payload) fs fs'
       end)
    (<[file := []]> fs) w.
Proof.
  intros Hr. set (whole := spec_text payload). set (bad := part_written file whole fs).
  assert (Hp : ∀ n, bad (<[file := take n whole]> fs)) by (intros n; exists (take n whole); by split; [apply prefix_take|]).
  pose proof (Hp O) as H0. pose proof (Hp (length whole)) as Hl. rewrite firstn_all in Hl. cbn [take] in H0.
  unfold write_spec. apply wp_bind, wp_check; [|by auto..].
  apply wp_bind, wp_of_res. unfold dumps_nan. rewrite (readable_printable _ _ Hr).
  apply wp_bind, wp_device; unfold content; rewrite lookup_insert_eq; cbn [default app]; fold whole.
  - rewrite insert_insert_eq. apply wp_bind, wp_check; [apply wp_check|..]; auto.
  - intros Hf n. rewrite insert_insert_eq. split; [apply Hp|intros _; split; [done|apply Hp]].
Qed.

(** A file private to the user with the content the directory has for it. *)
Definition reads_file (fs : files) (uid : Z) (open_spec : string → res spec_file) : Prop :=
  ∀ file content, fs !! file = Some content → ∃ f, open_spec file = Ok f ∧
    sf_regular f = true ∧ sf_uid f = uid ∧ shared_mode f = false ∧ sf_content f = content.

(** C6: what runs is what was submitted. On any host, a successful [prepare_job_spec]
    adds one new file, the text of the specification, and returns a reference to it:
    while the file stays private and the directory exists, the worker reads from it
    exactly the arguments, the directory and the [PATH] of the submission, or, when the
    text is longer than 128 KiB, refuses it as too large. A run that raises or dies
    leaves the directory as it was or adds only that one file, with a first part of the
    text of the same specification, and that only where a call of the host failed. *)
Theorem prepare_job_spec_roundtrip faulty is_dir defpath dir getuid a argv cwd path fs w :
  (∀ n, uuid_text (w_uuid w n) = Some (w_uuid w n)) →
  let specification id digest now :=
    spec_payload a argv cwd (default defpath path) id digest now in
  let left_over fs' := ∃ id digest now file,
    job_spec_path dir id = Ok file ∧ fs !! file = None ∧
    part_written file (spec_text (specification id digest now)) fs fs' in
  wp faulty (λ fs', fs' = fs ∨ left_over fs')
    (prepare_job_spec is_dir defpath dir getuid a argv cwd path)
    (λ r fs' _,
       match r with
       | Raise _ => fs' = fs ∨ (faulty = true ∧ left_over fs')
       | Ok ref => ∃ file now,
           let text := spec_text (specification (sr_spec_id ref) (sr_digest ref) now) in
           job_spec_path dir (sr_spec_id ref) = Ok file ∧ fs !! file = None ∧
           fs' = <[file := text]> fs ∧
           ∀ is_dir' open_spec j,
             is_dir' cwd = true → reads_file fs' (a_uid a) open_spec →
             j !! "spec_id" = Some (JStr (sr_spec_id ref)) →
             j !! "digest" = Some (JStr (sr_digest ref)) →
             _validated_job_payload is_dir' open_spec dir a j
               = if Z.of_nat (length text) <=? 128 * 1024
                 then Ok (argv, cwd, Some (default defpath path))
                 else Raise (BookingError "job spec is too large")
       end) fs w.
Proof.
  intros Huuid specification left_over. unfold prepare_job_spec.
  apply wp_bind, wp_of_res.
  destruct (_job_submission_components _ _ _ _ _ _ _ _) as [[[[argv' cwd'] env] i]|e] eqn:Hc; [|by left].
  pose proof (components_Ok _ _ _ _ _ _ _ _ _ _ _ _ Hc) as (_ & -> & -> & -> & _ & _ & Hdig).
  apply digest_Ok in Hdig as [Hu _].
  apply wp_bind, wp_of_M. cbn [uuid4 fst snd]. set (id := w_uuid w (w_draws w)).
  assert (Hid : uuid_text id = Some id) by apply Huuid.
  apply wp_bind, wp_of_M. cbn [utc_now clock_now fst snd].
  match goal with |- context [spec_payload _ _ _ _ _ _ ?n] => set (now := n) end. cbv zeta.
  fold (specification id (js_digest i) now). set (payload := specification id (js_digest i) now).
  assert (Hr : readable (JObj payload)) by by apply spec_payload_readable.
  assert (Hfile : job_spec_path dir id = Ok (dir +:+ "/" +:+ id +:+ ".json")) by (unfold job_spec_path; by rewrite Hid).
  set (file := dir +:+ "/" +:+ id +:+ ".json") in *.
  apply wp_bind, wp_of_res. rewrite Hfile.
  apply wp_bind, wp_check; [|by left|by left].
  unfold create_exclusive at 1. apply wp_bind, wp_bind, wp_get_files.
  case_bool_decide as Hnew; [by apply wp_throw; left|]. apply eq_None_not_Some in Hnew.
  assert (Hlo : ∀ fs', part_written file (spec_text payload) fs fs' → left_over fs')
    by (intros fs' H; by exists id, (js_digest i), now, file).
  apply wp_device; cbv beta iota; [|intros _ n; split; [by left|intros msg; by left]].
  apply wp_bind, wp_attempt. eapply wp_crash; [eapply wp_mono; [by apply write_spec_wp|]|by right; apply Hlo].
  cbv beta. intros [[]|e] fs' w' Hres.
  - subst fs'. apply wp_ret. exists file, now. cbv zeta. cbn [sr_spec_id sr_digest]. split_and!; [done..|].
    intros is_dir' open_spec j Hdir Hreads Hj Hdg.
    destruct (Hreads file (spec_text payload)) as (f & Hopen & Hreg & Huid & Hmode & Hcont);
      [by rewrite lookup_insert_eq|].
    rewrite (prepared_command _ _ _ _ _ _ _ _ _ _ _ _ is_dir' open_spec dir id now file f j Hc) by done.
    unfold within_limit. by rewrite Z.ltb_antisym; destruct (_ <=? _).
  - destruct Hres as [Hf Hres]. pose proof (Hlo _ Hres) as Hl.
    assert (Hdel : delete file fs' = fs).
    { destruct Hres as (part & _ & ->). by rewrite delete_insert_id. }
    assert (Hend : ∀ fs2 w2, fs2 = fs ∨ left_over fs2 →
      wp faulty (λ fs', fs' = fs ∨ left_over fs') (attempt check ≫= λ _, throw e)
        (λ (r : res spec_reference) fs' _, match r with Ok _ => False
           | Raise _ => fs' = fs ∨ faulty = true ∧ left_over fs' end) fs2 w2).
    { intros fs2 w2 H2. apply wp_bind, wp_attempt, wp_check; intros; try apply wp_throw; naive_solver. }
    apply wp_bind, wp_attempt, wp_at_once; cbv beta iota; rewrite ?Hdel; intros; auto;
      (eapply wp_mono; [apply Hend; auto|intros [] ? ?; tauto]).
Qed.

(** ** The digest binds the command *)

(** Texts of readable values in a common context agree only when the values do. *)
Lemma print_cancel f v1 v2 level q1 q2 :
  layout_ok f → readable v1 → readable v2 → follows q1 → follows q2 →
  print_value f level v1 ++ q1 = print_value f level v2 ++ q2 →
  canonical v1 = canonical v2 ∧ q1 = q2.
Proof.
  intros Hf H1 H2 Hq1 Hq2 E. set (n := (2 * length (print_value f level v1 ++ q1) + 1)%nat).
  pose proof (read_print_value f Hf v1 level n q1 H1 Hq1 ltac:(lia)) as R1.
  pose proof (read_print_value f Hf v2 level n q2 H2 Hq2 ltac:(unfold n; rewrite E; lia)) as R2.
  rewrite E in R1. rewrite R1 in R2. by injection R2.
Qed.

Definition signed_member (k : string) (p : list (string * json)) : list ascii :=
  print_string signed k ++ ":"%char :: print_value signed 1 (dict_get k p).

Lemma signed_text p :
  print_value signed 0 (signed_members p) =
  "{"%char :: signed_member "argv" p ++ ","%char :: signed_member "cwd" p ++ ","%char ::
    (if has_environment p then signed_member "environment" p ++ [","%char] else [])
    ++ signed_member "uid" p ++ ","%char :: signed_member "version" p ++ ["}"%char].
Proof.
  unfold signed_members. rewrite print_object. destruct (has_environment p).
  - change (sort_by key_le _) with
      ((λ k, (k, dict_get k p)) <$> ["argv"; "cwd"; "environment"; "uid"; "version"]).
    unfold signed_member, member_text, print_member. cbn -[print_value print_string].
    repeat (rewrite <- app_assoc; cbn [app]). done.
  - change (sort_by key_le _) with ((λ k, (k, dict_get k p)) <$> ["argv"; "cwd"; "uid"; "version"]).
    unfold signed_member, member_text, print_member. cbn -[print_value print_string].
    repeat (rewrite <- app_assoc; cbn [app]). done.
Qed.

(** Two payloads with one text, one of them with an environment. *)
Lemma signed_text_inj p1 p2 :
  has_environment p1 = true →
  readable (dict_get "argv" p1) → readable (dict_get "argv" p2) →
  readable (dict_get "cwd" p1) → readable (dict_get "cwd" p2) →
  (has_environment p2 = true → readable (dict_get "environment" p1) ∧ readable (dict_get "environment" p2)) →
  print_value signed 0 (signed_members p1) = print_value signed 0 (signed_members p2) →
  has_environment p2 = true ∧
  canonical (dict_get "argv" p1) = canonical (dict_get "argv" p2) ∧
  canonical (dict_get "cwd" p1) = canonical (dict_get "cwd" p2) ∧
  canonical (dict_get "environment" p1) = canonical (dict_get "environment" p2).
Proof.
  intros Hp Ha1 Ha2 Hc1 Hc2 He E. rewrite !signed_text, Hp in E. injection E as E.
  unfold signed_member in E. repeat (rewrite <- app_assoc in E; cbn [app] in E).
  apply print_cancel in E as [Ea E]; [|by split|done..]. injection E as E.
  apply print_cancel in E as [Ec E]; [|by split|done..].
  destruct (has_environment p2); [|discriminate]. destruct (He eq_refl) as [He1 He2]. injection E as E.
  repeat (rewrite <- app_assoc in E; cbn [app] in E).
  apply print_cancel in E as [Ee _]; [|by split|done..]. done.
Qed.

(** The text that [_job_spec_digest] signs. *)
Definition signed_json (payload : list (string * json)) : string :=
  text (print_value signed 0 (signed_members payload)).

(** C7: a specification cannot be exchanged. Whatever file the private directory
    holds when the job starts, the worker runs the command whose digest is in the
    ledger: its arguments, directory and [PATH] are those of the submission with
    that digest, unless the file itself signs another text with the same SHA-256. *)
Theorem digest_binds_command is_dir defpath getuid a argv cwd b path argv' cwd' env i
    is_dir' open_spec dir j id x :
  _job_submission_components is_dir defpath getuid a argv cwd b path = Ok (argv', cwd', env, i) →
  j !! "spec_id" = Some (JStr id) → j !! "digest" = Some (JStr (js_digest i)) →
  _validated_job_payload is_dir' open_spec dir a j = Ok x →
  x = (argv, cwd, Some (default defpath path)) ∨
  let submitted := submission_payload a argv cwd (default defpath path) in
  ∃ p, _read_job_spec open_spec dir a id = Ok p ∧ signed_json p ≠ signed_json submitted ∧
       sha256_hexdigest (signed_json p) = sha256_hexdigest (signed_json submitted).
Proof.
  intros Hc Hj Hd. apply components_Ok in Hc as (_ & _ & _ & -> & Hv & He & Hdig).
  apply digest_Ok in Hdig as [_ Hdig]. unfold _validated_job_payload. rewrite Hj, Hd.
  cbn [str_value str_or_empty]. intros (p & Hread & H)%res_bind_Ok.
  apply res_bind_Ok in H as (d & Hp & H). apply digest_Ok in Hp as [_ Hp].
  apply res_bind_Ok in H as (same & Hsame & H). unfold compare_digest at 1 in Hsame.
  destruct (_ && _) in Hsame; [|done]. injection Hsame as <-.
  case_bool_decide as Heq; [|done]. cbn [negb] in H.
  apply res_bind_Ok in H as (same & _ & H). destruct same; [|done]. cbn [negb] in H.
  apply res_bind_Ok in H as ([argv2 cwd2] & Hv2 & H).
  pose proof (submission_Ok _ _ _ _ _ _ Hv2) as (Ha2 & Hc2 & _).
  fold (signed_json p) in Hp. fold (signed_json (submission_payload a argv cwd (default defpath path))) in Hdig.
  destruct (decide (signed_json (submission_payload a argv cwd (default defpath path)) = signed_json p)) as [E|E].
  2:{ right. cbv zeta. exists p. split; [done|]. split; congruence. }
  left. apply (f_equal chars) in E. unfold signed_json in E. rewrite !chars_text in E.
  assert (Henv : has_environment p = true →
    readable (dict_get "environment" (submission_payload a argv cwd (default defpath path))) ∧
    readable (dict_get "environment" p)).
  { intros Hh. rewrite Hh in H. apply res_bind_Ok in H as (env2 & He2%environment_Ok & _).
    rewrite He2. split; (split; [decide_now|by split]). }
  apply signed_text_inj in E as (Hh & Ea & Ec & Ee);
    [|done|apply readable_argv|rewrite Ha2; apply readable_argv|done|by rewrite Hc2|done].
  rewrite Hh in H. apply res_bind_Ok in H as (env2 & He2%environment_Ok & H). injection H as <-.
  rewrite Ha2, canonical_argv in Ea. rewrite Hc2 in Ec. rewrite He2 in Ee.
  change (canonical (argv_json argv) = argv_json argv2) in Ea. rewrite canonical_argv in Ea.
  apply (f_equal text_items) in Ea. rewrite !text_items_argv in Ea. 
  injection Ea as <-. injection Ec as <-. injection Ee as <-. done.
Qed.

(** ** What the clean-up removes *)

Definition private_file (uid : Z) (f : spec_file) : Prop :=
  sf_regular f = true ∧ sf_links f = 1 ∧ sf_uid f = uid ∧ shared_mode f = false.

(** Files only disappear, and each that does was private and satisfies [P]. *)
Record trimmed (uid : Z) (P : string → spec_file → Prop) (files files' : gmap string spec_file)
    : Prop := Trimmed {
  tr_subset : files' ⊆ files;
  tr_gone name f : files !! name = Some f → files' !! name = None → private_file uid f ∧ P name f;
}.

Lemma trimmed_refl uid P files : trimmed uid P files files.
Proof. split; [done|]. intros name f H H'. congruence. Qed.

Lemma trimmed_trans uid P files1 files2 files3 :
  trimmed uid P files1 files2 → trimmed uid P files2 files3 → trimmed uid P files1 files3.
Proof.
  intros [H1 G1] [H2 G2]. split; [by etrans|]. intros name f Hf Hn.
  destruct (files2 !! name) as [f2|] eqn:E; [|by apply G1].
  assert (f2 = f) as -> by (pose proof (lookup_weaken _ _ _ _ E H1); congruence). by apply G2.
Qed.

Lemma trimmed_fold {A B} uid P (step : B * gmap string spec_file → A → B * gmap string spec_file) l acc :
  (∀ acc x, x ∈ l → trimmed uid P acc.2 (step acc x).2) → trimmed uid P acc.2 (foldl step acc l).2.
Proof.
  revert acc. induction l as [|x l IH]; intros acc Hs; simpl; [apply trimmed_refl|].
  eapply trimmed_trans; [apply Hs; by left|]. apply IH. intros; apply Hs; by right.
Qed.

Lemma metadata_private h name uid files f :
  _job_spec_metadata_at h name uid files = inl f → files !! name = Some f ∧ private_file uid f.
Proof.
  unfold _job_spec_metadata_at, private_file. destruct (sh_stat_error h name); [done|].
  destruct (files !! name) as [g|]; [|done].
  destruct (sf_regular g) eqn:?; [|done]. destruct (Z.eqb_spec (sf_links g) 1); [|done].
  destruct (Z.eqb_spec (sf_uid g) uid); [|done]. destruct (shared_mode g) eqn:?; [done|].
  simpl. by intros [= <-].
Qed.

Lemma remove_trimmed h name uid files P :
  (∀ f, files !! name = Some f → P name f) →
  trimmed uid P files (_remove_job_spec_at h name uid files).2.
Proof.
  intros HP. unfold _remove_job_spec_at.
  destruct (_job_spec_metadata_at h name uid files) as [f|issue] eqn:E.
  2:{ case_bool_decide; apply trimmed_refl. }
  apply metadata_private in E as [Hf Hp].
  assert (Hd : trimmed uid P files (delete name files)).
  { split; [apply delete_subseteq|]. intros name' f' H' Hn.
    destruct (decide (name' = name)) as [->|Hne]; [|rewrite lookup_delete_ne in Hn by done; congruence].
    assert (f' = f) as -> by congruence. auto. }
  destruct (sh_unlink_error h name) as [[[] e]|]; [done|apply trimmed_refl|done].
Qed.

(** A job of the user names the specification. *)
Definition names_spec (a : actor) (s : string) (r : reservation) : Prop :=
  r_uid r = a_uid a ∧ ∃ j v, job_spec_id r = Some (j, v) ∧ uuid_text (str_value v) = Some s.

Lemma merge_spec refs s0 needed :
  NoDup refs.*1 →
  NoDup (merge refs s0 needed).*1 ∧
  (∀ s, s ∈ (merge refs s0 needed).*1 ↔ s ∈ refs.*1 ∨ s = s0) ∧
  (∀ s, (s, false) ∈ merge refs s0 needed →
     (s ∈ refs.*1 → (s, false) ∈ refs) ∧ (s = s0 → needed = false)).
Proof.
  intros Hnd. unfold merge. destruct (assoc_get s0 refs) as [old|] eqn:E.
  - apply assoc_get_Some in E; [|done].
    assert (Ek : ((λ '(k, b), (k, if bool_decide (k = s0) then old || needed else b)) <$> refs).*1 = refs.*1).
    { rewrite <- list_fmap_compose. apply list_fmap_ext. by intros _ [k b] _. }
    rewrite Ek. split; [done|]. split.
    { intros s. split; [auto|]. intros [?| ->]; [done|]. apply list_elem_of_fmap. by exists (s0, old). }
    intros s ([k b] & H & Hin)%list_elem_of_fmap. injection H as -> Hb.
    case_bool_decide as Hk; [subst k|subst b; by split; [|intros ->]].
    symmetry in Hb. apply orb_false_iff in Hb as [-> ->]. by split.
  - assert (Hn : s0 ∉ refs.*1).
    { intros ([k b] & -> & Hin)%list_elem_of_fmap. simpl in E.
      apply (assoc_get_Some k b refs Hnd) in Hin. congruence. }
    rewrite fmap_app. simpl. split; [|split].
    + apply NoDup_app. split; [done|]. split; [|apply NoDup_singleton].
      intros x Hx ->%list_elem_of_singleton. done.
    + intros s. by rewrite elem_of_app, list_elem_of_singleton.
    + intros s [Hin|E2%list_elem_of_singleton]%elem_of_app.
      * split; [done|]. intros ->. destruct Hn. apply list_elem_of_fmap. by exists (s0, false).
      * injection E2 as -> <-. by split.
Qed.

Lemma add_reference_spec a current refs ws r refs' ws' :
  add_reference a current (refs, ws) r = Ok (refs', ws') → NoDup refs.*1 →
  NoDup refs'.*1 ∧
  (∀ s, s ∈ refs'.*1 ↔ s ∈ refs.*1 ∨ names_spec a s r) ∧
  (∀ s, (s, false) ∈ refs' →
     (s ∈ refs.*1 → (s, false) ∈ refs) ∧
     (names_spec a s r → ∀ j, r_job r = Some j → _job_spec_is_needed r j current = Ok false)).
Proof.
  intros H Hnd. unfold add_reference in H.
  assert (Hskip : (∀ s, ¬ names_spec a s r) → Ok (refs, ws) = Ok (refs', ws') ∨
      (∃ w, Ok (refs, w) = Ok (refs', ws')) → NoDup refs'.*1 ∧
    (∀ s, s ∈ refs'.*1 ↔ s ∈ refs.*1 ∨ names_spec a s r) ∧
    (∀ s, (s, false) ∈ refs' → (s ∈ refs.*1 → (s, false) ∈ refs) ∧
     (names_spec a s r → ∀ j, r_job r = Some j → _job_spec_is_needed r j current = Ok false))).
  { intros Hno Heq. assert (refs' = refs) as -> by (destruct Heq as [?|[? ?]]; congruence).
    split; [done|]. split; [naive_solver|]. intros s Hs. split; [done|]. intros Hx. by destruct (Hno s). }
  unfold names_spec in *. destruct (job_spec_id r) as [[j v]|] eqn:Hj;
    [|apply Hskip; [intros s (_ & ? & ? & ? & _); done|by left]].
  destruct (uuid_text (str_value v)) as [s0|] eqn:Hs0.
  2:{ apply Hskip; [intros s (_ & j' & v' & E & ?); congruence|]. destruct (r_uid r =? a_uid a); eauto. }
  destruct (Z.eqb_spec (r_uid r) (a_uid a)) as [Hu|Hu];
    [|apply Hskip; [intros s [? _]; done|by left]].
  cbn [negb] in H. apply res_bind_Ok in H as (needed & Hn & H). injection H as <- _.
  assert (Hjob : r_job r = Some j).
  { apply bind_Some in Hj as (j' & Hj' & Hj). apply bind_Some in Hj as (v' & _ & Hj).
    rewrite Hj'. destruct v'; congruence. }
  assert (Hname : ∀ s, (r_uid r = a_uid a ∧ ∃ j' v', Some (j, v) = Some (j', v') ∧
    uuid_text (str_value v') = Some s) ↔ s = s0) by (intros s; naive_solver).
  destruct (merge_spec refs s0 needed Hnd) as (H1 & H2 & H3).
  split; [done|]. split; [intros s; by rewrite H2, Hname|].
  intros s Hs. destruct (H3 s Hs) as [H4 H5]. split; [done|]. intros Hx%Hname j' Hj'.
  rewrite (H5 Hx) in Hn. congruence.
Qed.

(** The references of the whole ledger. *)
Lemma references_spec a current rs refs ws refs' ws' :
  fold_res (add_reference a current) (refs, ws) rs = Ok (refs', ws') → NoDup refs.*1 →
  (∀ s, s ∈ refs'.*1 ↔ s ∈ refs.*1 ∨ ∃ r, r ∈ rs ∧ names_spec a s r) ∧
  (∀ s, (s, false) ∈ refs' → (s ∈ refs.*1 → (s, false) ∈ refs) ∧
     ∀ r j, r ∈ rs → names_spec a s r → r_job r = Some j → _job_spec_is_needed r j current = Ok false).
Proof.
  revert refs ws. induction rs as [|r rs IH]; intros refs ws H Hnd; simpl in H.
  - injection H as <- <-. split; [intros s; split; [auto|]|].
    + intros [?|(r & ?%not_elem_of_nil & _)]; done.
    + intros s Hs. split; [done|]. by intros r j ?%not_elem_of_nil.
  - apply res_bind_Ok in H as ([refs1 ws1] & H1 & H).
    destruct (add_reference_spec _ _ _ _ _ _ _ H1 Hnd) as (Hnd1 & Hk & Hf).
    destruct (IH _ _ H Hnd1) as [Hk' Hf']. split.
    + intros s. rewrite Hk', Hk. setoid_rewrite elem_of_cons. naive_solver.
    + intros s Hs. destruct (Hf' s Hs) as [Ha Hb].
      assert (Hc : s ∈ refs1.*1 → (s ∈ refs.*1 → (s, false) ∈ refs) ∧
        (names_spec a s r → ∀ j, r_job r = Some j → _job_spec_is_needed r j current = Ok false))
        by (intros Hin; by apply Hf, Ha).
      split; [intros Hin; apply Hc; [apply Hk; by left|done]|].
      intros r' j [->|Hin]%elem_of_cons Hn Hj; [|eauto].
      exact (proj2 (Hc (proj2 (Hk s) (or_intror Hn))) Hn j Hj).
Qed.

Lemma filename_of_id s : _spec_id_from_filename (file_name s) = uuid_text s.
Proof.
  unfold _spec_id_from_filename, file_name, ends_with. rewrite chars_app, length_app.
  rewrite Nat.add_sub, drop_app_length. rewrite bool_decide_eq_true_2 by done.
  change (length (chars ".json")) with 5%nat. rewrite Nat.add_sub, take_app_length. by rewrite text_chars.
Qed.

Lemma file_name_inj s s' : file_name s = file_name s' → s = s'.
Proof.
  unfold file_name. intros H%(f_equal chars). rewrite !chars_app in H. apply app_inv_tail in H.
  rewrite <- (text_chars s), <- (text_chars s'). by f_equal.
Qed.

(** The job is over for good, or it may no longer start or be retried. *)
Definition is_dispensable (r : reservation) (j : job) (now : datetime) : Prop :=
  (∃ s, job_status j = Some s ∧ s ∈ [JOB_SUCCEEDED; JOB_CANCELLED; JOB_MISSED; JOB_TIMED_OUT]) ∨
  (∃ s, job_status j = Some s ∧ s ∈ [JOB_PENDING; JOB_FAILED; JOB_INTERRUPTED; JOB_UNCERTAIN] ∧
     (r_status r ≠ STATUS_ACTIVE ∨ r_end_at r ≤ now)).

Lemma needed_false r j now : _job_spec_is_needed r j now = Ok false → is_dispensable r j now.
Proof.
  unfold _job_spec_is_needed, status_in, member_in, is_dispensable, job_status, job_text.
  destruct (j !! "status") as [[| | | |s| |]|]; try done; simpl. intros H.
  case_bool_decide as H1; [done|]. case_bool_decide as H2; [|done]. simpl in H.
  case_bool_decide as H3; [left; eauto|]. right. exists s. split; [done|]. split.
  - rewrite !elem_of_cons in *. tauto.
  - case_bool_decide as Ha; [right|by left]. simpl in H. injection H as H. by apply Z.ltb_ge in H.
Qed.

(** C8: the clean-up keeps what is needed. It creates and changes no file, and
    every file it removes was a regular file of the user with one link and a
    private mode that no job of the user still needs: a job that waits, is claimed
    or runs, or that may be retried while its window lasts. A file that no job
    names goes only when it is old enough. *)
Theorem cleanup_job_specs_spec h getuid a l current grace files result files' :
  cleanup_job_specs h getuid a l current grace (Some files) = Ok (result, Some files') →
  files' ⊆ files ∧
  ∀ name f, files !! name = Some f → files' !! name = None →
    private_file (a_uid a) f ∧
    (∀ r j s, r ∈ l_reservations l → names_spec a s r → name = file_name s → r_job r = Some j →
       is_dispensable r j current) ∧
    ((∃ r s, r ∈ l_reservations l ∧ names_spec a s r ∧ name = file_name s) ∨
     is_young current grace f = false).
Proof.
  unfold cleanup_job_specs. destruct (negb _); [done|]. destruct (grace <? 0); [done|].
  intros ([refs ws] & Hrefs & H)%res_bind_Ok.
  destruct (references_spec _ _ _ _ _ _ _ Hrefs (NoDup_nil_2)) as [Hkeys Hfalse].
  set (P name (f : spec_file) :=
    (∃ s, (s, false) ∈ refs ∧ name = file_name s) ∨
    (∃ s, _spec_id_from_filename name = Some s ∧ s ∉ refs.*1 ∧ is_young current grace f = false)).
  assert (Hc : ∀ acc ref, ref ∈ refs → trimmed (a_uid a) P acc.2 (clean_reference h (a_uid a) acc ref).2).
  { intros [[] fs] [s b] Hin. simpl. destruct b.
    - destruct (_job_spec_metadata_at _ _ _ _); apply trimmed_refl.
    - pose proof (remove_trimmed h (file_name s) (a_uid a) fs P) as Hr.
      destruct (_remove_job_spec_at _ _ _ _) as [[] fs2]; apply Hr; intros f _; left; eauto. }
  assert (Ho : ∀ acc name, trimmed (a_uid a) P acc.2 (clean_orphan h (a_uid a) current grace refs acc name).2).
  { intros [[] fs] name. simpl. destruct (_spec_id_from_filename name) as [s|] eqn:Hs; [|apply trimmed_refl].
    case_bool_decide as Hin; [apply trimmed_refl|].
    destruct (_job_spec_metadata_at h name (a_uid a) fs) as [f|] eqn:Hm; [|apply trimmed_refl].
    destruct (is_young current grace f) eqn:Hy; [apply trimmed_refl|].
    apply metadata_private in Hm as [Hf _].
    pose proof (remove_trimmed h name (a_uid a) fs P) as Hr.
    destruct (_remove_job_spec_at _ _ _ _) as [[] fs2]; apply Hr; intros f' Hf'; right; exists s;
      (split; [done|]; split; [done|]; congruence). }
  pose proof (trimmed_fold (a_uid a) P (clean_reference h (a_uid a)) refs
    (JobSpecCleanupResult 0 0 0 (Z.of_nat (length ws)) ws, files) Hc) as T1.
  destruct (foldl (clean_reference h (a_uid a)) _ refs) as [res1 files1]. simpl in T1.
  assert (T : trimmed (a_uid a) P files files').
  { destruct (sh_listing h files1) as [names|[]]; try done.
    - pose proof (trimmed_fold (a_uid a) P (clean_orphan h (a_uid a) current grace refs) names
        (res1, files1) (λ acc name _, Ho acc name)) as T2.
      destruct (foldl (clean_orphan _ _ _ _ _) _ names) as [res2 files2]. simpl in T2.
      injection H as _ <-. by eapply trimmed_trans.
    - destruct res1. by injection H as _ <-. }
  destruct T as [Hsub Hgone]. split; [done|]. intros name f Hf Hn.
  destruct (Hgone name f Hf Hn) as [Hp HP]. split; [done|].
  destruct HP as [(s & Hs & ->)|(s & Hs & Hnot & Hy)].
  - destruct (Hfalse s Hs) as [_ Hneed]. split.
    + intros r j s' Hin Hname Heq Hj. apply file_name_inj in Heq as <-. by eapply needed_false, Hneed.
    + left. assert (Hk : s ∈ refs.*1) by (apply list_elem_of_fmap; by exists (s, false)).
      apply Hkeys in Hk as [?%not_elem_of_nil|(r & Hin & Hname)]; [done|eauto].
  - split; [|by right]. intros r j s' Hin Hname -> Hj. rewrite filename_of_id in Hs.
    pose proof Hname as (_ & j' & v & _ & Hu). rewrite (uuid_text_idemp _ _ Hu) in Hs.
    injection Hs as ->. destruct Hnot. apply Hkeys. right. eauto.
Qed.

(** ** Examples *)

Definition spec_id0 : string := "12345678-1234-4234-8234-123456789abc".
Definition spec_world : world := World (λ _, 0) (λ _, spec_id0) 0 0.
Definition ada : actor := Actor 1000 "ada".
Definition train : list string := ["/usr/bin/python3"; "-m"; "train"; "--lr=0.1"].

Definition prepare_train : F spec_reference :=
  prepare_job_spec (λ _, true) "/bin:/usr/bin" "/specs" 1000 ada train "/home/ada" None.

Definition prepared : outcome spec_reference * host := prepare_train (Host ∅ spec_world [] None).

(** The private directory after [prepare_train]. *)
Definition open_prepared (path : string) : res spec_file :=
  match h_files prepared.2 !! path with
  | Some content => Ok (SpecFile true 1 1000 384 (float_of_Z 0) content)
  | None => Raise (OSError "No such file or directory")
  end.

Definition train_digest : string := "2a95b73d86d1c5eaae194a996e03c00c069165a57ab96f21a51409af7848037c".

Definition train_job : job :=
  job_set [("status", JStr JOB_CLAIMED); ("spec_id", JStr spec_id0); ("digest", JStr train_digest)] ∅.


Lemma prepare_job_spec_roundtrip_witness :
  ∃ content, h_files prepared.2 = {["/specs/12345678-1234-4234-8234-123456789abc.json" := content]} ∧
    _validated_job_payload (λ _, true) open_prepared "/specs" ada train_job
    = Ok (train, "/home/ada", Some "/bin:/usr/bin").
Proof.
  pose proof (prepare_job_spec_roundtrip false (λ _, true) "/bin:/usr/bin" "/specs" 1000 ada train
    "/home/ada" None ∅ spec_world ltac:(intros n; vm_compute; reflexivity) [] None (λ _, eq_refl)) as H.
  fold prepare_train in H. fold prepared in H.
  assert (E : prepared.1 = Done (Ok (JobSpecReference spec_id0 train_digest "python3 -m train (+1 args)")))
    by (vm_compute; reflexivity).
  assert (Hopen : reads_file (h_files prepared.2) 1000 open_prepared).
  { intros file content Hf. unfold open_prepared. rewrite Hf. eexists. split; [reflexivity|]. by split_and!. }
  assert (Hsize : map_Forall (λ _ c, Z.of_nat (length c) ≤ 128 * 1024) (h_files prepared.2)).
  { apply (bool_decide_unpack _). vm_compute. exact I. }
  rewrite (surjective_pairing prepared), E in H. destruct H as [_ (file & now & Hp & _ & Hfs & Hrun)].
  eexists. split.
  - rewrite Hfs. vm_compute in Hp. injection Hp as <-. reflexivity.
  - rewrite (Hrun (λ _, true) open_prepared train_job eq_refl Hopen eq_refl eq_refl).
    rewrite Hfs in Hsize. apply map_Forall_insert_1_1, Z.leb_le in Hsize. by rewrite Hsize.
Defined.

Definition train_identity : identity :=
  JobSubmissionIdentity train_digest "python3 -m train (+1 args)"
    ["53f2c3c1fd47baf310c0045e61917df6527728fc519859933a5fd789ca531180"].

Lemma digest_binds_command_witness :
  _validated_job_payload (λ _, true) open_prepared "/specs" ada train_job
    = Ok (train, "/home/ada", Some "/bin:/usr/bin") ∧
  ((train, "/home/ada", Some "/bin:/usr/bin") = (train, "/home/ada", Some (default "/bin:/usr/bin" None)) ∨
   let submitted := submission_payload ada train "/home/ada" "/bin:/usr/bin" in
   ∃ p, _read_job_spec open_prepared "/specs" ada spec_id0 = Ok p ∧ signed_json p ≠ signed_json submitted ∧
        sha256_hexdigest (signed_json p) = sha256_hexdigest (signed_json submitted)).
Proof.
  assert (E : _validated_job_payload (λ _, true) open_prepared "/specs" ada train_job
    = Ok (train, "/home/ada", Some "/bin:/usr/bin")) by (vm_compute; reflexivity).
  split; [exact E|].
  apply (digest_binds_command (λ _, true) "/bin:/usr/bin" 1000 ada train "/home/ada" true None
    train "/home/ada" "/bin:/usr/bin" train_identity (λ _, true) open_prepared "/specs" train_job spec_id0);
    [vm_compute; reflexivity|reflexivity|reflexivity|exact E].
Defined.

(** Two files: the specification of a finished job and one that no job names. *)
Definition spec_files : gmap string spec_file :=
  let f := SpecFile true 1 1000 384 (float_of_Z 0) [] in
  {[file_name spec_id0 := f; file_name "22345678-1234-4234-8234-123456789abc" := f;
    "notes.txt" := f]}.

Definition finished_ledger : ledger :=
  Ledger [Reservation "done" None 1000 (Some "ada") [0] MODE_SHARED 0 (hours 1) STATUS_ACTIVE
      None None None None None
      (Some (job_set [("status", JStr JOB_SUCCEEDED); ("spec_id", JStr spec_id0)] ∅)) (Some []) None
      (Some [])] None [] None.

Definition sound_specs : spec_host :=
  SpecHost (λ _, None) (λ _, None) (λ files, Ok (map_to_list files).*1).

Lemma cleanup_job_specs_witness :
  ∃ files' f, cleanup_job_specs sound_specs 1000 ada finished_ledger (hours 2) JOB_SPEC_ORPHAN_GRACE_SECONDS
      (Some spec_files) = Ok (JobSpecCleanupResult 1 0 1 0 [], Some files') ∧
    spec_files !! file_name spec_id0 = Some f ∧ files' !! file_name spec_id0 = None ∧
    private_file 1000 f ∧ files' ⊆ spec_files.
Proof.
  assert (Hg : match cleanup_job_specs sound_specs 1000 ada finished_ledger (hours 2)
                       JOB_SPEC_ORPHAN_GRACE_SECONDS (Some spec_files) with
    | Ok (result, Some files') =>
        result = JobSpecCleanupResult 1 0 1 0 [] ∧ files' !! file_name spec_id0 = None
    | _ => False
    end) by (vm_compute; split; reflexivity).
  destruct (cleanup_job_specs sound_specs 1000 ada finished_ledger (hours 2)
    JOB_SPEC_ORPHAN_GRACE_SECONDS (Some spec_files)) as [[result [files'|]]|e] eqn:E; [|destruct Hg..].
  destruct Hg as [-> Hg].
  destruct (cleanup_job_specs_spec _ _ _ _ _ _ _ _ _ E) as [Hsub Hgone].
  exists files', (SpecFile true 1 1000 384 (float_of_Z 0) []). split; [done|]. split; [reflexivity|].
  split; [done|]. split; [|done]. apply (Hgone (file_name spec_id0)); [reflexivity|done].
Defined.
