(* ===== verification/Process.v ===== *)
(** * Process: supervised commands on a host that answers as it likes

    The worker of [src/src/bk/worker.py] starts commands, watches them and sends
    signals. Everything it learns comes from calls: the ledger store, the process
    table, the monotonic clock, the private logs of the jobs. [syscall] names these
    calls with their arguments and [answer] the type of what they give back; a host
    is any function that answers them, so that a ledger that changes between two
    reads, a store that fails, a process that ignores signals or a command that
    cannot be started are all hosts.

    [W] is the monad of the supervisor: it threads the host, the wall clock and the
    uuids of [PyBase], the dict [running] with its counters, and records each call
    with its answer. A loop whose bound runs out has no result; [Clock] states what
    makes every loop end, that a pause takes at least its time. Durations and the
    readings of the monotonic clock are whole microseconds. *)

From S2P Require Import Prelude PyBase Json Models Requests Jobs JobRecovery JobSpecs Gpu.

(** ** Calls and their answers *)

Inductive signal := SIGTERM | SIGKILL.

(** [os.killpg]: it worked, or which error it raised. *)
Inductive kill_result := Delivered | ProcessLookupError | PermissionError | OtherOSError.

Record command := Command {
  cmd_argv : list string;
  cmd_cwd : string;
  cmd_env : gmap string string;
}.

(** What the worker looks at on disk when it reads a specification. *)
Record file_view := FileView {
  fv_is_dir : string → bool;
  fv_open_spec : string → res spec_file;
}.

(** The calls of the supervisor. The ledger calls go through the store that guards
    the policy of the daemon; a clean-up of private files is one call, whose effect
    is the matter of [JobSpecs]. A process and a log pump are the numbers the host gave for them; the signal 0
    that only asks for a group is [None]. *)
Inductive syscall :=
  | Load
  | Lock
  | Commit (l : ledger) (logs : list log_item)
  | Files
  | LogOpen (path : string) (max_bytes : Z) (header : json)
  | LogEvent (pump : Z) (event : json)
  | LogStart (pump pid : Z)
  | LogAbort (pump : Z)
  | LogFinish (pump : Z)
  | LogRotations (pump : Z)
  | Popen (c : command)
  | HasStdout (pid : Z)
  | Killpg (pid : Z) (s : option signal)
  | SendSignal (pid : Z) (s : signal)
  | Discover (reservation_id : string)
  | Poll (pid : Z)
  | Wait (pid : Z) (timeout : timedelta)
  | Monotonic
  | Sleep (d : timedelta)
  | AcquireLease
  | ReleaseLease
  | InstallHandlers
  | RestoreHandlers
  | StopRequested
  | WaitForStop (d : timedelta)
  | Snapshot
  | CleanSpecs (now : datetime)
  | CleanLogs (l : ledger) (now : datetime).

Definition answer (c : syscall) : Type :=
  match c with
  | Load | Lock => res ledger
  | Commit _ _ | LogEvent _ _ | LogStart _ _ => res unit
  | Files => file_view
  | LogOpen _ _ _ | Popen _ => res Z
  | LogFinish _ => res (option string)
  | LogAbort _ | SendSignal _ _ | Sleep _ => unit
  | AcquireLease | InstallHandlers | CleanSpecs _ | CleanLogs _ _ => res unit
  | ReleaseLease | RestoreHandlers | WaitForStop _ => unit
  | StopRequested => bool
  | Snapshot => res (list gpu_snapshot)
  | LogRotations _ | Monotonic => Z
  | HasStdout _ | Wait _ _ => bool
  | Killpg _ _ => kill_result
  | Discover _ => process_discovery
  | Poll _ => option Z
  end.

Class Host (H : Type) := call : ∀ c : syscall, H → answer c * H.

(** How long a call pauses. *)
Definition pause (c : syscall) : timedelta := match c with Sleep d => Z.max 0 d | _ => 0 end.

(** A clock that does not go back: a reading lies between the beginning and the
    end of its call, and a pause takes its time. *)
Class Clock (H : Type) `{Host H} := {
  time : H → Z;
  time_call c h : time h + pause c ≤ time (call c h).2;
  time_reading h : time h ≤ (call Monotonic h).1 ≤ time (call Monotonic h).2;
}.

Record event := Event { ev_call : syscall; ev_answer : answer ev_call }.

(** ** The monad *)

(** The fields of [RunningJob]; [it_job] are those a transaction reads. *)
Record running_item := RunningItem {
  it_job : running_job;
  it_pid : Z;
  it_pump : Z;
  it_end_at : datetime;
  it_requested_at : option Z;
}.

Definition it_id (it : running_item) : string := rj_id (it_job it).
Definition it_reason (it : running_item) : option string := rj_reason (it_job it).

Record supervisor (H : Type) := Supervisor {
  k_host : H;
  k_world : world;
  k_running : list running_item;
  k_counts : gmap string Z;
  k_trace : list event;
}.
Arguments Supervisor {H}.
Arguments k_host {H}.
Arguments k_world {H}.
Arguments k_running {H}.
Arguments k_counts {H}.
Arguments k_trace {H}.

Definition W (H A : Type) : Type := supervisor H → option (res A) * supervisor H.

#[export] Instance W_ret {H} : MRet (W H) := λ A a s, (Some (Ok a), s).
#[export] Instance W_bind {H} : MBind (W H) := λ A B f m s,
  match m s with
  | (Some (Ok a), s) => f a s
  | (Some (Raise e), s) => (Some (Raise e), s)
  | (None, s) => (None, s)
  end.

Section Monad.
Context {H : Type} `{!Host H}.

Definition of_result {A} (r : res A) : W H A := λ s, (Some r, s).
Definition throws {A} (e : exn) : W H A := of_result (Raise e).

(** A loop that used up its bound. *)
Definition diverge {A} : W H A := λ s, (None, s).

(** [try: m except ...]: the result or the exception as a value. *)
Definition catch {A} (m : W H A) : W H (res A) := λ s,
  match m s with
  | (Some r, s) => (Some (Ok r), s)
  | (None, s) => (None, s)
  end.

Definition ask (c : syscall) : W H (answer c) := λ '(Supervisor h w running counts trace),
  let '(a, h) := call c h in (Some (Ok a), Supervisor h w running counts (trace ++ [Event c a])).

Definition on_world {A} (m : M A) : W H A := λ '(Supervisor h w running counts trace),
  let '(r, w) := m w in (Some r, Supervisor h w running counts trace).

Definition get_running : W H (list running_item) := λ s, (Some (Ok (k_running s)), s).

Definition set_running (running : list running_item) : W H unit :=
  λ '(Supervisor h w _ counts trace), (Some (Ok tt), Supervisor h w running counts trace).

(** [counts[key] += n] *)
Definition count (key : string) (n : Z) : W H unit := λ '(Supervisor h w running counts trace),
  (Some (Ok tt), Supervisor h w running (<[key := default 0 (counts !! key) + n]> counts) trace).

(** A [while] loop over its local variables: the body goes on with [inl] and
    leaves the loop with [inr]. *)
Fixpoint iter {A B} (fuel : nat) (body : A → W H (A + B)) (a : A) : W H B :=
  match fuel with
  | O => diverge
  | S fuel => r ← body a; match r with inl a => iter fuel body a | inr b => mret b end
  end.

Fixpoint each {A} (f : A → W H unit) (l : list A) : W H unit :=
  match l with
  | [] => mret tt
  | a :: l => _ ← f a; each f l
  end.

(** ** The ledger store *)

Definition store_load : W H ledger := r ← ask Load; of_result r.

(** [store.transaction]: the mutation runs on the ledger as it is under the lock,
    and what it changed is committed. *)
Definition store_transaction {A} (mutate : ledger → M (mutation A)) : W H A :=
  r ← ask Lock;
  l ← of_result r;
  '(l, a, logs, changed) ← on_world (mutate l);
  if (changed : bool)
  then r ← ask (Commit l logs); _ ← of_result r; mret a
  else mret a.
End Monad.

(** ** Reasoning *)

(** [m] ends in every such state with a result for which [Q] holds. *)
Definition runs {H A} (m : W H A) (Q : res A → supervisor H → Prop) (s : supervisor H) : Prop :=
  match m s with (Some r, s') => Q r s' | (None, _) => False end.

Definition now_of {H} `{Clock H} (s : supervisor H) : Z := time (k_host s).

(** [s'] is later than [s]: the calls of [new] were made, the clocks went on. *)
Record follows {H} `{Clock H} (s : supervisor H) (new : list event) (s' : supervisor H) : Prop := Follows {
  follows_trace : k_trace s' = k_trace s ++ new;
  follows_world : later (k_world s) (k_world s');
  follows_time : now_of s ≤ now_of s';
}.

(** Nothing else has changed. *)
Record after {H} `{Clock H} (s : supervisor H) (new : list event) (s' : supervisor H) : Prop := After {
  after_follows :> follows s new s';
  after_running : k_running s' = k_running s;
  after_counts : k_counts s' = k_counts s;
}.

Section Rules.
Context {H : Type} {Hhost : Host H} {Hclock : Clock H}.
Implicit Types s : supervisor H.

Lemma follows_refl s : follows s [] s.
Proof. split; [by rewrite app_nil_r|done..]. Qed.

Lemma follows_trans s1 n1 s2 n2 s3 : follows s1 n1 s2 → follows s2 n2 s3 → follows s1 (n1 ++ n2) s3.
Proof. intros [] []. split; [by rewrite app_assoc; congruence|by etrans|lia]. Qed.

Lemma after_refl s : after s [] s.
Proof. split; [apply follows_refl|done..]. Qed.

Lemma after_trans s1 n1 s2 n2 s3 : after s1 n1 s2 → after s2 n2 s3 → after s1 (n1 ++ n2) s3.
Proof. intros [] []. split; [by eapply follows_trans|congruence..]. Qed.

Lemma runs_mono {A} (m : W H A) (Q Q' : res A → supervisor H → Prop) s :
  runs m Q s → (∀ r s', Q r s' → Q' r s') → runs m Q' s.
Proof. unfold runs. destruct (m s) as [[r|] s']; naive_solver. Qed.

Lemma runs_result_of {A} (m : W H A) (Q : res A → supervisor H → Prop) s :
  runs m Q s → ∃ r s', m s = (Some r, s') ∧ Q r s'.
Proof. unfold runs. destruct (m s) as [[r|] s']; [eauto|done]. Qed.

Lemma runs_ret {A} (a : A) Q s : Q (Ok a) s → runs (mret a) Q s.
Proof. done. Qed.

Lemma runs_result {A} (r : res A) Q s : Q r s → runs (of_result r) Q s.
Proof. done. Qed.

Lemma runs_throws {A} e (Q : res A → supervisor H → Prop) s : Q (Raise e) s → runs (throws e) Q s.
Proof. done. Qed.

Lemma runs_bind {A B} (m : W H A) (f : A → W H B) Q s :
  runs m (λ r s', match r with Ok a => runs (f a) Q s' | Raise e => Q (Raise e) s' end) s →
  runs (m ≫= f) Q s.
Proof. unfold runs, mbind, W_bind. by destruct (m s) as [[[a|e]|] s']. Qed.

Lemma runs_catch {A} (m : W H A) Q s : runs m (λ r s', Q (Ok r) s') s → runs (catch m) Q s.
Proof. unfold runs, catch. by destruct (m s) as [[r|] s']. Qed.

Lemma runs_ask (c : syscall) Q s :
  (∀ a s', after s [Event c a] s' → now_of s + pause c ≤ now_of s' → Q (Ok a) s') →
  runs (ask c) Q s.
Proof.
  intros HQ. unfold runs, ask. destruct s as [h w running counts trace].
  pose proof (time_call c h). destruct (call c h) as [a h'] eqn:E.
  assert (0 ≤ pause c) by (destruct c; cbn; lia).
  apply HQ; [split; [split|..]|]; cbn in *; try done; unfold now_of; cbn; lia.
Qed.

Lemma runs_ask_bind {B} (c : syscall) (f : answer c → W H B) Q s :
  (∀ a s', after s [Event c a] s' → now_of s + pause c ≤ now_of s' → runs (f a) Q s') →
  runs (ask c ≫= f) Q s.
Proof. intros Hf. apply runs_bind, runs_ask. exact Hf. Qed.

Lemma runs_monotonic {B} (f : Z → W H B) Q s :
  (∀ t s', after s [Event Monotonic t] s' → now_of s ≤ t ≤ now_of s' → runs (f t) Q s') →
  runs (ask Monotonic ≫= f) Q s.
Proof.
  intros HQ. apply runs_bind. unfold runs, ask. destruct s as [h w running counts trace].
  pose proof (time_reading h). destruct (call Monotonic h) as [a h'] eqn:E.
  apply HQ; [split; [split|..]|]; cbn in *; try done; unfold now_of; cbn; lia.
Qed.

Lemma runs_world {A} (m : M A) Q s :
  forward m →
  (∀ r s', m (k_world s) = (r, k_world s') → after s [] s' → Q r s') →
  runs (on_world m) Q s.
Proof.
  intros Hf HQ. unfold runs, on_world. destruct s as [h w running counts trace].
  specialize (Hf w). destruct (m w) as [r w'] eqn:E. apply HQ; [done|].
  split; [split|..]; cbn; [by rewrite app_nil_r|done..].
Qed.

Lemma runs_get Q s : Q (Ok (k_running s)) s → runs get_running Q s.
Proof. done. Qed.

Lemma runs_each {A} (f : A → W H unit) l (I : list A → supervisor H → Prop) Q s :
  I l s →
  (∀ a l s, I (a :: l) s → runs (f a) (λ r s', match r with Ok _ => I l s' | Raise e => Q (Raise e) s' end) s) →
  (∀ s, I [] s → Q (Ok tt) s) →
  runs (each f l) Q s.
Proof.
  intros Hs Hf HQ. revert s Hs. induction l as [|a l IH]; intros s Hs; cbn.
  { apply runs_ret. auto. }
  apply runs_bind. eapply runs_mono; [by apply Hf|]. intros [[]|e] s'; auto.
Qed.

(** A loop that leaves before [deadline] or comes [d] nearer to it in each round
    ends within as many rounds as its bound allows. *)
Lemma runs_iter {A B} fuel (body : A → W H (A + B)) (I : A → supervisor H → Prop)
    (deadline d : Z) Q a s :
  0 < d → deadline - now_of s ≤ d * Z.of_nat fuel → I a s →
  (∀ a s, I a s →
     runs (body a) (λ r s', match r with
       | Ok (inl a) => I a s' ∧ now_of s < deadline ∧ (now_of s + d ≤ now_of s' ∨ deadline ≤ now_of s')
       | Ok (inr b) => Q (Ok b) s'
       | Raise e => Q (Raise e) s'
       end) s) →
  runs (iter (S fuel) body a) Q s.
Proof.
  intros Hd Hfuel Ha Hbody. revert a s Hfuel Ha. induction fuel as [|fuel IH]; intros a s Hfuel Ha.
  - cbn [iter]. apply runs_bind. eapply runs_mono; [by apply Hbody|].
    intros [[a'|b]|e] s'; [|done..]. lia.
  - cbn [iter]. apply runs_bind. eapply runs_mono; [by apply Hbody|].
    intros [[a'|b]|e] s'; [|done..]. intros (Ha' & Hlt & Hd'). apply IH; [nia|done].
Qed.

(** What a transaction does: its calls and its result. *)
Definition transacted {A} (mutate : ledger → M (mutation A)) (new : list event) (r : res A) : Prop :=
  match new with
  | Event Lock (Raise e) :: rest => rest = [] ∧ r = Raise e
  | Event Lock (Ok l) :: rest => ∃ w w',
      match mutate l w with
      | (Raise e, _) => rest = [] ∧ r = Raise e
      | (Ok (l', a, logs, changed), w1) => w1 = w' ∧
          if (changed : bool)
          then ∃ c, rest = [Event (Commit l' logs) c] ∧ r = match c with Ok _ => Ok a | Raise e => Raise e end
          else rest = [] ∧ r = Ok a
      end
  | _ => False
  end.

Lemma runs_transaction {A} (mutate : ledger → M (mutation A)) Q s :
  (∀ l, forward (mutate l)) →
  (∀ r new s', after s new s' → transacted mutate new r → Q r s') →
  runs (store_transaction mutate) Q s.
Proof.
  intros Hf HQ. unfold store_transaction. refine (runs_ask_bind Lock _ _ _ _). intros [l|e] s1 H1 _.
  2:{ apply runs_bind, runs_result, (HQ _ _ _ H1). done. }
  apply runs_bind, runs_result, runs_bind, runs_world; [done|].
  intros [[[[l' a] logs] changed]|e] s2 Hm H2.
  2:{ apply (HQ _ _ _ (after_trans _ _ _ _ _ H1 H2)). cbn.
      exists (k_world s1), (k_world s2). by rewrite Hm. }
  destruct changed.
  - refine (runs_ask_bind (Commit l' logs) _ _ _ _). intros c s3 H3 _. apply runs_bind, runs_result.
    pose proof (after_trans _ _ _ _ _ H1 (after_trans _ _ _ _ _ H2 H3)) as Ha. cbn in Ha.
    destruct c as [u|e]; [apply runs_ret|]; apply (HQ _ _ _ Ha); cbn;
      exists (k_world s1), (k_world s2); rewrite Hm; eauto.
  - apply runs_ret, (HQ _ _ _ (after_trans _ _ _ _ _ H1 H2)). cbn.
    exists (k_world s1), (k_world s2). by rewrite Hm.
Qed.

Lemma runs_load Q s :
  (∀ r s', after s [Event Load r] s' → Q r s') → runs store_load Q s.
Proof.
  intros HQ. refine (runs_ask_bind Load _ _ _ _). intros r s' Ha _. apply runs_result. auto.
Qed.
End Rules.

(** ** What a trace says *)

Definition spawned_by (ev : event) : option Z :=
  let '(Event c a) := ev in
  match c as c return answer c → option Z with
  | Popen _ => λ r, match r with Ok pid => Some pid | Raise _ => None end
  | _ => λ _, None
  end a.

(** The processes that were started, in order. *)
Definition spawned (tr : list event) : list Z := omap spawned_by tr.

Definition signalled (s : signal) (pid : Z) (tr : list event) : Prop :=
  ∃ r, Event (Killpg pid (Some s)) r ∈ tr.

Definition exited (pid : Z) (tr : list event) : Prop :=
  (∃ code, Event (Poll pid) (Some code) ∈ tr) ∨ (∃ d, Event (Wait pid d) true ∈ tr).

Definition empty_group (pid : Z) (tr : list event) : Prop :=
  ∃ r, Event (Killpg pid None) r ∈ tr ∧ r ≠ Delivered ∧ r ≠ PermissionError.

(** The process was seen to end and its group to be empty. *)
Definition ended (pid : Z) (tr : list event) : Prop := exited pid tr ∧ empty_group pid tr.

(** The two ways to let go of a process that was told to stop. *)
Definition stopped (pid : Z) (tr : list event) : Prop :=
  signalled SIGTERM pid tr ∧ (signalled SIGKILL pid tr ∨ ended pid tr).

(** A call that neither touches the ledger nor starts a process. *)
Definition on_process (c : syscall) : bool :=
  match c with Load | Lock | Commit _ _ | Popen _ => false | _ => true end.

Definition quiet (tr : list event) : Prop := Forall (λ ev, on_process (ev_call ev) = true) tr.

Lemma spawned_app tr1 tr2 : spawned (tr1 ++ tr2) = spawned tr1 ++ spawned tr2.
Proof. apply omap_app. Qed.

Lemma quiet_spawned tr : quiet tr → spawned tr = [].
Proof. induction 1 as [|[c a] tr Hc _ IH]; [done|]. cbn in *. by destruct c. Qed.

Lemma signalled_mono s pid tr tr' : tr ⊆ tr' → signalled s pid tr → signalled s pid tr'.
Proof. intros Hs [r Hr]. exists r. auto. Qed.

Lemma ended_mono pid tr tr' : tr ⊆ tr' → ended pid tr → ended pid tr'.
Proof. unfold ended, exited, empty_group. intros Hs. intuition (naive_solver). Qed.

Lemma stopped_mono pid tr tr' : tr ⊆ tr' → stopped pid tr → stopped pid tr'.
Proof.
  intros Hs [? Hp]. split; [by eapply signalled_mono|].
  destruct Hp as [|]; [left; by eapply signalled_mono|right; by eapply ended_mono].
Qed.

(** A fact about a part of the trace holds of the whole. *)
Ltac in_trace :=
  cbv beta iota in *; first [ eapply signalled_mono; [|by eauto] | eapply ended_mono; [|by eauto]
        | eapply stopped_mono; [|by eauto] ]; set_solver +.

Section Quiet.
Context {H : Type} {Hhost : Host H} {Hclock : Clock H}.
Implicit Types s : supervisor H.

(** [m] always ends, returns, changes nothing but the trace and makes quiet calls
    of which [P] holds. *)
Definition quietly {A} (m : W H A) (P : A → list event → Prop) : Prop := ∀ s,
  runs m (λ r s', ∃ a new, r = Ok a ∧ after s new s' ∧ quiet new ∧ P a new) s.

Lemma quietly_ret {A} (a : A) (P : A → list event → Prop) : P a [] → quietly (mret a) P.
Proof. intros HP s. apply runs_ret. exists a, []. split_and!; [done|apply after_refl|constructor|done]. Qed.

Lemma quietly_ask c (P : answer c → list event → Prop) :
  on_process c = true → (∀ a, P a [Event c a]) → quietly (ask c) P.
Proof.
  intros Hc HP s. apply runs_ask. intros a s' Ha _. exists a, [Event c a].
  split_and!; [done..|by apply Forall_singleton|done].
Qed.

Lemma quietly_mono {A} (m : W H A) (P P' : A → list event → Prop) :
  quietly m P → (∀ a new, P a new → P' a new) → quietly m P'.
Proof. intros Hm HP s. eapply runs_mono; [apply Hm|]. naive_solver. Qed.

Lemma quietly_bind {A B} (m : W H A) (f : A → W H B) P (Q : B → list event → Prop) :
  quietly m P →
  (∀ a n1, P a n1 → quietly (f a) (λ b n2, Q b (n1 ++ n2))) →
  quietly (m ≫= f) Q.
Proof.
  intros Hm Hf s. apply runs_bind. eapply runs_mono; [apply Hm|].
  intros ? s1 (a & n1 & -> & H1 & Hq1 & HP). eapply runs_mono; [by apply (Hf a n1)|].
  intros ? s2 (b & n2 & -> & H2 & Hq2 & HQ). exists b, (n1 ++ n2).
  split_and!; [done|by eapply after_trans|by apply Forall_app|done].
Qed.

(** One quiet step of a longer run that began in [s0]. *)
Lemma runs_quietly {A B} (m : W H A) P (f : A → W H B) Q s0 n0 s :
  quietly m P → after s0 n0 s → quiet n0 →
  (∀ a new s', after s0 (n0 ++ new) s' → quiet (n0 ++ new) → P a new → now_of s ≤ now_of s' →
     runs (f a) Q s') →
  runs (m ≫= f) Q s.
Proof.
  intros Hm Ha Hq Hf. apply runs_bind. eapply runs_mono; [apply Hm|].
  intros ? s1 (a & n1 & -> & H1 & Hq1 & HP). apply (Hf a n1); [|by apply Forall_app|done|apply H1].
  by eapply after_trans.
Qed.

Lemma runs_quiet_ask {B} c (f : answer c → W H B) Q s0 n0 s :
  on_process c = true → after s0 n0 s → quiet n0 →
  (∀ a s', after s0 (n0 ++ [Event c a]) s' → quiet (n0 ++ [Event c a]) →
     now_of s + pause c ≤ now_of s' → runs (f a) Q s') →
  runs (ask c ≫= f) Q s.
Proof.
  intros Hc Ha Hq Hf. apply runs_ask_bind. intros a s' Ha' Ht.
  apply Hf; [by eapply after_trans| |done]. apply Forall_app. split; [done|by apply Forall_singleton].
Qed.

Lemma runs_quiet_monotonic {B} (f : Z → W H B) Q s0 n0 s :
  after s0 n0 s → quiet n0 →
  (∀ t s', after s0 (n0 ++ [Event Monotonic t]) s' → quiet (n0 ++ [Event Monotonic t]) →
     now_of s ≤ t ≤ now_of s' → runs (f t) Q s') →
  runs (ask Monotonic ≫= f) Q s.
Proof.
  intros Ha Hq Hf. apply runs_monotonic. intros t s' Ha' Ht.
  apply Hf; [by eapply after_trans| |done]. apply Forall_app. split; [done|by apply Forall_singleton].
Qed.
End Quiet.

(** ** Runs that start no process *)

Section Steady.
Context {H : Type} {Hhost : Host H} {Hclock : Clock H}.
Implicit Types s : supervisor H.

(** In every state after the world [w], [m] ends and starts no process; [P] speaks
    of its result or exception and of its calls. *)
Definition steady {A} (w : world) (m : W H A) (P : res A → list event → Prop) : Prop := ∀ s,
  later w (k_world s) →
  runs m (λ r s', ∃ new, after s new s' ∧ spawned new = [] ∧ P r new) s.

Context (w : world).

Lemma steady_mono {A} (m : W H A) (P P' : res A → list event → Prop) :
  steady w m P → (∀ r new, P r new → P' r new) → steady w m P'.
Proof. intros Hm HP s Hw. eapply runs_mono; [by apply Hm|]. naive_solver. Qed.

Lemma steady_ret {A} (a : A) (P : res A → list event → Prop) : P (Ok a) [] → steady w (mret a) P.
Proof. intros HP s _. apply runs_ret. exists []. split; [apply after_refl|done]. Qed.

Lemma steady_result {A} (r : res A) (P : res A → list event → Prop) : P r [] → steady w (of_result r) P.
Proof. intros HP s _. apply runs_result. exists []. split; [apply after_refl|done]. Qed.

Lemma steady_ask c (P : res (answer c) → list event → Prop) :
  (∀ a, spawned [Event c a] = []) → (∀ a, P (Ok a) [Event c a]) → steady w (ask c) P.
Proof. intros Hc HP s _. apply runs_ask. intros a s' Ha _. exists [Event c a]. auto. Qed.

Lemma steady_quietly {A} (m : W H A) P : quietly m P →
  steady w m (λ r new, ∃ a, r = Ok a ∧ P a new).
Proof.
  intros Hm s _. eapply runs_mono; [apply Hm|]. intros r s' (a & new & -> & Ha & Hq & HP).
  exists new. split_and!; [done|by apply quiet_spawned|eauto].
Qed.

Lemma steady_world {A} (m : M A) (P : res A → list event → Prop) :
  forward m → (∀ w1 r w2, later w w1 → m w1 = (r, w2) → P r []) → steady w (on_world m) P.
Proof.
  intros Hf HP s Hw. apply runs_world; [done|]. intros r s' Hm Ha. exists [].
  split_and!; [done..|]. by eapply HP.
Qed.

Lemma steady_load (P : res ledger → list event → Prop) :
  (∀ r, P r [Event Load r]) → steady w store_load P.
Proof. intros HP s _. apply runs_load. intros r s' Ha. exists [Event Load r]. auto. Qed.

Lemma transacted_spawned {A} (m : ledger → M (mutation A)) new r : transacted m new r → spawned new = [].
Proof.
  unfold transacted. destruct new as [|[[] a] rest]; try done. destruct a as [l|e]; [|by intros [-> _]].
  intros (w0 & w' & Hm). destruct (m l w0) as [[[[[l' a] logs] changed]|e] w1]; [|by destruct Hm as [-> _]].
  destruct Hm as [_ Hm]. destruct changed; [|by destruct Hm as [-> _]]. by destruct Hm as (c & -> & _).
Qed.

Lemma steady_transaction {A} (m : ledger → M (mutation A)) :
  (∀ l, forward (m l)) → steady w (store_transaction m) (λ r new, transacted m new r).
Proof.
  intros Hf s _. apply runs_transaction; [done|]. intros r new s' Ha Ht.
  exists new. split_and!; [done|by eapply transacted_spawned|done].
Qed.

Lemma steady_bind {A B} (m : W H A) (f : A → W H B) P Q :
  steady w m P →
  (∀ e n, P (Raise e) n → Q (Raise e) n) →
  (∀ a n1, P (Ok a) n1 → steady w (f a) (λ r n2, Q r (n1 ++ n2))) →
  steady w (m ≫= f) Q.
Proof.
  intros Hm He Hf s Hw. apply runs_bind. eapply runs_mono; [by apply Hm|].
  intros [a|e] s1 (n1 & H1 & Hs1 & HP); [|eauto]. eapply runs_mono.
  { apply (Hf a n1 HP). etrans; [done|]. apply H1. }
  intros r s2 (n2 & H2 & Hs2 & HQ). exists (n1 ++ n2).
  split_and!; [by eapply after_trans|by rewrite spawned_app, Hs1, Hs2|done].
Qed.

Lemma steady_catch {A} (m : W H A) P : steady w m P →
  steady w (catch m) (λ r new, ∃ x, r = Ok x ∧ P x new).
Proof.
  intros Hm s Hw. apply runs_catch. eapply runs_mono; [by apply Hm|]. naive_solver.
Qed.
End Steady.

(** ** A host for examples

    A machine with a ledger, a clock and processes that ignore [SIGTERM] when
    [sim_stubborn] says so; a killed process is gone at once. *)
Record sim := Sim {
  sim_time : Z;
  sim_ledger : res ledger;
  sim_alive : list Z;
  sim_stubborn : bool;
  sim_view : file_view;
}.

Definition sim_send (pid : Z) (s : option signal) (m : sim) : kill_result * sim :=
  if bool_decide (pid ∈ sim_alive m) then
    match s with
    | Some SIGKILL =>
        (Delivered, Sim (sim_time m) (sim_ledger m) (filter (λ p, p ≠ pid) (sim_alive m)) (sim_stubborn m) (sim_view m))
    | Some SIGTERM =>
        (Delivered, Sim (sim_time m) (sim_ledger m)
                      (if sim_stubborn m then sim_alive m else filter (λ p, p ≠ pid) (sim_alive m))
                      (sim_stubborn m) (sim_view m))
    | None => (Delivered, m)
    end
  else (ProcessLookupError, m).

#[export] Instance sim_host : Host sim := λ c m,
  match c as c return answer c * sim with
  | Load | Lock => (sim_ledger m, m)
  | Commit l _ => (Ok tt, Sim (sim_time m) (Ok l) (sim_alive m) (sim_stubborn m) (sim_view m))
  | Files => (sim_view m, m)
  | LogOpen _ _ _ => (Ok 1, m)
  | LogEvent _ _ | LogStart _ _ => (Ok tt, m)
  | LogAbort _ => (tt, m)
  | LogFinish _ => (Ok None, m)
  | LogRotations _ => (0, m)
  | Popen _ => (Ok (100 + sim_time m),
      Sim (sim_time m + 1) (sim_ledger m) (100 + sim_time m :: sim_alive m) (sim_stubborn m) (sim_view m))
  | HasStdout _ => (true, m)
  | Killpg pid s => sim_send pid s m
  | SendSignal pid s => (tt, m)
  | Discover _ => (ProcessDiscovery true ((λ p, ManagedProcessGroup p p "") <$> sim_alive m) None, m)
  | Poll pid => (if bool_decide (pid ∈ sim_alive m) then None else Some (-9), m)
  | Wait pid _ => (bool_decide (pid ∉ sim_alive m), m)
  | Monotonic => (sim_time m, m)
  | AcquireLease | InstallHandlers | CleanSpecs _ | CleanLogs _ _ => (Ok tt, m)
  | ReleaseLease | RestoreHandlers | WaitForStop _ => (tt, m)
  | StopRequested => (false, m)
  | Snapshot => (Ok [], m)
  | Sleep d => (tt, Sim (sim_time m + Z.max 0 d) (sim_ledger m) (sim_alive m) (sim_stubborn m) (sim_view m))
  end.

#[export] Program Instance sim_clock : Clock sim := {| time := sim_time |}.
Next Obligation.
  intros c m. destruct c as [| | | | | | | | | | | |pid [[]|]| | | | | | | | | | | | | | |]; cbn; unfold sim_send;
    try case_bool_decide; cbn; lia.
Qed.
Next Obligation. intros m. cbn. lia. Qed.
