(* ===== verification/Worker.v ===== *)
(** * Worker: the processes of the jobs ([src/src/bk/worker.py])

    Starting a claimed job, watching the running ones, and stopping them when the
    worker ends. The code runs on the host of [Process]; the transactions are those
    of [Jobs], the command is read by [JobSpecs].

    The trace of the calls says what happened to a process: [spawned] lists the
    processes that were started, [stopped] and [completed] are the two ways in which
    the worker may let go of one. *)

From S2P Require Import Prelude PyBase Json Jsonl Timeparse Models Sha256 Requests Jobs JobSpecs Process.

(** ** Signals *)

Section Processes.
Context {H : Type} `{!Host H}.

Definition _process_group_alive (pid : Z) : W H bool :=
  r ← ask (Killpg pid None);
  mret (match r with Delivered | PermissionError => true | _ => false end).

(** The group, and when that fails the process itself if it has not ended. *)
Definition signal_group (s : signal) (pid : Z) : W H unit :=
  r ← ask (Killpg pid (Some s));
  match r with
  | Delivered => mret tt
  | _ =>
      code ← ask (Poll pid);
      match code with None => ask (SendSignal pid s) | Some _ => mret tt end
  end.

Definition _terminate_process_group (pid : Z) : W H unit := signal_group SIGTERM pid.
Definition _kill_process_group (pid : Z) : W H unit := signal_group SIGKILL pid.

Definition STEP : timedelta := 50000.

(** Enough rounds for a loop that pauses [STEP] until a deadline [d] ahead. *)
Definition rounds (d : timedelta) : nat := S (Z.to_nat (d / STEP + 1)).

(** [time.sleep(min(0.05, max(0.0, deadline - time.monotonic())))] *)
Definition sleep_until (deadline : Z) : W H unit :=
  now ← ask Monotonic; ask (Sleep (Z.min STEP (Z.max 0 (deadline - now)))).

Definition _terminate_and_reap_process_group (pid : Z) (grace : timedelta) : W H unit :=
  _ ← _terminate_process_group pid;
  start ← ask Monotonic;
  let deadline := start + grace in
  _ ← iter (rounds grace) (λ _ : (),
    alive ← _process_group_alive pid;
    if (alive : bool) then
      now ← ask Monotonic;
      if now <? deadline
      then _ ← ask (Poll pid); _ ← ask (Sleep STEP); mret (inl ())
      else mret (inr ())
    else mret (inr ())) ();
  alive ← _process_group_alive pid;
  _ ← if (alive : bool) then _kill_process_group pid else mret tt;
  exited ← ask (Wait pid (seconds 1));
  if (exited : bool) then mret tt else _kill_process_group pid.

(** [any(_process_group_alive(item.process) for item in jobs)] *)
Fixpoint any_alive (items : list running_item) : W H bool :=
  match items with
  | [] => mret false
  | it :: items =>
      alive ← _process_group_alive (it_pid it);
      if (alive : bool) then mret true else any_alive items
  end.

(** One pass over all jobs that kills again what is still alive. *)
Fixpoint kill_alive (items : list running_item) : W H bool :=
  match items with
  | [] => mret false
  | it :: items =>
      _ ← ask (Poll (it_pid it));
      alive ← _process_group_alive (it_pid it);
      _ ← if (alive : bool) then _kill_process_group (it_pid it) else mret tt;
      others ← kill_alive items;
      mret ((alive : bool) || others)
  end.

Definition _kill_and_reap_running_jobs (jobs : list running_item) (timeout : timedelta) : W H unit :=
  _ ← each (λ it, _kill_process_group (it_pid it)) jobs;
  start ← ask Monotonic;
  let deadline := start + timeout in
  _ ← iter (rounds timeout) (λ _ : (),
    alive ← kill_alive jobs;
    if negb alive then mret (inr ()) else
    now ← ask Monotonic;
    if deadline <=? now then mret (inr ()) else
    _ ← sleep_until deadline; mret (inl ())) ();
  each (λ it, _ ← ask (Poll (it_pid it)); mret tt) jobs.

(** ** The running jobs *)

(** An item of [running] is a shared object: a change is seen in the dict. *)
Definition put_item (it : running_item) : W H unit :=
  running ← get_running;
  set_running ((λ x, if bool_decide (it_id x = it_id it) then it else x) <$> running).

Definition pop_item (id : string) : W H unit :=
  running ← get_running; set_running (filter (λ x, it_id x ≠ id) running).

(** [running[started.reservation_id] = started] *)
Definition add_item (it : running_item) : W H unit :=
  running ← get_running;
  set_running (if bool_decide (it_id it ∈ it_id <$> running)
               then (λ x, if bool_decide (it_id x = it_id it) then it else x) <$> running
               else running ++ [it]).

Definition with_reason (reason : string) (it : running_item) : running_item :=
  RunningItem (RunningJob (it_id it) (rj_token (it_job it)) (Some reason))
    (it_pid it) (it_pump it) (it_end_at it) (it_requested_at it).

Definition with_requested_at (t : Z) (it : running_item) : running_item :=
  RunningItem (it_job it) (it_pid it) (it_pump it) (it_end_at it) (Some t).

(** The item as it is afterwards. *)
Definition _request_termination (it : running_item) (reason : string) : W H running_item :=
  let it := with_reason reason it in
  match it_requested_at it with
  | Some _ => _ ← put_item it; mret it
  | None =>
      t ← ask Monotonic;
      let it := with_requested_at t it in
      _ ← put_item it;
      _ ← _terminate_process_group (it_pid it);
      mret it
  end.

(** [by_id.get(reservation_id)]: the last record with an id wins. *)
Definition by_id (l : ledger) (id : string) : option reservation :=
  last (filter (λ r, r_id r = id) (l_reservations l)).

Definition is_cancelled (l : ledger) (id : string) : bool :=
  match by_id l id with None => true | Some r => bool_decide (r_status r = STATUS_CANCELLED) end.

(** Whether a job has to end, and the reason. *)
Definition check_item (l : ledger) (now : datetime) (grace : timedelta) (it : running_item)
    : W H running_item :=
  if is_cancelled l (it_id it)
  then if bool_decide (it_reason it = Some "cancelled") then mret it
       else _request_termination it "cancelled"
  else if bool_decide (it_reason it = None) && (it_end_at it - grace <=? now)
  then _request_termination it "deadline"
  else mret it.

(** The kill at the end of the reservation, or after the grace period. *)
Definition enforce_item (now : datetime) (grace : timedelta) (it : running_item) : W H unit :=
  if bool_decide (it_reason it = Some "deadline")
  then if it_end_at it <=? now then _kill_process_group (it_pid it) else mret tt
  else match it_requested_at it with
  | None => mret tt
  | Some requested =>
      t ← ask Monotonic;
      if grace <=? t - requested then _kill_process_group (it_pid it) else mret tt
  end.

Definition outcome_key (status : string) : string :=
  if bool_decide (status = JOB_SUCCEEDED) then "succeeded"
  else if bool_decide (status = JOB_CANCELLED) then "cancelled" else "failed".

(** A process that has ended with its whole group is recorded and forgotten. *)
Definition finish_item (a : actor) (it : running_item) : W H unit :=
  code ← ask (Poll (it_pid it));
  match code with
  | None => mret tt
  | Some exit_code =>
      alive ← _process_group_alive (it_pid it);
      if (alive : bool) then mret tt else
      r ← ask (LogFinish (it_pump it));
      log_warning ← of_result r;
      let status := _completion_status exit_code (it_reason it) in
      log_rotations ← ask (LogRotations (it_pump it));
      _ ← store_transaction (complete_mutate a (it_job it) status exit_code log_warning log_rotations);
      _ ← count (outcome_key status) 1;
      pop_item (it_id it)
  end.

Definition reconcile_item (a : actor) (l : ledger) (now : datetime) (grace : timedelta)
    (it : running_item) : W H unit :=
  it ← check_item l now grace it;
  _ ← enforce_item now grace it;
  finish_item a it.

Definition _reconcile_running (a : actor) (grace : timedelta) (now : datetime) : W H unit :=
  running ← get_running;
  if bool_decide (running = []) then mret tt else
  l ← store_load;
  each (reconcile_item a l now grace) running.

(** ** The end of the worker *)

Definition _stop_running_jobs (now : datetime) : W H unit :=
  running ← get_running;
  each (λ it,
    if bool_decide (it_reason it = Some "cancelled") then mret tt else
    _ ← _request_termination it (if it_end_at it <=? now then "deadline" else "worker-stop");
    mret tt) running.

Definition _shutdown_running_jobs (reconcile : datetime → W H unit) (grace : timedelta) : W H unit :=
  now ← on_world utc_now;
  _ ← _stop_running_jobs now;
  start ← ask Monotonic;
  let deadline := start + grace in
  _ ← iter (rounds grace) (λ available : bool,
    running ← get_running;
    if bool_decide (running = []) then mret (inr ()) else
    now ← ask Monotonic;
    if deadline <=? now then mret (inr ()) else
    available ← (if available then
      at_ ← on_world utc_now;
      r ← catch (reconcile at_);
      mret (match r with Ok _ => true | Raise _ => false end)
      else mret false);
    running ← get_running;
    if bool_decide (running = []) then mret (inr ()) else
    alive ← (if (available : bool) then mret true else any_alive running);
    if (alive : bool) then _ ← sleep_until deadline; mret (inl available) else mret (inr ())) true;
  running ← get_running;
  if bool_decide (running = []) then mret tt else
  _ ← _kill_and_reap_running_jobs running (seconds 1);
  at_ ← on_world utc_now;
  _ ← catch (reconcile at_);
  mret tt.

Definition _shutdown_running_jobs_without_ledger (grace : timedelta) : W H unit :=
  jobs ← get_running;
  now ← on_world utc_now;
  _ ← _stop_running_jobs now;
  start ← ask Monotonic;
  let deadline := start + grace in
  _ ← iter (rounds grace) (λ _ : (),
    alive ← any_alive jobs;
    if negb alive then mret (inr ()) else
    now ← ask Monotonic;
    if deadline <=? now then mret (inr ()) else
    _ ← sleep_until deadline; mret (inl ())) ();
  _ ← _kill_and_reap_running_jobs jobs (seconds 1);
  _ ← each (λ it,
    r ← ask (LogFinish (it_pump it));
    match r with
    | Ok _ => mret tt
    | Raise e => if is_os_error e || (match e with RuntimeError _ => true | _ => false end)
                 then mret tt else throws e
    end) jobs;
  set_running [].
End Processes.

(** ** Signals always end *)

Section Signals.
Context {H : Type} {Hhost : Host H} {Hclock : Clock H}.
Implicit Types s : supervisor H.

Lemma group_alive_run pid :
  quietly (_process_group_alive pid) (λ alive new, alive = false → empty_group pid new).
Proof.
  eapply quietly_bind; [by apply (quietly_ask (Killpg pid None) (λ a new, new = [Event (Killpg pid None) a]))|].
  cbn. intros r ? ->. apply quietly_ret. intros Hr. exists r. split; [by left|]. by destruct r.
Qed.

Lemma signal_group_run sg pid :
  quietly (signal_group sg pid) (λ _ new, signalled sg pid new).
Proof.
  eapply quietly_bind; [by apply (quietly_ask (Killpg pid (Some sg)) (λ a new, new = [Event (Killpg pid (Some sg)) a]))|].
  cbn. intros r ? ->.
  assert (Hsg : ∀ new, signalled sg pid (Event (Killpg pid (Some sg)) r :: new))
    by (intros new; exists r; by left).
  assert (Hf : quietly (code ← ask (Poll pid);
      match code with None => ask (SendSignal pid sg) | Some _ => mret tt end)
      (λ _ new, signalled sg pid ([Event (Killpg pid (Some sg)) r] ++ new))).
  { eapply quietly_bind; [by apply (quietly_ask (Poll pid) (λ _ _, True))|]. cbn. intros [code|] n1 _.
    - apply quietly_ret, Hsg.
    - apply (quietly_ask (SendSignal pid sg)); [done|]. intros; apply Hsg. }
  destruct r; [apply quietly_ret, Hsg|done..].
Qed.

(** A loop that pauses towards a deadline ends in its rounds. *)
Lemma runs_until {A B} (d start : Z) (body : A → W H (A + B)) (I : A → supervisor H → Prop) Q a s :
  start ≤ now_of s → I a s →
  (∀ a s, I a s →
     runs (body a) (λ r s', match r with
       | Ok (inl a) => I a s' ∧ now_of s < start + d ∧
                       (now_of s + STEP ≤ now_of s' ∨ start + d ≤ now_of s')
       | Ok (inr b) => Q (Ok b) s'
       | Raise e => Q (Raise e) s'
       end) s) →
  runs (iter (rounds d) body a) Q s.
Proof.
  intros Hstart Ha Hbody. apply (runs_iter _ _ I (start + d) STEP); [done| |done|done].
  assert (d ≤ STEP * (d / STEP + 1)) by (pose proof (Z.mod_pos_bound d STEP ltac:(done));
    pose proof (Z.div_mod d STEP ltac:(done)); lia).
  destruct (Z.le_gt_cases 0 (d / STEP + 1)); [rewrite Z2Nat.id by done|]; unfold STEP in *; lia.
Qed.

(** One quiet round of such a loop, with calls in [E]; [R] speaks of the value it
    leaves with. *)
Definition quiet_round {A B} (E : event → Prop) (R : B → list event → Prop) (deadline : Z)
    (m : W H (A + B)) : Prop := ∀ s,
  runs m (λ r s', ∃ x new, r = Ok x ∧ after s new s' ∧ quiet new ∧ Forall E new ∧
    match x with
    | inl _ => now_of s < deadline ∧ (now_of s + STEP ≤ now_of s' ∨ deadline ≤ now_of s')
    | inr b => R b new
    end) s.

Lemma runs_quiet_until {A B C} (E : event → Prop) R d (body : Z → A → W H (A + B)) a (f : B → W H C) Q s0 n0 s :
  after s0 n0 s → quiet n0 →
  (∀ t, E (Event Monotonic t)) →
  (∀ start a, quiet_round E R (start + d) (body start a)) →
  (∀ b n1 n2 s1, after s0 (n0 ++ n1 ++ n2) s1 → quiet (n0 ++ n1 ++ n2) → Forall E (n1 ++ n2) → R b n2 →
     runs (f b) Q s1) →
  runs (start ← ask Monotonic; b ← iter (rounds d) (body start) a; f b) Q s.
Proof.
  intros Ha Hq Hmono Hbody Hf. eapply runs_quiet_monotonic; [done..|]. intros start s1 H1 Hq1 Ht.
  apply runs_bind, (runs_until d start _ (λ _ s', ∃ n, after s0 (n0 ++ n) s' ∧ quiet (n0 ++ n) ∧ Forall E n)); [lia| |].
  { exists [Event Monotonic start]. split_and!; [done..|]. apply Forall_singleton, Hmono. }
  intros x s2 (n2 & H2 & Hq2 & HE2). eapply runs_mono; [apply Hbody|].
  intros ? s3 (y & n3 & -> & H3 & Hq3 & HE3 & Hy).
  assert (HE4 : Forall E (n2 ++ n3)) by (by apply Forall_app).
  pose proof (after_trans _ _ _ _ _ H2 H3) as H4. rewrite <- app_assoc in H4.
  assert (Hq4 : quiet (n0 ++ n2 ++ n3)) by (rewrite app_assoc; by apply Forall_app).
  destruct y as [y|b]; [eauto 10|by eapply Hf].
Qed.

Lemma quietly_until {A B C} (E : event → Prop) R d (body : Z → A → W H (A + B)) a (f : B → W H C)
    (Q : C → list event → Prop) :
  (∀ t, E (Event Monotonic t)) →
  (∀ start a, quiet_round E R (start + d) (body start a)) →
  (∀ b n1 n2, Forall E (n1 ++ n2) → R b n2 → quietly (f b) (λ c n3, Q c (n1 ++ n2 ++ n3))) →
  quietly (start ← ask Monotonic; b ← iter (rounds d) (body start) a; f b) Q.
Proof.
  intros Hmono Hbody Hf s. eapply runs_quiet_until; [apply after_refl|constructor|done|done|].
  intros b n1 n2 s1 H1 Hq1 HE HR. eapply runs_mono; [by apply (Hf b n1 n2)|]. intros ? s2 (c & n3 & -> & H2 & Hq2 & HQ).
  exists c, (n1 ++ n2 ++ n3). split_and!; [done| |by rewrite app_assoc; apply Forall_app|done].
  rewrite app_assoc. by eapply after_trans.
Qed.

Lemma quietly_sleep_until deadline s :
  runs (sleep_until deadline) (λ r s', ∃ new, r = Ok tt ∧ after s new s' ∧ quiet new ∧
    (∃ t d, new = [Event Monotonic t; Event (Sleep d) tt]) ∧
    (now_of s + STEP ≤ now_of s' ∨ deadline ≤ now_of s')) s.
Proof.
  unfold sleep_until.
  eapply runs_quiet_monotonic; [apply after_refl|constructor|]. intros t s1 H1 Hq1 Ht.
  refine (runs_ask (Sleep _) _ _ _). intros [] s2 H2 Ht2. cbn in Ht2.
  eexists. split; [done|]. split; [by eapply after_trans|]. unfold STEP in *. split; [|split; [by eauto|lia]].
  apply Forall_app; split; [done|by apply Forall_singleton].
Qed.

(** A question first, and the time. *)
Lemma quiet_round_ask {A B C} (E : event → Prop) R deadline (m : W H C) P (f : C → W H (A + B)) :
  quietly m P → (∀ c n1, P c n1 → Forall E n1 ∧ quiet_round E (λ b n2, R b (n1 ++ n2)) deadline (f c)) →
  quiet_round E R deadline (m ≫= f).
Proof.
  intros Hm Hf s. apply runs_bind. eapply runs_mono; [apply Hm|].
  intros ? s1 (c & n1 & -> & H1 & Hq1 & HP). destruct (Hf c n1 HP) as [HE1 Hr].
  eapply runs_mono; [apply Hr|].
  intros ? s2 (x & n2 & -> & H2 & Hq2 & HE2 & Hx). exists x, (n1 ++ n2).
  split_and!; [done|by eapply after_trans|by apply Forall_app|by apply Forall_app|]. pose proof (follows_time _ _ _ H1).
  destruct x; [|done]. destruct Hx. lia.
Qed.

Lemma quiet_round_ret {A B} (E : event → Prop) (R : B → list event → Prop) deadline (b : B) :
  R b [] → quiet_round E R deadline (mret (inr b) : W H (A + B)).
Proof. intros HR s. apply runs_ret. exists (inr b), []. split_and!; [done|apply after_refl|constructor|constructor|done]. Qed.

Lemma quiet_round_now {A B} (E : event → Prop) (R : B → list event → Prop) deadline (f : Z → W H (A + B)) :
  (∀ t, E (Event Monotonic t)) →
  (∀ t, if t <? deadline
        then ∀ s, runs (f t) (λ r s', ∃ x new, r = Ok x ∧ after s new s' ∧ quiet new ∧ Forall E new ∧
               match x with inl _ => now_of s + STEP ≤ now_of s' ∨ deadline ≤ now_of s'
               | inr b => R b (Event Monotonic t :: new) end) s
        else ∃ b, f t = mret (inr b) ∧ R b [Event Monotonic t]) →
  quiet_round E R deadline (now ← ask Monotonic; f now).
Proof.
  intros Hmono Hf s. eapply runs_quiet_monotonic; [apply after_refl|constructor|]. intros t s1 H1 Hq1 Ht.
  cbn [app] in *. specialize (Hf t). destruct (Z.ltb_spec t deadline).
  - eapply runs_mono; [apply Hf|]. intros ? s2 (x & n2 & -> & H2 & Hq2 & HE2 & Hx).
    exists x, ([Event Monotonic t] ++ n2).
    split_and!; [done|by eapply after_trans|by apply Forall_app|by constructor|]. destruct x; [|done]. lia.
  - destruct Hf as (b & -> & HR). apply runs_ret. exists (inr b), [Event Monotonic t].
    split_and!; try done. by apply Forall_singleton.
Qed.

Definition anything (ev : event) : Prop := True.

Lemma all_anything tr : Forall anything tr.
Proof. by apply Forall_forall. Qed.

Lemma terminate_and_reap_run pid grace :
  quietly (_terminate_and_reap_process_group pid grace) (λ _ new, stopped pid new).
Proof.
  unfold _terminate_and_reap_process_group.
  eapply quietly_bind; [apply (signal_group_run SIGTERM)|]. intros [] n0 H0. apply (quietly_until anything (λ _ _, True)); [done|..].
  - intros start []. eapply quiet_round_ask; [apply group_alive_run|].
    intros alive n1 _. split; [apply all_anything|]. destruct alive; [|by apply quiet_round_ret].
    apply quiet_round_now; [done|]. intros t.
    destruct (t <? start + grace); [|by eexists]. intros s.
    eapply runs_quiet_ask; [done|apply after_refl|constructor|]. intros a s1 H1 Hq1 Ht1.
    eapply (runs_quiet_ask (Sleep STEP)); [done..|]. intros [] s2 H2 Hq2 Ht2. apply runs_ret.
    eexists _, _. split_and!; [done..|apply all_anything|]. left. cbn in *. lia.
  - intros [] n1 n1' _ _. eapply quietly_bind; [apply group_alive_run|]. intros alive n2 H2.
    eapply (quietly_bind _ _ (λ _ n, alive = true → signalled SIGKILL pid n)).
    { destruct alive; [|by apply quietly_ret].
      eapply quietly_mono; [apply signal_group_run|by auto]. }
    intros [] n3 H3. eapply quietly_bind; [by apply (quietly_ask (Wait pid (seconds 1)) (λ a n, n = [Event (Wait pid (seconds 1)) a]))|].
    cbn. intros exited_ ? ->. destruct exited_.
    + apply quietly_ret. split; [in_trace|]. destruct alive; [left; in_trace|].
      right. split; [right; exists (seconds 1); set_solver|]. specialize (H2 eq_refl).
      destruct H2 as (r & Hr & ?). exists r. set_solver.
    + eapply quietly_mono; [apply signal_group_run|]. intros [] n Hn.
      split; [in_trace|left; in_trace].
Qed.

Lemma quietly_each {A} (f : A → W H unit) (P : A → list event → Prop) l :
  (∀ a, quietly (f a) (λ _ new, P a new)) → (∀ a tr tr', tr ⊆ tr' → P a tr → P a tr') →
  quietly (each f l) (λ _ new, ∀ a, a ∈ l → P a new).
Proof.
  intros Hf HP. induction l as [|a l IH]; cbn.
  { apply quietly_ret. intros a Ha. by apply not_elem_of_nil in Ha. }
  eapply quietly_bind; [apply Hf|]. intros [] n1 Ha. eapply quietly_mono; [apply IH|].
  intros [] n2 Hl b [->|Hb]%elem_of_cons; (eapply HP; [|by eauto]; set_solver +).
Qed.

Lemma any_alive_run items : quietly (any_alive items) (λ _ _, True).
Proof.
  induction items as [|it items IH]; cbn; [by apply quietly_ret|].
  eapply quietly_bind; [apply group_alive_run|]. intros [] n _; [by apply quietly_ret|apply IH].
Qed.

Lemma kill_alive_run items : quietly (kill_alive items) (λ _ _, True).
Proof.
  induction items as [|it items IH]; cbn; [by apply quietly_ret|].
  eapply quietly_bind; [by apply (quietly_ask (Poll _) (λ _ _, True))|]. intros code n1 _.
  eapply quietly_bind; [apply group_alive_run|]. intros alive n2 _.
  eapply (quietly_bind _ _ (λ _ _, True)).
  { destruct alive; [|by apply quietly_ret]. by eapply quietly_mono; [apply signal_group_run|]. }
  intros [] n3 _. eapply quietly_bind; [apply IH|]. intros others n4 _. by apply quietly_ret.
Qed.

Lemma quiet_round_sleep {A B} (E : event → Prop) (R : B → list event → Prop) deadline (a : A) s :
  (∀ t, E (Event Monotonic t)) → (∀ d, E (Event (Sleep d) tt)) →
  runs (_ ← sleep_until deadline; mret (inl a : A + B)) (λ r s', ∃ x new, r = Ok x ∧ after s new s' ∧
    quiet new ∧ Forall E new ∧
    match x with inl _ => now_of s + STEP ≤ now_of s' ∨ deadline ≤ now_of s' | inr b => R b new end) s.
Proof.
  intros Hm Hsl. apply runs_bind. eapply runs_mono; [apply quietly_sleep_until|].
  intros ? s1 (new & -> & H1 & Hq & (t & d & ->) & Ht). apply runs_ret. eexists _, _.
  split_and!; [done..| |exact Ht]. repeat constructor; auto.
Qed.

(** The common end of the rounds: leave at the deadline, or pause. *)
Lemma quiet_round_pause {A B} (E : event → Prop) (R : B → list event → Prop) deadline (a : A) (b : B) :
  (∀ t, E (Event Monotonic t)) → (∀ d, E (Event (Sleep d) tt)) →
  (∀ t, R b [Event Monotonic t]) →
  quiet_round E R deadline (now ← ask Monotonic;
    if deadline <=? now then mret (inr b) else (_ ← sleep_until deadline; mret (inl a))).
Proof.
  intros Hm Hsl HR. apply quiet_round_now; [done|]. intros t. rewrite Z.leb_antisym.
  destruct (t <? deadline); cbn [negb]; [|by eexists]. intros s.
  by apply (quiet_round_sleep E (λ b n, R b (Event Monotonic t :: n))).
Qed.

Lemma kill_and_reap_run jobs timeout :
  quietly (_kill_and_reap_running_jobs jobs timeout) (λ _ new,
    ∀ it, it ∈ jobs → signalled SIGKILL (it_pid it) new).
Proof.
  unfold _kill_and_reap_running_jobs.
  eapply quietly_bind.
  { apply (quietly_each _ (λ it new, signalled SIGKILL (it_pid it) new)).
    - intros it. apply signal_group_run.
    - intros it tr tr'. apply signalled_mono. }
  intros [] n0 H0. apply (quietly_until anything (λ _ _, True)); [done|..].
  - intros start []. eapply quiet_round_ask; [apply kill_alive_run|].
    intros alive n1 _. split; [apply all_anything|].
    destruct alive; [|by apply quiet_round_ret]. by apply quiet_round_pause.
  - intros [] n1 n1' _ _. eapply quietly_mono.
    + apply (quietly_each _ (λ _ _, True)); [|done]. intros it.
      eapply quietly_bind; [by apply (quietly_ask (Poll _) (λ _ _, True))|]. intros; by apply quietly_ret.
    + intros [] n2 _ it Hit. specialize (H0 _ Hit). in_trace.
Qed.
End Signals.

(** ** The children of the worker *)

(** What identifies a job of [running], whatever happens to it. *)
Definition core (it : running_item) : string * string * Z * Z * datetime :=
  (it_id it, rj_token (it_job it), it_pid it, it_pump it, it_end_at it).

(** A job has a reason to end exactly when its end was requested, and then its
    process group was told. *)
Definition item_ok (tr : list event) (it : running_item) : Prop :=
  (it_reason it = None ↔ it_requested_at it = None) ∧
  (it_reason it ≠ None → signalled SIGTERM (it_pid it) tr).

Definition supervised {H} (s : supervisor H) : Prop :=
  NoDup (it_id <$> k_running s) ∧ Forall (item_ok (k_trace s)) (k_running s).

(** A step that starts no process and forgets one only when it has ended. *)
Record evolves {H} `{Clock H} (s : supervisor H) (new : list event) (s' : supervisor H) : Prop := Evolves {
  ev_follows :> follows s new s';
  ev_spawned : spawned new = [];
  ev_supervised : supervised s → supervised s';
  ev_kept it : supervised s → it ∈ k_running s →
    (∃ it', it' ∈ k_running s' ∧ core it' = core it) ∨ ended (it_pid it) new;
  ev_known it' : it' ∈ k_running s' → ∃ it, it ∈ k_running s ∧ core it' = core it;
}.

Section Children.
Context {H : Type} {Hhost : Host H} {Hclock : Clock H}.
Implicit Types s : supervisor H.

Lemma core_id it it' : core it' = core it → it_id it' = it_id it.
Proof. unfold core. congruence. Qed.

Lemma core_pid it it' : core it' = core it → it_pid it' = it_pid it.
Proof. unfold core. congruence. Qed.

Lemma item_ok_mono tr tr' it : tr ⊆ tr' → item_ok tr it → item_ok tr' it.
Proof. intros Hs [? Hp]. split; [done|]. intros Hr. specialize (Hp Hr). by eapply signalled_mono. Qed.

Lemma follows_subseteq s new s' : follows s new s' → k_trace s ⊆ k_trace s'.
Proof. intros Hf. rewrite (follows_trace _ _ _ Hf). set_solver +. Qed.

Lemma after_evolves s new s' : after s new s' → spawned new = [] → evolves s new s'.
Proof.
  intros Ha Hn. pose proof (follows_subseteq _ _ _ Ha) as Hs. destruct Ha as [Hf Hr Hc]. split; try done.
  - intros [Hd Hok]. split; rewrite Hr; [done|].
    eapply Forall_impl; [done|]. intros it. by apply item_ok_mono.
  - intros it _ Hit. left. exists it. by rewrite Hr.
  - intros it Hit. exists it. by rewrite <- Hr.
Qed.

Lemma evolves_trans s1 n1 s2 n2 s3 : evolves s1 n1 s2 → evolves s2 n2 s3 → evolves s1 (n1 ++ n2) s3.
Proof.
  intros E1 E2. split.
  - eapply follows_trans; [apply E1|apply E2].
  - by rewrite spawned_app, (ev_spawned _ _ _ E1), (ev_spawned _ _ _ E2).
  - intros Hs. by apply (ev_supervised _ _ _ E2), (ev_supervised _ _ _ E1).
  - intros it Hs Hit. destruct (ev_kept _ _ _ E1 it Hs Hit) as [(it2 & Hin & Hc)|He]; [|right; in_trace].
    destruct (ev_kept _ _ _ E2 it2 (ev_supervised _ _ _ E1 Hs) Hin) as [(it3 & ? & ?)|He].
    + left. exists it3. split; [done|congruence].
    + right. rewrite <- (core_pid _ _ Hc). in_trace.
  - intros it3 (it2 & Hin & Hc)%(ev_known _ _ _ E2).
    apply (ev_known _ _ _ E1) in Hin as (it1 & ? & ?). exists it1. split; [done|congruence].
Qed.

Lemma evolves_refl s : evolves s [] s.
Proof. by apply after_evolves; [apply after_refl|]. Qed.

Definition replace_item (it : running_item) (running : list running_item) : list running_item :=
  (λ x, if bool_decide (it_id x = it_id it) then it else x) <$> running.

Lemma elem_of_replace it old x running :
  NoDup (it_id <$> running) → old ∈ running → it_id it = it_id old →
  x ∈ replace_item it running ↔ x = it ∨ (x ∈ running ∧ it_id x ≠ it_id it).
Proof.
  intros _ Hold Hid. unfold replace_item. rewrite list_elem_of_fmap. split.
  - intros (y & -> & Hy). case_bool_decide; [by left|by right].
  - intros [->|[Hx Hne]].
    + exists old. by rewrite bool_decide_true by done.
    + exists x. by rewrite bool_decide_false by done.
Qed.

Lemma replace_ids it running : it_id <$> replace_item it running = it_id <$> running.
Proof.
  unfold replace_item. induction running as [|x l IH]; [done|]. cbn. f_equal; [|done].
  by case_bool_decide.
Qed.

Lemma same_item running x y :
  NoDup (it_id <$> running) → x ∈ running → y ∈ running → it_id x = it_id y → x = y.
Proof.
  intros Hd [i Hi]%list_elem_of_lookup [j Hj]%list_elem_of_lookup He.
  assert (i = j) as ->; [|congruence].
  eapply (NoDup_lookup (it_id <$> running) i j (it_id x)); [done|..]; rewrite list_lookup_fmap.
  - by rewrite Hi.
  - by rewrite Hj, He.
Qed.

(** A step that concerns one job only. *)
Definition touches (id : string) s new s' : Prop :=
  evolves s new s' ∧ ∀ x, it_id x ≠ id → (x ∈ k_running s' ↔ x ∈ k_running s).

Lemma touches_trans id s1 n1 s2 n2 s3 : touches id s1 n1 s2 → touches id s2 n2 s3 → touches id s1 (n1 ++ n2) s3.
Proof. intros [E1 H1] [E2 H2]. split; [by eapply evolves_trans|]. intros x Hx. by rewrite H2, H1. Qed.

Lemma after_touches id s new s' : after s new s' → spawned new = [] → touches id s new s'.
Proof. intros Ha Hn. split; [by apply after_evolves|]. intros x _. by rewrite (after_running _ _ _ Ha). Qed.

(** Replacing an item by one with the same identity. *)
Lemma item_replaced it old s new s' :
  supervised s → old ∈ k_running s → core it = core old →
  follows s new s' → spawned new = [] → k_running s' = replace_item it (k_running s) →
  item_ok (k_trace s') it →
  touches (it_id it) s new s' ∧ it ∈ k_running s'.
Proof.
  intros Hs Hold Hc Hf Hn Hr Hok.
  pose proof (λ x, elem_of_replace it old x _ (proj1 Hs) Hold (core_id _ _ Hc)) as Hin.
  rewrite <- Hr in Hin. split; [split|by apply Hin; left].
  2:{ intros x Hx. rewrite Hin. naive_solver. }
  split; [done|done|..].
  - intros _. split; [by rewrite Hr, replace_ids; apply Hs|]. apply Forall_forall.
    intros x [->|[Hx _]]%Hin; [done|]. eapply item_ok_mono; [by eapply follows_subseteq|].
    by apply (proj1 (Forall_forall _ _) (proj2 Hs)).
  - intros x _ Hx. left. destruct (decide (it_id x = it_id it)) as [He|Hne].
    + exists it. split; [apply Hin; by left|].
      rewrite (same_item _ x old (proj1 Hs) Hx Hold); [done|]. rewrite He. by apply core_id.
    + exists x. split; [apply Hin; by right|done].
  - intros x [->|[Hx _]]%Hin; [by exists old|by exists x].
Qed.

Lemma put_item_run it s (Q : res unit → supervisor H → Prop) :
  (∀ s', k_running s' = replace_item it (k_running s) → k_trace s' = k_trace s →
     follows s [] s' → Q (Ok tt) s') →
  runs (put_item it) Q s.
Proof.
  intros HQ. destruct s as [h w running counts trace].
  unfold runs, put_item, get_running, set_running. cbn.
  apply HQ; [done..|]. split; cbn; [by rewrite app_nil_r|done..].
Qed.

Lemma request_termination_run it reason s :
  supervised s → it ∈ k_running s →
  runs (_request_termination it reason) (λ r s', ∃ it' new, r = Ok it' ∧
    touches (it_id it) s new s' ∧ quiet new ∧ it' ∈ k_running s' ∧ core it' = core it ∧
    it_reason it' = Some reason) s.
Proof.
  intros Hs Hit. unfold _request_termination.
  pose proof (proj1 (Forall_forall _ _) (proj2 Hs) _ Hit) as [Hiff Hterm].
  cbn [with_reason it_requested_at]. destruct (it_requested_at it) as [t|] eqn:Ht.
  - apply runs_bind, put_item_run. intros s' Hr Htr Hf. apply runs_ret.
    destruct (item_replaced (with_reason reason it) it s [] s') as [Htouch Hin]; try done.
    { split; cbn; [by rewrite Ht|]. intros _. rewrite Htr. apply Hterm. naive_solver. }
    exists (with_reason reason it), []. split_and!; try done; constructor.
  - apply runs_monotonic. intros t s1 H1 _. apply runs_bind, put_item_run.
    intros s2 Hr2 Htr2 Hf2. apply runs_bind. eapply runs_mono; [apply (signal_group_run SIGTERM)|].
    intros ? s3 ([] & n3 & -> & H3 & Hq3 & Hsig). apply runs_ret.
    set (it' := with_requested_at t (with_reason reason it)).
    assert (Hf : follows s ([Event Monotonic t] ++ [] ++ n3) s3)
      by (eapply follows_trans; [apply H1|eapply follows_trans; [done|apply H3]]).
    destruct (item_replaced it' it s _ s3 Hs Hit eq_refl Hf) as [Htouch Hin].
    + by rewrite !spawned_app, (quiet_spawned n3).
    + by rewrite (after_running _ _ _ H3), Hr2, (after_running _ _ _ H1).
    + split; [done|]. intros _. rewrite (follows_trace _ _ _ Hf). cbn. in_trace.
    + exists it', ([Event Monotonic t] ++ [] ++ n3). split_and!; try done; by constructor.
Qed.

Lemma check_item_run l now grace it s :
  supervised s → it ∈ k_running s →
  runs (check_item l now grace it) (λ r s', ∃ it' new, r = Ok it' ∧
    touches (it_id it) s new s' ∧ it' ∈ k_running s' ∧ core it' = core it ∧
    (is_cancelled l (it_id it) = true → it_reason it' = Some "cancelled") ∧
    (it_end_at it - grace ≤ now → it_reason it' ≠ None)) s.
Proof.
  intros Hs Hit. unfold check_item.
  assert (Hstay : touches (it_id it) s [] s) by (apply after_touches; [apply after_refl|done]).
  assert (Hask : ∀ reason, (is_cancelled l (it_id it) = true → reason = "cancelled") →
    runs (_request_termination it reason) (λ r s', ∃ it' new, r = Ok it' ∧
    touches (it_id it) s new s' ∧ it' ∈ k_running s' ∧ core it' = core it ∧
    (is_cancelled l (it_id it) = true → it_reason it' = Some "cancelled") ∧
    (it_end_at it - grace ≤ now → it_reason it' ≠ None)) s).
  { intros reason Hr. eapply runs_mono; [by apply request_termination_run|].
    intros ? s' (it' & new & -> & Ht & _ & Hin & Hc & Hre). exists it', new.
    split_and!; [done..| |congruence]. intros Hx. rewrite Hre. f_equal. auto. }
  destruct (is_cancelled l (it_id it)) eqn:Hg.
  - case_bool_decide as Hr; [|auto]. apply runs_ret. exists it, []. split_and!; congruence || done.
  - destruct (bool_decide (it_reason it = None)) eqn:Hr; cbn [andb].
    + case_match eqn:Hend; [by apply Hask|]. apply runs_ret. exists it, []. split_and!; [done..|].
      apply Z.leb_gt in Hend. lia.
    + apply runs_ret. exists it, []. apply bool_decide_eq_false in Hr. by split_and!.
Qed.

(** What is enforced on an item that stays: at the end of its reservation it is
    killed, or it is being stopped for another reason that has still time. *)
Definition enforced (now : datetime) (grace : timedelta) (it : running_item) (new : list event) : Prop :=
  signalled SIGKILL (it_pid it) new ∨
  (it_reason it = Some "deadline" ∧ now < it_end_at it) ∨
  (it_reason it ≠ Some "deadline" ∧
   ∀ t, it_requested_at it = Some t → ∃ m, Event Monotonic m ∈ new ∧ m < t + grace).

Lemma enforced_mono now grace it tr tr' : tr ⊆ tr' → enforced now grace it tr → enforced now grace it tr'.
Proof.
  intros Hs [Hk|[Hd|[Hr Hm]]]; [left; by eapply signalled_mono|right; by left|right; right].
  split; [done|]. intros t Ht. destruct (Hm t Ht) as (m & ? & ?). exists m. auto.
Qed.

Lemma enforce_item_run now grace it :
  quietly (enforce_item now grace it) (λ _ new, enforced now grace it new).
Proof.
  unfold enforce_item. case_bool_decide as Hr.
  - case_match eqn:Hend; [eapply quietly_mono; [apply signal_group_run|by left]|].
    apply Z.leb_gt in Hend. apply quietly_ret. right; by left.
  - destruct (it_requested_at it) as [t|] eqn:Ht; [|apply quietly_ret; right; right; split; [done|congruence]].
    eapply quietly_bind; [by apply (quietly_ask Monotonic (λ a n, n = [Event Monotonic a]))|].
    cbn. intros m ? ->. case_match eqn:Hg.
    + eapply quietly_mono; [apply signal_group_run|]. intros [] n Hn. left. in_trace.
    + apply Z.leb_gt in Hg. apply quietly_ret. right; right. split; [done|].
      intros t' [= <-]%(eq_trans (eq_sym Ht)). exists m. split; [by left|lia].
Qed.

(** The completion of a job whose process was seen to end with [code]. *)
Definition recorded (a : actor) (it : running_item) (new : list event) : Prop :=
  ∃ before commit rest code log_warning log_rotations,
    new = before ++ commit ++ rest ∧ Event (Poll (it_pid it)) (Some code) ∈ before ∧
    transacted (complete_mutate a (it_job it) (_completion_status code (it_reason it)) code
                  log_warning log_rotations) commit (Ok tt).

Lemma forward_complete a item status code lw rot l : forward (complete_mutate a item status code lw rot l).
Proof.
  unfold complete_mutate, unchanged. repeat case_match; try apply forward_ret.
  apply forward_bind; [apply forward_clock|]. intros now.
  apply forward_bind; [apply forward_job_log|]. intros. apply forward_ret.
Qed.

(** An item whose process has ended is taken out. *)
Lemma popped it s new s' :
  it ∈ k_running s → follows s new s' → spawned new = [] → ended (it_pid it) new →
  k_running s' = filter (λ x, it_id x ≠ it_id it) (k_running s) →
  touches (it_id it) s new s'.
Proof.
  intros Hit Hf Hn He Hr. split; [split; [done|done|..]|].
  - intros [Hd Hok]. split; rewrite Hr.
    + eapply sublist_NoDup; [exact Hd|]. apply fmap_sublist, sublist_filter.
    + apply Forall_forall. intros x [_ Hx]%list_elem_of_filter.
      eapply item_ok_mono; [by eapply follows_subseteq|]. by apply (proj1 (Forall_forall _ _) Hok).
  - intros x [Hd _] Hx. destruct (decide (it_id x = it_id it)) as [Hi|Hi].
    + right. by rewrite (same_item _ x it Hd Hx Hit Hi).
    + left. exists x. split; [|done]. rewrite Hr. by apply list_elem_of_filter.
  - intros x. rewrite Hr. intros [_ Hx]%list_elem_of_filter. by exists x.
  - intros x Hx. rewrite Hr, list_elem_of_filter. naive_solver.
Qed.

Lemma finish_item_run a it s :
  it ∈ k_running s →
  runs (finish_item a it) (λ r s', ∃ new, touches (it_id it) s new s' ∧
    ((it ∈ k_running s') ∨ (r = Ok tt ∧ ended (it_pid it) new ∧ recorded a it new))) s.
Proof.
  intros Hit. unfold finish_item.
  apply (runs_ask_bind (Poll (it_pid it))). intros code s1 H1 _.
  assert (Hq1 : quiet [Event (Poll (it_pid it)) code]) by by apply Forall_singleton.
  assert (Hkeep : ∀ n s' (r : res unit), after s n s' → spawned n = [] → ∃ new, touches (it_id it) s new s' ∧
    ((it ∈ k_running s') ∨ (r = Ok tt ∧ ended (it_pid it) new ∧ recorded a it new))).
  { intros n s' r Ha Hn. exists n. split; [by apply after_touches|]. left. by rewrite (after_running _ _ _ Ha). }
  destruct code as [exit_code|]; [|by eapply runs_ret, Hkeep].
  eapply runs_quietly; [apply group_alive_run|done..|]. intros [] n2 s2 H2 Hq2 Halive _.
  { by eapply runs_ret, Hkeep, quiet_spawned. }
  eapply (runs_quiet_ask (LogFinish _)); [done..|]. intros [log_warning|e] s3 H3 Hq3 _.
  2:{ apply runs_bind, runs_result. by eapply Hkeep, quiet_spawned. }
  apply runs_bind, runs_result. eapply (runs_quiet_ask (LogRotations _)); [done..|].
  intros rot s4 H4 Hq4 _. cbn [answer] in rot.
  set (before := ((_ ++ n2) ++ _) ++ _) in H4, Hq4.
  apply runs_bind, runs_transaction; [intros l; apply forward_complete|]. intros r n5 s5 H5 Htx.
  pose proof (after_trans _ _ _ _ _ H4 H5) as H6.
  assert (Hn6 : spawned (before ++ n5) = []).
  { by rewrite spawned_app, (quiet_spawned _ Hq4), (transacted_spawned _ _ _ Htx). }
  destruct r as [[]|e]; [|by eapply Hkeep]. cbv beta iota.
  destruct s5 as [h w running counts trace]. unfold runs. cbn.
  exists (before ++ n5). split.
  - apply popped; [done|by destruct H6 as [[] _ _]|done| |].
    + split; [left; exists exit_code|destruct (Halive eq_refl) as (x & Hx & ?); exists x];
        subst before; set_solver.
    + cbn. by rewrite <- (after_running _ _ _ H6).
  - right. split; [done|]. split.
    + split; [left; exists exit_code|destruct (Halive eq_refl) as (x & Hx & ?); exists x];
        subst before; set_solver.
    + exists before, n5, [], exit_code, log_warning, rot. rewrite app_nil_r. split; [done|].
      split; [subst before; set_solver|done].
Qed.

(** The reason a job that has to end must carry. *)
Definition due (l : ledger) (now : datetime) (grace : timedelta) (it : running_item) : Prop :=
  (is_cancelled l (it_id it) = true → it_reason it = Some "cancelled") ∧
  (it_end_at it - grace ≤ now → it_reason it ≠ None).

(** What became of a job in a round that went through: it still runs, told to end
    when it has to, or its end is in the ledger. *)
Definition accounted (a : actor) (l : ledger) (now : datetime) (grace : timedelta)
    (it : running_item) (new : list event) s' : Prop :=
  (∃ it', it' ∈ k_running s' ∧ core it' = core it ∧ due l now grace it' ∧ enforced now grace it' new) ∨
  (ended (it_pid it) new ∧ ∃ it', core it' = core it ∧ due l now grace it' ∧ recorded a it' new).

(** And in a round that was cut short. *)
Definition kept (a : actor) (it : running_item) (new : list event) s' : Prop :=
  (∃ it', it' ∈ k_running s' ∧ core it' = core it) ∨
  (ended (it_pid it) new ∧ ∃ it', core it' = core it ∧ recorded a it' new).

Lemma accounted_kept a l now grace it new s' : accounted a l now grace it new s' → kept a it new s'.
Proof. intros [(it' & ? & ? & _)|(? & it' & ? & _ & ?)]; [left|right]; eauto. Qed.

Lemma recorded_mono a it n1 n2 n3 : recorded a it n2 → recorded a it (n1 ++ n2 ++ n3).
Proof.
  intros (before & commit & rest & code & lw & rot & -> & Hin & Htx).
  exists (n1 ++ before), commit, (rest ++ n3), code, lw, rot. rewrite <- !app_assoc.
  split; [done|]. split; [set_solver|done].
Qed.

Lemma accounted_touches a l now grace id it new s n2 s' :
  it_id it ≠ id → touches id s n2 s' →
  accounted a l now grace it new s → accounted a l now grace it (new ++ n2) s'.
Proof.
  intros Hne [_ Ht] [(it' & Hin & Hc & Hd & He)|(He & it' & Hc & Hd & Hr)].
  - left. exists it'. rewrite Ht by (by rewrite (core_id _ _ Hc)). split_and!; [done..|].
    eapply enforced_mono; [|done]. set_solver +.
  - right. split; [in_trace|]. exists it'. split_and!; [done..|]. by apply (recorded_mono _ _ []).
Qed.

Lemma reconcile_item_run a l now grace it s :
  supervised s → it ∈ k_running s →
  runs (reconcile_item a l now grace it) (λ r s', ∃ new, touches (it_id it) s new s' ∧
    match r with
    | Ok _ => accounted a l now grace it new s'
    | Raise _ => ∃ it', it' ∈ k_running s' ∧ core it' = core it
    end) s.
Proof.
  intros Hs Hit. apply runs_bind. eapply runs_mono; [by apply check_item_run|].
  intros ? s1 (it' & n1 & -> & H1 & Hin & Hc & Hcan & Hend).
  pose proof (core_id _ _ Hc) as Hid.
  assert (Hdue : due l now grace it').
  { split; [by rewrite Hid|]. assert (it_end_at it' = it_end_at it) as -> by (unfold core in Hc; congruence). done. }
  apply runs_bind. eapply runs_mono; [apply enforce_item_run|].
  intros ? s2 ([] & n2 & -> & H2 & Hq2 & Hen).
  assert (Hin2 : it' ∈ k_running s2) by (by rewrite (after_running _ _ _ H2)).
  eapply runs_mono; [by apply finish_item_run|]. intros r s3 (n3 & H3 & Hout). rewrite Hid in H3.
  exists (n1 ++ n2 ++ n3). split.
  { eapply touches_trans; [done|]. eapply touches_trans; [|done].
    by apply after_touches, quiet_spawned. }
  destruct Hout as [Hin3|(-> & He & Hr)].
  - destruct r; [|by eauto]. left. exists it'. split_and!; [done..|].
    eapply enforced_mono; [|done]. set_solver +.
  - right. rewrite <- (core_pid _ _ Hc). split; [in_trace|]. exists it'. split_and!; [done..|].
    rewrite app_assoc. rewrite <- (app_nil_r n3). by apply recorded_mono.
Qed.

Lemma reconcile_running_run a grace now s :
  supervised s →
  runs (_reconcile_running a grace now) (λ r s', ∃ new, evolves s new s' ∧
    match r with
    | Ok _ => k_running s = [] ∨ ∃ l, Event Load (Ok l) ∈ new ∧
                ∀ it, it ∈ k_running s → accounted a l now grace it new s'
    | Raise _ => ∀ it, it ∈ k_running s → kept a it new s'
    end) s.
Proof.
  intros Hs. unfold _reconcile_running. apply runs_bind, runs_get.
  case_bool_decide as Hr. { apply runs_ret. exists []. split; [apply evolves_refl|by left]. }
  apply runs_bind, runs_load. intros [l|e] s1 H1.
  2:{ exists [Event Load (Raise e)]. split; [by apply after_evolves|]. intros it Hit. left.
      exists it. by rewrite (after_running _ _ _ H1). }
  apply (runs_each _ _ (λ items s', ∃ new, evolves s new s' ∧ Event Load (Ok l) ∈ new ∧
    NoDup (it_id <$> items) ∧ (∀ it, it ∈ items → it ∈ k_running s ∧ it ∈ k_running s') ∧
    ∀ it, it ∈ k_running s → it ∈ items ∨ accounted a l now grace it new s')).
  - exists [Event Load (Ok l)]. split; [by apply after_evolves|]. split; [by left|].
    split; [apply Hs|]. rewrite (after_running _ _ _ H1). split; by auto.
  - clear dependent s1. intros it items s1 (new & He & Hload & Hnd & Hsub & Hacc).
    destruct (Hsub it) as [Hit0 Hit1]; [by left|]. cbn in Hnd. apply NoDup_cons in Hnd as [Hnew Hnd].
    eapply runs_mono; [apply reconcile_item_run; [by apply (ev_supervised _ _ _ He)|done]|].
    intros r s2 (n2 & Ht & Hr2). pose proof (evolves_trans _ _ _ _ _ He (proj1 Ht)) as He2.
    assert (Hother : ∀ x, x ∈ items → it_id x ≠ it_id it).
    { intros x Hx Heq. apply Hnew. rewrite <- Heq. by apply list_elem_of_fmap_2. }
    assert (Hdone : ∀ x, x ∈ k_running s → x = it ∨ x ∈ items ∨ accounted a l now grace x (new ++ n2) s2).
    { intros x Hx. destruct (decide (it_id x = it_id it)) as [Hi|Hi].
      { left. by apply (same_item (k_running s)); [apply Hs|..]. }
      right. destruct (Hacc x Hx) as [Hin|Ha]; [|right; by eapply accounted_touches].
      apply elem_of_cons in Hin as [->|Hin]; [done|by left]. }
    assert (Hrest : ∀ x, x ∈ items → x ∈ k_running s2).
    { intros x Hx. apply (proj2 Ht); [by apply Hother|]. apply Hsub. by right. }
    destruct r as [[]|e].
    + exists (new ++ n2). split_and!; [done|set_solver|done|..].
      * intros x Hx. split; [apply Hsub; by right|by apply Hrest].
      * intros x Hx. destruct (Hdone x Hx) as [->|[?|?]]; [|by left|by right]. right.
        destruct Hr2 as [(it' & ? & ? & ? & ?)|(? & it' & ? & ? & ?)].
        -- left. exists it'. split_and!; [done..|]. eapply enforced_mono; [|done]. set_solver +.
        -- right. split; [in_trace|]. exists it'. split_and!; [done..|].
           rewrite <- (app_nil_r n2). by apply recorded_mono.
    + exists (new ++ n2). split; [done|]. intros x Hx. destruct (Hdone x Hx) as [->|[Hin|Ha]].
      * by left.
      * left. exists x. split; [by apply Hrest|done].
      * by eapply accounted_kept.
  - clear dependent s1. intros s1 (new & He & Hload & _ & _ & Hacc). exists new. split; [done|].
    right. exists l. split; [done|]. intros it Hit. destruct (Hacc it Hit) as [Hx|]; [|done].
    by apply not_elem_of_nil in Hx.
Qed.

Lemma kept_evolves a it n1 s1 n2 s2 :
  supervised s1 → (∀ it, it ∈ k_running s1 → kept a it n2 s2) →
  kept a it n1 s1 → kept a it (n1 ++ n2) s2.
Proof.
  intros Hs Hk [(it1 & Hin & Hc)|(He & it1 & Hc & Hr)].
  - destruct (Hk it1 Hin) as [(it2 & ? & Hc2)|(He & it2 & Hc2 & Hr)].
    + left. exists it2. split; [done|congruence].
    + right. rewrite <- (core_pid _ _ Hc). split; [in_trace|]. exists it2. split; [congruence|].
      rewrite <- (app_nil_r n2). by apply recorded_mono.
  - right. split; [in_trace|]. exists it1. split; [done|]. by apply (recorded_mono _ _ []).
Qed.

Lemma kept_after a it s new s' : after s new s' → it ∈ k_running s → kept a it new s'.
Proof. intros Ha Hit. left. exists it. by rewrite (after_running _ _ _ Ha). Qed.

(** ** The end of the worker *)

(** Each child was told to end, none was forgotten. *)
Lemma stop_running_run now s :
  supervised s →
  runs (_stop_running_jobs now) (λ r s', r = Ok tt ∧ ∃ new, evolves s new s' ∧ quiet new ∧
    ∀ it, it ∈ k_running s →
      ∃ it', it' ∈ k_running s' ∧ core it' = core it ∧ it_reason it' ≠ None) s.
Proof.
  intros Hs. apply runs_bind, runs_get.
  apply (runs_each _ _ (λ items s', ∃ new, evolves s new s' ∧ quiet new ∧
    NoDup (it_id <$> items) ∧ (∀ it, it ∈ items → it ∈ k_running s ∧ it ∈ k_running s') ∧
    ∀ it, it ∈ k_running s → it ∈ items ∨
      ∃ it', it' ∈ k_running s' ∧ core it' = core it ∧ it_reason it' ≠ None)).
  - exists []. split_and!; [apply evolves_refl|constructor|apply Hs|by auto..].
  - intros it items s1 (new & He & Hq & Hnd & Hsub & Hacc).
    destruct (Hsub it) as [Hit0 Hit1]; [by left|]. cbn in Hnd. apply NoDup_cons in Hnd as [Hnew Hnd].
    assert (Hother : ∀ x, x ∈ items → it_id x ≠ it_id it).
    { intros x Hx Heq. apply Hnew. rewrite <- Heq. by apply list_elem_of_fmap_2. }
    case_bool_decide as Hc.
    { apply runs_ret. exists new. split_and!; [done..| |].
      - intros x Hx. apply Hsub. by right.
      - intros x Hx. destruct (Hacc x Hx) as [[->|?]%elem_of_cons|?]; [right|by left|by right].
        exists it. split_and!; [done..|congruence]. }
    apply runs_bind. eapply runs_mono; [apply request_termination_run; [by apply (ev_supervised _ _ _ He)|done]|].
    intros ? s2 (it' & n2 & -> & Ht & Hq2 & Hin & Hcore & Hre). apply runs_ret.
    exists (new ++ n2). split_and!; [by eapply evolves_trans, Ht|by apply Forall_app|done|..].
    + intros x Hx. split; [apply Hsub; by right|]. apply (proj2 Ht); [by apply Hother|]. apply Hsub. by right.
    + intros x Hx. destruct (Hacc x Hx) as [[->|?]%elem_of_cons|(x' & Hx' & Hcx & Hrx)]; [right|by left|right].
      { exists it'. split_and!; [done..|congruence]. }
      destruct (decide (it_id x' = it_id it)) as [Hi|Hi].
      * exists it'. split_and!; [done| |congruence]. rewrite Hcore.
        assert (x = it) as ->; [|done].
        apply (same_item (k_running s)); [apply Hs|done..|]. rewrite <- Hi. symmetry. by apply core_id.
      * exists x'. split; [by apply (proj2 Ht)|done].
  - intros s1 (new & He & Hq & _ & _ & Hacc). split; [done|]. exists new. split_and!; [done..|].
    intros it Hit. destruct (Hacc it Hit) as [Hx|]; [|done]. by apply not_elem_of_nil in Hx.
Qed.

(** The children of [s] in a later state. *)
Definition carried (a : actor) s (new : list event) s' : Prop :=
  evolves s new s' ∧ ∀ it, it ∈ k_running s → kept a it new s'.

Lemma carried_trans a s n1 s1 n2 s2 :
  supervised s → carried a s n1 s1 → carried a s1 n2 s2 → carried a s (n1 ++ n2) s2.
Proof.
  intros Hs [E1 K1] [E2 K2]. split; [by eapply evolves_trans|]. intros it Hit.
  eapply kept_evolves; [by apply (ev_supervised _ _ _ E1)|done|by apply K1].
Qed.

Lemma carried_after a s n1 s1 n2 s2 :
  supervised s → carried a s n1 s1 → after s1 n2 s2 → quiet n2 → carried a s (n1 ++ n2) s2.
Proof.
  intros Hs H1 H2 Hq. eapply carried_trans; [done..|]. split; [by apply after_evolves, quiet_spawned|].
  intros it Hit. by eapply kept_after.
Qed.

(** The guarded round of supervision of the shutdown. *)
Lemma reconcile_caught {B} a g s0 n0 s (f : res unit → W H B) Q :
  supervised s0 → carried a s0 n0 s →
  (∀ r n1 s1, carried a s0 (n0 ++ n1) s1 → now_of s ≤ now_of s1 → runs (f r) Q s1) →
  runs (at_ ← on_world utc_now; r ← catch (_reconcile_running a g at_); f r) Q s.
Proof.
  intros Hs0 Hc Hf. apply runs_bind, runs_world; [apply forward_utc_now|]. intros [t|e] s1 Hu H1; [|done].
  pose proof (carried_after _ _ _ _ _ _ Hs0 Hc H1 (Forall_nil_2 _)) as Hc1.
  apply runs_bind, runs_catch. eapply runs_mono.
  { apply reconcile_running_run. by apply (ev_supervised _ _ _ (proj1 Hc1)). }
  intros r s2 (new & He & Hr).
  assert (Hc2 : carried a s0 ((n0 ++ []) ++ new) s2).
  { eapply carried_trans; [done..|]. split; [done|]. intros it Hit.
    destruct r as [u|e]; [|by apply Hr]. destruct Hr as [Hr|(l & _ & Hr)].
    - rewrite Hr in Hit. by apply not_elem_of_nil in Hit.
    - eapply accounted_kept, Hr, Hit. }
  rewrite <- app_assoc in Hc2. eapply Hf; [done|].
  pose proof (follows_time _ _ _ H1). pose proof (follows_time _ _ _ He). lia.
Qed.

Lemma catch_utc_now s : ∃ t w, utc_now (k_world s) = (Ok t, w).
Proof. unfold utc_now, clock_now. eauto. Qed.

Lemma runs_utc_now {B} (f : datetime → W H B) Q s :
  (∀ t s1, after s [] s1 → runs (f t) Q s1) → runs (on_world utc_now ≫= f) Q s.
Proof.
  intros Hf. apply runs_bind, runs_world; [apply forward_utc_now|]. intros r s1 Hu H1.
  destruct (catch_utc_now s) as (t & w & Hw). rewrite Hw in Hu. injection Hu as <- _. by apply Hf.
Qed.

(** The rounds until every child has ended or the grace period is over. *)
Lemma shutdown_rounds a g grace start s0 n0 s (Q : res unit → supervisor H → Prop) :
  supervised s0 → carried a s0 n0 s → start ≤ now_of s →
  (∀ n1 s1, carried a s0 (n0 ++ n1) s1 → Q (Ok tt) s1) →
  runs (iter (rounds grace) (λ available : bool,
    running ← get_running;
    if bool_decide (running = []) then mret (inr ()) else
    now ← ask Monotonic;
    if start + grace <=? now then mret (inr ()) else
    available ← (if available then
      at_ ← on_world utc_now;
      r ← catch (_reconcile_running a g at_);
      mret (match r with Ok _ => true | Raise _ => false end)
      else mret false);
    running ← get_running;
    if bool_decide (running = []) then mret (inr ()) else
    alive ← (if (available : bool) then mret true else any_alive running);
    if (alive : bool) then _ ← sleep_until (start + grace); mret (inl available) else mret (inr ())) true)
    Q s.
Proof.
  intros Hs0 Hc Hstart HQ.
  apply (runs_until grace start _ (λ _ s1, ∃ n1, carried a s0 (n0 ++ n1) s1)); [done| |].
  { exists []. by rewrite app_nil_r. }
  clear dependent s. intros available s (n1 & Hc). apply runs_bind, runs_get.
  case_bool_decide; [apply runs_ret; by eapply HQ|].
  apply runs_monotonic. intros t s1 H1 Ht.
  assert (Hc1 : carried a s0 (n0 ++ (n1 ++ [Event Monotonic t])) s1).
  { rewrite app_assoc. apply (carried_after _ _ _ s); [done..|]. by constructor. }
  case_match eqn:Hlate; [apply runs_ret; by eapply HQ|]. apply Z.leb_gt in Hlate.
  assert (Hrest : ∀ (m : W H bool) n2 s2, carried a s0 (n0 ++ n2) s2 → now_of s1 ≤ now_of s2 →
    ∀ available : bool, (m = mret true ∨ quietly m (λ _ _, True)) →
    runs (alive ← m; if (alive : bool) then _ ← sleep_until (start + grace); mret (inl available) else mret (inr ()))
      (λ r s', match r with
       | Ok (inl _) => (∃ n1, carried a s0 (n0 ++ n1) s') ∧ now_of s < start + grace ∧
                       (now_of s + STEP ≤ now_of s' ∨ start + grace ≤ now_of s')
       | Ok (inr b) => Q (Ok b) s'
       | Raise e => Q (Raise e) s'
       end) s2).
  { intros m n2 s2 Hc2 Ht2 av Hm. assert (Hqm : quietly m (λ _ _, True)) by (destruct Hm as [->|]; [by apply quietly_ret|done]).
    apply runs_bind. eapply runs_mono; [apply Hqm|]. intros ? s3 (alive & n3 & -> & H3 & Hq3 & _).
    pose proof (carried_after _ _ _ _ _ _ Hs0 Hc2 H3 Hq3) as Hc3. rewrite <- app_assoc in Hc3.
    destruct alive; [|apply runs_ret; destruct (); by eapply HQ].
    apply runs_bind. eapply runs_mono; [apply quietly_sleep_until|].
    intros ? s4 (n4 & -> & H4 & Hq4 & _ & Ht4). apply runs_ret.
    pose proof (carried_after _ _ _ _ _ _ Hs0 Hc3 H4 Hq4) as Hc4. rewrite <- app_assoc in Hc4.
    pose proof (follows_time _ _ _ H3). split; [by eexists|]. lia. }
  destruct available; cycle 1.
  - apply runs_bind, runs_ret, runs_bind, runs_get. case_bool_decide; [apply runs_ret; by eapply HQ|].
    eapply Hrest; [done|lia|]. right. apply any_alive_run.
  - apply runs_bind. eapply (reconcile_caught a g s0); [done..|]. intros r n2 s2 Hc2 Ht2.
    rewrite <- app_assoc in Hc2.
    apply runs_ret, runs_bind, runs_get. case_bool_decide; [apply runs_ret; by eapply HQ|].
    eapply Hrest; [done|lia|]. destruct r; [by left|right; apply any_alive_run].
Qed.

Lemma shutdown_running_run a g grace s :
  supervised s →
  runs (_shutdown_running_jobs (_reconcile_running a g) grace) (λ r s', r = Ok tt ∧
    ∃ new, evolves s new s' ∧ ∀ it, it ∈ k_running s →
      signalled SIGTERM (it_pid it) (k_trace s') ∧
      (signalled SIGKILL (it_pid it) new ∨
       (ended (it_pid it) new ∧ ∃ it', core it' = core it ∧ recorded a it' new))) s.
Proof.
  intros Hs. apply runs_utc_now. intros now s1 H1.
  assert (Hc1 : carried a s [] s1).
  { split; [by apply after_evolves|]. intros it Hit. by eapply kept_after. }
  apply runs_bind. eapply runs_mono; [apply stop_running_run; by apply (ev_supervised _ _ _ (proj1 Hc1))|].
  intros ? s2 (-> & n2 & He2 & Hq2 & Hstop).
  assert (Hc2 : carried a s n2 s2).
  { apply (carried_trans _ _ [] s1); [done..|]. split; [done|]. intros it Hit. left.
    destruct (Hstop it Hit) as (it' & ? & ? & _). eauto. }
  assert (Hterm : ∀ it, it ∈ k_running s → signalled SIGTERM (it_pid it) (k_trace s2)).
  { intros it Hit. rewrite <- (after_running _ _ _ H1) in Hit.
    destruct (Hstop it Hit) as (it' & Hin & Hcore & Hre). rewrite <- (core_pid _ _ Hcore).
    pose proof (ev_supervised _ _ _ (proj1 Hc2) Hs) as [_ Hok].
    by apply (proj1 (Forall_forall _ _) Hok). }
  assert (Hterm' : ∀ n s', carried a s (n2 ++ n) s' → ∀ it, it ∈ k_running s → signalled SIGTERM (it_pid it) (k_trace s')).
  { intros n s' [He _] it Hit. specialize (Hterm it Hit).
    rewrite (follows_trace _ _ _ He). rewrite (follows_trace _ _ _ (proj1 Hc2)) in Hterm. in_trace. }
  apply runs_monotonic. intros start s3 H3 Ht.
  pose proof (carried_after _ _ _ _ _ _ Hs Hc2 H3 ltac:(by constructor)) as Hc3.
  apply runs_bind. eapply shutdown_rounds; [done..|lia|]. intros n4 s4 Hc4.
  apply runs_bind, runs_get. case_bool_decide as Hr.
  { apply runs_ret. split; [done|]. eexists. split; [apply Hc4|]. intros it Hit.
    rewrite <- app_assoc in Hc4. split; [by eapply Hterm'|]. rewrite app_assoc in Hc4.
    destruct (proj2 Hc4 it Hit) as [(it' & Hin & _)|?]; [|by right].
    rewrite Hr in Hin. by apply not_elem_of_nil in Hin. }
  apply runs_bind. eapply runs_mono; [apply kill_and_reap_run|].
  intros ? s5 ([] & n5 & -> & H5 & Hq5 & Hkill).
  pose proof (carried_after _ _ _ _ _ _ Hs Hc4 H5 Hq5) as Hc5.
  eapply (reconcile_caught a g s); [done..|]. intros r n6 s6 Hc6 _. apply runs_ret. split; [done|].
  eexists. split; [apply Hc6|]. intros it Hit. split; [rewrite <- !app_assoc in Hc6; by eapply Hterm'|].
  destruct (proj2 Hc4 it Hit) as [(it' & Hin & Hcore)|(He & it' & Hcore & Hrec)].
  - left. specialize (Hkill it' Hin). rewrite (core_pid _ _ Hcore) in Hkill. in_trace.
  - right. split; [in_trace|]. exists it'. split; [done|].
    rewrite <- app_assoc. by apply (recorded_mono _ _ []).
Qed.

Lemma shutdown_without_ledger_run grace s :
  supervised s →
  runs (_shutdown_running_jobs_without_ledger grace) (λ r s', ∃ new, follows s new s' ∧ quiet new ∧
    (∀ it, it ∈ k_running s →
       signalled SIGTERM (it_pid it) (k_trace s') ∧ signalled SIGKILL (it_pid it) new) ∧
    match r with
    | Ok _ => k_running s' = []
    | Raise e => is_os_error e = false ∧ (∀ m, e ≠ RuntimeError m) ∧
                 ∃ pump, Event (LogFinish pump) (Raise e) ∈ new
    end) s.
Proof.
  intros Hs. apply runs_bind, runs_get, runs_utc_now. intros now s1 H1.
  assert (Hs1 : supervised s1) by (by apply (ev_supervised s [] s1); [apply after_evolves|]).
  apply runs_bind. eapply runs_mono; [by apply stop_running_run|].
  intros ? s2 (-> & n2 & He2 & Hq2 & Hstop). rewrite (after_running _ _ _ H1) in Hstop.
  assert (Hterm : ∀ it, it ∈ k_running s → signalled SIGTERM (it_pid it) (k_trace s2)).
  { intros it Hit. destruct (Hstop it Hit) as (it' & Hin & Hcore & Hre). rewrite <- (core_pid _ _ Hcore).
    pose proof (ev_supervised _ _ _ He2 Hs1) as [_ Hok]. by apply (proj1 (Forall_forall _ _) Hok). }
  pose proof (follows_trans _ _ _ _ _ (after_follows _ _ _ H1) (ev_follows _ _ _ He2)) as Hf2. cbn [app] in Hf2.
  assert (Hround : ∀ start (_ : ()), quiet_round anything (λ _ _, True) (start + grace) (
      alive ← any_alive (k_running s);
      if negb alive then mret (inr ()) else
      now ← ask Monotonic;
      if start + grace <=? now then mret (inr ()) else
      _ ← sleep_until (start + grace); mret (inl ()))).
  { intros start _. eapply quiet_round_ask; [apply any_alive_run|].
    intros alive n _. split; [apply all_anything|].
    destruct alive; [|by apply quiet_round_ret]. by apply quiet_round_pause. }
  eapply (runs_quiet_until anything (λ _ _, True) grace (λ start (_ : ()), _) ()); [apply after_refl|constructor|done|exact Hround|].
  intros [] n3a n3b s3 H3 Hq3 _ _. cbn [app] in *. set (n3 := n3a ++ n3b) in *.
  eapply runs_quietly; [apply kill_and_reap_run|done..|]. intros [] n4 s4 H4 Hq4 Hkill _.
  apply runs_bind, (runs_each _ _ (λ _ s', ∃ n, after s2 ((n3 ++ n4) ++ n) s' ∧ quiet ((n3 ++ n4) ++ n))).
  - exists []. by rewrite app_nil_r.
  - clear dependent s4. intros it items s5 (n5 & H5 & Hq5).
    eapply (runs_quiet_ask (LogFinish _)); [done..|]. intros r s6 H6 Hq6 _. rewrite <- app_assoc in H6, Hq6.
    destruct r as [w|e]; [apply runs_ret; eauto|].
    destruct (is_os_error e) eqn:Hos; cbn [orb]; [apply runs_ret; eauto|].
    destruct (match e with RuntimeError _ => true | _ => false end) eqn:Hrt; [apply runs_ret; eauto|].
    apply runs_throws. exists (n2 ++ (n3 ++ n4) ++ n5 ++ [Event (LogFinish (it_pump it)) (Raise e)]).
    split; [by eapply follows_trans; [done|apply H6]|]. split; [by apply Forall_app|]. split.
    + intros x Hx. split; [|specialize (Hkill x Hx); in_trace].
      specialize (Hterm x Hx). eapply signalled_mono; [|done]. by eapply follows_subseteq, H6.
    + split; [done|]. split; [by intros m ->|]. exists (it_pump it). set_solver +.
  - clear dependent s4. intros s5 (n5 & H5 & Hq5). destruct s5 as [h w running counts trace].
    exists (n2 ++ (n3 ++ n4) ++ n5). split.
    { pose proof (follows_trans _ _ _ _ _ Hf2 (after_follows _ _ _ H5)) as [? ? ?]. done. }
    split; [by apply Forall_app|]. split; [|done]. intros x Hx. split; [|specialize (Hkill x Hx); in_trace].
    specialize (Hterm x Hx). eapply signalled_mono; [|done]. by apply (follows_subseteq _ _ _ H5).
Qed.

(** C20: the worker stops its children even when the ledger is out of reach.
    Whatever the host answers, and whatever the rounds of supervision raise, the
    shutdown ends and raises nothing; every process group was told to end, and each
    child either was killed, or was seen to end and its completion is in the ledger. *)
Theorem shutdown_running_spec a g grace s :
  supervised s →
  ∃ s' new, _shutdown_running_jobs (_reconcile_running a g) grace s = (Some (Ok tt), s') ∧
    k_trace s' = k_trace s ++ new ∧ spawned new = [] ∧
    ∀ it, it ∈ k_running s →
      signalled SIGTERM (it_pid it) (k_trace s') ∧
      (signalled SIGKILL (it_pid it) new ∨
       (ended (it_pid it) new ∧ ∃ it', core it' = core it ∧ recorded a it' new)).
Proof.
  intros Hs. destruct (runs_result_of _ _ _ (shutdown_running_run a g grace s Hs))
    as (? & s' & Hrun & -> & new & He & Hall).
  exists s', new. split_and!; [done|apply (follows_trace _ _ _ He)|apply (ev_spawned _ _ _ He)|done].
Qed.

(** C21: after the ledger policy was lost the children are stopped without it: no
    call touches the ledger or starts a process, every process group is told to end
    and then killed, and nothing is raised but an error of a log that the code does
    not expect. *)
Theorem shutdown_without_ledger_spec grace s :
  supervised s →
  ∃ r s' new, _shutdown_running_jobs_without_ledger grace s = (Some r, s') ∧
    k_trace s' = k_trace s ++ new ∧ quiet new ∧
    (∀ it, it ∈ k_running s →
       signalled SIGTERM (it_pid it) (k_trace s') ∧ signalled SIGKILL (it_pid it) new) ∧
    match r with
    | Ok _ => k_running s' = []
    | Raise e => is_os_error e = false ∧ (∀ m, e ≠ RuntimeError m) ∧
                 ∃ pump, Event (LogFinish pump) (Raise e) ∈ new
    end.
Proof.
  intros Hs. destruct (runs_result_of _ _ _ (shutdown_without_ledger_run grace s Hs))
    as (r & s' & Hrun & new & Hf & Hrest).
  exists r, s', new. split_and!; [done|apply (follows_trace _ _ _ Hf)|apply Hrest..].
Qed.

(** C19: a round of supervision. Whatever the host answers, it ends, starts nothing,
    and lets go of a job only after its process and its group were seen to end and
    the ledger took its completion. When it returns, every other job that was
    cancelled, or has less than the grace period left, was told to end, and one past
    its end was killed in this round or is being stopped for another reason whose
    grace period is not over. *)
Theorem reconcile_running_spec a grace now s :
  supervised s → 0 ≤ grace →
  runs (_reconcile_running a grace now) (λ r s', supervised s' ∧
    ∃ new, k_trace s' = k_trace s ++ new ∧ spawned new = [] ∧
    ∀ it, it ∈ k_running s →
      (ended (it_pid it) new ∧ ∃ it', core it' = core it ∧ recorded a it' new) ∨
      ∃ it', it' ∈ k_running s' ∧ core it' = core it ∧
        (r = Ok tt → ∃ l, Event Load (Ok l) ∈ new ∧
           (is_cancelled l (it_id it) = true ∨ it_end_at it - grace ≤ now →
              signalled SIGTERM (it_pid it) (k_trace s')) ∧
           (is_cancelled l (it_id it) = true → it_reason it' = Some "cancelled") ∧
           (it_end_at it ≤ now →
              signalled SIGKILL (it_pid it) new ∨
              (it_reason it' ≠ Some "deadline" ∧ ∃ t m, it_requested_at it' = Some t ∧
                 Event Monotonic m ∈ new ∧ m < t + grace)))) s.
Proof.
  intros Hs Hg. eapply runs_mono; [by apply reconcile_running_run|]. intros r s' (new & He & Hr).
  pose proof (ev_supervised _ _ _ He Hs) as Hs'. split; [done|]. exists new.
  split; [apply (follows_trace _ _ _ He)|]. split; [apply (ev_spawned _ _ _ He)|]. intros it Hit.
  destruct r as [u|e]; [|destruct (Hr it Hit) as [(it' & ? & ?)|?]; [right; by exists it'|by left]].
  destruct Hr as [Hr|(l & Hl & Hr)]; [rewrite Hr in Hit; by apply not_elem_of_nil in Hit|].
  destruct (Hr it Hit) as [(it' & Hin & Hc & [Hcan Hdue] & Hen)|(? & it' & ? & _ & ?)]; [right|left; eauto].
  exists it'. split_and!; [done..|]. intros _. exists l.
  assert (Hend : it_end_at it' = it_end_at it) by (unfold core in Hc; congruence).
  rewrite (core_id _ _ Hc) in Hcan. rewrite Hend in Hdue.
  pose proof (proj1 (Forall_forall _ _) (proj2 Hs') _ Hin) as [Hiff Hterm].
  rewrite (core_pid _ _ Hc) in Hterm. split_and!; [done| |done|].
  - intros [Hx|Hx]; apply Hterm; [by rewrite Hcan|auto].
  - intros Hx. destruct Hen as [Hk|[[_ Hd]|[Hd Hm]]]; [left; by rewrite <- (core_pid _ _ Hc)|lia|right].
    split; [done|]. destruct (it_requested_at it') as [t|] eqn:Ht.
    + destruct (Hm t eq_refl) as (m & ? & ?). eauto.
    + exfalso. apply Hdue; [lia|]. by apply Hiff.
Qed.
End Children.

(** ** Examples *)

(** A worker that watches one job of a machine whose ledger has lost it. *)
Definition watched : running_item :=
  RunningItem (RunningJob "r1" "t1" None) 100 1 (seconds 1000) None.

Definition no_jobs : ledger := Ledger [] None [] None.

Definition no_files : file_view := FileView (λ _, true) (λ _, Raise (OSError "no such file")).

Definition watching (l : res ledger) : supervisor sim :=
  Supervisor (Sim 0 l [100] true no_files) spec_world [watched] ∅ [].

Lemma watching_supervised l : supervised (watching l).
Proof.
  split; [apply NoDup_singleton|]. apply Forall_singleton. split; [done|]. intros Hr. by destruct Hr.
Qed.

Lemma reconcile_running_witness :
  supervised (watching (Ok no_jobs)) ∧
  runs (_reconcile_running ada (seconds 5) (seconds 2000)) (λ r s', supervised s' ∧
    (ended 100 (k_trace s') ∨ signalled SIGTERM 100 (k_trace s')))
    (watching (Ok no_jobs)).
Proof.
  pose proof (watching_supervised (Ok no_jobs)) as Hs. split; [exact Hs|].
  assert (Hok : (_reconcile_running ada (seconds 5) (seconds 2000) (watching (Ok no_jobs))).1 = Some (Ok tt))
    by (vm_compute; reflexivity).
  pose proof (reconcile_running_spec ada (seconds 5) (seconds 2000) _ Hs ltac:(done)) as H.
  unfold runs in *. destruct (_reconcile_running _ _ _ _) as [[r|] s']; [|done]. cbn in Hok.
  injection Hok as ->. destruct H as [Hs' (new & Htr & _ & Hall)]. split; [done|].
  cbn in Htr. rewrite Htr. destruct (Hall watched) as [[He _]|(it' & _ & _ & Hk)]; [by left|by left|].
  right. destruct (Hk eq_refl) as (l & _ & Hterm & _). rewrite <- Htr. apply Hterm. right. vm_compute. congruence.
Defined.

Lemma shutdown_running_witness :
  supervised (watching (Raise (OSError "disk gone"))) ∧
  ∃ s', _shutdown_running_jobs (_reconcile_running ada (seconds 5)) (seconds 5)
          (watching (Raise (OSError "disk gone"))) = (Some (Ok tt), s') ∧
    signalled SIGTERM 100 (k_trace s') ∧
    (signalled SIGKILL 100 (k_trace s') ∨ ended 100 (k_trace s')).
Proof.
  pose proof (watching_supervised (Raise (OSError "disk gone"))) as Hs. split; [exact Hs|].
  destruct (shutdown_running_spec ada (seconds 5) (seconds 5) _ Hs) as (s' & new & Hrun & Htr & _ & Hall).
  exists s'. split; [exact Hrun|]. destruct (Hall watched) as [Ht Hk]; [by left|]. split; [exact Ht|].
  rewrite Htr. cbn [k_trace watching app]. destruct Hk as [Hk|[Hk _]]; [by left|by right].
Defined.

Lemma shutdown_without_ledger_witness :
  supervised (watching (Ok no_jobs)) ∧
  ∃ r s', _shutdown_running_jobs_without_ledger (seconds 5) (watching (Ok no_jobs)) = (Some r, s') ∧
    signalled SIGKILL 100 (k_trace s') ∧ quiet (k_trace s').
Proof.
  pose proof (watching_supervised (Ok no_jobs)) as Hs. split; [exact Hs|].
  destruct (shutdown_without_ledger_spec (seconds 5) _ Hs) as (r & s' & new & Hrun & Htr & Hq & Hall & _).
  exists r, s'. split; [exact Hrun|]. rewrite Htr. cbn [k_trace watching app].
  split; [|exact Hq]. apply (Hall watched). by left.
Defined.
