(* ===== verification/Launch.v ===== *)
(** * Launch: starting a claimed job ([_start_claimed_job] of [src/src/bk/worker.py])

    Between the claim and the running command lie many calls that may fail: the
    specification is read, the log is opened, the claim is looked up again, the
    process is started and its log attached, and the ledger is told. This file
    models the whole function with its two handlers, on the host of [Process], and
    states what holds after it in every case. *)

From S2P Require Import Prelude PyBase Json Jsonl Timeparse Models Sha256 Requests Jobs JobSpecs Process Worker.

(** Which subclass of [OSError] an operating system error with this text is. *)
Inductive os_error := FileNotFoundError | PermissionDenied | PlainOSError.

Class OsErrors := os_error_of : string → os_error.

Fixpoint starts_with (prefix l : list ascii) : bool :=
  match prefix, l with
  | [], _ => true
  | _ :: _, [] => false
  | c :: prefix, d :: l => bool_decide (c = d) && starts_with prefix l
  end.

Fixpoint occurs (word l : list ascii) : bool :=
  starts_with word l || match l with [] => false | _ :: l => occurs word l end.

(** [word in text] *)
Definition contains (word s : string) : bool := occurs (chars word) (chars s).

Definition _public_launch_failure `{OsErrors} (e : exn) : string :=
  match e with
  | OSError message =>
      match os_error_of message with
      | FileNotFoundError => "scheduled executable or working directory was not found"
      | PermissionDenied => "scheduled executable or private job storage was not accessible"
      | PlainOSError => "scheduled command could not be started"
      end
  | BookingError message =>
      if contains "working directory" message
      then "scheduled working directory is invalid or no longer exists"
      else if contains "digest" message || contains "internally inconsistent" message
      then "private job spec integrity check failed"
      else if contains "job spec" message || contains "private job" message || contains "job log" message
      then "private job storage validation failed"
      else "scheduled command validation failed"
  | ValueError _ => "scheduled command configuration is invalid"
  | _ => "scheduled command could not be started"
  end.

(** [except (OSError, ValueError, BookingError)] *)
Definition handled (e : exn) : bool :=
  is_os_error e || match e with ValueError _ | BookingError _ => true | _ => false end.

(** [except (OSError, ValueError, BookingError, RuntimeError)] *)
Definition handled_or_runtime (e : exn) : bool :=
  handled e || match e with RuntimeError _ => true | _ => false end.

(** The arguments of the function and what it takes from the configuration. *)
Record launch_setup := LaunchSetup {
  ln_actor : actor;
  ln_log_root : string;
  ln_log_dir : string;
  ln_environ : gmap string string;
  ln_job_log_max_mb : Z;
  ln_grace : timedelta;
  ln_cuda_visible_devices : option (list string);
  ln_require_validated_devices : bool;
}.

Definition MIB : Z := 1024 * 1024.

Definition job_log_path (root reservation_id : string) : string :=
  root +:+ "/" +:+ default (sha256_hexdigest (text (utf8_encode (chars reservation_id))))
                     (uuid_text reservation_id) +:+ ".log".

Definition spec_directory (u : launch_setup) : string := ln_log_root u +:+ "/specs".

Definition reserved_gpus (r : reservation) : list string := str_of_Z <$> r_gpus r.

(** [CUDA_VISIBLE_DEVICES]: the devices the launch guard validated, or the numbers
    of the reservation where no validation is required. *)
Definition launch_devices (u : launch_setup) (r : reservation) : res (list string) :=
  let devices := default [] (ln_cuda_visible_devices u) in
  if negb (Nat.eqb (length devices) (length (reserved_gpus r)))
  then if ln_require_validated_devices u
       then Raise (BookingError "validated GPU launch binding is unavailable")
       else Ok (reserved_gpus r)
  else Ok devices.

Definition launch_environment (u : launch_setup) (r : reservation) (path : option string)
    (devices : list string) : gmap string string :=
  let env := match path with Some p => <["PATH" := p]> (ln_environ u) | None => ln_environ u end in
  let env := <["CUDA_VISIBLE_DEVICES" := join "," devices]> env in
  let env := <["CUDA_DEVICE_ORDER" := "PCI_BUS_ID"]> env in
  let env := <["BK_RESERVATION_ID" := r_id r]> env in
  let env := <["BK_RESERVED_GPUS" := join "," (reserved_gpus r)]> env in
  match r_expected_memory_mb r with
  | Some mb => <["BK_EXPECTED_GPU_MEMORY_MB" := str_of_Z mb]> env
  | None => env
  end.

Definition start_header (r : reservation) (argv : list string) (cwd : string) (now : datetime) : json :=
  JObj [("event", JStr "bk-job-start"); ("timestamp", JStr (to_iso now));
        ("reservation_id", JStr (r_id r)); ("gpus", JList (JInt <$> r_gpus r)); ("cwd", JStr cwd);
        ("argv", argv_json argv)].

Definition launch_event (name key text : string) (now : datetime) : json :=
  JObj [("event", JStr name); ("timestamp", JStr (to_iso now)); (key, JStr text)].

Section Launch.
Context {H : Type} `{!Host H} `{!OsErrors}.
Variables (u : launch_setup) (r : reservation).

Definition the_job : job := default ∅ (r_job r).
Definition the_token : string := str_or_empty (the_job !! "claim_token").

(** The command of the job, read from its specification. *)
Definition read_command : W H (list string * string * option string) :=
  view ← ask Files;
  of_result (_validated_job_payload (fv_is_dir view) (fv_open_spec view) (spec_directory u)
               (ln_actor u) the_job).

(** [JobLogPump(...)] *)
Definition open_log (argv : list string) (cwd : string) : W H Z :=
  now ← on_world utc_now;
  opened ← ask (LogOpen (job_log_path (ln_log_root u) (r_id r)) (ln_job_log_max_mb u * MIB)
                  (start_header r argv cwd now));
  of_result opened.

Definition claim_is_launchable : W H bool :=
  l ← store_load; on_world (_claim_is_launchable (ln_actor u) (r_id r) the_token l).

Definition record_event (pump : Z) (name key text : string) : W H unit :=
  now ← on_world utc_now;
  done ← ask (LogEvent pump (launch_event name key text now));
  of_result done.

Definition _mark_aborted_claim : W H unit :=
  store_transaction (mark_aborted_mutate (ln_actor u) (r_id r) the_token).

Definition _mark_launch_failure (message : string) : W H unit :=
  store_transaction (mark_launch_failure_mutate (ln_actor u) (r_id r) the_token message).

(** From the log to the command, or no command when the claim is gone. *)
Definition prepare_command (pump : Z) (payload : list string * string * option string)
    : W H (option command) :=
  let '(argv, cwd, path) := payload in
  devices ← of_result (launch_devices u r);
  launchable ← claim_is_launchable;
  if negb launchable then
    _ ← record_event pump "bk-job-launch-aborted" "reason" "claim is no longer active";
    _ ← ask (LogAbort pump);
    _ ← _mark_aborted_claim;
    mret None
  else mret (Some (Command argv cwd (launch_environment u r path devices))).

(** The output of the process goes to the log. *)
Definition attach_log (pump pid : Z) : W H unit :=
  stdout ← ask (HasStdout pid);
  if negb stdout then throws (OSError "failed to open the job log stream") else
  started ← ask (LogStart pump pid);
  of_result started.

(** The first [except] clause, with what was reached before the exception. *)
Definition launch_failed (pump pid : option Z) (e : exn) : W H (option running_item) :=
  if negb (handled e) then throws e else
  _ ← match pid with
      | Some pid => _terminate_and_reap_process_group pid (ln_grace u)
      | None => mret tt
      end;
  _ ← match pump with
      | Some pump =>
          noted ← catch (record_event pump "bk-job-launch-error" "error" (error_text e));
          _ ← match noted with
              | Raise e => if handled_or_runtime e then mret tt else throws e
              | Ok _ => mret tt
              end;
          ask (LogAbort pump)
      | None => mret tt
      end;
  _ ← _mark_launch_failure (_public_launch_failure e);
  mret None.

(** [process.wait] and the end of the log of a process that is not kept. *)
Definition stop_child (pump pid : Z) : W H unit :=
  _ ← _terminate_and_reap_process_group pid (ln_grace u);
  finished ← ask (LogFinish pump);
  _ ← of_result finished; mret tt.

(** The ledger learns of the process, or the process is stopped. *)
Definition announce_start (pump pid : Z) : W H (option running_item) :=
  marked ← catch (store_transaction (mark_running_mutate (ln_actor u) (r_id r) the_token pid));
  match marked with
  | Raise e => _ ← stop_child pump pid; throws e
  | Ok false => _ ← stop_child pump pid; _ ← _mark_aborted_claim; mret None
  | Ok true => mret (Some (RunningItem (RunningJob (r_id r) the_token None) pid pump (r_end_at r) None))
  end.

Definition start_process (pump : Z) (c : command) : W H (option running_item) :=
  process ← ask (Popen c);
  match process with
  | Raise e => launch_failed (Some pump) None e
  | Ok pid =>
      attached ← catch (attach_log pump pid);
      match attached with
      | Raise e => launch_failed (Some pump) (Some pid) e
      | Ok _ => announce_start pump pid
      end
  end.

Definition with_log (payload : list string * string * option string) (pump : Z)
    : W H (option running_item) :=
  prepared ← catch (prepare_command pump payload);
  match prepared with
  | Raise e => launch_failed (Some pump) None e
  | Ok None => mret None
  | Ok (Some c) => start_process pump c
  end.

Definition _start_claimed_job : W H (option running_item) :=
  if negb (bool_decide (ln_log_root u = ln_log_dir u))
  then _ ← _mark_launch_failure "invalid log path"; mret None
  else
    opened ← catch (payload ← read_command;
                    pump ← (let '(argv, cwd, _) := payload in open_log argv cwd);
                    mret (payload, pump));
    match opened with
    | Raise e => launch_failed None None e
    | Ok (payload, pump) => with_log payload pump
    end.
End Launch.

(** ** What a start leaves behind *)

(** The claim as the ledger shows it: active, still this worker's, and its end is
    after a reading of the clock. *)
Definition launchable (a : actor) (id token : string) (w : world) (l : ledger) : Prop :=
  ∃ r j n, owned_job a id l = Some (r, j) ∧ r_status r = STATUS_ACTIVE ∧ is_claimed token j = true ∧
    (w_reads w ≤ n)%nat ∧ replace_microsecond_0 (w_clock w n) < r_end_at r.

Lemma claim_is_launchable_true a id token l w w1 w2 :
  later w w1 → Jobs._claim_is_launchable a id token l w1 = (Ok true, w2) → launchable a id token w l.
Proof.
  intros (Hclock & _ & Hreads & _). unfold Jobs._claim_is_launchable.
  destruct (owned_job a id l) as [[r j]|] eqn:Ho; [|by intros [=]].
  destruct (_ && _) eqn:Hc; [|by intros [=]]. intros (t & w3 & (-> & ->)%clock_now_Ok & H)%M_bind_Ok.
  injection H as H _. apply Z.ltb_lt in H. apply andb_true_iff in Hc as [Hs Hc].
  exists r, j, (w_reads w1). split_and!; [done|by apply bool_decide_eq_true in Hs|done|done|].
  by rewrite <- Hclock.
Qed.

Lemma forward_claim_is_launchable a id token l : forward (Jobs._claim_is_launchable a id token l).
Proof.
  unfold Jobs._claim_is_launchable. repeat case_match; try apply forward_ret.
  apply forward_bind; [apply forward_clock|]. intros. apply forward_ret.
Qed.

Ltac solve_forward :=
  intros; unfold mark_running_mutate, mark_aborted_mutate, mark_launch_failure_mutate, unchanged;
  repeat first [apply forward_ret | apply forward_clock | apply forward_job_log
               | apply forward_bind; [|intros] | case_match].

Lemma forward_mark_running a id token pid l : forward (mark_running_mutate a id token pid l).
Proof. solve_forward. Qed.

Lemma forward_mark_aborted a id token l : forward (mark_aborted_mutate a id token l).
Proof. solve_forward. Qed.

Lemma forward_mark_launch_failure a id token m l : forward (mark_launch_failure_mutate a id token m l).
Proof. solve_forward. Qed.

Section LaunchRuns.
Context {H : Type} {Hhost : Host H} {Hclock : Clock H} `{!OsErrors}.
Variables (u : launch_setup) (r : reservation) (w : world).
Implicit Types s : supervisor H.

Abbreviation token := (the_token r).

Lemma steady_now {B} (f : datetime → W H B) Q :
  (∀ t, steady w (f t) Q) → steady w (on_world utc_now ≫= f) Q.
Proof.
  intros Hf. eapply (steady_bind _ _ _ (λ x n, n = [] ∧ ∃ t, x = Ok t)).
  - apply steady_world; [apply forward_utc_now|]. intros w1 x w2 _ Hx. split; [done|].
    injection Hx as <- _. by eexists.
  - intros e n [_ [t ?]]; congruence.
  - intros t n [-> _]. apply Hf.
Qed.

Lemma steady_answer {B} c (f : answer c → W H B) Q :
  (∀ a, spawned [Event c a] = []) → (∀ a, steady w (f a) (λ out n, Q out (Event c a :: n))) →
  steady w (ask c ≫= f) Q.
Proof.
  intros Hc Hf. eapply (steady_bind _ _ _ (λ x n, ∃ a, x = Ok a ∧ n = [Event c a])).
  - apply steady_ask; [done|]. by eexists.
  - by intros e n (a & ? & _).
  - intros a n (a' & [= <-] & ->). apply Hf.
Qed.

Lemma record_event_run pump name key text :
  steady (H := H) w (record_event pump name key text) (λ _ _, True).
Proof. apply steady_now. intros t. apply (steady_answer (LogEvent _ _)); [done|]. intros x. by apply steady_result. Qed.

Lemma attach_log_run pump pid :
  steady (H := H) w (attach_log pump pid) (λ out new,
    ∀ e, out = Raise e → handled e = false → Event (LogStart pump pid) (Raise e) ∈ new).
Proof.
  apply (steady_answer (HasStdout pid)); [done|]. intros [|]; cbn [negb].
  - apply (steady_answer (LogStart pump pid)); [done|]. intros x. apply steady_result.
    intros e ->. intros _. right. by left.
  - apply steady_result. by intros e [= <-].
Qed.

Lemma stop_child_run pump pid :
  steady (H := H) w (stop_child u pump pid) (λ _ new, stopped pid new).
Proof.
  eapply steady_bind; [by apply steady_quietly, terminate_and_reap_run|by intros e n (? & ? & _)|].
  intros [] n1 (_ & _ & Hst). apply (steady_answer (LogFinish pump)); [done|]. intros x.
  eapply steady_bind; [by apply (steady_result _ _ (λ _ n, n = []))|intros e n ->; in_trace|].
  intros y n ->. apply steady_ret. in_trace.
Qed.

Lemma announce_start_run pump pid :
  steady (H := H) w (announce_start u r pump pid) (λ out new,
    match out with
    | Ok (Some it) => it = RunningItem (RunningJob (r_id r) token None) pid pump (r_end_at r) None ∧
        transacted (mark_running_mutate (ln_actor u) (r_id r) token pid) new (Ok true)
    | _ => stopped pid new
    end).
Proof.
  eapply steady_bind.
  { eapply steady_catch, steady_transaction. intros; apply forward_mark_running. }
  { intros e n (x & ? & _). done. }
  intros out n1 (x & [= <-] & Htx). destruct out as [[]|e].
  - apply steady_ret. by rewrite app_nil_r.
  - eapply steady_bind; [apply stop_child_run|intros e n Hst; in_trace|]. intros [] n2 Hst.
    eapply steady_bind; [by apply steady_transaction; intros; apply forward_mark_aborted|intros e n _; in_trace|].
    intros [] n3 _. apply steady_ret. in_trace.
  - eapply steady_bind; [apply stop_child_run|intros e' n Hst; in_trace|]. intros [] n2 Hst.
    apply steady_result. in_trace.
Qed.

Lemma launch_failed_run pump pid e :
  steady (H := H) w (launch_failed u r pump pid e) (λ out new,
    (∀ it, out ≠ Ok (Some it)) ∧
    (handled e = true → ∀ p, pid = Some p → stopped p new) ∧
    (handled e = false → out = Raise e)).
Proof.
  unfold launch_failed. destruct (handled e) eqn:He; cbn [negb]; [|by apply steady_result].
  eapply (steady_bind _ _ _ (λ x n, x = Ok tt ∧ ∀ p, pid = Some p → stopped p n)); [|by intros ? ? [? _]|].
  { destruct pid as [p|]; [|by apply steady_ret].
    eapply steady_mono; [by apply steady_quietly, terminate_and_reap_run|].
    intros x n ([] & -> & ?). split; [done|]. by intros ? [= <-]. }
  intros [] n1 [_ Hst].
  assert (Hst' : ∀ n p, pid = Some p → stopped p (n1 ++ n)) by (intros n p Hp; specialize (Hst p Hp); in_trace).
  eapply (steady_bind _ _ _ (λ _ _, True)).
  - destruct pump as [q|]; [|by apply steady_ret].
    eapply (steady_bind _ _ _ (λ _ _, True)); [|done|].
    { eapply steady_mono; [apply steady_catch, record_event_run|done]. }
    intros x n _. eapply (steady_bind _ _ _ (λ _ _, True)); [|done|].
    { destruct x as [|e']; [by apply steady_ret|]. destruct (handled_or_runtime e'); [by apply steady_ret|by apply steady_result]. }
    intros [] n' _. by apply (steady_ask w (LogAbort q)).
  - intros e' n _. cbv beta. split_and!; [done| |done]. intros _. apply Hst'.
  - intros [] n2 _. eapply steady_bind.
    + apply steady_transaction. intros; apply forward_mark_launch_failure.
    + intros e' n _. cbv beta. split_and!; [done| |done]. intros _. apply Hst'.
    + intros [] n3 _. apply steady_ret. split_and!; [done| |done]. intros _. apply Hst'.
Qed.

Lemma read_command_run :
  steady (H := H) w (read_command u r) (λ out new, ∀ payload, out = Ok payload →
    ∃ view, Event Files view ∈ new ∧
      _validated_job_payload (fv_is_dir view) (fv_open_spec view) (spec_directory u) (ln_actor u)
        (the_job r) = Ok payload).
Proof.
  apply (steady_answer Files); [done|]. intros view. apply steady_result. intros payload Hp.
  exists view. split; [by left|done].
Qed.

Lemma prepare_command_run pump payload :
  steady (H := H) w (prepare_command u r pump payload) (λ out new, ∀ c, out = Ok (Some c) →
    ∃ l devices, Event Load (Ok l) ∈ new ∧ launchable (ln_actor u) (r_id r) token w l ∧
      launch_devices u r = Ok devices ∧
      c = Command payload.1.1 payload.1.2 (launch_environment u r payload.2 devices)).
Proof.
  destruct payload as [[argv cwd] path]. unfold prepare_command.
  eapply steady_bind; [by apply (steady_result _ _ (λ x n, x = launch_devices u r ∧ n = []))|done|].
  intros devices n1 [Hdev ->].
  eapply (steady_bind _ _ _ (λ x n, x = Ok true → ∃ l, Event Load (Ok l) ∈ n ∧ launchable (ln_actor u) (r_id r) token w l)).
  { eapply (steady_bind _ _ _ (λ x n, ∃ y, x = y ∧ n = [Event Load y])); [apply steady_load; by eauto|done|].
    intros l n (? & <- & ->). apply steady_world; [apply forward_claim_is_launchable|].
    intros w1 out w2 Hw Hc ->. exists l. split; [by left|]. by eapply claim_is_launchable_true. }
  { done. }
  intros [|] n2 Hl; cbn [negb].
  - apply steady_ret. intros c [= <-]. destruct (Hl eq_refl) as (l & ? & ?).
    exists l, devices. split_and!; [set_solver|done..].
  - eapply steady_bind; [apply record_event_run|done|]. intros [] n3 _.
    apply (steady_answer (LogAbort _)); [done|]. intros [].
    eapply steady_bind; [by apply steady_transaction; intros; apply forward_mark_aborted|done|].
    intros [] n4 _. by apply steady_ret.
Qed.

(** What became of a started process: the worker keeps it, with the ledger telling
    that it runs, or it was stopped, or its log could not be attached for a reason
    the function does not handle. *)
Definition fate (pump pid : Z) (out : res (option running_item)) (rest : list event) : Prop :=
  match out with
  | Ok (Some it) => it = RunningItem (RunningJob (r_id r) token None) pid pump (r_end_at r) None ∧
      ∃ before commit, rest = before ++ commit ∧
        transacted (mark_running_mutate (ln_actor u) (r_id r) token pid) commit (Ok true)
  | _ => stopped pid rest ∨
      ∃ e, out = Raise e ∧ handled e = false ∧ Event (LogStart pump pid) (Raise e) ∈ rest
  end.

Lemma start_process_run pump c s :
  later w (k_world s) →
  runs (start_process u r pump c) (λ out s', ∃ new, after s new s' ∧
    ((spawned new = [] ∧ ∀ it, out ≠ Ok (Some it)) ∨
     ∃ pid rest, new = Event (Popen c) (Ok pid) :: rest ∧ spawned rest = [] ∧ fate pump pid out rest)) s.
Proof.
  intros Hw. apply (runs_ask_bind (Popen c)). intros [pid|e] s1 H1 _.
  - assert (Hw1 : later w (k_world s1)) by (etrans; [done|apply H1]).
    assert (Hrest : steady (H := H) w (attached ← catch (attach_log pump pid);
      match attached with
      | Raise e => launch_failed u r (Some pump) (Some pid) e
      | Ok _ => announce_start u r pump pid
      end) (fate pump pid)).
    { eapply steady_bind; [apply steady_catch, attach_log_run|by intros e n (? & ? & _)|].
      intros x n1 (? & [= <-] & Hatt). destruct x as [[]|e].
      - eapply steady_mono; [apply announce_start_run|]. intros [[it|]|e] n2 Ht; cbn.
        + destruct Ht as [-> Htx]. split; [done|]. by exists n1, n2.
        + left. in_trace.
        + left. in_trace.
      - eapply steady_mono; [apply launch_failed_run|]. intros out n2 (Hno & Hst & Hre).
        destruct (handled e) eqn:He.
        + assert (stopped pid (n1 ++ n2)) by (specialize (Hst eq_refl pid eq_refl); in_trace).
          destruct out as [[it|]|e']; [by destruct (Hno it)|by left..].
        + rewrite (Hre eq_refl). right. exists e. split_and!; [done..|]. specialize (Hatt e eq_refl He). set_solver. }
    eapply runs_mono; [by apply Hrest|]. intros out s2 (rest & H2 & Hn2 & Hf).
    exists (Event (Popen c) (Ok pid) :: rest). split; [by apply (after_trans _ _ _ _ _ H1 H2)|].
    right. by exists pid, rest.
  - eapply runs_mono.
    { apply (launch_failed_run (Some pump) None e s1). etrans; [done|apply H1]. }
    intros out s2 (n2 & H2 & Hn2 & Hno & _). exists (Event (Popen c) (Raise e) :: n2).
    split; [by apply (after_trans _ _ _ _ _ H1 H2)|]. by left.
Qed.
End LaunchRuns.

Lemma update_first_find id f rs r :
  find_first id rs = Some r → r_id (f r) = id → find_first id (update_first id f rs) = Some (f r).
Proof.
  intros Hf Hid. induction rs as [|x rs IH]; [done|]. cbn in *. case_bool_decide as Hx.
  - injection Hf as ->. cbn. by rewrite bool_decide_true by done.
  - cbn. rewrite bool_decide_false by done. auto.
Qed.

(** A transaction that marked the job running: what it committed. *)
Lemma marked_running a id token pid new :
  transacted (mark_running_mutate a id token pid) new (Ok true) →
  ∃ l logs r j, Event (Commit l logs) (Ok tt) ∈ new ∧ owned_job a id l = Some (r, j) ∧
    job_status j = Some JOB_RUNNING ∧ j !! "runner_pid" = Some (JInt pid).
Proof.
  destruct new as [|[[] x] rest]; try done. cbn. destruct x as [l|e]; [|by intros [_ ?]].
  intros (w & w' & Hm). destruct (mark_running_mutate _ _ _ _ l w) as [[[[[l' b] logs] ch]|e] w1] eqn:E;
    [|by destruct Hm as [_ ?]].
  destruct Hm as [_ Hm]. unfold mark_running_mutate, unchanged, utc_now in E.
  destruct (owned_job a id l) as [[r j]|] eqn:Ho.
  2:{ injection E as <- <- <- <- _. by destruct Hm as [_ ?]. }
  destruct (_ || _); [injection E as <- <- <- <- _; by destruct Hm as [_ ?]|].
  inv_M. simplify_eq. destruct Hm as (c & -> & Hc). destruct c as [[]|]; [|done].
  destruct (owned_job_Some _ _ _ _ _ Ho) as (Hf & Hu & Hj & Hi).
  eexists _, _, _, _. split; [right; by left|]. split.
  - unfold owned_job, store_job. cbn. rewrite Hi. erewrite update_first_find; [|done|done]. cbn.
    by rewrite Hu, Z.eqb_refl.
  - split; by job_lookup.
Qed.

(** The calls of a start that reached [subprocess.Popen]. *)
Definition started (u : launch_setup) (r : reservation) (w : world)
    (out : res (option running_item)) (new : list event) : Prop :=
  ∃ pid pump c before rest l view argv cwd path devices,
    new = before ++ Event (Popen c) (Ok pid) :: rest ∧
    spawned before = [] ∧ spawned rest = [] ∧
    Event Files view ∈ before ∧
    _validated_job_payload (fv_is_dir view) (fv_open_spec view) (spec_directory u) (ln_actor u)
      (the_job r) = Ok (argv, cwd, path) ∧
    launch_devices u r = Ok devices ∧
    c = Command argv cwd (launch_environment u r path devices) ∧
    Event Load (Ok l) ∈ before ∧
    launchable (ln_actor u) (r_id r) (the_token r) w l ∧
    fate u r pump pid out rest.

Lemma start_claimed_job_run {H} {Hhost : Host H} {Hclock : Clock H} `{!OsErrors} u r (s : supervisor H) :
  runs (_start_claimed_job u r) (λ out s', ∃ new, after s new s' ∧
    ((spawned new = [] ∧ ∀ it, out ≠ Ok (Some it)) ∨ started u r (k_world s) out new)) s.
Proof.
  unfold _start_claimed_job. set (w := k_world s). case_bool_decide as Hdir; cbn [negb].
  2:{ eapply runs_mono.
      - eapply (steady_bind w _ _ (λ _ _, True) (λ out _, ∀ it, out ≠ Ok (Some it))).
        + eapply steady_mono; [apply steady_transaction; intros; apply forward_mark_launch_failure|done].
        + done.
        + intros [] n _. by apply steady_ret.
        + done.
      - intros out s' (new & ? & ? & ?). exists new. split; [done|by left]. }
  apply runs_bind. eapply runs_mono.
  { apply (steady_catch w _ (λ out new, ∀ payload pump, out = Ok (payload, pump) →
      ∃ view, Event Files view ∈ new ∧ _validated_job_payload (fv_is_dir view) (fv_open_spec view)
        (spec_directory u) (ln_actor u) (the_job r) = Ok payload)); [|done].
    eapply steady_bind; [apply read_command_run|done|]. intros [[argv cwd] path] n1 Hp.
    eapply (steady_bind _ _ _ (λ _ _, True)); [|done|].
    - apply steady_now. intros t. apply (steady_answer w (LogOpen _ _ _)); [done|]. intros x. by apply steady_result.
    - intros pump n2 _. apply steady_ret. intros payload pump' [= <- <-].
      destruct (Hp _ eq_refl) as (view & ? & ?). exists view. split; [set_solver|done]. }
  intros ? s1 (n1 & H1 & Hn1 & opened & -> & Hopen).
  assert (Hw1 : later w (k_world s1)) by apply H1.
  destruct opened as [[payload pump]|e].
  2:{ eapply runs_mono; [by apply (launch_failed_run u r w None None e s1)|].
      intros out s2 (n2 & H2 & Hn2 & Hno & _). exists (n1 ++ n2).
      split; [by eapply after_trans|left]. by rewrite spawned_app, Hn1, Hn2. }
  destruct (Hopen payload pump eq_refl) as (view & Hview & Hpay).
  apply runs_bind. eapply runs_mono; [by apply (steady_catch w _ _ (prepare_command_run u r w pump payload))|].
  intros ? s2 (n2 & H2 & Hn2 & prepared & -> & Hprep).
  pose proof (after_trans _ _ _ _ _ H1 H2) as H12.
  destruct prepared as [[c|]|e].
  - destruct (Hprep c eq_refl) as (l & devices & Hl & Hla & Hdev & Hc).
    eapply runs_mono; [apply (start_process_run u r w pump c s2); etrans; [done|apply H2]|].
    intros out s3 (n3 & H3 & Hout). exists ((n1 ++ n2) ++ n3). split; [by eapply after_trans|].
    destruct Hout as [[Hn3 Hno]|(pid & rest & -> & Hrest & Hfate)]; [left|right].
    { by rewrite !spawned_app, Hn1, Hn2, Hn3. }
    destruct payload as [[argv cwd] path].
    exists pid, pump, c, (n1 ++ n2), rest, l, view, argv, cwd, path, devices.
    split_and!; try done; [by rewrite spawned_app, Hn1, Hn2|set_solver..].
  - apply runs_ret. exists (n1 ++ n2). split; [done|left]. by rewrite spawned_app, Hn1, Hn2.
  - eapply runs_mono; [apply (launch_failed_run u r w (Some pump) None e s2); etrans; [done|apply H2]|].
    intros out s3 (n3 & H3 & Hn3 & Hno & _). exists ((n1 ++ n2) ++ n3).
    split; [by eapply after_trans|left]. by rewrite !spawned_app, Hn1, Hn2, Hn3.
Qed.

Ltac lookup_environment :=
  cbn; unfold launch_environment; case_match;
  by repeat first [rewrite lookup_insert_eq|rewrite lookup_insert_ne by done].

(** The devices of the process. *)
Lemma launch_devices_Ok u r devices : launch_devices u r = Ok devices →
  (ln_cuda_visible_devices u = Some devices ∧ length devices = length (r_gpus r)) ∨
  (devices = (str_of_Z <$> r_gpus r) ∧
     (ln_require_validated_devices u = true → r_gpus r = []) ∧
     ∀ tokens, ln_cuda_visible_devices u = Some tokens → length tokens ≠ length (r_gpus r)).
Proof.
  unfold launch_devices, reserved_gpus. rewrite length_fmap.
  destruct (Nat.eqb_spec (length (default [] (ln_cuda_visible_devices u))) (length (r_gpus r))) as [E|E]; cbn [negb].
  - intros [= <-]. destruct (ln_cuda_visible_devices u) as [tokens|]; [by left|right].
    cbn in E. symmetry in E. apply nil_length_inv in E as ->. done.
  - destruct (ln_require_validated_devices u); [done|]. intros [= <-]. right. split_and!; [done..|].
    intros tokens H. by rewrite H in E.
Qed.

(** C18: starting a claimed job. Whatever the host answers, the function ends. It
    starts at most one process, after it read the command from the specification of
    the job and saw in the ledger that the claim is still its own, active and not
    over; the process gets exactly that command, directory and [PATH], the id by which
    a later recovery finds it, and as its devices the tokens the caller validated, one
    for each reserved GPU, or the numbers of the reserved GPUs themselves, which, where
    validation is required, happens only for a reservation without any GPU. Then the worker keeps the process and the ledger says that it runs with this
    number; or the process group was told to end, and killed or seen to end; the one
    exception is an error of the log thread that the function does not handle: then
    it raises and the process is left as it is. *)
Theorem start_claimed_job_spec {H} {Hhost : Host H} {Hclock : Clock H} `{!OsErrors} u r (s : supervisor H) :
  runs (_start_claimed_job u r) (λ out s', ∃ new, after s new s' ∧
    ((spawned new = [] ∧ ∀ it, out ≠ Ok (Some it)) ∨
     ∃ pid c before rest argv cwd path,
       new = before ++ Event (Popen c) (Ok pid) :: rest ∧ spawned before = [] ∧ spawned rest = [] ∧
       (∃ view, Event Files view ∈ before ∧
          _validated_job_payload (fv_is_dir view) (fv_open_spec view) (spec_directory u) (ln_actor u)
            (the_job r) = Ok (argv, cwd, path)) ∧
       (∃ l, Event Load (Ok l) ∈ before ∧
          launchable (ln_actor u) (r_id r) (the_token r) (k_world s) l) ∧
       cmd_argv c = argv ∧ cmd_cwd c = cwd ∧
       (∀ p, path = Some p → cmd_env c !! "PATH" = Some p) ∧
       (∃ devices, cmd_env c !! "CUDA_VISIBLE_DEVICES" = Some (join "," devices) ∧
          ((ln_cuda_visible_devices u = Some devices ∧ length devices = length (r_gpus r)) ∨
           (devices = (str_of_Z <$> r_gpus r) ∧
              (ln_require_validated_devices u = true → r_gpus r = []) ∧
              ∀ tokens, ln_cuda_visible_devices u = Some tokens → length tokens ≠ length (r_gpus r)))) ∧
       cmd_env c !! "CUDA_DEVICE_ORDER" = Some "PCI_BUS_ID" ∧
       cmd_env c !! "BK_RESERVED_GPUS" = Some (join "," (str_of_Z <$> r_gpus r)) ∧
       cmd_env c !! "BK_RESERVATION_ID" = Some (r_id r) ∧
       match out with
       | Ok (Some it) =>
           it_id it = r_id r ∧ it_pid it = pid ∧ it_end_at it = r_end_at r ∧
           ∃ l logs r' j, Event (Commit l logs) (Ok tt) ∈ rest ∧
             owned_job (ln_actor u) (r_id r) l = Some (r', j) ∧
             job_status j = Some JOB_RUNNING ∧ j !! "runner_pid" = Some (JInt pid)
       | _ => stopped pid rest ∨
           ∃ pump e, out = Raise e ∧ handled e = false ∧ Event (LogStart pump pid) (Raise e) ∈ rest
       end)) s.
Proof.
  eapply runs_mono; [apply start_claimed_job_run|]. intros out s' (new & Ha & Hout). exists new.
  split; [done|]. destruct Hout as [?|Hst]; [by left|right].
  destruct Hst as (pid & pump & c & before & rest & l & view & argv & cwd & path & devices
                   & -> & Hb & Hr & Hview & Hpay & Hdev & -> & Hl & Hla & Hfate).
  exists pid, (Command argv cwd (launch_environment u r path devices)), before, rest, argv, cwd, path.
  split_and!; [done..|by eauto|by eauto|done|done| | | | | |].
  - intros p ->. by lookup_environment.
  - exists devices. split; [by lookup_environment|by apply launch_devices_Ok].
  - by lookup_environment.
  - by lookup_environment.
  - by lookup_environment.
  - destruct out as [[it|]|e]; cbn in Hfate.
    + destruct Hfate as (-> & before' & commit & -> & Htx). split_and!; [done..|].
      destruct (marked_running _ _ _ _ _ Htx) as (l' & logs & r' & j & ? & ?).
      exists l', logs, r', j. split; [set_solver|done].
    + destruct Hfate as [?|(e & ? & _)]; [by left|done].
    + destruct Hfate as [?|(e' & ? & ? & ?)]; [by left|right; by exists pump, e'].
Qed.

(** ** An error of the log thread

    [Thread.start] raises [RuntimeError] when no thread can be started. *)
Definition no_thread : exn := RuntimeError "can't start new thread".

Definition threadless : Host sim := λ c m,
  match c as c return answer c * sim with
  | LogStart _ _ => (Raise no_thread, m)
  | c => sim_host c m
  end.

#[export] Instance plain_errors : OsErrors := λ _, PlainOSError.

(** A claimed job of a ledger from before the private specifications. *)
Definition old_job : job := list_to_map
  [("status", JStr JOB_CLAIMED); ("claim_token", JStr "t1");
   ("argv", JList [JStr "/bin/true"]); ("cwd", JStr "/home/ada")].

Definition old_claim : reservation :=
  Reservation "r1" None 1000 (Some "ada") [0] MODE_EXCLUSIVE 0 (hours 1) STATUS_ACTIVE None None
    None None None (Some old_job) (Some []) None (Some []).

Definition plain_launch : launch_setup :=
  LaunchSetup ada "/jobs" "/jobs" ∅ 0 (seconds 5) None false.

Definition before_start : supervisor sim :=
  Supervisor (Sim 0 (Ok (Ledger [old_claim] None [] None)) [] true no_files) spec_world [] ∅ [].

Definition is_signal (ev : event) : bool :=
  match ev_call ev with Killpg _ _ | SendSignal _ _ => true | _ => false end.

(** When the log thread cannot be started the function raises, and the process it
    has started gets no signal and is no job of the worker. *)
Theorem log_thread_error_leaves_process :
  let '(out, s') := @_start_claimed_job sim threadless _ plain_launch old_claim before_start in
  out = Some (Raise no_thread) ∧ spawned (k_trace s') = [100] ∧ k_running s' = [] ∧
  sim_alive (k_host s') = [100] ∧ filter is_signal (k_trace s') = [].
Proof. vm_compute. repeat split. Qed.

Lemma start_claimed_job_witness :
  runs (_start_claimed_job plain_launch old_claim) (λ out s', ∃ it, out = Ok (Some it) ∧ it_pid it = 100)
    before_start.
Proof.
  pose proof (start_claimed_job_spec plain_launch old_claim before_start) as H.
  assert (Hok : ∃ it, (_start_claimed_job plain_launch old_claim before_start).1 = Some (Ok (Some it)) ∧
                      it_pid it = 100) by (vm_compute; eauto).
  unfold runs in *. destruct Hok as (it & Hok & Hp).
  destruct (_start_claimed_job _ _ _) as [[out|] s']; [|done]. injection Hok as ->. by exists it.
Defined.
