(* ===== verification/RecoverJobs.v ===== *)
(** * RecoverJobs: ending what a lost worker left behind ([src/src/bk/job_recovery.py])

    [recover_abandoned_jobs] decides what to do with each job that an earlier
    worker left claimed or running, records the decisions, and ends the process
    groups of the jobs that still have some: a request, the grace period, a kill. The
    decisions and the two transactions are those of [JobRecovery]; this file runs
    them on the host of [Process]. *)

From S2P Require Import Prelude PyBase Json Timeparse Models Requests Jobs JobRecovery JobSpecs.
From S2P Require Import Process Worker.

Record recovery_summary := RecoverySummary {
  rs_examined : Z;
  rs_terminated_groups : Z;
  rs_uncertain_jobs : Z;
  rs_remote_jobs : Z;
  rs_legacy_jobs : Z;
  rs_legacy_active_jobs : Z;
  rs_warnings : list string;
}.

(** The local variables of the loop over the candidates. *)
Record scan := Scan {
  sc_decisions : list (string * recovery_decision);
  sc_warnings : list string;
  sc_remote : Z;
  sc_legacy : Z;
  sc_legacy_active : Z;
}.

(** [d[key] = value] *)
Definition dict_put {A} (key : string) (value : A) (d : list (string * A)) : list (string * A) :=
  match assoc_get key d with
  | Some _ => (λ '(k, v), (k, if bool_decide (k = key) then value else v)) <$> d
  | None => d ++ [(key, value)]
  end.

Definition decide_id (id : string) (d : recovery_decision) (acc : scan) : scan :=
  Scan (dict_put id d (sc_decisions acc)) (sc_warnings acc) (sc_remote acc) (sc_legacy acc)
    (sc_legacy_active acc).

Definition add_remote (acc : scan) : scan :=
  Scan (sc_decisions acc) (sc_warnings acc) (sc_remote acc + 1) (sc_legacy acc) (sc_legacy_active acc).

Definition add_legacy (active : bool) (acc : scan) : scan :=
  Scan (sc_decisions acc) (sc_warnings acc) (sc_remote acc) (sc_legacy acc + 1)
    (sc_legacy_active acc + if active then 1 else 0).

Definition warn (id message : string) (acc : scan) : scan :=
  Scan (sc_decisions acc) (sc_warnings acc ++ [clip 8 id +:+ ": " +:+ message]) (sc_remote acc)
    (sc_legacy acc) (sc_legacy_active acc).

Section Recovery.
Context {H : Type} `{!Host H}.
Variables (a : actor) (hostname worker_id : string) (current_group : Z).

(** The decision on a job of this host, by what runs under its marker: the state
    when nothing can be said, the state and message when nothing is found, and the
    message when there is something to end. *)
Definition decide_local (unverified not_found missing_message ending_message : string) (id : string)
    (acc : scan) : W H scan :=
  discovery ← ask (Discover id);
  mret (if negb (pd_available discovery) then
          let message := match some_text (pd_warning discovery) with
                         | Some m => m
                         | None => "managed process discovery is unavailable"
                         end in
          decide_id id (RecoveryDecision unverified discovery message) (warn id message acc)
        else if bool_decide (pd_groups discovery = [])
        then decide_id id (RecoveryDecision not_found discovery missing_message) acc
        else decide_id id (RecoveryDecision "terminating" discovery ending_message) acc).

Definition scan_one (current : datetime) (acc : scan) (r : reservation) : W H scan :=
  let j := default ∅ (r_job r) in
  let lease_id := job_field "worker_lease_id" j in
  let runner_host := job_field "runner_host" j in
  let remote := negb (bool_decide (runner_host = "")) && negb (bool_decide (runner_host = hostname)) in
  if bool_decide (lease_id = "") then
    let active := match _safe_end_at r with None => true | Some end_at => current <? end_at end in
    let acc := add_legacy active acc in
    if active then mret acc
    else if remote then
      mret (decide_id (r_id r) (RecoveryDecision "legacy-remote" no_discovery
              "legacy job expired on another host; process state cannot be verified locally")
            (add_remote acc))
    else decide_local "legacy-unverified" "legacy-not-found"
           "legacy job expired without a visible owned process group"
           "legacy job outlived its reservation; terminating its verified process group" (r_id r) acc
  else if bool_decide (lease_id = worker_id) then mret acc
  else if remote then
    mret (decide_id (r_id r) (RecoveryDecision "remote-unverified" no_discovery
            "previous worker ran on another host; process state cannot be verified locally")
          (add_remote acc))
  else decide_local "unverified" "not-found"
         "previous worker disappeared; no owned process group was found; not retried automatically"
         "previous worker disappeared; terminating its verified process group" (r_id r) acc.

Fixpoint scan_all (current : datetime) (acc : scan) (rs : list reservation) : W H scan :=
  match rs with
  | [] => mret acc
  | r :: rs => acc ← scan_one current acc r; scan_all current acc rs
  end.

(** ** Signals *)

Definition unsafe_group (g : process_group) : bool :=
  (pg_pgid g <=? 1) || (pg_pgid g =? current_group).

(** The groups that took the signal, and the warnings, without the text of the
    system's error. *)
Fixpoint signal_each (id : string) (signum : signal) (groups : list process_group)
    : W H (list process_group * list string) :=
  match groups with
  | [] => mret ([], [])
  | g :: groups =>
      if unsafe_group g then
        '(taken, warnings) ← signal_each id signum groups;
        mret (taken, (clip 8 id +:+ ": refused unsafe process group " +:+ str_of_Z (pg_pgid g)) :: warnings)
      else
        sent ← ask (Killpg (pg_pgid g) (Some signum));
        '(taken, warnings) ← signal_each id signum groups;
        mret (match sent with
              | Delivered => (g :: taken, warnings)
              | ProcessLookupError => (taken, warnings)
              | _ => (taken, (clip 8 id +:+ ": cannot signal process group " +:+ str_of_Z (pg_pgid g))
                             :: warnings)
              end)
  end.

Fixpoint _signal_groups (signum : signal) (by_reservation : list (string * list process_group))
    : W H (list (string * list process_group) * list string) :=
  match by_reservation with
  | [] => mret ([], [])
  | (id, groups) :: rest =>
      '(taken, warnings) ← signal_each id signum groups;
      '(signalled, others) ← _signal_groups signum rest;
      mret (if bool_decide (taken = []) then signalled else (id, taken) :: signalled, warnings ++ others)
  end.

(** The groups found right before they are signalled. *)
Fixpoint discover_again (ids : list string) (current : list (string * list process_group))
    (warnings : list string) : W H (list (string * list process_group) * list string) :=
  match ids with
  | [] => mret (current, warnings)
  | id :: ids =>
      discovery ← ask (Discover id);
      if negb (pd_available discovery)
      then discover_again ids current (warnings ++ [clip 8 id +:+
             ": process identity could not be rechecked before signalling"])
      else if bool_decide (pd_groups discovery = []) then discover_again ids current warnings
      else discover_again ids (dict_put id (pd_groups discovery) current) warnings
  end.

Definition _discover_and_signal_groups (ids : list string) (signum : signal)
    : W H (list (string * list process_group) * list string) :=
  '(current, warnings) ← discover_again ids [] [];
  '(signalled, others) ← _signal_groups signum current;
  mret (signalled, warnings ++ others).

(** ** Waiting *)

(** The jobs that still have a group, or of which nothing can be said. *)
Fixpoint still_there (ids : list string) (remaining : list (string * list process_group))
    : W H (list (string * list process_group)) :=
  match ids with
  | [] => mret remaining
  | id :: ids =>
      discovery ← ask (Discover id);
      still_there ids (if negb (pd_available discovery) then dict_put id [] remaining
                       else if bool_decide (pd_groups discovery = []) then remaining
                       else dict_put id (pd_groups discovery) remaining)
  end.

Definition _wait_for_groups (ids : list string) (timeout : timedelta)
    : W H (list (string * list process_group)) :=
  start ← ask Monotonic;
  let deadline := start + timeout in
  remaining ← iter (rounds timeout) (λ _ : (),
    remaining ← still_there ids [];
    if bool_decide (remaining = []) then mret (inr remaining) else
    now ← ask Monotonic;
    if deadline <=? now then mret (inr remaining) else
    _ ← sleep_until deadline; mret (inl ())) ();
  mret remaining.

(** ** The recovery *)

(** [{item.pgid: item}] updated and sorted by group. *)
Definition merge_groups (known killed : list process_group) : list process_group :=
  groups_sorted (foldl (λ m g, <[pg_pgid g := g]> m) (∅ : gmap Z process_group) (known ++ killed)).

Definition merge_signalled (signalled killed : list (string * list process_group))
    : list (string * list process_group) :=
  foldl (λ d '(id, groups), dict_put id (merge_groups (default [] (assoc_get id d)) groups) d)
    signalled killed.

Definition count_terminated (signalled : list (string * list process_group)) (remaining : list string) : Z :=
  sumZ (λ '(id, groups), if bool_decide (id ∈ remaining) then 0 else Z.of_nat (length groups)) signalled.

(** From the recorded decisions on: end the groups, wait, kill, wait again. *)
Definition end_groups (ids : list string) (grace : timedelta)
    : W H (list (string * list process_group) * list (string * list process_group) * list string) :=
  '(signalled, warnings) ← _discover_and_signal_groups ids SIGTERM;
  remaining ← _wait_for_groups ids grace;
  if bool_decide (remaining = []) then mret (signalled, remaining, warnings) else
  '(killed, more) ← _discover_and_signal_groups (fst <$> remaining) SIGKILL;
  remaining ← _wait_for_groups (fst <$> remaining) (Z.min (seconds 1) grace);
  mret (merge_signalled signalled killed, remaining, warnings ++ more).

Definition recover_abandoned_jobs (now : datetime) (grace : timedelta) : W H recovery_summary :=
  if grace <=? 0 then throws (ValueError "worker recovery grace must be positive") else
  l ← store_load;
  candidates ← of_result (_recovery_candidates l a);
  if bool_decide (candidates = []) then mret (RecoverySummary 0 0 0 0 0 0 []) else
  found ← scan_all now (Scan [] [] 0 0 0) candidates;
  terminating ← store_transaction (record_recovery_mutate a now worker_id (sc_decisions found));
  '(signalled, remaining, warnings) ← end_groups terminating grace;
  later ← on_world clock_now;
  _ ← store_transaction (finish_recovery_mutate a later worker_id terminating (fst <$> remaining)
                           (fst <$> signalled));
  mret (RecoverySummary (Z.of_nat (length candidates)) (count_terminated signalled (fst <$> remaining))
          (Z.of_nat (length (sc_decisions found))) (sc_remote found) (sc_legacy found)
          (sc_legacy_active found) (sc_warnings found ++ warnings)).
End Recovery.

(** ** What a trace of a recovery says *)

Definition sends_signal (ev : event) : bool :=
  match ev_call ev with Killpg _ (Some _) | SendSignal _ _ => true | _ => false end.

Definition unsignalling (tr : list event) : Prop := Forall (λ ev, sends_signal ev = false) tr.

Definition group_ids (d : process_discovery) : list Z := pg_pgid <$> pd_groups d.

(** Of the job nothing was left, nothing could be said, or every group was sent the
    signal. *)
Definition seen_empty (id : string) (tr : list event) : Prop :=
  ∃ d, Event (Discover id) d ∈ tr ∧ pd_available d = true ∧ pd_groups d = [].

Definition pursued (current_group : Z) (s : signal) (id : string) (tr : list event) : Prop :=
  ∃ d, Event (Discover id) d ∈ tr ∧
    (pd_available d = true → ∀ g, g ∈ group_ids d → 1 < g → g ≠ current_group → signalled s g tr).

(** A signal goes only to a group that was just found for one of the jobs. *)
Definition aimed (current_group : Z) (ids : list string) (tr : list event) : Prop :=
  ∀ g s r, Event (Killpg g (Some s)) r ∈ tr →
    1 < g ∧ g ≠ current_group ∧
    ∃ id d, id ∈ ids ∧ Event (Discover id) d ∈ tr ∧ pd_available d = true ∧ g ∈ group_ids d.

Lemma seen_empty_mono id tr tr' : tr ⊆ tr' → seen_empty id tr → seen_empty id tr'.
Proof. intros Hs (d & ? & ?). exists d. auto. Qed.

Lemma pursued_mono cg s id tr tr' : tr ⊆ tr' → pursued cg s id tr → pursued cg s id tr'.
Proof.
  intros Hs (d & Hd & Hp). exists d. split; [auto|]. intros Ha g Hg H1 H2.
  eapply signalled_mono; [done|]. by apply Hp.
Qed.

Lemma unsignalling_aimed cg ids tr : unsignalling tr → aimed cg ids tr.
Proof. intros Hu g s r Hin. pose proof (proj1 (Forall_forall _ _) Hu _ Hin) as E. discriminate E. Qed.

Lemma aimed_app cg ids ids' tr tr' :
  aimed cg ids tr → aimed cg ids' tr' → ids' ⊆ ids → aimed cg ids (tr ++ tr').
Proof.
  intros H1 H2 Hs g s r [Hin|Hin]%elem_of_app.
  - destruct (H1 _ _ _ Hin) as (? & ? & id & d & ? & ? & ? & ?). split_and!; [done..|].
    exists id, d. split_and!; [done|set_solver|done..].
  - destruct (H2 _ _ _ Hin) as (? & ? & id & d & ? & ? & ? & ?). split_and!; [done..|].
    exists id, d. split_and!; [auto|set_solver|done..].
Qed.

(** Dicts. *)
Lemma assoc_get_append {A} k (d d' : list (string * A)) :
  assoc_get k (d ++ d') = match assoc_get k d with Some v => Some v | None => assoc_get k d' end.
Proof. induction d as [|[x y] d IH]; [done|]. cbn. by case_bool_decide. Qed.

Lemma assoc_get_update {A} k k' (v : A) d :
  assoc_get k ((λ '(x, y), (x, if bool_decide (x = k') then v else y)) <$> d) =
  (λ y, if bool_decide (k = k') then v else y) <$> assoc_get k d.
Proof.
  induction d as [|[x y] d IH]; [done|]. cbn. destruct (decide (k = x)) as [->|].
  - by rewrite !bool_decide_true by done.
  - by rewrite !(bool_decide_false (k = x)) by done.
Qed.

Lemma assoc_get_put {A} k k' (v : A) d :
  assoc_get k (dict_put k' v d) = if bool_decide (k = k') then Some v else assoc_get k d.
Proof.
  unfold dict_put. destruct (assoc_get k' d) as [old|] eqn:Hold.
  - rewrite assoc_get_update. case_bool_decide as Hk; [subst; by rewrite Hold|]. by destruct (assoc_get k d).
  - rewrite assoc_get_append. cbn. case_bool_decide as Hk; [subst; by rewrite Hold|]. by destruct (assoc_get k d).
Qed.

Lemma assoc_get_elem {A} k (v : A) d : assoc_get k d = Some v → (k, v) ∈ d.
Proof.
  induction d as [|[x y] d IH]; [done|]. cbn. case_bool_decide; [intros [= ->]; subst; by left|right; auto].
Qed.

Lemma elem_of_dict_put {A} k (v : A) d k' v' :
  (k', v') ∈ dict_put k v d → (k', v') = (k, v) ∨ (k', v') ∈ d.
Proof.
  unfold dict_put. destruct (assoc_get k d).
  - intros ([x y] & Heq & Hin)%list_elem_of_fmap. case_bool_decide; simplify_eq; [by left|by right].
  - intros [?| ->%list_elem_of_singleton]%elem_of_app; [by right|by left].
Qed.

Lemma elem_of_keys {A} k (d : list (string * A)) : k ∈ d.*1 ↔ is_Some (assoc_get k d).
Proof.
  split.
  - induction d as [|[x y] d IH]; cbn; [by intros ?%not_elem_of_nil|].
    intros [->|Hin]%elem_of_cons; [by rewrite bool_decide_true|]. case_bool_decide; [done|auto].
  - intros [v Hv%assoc_get_elem]. by apply (list_elem_of_fmap_2 fst) in Hv.
Qed.

Section RecoveryRuns.
Context {H : Type} {Hhost : Host H} {Hclock : Clock H}.
Variables (a : actor) (hostname worker_id : string) (cg : Z).

Lemma unsignalling_app tr tr' : unsignalling tr → unsignalling tr' → unsignalling (tr ++ tr').
Proof. by intros; apply Forall_app. Qed.

Lemma quietly_unsignalling_ask {B} c (f : answer c → W H B) Q :
  on_process c = true → (∀ x, sends_signal (Event c x) = false) →
  (∀ x, quietly (f x) (λ b n, unsignalling (Event c x :: n) → Q b (Event c x :: n))) →
  quietly (ask c ≫= f) (λ b n, unsignalling n → Q b n).
Proof.
  intros Hc Hs Hf. eapply quietly_bind; [by apply (quietly_ask c (λ x n, n = [Event c x]))|].
  intros x ? ->. eapply quietly_mono; [apply Hf|]. auto.
Qed.

Lemma scan_one_run current acc r :
  quietly (H := H) (scan_one hostname worker_id current acc r) (λ _ new, unsignalling new).
Proof.
  assert (Hl : ∀ (t1 t2 t3 t4 id : string) acc, quietly (H := H) (decide_local t1 t2 t3 t4 id acc) (λ _ new, unsignalling new)).
  { intros. eapply quietly_bind; [by apply (quietly_ask (Discover id) (λ x n, n = [Event (Discover id) x]))|].
    intros x ? ->. apply quietly_ret. by apply Forall_singleton. }
  unfold scan_one. repeat (case_match || case_bool_decide); try apply quietly_ret; try apply Hl; constructor.
Qed.

Lemma scan_all_run current acc rs :
  quietly (H := H) (scan_all hostname worker_id current acc rs) (λ _ new, unsignalling new).
Proof.
  revert acc. induction rs as [|r rs IH]; intros acc; cbn; [apply quietly_ret; constructor|].
  eapply quietly_bind; [apply scan_one_run|]. intros acc' n1 H1. eapply quietly_mono; [apply IH|].
  intros acc'' n2 H2. by apply unsignalling_app.
Qed.

(** Sending a signal to the groups of one job. *)
Lemma signal_each_run id sg groups :
  quietly (H := H) (signal_each cg id sg groups) (λ _ new,
    (∀ g s r, Event (Killpg g (Some s)) r ∈ new → 1 < g ∧ g ≠ cg ∧ g ∈ pg_pgid <$> groups) ∧
    (∀ g, g ∈ pg_pgid <$> groups → 1 < g → g ≠ cg → signalled sg g new)).
Proof.
  induction groups as [|g groups IH]; cbn.
  { apply quietly_ret. split; [by intros ? ? ? ?%not_elem_of_nil|by intros ? ?%not_elem_of_nil]. }
  destruct (unsafe_group cg g) eqn:Hu.
  - eapply quietly_bind; [apply IH|]. intros [taken ws] n1 [Hs Hc]. apply quietly_ret. rewrite app_nil_r. split.
    + intros x s r Hin. destruct (Hs x s r Hin) as (? & ? & ?). split_and!; [done..|by right].
    + intros x [->|Hx]%elem_of_cons H1 H2; [|by apply Hc].
      unfold unsafe_group in Hu. apply orb_true_iff in Hu as [?%Z.leb_le|?%Z.eqb_eq]; lia.
  - unfold unsafe_group in Hu. apply orb_false_iff in Hu as [Hu1%Z.leb_gt Hu2%Z.eqb_neq].
    eapply quietly_bind; [by apply (quietly_ask (Killpg (pg_pgid g) (Some sg)) (λ x n, n = [Event (Killpg (pg_pgid g) (Some sg)) x]))|].
    intros sent ? ->. eapply quietly_bind; [apply IH|]. intros [taken ws] n1 [Hs Hc]. apply quietly_ret.
    rewrite app_nil_r. split.
    + intros x s r [[= -> ->]|Hin]%elem_of_cons; [split_and!; [lia|done|by left]|].
      destruct (Hs x s r Hin) as (? & ? & ?). split_and!; [done..|by right].
    + intros x [->|Hx]%elem_of_cons H1 H2; [exists sent; by left|].
      eapply signalled_mono; [|by apply Hc]. set_solver +.
Qed.

Lemma signal_groups_run sg current :
  quietly (H := H) (_signal_groups cg sg current) (λ _ new,
    (∀ g s r, Event (Killpg g (Some s)) r ∈ new →
       1 < g ∧ g ≠ cg ∧ ∃ id groups, (id, groups) ∈ current ∧ g ∈ pg_pgid <$> groups) ∧
    (∀ id groups g, (id, groups) ∈ current → g ∈ pg_pgid <$> groups → 1 < g → g ≠ cg →
       signalled sg g new)).
Proof.
  induction current as [|[id groups] current IH]; cbn.
  { apply quietly_ret. split; [by intros ? ? ? ?%not_elem_of_nil|by intros ? ? ? ?%not_elem_of_nil]. }
  eapply quietly_bind; [apply signal_each_run|]. intros [taken ws] n1 [Hs1 Hc1].
  eapply quietly_bind; [apply IH|]. intros [signalled_ others] n2 [Hs2 Hc2]. apply quietly_ret.
  rewrite app_nil_r. split.
  - intros g s r [Hin|Hin]%elem_of_app.
    + destruct (Hs1 _ _ _ Hin) as (? & ? & ?). split_and!; [done..|]. exists id, groups. split; [by left|done].
    + destruct (Hs2 _ _ _ Hin) as (? & ? & id' & gs' & ? & ?). split_and!; [done..|].
      exists id', gs'. split; [by right|done].
  - intros id' gs' g [[= -> ->]|Hin]%elem_of_cons Hg H1 H2.
    + specialize (Hc1 g Hg H1 H2). in_trace.
    + specialize (Hc2 id' gs' g Hin Hg H1 H2). in_trace.
Qed.

(** What the rediscovery knows of a job, by the last answer for it. *)
Definition rediscovered (id : string) (current : list (string * list process_group)) (tr : list event) : Prop :=
  ∃ d, Event (Discover id) d ∈ tr ∧
    (pd_available d = true → pd_groups d ≠ [] → assoc_get id current = Some (pd_groups d)).

Lemma discover_again_run ids current warnings :
  quietly (H := H) (discover_again ids current warnings) (λ out new,
    unsignalling new ∧
    (∀ id groups, (id, groups) ∈ out.1 → (id, groups) ∈ current ∨
       (id ∈ ids ∧ ∃ d, Event (Discover id) d ∈ new ∧ pd_available d = true ∧ pd_groups d = groups)) ∧
    (∀ id, id ∈ ids → rediscovered id out.1 new) ∧
    (∀ id, id ∉ ids → assoc_get id out.1 = assoc_get id current)).
Proof.
  revert current warnings. induction ids as [|id ids IH]; intros current warnings; cbn.
  { apply quietly_ret. split_and!; [constructor|by left|by intros ? ?%not_elem_of_nil|done]. }
  eapply quietly_bind; [by apply (quietly_ask (Discover id) (λ x n, n = [Event (Discover id) x]))|].
  intros d ? ->. cbn [answer] in d.
  assert (Hstep : ∀ current' warnings',
    (∀ id' gs, (id', gs) ∈ current' → (id', gs) ∈ current ∨ (id' = id ∧ pd_available d = true ∧ gs = pd_groups d)) →
    (∀ id', id' ≠ id → assoc_get id' current' = assoc_get id' current) →
    (pd_available d = true → pd_groups d ≠ [] → assoc_get id current' = Some (pd_groups d)) →
    quietly (H := H) (discover_again ids current' warnings') (λ out n2,
    unsignalling ([Event (Discover id) d] ++ n2) ∧
    (∀ id' groups, (id', groups) ∈ out.1 → (id', groups) ∈ current ∨
       (id' ∈ id :: ids ∧ ∃ d', Event (Discover id') d' ∈ [Event (Discover id) d] ++ n2 ∧ pd_available d' = true ∧ pd_groups d' = groups)) ∧
    (∀ id', id' ∈ id :: ids → rediscovered id' out.1 ([Event (Discover id) d] ++ n2)) ∧
    (∀ id', id' ∉ id :: ids → assoc_get id' out.1 = assoc_get id' current))).
  { intros current' warnings' Hnew Hold Hput. eapply quietly_mono; [apply IH|].
    intros out n2 (Hu & Hs & Hc & Hk). split_and!.
    - by constructor.
    - intros id' gs Hin. destruct (Hs id' gs Hin) as [Hin'|(? & d' & ? & ? & ?)].
      + destruct (Hnew id' gs Hin') as [?|(-> & ? & ->)]; [by left|right]. split; [by left|].
        exists d. split; [by left|done].
      + right. split; [by right|]. exists d'. split; [by right|done].
    - intros id' Hin. destruct (decide (id' ∈ ids)) as [Hi|Hi].
      + destruct (Hc id' Hi) as (d' & ? & ?). exists d'. split; [by right|done].
      + assert (id' = id) as -> by set_solver. exists d. split; [by left|]. by rewrite Hk.
    - intros id' [Hne Hi]%not_elem_of_cons. rewrite Hk by done. by apply Hold. }
  destruct (pd_available d) eqn:Hav; cbn [negb]; [case_bool_decide as Hg|].
  - apply Hstep; [by left|done|done].
  - apply Hstep.
    + intros id' gs [[= -> ->]|?]%elem_of_dict_put; [by right|by left].
    + intros id' Hne. rewrite assoc_get_put. by rewrite bool_decide_false.
    + intros _ _. rewrite assoc_get_put. by rewrite bool_decide_true.
  - apply Hstep; [by left|done|done].
Qed.

Lemma discover_and_signal_run ids sg :
  quietly (H := H) (_discover_and_signal_groups cg ids sg) (λ _ new,
    aimed cg ids new ∧ ∀ id, id ∈ ids → pursued cg sg id new).
Proof.
  eapply quietly_bind; [apply discover_again_run|]. intros [current ws] n1 (Hu & Hs & Hc & _).
  eapply quietly_bind; [apply signal_groups_run|]. intros [signalled_ others] n2 [Ha Hp]. apply quietly_ret.
  rewrite app_nil_r. cbn in *. split.
  - intros g s r [Hin|Hin]%elem_of_app.
    { pose proof (proj1 (Forall_forall _ _) Hu _ Hin) as E. discriminate E. }
    destruct (Ha g s r Hin) as (H1 & H2 & id & groups & Hcur & Hg). split_and!; [done..|].
    destruct (Hs id groups Hcur) as [Hno|(Hid & d & Hd & Hav & Hgs)]; [by apply not_elem_of_nil in Hno|].
    exists id, d. split_and!; [done|set_solver|done|]. unfold group_ids. by rewrite Hgs.
  - intros id Hid. destruct (Hc id Hid) as (d & Hd & Hget). exists d. split; [set_solver|].
    intros Hav g Hg H1 H2. unfold group_ids in Hg.
    assert (Hne : pd_groups d ≠ []) by (intros E; rewrite E in Hg; by apply not_elem_of_nil in Hg).
    specialize (Hp id (pd_groups d) g (assoc_get_elem _ _ _ (Hget Hav Hne)) Hg H1 H2). in_trace.
Qed.

Lemma still_there_run ids remaining :
  quietly (H := H) (still_there ids remaining) (λ out new,
    unsignalling new ∧ (∀ id, id ∈ out.*1 → id ∈ ids ∨ id ∈ remaining.*1) ∧
    (∀ id, id ∈ remaining.*1 → id ∈ out.*1) ∧
    ∀ id, id ∈ ids → id ∈ out.*1 ∨ seen_empty id new).
Proof.
  assert (Hput : ∀ id (gs : list process_group) d k, k ∈ (dict_put id gs d).*1 ↔ k = id ∨ k ∈ d.*1).
  { intros id gs d k. rewrite !elem_of_keys, assoc_get_put. case_bool_decide; naive_solver. }
  revert remaining. induction ids as [|id ids IH]; intros remaining; cbn.
  { apply quietly_ret. split_and!; [constructor|by right|done|by intros ? ?%not_elem_of_nil]. }
  eapply quietly_bind; [by apply (quietly_ask (Discover id) (λ x n, n = [Event (Discover id) x]))|].
  intros d ? ->. cbn [answer] in d. eapply quietly_mono; [apply IH|].
  intros out n2 (Hu & Hk & Hr & Hs). split_and!; [by constructor|..].
  - intros k Hin. destruct (Hk k Hin) as [?|Hin']; [left; by right|].
    destruct (pd_available d); cbn [negb] in Hin'; [case_bool_decide; [by right|]|];
      apply Hput in Hin' as [->|?]; first [by right | left; by left].
  - intros k Hin. apply Hr. destruct (pd_available d); cbn [negb]; [case_bool_decide; [done|]|]; apply Hput; by right.
  - intros k [->|Hin]%elem_of_cons.
    + destruct (pd_available d) eqn:Hav; cbn [negb] in Hr; [case_bool_decide as Hg|].
      * right. exists d. split; [by left|done].
      * left. apply Hr, Hput. by left.
      * left. apply Hr, Hput. by left.
    + destruct (Hs k Hin) as [?|(d' & ? & ?)]; [by left|right]. exists d'. split; [by right|done].
Qed.

Lemma wait_run ids timeout :
  quietly (H := H) (_wait_for_groups ids timeout) (λ out new,
    unsignalling new ∧ (∀ id, id ∈ out.*1 → id ∈ ids) ∧ ∀ id, id ∈ ids → id ∈ out.*1 ∨ seen_empty id new).
Proof.
  apply (quietly_until (λ ev, sends_signal ev = false)
    (λ (out : list (string * list process_group)) n, (∀ id, id ∈ out.*1 → id ∈ ids) ∧
       ∀ id, id ∈ ids → id ∈ out.*1 ∨ seen_empty id n)); [done|..].
  - intros start []. eapply quiet_round_ask; [apply still_there_run|].
    intros out n1 (Hu & Hk & _ & Hs). split; [done|].
    assert (HR : ∀ n2, (∀ id, id ∈ out.*1 → id ∈ ids) ∧ ∀ id, id ∈ ids → id ∈ out.*1 ∨ seen_empty id (n1 ++ n2)).
    { intros n2. split.
      - intros id Hin. destruct (Hk id Hin) as [?|Hn]; [done|by apply not_elem_of_nil in Hn].
      - intros id Hin. destruct (Hs id Hin) as [?|Hn]; [by left|right].
        eapply seen_empty_mono; [|done]. set_solver +. }
    case_bool_decide; [apply quiet_round_ret, HR|]. apply quiet_round_pause; [done..|]. intros t. apply HR.
  - intros out n1 n2 Hu [Hk Hs]. apply quietly_ret. rewrite app_nil_r. split_and!; [done..|].
    intros id Hin. destruct (Hs id Hin) as [?|Hn]; [by left|right]. eapply seen_empty_mono; [|done]. set_solver +.
Qed.

(** Every group is pursued in turn; what is left is named. *)
Lemma end_groups_run ids grace :
  quietly (H := H) (end_groups cg ids grace) (λ out new,
    aimed cg ids new ∧ (∀ id, id ∈ ids → pursued cg SIGTERM id new) ∧
    ∀ id, id ∈ ids →
      seen_empty id new ∨ (id ∈ out.1.2.*1 ∧ pursued cg SIGKILL id new)).
Proof.
  eapply quietly_bind; [apply discover_and_signal_run|]. intros [signalled_ ws] n1 [Ha1 Hp1].
  eapply quietly_bind; [apply wait_run|]. intros remaining n2 (Hu2 & Hk2 & Hs2).
  assert (Ha2 : aimed cg ids (n1 ++ n2)) by (eapply aimed_app; [done|by apply unsignalling_aimed|done]).
  case_bool_decide as Hr.
  { apply quietly_ret. rewrite app_nil_r. split; [done|]. split.
    - intros id Hid. eapply pursued_mono; [|by apply Hp1]. set_solver +.
    - intros id Hid. destruct (Hs2 id Hid) as [Hn|He]; [rewrite Hr in Hn; by apply not_elem_of_nil in Hn|left].
      eapply seen_empty_mono; [|done]. set_solver +. }
  eapply quietly_bind; [apply discover_and_signal_run|]. intros [killed more] n3 [Ha3 Hp3].
  eapply quietly_bind; [apply wait_run|]. intros remaining' n4 (Hu4 & Hk4 & Hs4). apply quietly_ret.
  rewrite app_nil_r. split; [|split].
  - rewrite app_assoc. eapply aimed_app; [done| |by intros k; apply Hk2].
    eapply aimed_app; [done|by apply unsignalling_aimed|done].
  - intros id Hid. eapply pursued_mono; [|by apply Hp1]. set_solver +.
  - intros id Hid. cbn. destruct (Hs2 id Hid) as [Hin|He].
    + destruct (Hs4 id Hin) as [Hin4|He].
      * right. split; [done|]. eapply pursued_mono; [|by apply Hp3]. set_solver +.
      * left. eapply seen_empty_mono; [|done]. set_solver +.
    + left. eapply seen_empty_mono; [|done]. set_solver +.
Qed.
End RecoveryRuns.

Lemma transacted_unsignalling {A} (m : ledger → M (mutation A)) new r : transacted m new r → unsignalling new.
Proof.
  unfold transacted. destruct new as [|[[] x] rest]; try done. destruct x as [l|e].
  2:{ intros [-> _]. by constructor. }
  intros (w & w' & Hm). constructor; [done|]. destruct (m l w) as [[[[[l' b] logs] ch]|e] w1].
  2:{ destruct Hm as [-> _]. constructor. }
  destruct Hm as [_ Hm]. destruct ch; [|destruct Hm as [-> _]; constructor].
  destruct Hm as (c & -> & _). by constructor.
Qed.

(** The calls of a recovery that came to an end in any way. *)
Definition careful (a : actor) (worker_id : string) (cg : Z) (now : datetime)
    (out : res recovery_summary) (new : list event) : Prop :=
  unsignalling new ∨
  ∃ before record rest decisions ids,
    new = before ++ record ++ rest ∧ unsignalling before ∧
    transacted (record_recovery_mutate a now worker_id decisions) record (Ok ids) ∧
    aimed cg ids rest ∧
    (∀ id, id ∈ ids → seen_empty id rest ∨ pursued cg SIGKILL id rest) ∧
    ∀ summary, out = Ok summary → ∃ acting finish later remaining signalled_,
      rest = acting ++ finish ∧
      transacted (finish_recovery_mutate a later worker_id ids remaining signalled_) finish (Ok tt) ∧
      ∀ id, id ∈ ids → id ∈ remaining ∨ seen_empty id acting.

Lemma recover_run {H} {Hhost : Host H} {Hclock : Clock H} a hostname worker_id cg now grace w :
  steady (H := H) w (recover_abandoned_jobs a hostname worker_id cg now grace)
    (careful a worker_id cg now).
Proof.
  unfold recover_abandoned_jobs. case_match.
  { apply steady_result. left. constructor. }
  eapply (steady_bind _ _ _ (λ _ n, unsignalling n)); [apply steady_load; by constructor|by left|].
  intros l n1 H1. eapply (steady_bind _ _ _ (λ _ n, n = [])); [by apply steady_result| |].
  { intros e n ->. left. by rewrite app_nil_r. }
  intros candidates n ->. case_bool_decide; [apply steady_ret; left; by rewrite app_nil_r|].
  eapply steady_bind; [by apply steady_quietly, scan_all_run|by intros e n (? & ? & _)|].
  intros found n2 (? & _ & Hu2).
  assert (H12 : unsignalling (n1 ++ n2)) by (by apply unsignalling_app). cbn [app].
  eapply steady_bind; [by apply steady_transaction; intros; apply forward_record_recovery| |].
  { intros e n Htx. left. rewrite app_assoc. apply unsignalling_app; [done|]. exact (transacted_unsignalling _ _ _ Htx). }
  intros ids n3 Htx.
  eapply steady_bind; [by apply steady_quietly, end_groups_run|by intros e n (? & ? & _)|].
  intros [[sig remaining] ws] n4 (out & [= <-] & Haim & Hterm & Hend).
  assert (Hend' : ∀ n5, ∀ id, id ∈ ids → seen_empty id (n4 ++ n5) ∨ pursued cg SIGKILL id (n4 ++ n5)).
  { intros n5 id Hid. destruct (Hend id Hid) as [He|[_ He]].
    - left. eapply seen_empty_mono; [|done]. set_solver +.
    - right. eapply pursued_mono; [|done]. set_solver +. }
  assert (Haim' : ∀ n5, unsignalling n5 → aimed cg ids (n4 ++ n5)).
  { intros n5 Hu. eapply aimed_app; [done|by apply unsignalling_aimed|done]. }
  assert (Hcareful : ∀ (o : res recovery_summary) n5, unsignalling n5 →
    (∀ summary, o = Ok summary → ∃ t finish, n5 = finish ∧
       transacted (finish_recovery_mutate a t worker_id ids (fst <$> remaining) (fst <$> sig)) finish (Ok tt)) →
    careful a worker_id cg now o (n1 ++ n2 ++ n3 ++ n4 ++ n5)).
  { intros o n5 Hu Ho. right. exists (n1 ++ n2), n3, (n4 ++ n5), (sc_decisions found), ids.
    split_and!; [by rewrite <- !app_assoc|done|done|by apply Haim'|apply Hend'|]. intros summary Hsum.
    destruct (Ho summary Hsum) as (t & finish & -> & Hfin).
    exists n4, finish, t, (fst <$> remaining), (fst <$> sig). split_and!; [done..|].
    intros id Hid. destruct (Hend id Hid) as [He|[Hin _]]; [by right|by left]. }
  assert (Hnow : steady w (on_world clock_now) (λ (x : res datetime) (n : list event), n = [])).
  { by apply steady_world; [apply forward_clock|]. }
  eapply steady_bind; [exact Hnow| |].
  { intros e n ->. by apply (Hcareful (Raise e) [] (Forall_nil_2 _)). }
  intros t n ->. eapply steady_bind; [by apply steady_transaction; intros; apply forward_finish_recovery| |].
  - intros e n5 Hfin. by apply (Hcareful (Raise e) n5 (transacted_unsignalling _ _ _ Hfin)).
  - intros [] n5 Hfin. apply steady_ret. rewrite app_nil_r.
    apply Hcareful; [exact (transacted_unsignalling _ _ _ Hfin)|]. intros _ _. by exists t, n5.
Qed.

(** C17: recovery is careful. Whatever the host answers, it ends, and starts nothing.
    No signal is sent before the ledger took the decision that the jobs are
    uncertain; a signal then goes only to a process group that was just found under
    the marker of such a job, never to group 1 or below or the worker's own. Each of
    these jobs is seen without a group, or every group found for it was killed; and
    when the recovery returns, a job is recorded as terminated or disappeared only
    if it was seen without a group. *)
Theorem recover_abandoned_spec {H} {Hhost : Host H} {Hclock : Clock H} a hostname worker_id cg now grace
    (s : supervisor H) :
  runs (recover_abandoned_jobs a hostname worker_id cg now grace) (λ out s', ∃ new, after s new s' ∧
    spawned new = [] ∧
    (unsignalling new ∨
     ∃ before record rest decisions ids,
       new = before ++ record ++ rest ∧ unsignalling before ∧
       transacted (record_recovery_mutate a now worker_id decisions) record (Ok ids) ∧
       aimed cg ids rest ∧
       (∀ id, id ∈ ids → seen_empty id rest ∨ pursued cg SIGKILL id rest) ∧
       ∀ summary, out = Ok summary → ∃ acting finish later remaining signalled_,
         rest = acting ++ finish ∧
         transacted (finish_recovery_mutate a later worker_id ids remaining signalled_) finish (Ok tt) ∧
         ∀ id, id ∈ ids → id ∈ remaining ∨ seen_empty id acting)) s.
Proof.
  eapply runs_mono; [by apply (recover_run a hostname worker_id cg now grace (k_world s))|].
  intros out s' (new & ? & ? & Hout). by exists new.
Qed.

(** ** An example: a stubborn group of a lost worker *)

Definition lost_job : job := list_to_map
  [("status", JStr JOB_RUNNING); ("claim_token", JStr "t9"); ("worker_lease_id", JStr "old worker");
   ("runner_host", JStr "node")].

Definition lost_ledger : ledger :=
  Ledger [Reservation "r9" None 1000 (Some "ada") [0] MODE_EXCLUSIVE 0 (hours 1) STATUS_ACTIVE None None
            None None None (Some lost_job) (Some []) None (Some [])] None [] None.

Definition before_recovery : supervisor sim :=
  Supervisor (Sim 0 (Ok lost_ledger) [100] true no_files) spec_world [] ∅ [].

Lemma recover_abandoned_witness :
  runs (recover_abandoned_jobs ada "node" "new worker" 50 0 (seconds 1)) (λ out s',
    out = Ok (RecoverySummary 1 1 1 0 0 0 []) ∧ sim_alive (k_host s') = [] ∧
    ∃ new, k_trace s' = new ∧ spawned new = [])
    before_recovery.
Proof.
  assert (Hok : let '(out, s') := recover_abandoned_jobs ada "node" "new worker" 50 0 (seconds 1) before_recovery in
    out = Some (Ok (RecoverySummary 1 1 1 0 0 0 [])) ∧ sim_alive (k_host s') = [])
    by (vm_compute; split; reflexivity).
  pose proof (recover_abandoned_spec ada "node" "new worker" 50 0 (seconds 1) before_recovery) as H.
  unfold runs in *. destruct (recover_abandoned_jobs _ _ _ _ _ _ _) as [[out|] s']; [|by destruct H].
  destruct Hok as [Hok Halive]. injection Hok as ->. destruct H as (new & Ha & Hn & _).
  split; [reflexivity|]. split; [exact Halive|]. exists new. split; [|exact Hn].
  exact (follows_trace _ _ _ (after_follows _ _ _ Ha)).
Defined.
