(* ===== verification/WorkerLoop.v ===== *)
(** * WorkerLoop: the main loop of the worker ([run_worker] of [src/src/bk/worker.py])

    The worker recovers what an earlier one left, then repeats: supervise the
    running jobs, clean up, obey a stop, wait for jobs of older workers, ask the
    launch guard, claim due jobs and start them. When it ends, for whatever reason,
    it stops its children. The loop may run for ever; [fuel] counts its rounds, and a
    run that has used them up is one that still goes on.

    Messages to the terminal are not modelled. *)

From S2P Require Import Prelude PyBase Json Timeparse Models Config Requests Jobs JobRecovery JobSpecs.
From S2P Require Import Gpu Usage LaunchGuard LaunchSafety Process Worker Launch RecoverJobs.

Definition JOB_SPEC_CLEANUP_INTERVAL : timedelta := seconds (5 * 60).

(** The arguments of [run_worker], and what it takes from the configuration. *)
Record worker_setup := WorkerSetup {
  ws_config : config;
  ws_launch : launch_setup;
  ws_getuid : Z;
  ws_pid : Z;
  ws_group : Z;
  ws_hostname : string;
  ws_once : bool;
  ws_poll : timedelta;
  ws_parallel : Z;
  ws_live_guard : bool;
  ws_claim_timeout : timedelta;
  ws_recovery_grace : timedelta;
}.

Definition ws_actor (u : worker_setup) : actor := ln_actor (ws_launch u).
Definition ws_grace (u : worker_setup) : timedelta := ln_grace (ws_launch u).

(** The launch of one reservation with the devices the guard found for it. *)
Definition launch_of (u : worker_setup) (devices : list (string * list string)) (r : reservation)
    : launch_setup :=
  let l := ws_launch u in
  LaunchSetup (ln_actor l) (ln_log_root l) (ln_log_dir l) (ln_environ l) (ln_job_log_max_mb l)
    (ln_grace l) (assoc_get (r_id r) devices) (ws_live_guard u).

Section Loop.
Context {H : Type} `{!Host H} `{!OsErrors}.
(** Which errors are [DaemonPolicyError], a subclass of [BookingError]. *)
Variable is_policy_error : exn → bool.
Variable container_uid_allowed : string → Z → bool.
Variables (u : worker_setup) (worker_id : string).

Definition reconcile (at_ : datetime) : W H unit := _reconcile_running (ws_actor u) (ws_grace u) at_.

Definition recover (now : datetime) : W H recovery_summary :=
  recover_abandoned_jobs (ws_actor u) (ws_hostname u) worker_id (ws_group u) now (ws_recovery_grace u).

(** [except DaemonPolicyError: raise; except (BookingError, OSError, ValueError)] *)
Definition best_effort (m : W H unit) : W H unit :=
  r ← catch m;
  match r with
  | Ok _ => mret tt
  | Raise e => if is_policy_error e then throws e else if handled e then mret tt else throws e
  end.

Definition _cleanup_job_specs_best_effort (now : datetime) : W H unit :=
  best_effort (r ← ask (CleanSpecs now); of_result r).

Definition _cleanup_job_logs_best_effort (now : datetime) : W H unit :=
  best_effort (l ← store_load; r ← ask (CleanLogs l now); of_result r).

Definition clean_up (now : datetime) : W H unit :=
  _ ← _cleanup_job_specs_best_effort now; _cleanup_job_logs_best_effort now.

(** [counts[key] = f counts[key]] *)
Definition set_count (key : string) (f : Z → Z) : W H unit := λ '(Supervisor h w running counts trace),
  (Some (Ok tt), Supervisor h w running (<[key := f (default 0 (counts !! key))]> counts) trace).

Definition get_counts : W H (gmap string Z) := λ s, (Some (Ok (k_counts s)), s).

(** The ledger is read, the telemetry taken when a job is due, the decisions are
    recorded. *)
Definition launch_guard (now : datetime)
    : W H (list string * Z * list string * list (string * list string)) :=
  l ← store_load;
  if bool_decide (_due_pending_jobs l (ws_actor u) now = []) then mret ([], 0, [], []) else
  r ← ask Snapshot;
  devices ← of_result r;
  store_transaction (_launch_guard_eligibility container_uid_allowed (ws_config u) l (ws_actor u) now devices).

Definition claim_due (now : datetime) (limit : Z) (eligible : option (list string))
    : W H (list reservation) :=
  if limit <=? 0 then mret [] else
  store_transaction (claim_mutate (ws_actor u) now
    (ClaimRequest worker_id worker_id (ws_hostname u) (ws_pid u) (ws_claim_timeout u) limit
       (list_to_set <$> eligible))).

Definition _stored_job_status (id : string) : W H (option string) :=
  l ← store_load;
  mret (r ← find_first id (l_reservations l); j ← r_job r; Some (default "None" (job_status j))).

(** One claimed job: it runs and is supervised, or its end is counted. *)
Definition start_one (devices : list (string * list string)) (r : reservation) : W H unit :=
  started ← _start_claimed_job (launch_of u devices r) r;
  match started with
  | Some it => _ ← add_item it; count "started" 1
  | None =>
      status ← _stored_job_status (r_id r);
      count (if bool_decide (status = Some JOB_CANCELLED) then "cancelled" else "failed") 1
  end.

Definition claim_and_start (now : datetime) : W H (list reservation) :=
  running ← get_running;
  let capacity := Z.max 0 (ws_parallel u - Z.of_nat (length running)) in
  '(eligible, devices) ← (
    if ws_live_guard u then
      '(eligible, waiting, _, devices) ← launch_guard now;
      _ ← set_count "waiting" (λ _, waiting);
      mret (Some eligible, devices)
    else mret (None, []));
  claimed ← claim_due now capacity eligible;
  _ ← count "claimed" (Z.of_nat (length claimed));
  _ ← each (start_one devices) claimed;
  mret claimed.

(** The rest of a round: claims and starts, unless older workers may still be at
    work. [inl true] is a [continue] without a pause. *)
Definition work (now : datetime) (legacy_blocked : Z) : W H ((bool * Z) + unit) :=
  l ← store_load;
  current_legacy ← of_result (active_legacy_job_count l (ws_actor u) now);
  if negb (current_legacy =? 0) then
    _ ← set_count "waiting" (Z.max current_legacy);
    running ← get_running;
    if ws_once u && bool_decide (running = []) then mret (inr ()) else
    _ ← ask (WaitForStop (ws_poll u));
    mret (inl (true, current_legacy))
  else
    _ ← set_count "waiting" (λ _, 0);
    blocked ← (
      if legacy_blocked =? 0 then mret 0 else
      followup ← recover now;
      _ ← count "recovered_uncertain" (rs_uncertain_jobs followup);
      _ ← count "terminated_groups" (rs_terminated_groups followup);
      mret (rs_legacy_active_jobs followup));
    if negb (blocked =? 0) then mret (inl (true, blocked)) else
    claimed ← claim_and_start now;
    running ← get_running;
    if ws_once u && bool_decide (running = []) && bool_decide (claimed = []) then mret (inr ())
    else mret (inl (false, blocked)).

(** [stop_event.wait(min(poll, 0.2) if once and running else poll)] *)
Definition pause_round : W H unit :=
  running ← get_running;
  ask (WaitForStop (if ws_once u && negb (bool_decide (running = []))
                    then Z.min (ws_poll u) 200000 else ws_poll u)).

(** One round; its variables are the time of the next clean-up and the number of
    jobs of older workers. *)
Definition round (vars : Z * Z) : W H ((Z * Z) + unit) :=
  let '(next_cleanup, legacy_blocked) := vars in
  now ← on_world utc_now;
  _ ← reconcile now;
  monotonic_now ← ask Monotonic;
  next_cleanup ← (
    if next_cleanup <=? monotonic_now
    then _ ← clean_up now; mret (monotonic_now + JOB_SPEC_CLEANUP_INTERVAL)
    else mret next_cleanup);
  stop ← ask StopRequested;
  if (stop : bool) then
    _ ← _stop_running_jobs now;
    again ← on_world utc_now;
    _ ← reconcile again;
    running ← get_running;
    if bool_decide (running = []) then mret (inr ()) else
    _ ← pause_round; mret (inl (next_cleanup, legacy_blocked))
  else
    next ← work now legacy_blocked;
    match next with
    | inr _ => mret (inr ())
    | inl (true, legacy) => mret (inl (next_cleanup, legacy))
    | inl (false, legacy) => _ ← pause_round; mret (inl (next_cleanup, legacy))
    end.

Definition main_loop (fuel : nat) : W H unit :=
  r ← ask InstallHandlers;
  _ ← of_result r;
  now ← on_world utc_now;
  recovery ← recover now;
  _ ← set_count "recovered_uncertain" (λ _, rs_uncertain_jobs recovery);
  _ ← set_count "terminated_groups" (λ _, rs_terminated_groups recovery);
  iter fuel round (0, rs_legacy_active_jobs recovery).

(** The [finally] blocks. *)
Definition wind_down (failure : option exn) : W H unit :=
  let policy_failed := match failure with Some e => is_policy_error e | None => false end in
  running ← get_running;
  _ ← (if bool_decide (running = []) then mret tt
       else if policy_failed then _shutdown_running_jobs_without_ledger (ws_grace u)
       else _shutdown_running_jobs reconcile (ws_grace u));
  if policy_failed then mret tt else
  cleaned ← catch (now ← on_world utc_now;
                   _ ← _cleanup_job_specs_best_effort now;
                   now ← on_world utc_now;
                   _cleanup_job_logs_best_effort now);
  match cleaned with
  | Ok _ => mret tt
  | Raise e => if is_policy_error e && bool_decide (is_Some failure) then mret tt else throws e
  end.

Definition close_down (result : res unit) : W H (gmap string Z) :=
  ended ← catch (wind_down (match result with Ok _ => None | Raise e => Some e end));
  _ ← ask RestoreHandlers;
  _ ← ask ReleaseLease;
  _ ← of_result ended;
  _ ← of_result result;
  get_counts.

Definition with_cleanup (fuel : nat) : W H (gmap string Z) :=
  result ← catch (main_loop fuel); close_down result.
End Loop.

(** The counters of the result. *)
Definition run_worker {H} `{!Host H} `{!OsErrors} (is_policy_error : exn → bool)
    (container_uid_allowed : string → Z → bool) (u : worker_setup) (fuel : nat) : W H (gmap string Z) :=
  if negb (a_uid (ws_actor u) =? ws_getuid u)
  then throws (BookingError "worker actor must match the current process UID")
  else if ws_poll u <? 100000 then throws (ValueError "worker poll interval must be >= 0.1 seconds")
  else if ws_parallel u <? 1 then throws (ValueError "worker max parallel jobs must be >= 1")
  else
    _ ← store_load;
    worker_id ← on_world uuid4;
    r ← ask AcquireLease;
    _ ← of_result r;
    with_cleanup is_policy_error container_uid_allowed u worker_id fuel.

(** ** No child is lost *)

Definition job_of (c : command) : option string := cmd_env c !! "BK_RESERVATION_ID".

(** How the worker may let go of a process that it started with [c]: it killed the
    group or saw it end; or the log thread could not be started; or it started the
    same job again, which takes the entry of the first process. *)
Definition let_go (c : command) (pid : Z) (tr : list event) : Prop :=
  signalled SIGKILL pid tr ∨ ended pid tr ∨
  (∃ pump e, Event (LogStart pump pid) (Raise e) ∈ tr ∧ handled e = false) ∨
  (∃ c' pid', Event (Popen c') (Ok pid') ∈ tr ∧ job_of c' = job_of c).

(** Every process of the trace was let go of after its start, or is supervised. *)
Definition tracked {H} (s : supervisor H) : Prop :=
  supervised s ∧ ∀ before c pid rest, k_trace s = before ++ Event (Popen c) (Ok pid) :: rest →
    (∃ it, it ∈ k_running s ∧ it_pid it = pid ∧ job_of c = Some (it_id it)) ∨ let_go c pid rest.

(** Every process of the trace was let go of. *)
Definition settled {H} (s : supervisor H) : Prop :=
  ∀ before c pid rest, k_trace s = before ++ Event (Popen c) (Ok pid) :: rest → let_go c pid rest.

Lemma let_go_mono c pid tr tr' : tr ⊆ tr' → let_go c pid tr → let_go c pid tr'.
Proof.
  intros Hs [?|[?|[(pump & e & ? & ?)|(c' & p' & ? & ?)]]].
  - left. by eapply signalled_mono.
  - right; left. by eapply ended_mono.
  - right; right; left. exists pump, e. auto.
  - right; right; right. exists c', p'. auto.
Qed.

Lemma spawned_elem c pid tr : Event (Popen c) (Ok pid) ∈ tr → pid ∈ spawned tr.
Proof. intros Hin. unfold spawned. apply list_elem_of_omap. by exists (Event (Popen c) (Ok pid)). Qed.

(** A start in a longer trace lies in one of its two parts. *)
Lemma split_event (tr new before rest : list event) ev :
  tr ++ new = before ++ ev :: rest →
  (∃ rest', tr = before ++ ev :: rest' ∧ rest = rest' ++ new) ∨
  (∃ before', before = tr ++ before' ∧ new = before' ++ ev :: rest).
Proof.
  revert before. induction tr as [|x tr IH]; intros before; cbn; [intros ->; right; by exists before|].
  destruct before as [|y before]; cbn; [intros [= -> <-]; left; by exists tr|].
  intros [= <- Heq]. destruct (IH before Heq) as [(rest' & -> & ->)|(before' & -> & ->)];
    [left; by exists rest'|right; by exists before'].
Qed.

Lemma split_old (tr new before rest : list event) c pid :
  spawned new = [] → tr ++ new = before ++ Event (Popen c) (Ok pid) :: rest →
  ∃ rest', tr = before ++ Event (Popen c) (Ok pid) :: rest' ∧ rest = rest' ++ new.
Proof.
  intros Hn [?|(before' & -> & ->)]%split_event; [done|]. exfalso.
  assert (Hin : pid ∈ spawned (before' ++ Event (Popen c) (Ok pid) :: rest))
    by (apply (spawned_elem c), elem_of_app; right; by left).
  rewrite Hn in Hin. by apply not_elem_of_nil in Hin.
Qed.

Section Loops.
Context {H : Type} {Hhost : Host H} {Hclock : Clock H} `{!OsErrors}.
Implicit Types s : supervisor H.

(** A later state in which [P] holds. *)
Definition onward (s : supervisor H) (P : Prop) s' : Prop := P ∧ k_trace s `prefix_of` k_trace s'.

(** [m] ends and keeps track of the children. *)
Definition keeps {A} (m : W H A) : Prop := ∀ s, tracked s → runs m (λ _ s', onward s (tracked s') s') s.

(** After a step whose result says more about the state. *)
Lemma keeps_after {A B} (m : W H A) (f : A → W H B) (P : A → supervisor H → Prop) :
  (∀ s, tracked s → runs m (λ r s', onward s (match r with Ok a => P a s' | Raise _ => tracked s' end) s') s) →
  (∀ a s, P a s → runs (f a) (λ _ s', onward s (tracked s') s') s) → keeps (m ≫= f).
Proof.
  intros Hm Hf s Hs. apply runs_bind. eapply runs_mono; [by apply Hm|]. intros [a|e] s1 [H1 Hp]; [|done].
  eapply runs_mono; [by apply Hf|]. intros r s2 [H2 Hp2]. split; [done|by etrans].
Qed.

Lemma keeps_bind {A B} (m : W H A) (f : A → W H B) : keeps m → (∀ a, keeps (f a)) → keeps (m ≫= f).
Proof.
  intros Hm Hf. apply (keeps_after _ _ (λ _ s, tracked s)); [|intros a s; by apply Hf].
  intros s Hs. eapply runs_mono; [by apply Hm|]. by intros [].
Qed.

Lemma keeps_still {A} (m : W H A) :
  (∀ s, ∃ r, (m s).1 = Some r) →
  (∀ s, k_running (m s).2 = k_running s ∧ k_trace (m s).2 = k_trace s) → keeps m.
Proof.
  intros Hr Hm s [[Hd Hok] Hall]. unfold runs. destruct (Hr s) as [r Er]. destruct (Hm s) as [Erun Etr].
  destruct (m s) as [o s']. cbn in *. subst o. split; [split; [split|]|]; rewrite ?Etr, ?Erun; done.
Qed.

Lemma keeps_ret {A} (a : A) : keeps (mret a).
Proof. apply keeps_still; [by eexists|done]. Qed.

Lemma keeps_result {A} (r : res A) : keeps (of_result r).
Proof. apply keeps_still; [by eexists|done]. Qed.

Lemma keeps_get : keeps get_running.
Proof. apply keeps_still; [by eexists|done]. Qed.

Lemma keeps_set_count key f : keeps (set_count key f).
Proof. apply keeps_still; intros []; [by eexists|done]. Qed.

Lemma keeps_count key n : keeps (count key n).
Proof. apply keeps_still; intros []; [by eexists|done]. Qed.

Lemma keeps_catch {A} (m : W H A) : keeps m → keeps (catch m).
Proof. intros Hm s Hs. by apply runs_catch, Hm. Qed.

Lemma keeps_each {A} (f : A → W H unit) l : (∀ a, keeps (f a)) → keeps (each f l).
Proof. intros Hf. induction l as [|a l IH]; cbn; [apply keeps_ret|]. by apply keeps_bind. Qed.

Lemma tracked_evolves s new s' : tracked s → evolves s new s' → onward s (tracked s') s'.
Proof.
  intros [Hs Hall] He. split; [|rewrite (follows_trace _ _ _ He); by apply prefix_app_r]. split; [by apply (ev_supervised _ _ _ He)|]. intros before c pid rest.
  rewrite (follows_trace _ _ _ He). intros (rest' & Htr & ->)%(split_old _ _ _ _ _ _ (ev_spawned _ _ _ He)).
  destruct (Hall _ _ _ _ Htr) as [(it & Hin & Hp & Hj)|Hl].
  - destruct (ev_kept _ _ _ He it Hs Hin) as [(it' & Hin' & Hc)|Hend].
    + left. exists it'. split; [done|]. by rewrite (core_pid _ _ Hc), (core_id _ _ Hc).
    + right; right; left. subst pid. in_trace.
  - right. eapply let_go_mono; [|done]. set_solver +.
Qed.

Lemma keeps_steady {A} (m : W H A) P : (∀ w, steady w m P) → keeps m.
Proof.
  intros Hm s Hs. eapply runs_mono; [by apply (Hm (k_world s))|].
  intros r s' (new & Ha & Hn & _). eapply tracked_evolves; [done|]. by apply after_evolves.
Qed.

Lemma keeps_ask c : (∀ a, spawned [Event c a] = []) → keeps (ask c).
Proof. intros Hc. apply (keeps_steady _ (λ _ _, True)). intros w. by apply steady_ask. Qed.

Lemma keeps_world {A} (m : M A) : forward m → keeps (on_world m).
Proof. intros Hf. apply (keeps_steady _ (λ _ _, True)). intros w. by apply steady_world. Qed.

Lemma keeps_load : keeps store_load.
Proof. apply (keeps_steady _ (λ _ _, True)). intros w. by apply steady_load. Qed.

Lemma keeps_transaction {A} (m : ledger → M (mutation A)) : (∀ l, forward (m l)) → keeps (store_transaction m).
Proof. intros Hf. eapply keeps_steady. intros w. by apply steady_transaction. Qed.

End Loops.

Definition spawn_of (ev : event) : option (command * Z) :=
  let '(Event c a) := ev in
  match c as c return answer c → option (command * Z) with
  | Popen cmd => λ r, match r with Ok pid => Some (cmd, pid) | Raise _ => None end
  | _ => λ _, None
  end a.

Lemma only_start before c pid rest before' c' pid' rest' :
  spawned before = [] → spawned rest = [] →
  before ++ Event (Popen c) (Ok pid) :: rest = before' ++ Event (Popen c') (Ok pid') :: rest' →
  c' = c ∧ pid' = pid ∧ rest' = rest.
Proof.
  intros Hb Hr [(x & -> & _)|(x & -> & Heq)]%split_event.
  { assert (Hin : pid' ∈ spawned (before' ++ Event (Popen c') (Ok pid') :: x))
      by (apply (spawned_elem c'), elem_of_app; right; by left).
    rewrite Hb in Hin. by apply not_elem_of_nil in Hin. }
  destruct x as [|ev x]; cbn in Heq.
  - pose proof (f_equal (λ l, head l ≫= spawn_of) Heq) as He. pose proof (f_equal tail Heq) as Ht.
    cbn in He, Ht. by simplify_eq.
  - pose proof (f_equal tail Heq) as Ht. cbn in Ht. subst rest.
    assert (Hin : pid' ∈ spawned (x ++ Event (Popen c') (Ok pid') :: rest'))
      by (apply (spawned_elem c'), elem_of_app; right; by left).
    rewrite Hr in Hin. by apply not_elem_of_nil in Hin.
Qed.

Section Starts.
Context {H : Type} {Hhost : Host H} {Hclock : Clock H} `{!OsErrors}.
Implicit Types s : supervisor H.

Lemma launched_job u r path devices argv cwd :
  job_of (Command argv cwd (launch_environment u r path devices)) = Some (r_id r).
Proof.
  unfold job_of, launch_environment. cbn. destruct (r_expected_memory_mb r);
    by repeat first [rewrite lookup_insert_eq|rewrite lookup_insert_ne by done].
Qed.

(** [it] was started and is not in [running] yet. *)
Definition ready (it : running_item) s : Prop :=
  supervised s ∧ it_reason it = None ∧ it_requested_at it = None ∧
  ∀ before c pid rest, k_trace s = before ++ Event (Popen c) (Ok pid) :: rest →
    let_go c pid rest ∨ (it_pid it = pid ∧ job_of c = Some (it_id it)) ∨
    ((∃ it0, it0 ∈ k_running s ∧ it_pid it0 = pid ∧ job_of c = Some (it_id it0)) ∧
     ∃ c' pid', Event (Popen c') (Ok pid') ∈ rest ∧ job_of c' = Some (it_id it)).

Lemma start_ready u r s :
  tracked s →
  runs (_start_claimed_job u r) (λ out s',
    onward s (match out with Ok (Some it) => ready it s' | _ => tracked s' end) s') s.
Proof.
  intros [Hs Hall]. eapply runs_mono; [apply start_claimed_job_run|]. intros out s' (new & Ha & Hout).
  pose proof (follows_trace _ _ _ Ha) as Htr.
  split; [|rewrite Htr; by apply prefix_app_r].
  assert (Hs' : supervised s').
  { destruct Hs as [Hd Hok]. split; rewrite (after_running _ _ _ Ha); [done|].
    eapply Forall_impl; [done|]. intros it. apply item_ok_mono. by eapply follows_subseteq, Ha. }
  destruct Hout as [[Hn Hno]|Hst].
  { assert (Ht : tracked s') by (apply (tracked_evolves s new s' (conj Hs Hall)); by apply after_evolves).
    by destruct out as [[it|]|e]; [destruct (Hno it)|..]. }
  destruct Hst as (pid & pump & c & before & rest & l & view & argv & cwd & path & devices
                   & -> & Hb & Hr & _ & _ & _ & Hc & _ & _ & Hfate).
  assert (Hjob : job_of c = Some (r_id r)) by (rewrite Hc; apply launched_job).
  assert (Hold : ∀ b0 c0 p0 r0, k_trace s' = b0 ++ Event (Popen c0) (Ok p0) :: r0 →
    let_go c0 p0 r0 ∨ (c0 = c ∧ p0 = pid ∧ r0 = rest) ∨
    ((∃ it0, it0 ∈ k_running s' ∧ it_pid it0 = p0 ∧ job_of c0 = Some (it_id it0)) ∧
     Event (Popen c) (Ok pid) ∈ r0)).
  { intros b0 c0 p0 r0. rewrite Htr. intros [(r1 & Hs1 & ->)|(b1 & -> & Hs1)]%split_event.
    - destruct (Hall _ _ _ _ Hs1) as [(it0 & Hin & ? & ?)|Hl].
      + right; right. split; [exists it0; by rewrite (after_running _ _ _ Ha)|]. set_solver.
      + left. eapply let_go_mono; [|done]. set_solver +.
    - apply only_start in Hs1 as (-> & -> & ->); [auto|done..]. }
  assert (Hstay : (let_go c pid rest) → tracked s').
  { intros Hgo. split; [done|]. intros b0 c0 p0 r0 Hb0.
    destruct (Hold b0 c0 p0 r0 Hb0) as [?|[(-> & -> & ->)|[? _]]]; [by right|by right|by left]. }
  assert (Hlet : stopped pid rest ∨ (∃ e, out = Raise e ∧ handled e = false ∧ Event (LogStart pump pid) (Raise e) ∈ rest) →
    let_go c pid rest).
  { intros [[_ [?|?]]|(e & _ & ? & ?)]; [by left|by right; left|right; right; left]. by exists pump, e. }
  destruct out as [[it|]|e]; [|by apply Hstay, Hlet..].
  destruct Hfate as [-> _]. split_and!; [done..|]. intros b0 c0 p0 r0 Hb0.
  destruct (Hold b0 c0 p0 r0 Hb0) as [?|[(-> & -> & ->)|[? ?]]]; [by left|right; by left|right; right].
  split; [done|]. by exists c, pid.
Qed.

Lemma add_item_tracked it s : ready it s → tracked (add_item it s).2.
Proof.
  destruct s as [h w running counts trace]. intros ([Hd Hok] & Hre & Hrq & Hall). cbn in *.
  assert (Hit : item_ok trace it) by (split; [by rewrite Hre, Hrq|by rewrite Hre]).
  fold (replace_item it running).
  set (running' := if bool_decide (it_id it ∈ it_id <$> running) then replace_item it running else running ++ [it]).
  assert (Hin : ∀ x, x ∈ running' ↔ x = it ∨ (x ∈ running ∧ it_id x ≠ it_id it)).
  { intros x. unfold running'. case_bool_decide as Hmem.
    - apply list_elem_of_fmap in Hmem as (old & Hid & Hold). by eapply elem_of_replace.
    - rewrite elem_of_app, list_elem_of_singleton. split; [intros [Hx| ->]; [right|by left]|naive_solver].
      split; [done|]. intros Heq. apply Hmem. rewrite <- Heq. by apply list_elem_of_fmap_2. }
  change (tracked (Supervisor h w running' counts trace)).
  split; [split|]; cbn [k_running k_trace].
  - unfold running'. case_bool_decide as Hmem; [by rewrite replace_ids|].
    rewrite fmap_app. apply NoDup_app. split_and!; [done| |apply NoDup_singleton].
    intros x Hx Hx'%list_elem_of_singleton. by subst.
  - apply Forall_forall. intros x [-> |[Hx _]]%Hin; [done|]. by apply (proj1 (Forall_forall _ _) Hok).
  - intros before c pid rest Htr. destruct (Hall _ _ _ _ Htr) as [?|[[? ?]|[Hit0 Hagain]]].
    + by right.
    + left. exists it. split; [apply Hin; by left|done].
    + destruct Hit0 as (it0 & Hin0 & Hp & Hj). destruct Hagain as (c' & p' & Hc' & Hj').
      destruct (decide (it_id it0 = it_id it)) as [He|He].
      * right; right; right; right. exists c', p'. split; [done|congruence].
      * left. exists it0. split; [apply Hin; by right|done].
Qed.
End Starts.

(** ** A round keeps track *)

Definition is_stop_query (ev : event) : bool := match ev_call ev with StopRequested => true | _ => false end.

(** How many rounds looked for a request to stop. *)
Definition rounds_begun (tr : list event) : nat := length (filter is_stop_query tr).

(** The common steps of code that keeps track. *)
Ltac keeps_step :=
  first [ apply keeps_ret | apply keeps_result | apply keeps_get | apply keeps_load
        | apply keeps_count | apply keeps_set_count
        | match goal with |- keeps (ask ?c) => exact (keeps_ask c (λ _, eq_refl)) end
        | match goal with |- keeps (store_transaction _) => apply keeps_transaction end
        | apply keeps_world, forward_utc_now | apply keeps_catch | apply keeps_bind
        | match goal with
          | |- ∀ _, _ => intros ?
          | |- keeps (if ?b then _ else _) => destruct b
          | |- keeps (match ?x with _ => _ end) => destruct x
          end ].

Section Rounds.
Context {H : Type} {Hhost : Host H} {Hclock : Clock H} `{!OsErrors}.
Variable is_policy_error : exn → bool.
Variable container_uid_allowed : string → Z → bool.
Variables (u : worker_setup) (worker_id : string).
Implicit Types s : supervisor H.

Lemma keeps_reconcile at_ : keeps (H := H) (reconcile u at_).
Proof.
  intros s Hs. eapply runs_mono; [apply reconcile_running_run, Hs|].
  intros r s' (new & He & _). by eapply tracked_evolves.
Qed.

Lemma keeps_stop now : keeps (H := H) (_stop_running_jobs now).
Proof.
  intros s Hs. eapply runs_mono; [apply stop_running_run, Hs|].
  intros r s' (_ & new & He & _). by eapply tracked_evolves.
Qed.

Lemma keeps_recover now : keeps (H := H) (recover u worker_id now).
Proof. eapply keeps_steady. intros w. apply recover_run. Qed.

Lemma add_item_run it s (Q : res unit → supervisor H → Prop) :
  k_trace (add_item it s).2 = k_trace s → Q (Ok tt) (add_item it s).2 → runs (add_item it) Q s.
Proof. by destruct s. Qed.

Lemma keeps_start_one devices r : keeps (H := H) (start_one u devices r).
Proof.
  apply (keeps_after _ _ (λ o s, match o with Some it => ready it s | None => tracked s end)).
  - intros s Hs. eapply runs_mono; [by apply start_ready|]. by intros [[it|]|e].
  - intros [it|] s Hs.
    + apply runs_bind, add_item_run; [by destruct s|].
      assert (Ht : tracked (add_item it s).2) by (by apply add_item_tracked).
      eapply runs_mono; [by apply keeps_count|]. intros x s' [? Hp]. split; [done|].
      etrans; [|exact Hp]. by destruct s.
    + assert (Hk : keeps (H := H) (status ← _stored_job_status (r_id r);
        count (if bool_decide (status = Some JOB_CANCELLED) then "cancelled" else "failed") 1)).
      { unfold _stored_job_status. repeat keeps_step. }
      by apply Hk.
Qed.

(** Code that starts nothing and touches none of the running jobs. *)
Definition idle {A} (m : W H A) : Prop := ∀ w, steady w m (λ _ _, True).

Lemma idle_bind {A B} (m : W H A) (f : A → W H B) : idle m → (∀ a, idle (f a)) → idle (m ≫= f).
Proof. intros Hm Hf w. eapply steady_bind; [apply Hm|done|]. intros a n _. apply Hf. Qed.

Lemma idle_catch {A} (m : W H A) : idle m → idle (catch m).
Proof. intros Hm w. eapply steady_mono; [apply steady_catch, Hm|done]. Qed.

Lemma idle_result {A} (r : res A) : idle (of_result r).
Proof. intros w. by apply steady_result. Qed.

Lemma idle_ret {A} (a : A) : idle (mret a).
Proof. intros w. by apply steady_ret. Qed.

Lemma idle_ask c : (∀ a, spawned [Event c a] = []) → idle (ask c).
Proof. intros Hc w. by apply steady_ask. Qed.

Lemma idle_best_effort m : idle m → idle (best_effort is_policy_error m).
Proof.
  intros Hm. apply idle_bind; [by apply idle_catch|]. intros [a|e]; [apply idle_ret|].
  repeat case_match; first [apply idle_ret|apply idle_result].
Qed.

Lemma idle_clean_specs now : idle (_cleanup_job_specs_best_effort is_policy_error now).
Proof.
  apply idle_best_effort, idle_bind; [by apply (idle_ask (CleanSpecs now))|]. intros r. apply idle_result.
Qed.

Lemma idle_clean_logs now : idle (_cleanup_job_logs_best_effort is_policy_error now).
Proof.
  apply idle_best_effort, idle_bind; [intros w; by apply steady_load|]. intros l.
  apply idle_bind; [by apply (idle_ask (CleanLogs l now))|]. intros r. apply idle_result.
Qed.

Lemma idle_utc_now : idle (on_world utc_now).
Proof. intros w. by apply steady_world; [apply forward_utc_now|]. Qed.

Lemma keeps_idle {A} (m : W H A) : idle m → keeps m.
Proof. intros Hm. eapply keeps_steady, Hm. Qed.

Lemma keeps_launch_guard now : keeps (H := H) (launch_guard container_uid_allowed u now).
Proof.
  unfold launch_guard. repeat first [apply forward_launch_guard | keeps_step].
Qed.

Lemma keeps_claim_due now limit eligible_ : keeps (H := H) (claim_due u worker_id now limit eligible_).
Proof. unfold claim_due. case_match; [apply keeps_ret|]. apply keeps_transaction. intros l. apply forward_claim. Qed.

Lemma keeps_claim_and_start now : keeps (H := H) (claim_and_start container_uid_allowed u worker_id now).
Proof.
  unfold claim_and_start.
  repeat first [ apply keeps_launch_guard | apply keeps_claim_due | apply keeps_each, keeps_start_one | keeps_step ].
Qed.

Lemma keeps_work now blocked : keeps (H := H) (work container_uid_allowed u worker_id now blocked).
Proof.
  unfold work. repeat first [ apply keeps_recover | apply keeps_claim_and_start | keeps_step ].
Qed.

Lemma keeps_pause : keeps (H := H) (pause_round u).
Proof. unfold pause_round. repeat keeps_step. Qed.

Lemma rounds_begun_mono tr tr' : tr `prefix_of` tr' → (rounds_begun tr ≤ rounds_begun tr')%nat.
Proof. intros [new ->]. unfold rounds_begun. rewrite filter_app, length_app. lia. Qed.

(** [m] keeps track, and when it returns it has looked for a request to stop. *)
Definition counts {A} (m : W H A) : Prop := ∀ s, tracked s →
  runs m (λ r s', onward s (tracked s') s' ∧
    match r with Ok _ => (rounds_begun (k_trace s) < rounds_begun (k_trace s'))%nat | Raise _ => True end) s.

Lemma counts_bind {A B} (m : W H A) (f : A → W H B) : keeps m → (∀ a, counts (f a)) → counts (m ≫= f).
Proof.
  intros Hm Hf s Hs. apply runs_bind. eapply runs_mono; [by apply Hm|]. intros [a|e] s1 [H1 Hp1]; [|done].
  eapply runs_mono; [by apply Hf|]. intros r s2 [[H2 Hp2] Hr]. split; [split; [done|by etrans]|].
  destruct r; [|done]. apply rounds_begun_mono in Hp1. lia.
Qed.

Lemma counts_query {A} (f : bool → W H A) : (∀ b, keeps (f b)) → counts (ask StopRequested ≫= f).
Proof.
  intros Hf s Hs. apply (runs_ask_bind StopRequested). intros b s1 H1 _.
  assert (Ht : onward s (tracked s1) s1) by (eapply tracked_evolves; [done|by apply after_evolves]).
  eapply runs_mono; [by apply Hf, Ht|]. intros r s2 [H2 Hp2]. split; [split; [done|by etrans; [apply Ht|]]|].
  destruct r; [|done]. apply rounds_begun_mono in Hp2. rewrite (follows_trace _ _ _ H1) in Hp2.
  assert (E : length (filter is_stop_query [Event StopRequested b]) = 1%nat) by done.
  unfold rounds_begun in *. rewrite filter_app, length_app, E in Hp2. lia.
Qed.

Lemma counts_round vars : counts (round is_policy_error container_uid_allowed u worker_id vars).
Proof.
  destruct vars as [next blocked]. unfold round.
  apply counts_bind; [apply keeps_idle, idle_utc_now|]. intros now.
  apply counts_bind; [apply keeps_reconcile|]. intros [].
  apply counts_bind; [exact (keeps_ask Monotonic (λ _, eq_refl))|]. intros t.
  apply counts_bind.
  { case_match; [|apply keeps_ret]. apply keeps_bind; [|intros; apply keeps_ret]. unfold clean_up.
    apply keeps_bind; intros; apply keeps_idle; [apply idle_clean_specs|apply idle_clean_logs]. }
  intros next'. apply counts_query. intros [];
    repeat first [ apply keeps_stop | apply keeps_reconcile | apply keeps_work | apply keeps_pause | keeps_step ].
Qed.

(** However far [m] gets, it keeps track, and it is cut off only after [fuel] rounds. *)
Definition lasts {A} (fuel : nat) (m : W H A) : Prop := ∀ s, tracked s →
  tracked (m s).2 ∧ ((m s).1 = None → fuel + rounds_begun (k_trace s) ≤ rounds_begun (k_trace (m s).2))%nat.

Lemma lasts_bind {A B} fuel (m : W H A) (f : A → W H B) :
  keeps m → (∀ a, lasts fuel (f a)) → lasts fuel (m ≫= f).
Proof.
  intros Hm Hf s Hs. specialize (Hm s Hs). unfold runs, mbind, W_bind in *.
  destruct (m s) as [[[a|e]|] s1]; [|by destruct Hm|done]. destruct Hm as [H1 Hp].
  destruct (Hf a s1 H1) as [? Hn]. split; [done|]. intros Hnone. specialize (Hn Hnone).
  apply rounds_begun_mono in Hp. lia.
Qed.

Lemma lasts_iter {A B} (body : A → W H (A + B)) fuel a : (∀ a, counts (body a)) → lasts fuel (iter fuel body a).
Proof.
  intros Hb. revert a. induction fuel as [|fuel IH]; intros a s Hs; cbn [iter]; [done|].
  specialize (Hb a s Hs). unfold runs, mbind, W_bind in *.
  destruct (body a s) as [[[[a'|b]|e]|] s1]; [| | |done]; destruct Hb as [[H1 _] Hr]; [|done..].
  destruct (IH a' s1 H1) as [? Hn]. split; [done|]. intros Hnone. specialize (Hn Hnone). lia.
Qed.

Lemma lasts_main fuel : lasts fuel (main_loop is_policy_error container_uid_allowed u worker_id fuel).
Proof.
  unfold main_loop. apply lasts_bind; [exact (keeps_ask InstallHandlers (λ _, eq_refl))|]. intros r.
  apply lasts_bind; [apply keeps_result|]. intros [].
  apply lasts_bind; [apply keeps_idle, idle_utc_now|]. intros now.
  apply lasts_bind; [apply keeps_recover|]. intros recovery.
  apply lasts_bind; [apply keeps_set_count|]. intros [].
  apply lasts_bind; [apply keeps_set_count|]. intros []. apply lasts_iter, counts_round.
Qed.
End Rounds.

(** ** The end of the worker *)

Section Ending.
Context {H : Type} {Hhost : Host H} {Hclock : Clock H} `{!OsErrors}.
Variable is_policy_error : exn → bool.
Variable container_uid_allowed : string → Z → bool.
Variables (u : worker_setup).
Implicit Types s : supervisor H.

Lemma settled_follows s new s' : settled s → follows s new s' → spawned new = [] → settled s'.
Proof.
  intros Hs Hf Hn before c pid rest. rewrite (follows_trace _ _ _ Hf).
  intros (rest' & Htr & ->)%(split_old _ _ _ _ _ _ Hn). eapply let_go_mono; [|by eapply Hs]. set_solver +.
Qed.

Lemma settled_idle {A} (m : W H A) s :
  idle m → settled s → runs m (λ _ s', settled s' ∧ k_running s' = k_running s) s.
Proof.
  intros Hm Hs. eapply runs_mono; [by apply (Hm (k_world s))|]. intros r s' (new & Ha & Hn & _).
  split; [by eapply settled_follows; [|apply Ha|]|apply (after_running _ _ _ Ha)].
Qed.

(** The children are gone. *)
Lemma tracked_settled s new s' :
  tracked s → follows s new s' → spawned new = [] →
  (∀ it, it ∈ k_running s → signalled SIGKILL (it_pid it) new ∨ ended (it_pid it) new) → settled s'.
Proof.
  intros [_ Hall] Hf Hn Hgone before c pid rest. rewrite (follows_trace _ _ _ Hf).
  intros (rest' & Htr & ->)%(split_old _ _ _ _ _ _ Hn).
  destruct (Hall _ _ _ _ Htr) as [(it & Hin & <- & _)|Hl]; [|eapply let_go_mono; [|done]; set_solver +].
  destruct (Hgone it Hin) as [Hk|He]; [left; in_trace|right; left; in_trace].
Qed.

Lemma settled_tracked s : settled s → k_running s = [] → tracked s.
Proof.
  intros Hs Hr. split; [split; rewrite Hr; constructor|]. intros before c pid rest Htr. right. by eapply Hs.
Qed.

Lemma end_children_run (policy_failed : bool) s :
  tracked s →
  runs (if bool_decide (k_running s = []) then mret tt
        else if policy_failed then _shutdown_running_jobs_without_ledger (ws_grace u)
        else _shutdown_running_jobs (reconcile u) (ws_grace u)) (λ _ s', settled s') s.
Proof.
  intros Ht. case_bool_decide as Hr.
  { apply runs_ret. apply (tracked_settled s [] s Ht); [apply follows_refl|done|].
    intros it Hin. rewrite Hr in Hin. by apply not_elem_of_nil in Hin. }
  destruct policy_failed.
  - eapply runs_mono; [apply shutdown_without_ledger_run, Ht|]. intros r s' (new & Hf & Hq & Hall & _).
    apply (tracked_settled s new); [done..|by apply quiet_spawned|]. intros it Hin. left. by apply Hall.
  - eapply runs_mono; [apply shutdown_running_run, Ht|]. intros r s' (_ & new & He & Hall).
    apply (tracked_settled s new); [done|apply He|apply (ev_spawned _ _ _ He)|]. intros it Hin.
    destruct (Hall it Hin) as [_ [?|[? _]]]; auto.
Qed.

Lemma wind_down_run failure s :
  tracked s → runs (wind_down is_policy_error u failure) (λ _ s', settled s') s.
Proof.
  intros Ht. unfold wind_down. set (policy_failed := match failure with Some e => is_policy_error e | None => false end).
  apply runs_bind, runs_get, runs_bind. eapply runs_mono; [by apply end_children_run|].
  intros [[]|e] s1 H1; [|done]. destruct policy_failed; [done|].
  eapply runs_mono; [apply (settled_idle _ s1)|by intros r s2 []]; [|done].
  apply idle_bind.
  - apply idle_catch, idle_bind; [apply idle_utc_now|]. intros t.
    apply idle_bind; [apply idle_clean_specs|]. intros _.
    apply idle_bind; [apply idle_utc_now|]. intros t'. apply idle_clean_logs.
  - intros [a|e]; [apply idle_ret|]. case_match; [apply idle_ret|apply idle_result].
Qed.

Lemma idle_last ended_ (result : res unit) : idle (H := H)
  (_ ← ask RestoreHandlers; _ ← ask ReleaseLease; _ ← of_result (A := unit) ended_; _ ← of_result result; get_counts).
Proof.
  apply idle_bind; [exact (idle_ask RestoreHandlers (λ _, eq_refl))|]. intros _.
  apply idle_bind; [exact (idle_ask ReleaseLease (λ _, eq_refl))|]. intros _.
  apply idle_bind; [apply idle_result|]. intros _. apply idle_bind; [apply idle_result|]. intros _ w s _.
  apply runs_ret. exists []. split; [apply after_refl|done].
Qed.

Lemma close_down_run result s :
  tracked s → runs (close_down is_policy_error u result) (λ _ s', settled s') s.
Proof.
  intros Ht. unfold close_down. apply runs_bind, runs_catch. eapply runs_mono; [by apply wind_down_run|].
  intros r s2 H2. eapply runs_mono; [by apply settled_idle; [apply idle_last|]|]. by intros r' s3 [].
Qed.

Lemma with_cleanup_run worker_id fuel s :
  tracked s →
  match with_cleanup is_policy_error container_uid_allowed u worker_id fuel s with
  | (Some _, s') => settled s'
  | (None, s') => tracked s' ∧ (fuel ≤ rounds_begun (k_trace s'))%nat
  end.
Proof.
  intros Ht. unfold with_cleanup, mbind, W_bind, catch.
  destruct (lasts_main is_policy_error container_uid_allowed u worker_id fuel s Ht) as [H1 Hn].
  destruct (main_loop _ _ _ _ _ s) as [[result|] s1]; cbn [fst snd] in H1, Hn.
  - pose proof (close_down_run result s1 H1) as Hend. unfold runs in Hend.
    by destruct (close_down _ _ result s1) as [[r|] s2].
  - split; [done|]. specialize (Hn eq_refl). lia.
Qed.

(** A step before the main loop. *)
Lemma first_step {A} (m : W H A) {B} (f : A → W H B) s (Q : option (res B) * supervisor H → Prop) :
  idle m → settled s → k_running s = [] →
  (∀ e s', settled s' → Q (Some (Raise e), s')) →
  (∀ a s', settled s' → k_running s' = [] → Q (f a s')) → Q ((m ≫= f) s).
Proof.
  intros Hm Hs Hr He Hf. pose proof (settled_idle m s Hm Hs) as H1. unfold runs, mbind, W_bind in *.
  destruct (m s) as [[[a|e]|] s1]; [|by apply He, H1|done]. destruct H1 as [H1 Hr1].
  apply Hf; [done|congruence].
Qed.
End Ending.

(** C9: the worker leaves no child behind. Whatever the host answers, and whatever
    is raised on the way, a run of the worker that comes to its end has killed each
    process group that it started, or has seen it end; the exceptions are a process
    whose log thread raised an error the code does not handle, and a process whose
    job was started once more. As long as the worker still runs, every process is
    supervised or was let go of in this way; and it still runs only because its main
    loop goes on: nothing inside a round runs for ever. *)
Theorem worker_leaves_no_child {H} {Hhost : Host H} {Hclock : Clock H} `{!OsErrors}
    is_policy_error container_uid_allowed u fuel (s : supervisor H) :
  k_running s = [] → k_trace s = [] →
  match run_worker is_policy_error container_uid_allowed u fuel s with
  | (Some _, s') => ∀ before c pid rest,
      k_trace s' = before ++ Event (Popen c) (Ok pid) :: rest → let_go c pid rest
  | (None, s') =>
      (fuel ≤ rounds_begun (k_trace s'))%nat ∧
      ∀ before c pid rest, k_trace s' = before ++ Event (Popen c) (Ok pid) :: rest →
        (∃ it, it ∈ k_running s' ∧ it_pid it = pid ∧ job_of c = Some (it_id it)) ∨ let_go c pid rest
  end.
Proof.
  intros Hr Htr. assert (Hs : settled s).
  { intros before c pid rest. rewrite Htr. by destruct before. }
  unfold run_worker. destruct (negb _); [exact Hs|]. do 2 (destruct (_ <? _); [exact Hs|]).
  set (Q := λ out : option (res (gmap string Z)) * supervisor H, match out with
    | (Some _, s') => settled s'
    | (None, s') => (fuel ≤ rounds_begun (k_trace s'))%nat ∧
        ∀ before c pid rest, k_trace s' = before ++ Event (Popen c) (Ok pid) :: rest →
          (∃ it, it ∈ k_running s' ∧ it_pid it = pid ∧ job_of c = Some (it_id it)) ∨ let_go c pid rest
    end). change (Q ((_ ← store_load; worker_id ← on_world uuid4; r ← ask AcquireLease; _ ← of_result r;
      with_cleanup is_policy_error container_uid_allowed u worker_id fuel) s)).
  apply first_step; [intros w; by apply steady_load|done..|]. intros _ s1 H1 Hr1.
  apply first_step; [intros w; by apply steady_world; [apply forward_uuid|]|done..|]. intros worker_id s2 H2 Hr2.
  apply first_step; [exact (idle_ask AcquireLease (λ _, eq_refl))|done..|]. intros r s3 H3 Hr3.
  apply first_step; [apply idle_result|done..|]. intros _ s4 H4 Hr4.
  pose proof (with_cleanup_run is_policy_error container_uid_allowed u worker_id fuel s4
                (settled_tracked _ H4 Hr4)) as Hrun. unfold Q.
  destruct (with_cleanup _ _ _ _ _ _) as [[out|] s5]; [done|]. by destruct Hrun as [[_ Hall] ?].
Qed.

(** ** An example: a job that does not end by itself *)

Definition endless_job : job := list_to_map
  [("status", JStr JOB_PENDING); ("argv", JList [JStr "/bin/true"]); ("cwd", JStr "/home/ada")].

Definition endless : reservation :=
  Reservation "r1" None 1000 (Some "ada") [0] MODE_EXCLUSIVE 0 (hours 1) STATUS_ACTIVE None None
    None None None (Some endless_job) (Some []) None (Some []).

Definition one_job_worker : worker_setup :=
  WorkerSetup example_config plain_launch 1000 7 50 "node" true (seconds 1) 2 false (hours 1) (seconds 1).

(** Ten minutes pass between two looks at the wall clock. *)
Definition before_worker : supervisor sim :=
  Supervisor (Sim 0 (Ok (Ledger [endless] None [] None)) [] true no_files)
    (World (λ n, seconds (600 * Z.of_nat n)) (λ _, spec_id0) 0 0) [] ∅ [].

Lemma worker_leaves_no_child_witness :
  ∃ result s', run_worker (λ _, false) (λ _ _, false) one_job_worker 20 before_worker = (Some (Ok result), s') ∧
    result !! "started" = Some 1 ∧ spawned (k_trace s') = [100] ∧ sim_alive (k_host s') = [] ∧
    ∀ before c pid rest, k_trace s' = before ++ Event (Popen c) (Ok pid) :: rest → let_go c pid rest.
Proof.
  assert (Hok : let '(out, s') := run_worker (λ _, false) (λ _ _, false) one_job_worker 20 before_worker in
    match out with Some (Ok result) => result !! "started" = Some 1 | _ => False end ∧
    spawned (k_trace s') = [100] ∧ sim_alive (k_host s') = []) by (vm_compute; repeat split).
  pose proof (worker_leaves_no_child (λ _, false) (λ _ _, false) one_job_worker 20 before_worker
                eq_refl eq_refl) as Hall.
  destruct (run_worker _ _ _ _ _) as [[[result|e]|] s']; [|by destruct Hok as [[] _]..].
  destruct Hok as (Hstarted & Hspawned & Halive). exists result, s'.
  split; [reflexivity|]. split; [exact Hstarted|]. split; [exact Hspawned|]. split; [exact Halive|exact Hall].
Defined.
