(* ===== verification/LogPump.v ===== *)
(** * LogPump: the rolling log of a running job ([JobLogPump] of [src/src/bk/joblogs.py])

    A pump copies the output of a command into a log of two segments: when a piece
    does not fit into the current segment any more, the segment replaces the older
    one and a new one begins with a header. This file models the pump on the faulty
    files of [Files] and shows that the log never outgrows its limit, that it always
    holds the end of the output, and that no fault stops the copying.

    What [select] and [os.read] report to the thread of the pump is a list of events.
    Starting and joining the thread itself are not modelled. *)

From S2P Require Import Prelude PyBase Json Files Jsonl JobSpecs.

Definition LOG_READ_CHUNK_BYTES : Z := 64 * 1024.

(** ** The pump *)

Record pump := Pump {
  p_path : string;
  p_max_bytes : Z;
  p_header : bytes;
  p_rotation_count : Z;
  p_error : option string;
  p_open : bool;
  p_segment_bytes : Z;
}.

(** [path.with_name(path.name + ".1")] *)
Definition rotated_job_log_path (path : string) : string := path +:+ ".1".

Definition p_rotated_path (p : pump) : string := rotated_job_log_path (p_path p).
Definition p_segment_limit (p : pump) : Z := if p_max_bytes p =? 0 then 0 else p_max_bytes p / 2.

Definition with_open (b : bool) (p : pump) : pump :=
  Pump (p_path p) (p_max_bytes p) (p_header p) (p_rotation_count p) (p_error p) b (p_segment_bytes p).
Definition with_bytes (n : Z) (p : pump) : pump :=
  Pump (p_path p) (p_max_bytes p) (p_header p) (p_rotation_count p) (p_error p) (p_open p) n.
Definition with_rotation (p : pump) : pump :=
  Pump (p_path p) (p_max_bytes p) (p_header p) (p_rotation_count p + 1) (p_error p) (p_open p) (p_segment_bytes p).
Definition with_error (e : option string) (p : pump) : pump :=
  Pump (p_path p) (p_max_bytes p) (p_header p) (p_rotation_count p) e (p_open p) (p_segment_bytes p).

(** [self.error = self.error or message] *)
Definition first_error (message : string) (p : pump) : pump :=
  with_error (Some (match p_error p with
                    | Some e => if bool_decide (e = "") then message else e
                    | None => message
                    end)) p.

(** Code that changes the pump, also when it raises. *)
Definition P (A : Type) : Type := pump → F (res A * pump).

#[export] Instance P_ret : MRet P := λ A a p, mret (Ok a, p).
#[export] Instance P_bind : MBind P := λ A B f m p,
  '(r, p) ← m p; match r with Ok a => f a p | Raise e => mret (Raise e, p) end.

Definition on_files {A} (m : F A) : P A := λ p, r ← attempt m; mret (r, p).
Definition self : P pump := λ p, mret (Ok p, p).
Definition change (f : pump → pump) : P unit := λ p, mret (Ok tt, f p).
Definition p_throw {A} (e : exn) : P A := λ p, mret (Raise e, p).

(** [try: m except ...]: the result or the exception as a value. *)
Definition p_attempt {A} (m : P A) : P (res A) := λ p, '(r, p) ← m p; mret (Ok r, p).

(** ** The files *)

(** A look at a file or directory. A fault that is no failure of the call stands for
    one of the [issues] that the code looks for. *)
Definition inspect (issues : list string) : F (option string) := λ h,
  let answer r faults := (Done r, Host (h_files h) (h_world h) faults (h_warning h)) in
  match h_faults h with
  | [] => answer (Ok None) []
  | Fine :: faults => answer (Ok None) faults
  | Fails O message :: faults => answer (Raise (OSError message)) faults
  | Fails (S n) _ :: faults => answer (Ok (issues !! n)) faults
  | Dies _ :: faults => (Died, Host (h_files h) (h_world h) faults (h_warning h))
  end.

Definition _job_log_file_issue (path uid : string) : F (option string) :=
  r ← attempt (inspect ["private job log is not a regular file: " +:+ path;
                        "private job log is not owned by UID " +:+ uid +:+ ": " +:+ path;
                        "private job log is accessible by group or other users: " +:+ path]);
  match r with
  | Ok issue => mret issue
  | Raise e => if is_os_error e then mret (Some ("cannot inspect private job log: " +:+ error_text e)) else throw e
  end.

Definition validate_private_directory (uid : string) : F unit :=
  r ← attempt (inspect ["private job path is not a directory"; "private job directory is not owned by UID " +:+ uid;
                        "private job directory must not be accessible by group or other users"]);
  match r with
  | Ok None => mret tt
  | Ok (Some issue) => throw (BookingError issue)
  | Raise e =>
      throw (if is_os_error e then BookingError ("cannot inspect private job directory: " +:+ error_text e) else e)
  end.

(** [os.replace] *)
Definition rename (old new : string) : F unit :=
  at_once (λ fs, <[new := content old fs]> (delete old fs)).

(** One [write] without a buffer. The system may take a part of the bytes only and
    report no error; [Fails O] is the error, [Fails n] such a short write. *)
Definition write_once (path : string) (data : bytes) : F unit := λ h,
  let after fs faults := Host fs (h_world h) faults (h_warning h) in
  let append data := <[path := content path (h_files h) ++ data]> (h_files h) in
  match h_faults h with
  | [] => (Done (Ok tt), after (append data) [])
  | Fine :: faults => (Done (Ok tt), after (append data) faults)
  | Fails O message :: faults => (Done (Raise (OSError message)), after (h_files h) faults)
  | Fails n _ :: faults => (Done (Ok tt), after (append (take n data)) faults)
  | Dies n :: faults => (Died, after (append (take n data)) faults)
  end.

Section Pump.
Variable uid : string.

Definition _close_log (sync : bool) : P unit :=
  p ← self;
  _ ← change (with_open false);
  if negb (p_open p) then mret tt else
  _ ← (if sync then
         r ← p_attempt (on_files check);
         match r with
         | Raise e => if is_os_error e then change (first_error ("job log sync failed: " +:+ error_text e)) else p_throw e
         | Ok _ => mret tt
         end
       else mret tt);
  r ← p_attempt (on_files check);
  match r with
  | Raise e => if is_os_error e then change (first_error ("job log close failed: " +:+ error_text e)) else p_throw e
  | Ok _ => mret tt
  end.

(** [if os.path.lexists(path): ...] after a look at the file *)
Definition if_exists (path : string) (m : F unit) : P unit :=
  fs ← on_files get_files;
  match fs !! path with
  | None => mret tt
  | Some _ =>
      issue ← on_files (_job_log_file_issue path uid);
      match issue with Some text => p_throw (BookingError text) | None => on_files m end
  end.

Definition _rotate_file (count_rotation : bool) : P unit :=
  _ ← _close_log false;
  p ← self;
  _ ← if_exists (p_rotated_path p) (unlink (p_rotated_path p));
  _ ← if_exists (p_path p) (rename (p_path p) (p_rotated_path p));
  _ ← on_files check;
  if count_rotation then change with_rotation else mret tt.

Definition _write_raw (data : bytes) : P unit :=
  p ← self;
  if negb (p_open p) then mret tt else
  _ ← on_files (write_once (p_path p) data);
  change (λ p, with_bytes (p_segment_bytes p + size data) p).

Definition _open_segment : P unit :=
  p ← self;
  _ ← on_files (create (p_path p));
  _ ← on_files check;
  issue ← on_files (inspect ["job log is not owned by UID " +:+ uid +:+ ": " +:+ p_path p;
                             "job log is accessible by group or other users: " +:+ p_path p]);
  match issue with
  | Some text => p_throw (BookingError text)
  | None =>
      fs ← on_files get_files;
      _ ← on_files check;
      _ ← on_files check;
      _ ← change (λ p, with_bytes (size (content (p_path p) fs)) (with_open true p));
      _write_raw (p_header p)
  end.

Definition _write_output (data : bytes) : P unit :=
  p ← self;
  if negb (p_open p) then mret tt else
  _ ← (if negb (p_segment_limit p =? 0) && (p_segment_limit p <? p_segment_bytes p + size data)
       then _ ← _rotate_file true; _open_segment
       else mret tt);
  _write_raw data.

Definition _prepare_current_segment : P unit :=
  p ← self;
  fs ← on_files get_files;
  _ ← (if negb (p_max_bytes p =? 0) && bool_decide (is_Some (fs !! p_path p)) then
         issue ← on_files (_job_log_file_issue (p_path p) uid);
         match issue with
         | Some text => p_throw (BookingError text)
         | None =>
             _ ← on_files check;
             if size (content (p_path p) fs) =? 0 then mret tt else _rotate_file false
         end
       else mret tt);
  _open_segment.

(** [json.dumps] without [sort_keys] keeps the members in their order. *)
Fixpoint print_in_order (v : json) : list ascii :=
  match v with
  | JList l => print_items spaced 0 "["%char "]"%char (map print_in_order l)
  | JObj kvs =>
      print_items spaced 0 "{"%char "}"%char
        (map (print_member spaced) (map (λ '(k, v), (k, print_in_order v)) kvs))
  | v => print_value spaced 0 v
  end.

(** [(json.dumps(value, ensure_ascii=False) + "\n").encode("utf-8")] *)
Definition log_line (value : json) : res bytes :=
  match unprintable true value with
  | Some message => Raise (ValueError message)
  | None => Ok (utf8_encode (print_in_order value ++ [newline]))
  end.

(** The constructor. *)
Definition new_pump (path : string) (max_bytes : Z) (header : json) : F pump :=
  if max_bytes <? 0 then throw (ValueError "job log byte limit must be nonnegative") else
  line ← of_res (log_line header);
  let p := Pump path max_bytes line 0 None false 0 in
  if negb (p_segment_limit p =? 0) && (p_segment_limit p <=? size line + LOG_READ_CHUNK_BYTES)
  then throw (ValueError "job log byte limit is too small for safe rotation") else
  _ ← validate_private_directory uid;
  '(r, p) ← _prepare_current_segment p;
  _ ← of_res r;
  mret p.

(** Before the thread of the pump starts. *)
Definition record_event (event : json) : P unit :=
  payload ← on_files (of_res (log_line event)); _write_output payload.

(** ** The thread *)

(** One turn of the loop: [select] reports nothing in time or the read would block,
    the read gives data (none at the end), or fails, or a stop was requested. *)
Inductive read_event :=
  | Nothing
  | Data (data : bytes)
  | ReadError (message : string)
  | Stopped.

(** [except (OSError, BookingError, ValueError)] *)
Definition write_failure (e : exn) : bool :=
  is_os_error e || match e with BookingError _ | ValueError _ => true | _ => false end.

(** [except (KeyError, OSError, ValueError)] *)
Definition drain_failure (e : exn) : bool :=
  is_os_error e || match e with KeyError _ | ValueError _ => true | _ => false end.

Fixpoint drain_loop (events : list read_event) : P unit :=
  match events with
  | [] | Stopped :: _ => mret tt
  | Nothing :: events => drain_loop events
  | ReadError message :: _ => p_throw (OSError message)
  | Data data :: events =>
      if bool_decide (data = []) then mret tt else
      p ← self;
      if negb (p_open p) then drain_loop events else
      r ← p_attempt (_write_output data);
      match r with
      | Ok _ => drain_loop events
      | Raise e =>
          if write_failure e then
            _ ← change (with_error (Some ("job log write failed: " +:+ error_text e)));
            _ ← _close_log false;
            drain_loop events
          else p_throw e
      end
  end.

Definition _drain (events : list read_event) : P unit :=
  r ← p_attempt (drain_loop events);
  r ← match r with
      | Ok _ => mret r
      | Raise e =>
          if drain_failure e
          then _ ← change (first_error ("job log drain failed: " +:+ error_text e)); mret (Ok tt)
          else mret r
      end;
  _ ← _close_log true;
  match r with Ok _ => mret tt | Raise e => p_throw e end.

(** [finish] when the thread has ended or was never started. *)
Definition finish (started : bool) : P (option string) :=
  _ ← (if started then mret tt else _close_log false);
  p ← self; mret (p_error p).
End Pump.

(** ** Reasoning about the pump *)

Section Rules.
Context (faulty : bool) (crash : files → Prop).
Implicit Types (p : pump) (fs : files).

(** [m] never fails as a call on files: what it raises is a result. *)
Definition does {A} (m : P A) (Q : res A → pump → files → Prop) p fs : Prop :=
  ∀ w, wp faulty crash (m p) (λ r fs' _, ∃ x p', r = Ok (x, p') ∧ Q x p' fs') fs w.

Lemma does_mono {A} (m : P A) (Q Q' : res A → pump → files → Prop) p fs :
  does m Q p fs → (∀ r p fs, Q r p fs → Q' r p fs) → does m Q' p fs.
Proof. intros Hm HQ w. eapply wp_mono; [by apply Hm|]. naive_solver. Qed.

Lemma does_ret {A} (a : A) Q p fs : Q (Ok a) p fs → does (mret a) Q p fs.
Proof. intros HQ w. apply wp_ret. eauto. Qed.

Lemma does_throw {A} e Q p fs : Q (Raise e) p fs → does (A := A) (p_throw e) Q p fs.
Proof. intros HQ w. apply wp_ret. eauto. Qed.

Lemma does_self Q p fs : Q (Ok p) p fs → does self Q p fs.
Proof. intros HQ w. apply wp_ret. eauto. Qed.

Lemma does_change f Q p fs : Q (Ok tt) (f p) fs → does (change f) Q p fs.
Proof. intros HQ w. apply wp_ret. eauto. Qed.

Lemma does_bind {A B} (m : P A) (f : A → P B) Q p fs :
  does m (λ r p fs, match r with Ok a => does (f a) Q p fs | Raise e => Q (Raise e) p fs end) p fs →
  does (m ≫= f) Q p fs.
Proof.
  intros Hm w. apply wp_bind. eapply wp_mono; [by apply Hm|]. intros ? fs' w' (x & p' & -> & HQ).
  destruct x; [by apply HQ|]. apply wp_ret. eauto.
Qed.

Lemma does_attempt {A} (m : P A) Q p fs : does m (λ r, Q (Ok r)) p fs → does (p_attempt m) Q p fs.
Proof.
  intros Hm w. apply wp_bind. eapply wp_mono; [by apply Hm|]. intros ? fs' w' (x & p' & -> & HQ).
  apply wp_ret. eauto.
Qed.

Lemma does_on_files {A} (m : F A) Q p fs :
  (∀ w, wp faulty crash m (λ r fs' _, Q r p fs') fs w) → does (on_files m) Q p fs.
Proof.
  intros Hm w. apply wp_bind, wp_attempt. eapply wp_mono; [by apply Hm|]. intros r fs' w' HQ.
  apply wp_ret. eauto.
Qed.

Lemma does_get_files Q p fs : Q (Ok fs) p fs → does (on_files get_files) Q p fs.
Proof. intros HQ. apply does_on_files. intros w. by apply wp_get_files. Qed.

Lemma does_check Q p fs :
  (faulty = true → crash fs) → Q (Ok tt) p fs → (faulty = true → ∀ msg, Q (Raise (OSError msg)) p fs) →
  does (on_files check) Q p fs.
Proof. intros Hc H1 H2. apply does_on_files. intros w. by apply wp_check. Qed.

Lemma does_at_once effect Q p fs :
  crash fs → crash (effect fs) → Q (Ok tt) p (effect fs) →
  (faulty = true → ∀ msg, Q (Raise (OSError msg)) p (effect fs) ∧ Q (Raise (OSError msg)) p fs) →
  does (on_files (at_once effect)) Q p fs.
Proof.
  intros Hc Hc' H1 H2. apply does_on_files. intros w.
  apply wp_at_once; [done|done|by intros; apply H2|done|by intros; apply H2].
Qed.

Lemma wp_inspect issues (Q : res (option string) → assertion) fs w :
  (faulty = true → crash fs) → Q (Ok None) fs w →
  (faulty = true → (∀ o, Q (Ok o) fs w) ∧ ∀ msg, Q (Raise (OSError msg)) fs w) →
  wp faulty crash (inspect issues) Q fs w.
Proof.
  intros Hc H1 H2 fa wa Hf. unfold inspect. cbn. destruct faulty; [|by rewrite Hf].
  destruct (H2 eq_refl). destruct fa as [|[|[|n] msg|n] fa]; (split; [done|auto]).
Qed.

Lemma does_inspect issues Q p fs :
  (faulty = true → crash fs) → Q (Ok None) p fs →
  (faulty = true → (∀ o, Q (Ok o) p fs) ∧ ∀ msg, Q (Raise (OSError msg)) p fs) →
  does (on_files (inspect issues)) Q p fs.
Proof. intros Hc H1 H2. apply does_on_files. intros w. by apply wp_inspect. Qed.

Lemma wp_issue path uid (Q : res (option string) → assertion) fs w :
  (faulty = true → crash fs) → Q (Ok None) fs w → (faulty = true → ∀ o, Q (Ok o) fs w) →
  wp faulty crash (_job_log_file_issue path uid) Q fs w.
Proof.
  intros Hc H1 H2. apply wp_bind, wp_attempt, wp_inspect; [done|by apply wp_ret|].
  intros Hf. split; [intros o|intros msg]; apply wp_ret; auto.
Qed.

(** Of a write any prefix may reach the file, also when it returns. *)
Lemma does_write path data Q p fs :
  (∀ n, crash (<[path := content path fs ++ take n data]> fs)) → crash fs →
  Q (Ok tt) p (<[path := content path fs ++ data]> fs) →
  (faulty = true → (∀ n, Q (Ok tt) p (<[path := content path fs ++ take n data]> fs)) ∧
                   ∀ msg, Q (Raise (OSError msg)) p fs) →
  does (on_files (write_once path data)) Q p fs.
Proof.
  intros Hc Hc0 H1 H2. apply does_on_files. intros w fa wa Hf. unfold write_once. cbn.
  destruct faulty; [|by rewrite Hf]. destruct (H2 eq_refl) as [H3 H4].
  destruct fa as [|[|[|n] msg|n] fa]; (split; [done|]); first [apply H1|apply H4|exact (H3 (S n))|apply Hc].
Qed.
End Rules.

(** ** The files of one pump *)

Lemma size_take n (a : bytes) : size (take n a) ≤ size a.
Proof. unfold size. rewrite length_take. lia. Qed.

Lemma rotated_ne path : rotated_job_log_path path ≠ path.
Proof.
  unfold rotated_job_log_path. induction path as [|c s IH]; [done|]. cbn. by intros [= H%IH].
Qed.

Section Segments.
Context (faulty : bool) (uid path : string) (max : Z) (header : bytes) (fs0 : files).

Definition rot : string := rotated_job_log_path path.
Definition limit : Z := if max =? 0 then 0 else max / 2.

(** A segment of this size is within the limit, if there is one. *)
Definition fits (n : Z) : Prop := limit = 0 ∨ n ≤ limit.

(** Both segments fit; no other file has changed. *)
Definition bounded (fs : files) : Prop :=
  fits (size (content path fs)) ∧ fits (size (content rot fs)) ∧
  ∀ f, f ≠ path → f ≠ rot → fs !! f = fs0 !! f.

Definition belongs (p : pump) : Prop := p_path p = path ∧ p_max_bytes p = max ∧ p_header p = header.

(** The open segment is no larger than the pump believes. *)
Definition counted (p : pump) (fs : files) : Prop :=
  p_open p = true → size (content path fs) ≤ p_segment_bytes p ∧ fits (p_segment_bytes p).

Definition well (p : pump) (fs : files) : Prop := belongs p ∧ bounded fs ∧ counted p fs.

(** Of the output [ds] the log holds the end: [dropped] is gone, [old] is in the
    older segment, [recent] in the current one; [prior] is what an unlimited log held
    before. *)
Definition tail (prior : bytes) (ds : list bytes) (count : Z) (fs : files) : Prop :=
  0 ≤ count ∧ ∃ dropped old recent, ds = dropped ++ old ++ recent ∧
    fs !! path = Some (prior ++ header ++ concat recent) ∧
    (count = 0 → dropped = [] ∧ old = []) ∧ (count ≤ 1 → dropped = []) ∧
    (0 < count → fs !! rot = Some (header ++ concat old) ∧
       ∃ first rest, recent = first :: rest ∧ limit < size (header ++ concat old ++ first)).

(** What holds on a sound host while the pump writes. *)
Definition live (prior : bytes) (ds : list bytes) (p : pump) (fs : files) : Prop :=
  p_open p = true ∧ p_segment_bytes p = size (content path fs) ∧ tail prior ds (p_rotation_count p) fs.

Hypothesis Hmax : 0 ≤ max.
Hypothesis Hheader : limit = 0 ∨ size header + LOG_READ_CHUNK_BYTES < limit.

Abbreviation does := (does faulty bounded).

Lemma limit_nonneg : 0 ≤ limit.
Proof. unfold limit. case_match; [lia|]. by apply Z.div_pos. Qed.

Lemma belongs_limit p : belongs p → p_segment_limit p = limit ∧ p_rotated_path p = rot.
Proof. intros (Hp & Hm & _). unfold p_segment_limit, p_rotated_path, limit, rot. by rewrite Hp, Hm. Qed.

Lemma content_put f d fs g : content f (<[g := d]> fs) = if decide (f = g) then d else content f fs.
Proof. unfold content. case_decide; [subst; by rewrite lookup_insert_eq|by rewrite lookup_insert_ne]. Qed.

Lemma content_delete f fs g : content f (delete g fs) = if decide (f = g) then [] else content f fs.
Proof. unfold content. case_decide; [subst; by rewrite lookup_delete_eq|by rewrite lookup_delete_ne]. Qed.

Lemma bounded_insert_path d fs : bounded fs → fits (size d) → bounded (<[path := d]> fs).
Proof.
  intros (H1 & H2 & H3) Hd. pose proof (rotated_ne path) as Hne. fold rot in Hne. split_and!.
  - by rewrite content_put, decide_True.
  - by rewrite content_put, decide_False.
  - intros f Hf Hr. rewrite lookup_insert_ne by done. auto.
Qed.

Lemma fits_empty : fits (size []).
Proof. right. apply limit_nonneg. Qed.

Lemma bounded_delete f fs : f = path ∨ f = rot → bounded fs → bounded (delete f fs).
Proof.
  intros Hf (H1 & H2 & H3). split_and!; [rewrite content_delete; case_decide; [apply fits_empty|done]..|].
  intros g Hg Hr. rewrite lookup_delete_ne by naive_solver. auto.
Qed.

Lemma bounded_rename fs : bounded fs → bounded (<[rot := content path fs]> (delete path fs)).
Proof.
  intros Hb. pose proof (rotated_ne path) as Hne. fold rot in Hne.
  pose proof (bounded_delete path fs (or_introl eq_refl) Hb) as (H1 & H2 & H3). split_and!.
  - by rewrite content_put, decide_False.
  - rewrite content_put, decide_True by done. apply Hb.
  - intros f Hf Hr. rewrite lookup_insert_ne by done. auto.
Qed.

(** *** Closing *)

Lemma close_log_does sync p fs (Q : res unit → pump → files → Prop) :
  bounded fs →
  (∀ e, (faulty = false → e = p_error p) → Q (Ok tt) (with_error e (with_open false p)) fs) →
  does (_close_log sync) Q p fs.
Proof.
  intros Hb HQ. apply does_bind, does_self, does_bind, does_change.
  destruct (p_open p); cbn [negb]; [|by apply does_ret, (HQ (p_error p))].
  assert (Hend : ∀ e, (faulty = false → e = p_error p) → does (r ← p_attempt (on_files check);
    match r with
    | Raise e => if is_os_error e then change (first_error ("job log close failed: " +:+ error_text e)) else p_throw e
    | Ok _ => mret tt
    end) Q (with_error e (with_open false p)) fs).
  { intros e He. apply does_bind, does_attempt, does_check; [done|by apply does_ret, HQ|].
    intros Hf msg. cbn. apply does_change, (HQ (Some _)). by rewrite Hf. }
  apply does_bind. destruct sync; [|apply does_ret; by apply (Hend (p_error p))].
  apply does_bind, does_attempt, does_check; [done|apply does_ret; by apply (Hend (p_error p))|].
  intros Hf msg. cbn. apply does_change, (Hend (Some _)). by rewrite Hf.
Qed.

(** *** Rotation *)

Lemma if_exists_does f effect p fs (Q : res unit → pump → files → Prop) :
  bounded fs → bounded (effect fs) →
  (fs !! f = None → Q (Ok tt) p fs) → (is_Some (fs !! f) → Q (Ok tt) p (effect fs)) →
  (faulty = true → ∀ e, write_failure e = true → Q (Raise e) p fs ∧ Q (Raise e) p (effect fs)) →
  does (if_exists uid f (at_once effect)) Q p fs.
Proof.
  intros Hb Hb' H0 H1 H2. apply does_bind, does_get_files. destruct (fs !! f); [|by apply does_ret, H0].
  apply does_bind, does_on_files. intros w. apply wp_issue; [done|..].
  - apply does_at_once; [done..|by apply H1|]. intros Hf msg. by split; apply H2.
  - intros Hf [text|]; [by apply does_throw, H2|].
    apply does_at_once; [done..|by apply H1|]. intros _ msg. by split; apply H2.
Qed.

(** The files after a rotation. *)
Definition turned (fs : files) : files :=
  let fs := delete rot fs in
  match fs !! path with Some d => <[rot := d]> (delete path fs) | None => fs end.

Lemma rotate_does b p fs (Q : res unit → pump → files → Prop) :
  belongs p → bounded fs →
  (∀ e, (faulty = false → e = p_error p) →
    let p' := with_error e (with_open false p) in
    Q (Ok tt) (if (b : bool) then with_rotation p' else p') (turned fs)) →
  (faulty = true → ∀ x e fs', write_failure x = true → bounded fs' → Q (Raise x) (with_error e (with_open false p)) fs') →
  does (_rotate_file uid b) Q p fs.
Proof.
  intros (Hp & Hm & Hh) Hb HQ HR. apply does_bind, close_log_does; [done|]. intros e He.
  apply does_bind, does_self, does_bind. change (p_path (with_error e (with_open false p))) with (p_path p).
  change (p_rotated_path (with_error e (with_open false p))) with (rotated_job_log_path (p_path p)).
  rewrite Hp. fold rot.
  assert (Hb1 : bounded (delete rot fs)) by (apply bounded_delete; [by right|done]).
  assert (Hgo : does (_ ← if_exists uid path (rename path rot); _ ← on_files check; if b then change with_rotation else mret tt)
    Q (with_error e (with_open false p)) (delete rot fs)).
  { apply does_bind, if_exists_does; [done|by apply bounded_rename|..].
    - intros Hn. apply does_bind, does_check; [done| |by intros; apply HR].
      specialize (HQ e He). unfold turned in HQ. rewrite Hn in HQ. destruct b; [by apply does_change|by apply does_ret].
    - intros [d Hd]. apply does_bind, does_check; [by intros; apply bounded_rename| |by intros; apply HR; [..|by apply bounded_rename]].
      specialize (HQ e He). unfold turned in HQ. rewrite Hd in HQ.
      assert (content path (delete rot fs) = d) as -> by (unfold content; by rewrite Hd).
      destruct b; [by apply does_change|by apply does_ret].
    - intros Hf x Hx. split; apply HR; [done..|by apply bounded_rename]. }
  apply if_exists_does; [done..| |intros _; exact Hgo|].
  - intros Hn. by rewrite delete_id in Hgo.
  - intros Hf x Hx. by split; apply HR.
Qed.
(** *** Writing *)

Lemma well_closed p fs : belongs p → bounded fs → p_open p = false → well p fs.
Proof. intros Hp Hb Ho. split; [done|]. split; [done|]. unfold counted. by rewrite Ho. Qed.

Lemma well_written n data p fs :
  well p fs → p_open p = true → fits (p_segment_bytes p + size data) →
  well (with_bytes (p_segment_bytes p + size data) p) (<[path := content path fs ++ take n data]> fs).
Proof.
  intros (Hp & Hb & Hc) Ho Hf. destruct (Hc Ho) as [Hs _]. pose proof (size_take n data) as Ht.
  assert (Hle : size (content path fs ++ take n data) ≤ p_segment_bytes p + size data)
    by (rewrite size_app; lia).
  split; [done|]. split; [apply bounded_insert_path; [done|]|].
  - unfold fits in *. lia.
  - intros _. cbn. by rewrite content_put, decide_True.
Qed.

(** The write adds the bytes, or on a faulty host a part of them, or raises. *)
Lemma write_raw_does data p fs (Q : res unit → pump → files → Prop) :
  well p fs → p_open p = true → fits (p_segment_bytes p + size data) →
  (∀ n, (faulty = false → take n data = data) →
     let p' := with_bytes (p_segment_bytes p + size data) p in
     let fs' := <[path := content path fs ++ take n data]> fs in well p' fs' → Q (Ok tt) p' fs') →
  (faulty = true → ∀ e, write_failure e = true → Q (Raise e) p fs) →
  does (_write_raw data) Q p fs.
Proof.
  intros Hw Ho Hf H1 H2. apply does_bind, does_self. rewrite Ho. cbn [negb].
  pose proof (proj1 (proj1 Hw)) as Hp. rewrite Hp. pose proof (λ n, well_written n data p fs Hw Ho Hf) as Hw'.
  apply does_bind, does_write.
  - intros n. apply (Hw' n).
  - apply Hw.
  - apply does_change. specialize (H1 (length data)). rewrite take_ge in H1 by done. apply H1; [done|].
    specialize (Hw' (length data)). by rewrite take_ge in Hw'.
  - intros Hfa. split; [|intros msg; by apply H2]. intros n. apply does_change, H1; [by rewrite Hfa|done].
Qed.

Lemma bounded_create fs : bounded fs → bounded (<[path := content path fs]> fs).
Proof. intros Hb. apply bounded_insert_path; [done|apply Hb]. Qed.

Lemma fits_header : fits (size header).
Proof. unfold fits. destruct Hheader; [by left|right]. unfold LOG_READ_CHUNK_BYTES in *. lia. Qed.

Lemma open_segment_does p fs (Q : res unit → pump → files → Prop) :
  belongs p → bounded fs → p_open p = false → (limit ≠ 0 → content path fs = []) →
  (∀ n, (faulty = false → take n header = header) →
     let p' := with_bytes (size (content path fs) + size header) (with_open true p) in
     let fs' := <[path := content path fs ++ take n header]> fs in well p' fs' → Q (Ok tt) p' fs') →
  (faulty = true → ∀ e p' fs', write_failure e = true → well p' fs' → Q (Raise e) p' fs') →
  does (_open_segment uid) Q p fs.
Proof.
  intros Hp Hb Ho Hempty H1 H2. pose proof Hp as (Hpp & _ & Hh).
  assert (Hcreate : content path (<[path := content path fs]> fs) = content path fs)
    by (by rewrite content_put, decide_True).
  assert (Hins : ∀ d, <[path := d]> (<[path := content path fs]> fs) = <[path := d]> fs) by (intros d; apply insert_insert_eq).
  pose proof (bounded_create fs Hb) as Hb1. set (fs1 := <[path := content path fs]> fs) in *.
  assert (Hraise : ∀ e fs', write_failure e = true → faulty = true → bounded fs' → Q (Raise e) p fs').
  { intros e fs' He Hf Hb'. apply H2; [done..|]. by apply well_closed. }
  assert (Hfit : fits (size (content path fs) + size header)).
  { destruct (decide (limit = 0)) as [|Hl]; [by left|]. rewrite Hempty by done. apply fits_header. }
  set (p1 := with_bytes (size (content path fs)) (with_open true p)).
  assert (Hw1 : well p1 fs1).
  { split; [done|]. split; [done|]. intros _. cbn [p1 with_bytes p_segment_bytes]. rewrite Hcreate. split; [done|]. apply Hb. }
  apply does_bind, does_self, does_bind. rewrite Hpp.
  apply does_at_once; [done|exact Hb1| |by intros Hf msg; split; apply Hraise].
  apply does_bind, does_check; [done| |by intros; apply Hraise].
  assert (Hgo : does (fs ← on_files get_files; _ ← on_files check; _ ← on_files check;
    _ ← change (λ q, with_bytes (size (content (p_path q) fs)) (with_open true q)); _write_raw (p_header p)) Q p fs1).
  { apply does_bind, does_get_files, does_bind, does_check; [done| |by intros; apply Hraise].
    apply does_bind, does_check; [done| |by intros; apply Hraise].
    apply does_bind, does_change. rewrite Hpp, Hcreate, Hh. fold p1.
    apply write_raw_does; [done..| |by intros Hf e He; apply H2].
    intros n Hn p' fs'. unfold p', fs'. rewrite Hcreate, Hins. by apply H1. }
  apply does_bind, does_inspect; [done|exact Hgo|].
  intros Hf. split; [|by intros; apply Hraise]. intros [text|]; [by apply does_throw, Hraise|exact Hgo].
Qed.

(** *** A piece of output *)

Lemma turned_path fs : turned fs !! path = None.
Proof.
  unfold turned. pose proof (rotated_ne path) as Hne. fold rot in Hne.
  destruct (delete rot fs !! path) as [d|] eqn:E; [|done].
  rewrite lookup_insert_ne by done. apply lookup_delete_eq.
Qed.

Lemma turned_rot fs d : fs !! path = Some d → turned fs !! rot = Some d.
Proof.
  intros Hd. unfold turned. pose proof (rotated_ne path) as Hne. fold rot in Hne.
  rewrite lookup_delete_ne by done. rewrite Hd. apply lookup_insert_eq.
Qed.

Lemma bounded_turned fs : bounded fs → bounded (turned fs).
Proof.
  intros Hb. unfold turned. assert (Hb1 : bounded (delete rot fs)) by (apply bounded_delete; [by right|done]).
  destruct (delete rot fs !! path) as [d|] eqn:E; [|done].
  assert (d = content path (delete rot fs)) as -> by (unfold content; by rewrite E). by apply bounded_rename.
Qed.

Lemma live_turned prior ds data p fs p' :
  (limit ≠ 0 → prior = []) → limit ≠ 0 → limit < p_segment_bytes p + size data →
  live prior ds p fs →
  p_open p' = true → p_segment_bytes p' = size header + size data → p_rotation_count p' = p_rotation_count p + 1 →
  live prior (ds ++ [data]) p' (<[path := header ++ data]> (turned fs)).
Proof.
  intros Hprior Hl Hlt (Ho & Hs & Hc & dropped & old & recent & -> & Hf & H0 & H1 & Hr) Ho' Hs' Hc'.
  rewrite Hprior in Hf by done. cbn in Hf. pose proof (rotated_ne path) as Hne. fold rot in Hne.
  split_and!; [done|by rewrite Hs', content_put, decide_True, size_app|]. rewrite Hc'. split; [lia|].
  exists (dropped ++ old), recent, [data]. split; [by rewrite <- !app_assoc|]. split.
  { rewrite lookup_insert_eq. rewrite Hprior by done. cbn. by rewrite app_nil_r. }
  split; [lia|]. split; [intros Hle; destruct H0 as [-> ->]; [lia|done]|]. intros _. split.
  - rewrite lookup_insert_ne by done. by apply turned_rot.
  - exists data, []. split; [done|]. unfold content in Hs. rewrite Hf in Hs. cbn in Hs.
    rewrite Hs, size_app in Hlt. rewrite !size_app. lia.
Qed.

Lemma live_appended prior ds data p fs p' :
  live prior ds p fs →
  p_open p' = true → p_segment_bytes p' = p_segment_bytes p + size data → p_rotation_count p' = p_rotation_count p →
  live prior (ds ++ [data]) p' (<[path := content path fs ++ data]> fs).
Proof.
  intros (Ho & Hs & Hc & dropped & old & recent & -> & Hf & H0 & H1 & Hr) Ho' Hs' Hc'.
  pose proof (rotated_ne path) as Hne. fold rot in Hne.
  split_and!; [done|by rewrite Hs', Hs, content_put, decide_True, size_app|]. rewrite Hc'. split; [lia|].
  exists dropped, old, (recent ++ [data]). split; [by rewrite <- !app_assoc|]. split.
  { rewrite lookup_insert_eq. unfold content. rewrite Hf. cbn. rewrite concat_app. cbn. by rewrite app_nil_r, <- !app_assoc. }
  split; [done|]. split; [done|]. intros Hpos. rewrite lookup_insert_ne by done.
  destruct (Hr Hpos) as (? & first & rest & -> & ?). split; [done|]. exists first, (rest ++ [data]). done.
Qed.

(** After [write_output] of one piece. *)
Definition wrote (data : bytes) (p : pump) (fs : files) (x : res unit) (p' : pump) (fs' : files) : Prop :=
  well p' fs' ∧ (∀ e, x = Raise e → write_failure e = true) ∧
  (faulty = false → x = Ok tt ∧ ∀ prior ds, (limit ≠ 0 → prior = []) → live prior ds p fs →
     live prior (ds ++ [data]) p' fs').

Lemma write_output_does data p fs :
  well p fs → size data ≤ LOG_READ_CHUNK_BYTES → does (_write_output uid data) (wrote data p fs) p fs.
Proof.
  intros Hw Hd. pose proof Hw as (Hp & Hb & Hc). destruct (belongs_limit p Hp) as [Hl _].
  apply does_bind, does_self. destruct (p_open p) eqn:Ho; cbn [negb].
  2:{ apply does_ret. split; [done|]. split; [done|]. intros _. split; [done|]. intros prior ds _ [Hlive _]. congruence. }
  rewrite Hl. destruct (Hc Ho) as [Hs Hf]. apply does_bind.
  destruct (negb (limit =? 0) && (limit <? p_segment_bytes p + size data)) eqn:Hfull.
  - apply andb_true_iff in Hfull as [Hl0 Hlt]. apply negb_true_iff, Z.eqb_neq in Hl0. apply Z.ltb_lt in Hlt.
    assert (Hroom : size header + size data ≤ limit) by (destruct Hheader; lia).
    assert (Hempty : content path (turned fs) = []) by (unfold content; by rewrite turned_path).
    apply does_bind, rotate_does; [done..| |].
    2:{ intros Hfa x e fs' Hx Hb'. split; [by apply well_closed|]. split; [by intros ? [= <-]|congruence]. }
    intros e He p1. apply open_segment_does; [exact Hp|by apply bounded_turned|done|by intros|..].
    + intros n Hn p2 fs2 Hw2.
      assert (Hs2 : p_segment_bytes p2 = size header) by (unfold p2; by rewrite Hempty).
      assert (Hf2 : fs2 = <[path := take n header]> (turned fs)) by (unfold fs2; by rewrite Hempty).
      apply write_raw_does; [done|done|right; lia| |].
      * intros m Hm p3 fs3 Hw3. split; [done|]. split; [done|]. intros Hfa. split; [done|]. intros prior ds Hprior Hlive.
        unfold fs3. rewrite (Hm Hfa), Hf2, content_put, decide_True by done.
        rewrite (Hn Hfa), insert_insert_eq. apply (live_turned prior ds data p fs); try done. unfold p3. cbn [with_bytes p_segment_bytes]. by rewrite Hs2.
      * intros Hfa x Hx. split; [done|]. split; [by intros ? [= <-]|congruence].
    + intros Hfa x p2 fs2 Hx Hw2. split; [done|]. split; [by intros ? [= <-]|congruence].
  - apply does_ret. apply write_raw_does; [done|done| |..].
    + apply andb_false_iff in Hfull as [Hz|Hz]; [left; by apply negb_false_iff, Z.eqb_eq in Hz|right].
      by apply Z.ltb_ge in Hz.
    + intros n Hn p' fs' Hw'. split; [done|]. split; [done|]. intros Hfa. split; [done|]. intros prior ds _ Hlive.
      unfold fs'. rewrite (Hn Hfa). by eapply live_appended.
    + intros Hfa x Hx. split; [done|]. split; [by intros ? [= <-]|congruence].
Qed.
(** *** The thread *)

(** The pieces of output that the thread reads. *)
Fixpoint outputs (events : list read_event) : list bytes :=
  match events with
  | Nothing :: events => outputs events
  | Data data :: events => if bool_decide (data = []) then [] else data :: outputs events
  | [] | ReadError _ :: _ | Stopped :: _ => []
  end.

Definition pieces_small (events : list read_event) : Prop :=
  ∀ data, Data data ∈ events → size data ≤ LOG_READ_CHUNK_BYTES.

(** After several pieces; [ok] says that nothing was raised. *)
Definition pumped (ds : list bytes) (p : pump) (fs : files) (p' : pump) (fs' : files) : Prop :=
  well p' fs' ∧ (faulty = false → ∀ prior ds0, (limit ≠ 0 → prior = []) → live prior ds0 p fs →
                   live prior (ds0 ++ ds) p' fs').

Lemma pumped_nil p fs : well p fs → pumped [] p fs p fs.
Proof. intros Hw. split; [done|]. intros _ prior ds0 _ Hl. by rewrite app_nil_r. Qed.

Lemma drain_loop_does events p fs :
  well p fs → pieces_small events →
  does (drain_loop uid events) (λ x p' fs', (∀ e, x = Raise e → drain_failure e = true) ∧
    pumped (outputs events) p fs p' fs') p fs.
Proof.
  intros Hw. revert p fs Hw. induction events as [|[|data|message|] events IH]; intros p fs Hw Hsmall; cbn.
  - apply does_ret. split; [done|by apply pumped_nil].
  - apply IH; [done|]. intros d Hd. apply Hsmall. by right.
  - case_bool_decide as Hne; [apply does_ret; split; [done|by apply pumped_nil]|].
    assert (Hsmall' : pieces_small events) by (intros d Hd; apply Hsmall; by right).
    apply does_bind, does_self. destruct (p_open p) eqn:Ho; cbn [negb].
    2:{ eapply does_mono; [by apply IH|]. intros x p' fs' [Hx [Hw' _]]. split; [done|]. split; [done|].
        intros _ prior ds0 _ [Hlive _]. congruence. }
    apply does_bind, does_attempt. eapply does_mono; [apply write_output_does; [done|apply Hsmall; by left]|].
    intros x p1 fs1 (Hw1 & Hx & Hs1). destruct x as [[]|e].
    + eapply does_mono; [by apply IH|]. intros x p' fs' [Hx' [Hw' Hs']]. split; [done|]. split; [done|].
      intros Hf prior ds0 Hprior Hlive. rewrite cons_middle, app_assoc.
      apply Hs'; [done..|]. by apply (Hs1 Hf).
    + rewrite (Hx e eq_refl). apply does_bind, does_change, does_bind.
      pose proof Hw1 as (Hp1 & Hb1 & Hc1). apply close_log_does; [done|]. intros e' _.
      eapply does_mono; [apply IH; [by apply well_closed|done]|].
      intros x p' fs' [Hx' [Hw' _]]. split; [done|]. split; [done|]. intros Hf.
      destruct (Hs1 Hf) as [? _]. done.
  - apply does_throw. split; [by intros e [= <-]|by apply pumped_nil].
  - apply does_ret. split; [done|by apply pumped_nil].
Qed.

Lemma drain_does events p fs (Q : res unit → pump → files → Prop) :
  well p fs → pieces_small events →
  (∀ p1 p' fs', pumped (outputs events) p fs p1 fs' → p_rotation_count p' = p_rotation_count p1 →
     p_open p' = false → Q (Ok tt) p' fs') →
  does (_drain uid events) Q p fs.
Proof.
  intros Hw Hsmall HQ. apply does_bind, does_attempt. eapply does_mono; [by apply drain_loop_does|].
  intros x p1 fs1 [Hx Hpumped]. pose proof Hpumped as [(Hp1 & Hb1 & _) _].
  assert (Hend : ∀ e, does (_ ← _close_log true; mret tt) Q (with_error e p1) fs1).
  { intros e. apply does_bind, close_log_does; [done|]. intros e' _. apply does_ret.
    by apply (HQ p1). }
  apply does_bind. destruct x as [[]|e].
  - apply does_ret. specialize (Hend (p_error p1)). by destruct p1.
  - rewrite (Hx e eq_refl). apply does_bind, does_change, does_ret. apply Hend.
Qed.
(** *** The constructor *)

Definition kept_before (fs : files) : bytes := if max =? 0 then content path fs else [].

Lemma kept_before_limited fs : limit ≠ 0 → kept_before fs = [].
Proof. unfold kept_before, limit. by destruct (max =? 0). Qed.

Lemma prepare_does p fs :
  belongs p → bounded fs → p_open p = false → p_rotation_count p = 0 →
  does (_prepare_current_segment uid) (λ x p' fs', well p' fs' ∧
    (faulty = false → x = Ok tt ∧ live (kept_before fs) [] p' fs')) p fs.
Proof.
  intros Hp Hb Ho Hcount. pose proof Hp as (Hpp & Hm & _).
  assert (Hopen : ∀ p1 fs1, belongs p1 → bounded fs1 → p_open p1 = false → p_rotation_count p1 = 0 →
    content path fs1 = kept_before fs →
    does (_open_segment uid) (λ x p' fs', well p' fs' ∧
      (faulty = false → x = Ok tt ∧ live (kept_before fs) [] p' fs')) p1 fs1).
  { intros p1 fs1 Hp1 Hb1 Ho1 Hc1 Hcontent. apply open_segment_does; [done..| | |].
    - intros Hl. by rewrite Hcontent, kept_before_limited.
    - intros n Hn p' fs' Hw. split; [done|]. intros Hf. split; [done|].
      assert (Hfs' : fs' = <[path := content path fs1 ++ header]> fs1) by (unfold fs'; by rewrite Hn).
      split; [done|]. split; [rewrite Hfs', content_put, decide_True by done; cbn; by rewrite size_app|].
      cbn. rewrite Hc1. split; [done|]. exists [], [], []. rewrite Hfs', lookup_insert_eq, Hcontent.
      cbn. rewrite app_nil_r. split_and!; [done..|lia].
    - intros Hf e p' fs' _ Hw. split; [done|congruence]. }
  assert (Hraise : ∀ x p1 fs1, faulty = true → belongs p1 → bounded fs1 → p_open p1 = false →
    well p1 fs1 ∧ (faulty = false → (x : res unit) = Ok tt ∧ live (kept_before fs) [] p1 fs1)).
  { intros x p1 fs1 Hf Hp1 Hb1 Ho1. split; [by apply well_closed|congruence]. }
  apply does_bind, does_self, does_bind, does_get_files. rewrite Hpp, Hm. apply does_bind.
  destruct (negb (max =? 0) && bool_decide (is_Some (fs !! path))) eqn:E.
  - apply andb_true_iff in E as [Hm0%negb_true_iff Hex].
    assert (Hkept : kept_before fs = []) by (unfold kept_before; by rewrite Hm0).
    apply does_bind, does_on_files. intros w. apply wp_issue; [done| |].
    2:{ intros Hf [text|]; [by apply does_throw, Hraise|]. apply does_bind, does_check; [done| |by intros; apply Hraise].
        case_match eqn:Hz; [apply does_ret, Hopen; [done..|]|].
        - apply Z.eqb_eq in Hz. unfold size in Hz. rewrite Hkept. by destruct (content path fs).
        - apply rotate_does; [done..| |intros; by apply Hraise]. intros e He p'.
          apply Hopen; [done|by apply bounded_turned|done..|]. rewrite Hkept. unfold content. by rewrite turned_path. }
    apply does_bind, does_check; [done| |by intros; apply Hraise].
    case_match eqn:Hz; [apply does_ret, Hopen; [done..|]|].
    + apply Z.eqb_eq in Hz. unfold size in Hz. rewrite Hkept. by destruct (content path fs).
    + apply rotate_does; [done..| |intros; by apply Hraise]. intros e He p'.
      apply Hopen; [done|by apply bounded_turned|done..|]. rewrite Hkept. unfold content. by rewrite turned_path.
  - apply does_ret, Hopen; [done..|]. unfold kept_before. apply andb_false_iff in E as [->%negb_false_iff|E]; [done|].
    apply bool_decide_eq_false in E. destruct (max =? 0); [done|]. unfold content.
    destruct (fs !! path); [by destruct E|done].
Qed.
End Segments.

(** ** A log from its creation to the end of the command *)

Fixpoint record_all (uid : string) (notes : list json) : P unit :=
  match notes with
  | [] => mret tt
  | note :: notes => _ ← record_event uid note; record_all uid notes
  end.

(** The pump as the worker uses it: created, given the events of the start, drained. *)
Definition log_session (uid path : string) (max : Z) (header : json) (notes : list json)
    (events : list read_event) : F pump :=
  p ← new_pump uid path max header;
  '(r, p) ← record_all uid notes p;
  _ ← of_res r;
  '(r, p) ← _drain uid events p;
  _ ← of_res r;
  mret p.

Section Session.
Context (faulty : bool) (uid path : string) (max : Z) (line : bytes) (fs0 : files).
Hypothesis Hmax : 0 ≤ max.
Hypothesis Hline : limit max = 0 ∨ size line + LOG_READ_CHUNK_BYTES < limit max.
Abbreviation bounded := (bounded path max fs0).
Abbreviation well := (well path max line fs0).
Abbreviation live := (live path max line).

Lemma record_all_does notes lines p fs :
  Forall2 (λ note payload, log_line note = Ok payload ∧ size payload ≤ LOG_READ_CHUNK_BYTES) notes lines →
  well p fs →
  does faulty bounded (record_all uid notes) (λ x p' fs', well p' fs' ∧
    (faulty = false → x = Ok tt ∧ ∀ prior ds, (limit max ≠ 0 → prior = []) → live prior ds p fs →
       live prior (ds ++ lines) p' fs')) p fs.
Proof.
  intros Hn. revert p fs. induction Hn as [|note payload notes lines [Hl Hs] _ IH]; intros p fs Hw; cbn.
  { apply does_ret. split; [done|]. intros _. split; [done|]. intros prior ds _ Hlive. by rewrite app_nil_r. }
  apply does_bind, does_bind, does_on_files. intros w. rewrite Hl. apply wp_of_res.
  eapply does_mono; [by eapply write_output_does|]. intros x p1 fs1 (Hw1 & Hx & Hs1). destruct x as [[]|e].
  - eapply does_mono; [by apply IH|]. intros x p' fs' [Hw' Hs']. split; [done|]. intros Hf.
    destruct (Hs' Hf) as [-> Hlive]. split; [done|]. intros prior ds Hprior Hl'. rewrite cons_middle, app_assoc.
    apply Hlive; [done|]. by apply (Hs1 Hf).
  - split; [done|]. intros Hf. by destruct (Hs1 Hf).
Qed.
End Session.

(** C10: the rolling log of a job. Whatever fails, also a write that takes a part of
    the bytes only, and wherever the process may die: each of the two segments stays
    within half of the limit, so the log within the limit, and no other file changes.
    Where nothing fails, the log holds the end of the output: the current segment is
    the header and the latest pieces, the older one the header and the pieces right
    before them; nothing is lost before the second rotation, and a segment is only
    given up when the next piece does not fit. *)
Theorem rolling_log_spec faulty uid path max header line notes lines events fs w :
  0 ≤ max → log_line header = Ok line →
  limit max = 0 ∨ size line + LOG_READ_CHUNK_BYTES < limit max →
  Forall2 (λ note payload, log_line note = Ok payload ∧ size payload ≤ LOG_READ_CHUNK_BYTES) notes lines →
  pieces_small events →
  fits max (size (content path fs)) → fits max (size (content (rotated_job_log_path path) fs)) →
  wp faulty (bounded path max fs) (log_session uid path max header notes events)
    (λ r fs' _, bounded path max fs fs' ∧
       (faulty = false → ∃ p, r = Ok p ∧
          tail path max line (kept_before path max fs) (lines ++ outputs events) (p_rotation_count p) fs'))
    fs w.
Proof.
  intros Hmax Hl Hlim Hnotes Hsmall Hf1 Hf2.
  assert (Hb : bounded path max fs fs) by done.
  assert (Hbelongs : belongs path max line (Pump path max line 0 None false 0)) by done.
  set (p0 := Pump path max line 0 None false 0) in *.
  assert (Hraise : ∀ (e : exn) fs', faulty = true → bounded path max fs fs' → bounded path max fs fs' ∧
    (faulty = false → ∃ p, (Raise e : res pump) = Ok p ∧ tail path max line (kept_before path max fs)
       (lines ++ outputs events) (p_rotation_count p) fs')) by (intros; split; [done|congruence]).
  unfold log_session, new_pump. rewrite (proj2 (Z.ltb_ge max 0) Hmax), Hl.
  apply wp_bind, wp_bind, wp_of_res. fold p0.
  change (p_segment_limit p0) with (limit max).
  assert (negb (limit max =? 0) && (limit max <=? size line + LOG_READ_CHUNK_BYTES) = false) as ->.
  { destruct Hlim as [->|Hlim]; [done|]. apply andb_false_iff. right. by apply Z.leb_gt. }
  pose (Q := λ (r : res pump) fs' (_ : world), bounded path max fs fs' ∧ (faulty = false → ∃ p, r = Ok p ∧
    tail path max line (kept_before path max fs) (lines ++ outputs events) (p_rotation_count p) fs')).
  assert (Hgo : ∀ w, wp faulty (bounded path max fs) ('(r, p) ← _prepare_current_segment uid p0; _ ← of_res r; mret p)
    (λ r fs' w, match r with Ok p => wp faulty (bounded path max fs)
       ('(r, p) ← record_all uid notes p; _ ← of_res r; '(r, p) ← _drain uid events p; _ ← of_res r; mret p) Q fs' w
     | Raise e => Q (Raise e) fs' w end) fs w).
  { clear w. intros w. apply wp_bind. eapply wp_mono; [by eapply (prepare_does faulty uid path max line fs Hmax Hlim)|].
    intros ? fs1 w1 (x & p1 & -> & Hw1 & Hs1). destruct x as [[]|e].
    2:{ apply wp_bind, wp_of_res. split; [apply Hw1|]. intros Hf. by destruct (Hs1 Hf). }
    apply wp_bind, wp_of_res, wp_ret, wp_bind. eapply wp_mono; [by eapply record_all_does|].
    intros ? fs2 w2 (x & p2 & -> & Hw2 & Hs2). destruct x as [[]|e].
    2:{ apply wp_bind, wp_of_res. split; [apply Hw2|]. intros Hf. by destruct (Hs2 Hf). }
    apply wp_bind, wp_of_res, wp_bind. eapply wp_mono.
    { apply (drain_does faulty uid path max line fs Hmax Hlim events p2 fs2 (λ x p' fs', x = Ok tt ∧
        ∃ p1, pumped faulty path max line fs (outputs events) p2 fs2 p1 fs' ∧ p_rotation_count p' = p_rotation_count p1)); [done..|].
      intros p3 p' fs' Hp3 Hc _. eauto. }
    intros ? fs3 w3 (x & p3 & -> & -> & p4 & [Hw4 Hs4] & Hc). apply wp_bind, wp_of_res, wp_ret.
    split; [apply Hw4|]. intros Hf. exists p3. split; [done|]. rewrite Hc.
    destruct (Hs1 Hf) as [_ Hl1]. destruct (Hs2 Hf) as [_ Hl2]. pose proof (kept_before_limited path max fs) as Hk.
    specialize (Hl2 _ [] Hk Hl1). by apply (Hs4 Hf _ lines Hk Hl2). }
  apply wp_bind, wp_bind, wp_attempt, wp_inspect; [done|by apply wp_ret|].
  intros Hf. split; [intros [text|]|intros msg].
  - apply wp_throw. by apply Hraise.
  - by apply wp_ret.
  - apply wp_throw. by apply Hraise.
Qed.

(** ** Examples *)

(** The system took three of the bytes of a write. The pump counts all of them and
    reports no error; the rest of the piece is lost. *)
Theorem short_write_unnoticed :
  let p := Pump "/jobs/r1.log" 0 [] 0 None true 0 in
  let '(out, h) := _write_raw (chars "result: 42") p (Host ∅ spec_world [Fails 3 ""] None) in
  content "/jobs/r1.log" (h_files h) = chars "res" ∧
  match out with
  | Done (Ok (r, p')) => r = Ok tt ∧ p_error p' = None ∧ p_segment_bytes p' = 10
  | _ => False
  end.
Proof. vm_compute. repeat split. Qed.

(** Three pieces of which two fit into a segment. *)
Definition pieces : list read_event := replicate 3 (Data (replicate (Z.to_nat 22000) "x"%char)).

Lemma repeated_small n d : size d ≤ LOG_READ_CHUNK_BYTES → pieces_small (replicate n (Data d)).
Proof. intros Hd data Hin. by apply elem_of_replicate in Hin as [[= ->] _]. Qed.

Lemma pieces_are_small : pieces_small pieces.
Proof. apply repeated_small. unfold size, LOG_READ_CHUNK_BYTES. rewrite length_replicate. lia. Qed.

Definition small_log : F pump :=
  log_session "1000" "/jobs/r1.log" 131200 (JObj [("event", JStr "bk-job-start")]) [] pieces.

Lemma rolling_log_witness :
  ∃ p h, small_log (Host ∅ spec_world [] None) = (Done (Ok p), h) ∧ p_rotation_count p = 1 ∧
    size (content "/jobs/r1.log" (h_files h)) ≤ 65600 ∧
    size (content "/jobs/r1.log.1" (h_files h)) ≤ 65600.
Proof.
  assert (Hrun : match small_log (Host ∅ spec_world [] None) with
    | (Done (Ok p), _) => p_rotation_count p = 1 | _ => False end) by (vm_compute; reflexivity).
  assert (Hspec : wp false (bounded "/jobs/r1.log" 131200 ∅) small_log
    (λ r fs' _, bounded "/jobs/r1.log" 131200 ∅ fs') ∅ spec_world).
  { assert (Hline : ∃ line, log_line (JObj [("event", JStr "bk-job-start")]) = Ok line ∧
      size line + LOG_READ_CHUNK_BYTES < limit 131200) by (vm_compute; eexists; split; reflexivity).
    destruct Hline as (line & Hline & Hsize).
    eapply wp_mono; [eapply (rolling_log_spec false "1000" "/jobs/r1.log" 131200 _ line [] [] pieces)|].
    - vm_compute. discriminate.
    - exact Hline.
    - by right.
    - constructor.
    - exact pieces_are_small.
    - right. vm_compute. discriminate.
    - right. vm_compute. discriminate.
    - by intros r fs' w' [Hb _]. }
  specialize (Hspec [] None (λ _, eq_refl)). destruct (small_log _) as [[[p|e]|] h]; [|by destruct Hrun..].
  destruct Hspec as (_ & Hb1 & Hb2 & _). exists p, h. split; [done|]. split; [exact Hrun|].
  change (fits 131200) with (λ n, limit 131200 = 0 ∨ n ≤ limit 131200) in *.
  change (limit 131200) with 65600 in *. destruct Hb1, Hb2; done.
Defined.
