(* ===== verification/JobLogs.v ===== *)
(** * JobLogs: the clean-up of private job logs ([src/src/bk/joblogs.py])

    Every job has a log file and, after a rotation, an older one. The clean-up
    removes the logs that are past their retention, then the oldest ones until the
    quota is met, but never one that a job of the user may still need, and never a
    file that is not private to the user. *)

From Stdlib Require Import SpecFloat.
From S2P Require Import Prelude PyBase Json Timeparse Models Requests Jobs JobSpecs JobRecovery RecoverJobs LogPump.

(** ** Files *)

(** What [lstat] reports. *)
Record log_file := LogFile {
  lf_regular : bool;
  lf_uid : Z;
  lf_mode : Z;
  lf_mtime : pyfloat;
  lf_size : Z;
}.

Abbreviation log_files := (gmap string log_file) (only parsing).

(** The directory with what the system does on it: an [lstat] or [unlink] that
    fails, whether the file is gone then, a synchronisation that fails. *)
Record log_host := LogHost {
  lh_stat_error : string → option string;
  lh_unlink_error : string → option (bool * string);
  lh_sync_error : option string;
  lh_listing : log_files → res (list string);
}.

(** Code that removes files, also when it raises. *)
Definition L (A : Type) : Type := log_files → res A * log_files.

#[export] Instance L_ret : MRet L := λ A a files, (Ok a, files).
#[export] Instance L_bind : MBind L := λ A B f m files,
  match m files with (Ok a, files) => f a files | (Raise e, files) => (Raise e, files) end.

Definition l_res {A} (r : res A) : L A := λ files, (r, files).
Definition l_files : L log_files := λ files, (Ok files, files).

(** ** Time stamps *)

(** [datetime.fromtimestamp(t, timezone.utc)]: the fraction is scaled as a double
    and rounded half to even. *)
Definition fraction_us (s : bool) (r : Z) (e : Z) : Z :=
  let v := fmul (binary_normalize f_prec f_emax (if s then - r else r) e s) (float_of_Z 1000000) in
  match v with
  | S754_finite s m e =>
      let n := if 0 <=? e then Z.pos m * 2 ^ e else round_half_even (Z.pos m) (2 ^ (- e)) in
      if s then - n else n
  | _ => 0
  end.

Definition fromtimestamp (t : pyfloat) : res datetime :=
  us ← match t with
       | S754_nan => Raise (ValueError "Invalid value NaN (not a number)")
       | S754_infinity _ => Raise (OverflowError "timestamp out of range for platform time_t")
       | S754_zero _ => Ok 0
       | S754_finite s m e =>
           let sign (n : Z) := if s then - n else n in
           if 0 <=? e then Ok (sign (Z.pos m * 2 ^ e) * 1000000)
           else Ok (sign (Z.pos m / 2 ^ (- e)) * 1000000 + fraction_us s (Z.pos m mod 2 ^ (- e)) e)
       end;
  if bool_decide (representable us) then Ok us else Raise (ValueError "year is out of range").

(** ** Which logs are needed *)

Definition _job_log_is_needed (r : reservation) (j : job) (now : datetime) : res bool :=
  active ← status_in j [JOB_PENDING; JOB_CLAIMED; JOB_RUNNING];
  if (active : bool) then Ok true else
  known ← status_in j [JOB_FAILED; JOB_INTERRUPTED; JOB_UNCERTAIN];
  if negb known then Ok false
  else if negb (bool_decide (r_status r = STATUS_ACTIVE)) then Ok false
  else Ok (now <? r_end_at r).

(** The ids of the user's jobs and whether one of them needs the log. The user of a
    record of the ledger is a number. *)
Definition add_log_reference (a : actor) (now : datetime) (references : list (string * bool)) (r : reservation)
    : res (list (string * bool)) :=
  match r_job r with
  | None => Ok references
  | Some j =>
      match uuid_text (r_id r) with
      | None => Ok references
      | Some id =>
          if negb (r_uid r =? a_uid a) then Ok references
          else needed ← _job_log_is_needed r j now; Ok (merge references id needed)
      end
  end.

Definition _job_log_references (l : ledger) (a : actor) (now : datetime) : res (list (string * bool)) :=
  fold_res (add_log_reference a now) [] (l_reservations l).

Definition strip_suffix (suffix name : string) : option string :=
  if ends_with (chars suffix) (chars name)
  then Some (text (take (length (chars name) - length (chars suffix)) (chars name))) else None.

Definition _reservation_id_from_log_filename (name : string) : option string :=
  match strip_suffix ".log.1" name with
  | Some stem => uuid_text stem
  | None => stem ← strip_suffix ".log" name; uuid_text stem
  end.

(** ** Single files *)

Section CleanUp.
Variables (h : log_host) (uid : Z).

(** [path.lstat()] *)
Definition log_stat (files : log_files) (name : string) : res log_file :=
  match lh_stat_error h name with
  | Some e => Raise (OSError e)
  | None => match files !! name with Some f => Ok f | None => Raise (OSError "No such file or directory") end
  end.

Definition log_issue (files : log_files) (name : string) : option string :=
  match log_stat files name with
  | Raise e => Some ("cannot inspect private job log: " +:+ Jsonl.error_text e)
  | Ok f =>
      if negb (lf_regular f) then Some ("private job log is not a regular file: " +:+ name)
      else if negb (lf_uid f =? uid)
      then Some ("private job log is not owned by UID " +:+ str_of_Z uid +:+ ": " +:+ name)
      else if negb (Z.land (lf_mode f) 63 =? 0)
      then Some ("private job log is accessible by group or other users: " +:+ name)
      else None
  end.

Fixpoint unlink_all (paths : list string) (files : log_files) : option string * log_files :=
  match paths with
  | [] => (None, files)
  | path :: paths =>
      match lh_unlink_error h path with
      | None => unlink_all paths (delete path files)
      | Some (gone, e) => (Some e, if (gone : bool) then delete path files else files)
      end
  end.

Definition _remove_log_group (paths : list string) (files : log_files) : option string * log_files :=
  let existing := filter (λ path, is_Some (files !! path)) paths in
  match omap (log_issue files) existing with
  | issue :: _ => (Some issue, files)
  | [] =>
      let '(error, files) := unlink_all existing files in
      match error with
      | Some e => (Some e, files)
      | None => (if bool_decide (existing = []) then None else lh_sync_error h, files)
      end
  end.

(** ** The clean-up *)

Record log_group := LogGroup {
  lg_paths : list string;
  lg_size : Z;
  lg_modified_at : pyfloat;
  lg_needed : bool;
}.

(** The local variables. *)
Record log_scan := LogScan {
  ls_groups : list (string * log_group);
  ls_removed : Z;
  ls_failed : Z;
  ls_bytes_removed : Z;
  ls_total : Z;
  ls_warnings : list string;
}.

Definition with_total (n : Z) (s : log_scan) : log_scan :=
  LogScan (ls_groups s) (ls_removed s) (ls_failed s) (ls_bytes_removed s) n (ls_warnings s).

Definition group_warning (id message : string) : string := clip 8 id +:+ ": " +:+ message.

(** [groups.setdefault(reservation_id, []).append(path)] *)
Definition add_path (groups : list (string * list string)) (path : string) : list (string * list string) :=
  match _reservation_id_from_log_filename path with
  | None => groups
  | Some id => dict_put id (default [] (assoc_get id groups) ++ [path]) groups
  end.

(** The groups whose files are all safe; of the others the regular files count. *)
Record safe_scan := SafeScan {
  ss_groups : list (string * log_group);
  ss_unsafe : Z;
  ss_unsafe_bytes : Z;
  ss_failed : Z;
  ss_warnings : list string;
}.

Definition scan_group (references : list (string * bool)) (files : log_files) (acc : safe_scan)
    (group : string * list string) : res safe_scan :=
  let '(SafeScan groups unsafe bytes failed warnings) := acc in
  let '(id, paths) := group in
  match omap (log_issue files) paths with
  | issue :: _ =>
      let size path := match log_stat files path with
                       | Ok f => if lf_regular f then lf_size f else 0
                       | Raise _ => 0
                       end in
      Ok (SafeScan groups (unsafe + 1) (bytes + sumZ size paths) (failed + 1)
            (warnings ++ [group_warning id issue]))
  | [] =>
      metadata ← fold_res (λ fs path, f ← log_stat files path; Ok (fs ++ [f])) [] paths;
      let modified := match metadata with
                      | [] => S754_nan
                      | f :: fs => foldl (λ m f, fmax m (lf_mtime f)) (lf_mtime f) fs
                      end in
      Ok (SafeScan (groups ++ [(id, LogGroup paths (sumZ lf_size metadata) modified
                                      (default false (assoc_get id references)))])
            unsafe bytes failed warnings)
  end.

(** The removal of one group and its counters. *)
Definition remove_group (id : string) (g : log_group) (s : log_scan) : L log_scan := λ files,
  let '(LogScan groups removed failed bytes total warnings) := s in
  match _remove_log_group (lg_paths g) files with
  | (Some e, files) =>
      (Ok (LogScan groups removed (failed + 1) bytes total (warnings ++ [group_warning id e])), files)
  | (None, files) =>
      (Ok (LogScan (filter (λ x, x.1 ≠ id) groups) (removed + 1) failed (bytes + lg_size g)
             (total - lg_size g) warnings), files)
  end.

(** A group that nobody needs and that is not newer than the cutoff is removed. *)
Fixpoint retention (cutoff : datetime) (groups : list (string * log_group)) (s : log_scan) : L log_scan :=
  match groups with
  | [] => mret s
  | (id, g) :: groups =>
      if lg_needed g then retention cutoff groups s else
      t ← l_res (fromtimestamp (lg_modified_at g));
      if cutoff <? t then retention cutoff groups s else
      s ← remove_group id g s;
      retention cutoff groups s
  end.

(** [key=lambda item: (modified_at, reservation_id)] *)
Definition older (x y : string * log_group) : bool :=
  let '(a, b) := (lg_modified_at x.2, lg_modified_at y.2) in
  if feq a b then String.ltb x.1 y.1 else flt a b.

Fixpoint enforce_quota (quota : Z) (groups : list (string * log_group)) (s : log_scan) : L log_scan :=
  match groups with
  | [] => mret s
  | (id, g) :: groups =>
      if ls_total s <=? quota then mret s else
      s ← remove_group id g s;
      enforce_quota quota groups s
  end.

Record log_cleanup := JobLogCleanupResult {
  lc_removed : Z;
  lc_retained : Z;
  lc_failed : Z;
  lc_bytes_removed : Z;
  lc_bytes_retained : Z;
  lc_quota_excess_bytes : Z;
  lc_warnings : list string;
}.

Definition quota_warning (excess : Z) : string :=
  "private job logs exceed the configured quota by " +:+ str_of_Z excess
    +:+ " bytes; active or retryable logs were retained".

(** [retention_days] and [quota] are 0 where there is no limit. *)
Variables (references : list (string * bool)) (now : datetime) (retention_days quota : Z).

Definition retire (s : log_scan) : L log_scan :=
  if retention_days =? 0 then mret s else
  cutoff ← l_res (let t := now - days retention_days in
                  if bool_decide (representable t) then Ok t
                  else Raise (OverflowError "date value out of range"));
  retention cutoff (ls_groups s) s.

(** The candidates for the quota, the oldest first. *)
Definition candidates (s : log_scan) : list (string * log_group) :=
  sort_by (λ x y, negb (older y x)) (filter (λ x, lg_needed x.2 = false) (ls_groups s)).

Definition shrink (s : log_scan) : L log_scan :=
  if negb (quota =? 0) && (quota <? ls_total s) then enforce_quota quota (candidates s) s else mret s.

Definition clean_result (unsafe : Z) (s : log_scan) : log_cleanup :=
  let excess := if quota =? 0 then 0 else Z.max 0 (ls_total s - quota) in
  JobLogCleanupResult (ls_removed s) (Z.of_nat (length (ls_groups s)) + unsafe) (ls_failed s)
    (ls_bytes_removed s) (ls_total s) excess
    (ls_warnings s ++ if excess =? 0 then [] else [quota_warning excess]).

(** From the groups on. *)
Definition clean_groups (groups : list (string * list string)) : L log_cleanup :=
  files ← l_files;
  found ← l_res (fold_res (scan_group references files) (SafeScan [] 0 0 0 []) groups);
  s ← retire (LogScan (ss_groups found) 0 (ss_failed found) 0 0 (ss_warnings found));
  s ← shrink (with_total (ss_unsafe_bytes found + sumZ (λ x, lg_size x.2) (ls_groups s)) s);
  mret (clean_result (ss_unsafe found) s).
End CleanUp.

(** [directory_ok] is the check of the directory that holds the logs. *)
Definition cleanup_job_logs (h : log_host) (getuid : Z) (a : actor) (l : ledger) (now : datetime)
    (retention_days total_max_mb : Z) (directory_exists : bool) (directory_ok : res unit) : L log_cleanup :=
  if negb (a_uid a =? getuid)
  then l_res (Raise (BookingError "job log cleanup actor must match the current process UID"))
  else if negb directory_exists then mret (JobLogCleanupResult 0 0 0 0 0 0 []) else
  _ ← l_res directory_ok;
  references ← l_res (_job_log_references l a now);
  files ← l_files;
  match lh_listing h files with
  | Raise e =>
      if Jsonl.is_os_error e
      then mret (JobLogCleanupResult 0 0 1 0 0 0 ["cannot scan private job logs: " +:+ Jsonl.error_text e])
      else l_res (Raise e)
  | Ok names =>
      clean_groups h (a_uid a) references now retention_days (total_max_mb * (1024 * 1024))
        (foldl add_path [] names)
  end.

(** ** What the clean-up removes *)

Definition private_log (uid : Z) (f : log_file) : Prop :=
  lf_regular f = true ∧ lf_uid f = uid ∧ Z.land (lf_mode f) 63 = 0.

(** The job is over for good, or it may no longer be retried. *)
Definition log_needed (a : actor) (l : ledger) (now : datetime) (id : string) (b : bool) : Prop :=
  ∃ r j, r ∈ l_reservations l ∧ r_uid r = a_uid a ∧ uuid_text (r_id r) = Some id ∧
    r_job r = Some j ∧ _job_log_is_needed r j now = Ok b.

(** Files only disappear, and each that does was private and satisfies [P]. *)
Record thinned (uid : Z) (P : string → Prop) (files files' : log_files) : Prop := Thinned {
  th_subset : files' ⊆ files;
  th_gone name f : files !! name = Some f → files' !! name = None → private_log uid f ∧ P name;
}.

Lemma thinned_refl uid P files : thinned uid P files files.
Proof. split; [done|]. intros name f H H'. congruence. Qed.

Lemma thinned_trans uid P files1 files2 files3 :
  thinned uid P files1 files2 → thinned uid P files2 files3 → thinned uid P files1 files3.
Proof.
  intros [H1 G1] [H2 G2]. split; [by etrans|]. intros name f Hf Hn.
  destruct (files2 !! name) as [f2|] eqn:E; [|by apply G1].
  assert (f2 = f) as -> by (pose proof (lookup_weaken _ _ _ _ E H1); congruence). by apply G2.
Qed.

Lemma thinned_mono uid (P P' : string → Prop) files files' :
  (∀ name, P name → P' name) → thinned uid P files files' → thinned uid P' files files'.
Proof. intros HP [H G]. split; [done|]. intros name f Hf Hn. destruct (G name f Hf Hn). auto. Qed.

Lemma log_issue_None h uid files name :
  log_issue h uid files name = None → ∃ f, files !! name = Some f ∧ private_log uid f ∧ log_stat h files name = Ok f.
Proof.
  unfold log_issue, log_stat, private_log. destruct (lh_stat_error h name); [done|].
  destruct (files !! name) as [f|]; [|done]. cbn.
  destruct (lf_regular f) eqn:?; [|done]. destruct (Z.eqb_spec (lf_uid f) uid); [|done].
  destruct (Z.eqb_spec (Z.land (lf_mode f) 63) 0); [|done]. intros _. by exists f.
Qed.

Lemma omap_nil {A B} (f : A → option B) l : omap f l = [] ↔ ∀ x, x ∈ l → f x = None.
Proof.
  induction l as [|x l IH]; [split; [intros _ x Hx; by apply not_elem_of_nil in Hx|done]|]. cbn.
  destruct (f x) eqn:E.
  - split; [done|]. intros H. rewrite (H x) in E by (by left). done.
  - rewrite IH. split; intros H y; [intros [->|?]%elem_of_cons; auto|intros; apply H; by right].
Qed.

Lemma unlink_all_thinned h uid paths files :
  (∀ p f, p ∈ paths → files !! p = Some f → private_log uid f) →
  thinned uid (λ name, name ∈ paths) files (unlink_all h paths files).2.
Proof.
  revert files. induction paths as [|p paths IH]; intros files Hp; cbn; [apply thinned_refl|].
  assert (Hd : thinned uid (λ name, name ∈ p :: paths) files (delete p files)).
  { split; [apply delete_subseteq|]. intros name f Hf Hn. destruct (decide (name = p)) as [->|Hne].
    - split; [|by left]. apply (Hp p); [by left|done].
    - rewrite lookup_delete_ne in Hn by done. congruence. }
  destruct (lh_unlink_error h p) as [[[] e]|]; [done|apply thinned_refl|].
  eapply thinned_trans; [done|]. eapply thinned_mono; [|apply IH].
  - intros name Hin. by right.
  - intros q f Hq Hf. apply (Hp q); [by right|]. by apply lookup_delete_Some in Hf as [_ ?].
Qed.

Lemma remove_thinned h uid paths files :
  thinned uid (λ name, name ∈ paths) files (_remove_log_group h uid paths files).2.
Proof.
  unfold _remove_log_group. set (existing := filter _ paths).
  destruct (omap (log_issue h uid files) existing) as [|issue l] eqn:E; [|apply thinned_refl].
  assert (Ht : thinned uid (λ name, name ∈ paths) files (unlink_all h existing files).2).
  { eapply thinned_mono; [|apply unlink_all_thinned].
    - intros name Hin. by apply list_elem_of_filter in Hin as [_ ?].
    - intros p f Hp Hf. destruct (log_issue_None h uid files p) as (f' & ? & ? & _); [|congruence].
      by apply (proj1 (omap_nil _ _) E). }
  by destruct (unlink_all h existing files) as [[e|] files'].
Qed.

Section Removal.
Context (h : log_host) (uid : Z).

(** A file of a group that nobody needs. *)
Definition in_spare (groups : list (string * log_group)) (name : string) : Prop :=
  ∃ id g, (id, g) ∈ groups ∧ lg_needed g = false ∧ name ∈ lg_paths g.

Lemma in_spare_cons x groups name : in_spare groups name → in_spare (x :: groups) name.
Proof. intros (id & g & ? & ?). exists id, g. split; [by right|done]. Qed.

Lemma remove_group_thinned id g s files P :
  (∀ name, name ∈ lg_paths g → P name) → thinned uid P files (remove_group h uid id g s files).2.
Proof.
  intros HP. unfold remove_group. destruct s. pose proof (remove_thinned h uid (lg_paths g) files) as Ht.
  destruct (_remove_log_group _ _ _ _) as [[e|] files']; (eapply thinned_mono; [|exact Ht]; done).
Qed.

Lemma remove_group_ok id g s files : ∃ s' files', remove_group h uid id g s files = (Ok s', files').
Proof. unfold remove_group. destruct s. destruct (_remove_log_group _ _ _ _) as [[e|] files']; eauto. Qed.

Lemma retention_thinned cutoff groups s files :
  thinned uid (in_spare groups) files (retention h uid cutoff groups s files).2.
Proof.
  revert s files. induction groups as [|[id g] groups IH]; intros s files; cbn [retention]; [apply thinned_refl|].
  assert (Hskip : ∀ s files, thinned uid (in_spare ((id, g) :: groups)) files (retention h uid cutoff groups s files).2).
  { intros s' files'. eapply thinned_mono; [|apply IH]. intros name. apply in_spare_cons. }
  destruct (lg_needed g) eqn:Hn; [done|]. unfold mbind, L_bind, l_res.
  destruct (fromtimestamp (lg_modified_at g)) as [t|e]; [|apply thinned_refl].
  destruct (cutoff <? t); [done|]. destruct (remove_group_ok id g s files) as (s' & files' & E). rewrite E.
  pose proof (remove_group_thinned id g s files (in_spare ((id, g) :: groups))) as H1. rewrite E in H1.
  eapply thinned_trans; [|apply Hskip]. apply H1. intros name Hin. exists id, g. split; [by left|done].
Qed.

Lemma enforce_quota_thinned quota groups s files :
  (∀ id g, (id, g) ∈ groups → lg_needed g = false) →
  thinned uid (in_spare groups) files (enforce_quota h uid quota groups s files).2.
Proof.
  revert s files. induction groups as [|[id g] groups IH]; intros s files Hn; cbn [enforce_quota]; [apply thinned_refl|].
  destruct (ls_total s <=? quota); [apply thinned_refl|]. unfold mbind, L_bind.
  destruct (remove_group_ok id g s files) as (s' & files' & E). rewrite E.
  assert (Hg : lg_needed g = false) by (apply (Hn id); by left).
  pose proof (remove_group_thinned id g s files (in_spare ((id, g) :: groups))) as H1. rewrite E in H1.
  eapply thinned_trans; [apply H1|].
  - intros name Hin. exists id, g. split; [by left|done].
  - eapply thinned_mono; [|apply IH; intros id' g' Hin; apply (Hn id'); by right].
    intros name. apply in_spare_cons.
Qed.

(** Groups are only taken away. *)
Lemma remove_group_groups id g s files s' files' :
  remove_group h uid id g s files = (Ok s', files') → ls_groups s' ⊆ ls_groups s.
Proof.
  unfold remove_group. destruct s. destruct (_remove_log_group _ _ _ _) as [[e|] fs]; intros [= <- _]; cbn; [done|].
  by intros x [_ ?]%list_elem_of_filter.
Qed.

Lemma retention_groups cutoff groups s files s' files' :
  retention h uid cutoff groups s files = (Ok s', files') → ls_groups s' ⊆ ls_groups s.
Proof.
  revert s files. induction groups as [|[id g] groups IH]; intros s files; cbn [retention]; [by intros [= <- _]|].
  destruct (lg_needed g); [apply IH|]. unfold mbind, L_bind, l_res.
  destruct (fromtimestamp (lg_modified_at g)) as [t|e]; [|done]. destruct (cutoff <? t); [apply IH|].
  destruct (remove_group_ok id g s files) as (s1 & files1 & E). rewrite E. intros H%IH.
  etrans; [done|]. by eapply remove_group_groups.
Qed.
End Removal.

(** ** Which groups there are *)

Section Groups.
Context (h : log_host) (uid : Z) (references : list (string * bool)) (files : log_files).

(** The groups of the listing: a path stands under the id of its name, and every
    path that has an id stands in a group. *)
Definition listed (names : list string) (groups : list (string * list string)) : Prop :=
  NoDup groups.*1 ∧
  (∀ id paths p, (id, paths) ∈ groups → p ∈ paths → p ∈ names ∧ _reservation_id_from_log_filename p = Some id) ∧
  (∀ id paths, (id, paths) ∈ groups → NoDup paths ∧ paths ≠ []) ∧
  (∀ p id, p ∈ names → _reservation_id_from_log_filename p = Some id → ∃ paths, (id, paths) ∈ groups ∧ p ∈ paths).

Lemma dict_put_keys {A} k (v : A) d : NoDup d.*1 → NoDup (dict_put k v d).*1.
Proof.
  intros Hd. unfold dict_put. destruct (assoc_get k d) as [old|] eqn:E.
  - assert (((λ '(x, y), (x, if bool_decide (x = k) then v else y)) <$> d).*1 = d.*1) as ->; [|done].
    rewrite <- list_fmap_compose. apply list_fmap_ext. by intros _ [x y] _.
  - rewrite fmap_app. cbn. apply NoDup_app. split; [done|]. split; [|apply NoDup_singleton].
    intros x Hx ->%list_elem_of_singleton. apply elem_of_keys in Hx as [v' Hv]. congruence.
Qed.

Lemma assoc_get_iff {A} k (v : A) d : NoDup d.*1 → assoc_get k d = Some v ↔ (k, v) ∈ d.
Proof. intros Hd. split; [apply assoc_get_elem|]. by apply assoc_get_Some. Qed.

Lemma elem_of_put {A} k (v : A) d k' v' : NoDup d.*1 →
  (k', v') ∈ dict_put k v d ↔ if decide (k' = k) then v' = v else (k', v') ∈ d.
Proof.
  intros Hd. rewrite <- assoc_get_iff by (by apply dict_put_keys). rewrite assoc_get_put.
  case_decide; [rewrite bool_decide_true by done; naive_solver|]. rewrite bool_decide_false by done.
  by rewrite assoc_get_iff.
Qed.

Lemma listed_add names groups p :
  listed names groups → p ∉ names → listed (names ++ [p]) (add_path groups p).
Proof.
  intros (Hd & Hin & Hne & Hall) Hp. unfold add_path.
  destruct (_reservation_id_from_log_filename p) as [id|] eqn:Hid.
  2:{ split; [done|]. split; [|split; [done|]].
      - intros id paths q Hg Hq. destruct (Hin id paths q Hg Hq). split; [set_solver|done].
      - intros q id [Hq| ->%list_elem_of_singleton]%elem_of_app Hq'; [by apply Hall|congruence]. }
  set (old := default [] (assoc_get id groups)).
  assert (Hold : ∀ q, q ∈ old → q ∈ names ∧ _reservation_id_from_log_filename q = Some id).
  { unfold old. intros q Hq. destruct (assoc_get id groups) as [ps|] eqn:E; [|by apply not_elem_of_nil in Hq].
    apply assoc_get_elem in E. by apply (Hin id ps). }
  assert (Hnd : NoDup old).
  { unfold old. destruct (assoc_get id groups) as [ps|] eqn:E; [|apply NoDup_nil_2].
    apply assoc_get_elem in E. by apply (Hne id ps). }
  split; [by apply dict_put_keys|]. split; [|split].
  - intros id' paths q Hg Hq. apply elem_of_put in Hg; [|done]. case_decide.
    + subst. apply elem_of_app in Hq as [Hq| ->%list_elem_of_singleton]; [|split; [set_solver|done]].
      destruct (Hold q Hq). split; [set_solver|done].
    + destruct (Hin id' paths q Hg Hq). split; [set_solver|done].
  - intros id' paths Hg. apply elem_of_put in Hg; [|done]. case_decide; [|by apply (Hne id')]. subst.
    split; [|by destruct old]. apply NoDup_app. split; [done|]. split; [|apply NoDup_singleton].
    intros q Hq ->%list_elem_of_singleton. by destruct (Hold _ Hq).
  - intros q id' Hq Hq'. destruct (decide (id' = id)) as [->|Hne'].
    + exists (old ++ [p]). split; [apply elem_of_put; [done|]; by rewrite decide_True|].
      apply elem_of_app in Hq as [Hq|?]; [|set_solver]. apply elem_of_app. left.
      destruct (Hall q id Hq Hq') as (ps & Hg & Hps). unfold old.
      apply assoc_get_iff in Hg; [|done]. by rewrite Hg.
    + apply elem_of_app in Hq as [Hq| ->%list_elem_of_singleton]; [|congruence].
      destruct (Hall q id' Hq Hq') as (ps & Hg & Hps). exists ps. split; [|done].
      apply elem_of_put; [done|]. by rewrite decide_False.
Qed.

Lemma listed_all names : NoDup names → listed names (foldl add_path [] names).
Proof.
  intros Hd. assert (Hgen : ∀ done rest groups, NoDup (done ++ rest) → listed done groups →
    listed (done ++ rest) (foldl add_path groups rest)).
  { clear. intros done rest. revert done. induction rest as [|p rest IH]; intros done groups Hd Hl; cbn.
    { by rewrite app_nil_r. }
    rewrite cons_middle, app_assoc in *. apply IH; [done|]. apply listed_add; [done|].
    apply NoDup_app in Hd as (Hd & _ & _). apply NoDup_app in Hd as (_ & Hdis & _).
    intros Hin. apply (Hdis p Hin). by left. }
  apply (Hgen [] names); [done|]. split; [apply NoDup_nil_2|]. split; [|split].
  - intros id paths p ?%not_elem_of_nil. done.
  - intros id paths ?%not_elem_of_nil. done.
  - intros p id ?%not_elem_of_nil. done.
Qed.
End Groups.

(** ** Which groups are needed *)

Definition needed_in (references : list (string * bool)) (id : string) : bool :=
  default false (assoc_get id references).

Lemma needed_in_merge references id0 n id :
  needed_in (merge references id0 n) id =
  if bool_decide (id = id0) then needed_in references id || n else needed_in references id.
Proof.
  unfold needed_in, merge. destruct (assoc_get id0 references) as [old|] eqn:E.
  - rewrite assoc_get_update. case_bool_decide as Hid; [subst; by rewrite E|]. by destruct (assoc_get id references).
  - rewrite assoc_get_append. cbn. case_bool_decide as Hid; [subst; by rewrite E|].
    by destruct (assoc_get id references).
Qed.

Lemma log_references_spec a now rs refs0 refs id :
  fold_res (add_log_reference a now) refs0 rs = Ok refs →
  (needed_in refs id = false → needed_in refs0 id = false ∧
     ∀ r j, r ∈ rs → r_uid r = a_uid a → uuid_text (r_id r) = Some id → r_job r = Some j →
       _job_log_is_needed r j now = Ok false) ∧
  (needed_in refs id = true → needed_in refs0 id = true ∨
     ∃ r j, r ∈ rs ∧ r_uid r = a_uid a ∧ uuid_text (r_id r) = Some id ∧ r_job r = Some j ∧
       _job_log_is_needed r j now = Ok true).
Proof.
  revert refs0. induction rs as [|r rs IH]; intros refs0 H; cbn in H.
  { injection H as <-. split; [|by left]. intros Hn. split; [done|]. by intros r j ?%not_elem_of_nil. }
  apply res_bind_Ok in H as (refs1 & H1 & H). destruct (IH refs1 H) as [IHf IHt]. clear IH H.
  assert (Hstep : (needed_in refs1 id = false → needed_in refs0 id = false ∧
      ∀ j, r_uid r = a_uid a → uuid_text (r_id r) = Some id → r_job r = Some j → _job_log_is_needed r j now = Ok false) ∧
    (needed_in refs1 id = true → needed_in refs0 id = true ∨
      ∃ j, r_uid r = a_uid a ∧ uuid_text (r_id r) = Some id ∧ r_job r = Some j ∧ _job_log_is_needed r j now = Ok true)).
  { unfold add_log_reference in H1. destruct (r_job r) as [j|]; [|injection H1 as <-; naive_solver].
    destruct (uuid_text (r_id r)) as [id0|]; [|injection H1 as <-; naive_solver].
    destruct (Z.eqb_spec (r_uid r) (a_uid a)) as [Hu|Hu]; cbn [negb] in H1; [|injection H1 as <-; naive_solver].
    apply res_bind_Ok in H1 as (needed & Hneed & H1). injection H1 as <-. rewrite needed_in_merge.
    case_bool_decide as Hid; [subst id0|naive_solver]. split.
    - intros [-> ->]%orb_false_iff. split; [done|]. intros j' _ _ [= <-]. done.
    - intros [?| ->]%orb_true_iff; [by left|right; eauto]. }
  destruct Hstep as [Sf St]. split.
  - intros [Hf Hall]%IHf. destruct (Sf Hf) as [? Hr]. split; [done|].
    intros r' j [->|Hin]%elem_of_cons; [apply Hr|by apply Hall].
  - intros [Ht|(r' & j & Hin & Hr)]%IHt; [|right; exists r', j; split; [by right|done]].
    destruct (St Ht) as [|(j & Hr)]; [by left|right; exists r, j; split; [by left|done]].
Qed.

(** ** What is found *)

Lemma sumZ_cons {A} (f : A → Z) x l : sumZ f (x :: l) = f x + sumZ f l.
Proof. done. Qed.

Lemma sumZ_nil {A} (f : A → Z) : sumZ f [] = 0.
Proof. done. Qed.

Section Found.
Context (h : log_host) (uid : Z) (references : list (string * bool)) (files : log_files).

Definition bytes_of (f : log_file) : Z := if lf_regular f then lf_size f else 0.
Definition bytes_at (files : log_files) (p : string) : Z := default 0 (bytes_of <$> files !! p).

Lemma metadata_spec paths fs0 fs :
  fold_res (λ fs path, f ← log_stat h files path; Ok (fs ++ [f])) fs0 paths = Ok fs →
  ∃ fs', fs = fs0 ++ fs' ∧ Forall2 (λ p f, files !! p = Some f) paths fs'.
Proof.
  revert fs0. induction paths as [|p paths IH]; intros fs0 H; cbn in H.
  { injection H as <-. exists []. by rewrite app_nil_r. }
  apply res_bind_Ok in H as (fs1 & H1 & H). apply res_bind_Ok in H1 as (f & Hf & H1). injection H1 as <-.
  destruct (IH _ H) as (fs' & -> & Hall). exists (f :: fs'). split; [by rewrite <- app_assoc|].
  constructor; [|done]. unfold log_stat in Hf. destruct (lh_stat_error h p); [done|].
  destruct (files !! p); [congruence|done].
Qed.

Lemma newest_in f fs : ∃ f', f' ∈ f :: fs ∧ foldl (λ m f, fmax m (lf_mtime f)) (lf_mtime f) fs = lf_mtime f'.
Proof.
  assert (Hgen : ∀ m, foldl (λ m f, fmax m (lf_mtime f)) m fs = m ∨
    ∃ f', f' ∈ fs ∧ foldl (λ m f, fmax m (lf_mtime f)) m fs = lf_mtime f').
  { induction fs as [|g fs IH]; intros m; [by left|]. cbn.
    destruct (IH (fmax m (lf_mtime g))) as [E|(f' & ? & E)]; [|right; exists f'; split; [by right|done]].
    rewrite E. unfold fmax. case_match; [right; exists g; split; [by left|done]|by left]. }
  destruct (Hgen (lf_mtime f)) as [E|(f' & ? & E)]; [exists f|exists f']; (split; [|done]); [by left|by right].
Qed.

(** What is known of a group whose files are safe. *)
Record scanned (id : string) (g : log_group) : Prop := Scanned {
  sc_private p : p ∈ lg_paths g → ∃ f, files !! p = Some f ∧ private_log uid f;
  sc_size : lg_size g = sumZ (bytes_at files) (lg_paths g);
  sc_needed : lg_needed g = needed_in references id;
  sc_modified : lg_paths g ≠ [] → ∃ p f, p ∈ lg_paths g ∧ files !! p = Some f ∧ lg_modified_at g = lf_mtime f;
}.

Definition unsafe_paths (paths : list string) : Prop := ∃ p, p ∈ paths ∧ is_Some (log_issue h uid files p).

Lemma scan_one_spec acc id paths acc' :
  scan_group h uid references files acc (id, paths) = Ok acc' →
  (ss_groups acc' = ss_groups acc ∧ unsafe_paths paths ∧
   ((∀ p, lh_stat_error h p = None) → ss_unsafe_bytes acc' = ss_unsafe_bytes acc + sumZ (bytes_at files) paths)) ∨
  (ss_unsafe_bytes acc' = ss_unsafe_bytes acc ∧ ∃ g, ss_groups acc' = ss_groups acc ++ [(id, g)] ∧ lg_paths g = paths ∧ scanned id g).
Proof.
  destruct acc as [groups unsafe bytes failed warnings]. unfold scan_group.
  destruct (omap (log_issue h uid files) paths) as [|issue issues] eqn:E.
  - intros (fs & Hfs & H)%res_bind_Ok. injection H as <-. right. split; [done|]. eexists. split; [done|]. split; [done|].
    destruct (metadata_spec _ _ _ Hfs) as (fs' & -> & Hall). cbn [app]. split; cbn.
    + intros p Hp. destruct (log_issue_None h uid files p) as (f & ? & ? & _); [|by exists f].
      by apply (proj1 (omap_nil _ _) E).
    + assert (Hreg : ∀ p, p ∈ paths → ∃ f, files !! p = Some f ∧ lf_regular f = true).
      { intros p Hp. destruct (log_issue_None h uid files p) as (f & ? & [? _] & _); [|by exists f].
        by apply (proj1 (omap_nil _ _) E). }
      clear E Hfs. unfold sumZ. induction Hall as [|p f paths fs' Hf _ IH]; [done|]. cbn. rewrite IH by (intros; apply Hreg; by right).
      unfold bytes_at. rewrite Hf. cbn. unfold bytes_of. destruct (Hreg p) as (f' & ? & Hr); [by left|].
      assert (f' = f) as -> by congruence. by rewrite Hr.
    + done.
    + intros Hne. destruct Hall as [|p f paths fs' Hf Hall]; [done|]. destruct (newest_in f fs') as (f' & Hin & ->).
      assert (Hall' : Forall2 (λ p f, files !! p = Some f) (p :: paths) (f :: fs')) by (by constructor).
      apply list_elem_of_lookup in Hin as [i Hi]. destruct (Forall2_lookup_r _ _ _ _ _ Hall' Hi) as (q & Hq & Hf').
      exists q, f'. split_and!; [|done..]. by eapply list_elem_of_lookup_2.
  - intros [= <-]. left. split; [done|]. split.
    + assert (Hi : issue ∈ omap (log_issue h uid files) paths) by (rewrite E; by left).
      apply list_elem_of_omap in Hi as (p & Hp & Hi). by exists p.
    + intros Hstat. cbn. f_equal. apply sumZ_ext. intros p _. unfold log_stat, bytes_at. rewrite Hstat.
      by destruct (files !! p).
Qed.

Lemma scan_spec groups acc acc' :
  fold_res (scan_group h uid references files) acc groups = Ok acc' →
  NoDup ((ss_groups acc).*1 ++ groups.*1) →
  NoDup (ss_groups acc').*1 ∧ (ss_groups acc').*1 ⊆ (ss_groups acc).*1 ++ groups.*1 ∧
  (∀ id g, (id, g) ∈ ss_groups acc' → (id, g) ∈ ss_groups acc ∨ ((id, lg_paths g) ∈ groups ∧ scanned id g)) ∧
  (∀ id paths, (id, paths) ∈ groups → unsafe_paths paths ∨ ∃ g, (id, g) ∈ ss_groups acc' ∧ lg_paths g = paths) ∧
  ss_groups acc ⊆ ss_groups acc' ∧
  ((∀ p, lh_stat_error h p = None) →
   ss_unsafe_bytes acc' + sumZ (λ x, lg_size x.2) (ss_groups acc') =
   ss_unsafe_bytes acc + sumZ (λ x, lg_size x.2) (ss_groups acc) + sumZ (λ x, sumZ (bytes_at files) x.2) groups).
Proof.
  revert acc. induction groups as [|[id paths] groups IH]; intros acc H Hd; cbn in H.
  { injection H as <-. cbn in *. rewrite app_nil_r in *. split_and!; [done..|by left| |done|lia].
    by intros id paths ?%not_elem_of_nil. }
  apply res_bind_Ok in H as (acc1 & H1 & H). cbn in Hd.
  destruct (scan_one_spec _ _ _ _ H1) as [(Eg & Hun & Eb)|(Eb & g & Eg & Hp & Hsc)].
  - destruct (IH acc1 H) as (Hd' & Hk & Ha & Hb & Hsub & Hsum).
    { rewrite Eg. apply NoDup_app in Hd as (? & Hdis & Hd2). apply NoDup_cons in Hd2 as [? ?].
      apply NoDup_app. split_and!; [done| |done]. intros x Hx Hx'. apply (Hdis x Hx). by right. }
    rewrite Eg in *. split_and!; [done|set_solver| | |done|].
    + intros id' g' Hin. destruct (Ha id' g' Hin) as [|[? ?]]; [by left|right; split; [by right|done]].
    + intros id' paths' [[= -> ->]|Hin]%elem_of_cons; [by left|by apply Hb].
    + intros Hs. rewrite (Hsum Hs), (Eb Hs), sumZ_cons. cbn [snd]. lia.
  - destruct (IH acc1 H) as (Hd' & Hk & Ha & Hb & Hsub & Hsum).
    { rewrite Eg, fmap_app. cbn. by rewrite <- app_assoc. }
    rewrite Eg in *. split_and!; [done|rewrite fmap_app in Hk; set_solver| | |set_solver|].
    + intros id' g' Hin. destruct (Ha id' g' Hin) as [Hin'|[? ?]]; [|right; split; [by right|done]].
      apply elem_of_app in Hin' as [?|Hin']; [by left|right]. apply list_elem_of_singleton in Hin' as [= -> ->].
      rewrite Hp. split; [by left|done].
    + intros id' paths' [[= -> ->]|Hin]%elem_of_cons; [right; exists g; split; [set_solver|done]|by apply Hb].
    + intros Hs. rewrite (Hsum Hs), Eb, sumZ_app, !sumZ_cons, sumZ_nil. cbn [snd].
      destruct Hsc as [_ Hsize _ _]. rewrite Hsize, Hp. lia.
Qed.
End Found.

Section CleanGroups.
Context (h : log_host) (uid : Z) (references : list (string * bool)) (now : datetime) (retention_days quota : Z).

Abbreviation retire := (retire h uid now retention_days).
Abbreviation shrink := (shrink h uid quota).
Abbreviation clean_result := (clean_result quota).

(** The clean-up of the groups is a scan and two phases of removal. *)
Lemma clean_groups_phases groups files r files' :
  clean_groups h uid references now retention_days quota groups files = (r, files') →
  (files' = files ∧ ∃ e, r = Raise e) ∨
  ∃ found, fold_res (scan_group h uid references files) (SafeScan [] 0 0 0 []) groups = Ok found ∧
    let start := LogScan (ss_groups found) 0 (ss_failed found) 0 0 (ss_warnings found) in
    ((∃ e, r = Raise e ∧ retire start files = (Raise e, files')) ∨
     ∃ s1 files1 s2, retire start files = (Ok s1, files1) ∧
       shrink (with_total (ss_unsafe_bytes found + sumZ (λ x, lg_size x.2) (ls_groups s1)) s1) files1 = (Ok s2, files') ∧
       r = Ok (clean_result (ss_unsafe found) s2)).
Proof.
  unfold clean_groups, mbind, L_bind, l_files, l_res.
  destruct (fold_res _ _ groups) as [found|e]; [|intros [= <- <-]; left; eauto]. intros H. right.
  exists found. split; [done|]. cbv zeta.
  destruct (retire _ files) as [[s1|e] files1]; [|injection H as <- <-; left; eauto]. right.
  exists s1, files1. set (s1' := with_total _ s1) in *.
  assert (Hok : ∃ s2 files2, shrink s1' files1 = (Ok s2, files2)).
  { unfold JobLogs.shrink. destruct (negb _ && _); [|by eexists _, _]. generalize s1' files1 (candidates s1'). clear.
    intros s files groups. revert s files. induction groups as [|[id g] groups IH]; intros s files; cbn [enforce_quota]; [by eexists _, _|].
    destruct (ls_total s <=? quota); [by eexists _, _|]. unfold mbind, L_bind. destruct (remove_group_ok h uid id g s files) as (s1 & files1 & ->). apply IH. }
  destruct Hok as (s2 & files2 & E). rewrite E in H. injection H as <- <-. by exists s2.
Qed.

Lemma retire_thinned s files : thinned uid (in_spare (ls_groups s)) files (retire s files).2.
Proof.
  unfold JobLogs.retire. case_match; [apply thinned_refl|]. unfold mbind, L_bind, l_res.
  case_bool_decide; [apply retention_thinned|apply thinned_refl].
Qed.

Lemma retire_groups s files s' files' : retire s files = (Ok s', files') → ls_groups s' ⊆ ls_groups s.
Proof.
  unfold JobLogs.retire. case_match; [by intros [= <- _]|]. unfold mbind, L_bind, l_res.
  case_bool_decide; [apply retention_groups|done].
Qed.

Lemma elem_of_candidates id g s : (id, g) ∈ candidates s ↔ lg_needed g = false ∧ (id, g) ∈ ls_groups s.
Proof. unfold candidates. by rewrite elem_of_sort_by, list_elem_of_filter. Qed.

Lemma shrink_thinned s files : thinned uid (in_spare (ls_groups s)) files (shrink s files).2.
Proof.
  unfold JobLogs.shrink. destruct (negb _ && _); [|apply thinned_refl]. eapply thinned_mono; [|apply enforce_quota_thinned].
  - intros name (id & g & Hin & Hn & Hp). apply elem_of_candidates in Hin as [_ Hin]. by exists id, g.
  - by intros id g [? _]%elem_of_candidates.
Qed.

Lemma clean_groups_thinned names groups files r files' :
  listed names groups →
  clean_groups h uid references now retention_days quota groups files = (r, files') →
  thinned uid (λ name, ∃ id, _reservation_id_from_log_filename name = Some id ∧ needed_in references id = false)
    files files'.
Proof.
  intros (Hd & Hin & _) H. destruct (clean_groups_phases _ _ _ _ H) as [[-> _]|(found & Hscan & Hphases)]; [apply thinned_refl|].
  destruct (scan_spec h uid references files _ _ _ Hscan) as (_ & _ & Hfound & _); [done|].
  cbv zeta in Hphases. set (start := LogScan _ _ _ _ _ _) in Hphases.
  assert (HP : ∀ groups', groups' ⊆ ss_groups found → ∀ name, in_spare groups' name →
    ∃ id, _reservation_id_from_log_filename name = Some id ∧ needed_in references id = false).
  { intros groups' Hsub name (id & g & Hg & Hn & Hp). exists id.
    destruct (Hfound id g (Hsub _ Hg)) as [?%not_elem_of_nil|[Hgr Hsc]]; [done|].
    split; [by apply (Hin id (lg_paths g) name)|]. rewrite <- Hn. symmetry. apply Hsc. }
  assert (H1 : thinned uid (λ name, ∃ id, _reservation_id_from_log_filename name = Some id ∧ needed_in references id = false)
    files (retire start files).2) by (eapply thinned_mono; [by apply (HP (ls_groups start))|apply retire_thinned]).
  destruct Hphases as [(e & _ & E)|(s1 & files1 & s2 & E & E2 & _)]; rewrite E in H1; [done|].
  eapply thinned_trans; [exact H1|]. change files' with (Ok s2, files').2. rewrite <- E2.
  eapply thinned_mono; [|apply shrink_thinned]. apply HP. exact (retire_groups start _ _ _ E).
Qed.
End CleanGroups.

(** C11: the clean-up keeps every log that may still be needed. Whatever the system
    refuses, and also when it raises, it creates and changes no file; every file it
    removes is named like a log, was a regular file of the user that others cannot
    reach, and belongs to no job of the user that waits, is claimed or runs, or that
    may be retried while its window lasts. *)
Theorem cleanup_job_logs_safe h getuid a l now retention_days total_max_mb directory_exists directory_ok files r files' :
  (∀ names, lh_listing h files = Ok names → NoDup names) →
  cleanup_job_logs h getuid a l now retention_days total_max_mb directory_exists directory_ok files = (r, files') →
  files' ⊆ files ∧
  ∀ name f, files !! name = Some f → files' !! name = None →
    private_log (a_uid a) f ∧
    ∃ id, _reservation_id_from_log_filename name = Some id ∧ ¬ log_needed a l now id true.
Proof.
  intros Hnd. unfold cleanup_job_logs.
  assert (Hsame : ∀ r0 : res log_cleanup, (r0, files) = (r, files') → files' ⊆ files ∧
    ∀ name f, files !! name = Some f → files' !! name = None → private_log (a_uid a) f ∧
    ∃ id, _reservation_id_from_log_filename name = Some id ∧ ¬ log_needed a l now id true).
  { intros r0 [= _ <-]. split; [done|]. intros name f Hf Hf'. congruence. }
  destruct (negb _); [apply Hsame|]. destruct (negb directory_exists); [apply Hsame|].
  unfold mbind, L_bind, l_res, l_files. destruct directory_ok; [|apply Hsame].
  destruct (_job_log_references l a now) as [refs|] eqn:Hrefs; [|apply Hsame].
  destruct (lh_listing h files) as [names|e]; [|destruct (Jsonl.is_os_error e); apply Hsame].
  intros H. eapply clean_groups_thinned in H as [Hsub Hgone]; [|apply listed_all; by apply Hnd].
  split; [done|]. intros name f Hf Hf'. destruct (Hgone name f Hf Hf') as [Hp (id & Hid & Hn)].
  split; [done|]. exists id. split; [done|]. intros (r0 & j & Hin & Hu & Huuid & Hj & Hneed).
  destruct (proj1 (log_references_spec _ _ _ _ _ id Hrefs) Hn) as [_ Hall].
  specialize (Hall r0 j Hin Hu Huuid Hj). congruence.
Qed.

(** ** The clean-up on a sound host *)

Record sound_logs (h : log_host) : Prop := SoundLogs {
  sl_stat name : lh_stat_error h name = None;
  sl_unlink name : lh_unlink_error h name = None;
  sl_sync : lh_sync_error h = None;
  sl_listing files : ∃ names, lh_listing h files = Ok names ∧ names ≡ₚ (map_to_list files).*1;
}.

(** The bytes of a log; other files count nothing. *)
Definition log_weight (name : string) (f : log_file) : Z :=
  match _reservation_id_from_log_filename name with Some _ => bytes_of f | None => 0 end.

Definition log_bytes (files : log_files) : Z := sumZ (λ x, log_weight x.1 x.2) (map_to_list files).

Definition delete_all (paths : list string) (files : log_files) : log_files :=
  foldl (λ files p, delete p files) files paths.

Lemma log_bytes_delete p f files :
  files !! p = Some f → log_bytes (delete p files) = log_bytes files - log_weight p f.
Proof. intros Hf. unfold log_bytes. rewrite <- (map_to_list_delete files p f Hf), sumZ_cons. cbn [fst snd]. lia. Qed.

Lemma lookup_delete_all name paths files :
  delete_all paths files !! name = if decide (name ∈ paths) then None else files !! name.
Proof.
  revert files. induction paths as [|p paths IH]; intros files; [by rewrite decide_False by apply not_elem_of_nil|].
  change (delete_all (p :: paths) files) with (delete_all paths (delete p files)). rewrite IH. destruct (decide (name = p)) as [->|Hne].
  - rewrite lookup_delete_eq. rewrite (decide_True (P := p ∈ p :: paths)) by (by left). by case_decide.
  - rewrite lookup_delete_ne by done. apply decide_ext. rewrite elem_of_cons. tauto.
Qed.

Lemma log_bytes_delete_all paths files :
  NoDup paths → (∀ p, p ∈ paths → is_Some (files !! p) ∧ is_Some (_reservation_id_from_log_filename p)) →
  log_bytes (delete_all paths files) = log_bytes files - sumZ (bytes_at files) paths.
Proof.
  intros Hd. revert files. induction Hd as [|p paths Hp _ IH]; intros files Hall.
  { change (log_bytes files = log_bytes files - 0). lia. }
  destruct (Hall p) as [[f Hf] [id Hid]]; [by left|]. change (delete_all (p :: paths) files) with (delete_all paths (delete p files)).
  rewrite IH.
  - rewrite (log_bytes_delete p f) by done. rewrite sumZ_cons. unfold bytes_at at 2. rewrite Hf. cbn.
    unfold log_weight. rewrite Hid. enough (sumZ (bytes_at (delete p files)) paths = sumZ (bytes_at files) paths) by lia.
    apply sumZ_ext. intros q Hq. unfold bytes_at. rewrite lookup_delete_ne; [done|]. by intros ->.
  - intros q Hq. destruct (Hall q) as [? ?]; [by right|]. split; [|done]. rewrite lookup_delete_ne; [done|]. by intros ->.
Qed.

Lemma NoDup_filter_keys {A} (P : string * A → Prop) `{!∀ x, Decision (P x)} l : NoDup l.*1 → NoDup (filter P l).*1.
Proof.
  induction l as [|[k v] l IH]; [done|]. cbn [fmap list_fmap fst]. intros [Hk Hd]%NoDup_cons.
  rewrite filter_cons. case_decide; [|by apply IH]. cbn [fmap list_fmap fst]. constructor; [|by apply IH].
  intros ([k' v'] & -> & [_ Hin]%list_elem_of_filter)%list_elem_of_fmap. apply Hk. by apply (list_elem_of_fmap_2 fst) in Hin.
Qed.

Lemma sumZ_remove (l : list (string * log_group)) id g :
  NoDup l.*1 → (id, g) ∈ l →
  sumZ (λ x, lg_size x.2) (filter (λ x, x.1 ≠ id) l) = sumZ (λ x, lg_size x.2) l - lg_size g.
Proof.
  induction l as [|[k v] l IH]; [by intros _ ?%not_elem_of_nil|]. cbn [fmap list_fmap fst]. intros [Hk Hd]%NoDup_cons Hin.
  rewrite filter_cons, sumZ_cons. cbn [fst snd]. apply elem_of_cons in Hin as [[= -> ->]|Hin].
  - rewrite decide_False by (intros Hx; by apply Hx). rewrite list_filter_all; [lia|]. apply Forall_forall.
    intros [k' v'] Hx E. cbn in E. subst k'. apply Hk. by apply (list_elem_of_fmap_2 fst) in Hx.
  - rewrite decide_True; [rewrite sumZ_cons, IH by done; cbn; lia|]. intros ->. apply Hk.
    by apply (list_elem_of_fmap_2 fst) in Hin.
Qed.

Section Sound.
Context (h : log_host) (uid : Z) (Hsound : sound_logs h).
Context (references : list (string * bool)) (files0 : log_files) (safe : list (string * log_group)) (unsafe_bytes : Z).

(** What is known of each safe group. *)
Definition known (id : string) (g : log_group) : Prop :=
  scanned uid references files0 id g ∧ NoDup (lg_paths g) ∧ lg_paths g ≠ [] ∧
  ∀ p, p ∈ lg_paths g → _reservation_id_from_log_filename p = Some id.

Hypothesis Hknown : ∀ id g, (id, g) ∈ safe → known id g.

(** The groups that are left have their files, the others have none, and the bytes
    add up. *)
Record accounted_for (s : log_scan) (files : log_files) : Prop := AccountedFor {
  af_sub : ls_groups s ⊆ safe;
  af_keys : NoDup (ls_groups s).*1;
  af_here id g p : (id, g) ∈ ls_groups s → p ∈ lg_paths g → files !! p = files0 !! p;
  af_gone id g : (id, g) ∈ safe → (id, g) ∈ ls_groups s ∨ ∀ p, p ∈ lg_paths g → files !! p = None;
  af_sum : unsafe_bytes + sumZ (λ x, lg_size x.2) (ls_groups s) = log_bytes files;
  af_removed : ls_bytes_removed s + log_bytes files = log_bytes files0;
  af_files : files ⊆ files0;
}.

Lemma private_no_issue files p f : files !! p = Some f → private_log uid f → log_issue h uid files p = None.
Proof.
  intros Hf (Hr & Hu & Hm). unfold log_issue, log_stat. rewrite (sl_stat _ Hsound), Hf, Hr, Hu, Hm. cbn.
  by rewrite Z.eqb_refl.
Qed.

Lemma unlink_all_sound paths files : unlink_all h paths files = (None, delete_all paths files).
Proof.
  revert files. induction paths as [|p paths IH]; intros files; [done|].
  cbn [unlink_all]. rewrite (sl_unlink _ Hsound). by rewrite IH.
Qed.

(** One removal. *)
Lemma remove_group_sound id g s files s' files' :
  accounted_for s files → (id, g) ∈ ls_groups s → remove_group h uid id g s files = (Ok s', files') →
  accounted_for s' files' ∧ ls_groups s' = filter (λ x, x.1 ≠ id) (ls_groups s) ∧ ls_total s' = ls_total s - lg_size g.
Proof.
  intros [Hsub Hk Hhere Hgone Hsum Hrem Hfiles] Hin. destruct (Hknown id g (Hsub _ Hin)) as (Hsc & Hnd & Hne & Hids).
  assert (Hpr : ∀ p, p ∈ lg_paths g → ∃ f, files !! p = Some f ∧ private_log uid f).
  { intros p Hp. rewrite (Hhere id g p Hin Hp). by apply Hsc. }
  unfold remove_group. destruct s as [groups removed failed bytes total warnings]. cbn [ls_groups ls_bytes_removed] in *.
  unfold _remove_log_group. rewrite list_filter_all.
  2:{ apply Forall_forall. intros p Hp. destruct (Hpr p Hp) as (f & -> & _). by exists f. }
  assert (omap (log_issue h uid files) (lg_paths g) = []) as ->.
  { apply omap_nil. intros p Hp. destruct (Hpr p Hp) as (f & ? & ?). by eapply private_no_issue. }
  rewrite unlink_all_sound, bool_decide_false, (sl_sync _ Hsound) by done. intros [= <- <-].
  assert (Hbytes : log_bytes (delete_all (lg_paths g) files) = log_bytes files - lg_size g).
  { rewrite log_bytes_delete_all; [|done|].
    - f_equal. rewrite (sc_size _ _ _ _ _ Hsc). apply sumZ_ext. intros p Hp. unfold bytes_at. by rewrite (Hhere id g p).
    - intros p Hp. rewrite (Hids p Hp). destruct (Hpr p Hp) as (f & -> & _). split; by eexists. }
  split; [|done]. split; cbn [ls_groups ls_bytes_removed].
  - intros x [_ Hx]%list_elem_of_filter. by apply Hsub.
  - by apply NoDup_filter_keys.
  - intros id' g' p [Hid Hin']%list_elem_of_filter Hp. rewrite lookup_delete_all, decide_False; [by eapply Hhere|].
    intros Hp'. apply Hid. cbn. destruct (Hknown id' g' (Hsub _ Hin')) as (_ & _ & _ & Hids').
    specialize (Hids' p Hp). specialize (Hids p Hp'). congruence.
  - intros id' g' Hin'. destruct (Hgone id' g' Hin') as [Hl|Hl].
    + destruct (decide (id' = id)) as [->|Hid]; [right|left; by apply list_elem_of_filter].
      assert (g' = g) as -> by (apply (assoc_get_iff _ _ _ Hk) in Hl; apply (assoc_get_iff _ _ _ Hk) in Hin; congruence).
      intros p Hp. by rewrite lookup_delete_all, decide_True.
    + right. intros p Hp. rewrite lookup_delete_all. case_decide; [done|]. by apply Hl.
  - rewrite Hbytes, (sumZ_remove groups id g) by done. lia.
  - rewrite Hbytes. lia.
  - etrans; [|exact Hfiles]. apply map_subseteq_spec. intros p f. rewrite lookup_delete_all. by case_decide.
Qed.

Lemma retention_sound cutoff groups s files s' files' :
  accounted_for s files → groups ⊆ ls_groups s → NoDup groups.*1 →
  retention h uid cutoff groups s files = (Ok s', files') →
  accounted_for s' files' ∧ ls_groups s' ⊆ ls_groups s ∧
  ∀ id g, (id, g) ∈ groups → (id, g) ∈ ls_groups s' →
    lg_needed g = true ∨ ∃ t, fromtimestamp (lg_modified_at g) = Ok t ∧ cutoff < t.
Proof.
  revert s files. induction groups as [|[id g] groups IH]; intros s files Ha Hsub Hd; cbn [retention].
  { intros [= <- <-]. split; [done|]. split; [done|]. by intros id g ?%not_elem_of_nil. }
  cbn [fmap list_fmap fst] in Hd. apply NoDup_cons in Hd as [Hid Hd].
  assert (Hrest : groups ⊆ ls_groups s) by (intros x Hx; apply Hsub; by right).
  assert (Hskip : (lg_needed g = true ∨ ∃ t, fromtimestamp (lg_modified_at g) = Ok t ∧ cutoff < t) →
    retention h uid cutoff groups s files = (Ok s', files') →
    accounted_for s' files' ∧ ls_groups s' ⊆ ls_groups s ∧
    ∀ id' g', (id', g') ∈ (id, g) :: groups → (id', g') ∈ ls_groups s' →
      lg_needed g' = true ∨ ∃ t, fromtimestamp (lg_modified_at g') = Ok t ∧ cutoff < t).
  { intros Hwhy H. destruct (IH s files Ha Hrest Hd H) as (? & ? & Hall). split; [done|]. split; [done|].
    intros id' g' [[= -> ->]|Hin]%elem_of_cons; [done|by apply (Hall id' g')]. }
  destruct (lg_needed g) eqn:Hn; [apply Hskip; by left|]. unfold mbind, L_bind, l_res.
  destruct (fromtimestamp (lg_modified_at g)) as [t|e] eqn:Ht; [|done].
  destruct (Z.ltb_spec cutoff t); [apply Hskip; right; eauto|].
  destruct (remove_group_ok h uid id g s files) as (s1 & files1 & E). rewrite E. intros H1.
  destruct (remove_group_sound _ _ _ _ _ _ Ha (Hsub (id, g) ltac:(by left)) E) as (Ha1 & Hg1 & _).
  destruct (IH s1 files1 Ha1) as (? & Hs' & Hall); [|done..|].
  { intros [id' g'] Hx. rewrite Hg1. apply list_elem_of_filter. split; [|by apply Hrest]. cbn. intros ->.
    apply Hid. by apply (list_elem_of_fmap_2 fst) in Hx. }
  split; [done|]. split.
  - etrans; [exact Hs'|]. rewrite Hg1. by intros x [_ ?]%list_elem_of_filter.
  - intros id' g' [[= -> ->]|Hin]%elem_of_cons Hl; [|by apply (Hall id' g')].
    apply Hs' in Hl. rewrite Hg1 in Hl. apply list_elem_of_filter in Hl as [Hx _]. by destruct Hx.
Qed.

Lemma enforce_quota_sound quota groups s files s' files' :
  accounted_for s files → ls_total s = log_bytes files → groups ⊆ ls_groups s → NoDup groups.*1 →
  enforce_quota h uid quota groups s files = (Ok s', files') →
  accounted_for s' files' ∧ ls_total s' = log_bytes files' ∧ ls_groups s' ⊆ ls_groups s ∧
  (ls_total s' ≤ quota ∨ ∀ x, x ∈ groups → x ∉ ls_groups s').
Proof.
  revert s files. induction groups as [|[id g] groups IH]; intros s files Ha Ht Hsub Hd; cbn [enforce_quota].
  { intros [= <- <-]. split; [done|]. split; [done|]. split; [done|]. right. by intros x ?%not_elem_of_nil. }
  destruct (Z.leb_spec (ls_total s) quota); [by intros [= <- <-]; split_and!; [..|left]|].
  cbn [fmap list_fmap fst] in Hd. apply NoDup_cons in Hd as [Hid Hd].
  unfold mbind, L_bind. destruct (remove_group_ok h uid id g s files) as (s1 & files1 & E). rewrite E. intros H1.
  destruct (remove_group_sound _ _ _ _ _ _ Ha (Hsub (id, g) ltac:(by left)) E) as (Ha1 & Hg1 & Ht1).
  assert (Hsum1 : ls_total s1 = log_bytes files1).
  { rewrite Ht1, Ht, <- (af_sum _ _ Ha), <- (af_sum _ _ Ha1), Hg1, (sumZ_remove _ id g);
      [lia|apply (af_keys _ _ Ha)|apply Hsub; by left]. }
  destruct (IH s1 files1 Ha1 Hsum1) as (? & ? & Hs' & Hq); [|done..|].
  { intros [id' g'] Hx. rewrite Hg1. apply list_elem_of_filter. split; [|apply Hsub; by right]. cbn. intros ->.
    apply Hid. by apply (list_elem_of_fmap_2 fst) in Hx. }
  split; [done|]. split; [done|]. split.
  - etrans; [exact Hs'|]. rewrite Hg1. by intros x [_ ?]%list_elem_of_filter.
  - destruct Hq as [|Hq]; [by left|right]. intros [id' g'] [[= -> ->]|Hin]%elem_of_cons Hl; [|by apply (Hq (id', g'))].
    apply Hs' in Hl. rewrite Hg1 in Hl. apply list_elem_of_filter in Hl as [Hx _]. by destruct Hx.
Qed.
End Sound.

(** ** The two phases on a sound host *)

Section SoundPhases.
Context (h : log_host) (uid : Z) (Hsound : sound_logs h).
Context (references : list (string * bool)) (files0 : log_files) (safe : list (string * log_group)) (unsafe_bytes : Z).
Hypothesis Hknown : ∀ id g, (id, g) ∈ safe → known uid references files0 id g.
Variables (now : datetime) (retention_days quota : Z).

Abbreviation accounted_for := (accounted_for files0 safe unsafe_bytes).

Lemma accounted_for_total n s files : accounted_for s files → accounted_for (with_total n s) files.
Proof. intros [H1 H2 H3 H4 H5 H6 H7]. by split. Qed.

Lemma retire_sound s files s' files' :
  accounted_for s files → retire h uid now retention_days s files = (Ok s', files') →
  accounted_for s' files' ∧ ls_groups s' ⊆ ls_groups s ∧
  (retention_days ≠ 0 → ∀ id g, (id, g) ∈ ls_groups s' →
    lg_needed g = true ∨ ∃ t, fromtimestamp (lg_modified_at g) = Ok t ∧ now - days retention_days < t).
Proof.
  intros Ha. unfold retire. destruct (Z.eqb_spec retention_days 0); [by intros [= <- <-]|].
  unfold mbind, L_bind, l_res. case_bool_decide; [|done]. intros H1.
  eapply retention_sound in H1 as (Ha' & Hsub & Hall); [|exact Hsound|exact Hknown|done|done|apply (af_keys _ _ _ _ _ Ha)].
  split; [done|]. split; [done|]. intros _ id g Hin. apply (Hall id); [|done]. by apply Hsub.
Qed.

Lemma NoDup_candidates s : NoDup (ls_groups s).*1 → NoDup (candidates s).*1.
Proof.
  intros Hd. unfold candidates. rewrite sort_by_perm. by apply NoDup_filter_keys.
Qed.

Lemma shrink_sound s files s' files' :
  accounted_for s files → ls_total s = log_bytes files → shrink h uid quota s files = (Ok s', files') →
  accounted_for s' files' ∧ ls_total s' = log_bytes files' ∧ ls_groups s' ⊆ ls_groups s ∧
  (quota ≠ 0 → ls_total s' ≤ quota ∨ ∀ id g, (id, g) ∈ ls_groups s' → lg_needed g = true).
Proof.
  intros Ha Ht. unfold shrink.
  destruct (Z.eqb_spec quota 0), (Z.ltb_spec quota (ls_total s)); cbn [negb andb];
    [by intros [= <- <-]|by intros [= <- <-]| |intros [= <- <-]; split_and!; [done..|by left]].
  intros H1. eapply enforce_quota_sound in H1 as (Ha' & Ht' & Hsub & Hq);
    [|exact Hsound|exact Hknown|done|done| |apply NoDup_candidates, (af_keys _ _ _ _ _ Ha)].
  2:{ intros [id g] Hx. by apply elem_of_candidates in Hx as [_ Hx]. }
  split_and!; [done..|]. intros _. destruct Hq as [|Hq]; [by left|right]. intros id g Hin.
  destruct (lg_needed g) eqn:Hn; [done|]. exfalso. apply (Hq (id, g)); [|done].
  apply elem_of_candidates. split; [done|]. by apply Hsub.
Qed.
End SoundPhases.

(** ** The bytes of the listing *)

Lemma sumZ_put {A} (f : string * A → Z) k v d : NoDup d.*1 →
  sumZ f (dict_put k v d) = sumZ f d + f (k, v) - match assoc_get k d with Some old => f (k, old) | None => 0 end.
Proof.
  intros Hd. unfold dict_put. destruct (assoc_get k d) as [old|] eqn:E; [|rewrite sumZ_app, sumZ_cons, sumZ_nil; lia].
  apply assoc_get_iff in E; [|done]. induction d as [|[x y] d IH]; [by apply not_elem_of_nil in E|].
  cbn [fmap list_fmap fst] in *. apply NoDup_cons in Hd as [Hx Hd]. rewrite !sumZ_cons. apply elem_of_cons in E as [[= -> ->]|E].
  - rewrite bool_decide_true by done. enough (sumZ f ((λ '(x0, y0), (x0, if bool_decide (x0 = x) then v else y0)) <$> d) = sumZ f d) by lia.
    f_equal. rewrite <- (list_fmap_id d) at 2. apply list_fmap_ext. intros i [x' y'] Hi. rewrite bool_decide_false; [done|].
    intros ->. apply Hx. by apply list_elem_of_lookup_2, (list_elem_of_fmap_2 fst) in Hi.
  - rewrite bool_decide_false by (intros ->; apply Hx; by apply (list_elem_of_fmap_2 fst) in E). rewrite IH by done. lia.
Qed.

Definition weight_at (files : log_files) (p : string) : Z :=
  match _reservation_id_from_log_filename p with Some _ => bytes_at files p | None => 0 end.

Lemma sumZ_add_path files groups p : NoDup groups.*1 →
  NoDup (add_path groups p).*1 ∧
  sumZ (λ x, sumZ (bytes_at files) x.2) (add_path groups p) = sumZ (λ x, sumZ (bytes_at files) x.2) groups + weight_at files p.
Proof.
  intros Hd. unfold add_path, weight_at. destruct (_reservation_id_from_log_filename p) as [id|]; [|split; [done|lia]].
  split; [by apply dict_put_keys|]. rewrite sumZ_put by done. cbn [snd]. rewrite sumZ_app, sumZ_cons, sumZ_nil.
  destruct (assoc_get id groups); unfold default, Datatypes.id; rewrite ?sumZ_nil; lia.
Qed.

Lemma listing_bytes files listed : listed ≡ₚ (map_to_list files).*1 →
  sumZ (λ x, sumZ (bytes_at files) x.2) (foldl add_path [] listed) = log_bytes files.
Proof.
  intros Hperm.
  assert (Hgen : ∀ names groups, NoDup groups.*1 → sumZ (λ x, sumZ (bytes_at files) x.2) (foldl add_path groups names) =
    sumZ (λ x, sumZ (bytes_at files) x.2) groups + sumZ (weight_at files) names).
  { induction names as [|p names IH]; intros groups Hd; cbn [foldl]; [rewrite sumZ_nil; lia|].
    destruct (sumZ_add_path files groups p Hd) as [Hd' E]. rewrite IH, E, sumZ_cons by done. lia. }
  rewrite Hgen by apply NoDup_nil_2. rewrite sumZ_nil, Hperm. unfold log_bytes.
  assert (Hl : ∀ l, (∀ p f, (p, f) ∈ l → files !! p = Some f) → sumZ (weight_at files) l.*1 = sumZ (λ x, log_weight x.1 x.2) l).
  { induction l as [|[p f] l IH]; [done|]. intros Hall. cbn [fmap list_fmap fst]. rewrite !sumZ_cons, IH by (intros; apply Hall; by right).
    f_equal. unfold weight_at, log_weight, bytes_at. cbn. rewrite (Hall p f) by (by left). by destruct (_reservation_id_from_log_filename p). }
  rewrite Hl; [lia|]. intros p f. apply elem_of_map_to_list.
Qed.

Lemma unsafe_not_private h uid files paths : sound_logs h → (∀ p, p ∈ paths → is_Some (files !! p)) →
  unsafe_paths h uid files paths → ∃ p f, p ∈ paths ∧ files !! p = Some f ∧ ¬ private_log uid f.
Proof.
  intros Hs Hall (p & Hp & [issue Hi]). destruct (Hall p Hp) as [f Hf]. exists p, f. split_and!; [done..|].
  intros Hpr. by rewrite (private_no_issue h uid Hs files p f) in Hi.
Qed.

(** What may keep the log of [id]: a job, a file that is not private, or that it is
    recent where there is a retention and within the quota where there is one. *)
Definition kept_for (a : actor) (l : ledger) (now : datetime) (retention_days quota : Z) (files : log_files)
    (id : string) : Prop :=
  let file_of (P : log_file → Prop) :=
    ∃ name f, _reservation_id_from_log_filename name = Some id ∧ files !! name = Some f ∧ P f in
  log_needed a l now id true ∨ file_of (λ f, ¬ private_log (a_uid a) f) ∨
  ((retention_days ≠ 0 → file_of (λ f, ∃ t, fromtimestamp (lf_mtime f) = Ok t ∧ now - days retention_days < t)) ∧
   (quota ≠ 0 → log_bytes files ≤ quota)).

(** C12: on a sound host the clean-up meets the retention and the quota, as far as
    it may, and its counters are exact. The bytes it reports as removed and retained
    are those that are gone and left; the excess is what is left above the quota; and
    each log that is left is needed by a job, or has a file that is not private, or is
    newer than the retention allows to remove while all logs fit into the quota. *)
Theorem cleanup_job_logs_bounds h getuid a l now retention_days total_max_mb files c files' :
  sound_logs h →
  cleanup_job_logs h getuid a l now retention_days total_max_mb true (Ok tt) files = (Ok c, files') →
  let quota := total_max_mb * (1024 * 1024) in
  lc_bytes_retained c = log_bytes files' ∧
  lc_bytes_removed c = log_bytes files - log_bytes files' ∧
  lc_quota_excess_bytes c = (if quota =? 0 then 0 else Z.max 0 (log_bytes files' - quota)) ∧
  ∀ name f id, files' !! name = Some f → _reservation_id_from_log_filename name = Some id →
    kept_for a l now retention_days quota files' id.
Proof.
  intros Hs. unfold cleanup_job_logs. destruct (negb _); [done|]. unfold mbind, L_bind, l_res, l_files. cbn [negb].
  destruct (_job_log_references l a now) as [refs|] eqn:Hrefs; [|done].
  destruct (sl_listing _ Hs files) as (names & -> & Hperm). set (quota := _ * _). intros Hclean.
  assert (Hnames : ∀ p, p ∈ names ↔ is_Some (files !! p)).
  { intros p. rewrite Hperm, list_elem_of_fmap. split.
    - intros ([q f] & -> & Hq%elem_of_map_to_list). by exists f.
    - intros [f Hf]. exists (p, f). split; [done|]. by apply elem_of_map_to_list. }
  destruct (listed_all names) as (Hd & Hin & Hne & Hall); [rewrite Hperm; apply NoDup_fst_map_to_list|].
  pose proof (clean_groups_thinned h (a_uid a) refs now retention_days quota names _ _ _ _
    (conj Hd (conj Hin (conj Hne Hall))) Hclean) as [_ Hgone].
  destruct (clean_groups_phases _ _ _ _ _ _ _ _ _ _ Hclean) as [(_ & e & [=])|(found & Hscan & Hphases)].
  cbv zeta in Hphases. destruct Hphases as [(e & [=] & _)|(s1 & files1 & s2 & E1 & E2 & [= ->])].
  destruct (scan_spec h (a_uid a) refs files _ _ _ Hscan Hd) as (Hdsafe & _ & Hfound & Hcover & _ & Hsum).
  specialize (Hsum (sl_stat _ Hs)). cbn [ss_unsafe_bytes ss_groups] in Hsum.
  rewrite (listing_bytes _ _ Hperm), sumZ_nil, !Z.add_0_l in Hsum.
  assert (Hknown : ∀ id g, (id, g) ∈ ss_groups found → known (a_uid a) refs files id g).
  { intros id g Hg. destruct (Hfound id g Hg) as [?%not_elem_of_nil|[Hgr Hsc]]; [done|]. destruct (Hne _ _ Hgr).
    split_and!; [done..|]. intros p Hp. by apply (Hin id (lg_paths g)). }
  assert (Ha0 : accounted_for files (ss_groups found) (ss_unsafe_bytes found)
    (LogScan (ss_groups found) 0 (ss_failed found) 0 0 (ss_warnings found)) files) by (split; cbn; auto; lia).
  destruct (retire_sound h (a_uid a) Hs refs files _ _ Hknown now retention_days _ _ _ _ Ha0 E1) as (Ha1 & _ & Hnew).
  destruct (shrink_sound h (a_uid a) Hs refs files _ _ Hknown quota _ _ _ _ (accounted_for_total _ _ _ _ _ _ Ha1)
    (af_sum _ _ _ _ _ Ha1) E2) as (Ha2 & Ht2 & Hsub2 & Hq).
  cbn [clean_result lc_bytes_retained lc_bytes_removed lc_quota_excess_bytes]. rewrite Ht2.
  pose proof (af_removed _ _ _ _ _ Ha2). split_and!; [done|lia|done|].
  intros name f id Hf Hid. unfold kept_for.
  assert (Hf0 : files !! name = Some f) by (eapply lookup_weaken; [exact Hf|apply (af_files _ _ _ _ _ Ha2)]).
  destruct (Hall name id) as (paths & Hgr & Hp); [apply Hnames; eauto|done|].
  destruct (Hcover id paths Hgr) as [Hun|(g & Hg & <-)].
  { right. left. destruct (unsafe_not_private h (a_uid a) files paths Hs) as (p & f' & Hp' & Hf' & Hnp); [|done|].
    - intros q Hq'. apply Hnames. by apply (Hin id paths).
    - exists p, f'. split_and!; [by apply (Hin id paths)| |done]. destruct (files' !! p) as [f''|] eqn:E.
      + pose proof (lookup_weaken _ _ _ _ E (af_files _ _ _ _ _ Ha2)). congruence.
      + by destruct (Hgone p f' Hf' E). }
  destruct (af_gone _ _ _ _ _ Ha2 id g Hg) as [Hg2|Hno]; [|rewrite (Hno name Hp) in Hf; done].
  destruct (Hknown id g Hg) as (Hsc & _ & Hnil & Hids). destruct (lg_needed g) eqn:Hn.
  { left. rewrite (sc_needed _ _ _ _ _ Hsc) in Hn.
    destruct (proj2 (log_references_spec _ _ _ _ _ id Hrefs) Hn) as [|(r & j & ?)]; [done|]. by exists r, j. }
  right. right. split.
  - intros Hr. destruct (Hnew Hr id g (Hsub2 _ Hg2)) as [|(t & Ht & Hlt)]; [congruence|].
    destruct (sc_modified _ _ _ _ _ Hsc Hnil) as (p & f' & Hp' & Hf' & Hm). exists p, f'.
    split_and!; [by apply Hids|by rewrite (af_here _ _ _ _ _ Ha2 id g p)|]. exists t. by rewrite <- Hm.
  - intros Hq0. rewrite <- Ht2. destruct (Hq Hq0) as [|Hneed]; [done|]. specialize (Hneed id g Hg2). congruence.
Qed.

(** ** Examples *)

(** The logs of a job that is over and of one that failed in a window that has not
    ended; a file that is no log. *)
Definition over_id : string := spec_id0.
Definition failed_id : string := "22345678-1234-4234-8234-123456789abc".

Definition log_record (id status : string) (end_at : datetime) : reservation :=
  Reservation id None 1000 (Some "ada") [0] MODE_SHARED 0 end_at STATUS_ACTIVE None None None None None
    (Some {["status" := JStr status]}) (Some []) None (Some []).

Definition log_ledger : ledger :=
  Ledger [log_record over_id JOB_SUCCEEDED (hours 1); log_record failed_id JOB_FAILED (days 60)] None [] None.

Definition old_logs : log_files :=
  let f := LogFile true 1000 384 (float_of_Z 0) 500 in
  {[over_id +:+ ".log" := f; over_id +:+ ".log.1" := f; failed_id +:+ ".log" := f; "notes.txt" := f]}.

Definition sound_log_host : log_host :=
  LogHost (λ _, None) (λ _, None) None (λ files, Ok (map_to_list files).*1).

Lemma sound_log_host_sound : sound_logs sound_log_host.
Proof. split; [done..|]. intros files. by exists (map_to_list files).*1. Qed.

Lemma sound_listing h files names : sound_logs h → lh_listing h files = Ok names → NoDup names.
Proof.
  intros Hs. destruct (sl_listing _ Hs files) as (listed & -> & Hperm). intros [= <-].
  rewrite Hperm. apply NoDup_fst_map_to_list.
Qed.

Definition clean_old : res log_cleanup * log_files :=
  cleanup_job_logs sound_log_host 1000 ada log_ledger (days 40) 30 1 true (Ok tt) old_logs.

Lemma cleanup_job_logs_safe_witness :
  clean_old.1 = Ok (JobLogCleanupResult 1 1 0 1000 500 0 []) ∧
  clean_old.2 !! (over_id +:+ ".log") = None ∧ clean_old.2 !! (over_id +:+ ".log.1") = None ∧
  is_Some (clean_old.2 !! (failed_id +:+ ".log")) ∧ clean_old.2 ⊆ old_logs ∧
  ∃ id, _reservation_id_from_log_filename (over_id +:+ ".log") = Some id ∧ ¬ log_needed ada log_ledger (days 40) id true.
Proof.
  assert (Hgone : clean_old.2 !! (over_id +:+ ".log") = None) by (vm_compute; reflexivity).
  split; [vm_compute; reflexivity|]. split; [exact Hgone|]. split; [vm_compute; reflexivity|].
  split; [vm_compute; eexists; reflexivity|].
  destruct (cleanup_job_logs_safe sound_log_host 1000 ada log_ledger (days 40) 30 1 true (Ok tt) old_logs
    clean_old.1 clean_old.2) as [Hsub Hall].
  - intros names. apply sound_listing, sound_log_host_sound.
  - exact (surjective_pairing clean_old).
  - split; [exact Hsub|].
    by apply (Hall (over_id +:+ ".log") (LogFile true 1000 384 (float_of_Z 0) 500)); [vm_compute; reflexivity|].
Defined.

Lemma cleanup_job_logs_bounds_witness :
  ∃ c, clean_old.1 = Ok c ∧ lc_bytes_retained c = log_bytes clean_old.2 ∧ log_bytes clean_old.2 = 500 ∧
    kept_for ada log_ledger (days 40) 30 (1 * (1024 * 1024)) clean_old.2 failed_id.
Proof.
  assert (Hr : clean_old.1 = Ok (JobLogCleanupResult 1 1 0 1000 500 0 [])) by (vm_compute; reflexivity).
  eexists. split; [exact Hr|].
  destruct (cleanup_job_logs_bounds sound_log_host 1000 ada log_ledger (days 40) 30 1 old_logs
    (JobLogCleanupResult 1 1 0 1000 500 0 []) clean_old.2) as (Hb & _ & _ & Hkept).
  - exact sound_log_host_sound.
  - rewrite <- Hr. exact (surjective_pairing clean_old).
  - split; [exact Hb|]. split; [vm_compute; reflexivity|].
    apply (Hkept (failed_id +:+ ".log") (LogFile true 1000 384 (float_of_Z 0) 500)); vm_compute; reflexivity.
Defined.
