(* ===== verification/BrokerProtocol.v ===== *)
(** * BrokerProtocol: requests to the broker ([src/src/bk/broker.py])

    Where the ledger belongs to a service account, users reach it through a socket.
    A request is one JSON object in a frame with its length in front; the broker
    takes the identity of the caller from the kernel and answers with one frame.
    This file models the frames, the coding of requests, the dispatch up to the call
    it makes, and the client; the transactions on jobs are in BrokerJobs. *)

From S2P Require Import Prelude PyBase Json Files Timeparse Models Config Jsonl Requests.
From S2P Require Import LedgerSchema Documents JobSpecs Announcements Booking System.

Definition BROKER_SCHEMA_VERSION : string := "gpubk.broker.v1".
Definition BROKER_MAX_FRAME_BYTES : Z := 1024 * 1024.

Abbreviation payload := (list (string * json)) (only parsing).

(** ** Frames *)

(** [struct.pack("!I", n)] and back *)
Definition pack_length (n : Z) : bytes :=
  (λ k, ascii_of_N (Z.to_N (n / k mod 256))) <$> [2 ^ 24; 2 ^ 16; 2 ^ 8; 1].

Definition unpack_length (header : bytes) : Z := foldl (λ n c, 256 * n + Z.of_N (code c)) 0 header.

(** The bytes that are sent. *)
Definition _send_frame (document : json) : res bytes :=
  text ← dumps_nan compact document;
  let payload := utf8_encode text in
  if BROKER_MAX_FRAME_BYTES <? size payload then Raise (BookingError "broker message exceeds 1 MiB")
  else Ok (pack_length (size payload) ++ payload).

(** What the other side still sends, in the pieces in which it arrives. An empty piece
    is the end. *)
Inductive arrival :=
  | Arrives (data : bytes)
  | Breaks (message : string).

(** Code that reads from a connection, also when it raises. *)
Definition C (A : Type) : Type := list arrival → res A * list arrival.

#[export] Instance C_ret : MRet C := λ A a c, (Ok a, c).
#[export] Instance C_bind : MBind C := λ A B f m c,
  match m c with (Ok a, c) => f a c | (Raise e, c) => (Raise e, c) end.

Definition c_res {A} (r : res A) : C A := λ c, (r, c).

(** [connection.recv(length)] *)
Definition recv (length : Z) : C bytes := λ c,
  match c with
  | [] => (Ok [], [])
  | Breaks message :: c => (Raise (OSError message), c)
  | Arrives data :: c =>
      (Ok (take (Z.to_nat length) data),
       match drop (Z.to_nat length) data with [] => c | rest => Arrives rest :: c end)
  end.

(** The loop of [_receive_exact]; each round reads a byte or ends. *)
Fixpoint receive_loop (fuel : nat) (length : Z) (chunks : bytes) : C bytes :=
  if length <=? size chunks then mret chunks else
  match fuel with
  | O => mret chunks
  | S fuel =>
      chunk ← recv (length - size chunks);
      if bool_decide (chunk = [])
      then c_res (Raise (BookingError "broker connection closed before the frame completed"))
      else receive_loop fuel length (chunks ++ chunk)
  end.

Definition _receive_exact (length : Z) : C bytes := receive_loop (Z.to_nat length) length [].

Definition _receive_frame : C payload :=
  header ← _receive_exact 4;
  let length := unpack_length header in
  if (length <? 2) || (BROKER_MAX_FRAME_BYTES <? length)
  then c_res (Raise (BookingError "invalid broker frame length")) else
  data ← _receive_exact length;
  c_res (match loads data with
         | None => Raise (BookingError "broker message is not valid UTF-8 JSON")
         | Some (JObj document) => Ok document
         | Some _ => Raise (BookingError "broker message must be a JSON object")
         end).

(** ** Fields of a payload *)

Definition _require_keys (value : payload) (allowed required : list string) (label : string) : res unit :=
  let unknown := sort_by String.leb (filter (λ k, k ∉ allowed) value.*1) in
  if negb (bool_decide (unknown = []))
  then Raise (BookingError (label +:+ " contains unknown field(s): " +:+ join ", " unknown)) else
  let missing := sort_by String.leb (filter (λ k, k ∉ value.*1) required) in
  if negb (bool_decide (missing = []))
  then Raise (BookingError (label +:+ " is missing field(s): " +:+ join ", " missing))
  else Ok tt.

Definition _string (value : json) (label : string) : res string :=
  let bad := Raise (BookingError (label +:+ " must be a non-empty string")) in
  match value with
  | JStr s => if bool_decide (s = "") then bad else Ok s
  | _ => bad
  end.

Definition _integer (value : json) (label : string) : res Z :=
  match value with JInt z => Ok z | _ => Raise (BookingError (label +:+ " must be an integer")) end.

Definition _boolean (value : json) (label : string) : res bool :=
  match value with JBool b => Ok b | _ => Raise (BookingError (label +:+ " must be a boolean")) end.

(** [None if value is None else decode(value)] *)
Definition optional_field {A} (decode : json → res A) (value : json) : res (option A) :=
  match value with JNull => Ok None | v => a ← decode v; Ok (Some a) end.

Definition _optional_string (value : json) (label : string) : res (option string) :=
  optional_field (λ v, _string v label) value.

Definition _optional_integer (value : json) (label : string) : res (option Z) :=
  optional_field (λ v, _integer v label) value.

Definition _optional_int_list (value : json) (label : string) : res (option (list Z)) :=
  optional_field (λ v, match v with
    | JList l => map_res (λ item, _integer item label) l
    | _ => Raise (BookingError (label +:+ " must be an integer array"))
    end) value.

Definition _optional_string_list (value : json) (label : string) : res (option (list string)) :=
  optional_field (λ v, match v with
    | JList l => map_res (λ item, _string item label) l
    | _ => Raise (BookingError (label +:+ " must be a string array"))
    end) value.

(** ** Requests *)

Definition json_option {A} (f : A → json) (o : option A) : json := match o with Some a => f a | None => JNull end.

Definition json_ints (l : list Z) : json := JList (JInt <$> l).

(** A member that is sent only when it is set. *)
Definition excluded_member (excluded : option (list Z)) : payload :=
  match excluded with Some l => [("excluded_gpus", json_ints l)] | None => [] end.

Definition _booking_request_payload (r : booking_request) : payload :=
  [("count", JInt (b_count r)); ("duration_seconds", JInt (b_duration_seconds r));
   ("start_at", JStr (to_iso (b_start_at r))); ("mode", JStr (b_mode r));
   ("preferred_gpus", json_option json_ints (b_preferred_gpus r));
   ("op_id", json_option JStr (b_op_id r)); ("allow_queue", JBool (b_allow_queue r));
   ("job_spec_id", json_option JStr (b_job_spec_id r)); ("job_digest", json_option JStr (b_job_digest r));
   ("job_summary", json_option JStr (b_job_summary r));
   ("job_digest_aliases", json_option (λ l, JList (JStr <$> l)) (b_job_digest_aliases r));
   ("expected_memory_mb", json_option JInt (b_expected_memory_mb r));
   ("share_units", json_option JInt (b_share_units r))] ++ excluded_member (b_excluded_gpus r).

Definition _edit_request_payload (r : edit_request) : payload :=
  [("reservation_id", JStr (e_reservation_id r)); ("op_id", json_option JStr (e_op_id r));
   ("start_at", json_option (λ t, JStr (to_iso t)) (e_start_at r));
   ("duration_seconds", json_option JInt (e_duration_seconds r)); ("mode", json_option JStr (e_mode r));
   ("preferred_gpus", json_option json_ints (e_preferred_gpus r)); ("count", json_option JInt (e_count r));
   ("allow_queue", JBool (e_allow_queue r)); ("expected_memory_mb", json_option JInt (e_expected_memory_mb r));
   ("update_expected_memory", JBool (e_update_expected_memory r));
   ("share_units", json_option JInt (e_share_units r));
   ("update_share_units", JBool (e_update_share_units r))] ++ excluded_member (e_excluded_gpus r).

Definition booking_fields : list string :=
  ["count"; "duration_seconds"; "start_at"; "mode"; "preferred_gpus"; "excluded_gpus"; "op_id";
   "allow_queue"; "job_spec_id"; "job_digest"; "job_summary"; "job_digest_aliases";
   "expected_memory_mb"; "share_units"].

Definition edit_fields : list string :=
  ["reservation_id"; "op_id"; "start_at"; "duration_seconds"; "mode"; "preferred_gpus"; "excluded_gpus";
   "count"; "allow_queue"; "expected_memory_mb"; "update_expected_memory"; "share_units";
   "update_share_units"].

(** [payload.get(key, False)] *)
Definition flag (key : string) (p : payload) : json := default (JBool false) (assoc_get key p).

Definition _decode_booking_request (p : payload) (a : actor) : res booking_request :=
  let field {A} (decode : json → string → res A) key := decode (dict_get key p) key in
  _ ← _require_keys p booking_fields ["count"; "duration_seconds"; "start_at"; "mode"] "booking payload";
  count ← field _integer "count";
  duration ← field _integer "duration_seconds";
  start_text ← field _string "start_at";
  start ← parse_iso start_text;
  mode ← field _string "mode";
  preferred ← field _optional_int_list "preferred_gpus";
  excluded ← field _optional_int_list "excluded_gpus";
  op_id ← field _optional_string "op_id";
  allow_queue ← _boolean (flag "allow_queue" p) "allow_queue";
  spec_id ← field _optional_string "job_spec_id";
  digest ← field _optional_string "job_digest";
  summary ← field _optional_string "job_summary";
  aliases ← field _optional_string_list "job_digest_aliases";
  memory ← field _optional_integer "expected_memory_mb";
  share_units ← field _optional_integer "share_units";
  Ok (BookingRequest a count duration start mode preferred None None op_id allow_queue spec_id digest
        summary aliases memory None share_units excluded).

Definition _decode_edit_request (p : payload) (a : actor) : res edit_request :=
  let field {A} (decode : json → string → res A) key := decode (dict_get key p) key in
  _ ← _require_keys p edit_fields ["reservation_id"] "edit payload";
  reservation_id ← field _string "reservation_id";
  op_id ← field _optional_string "op_id";
  start ← optional_field (λ v, s ← _string v "start_at"; parse_iso s) (dict_get "start_at" p);
  duration ← field _optional_integer "duration_seconds";
  mode ← field _optional_string "mode";
  preferred ← field _optional_int_list "preferred_gpus";
  excluded ← field _optional_int_list "excluded_gpus";
  count ← field _optional_integer "count";
  allow_queue ← _boolean (flag "allow_queue" p) "allow_queue";
  memory ← field _optional_integer "expected_memory_mb";
  update_memory ← _boolean (flag "update_expected_memory" p) "update_expected_memory";
  share_units ← field _optional_integer "share_units";
  update_share ← _boolean (flag "update_share_units" p) "update_share_units";
  Ok (EditRequest a reservation_id op_id start duration mode preferred None None count allow_queue memory
        update_memory None share_units update_share excluded).

(** ** The dispatch *)

(** The telemetry the broker adds to a request ([advisor.py]). *)
Record gpu_advice := GpuAdvice {
  ga_order : list Z;
  ga_scores : list (Z * pyfloat);
  ga_memory_capacities_mb : list (Z * Z);
}.

Definition advised_booking (g : gpu_advice) (r : booking_request) : booking_request :=
  BookingRequest (b_actor r) (b_count r) (b_duration_seconds r) (b_start_at r) (b_mode r)
    (b_preferred_gpus r) (Some (ga_order g)) (Some (ga_scores g)) (b_op_id r) (b_allow_queue r)
    (b_job_spec_id r) (b_job_digest r) (b_job_summary r) (b_job_digest_aliases r)
    (b_expected_memory_mb r) (Some (ga_memory_capacities_mb g)) (b_share_units r) (b_excluded_gpus r).

Definition advised_edit (g : gpu_advice) (r : edit_request) : edit_request :=
  EditRequest (e_actor r) (e_reservation_id r) (e_op_id r) (e_start_at r) (e_duration_seconds r)
    (e_mode r) (e_preferred_gpus r) (Some (ga_order g)) (Some (ga_scores g)) (e_count r)
    (e_allow_queue r) (e_expected_memory_mb r) (e_update_expected_memory r)
    (Some (ga_memory_capacities_mb g)) (e_share_units r) (e_update_share_units r) (e_excluded_gpus r).

(** What a request asks for; a call of the scheduler has its arguments decoded. *)
Inductive served :=
  | Pong
  | LedgerSnapshot
  | CommitOwnJob (p : payload)
  | CommitOwnJobPatch (p : payload)
  | Scheduler (k : call).

(** [parse_iso(raw) if isinstance(raw, str) else None] *)
Definition optional_time (v : json) : res (option datetime) :=
  match v with JStr s => t ← parse_iso s; Ok (Some t) | _ => Ok None end.

Definition reservation_token (p : payload) : res string :=
  match dict_get "reservation_id" p with
  | JStr s => if bool_decide (s = "") then Raise (BookingError "reservation_id is required") else Ok s
  | _ => Raise (BookingError "reservation_id is required")
  end.

Definition expiry_seconds (v : json) : res Z :=
  match v with JInt z => Ok z | _ => Raise (BookingError "expires_in_seconds must be an integer") end.

Definition read_operation (advice : res gpu_advice) (operation : string) (p : payload) (a : actor) : res served :=
  if bool_decide (operation = "ping") then
    _ ← _require_keys p [] [] "ping payload"; Ok Pong
  else if bool_decide (operation = "ledger.snapshot") then
    _ ← _require_keys p [] [] "ledger snapshot payload"; Ok LedgerSnapshot
  else if bool_decide (operation = "ledger.commit-own-job") then Ok (CommitOwnJob p)
  else if bool_decide (operation = "ledger.commit-own-job-patch") then Ok (CommitOwnJobPatch p)
  else if bool_decide (operation = "booking.add") then
    r ← _decode_booking_request p a; g ← advice; Ok (Scheduler (Add (advised_booking g r)))
  else if bool_decide (operation = "booking.edit") then
    r ← _decode_edit_request p a; g ← advice; Ok (Scheduler (EditCall (advised_edit g r)))
  else if bool_decide (operation = "booking.cancel") then
    _ ← _require_keys p ["reservation_id"; "op_id"] [] "cancellation payload";
    id ← reservation_token p;
    op_id ← _optional_string (dict_get "op_id" p) "op_id";
    Ok (Scheduler (CancelOwn id a op_id))
  else if bool_decide (operation = "booking.admin-cancel") then
    _ ← _require_keys p ["reservation_id"; "reason"] ["reservation_id"; "reason"]
          "administrator cancellation payload";
    id ← reservation_token p;
    match dict_get "reason" p with
    | JStr reason => Ok (Scheduler (CancelAsAdmin id a (JStr reason)))
    | _ => Raise (BookingError "administrator cancellation reason is required")
    end
  else if bool_decide (operation = "announcement.publish") then
    _ ← _require_keys p ["message"; "level"; "expires_in_seconds"; "starts_at"]
          ["message"; "level"; "expires_in_seconds"] "announcement payload";
    message ← _string (dict_get "message" p) "message";
    level ← _string (dict_get "level" p) "level";
    expiry ← expiry_seconds (dict_get "expires_in_seconds" p);
    starts ← optional_time (dict_get "starts_at" p);
    Ok (Scheduler (Notice a (Publish message level expiry starts)))
  else if bool_decide (operation ∈ ["announcement.archive"; "announcement.remove"]) then
    _ ← _require_keys p ["id"] ["id"] "announcement removal";
    token ← _string (dict_get "id" p) "id";
    Ok (Scheduler (Notice a (Archive token)))
  else if bool_decide (operation = "announcement.edit") then
    _ ← _require_keys p ["id"; "message"; "level"; "expires_in_seconds"; "starts_at"; "expires_at"] ["id"]
          "announcement edit";
    token ← _string (dict_get "id" p) "id";
    message ← _optional_string (dict_get "message" p) "message";
    level ← _optional_string (dict_get "level" p) "level";
    expiry ← optional_field expiry_seconds (dict_get "expires_in_seconds" p);
    starts ← optional_time (dict_get "starts_at" p);
    expires ← optional_time (dict_get "expires_at" p);
    Ok (Scheduler (Notice a (EditNotice token message level expiry starts expires)))
  else Raise (BookingError ("unsupported broker operation: " +:+ operation)).

Definition request_fields : list string := ["schema_version"; "request_id"; "operation"; "payload"].

(** [_dispatch], up to the call. *)
Definition read_request (advice : res gpu_advice) (request : payload) (a : actor) : res served :=
  _ ← _require_keys request request_fields request_fields "broker request";
  if negb (bool_decide (read_text (dict_get "schema_version" request) = Some BROKER_SCHEMA_VERSION))
  then Raise (BookingError "unsupported broker protocol version") else
  match uuid_text (str_value (dict_get "request_id" request)) with
  | None => Raise (BookingError "invalid broker request ID")
  | Some _ =>
      match dict_get "operation" request, dict_get "payload" request with
      | JStr operation, JObj p => read_operation advice operation p a
      | _, _ => Raise (BookingError "broker operation and payload are required")
      end
  end.

(** ** The server and the client *)

(** [except (BookingError, ValueError, TypeError, KeyError, OSError)] *)
Definition is_answered (e : exn) : bool :=
  match e with
  | BookingError _ | ValueError _ | TypeError _ | KeyError _ | OSError _ | LedgerCorruptionError _ => true
  | OverflowError _ | RuntimeError _ | AssertionError => false
  end.

Definition type_name (e : exn) : string :=
  match e with
  | BookingError _ => "BookingError"
  | ValueError _ => "ValueError"
  | OverflowError _ => "OverflowError"
  | TypeError _ => "TypeError"
  | KeyError _ => "KeyError"
  | OSError _ => "OSError"
  | LedgerCorruptionError _ => "LedgerCorruptionError"
  | RuntimeError _ => "RuntimeError"
  | AssertionError => "AssertionError"
  end.

Definition response (request_id : json) (result : res json) : res json :=
  match result with
  | Ok v =>
      Ok (JObj [("schema_version", JStr BROKER_SCHEMA_VERSION); ("request_id", request_id);
                ("ok", JBool true); ("result", v)])
  | Raise e =>
      if is_answered e then
        Ok (JObj [("schema_version", JStr BROKER_SCHEMA_VERSION); ("request_id", request_id);
                  ("ok", JBool false);
                  ("error", JObj [("type", JStr (type_name e)); ("message", JStr (error_text e))])])
      else Raise e
  end.

(** [_handle]: the frame of the answer; [serve] is [_dispatch] and [peer] the
    credentials of the kernel. *)
Definition _handle (peer : res actor) (serve : payload → actor → res json) (c : list arrival) : res bytes :=
  document ← match peer with
    | Raise e => response JNull (Raise e)
    | Ok a =>
        match (_receive_frame c).1 with
        | Raise e => response JNull (Raise e)
        | Ok request => response (dict_get "request_id" request) (serve request a)
        end
    end;
  _send_frame document.

Definition request_members (request_id operation : string) (p : payload) : payload :=
  [("schema_version", JStr BROKER_SCHEMA_VERSION); ("request_id", JStr request_id);
   ("operation", JStr operation); ("payload", JObj p)].

Definition request_document (request_id operation : string) (p : payload) : json :=
  JObj (request_members request_id operation p).

Definition truthy (v : json) : bool :=
  match v with
  | JNull => false
  | JBool b => b
  | JInt z => negb (z =? 0)
  | JFloat f => negb (feq f (float_of_Z 0))
  | JStr s => negb (bool_decide (s = ""))
  | JList l => negb (bool_decide (l = []))
  | JObj kvs => negb (bool_decide (kvs = []))
  end.

(** [str(message or "broker rejected the request")] *)
Definition rejection (error : json) : string :=
  let message := match error with JObj kvs => dict_get "message" kvs | _ => JNull end in
  if truthy message then str_value message else "broker rejected the request".

(** What the client makes of the answer. *)
Definition read_response (request_id : string) (answer : payload) : res json :=
  if negb (bool_decide (read_text (dict_get "schema_version" answer) = Some BROKER_SCHEMA_VERSION))
  then Raise (BookingError "broker returned an unsupported protocol version")
  else if negb (bool_decide (read_text (dict_get "request_id" answer) = Some request_id))
  then Raise (BookingError "broker response request ID does not match")
  else match dict_get "ok" answer with
       | JBool true => Ok (dict_get "result" answer)
       | _ => Raise (BookingError (rejection (dict_get "error" answer)))
       end.

Section Client.
Variable socket_path : string.

Definition unavailable (e : exn) : exn :=
  if is_os_error e
  then BookingError ("GPUBK broker is unavailable at " +:+ socket_path +:+ ": " +:+ error_text e) else e.

(** [BrokerClient.call] after the socket is found safe; [exchange] connects, sends
    the request and gives what arrives. *)
Definition client_call (exchange : bytes → res (list arrival)) (request_id operation : string) (p : payload)
    : res json :=
  let answer := (frame ← _send_frame (request_document request_id operation p);
                 c ← exchange frame;
                 (_receive_frame c).1) in
  match answer with
  | Raise e => Raise (unavailable e)
  | Ok answer => read_response request_id answer
  end.
End Client.

(** ** Frames arrive as they were sent *)

(** A connection on which data still comes, and the data. *)
Definition flowing (c : list arrival) : Prop := ∀ x, x ∈ c → ∃ data, x = Arrives data ∧ data ≠ [].

Definition stream (c : list arrival) : bytes := c ≫= λ x, match x with Arrives data => data | Breaks _ => [] end.

Lemma flowing_cons data c : flowing (Arrives data :: c) ↔ data ≠ [] ∧ flowing c.
Proof.
  split.
  - intros H. split; [|intros x Hx; apply H; by right]. destruct (H (Arrives data)) as (? & [= ->] & ?); [by left|done].
  - intros [Hd H] x [->|Hx]%elem_of_cons; [by exists data|by apply H].
Qed.

Lemma size_zero (d : bytes) : size d = 0 ↔ d = [].
Proof. unfold size. destruct d; cbn; [done|]. split; [lia|done]. Qed.

Lemma recv_flowing n c : 0 < n → flowing c → stream c ≠ [] →
  ∃ d c', recv n c = (Ok d, c') ∧ d ≠ [] ∧ size d ≤ n ∧ flowing c' ∧ stream c = d ++ stream c'.
Proof.
  intros Hn Hc Hs. destruct c as [|[data|message] c]; [done| |destruct (Hc (Breaks message)) as (? & [=] & _); by left].
  apply flowing_cons in Hc as [Hd Hc]. exists (take (Z.to_nat n) data).
  eexists. split; [reflexivity|]. split_and!.
  - destruct data; [done|]. by destruct (Z.to_nat n) eqn:E; [lia|].
  - unfold size. rewrite length_take. lia.
  - destruct (drop (Z.to_nat n) data) eqn:E; [done|]. by apply flowing_cons.
  - change (stream (Arrives data :: c)) with (data ++ stream c).
    rewrite <- (take_drop (Z.to_nat n) data) at 1. rewrite <- app_assoc. f_equal.
    by destruct (drop (Z.to_nat n) data).
Qed.

Lemma recv_end n c : flowing c → stream c = [] → recv n c = (Ok [], []).
Proof.
  intros Hc Hs. destruct c as [|[data|message] c]; [done| |destruct (Hc (Breaks message)) as (? & [=] & _); by left].
  apply flowing_cons in Hc as [Hd _]. by destruct data.
Qed.

Definition closed_early : exn := BookingError "broker connection closed before the frame completed".

Lemma receive_loop_spec fuel n chunks c :
  flowing c → size chunks ≤ n → n - size chunks ≤ Z.of_nat fuel →
  if n <=? size chunks + size (stream c)
  then ∃ d c', receive_loop fuel n chunks c = (Ok (chunks ++ d), c') ∧ size (chunks ++ d) = n ∧
         stream c = d ++ stream c' ∧ flowing c'
  else receive_loop fuel n chunks c = (Raise closed_early, []).
Proof.
  revert chunks c. induction fuel as [|fuel IH]; intros chunks c Hc Hle Hf.
  { assert (size chunks = n) by lia. rewrite (proj2 (Z.leb_le _ _)) by (pose proof (size_nonneg (stream c)); lia).
    exists [], c. cbn. rewrite (proj2 (Z.leb_le _ _)) by lia. by rewrite app_nil_r. }
  cbn [receive_loop]. destruct (Z.leb_spec n (size chunks)) as [Hn|Hn].
  { rewrite (proj2 (Z.leb_le _ _)) by (pose proof (size_nonneg (stream c)); lia).
    exists [], c. rewrite app_nil_r. split_and!; [done|lia|done..]. }
  unfold mbind, C_bind. destruct (decide (stream c = [])) as [E|E].
  { rewrite E, (recv_end _ _ Hc E). rewrite (proj2 (Z.leb_gt _ _)) by (change (size []) with 0; lia). done. }
  destruct (recv_flowing (n - size chunks) c) as (d & c' & -> & Hd & Hsize & Hc' & Hs); [lia|done..|].
  rewrite bool_decide_false by done. specialize (IH (chunks ++ d) c' Hc').
  rewrite size_app in IH. rewrite Hs, size_app, Z.add_assoc. rewrite <- size_zero in Hd. pose proof (size_nonneg d).
  specialize (IH ltac:(lia) ltac:(lia)). destruct (n <=? size chunks + size d + size (stream c')); [|done].
  destruct IH as (d' & c'' & Hrun & Hn' & Hs' & Hf'). exists (d ++ d'), c''.
  rewrite Hs', !app_assoc. by split_and!.
Qed.

Lemma receive_exact_spec n c : 0 ≤ n → flowing c →
  if n <=? size (stream c)
  then ∃ d c', _receive_exact n c = (Ok d, c') ∧ size d = n ∧ stream c = d ++ stream c' ∧ flowing c'
  else _receive_exact n c = (Raise closed_early, []).
Proof.
  intros Hn Hc. unfold _receive_exact.
  pose proof (receive_loop_spec (Z.to_nat n) n [] c Hc ltac:(change (size []) with 0; lia) ltac:(change (size []) with 0; lia)) as H. cbn [app] in H.
  change (size []) with 0 in H. rewrite Z.add_0_l in H. done.
Qed.

Lemma unpack_pack n : 0 ≤ n < 2 ^ 32 → unpack_length (pack_length n) = n.
Proof.
  intros Hn. unfold pack_length, unpack_length. cbn [fmap list_fmap foldl].
  assert (Hc : ∀ m, Z.of_N (code (ascii_of_N (Z.to_N (m mod 256)))) = m mod 256).
  { intros m. pose proof (Z.mod_pos_bound m 256 ltac:(done)). unfold code. rewrite N_ascii_embedding; lia. }
  rewrite !Hc. change (2 ^ 24) with 16777216. change (2 ^ 16) with 65536. change (2 ^ 8) with 256.
  change (2 ^ 32) with 4294967296 in Hn. lia.
Qed.

(** The text of a document, as it is sent. *)
Definition frame_text (v : json) : bytes := utf8_encode (print_value compact 0 v).

Definition fits (v : json) : bool := size (frame_text v) <=? BROKER_MAX_FRAME_BYTES.

Lemma send_frame_readable v : readable v →
  _send_frame v = if fits v then Ok (pack_length (size (frame_text v)) ++ frame_text v)
                  else Raise (BookingError "broker message exceeds 1 MiB").
Proof.
  intros Hr. unfold _send_frame, dumps_nan. rewrite readable_printable by done. cbn [mbind res_bind].
  unfold fits. fold (frame_text v). destruct (Z.ltb_spec BROKER_MAX_FRAME_BYTES (size (frame_text v))).
  - by rewrite (proj2 (Z.leb_gt _ _)).
  - by rewrite (proj2 (Z.leb_le _ _)).
Qed.

Lemma utf8_encode_size l : (length l ≤ length (utf8_encode l))%nat.
Proof.
  unfold utf8_encode. induction l as [|c l IH]; [done|]. cbn. rewrite length_app.
  assert (1 ≤ length (utf8_char c))%nat by (unfold utf8_char; case_match; cbn; lia). lia.
Qed.

Lemma frame_text_object kvs : 2 ≤ size (frame_text (JObj kvs)).
Proof.
  unfold frame_text, size. pose proof (utf8_encode_size (print_value compact 0 (JObj kvs))) as H.
  assert (2 ≤ length (print_value compact 0 (JObj kvs)))%nat; [|lia].
  cbn [print_value]. unfold print_items. case_match; cbn; [lia|]. rewrite !length_app. cbn. lia.
Qed.

Lemma receive_sent document frame rest c :
  readable (JObj document) → _send_frame (JObj document) = Ok frame → flowing c → stream c = frame ++ rest →
  ∃ c', _receive_frame c = (Ok (canonical_members document), c') ∧ stream c' = rest ∧ flowing c'.
Proof.
  intros Hr Hf Hc Hs. rewrite send_frame_readable in Hf by done. unfold fits in Hf.
  destruct (Z.leb_spec (size (frame_text (JObj document))) BROKER_MAX_FRAME_BYTES) as [Hsize|]; [|done].
  set (data := frame_text (JObj document)) in *. assert (frame = pack_length (size data) ++ data) as -> by congruence. rewrite <- app_assoc in Hs.
  pose proof (frame_text_object document) as Htwo. fold data in Htwo. unfold BROKER_MAX_FRAME_BYTES in Hsize.
  unfold _receive_frame. unfold mbind at 1, C_bind at 1.
  pose proof (receive_exact_spec 4 c ltac:(done) Hc) as H.
  rewrite Hs, !size_app in H. change (size (pack_length (size data))) with 4 in H. pose proof (size_nonneg rest).
  rewrite (proj2 (Z.leb_le _ _)) in H by lia. destruct H as (h & c1 & -> & Hh & Hs1 & Hc1).
  apply app_inj_1 in Hs1 as [<- Hs1]; [|unfold size in Hh; cbn; lia].
  rewrite unpack_pack by lia. destruct (Z.ltb_spec (size data) 2); [lia|].
  destruct (Z.ltb_spec BROKER_MAX_FRAME_BYTES (size data)) as [Hbig|_]; [unfold BROKER_MAX_FRAME_BYTES in Hbig; lia|].
  cbn [orb]. unfold mbind, C_bind. pose proof (receive_exact_spec (size data) c1 ltac:(lia) Hc1) as H2.
  rewrite <- Hs1, size_app in H2. rewrite (proj2 (Z.leb_le _ _)) in H2 by lia.
  destruct H2 as (d & c2 & -> & Hd & Hs2 & Hc2). apply app_inj_1 in Hs2 as [<- Hs2]; [|unfold size in Hd; lia].
  exists c2. split; [|by split]. unfold c_res. f_equal. unfold data, frame_text.
  rewrite <- (app_nil_r (print_value compact 0 (JObj document))), loads_print by done. by rewrite canonical_obj.
Qed.

(** A frame that breaks off is an error. *)
Lemma receive_short frame document c k :
  readable (JObj document) → _send_frame (JObj document) = Ok frame → flowing c → stream c = take k frame →
  (k < length frame)%nat → (_receive_frame c).1 = Raise closed_early.
Proof.
  intros Hr Hf Hc Hs Hk. rewrite send_frame_readable in Hf by done. unfold fits in Hf.
  destruct (Z.leb_spec (size (frame_text (JObj document))) BROKER_MAX_FRAME_BYTES) as [Hsize|]; [|done].
  set (data := frame_text (JObj document)) in *. assert (frame = pack_length (size data) ++ data) as -> by congruence. unfold BROKER_MAX_FRAME_BYTES in Hsize.
  pose proof (frame_text_object document) as Htwo. fold data in Htwo.
  assert (H4 : length (pack_length (size data)) = 4%nat) by done. rewrite length_app, H4 in Hk.
  unfold _receive_frame. unfold mbind at 1, C_bind at 1.
  pose proof (receive_exact_spec 4 c ltac:(done) Hc) as H. rewrite Hs in H.
  destruct (Z.leb_spec 4 (size (take k (pack_length (size data) ++ data)))) as [Hl|]; [|by rewrite H].
  assert (4 ≤ k)%nat by (unfold size in Hl; rewrite length_take in Hl; lia).
  rewrite take_app, take_ge, H4 in H by (rewrite H4; lia). destruct H as (h & c1 & -> & Hh & Hs1 & Hc1).
  apply app_inj_1 in Hs1 as [<- Hs1]; [|unfold size in Hh; rewrite H4; lia].
  rewrite unpack_pack by lia. destruct (Z.ltb_spec (size data) 2); [lia|].
  destruct (Z.ltb_spec BROKER_MAX_FRAME_BYTES (size data)) as [Hbig|_]; [unfold BROKER_MAX_FRAME_BYTES in Hbig; lia|].
  cbn [orb]. unfold mbind, C_bind. pose proof (receive_exact_spec (size data) c1 ltac:(lia) Hc1) as H2.
  rewrite <- Hs1 in H2. rewrite (proj2 (Z.leb_gt _ _)) in H2; [by rewrite H2|].
  unfold size. rewrite length_take. lia.
Qed.

(** ** A call and its answer *)

(** The broker at the other end of a connection; what it does not answer it closes.
    [split] cuts what is sent into the pieces that arrive. *)
Definition broker_side (serve : payload → actor → res json) (a : actor) (split : bytes → list arrival)
    (frame : bytes) : res (list arrival) :=
  match _handle (Ok a) serve (split frame) with Ok answer => Ok (split answer) | Raise _ => Ok [] end.

Definition rejection_text (e : exn) : string :=
  if bool_decide (error_text e = "") then "broker rejected the request" else error_text e.

Lemma readable_request request_id operation p :
  readable (JObj p) → readable (request_document request_id operation p).
Proof. intros Hp. apply readable_obj. split; [decide_now|]. by repeat apply Forall_cons_2. Qed.

Lemma readable_response request_id result answer :
  (∀ v, result = Ok v → readable v) → response (JStr request_id) result = Ok answer → readable answer.
Proof.
  unfold response. destruct result as [v|e].
  - intros Hv [= <-]. apply readable_obj. split; [decide_now|]. repeat apply Forall_cons_2; try done. by apply Hv.
  - intros _. destruct (is_answered e); [|done]. intros [= <-]. apply readable_obj. split; [decide_now|].
    repeat apply Forall_cons_2; try done. apply readable_obj. split; [decide_now|]. by repeat apply Forall_cons_2.
Qed.

Lemma response_object request_id result answer :
  response request_id result = Ok answer → ∃ kvs, answer = JObj kvs.
Proof. unfold response. destruct result as [v|e]; [|destruct (is_answered e)]; [intros [= <-]; eauto..|done]. Qed.

(** What the client makes of an answer that arrives. *)
Lemma read_answer request_id result kvs :
  response (JStr request_id) result = Ok (JObj kvs) →
  read_response request_id (canonical_members kvs) =
    match result with Ok v => Ok (canonical v) | Raise e => Raise (BookingError (rejection_text e)) end.
Proof.
  unfold response, read_response. intros H.
  assert (Hd : NoDup kvs.*1).
  { destruct result as [v|e]; [|destruct (is_answered e)]; [injection H as <-; decide_now..|done]. }
  rewrite !dict_get_canonical by done. destruct result as [v|e].
  - injection H as <-. change (dict_get "schema_version" _) with (JStr BROKER_SCHEMA_VERSION).
    change (dict_get "request_id" _) with (JStr request_id). change (dict_get "ok" _) with (JBool true).
    change (dict_get "result" _) with v. cbn [read_text canonical]. by rewrite !bool_decide_true.
  - destruct (is_answered e); [|done]. injection H as <-.
    change (dict_get "schema_version" _) with (JStr BROKER_SCHEMA_VERSION).
    change (dict_get "request_id" _) with (JStr request_id). change (dict_get "ok" _) with (JBool false).
    set (error := dict_get "error" _). cbn [read_text canonical]. rewrite !bool_decide_true by done. cbn [negb].
    do 2 f_equal. unfold error, rejection, rejection_text.
    change (dict_get "error" _) with (JObj [("type", JStr (type_name e)); ("message", JStr (error_text e))]).
    rewrite canonical_obj, dict_get_canonical by decide_now.
    change (dict_get "message" _) with (JStr (error_text e)). cbn [canonical truthy str_value].
    by case_bool_decide.
Qed.

Lemma flowing_nil : flowing [].
Proof. by intros x ?%not_elem_of_nil. Qed.

(** C15: a call over the socket is a call. Whatever the pieces in which the bytes
    arrive, the broker sees the request as it was made, under the identity the kernel
    gave it, and the client gets exactly the value it computed or the message of its
    error; only when the answer does not fit into a frame, or the error is one the
    handler does not catch, the client is told that the connection was closed. *)
Theorem call_roundtrip socket_path split serve a request_id operation p :
  (∀ data, flowing (split data) ∧ stream (split data) = data) →
  readable (JObj p) → fits (request_document request_id operation p) = true →
  let request := canonical_members (request_members request_id operation p) in
  (∀ v, serve request a = Ok v → readable v) →
  client_call socket_path (broker_side serve a split) request_id operation p =
    match response (JStr request_id) (serve request a) with
    | Ok answer =>
        if fits answer then match serve request a with
          | Ok v => Ok (canonical v)
          | Raise e => Raise (BookingError (rejection_text e))
          end
        else Raise closed_early
    | Raise _ => Raise closed_early
    end.
Proof.
  intros Hsplit Hp Hfits request Hv. unfold client_call.
  pose proof (readable_request request_id operation p Hp) as Hreq. rewrite send_frame_readable, Hfits by done.
  set (frame := pack_length _ ++ _). cbn [mbind res_bind]. unfold broker_side, _handle.
  destruct (Hsplit frame) as [Hflow Hstream].
  destruct (receive_sent (request_members request_id operation p) frame [] (split frame))
    as (c' & -> & _); [done| |done|by rewrite app_nil_r|].
  { fold (request_document request_id operation p). by rewrite send_frame_readable, Hfits. }
  fold request. cbn [fst]. assert (dict_get "request_id" request = JStr request_id) as ->.
  { unfold request. rewrite dict_get_canonical by decide_now. done. }
  destruct (response (JStr request_id) (serve request a)) as [answer|e] eqn:E; cbn [mbind res_bind]; [|reflexivity].
  destruct (response_object _ _ _ E) as (kvs & ->).
  pose proof (readable_response _ _ _ Hv E) as Hans. rewrite send_frame_readable by done.
  destruct (fits (JObj kvs)) eqn:Hf; [|reflexivity].
  set (back := pack_length _ ++ _). cbn [mbind res_bind]. destruct (Hsplit back) as [Hflow' Hstream'].
  destruct (receive_sent kvs back [] (split back)) as (c'' & -> & _); [done| |done|by rewrite app_nil_r|].
  { by rewrite send_frame_readable, Hf. }
  cbn [fst]. by rewrite (read_answer _ _ _ E).
Qed.

(** ** Requests are decoded as they were made *)

Lemma require_keys_Ok value allowed required label :
  (∀ k, k ∈ value.*1 → k ∈ allowed) → (∀ k, k ∈ required → k ∈ value.*1) →
  _require_keys value allowed required label = Ok tt.
Proof.
  intros Ha Hr. unfold _require_keys.
  assert (Hnil : ∀ (P : string → Prop) `{!∀ k, Decision (P k)} l, (∀ k, k ∈ l → ¬ P k) → sort_by String.leb (filter P l) = []).
  { intros P ? l H. apply (f_equal (sort_by String.leb) (y := [])). destruct (filter P l) as [|k ks] eqn:E; [done|].
    assert (Hk : k ∈ filter P l) by (rewrite E; by left). apply list_elem_of_filter in Hk as [Hp Hk]. by destruct (H k Hk). }
  rewrite !Hnil; [done|..].
  - intros k Hk Hn. by apply Hn, Hr.
  - intros k Hk Hn. by apply Hn, Ha.
Qed.

Lemma canonical_members_keys p : (canonical_members p).*1 ≡ₚ p.*1.
Proof.
  unfold canonical_members. rewrite sort_by_perm. apply reflexive_eq. clear.
  induction p as [|[k v] p IH]; csimpl; [done|by rewrite IH].
Qed.

Lemma canonical_ints l : canonical (json_ints l) = json_ints l.
Proof. unfold json_ints. rewrite canonical_list. f_equal. induction l as [|z l IH]; csimpl; [done|by rewrite IH]. Qed.

Lemma decode_ints l label : map_res (λ item, _integer item label) (JInt <$> l) = Ok l.
Proof. induction l as [|z l IH]; [done|]. cbn. by rewrite IH. Qed.

Lemma decode_strings l label : "" ∉ l → map_res (λ item, _string item label) (map canonical (JStr <$> l)) = Ok l.
Proof.
  induction l as [|s l IH]; [done|]. intros [Hs Hl]%not_elem_of_cons. cbn. rewrite bool_decide_false by done.
  cbn [mbind res_bind]. by rewrite IH.
Qed.

Lemma decode_int_list o label : _optional_int_list (canonical (json_option json_ints o)) label = Ok o.
Proof.
  destruct o as [l|]; [|done]. cbn [json_option]. rewrite canonical_ints. unfold json_ints, _optional_int_list.
  cbn [optional_field]. by rewrite decode_ints.
Qed.

Lemma decode_string_list o label : "" ∉ default [] o →
  _optional_string_list (canonical (json_option (λ l, JList (JStr <$> l)) o)) label = Ok o.
Proof.
  intros H. destruct o as [l|]; [|done]. cbn [json_option].
  rewrite canonical_list. unfold _optional_string_list. cbn [optional_field]. by rewrite decode_strings.
Qed.

Lemma decode_option_string o label : o ≠ Some "" → _optional_string (canonical (json_option JStr o)) label = Ok o.
Proof. intros Ho. destruct o as [s|]; [|done]. cbn. rewrite bool_decide_false; [done|congruence]. Qed.

Lemma decode_option_int o label : _optional_integer (canonical (json_option JInt o)) label = Ok o.
Proof. by destruct o. Qed.

Lemma to_iso_nonempty t : to_iso t ≠ "".
Proof. unfold to_iso. by destruct (iso_chars t). Qed.

(** Texts that the broker takes. *)
Record sendable_booking (r : booking_request) : Prop := SendableBooking {
  sb_start : representable (b_start_at r);
  sb_mode : b_mode r ≠ "";
  sb_op_id : b_op_id r ≠ Some "";
  sb_spec_id : b_job_spec_id r ≠ Some "";
  sb_digest : b_job_digest r ≠ Some "";
  sb_summary : b_job_summary r ≠ Some "";
  sb_aliases : "" ∉ default [] (b_job_digest_aliases r);
}.

Record sendable_edit (r : edit_request) : Prop := SendableEdit {
  se_start t : e_start_at r = Some t → representable t;
  se_id : e_reservation_id r ≠ "";
  se_op_id : e_op_id r ≠ Some "";
  se_mode : e_mode r ≠ Some "";
}.

(** The request as the broker decodes it: under the identity of the caller, its start
    cut to the second. *)
Definition received_booking (a : actor) (r : booking_request) : booking_request :=
  BookingRequest a (b_count r) (b_duration_seconds r) (replace_microsecond_0 (b_start_at r)) (b_mode r)
    (b_preferred_gpus r) None None (b_op_id r) (b_allow_queue r) (b_job_spec_id r) (b_job_digest r)
    (b_job_summary r) (b_job_digest_aliases r) (b_expected_memory_mb r) None (b_share_units r) (b_excluded_gpus r).

Definition received_edit (a : actor) (r : edit_request) : edit_request :=
  EditRequest a (e_reservation_id r) (e_op_id r) (replace_microsecond_0 <$> e_start_at r)
    (e_duration_seconds r) (e_mode r) (e_preferred_gpus r) None None (e_count r) (e_allow_queue r)
    (e_expected_memory_mb r) (e_update_expected_memory r) None (e_share_units r) (e_update_share_units r)
    (e_excluded_gpus r).

Lemma decode_booking r a : sendable_booking r →
  _decode_booking_request (canonical_members (_booking_request_payload r)) a = Ok (received_booking a r).
Proof.
  intros [Hs Hm Ho Hi Hd Hsum Hal]. set (p := _booking_request_payload r).
  assert (Hnd : NoDup p.*1) by (unfold p, _booking_request_payload; destruct (b_excluded_gpus r); decide_now).
  assert (Hex : dict_get "excluded_gpus" p = json_option json_ints (b_excluded_gpus r))
    by (unfold p, _booking_request_payload; by destruct (b_excluded_gpus r)).
  unfold _decode_booking_request. rewrite require_keys_Ok; cbn [mbind res_bind].
  2:{ intros k. rewrite canonical_members_keys. revert k. apply Forall_forall.
      unfold p, _booking_request_payload. destruct (b_excluded_gpus r); decide_now. }
  2:{ intros k. rewrite canonical_members_keys. revert k. apply Forall_forall.
      unfold p, _booking_request_payload. destruct (b_excluded_gpus r); decide_now. }
  unfold flag. rewrite get_canonical, !dict_get_canonical, Hex by done.
  change (dict_get "count" p) with (JInt (b_count r)).
  change (dict_get "duration_seconds" p) with (JInt (b_duration_seconds r)).
  change (dict_get "start_at" p) with (JStr (to_iso (b_start_at r))).
  change (dict_get "mode" p) with (JStr (b_mode r)).
  change (dict_get "preferred_gpus" p) with (json_option json_ints (b_preferred_gpus r)).
  change (dict_get "op_id" p) with (json_option JStr (b_op_id r)).
  change (assoc_get "allow_queue" p) with (Some (JBool (b_allow_queue r))).
  change (dict_get "job_spec_id" p) with (json_option JStr (b_job_spec_id r)).
  change (dict_get "job_digest" p) with (json_option JStr (b_job_digest r)).
  change (dict_get "job_summary" p) with (json_option JStr (b_job_summary r)).
  change (dict_get "job_digest_aliases" p) with (json_option (λ l, JList (JStr <$> l)) (b_job_digest_aliases r)).
  change (dict_get "expected_memory_mb" p) with (json_option JInt (b_expected_memory_mb r)).
  change (dict_get "share_units" p) with (json_option JInt (b_share_units r)).
  rewrite !decode_int_list, !decode_option_int, !decode_option_string, decode_string_list by done.
  cbn [canonical _integer _string mbind res_bind]. rewrite !bool_decide_false by (done || apply to_iso_nonempty).
  cbn [mbind res_bind]. by rewrite parse_iso_to_iso.
Qed.

Lemma decode_edit r a : sendable_edit r →
  _decode_edit_request (canonical_members (_edit_request_payload r)) a = Ok (received_edit a r).
Proof.
  intros [Hs Hi Ho Hm]. set (p := _edit_request_payload r).
  assert (Hnd : NoDup p.*1) by (unfold p, _edit_request_payload; destruct (e_excluded_gpus r); decide_now).
  assert (Hex : dict_get "excluded_gpus" p = json_option json_ints (e_excluded_gpus r))
    by (unfold p, _edit_request_payload; by destruct (e_excluded_gpus r)).
  unfold _decode_edit_request. rewrite require_keys_Ok; cbn [mbind res_bind].
  2:{ intros k. rewrite canonical_members_keys. revert k. apply Forall_forall.
      unfold p, _edit_request_payload. destruct (e_excluded_gpus r); decide_now. }
  2:{ intros k. rewrite canonical_members_keys. revert k. apply Forall_forall.
      unfold p, _edit_request_payload. destruct (e_excluded_gpus r); decide_now. }
  unfold flag. rewrite !get_canonical, !dict_get_canonical, Hex by done.
  change (dict_get "reservation_id" p) with (JStr (e_reservation_id r)).
  change (dict_get "op_id" p) with (json_option JStr (e_op_id r)).
  change (dict_get "start_at" p) with (json_option (λ t, JStr (to_iso t)) (e_start_at r)).
  change (dict_get "duration_seconds" p) with (json_option JInt (e_duration_seconds r)).
  change (dict_get "mode" p) with (json_option JStr (e_mode r)).
  change (dict_get "preferred_gpus" p) with (json_option json_ints (e_preferred_gpus r)).
  change (dict_get "count" p) with (json_option JInt (e_count r)).
  change (assoc_get "allow_queue" p) with (Some (JBool (e_allow_queue r))).
  change (dict_get "expected_memory_mb" p) with (json_option JInt (e_expected_memory_mb r)).
  change (assoc_get "update_expected_memory" p) with (Some (JBool (e_update_expected_memory r))).
  change (dict_get "share_units" p) with (json_option JInt (e_share_units r)).
  change (assoc_get "update_share_units" p) with (Some (JBool (e_update_share_units r))).
  rewrite !decode_int_list, !decode_option_int, !decode_option_string by done.
  cbn [canonical _string mbind res_bind]. rewrite bool_decide_false by done. cbn [mbind res_bind].
  unfold received_edit. destruct (e_start_at r) as [t|]; [|done]. cbn [json_option canonical optional_field _string].
  rewrite bool_decide_false by apply to_iso_nonempty. cbn [mbind res_bind].
  by rewrite parse_iso_to_iso by by apply Hs.
Qed.

Lemma read_request_spec g request_id operation p a :
  is_Some (uuid_text request_id) → readable (JObj p) →
  read_request g (canonical_members (request_members request_id operation p)) a =
  read_operation g operation (canonical_members p) a.
Proof.
  intros [u Hu] Hp. unfold read_request. rewrite require_keys_Ok; cbn [mbind res_bind].
  2:{ intros k. rewrite canonical_members_keys. revert k. apply Forall_forall. decide_now. }
  2:{ intros k. rewrite canonical_members_keys. revert k. apply Forall_forall. decide_now. }
  rewrite !dict_get_canonical by decide_now.
  change (dict_get "schema_version" _) with (JStr BROKER_SCHEMA_VERSION).
  change (dict_get "request_id" _) with (JStr request_id). change (dict_get "operation" _) with (JStr operation).
  change (dict_get "payload" _) with (JObj p). rewrite canonical_obj. cbn [canonical read_text str_value].
  rewrite bool_decide_true by done. cbn [negb]. by rewrite Hu.
Qed.

(** Who makes a call of the scheduler; the calls of a worker are not among those the
    broker makes. *)
Definition caller (k : call) : option actor :=
  match k with
  | Add r => Some (b_actor r)
  | EditCall r => Some (e_actor r)
  | CancelOwn _ a _ | CancelAsAdmin _ a _ | Notice a _ => Some a
  | _ => None
  end.

Ltac inv_res := repeat match goal with H : mbind _ _ = Ok _ |- _ => apply res_bind_Ok in H as (? & ? & H) end.

Lemma read_operation_caller g operation p a k :
  read_operation g operation p a = Ok (Scheduler k) → caller k = Some a.
Proof.
  unfold read_operation. intros H. repeat (case_bool_decide; [try (inv_res; done)|]); try done.
  all: apply res_bind_Ok in H as (r & Hr & H); inv_res.
  - simplify_eq. cbn. unfold _decode_booking_request in Hr. inv_res. by simplify_eq.
  - simplify_eq. cbn. unfold _decode_edit_request in Hr. inv_res. by simplify_eq.
  - by simplify_eq.
  - destruct (dict_get "reason" p); by simplify_eq.
  - by simplify_eq.
  - by simplify_eq.
  - by simplify_eq.
Qed.

Lemma read_request_caller g request a k : read_request g request a = Ok (Scheduler k) → caller k = Some a.
Proof.
  unfold read_request. intros H. apply res_bind_Ok in H as (_ & _ & H). destruct (negb _); [done|].
  destruct (uuid_text _); [|done]. repeat case_match; try done. by eapply read_operation_caller.
Qed.

(** C16: a booking or an edit that a client sends is what the scheduler is asked for:
    every field arrives, absent ones as absent, under the identity of the caller and
    no other, and with the telemetry of the broker in place of the client's; only the
    start is cut to the second, as the scheduler does. Whatever else is sent, no call is
    made under another identity. *)
Theorem requests_roundtrip g a request_id :
  is_Some (uuid_text request_id) →
  (∀ r, sendable_booking r → readable (JObj (_booking_request_payload r)) →
     read_request (Ok g) (canonical_members (request_members request_id "booking.add" (_booking_request_payload r))) a
     = Ok (Scheduler (Add (advised_booking g (received_booking a r))))) ∧
  (∀ r, sendable_edit r → readable (JObj (_edit_request_payload r)) →
     read_request (Ok g) (canonical_members (request_members request_id "booking.edit" (_edit_request_payload r))) a
     = Ok (Scheduler (EditCall (advised_edit g (received_edit a r))))) ∧
  (∀ advice request k, read_request advice request a = Ok (Scheduler k) → caller k = Some a).
Proof.
  intros Hid. split_and!; [| |intros advice request k; apply read_request_caller]; intros r Hr Hp; rewrite read_request_spec by done; unfold read_operation;
    repeat (rewrite bool_decide_false by done); rewrite bool_decide_true by done.
  - by rewrite decode_booking.
  - by rewrite decode_edit.
Qed.

(** ** What is not answered *)

Lemma unanswered_error a serve c request c' e :
  _receive_frame c = (Ok request, c') → serve request a = Raise e → is_answered e = false →
  _handle (Ok a) serve c = Raise e.
Proof. intros Hc Hs He. unfold _handle. rewrite Hc. cbn [fst]. rewrite Hs. unfold response. by rewrite He. Qed.

(** A start that leaves the years of [datetime] raises [OverflowError], which the
    handler does not catch. *)
Definition overflowing_booking : payload :=
  [("count", JInt 1); ("duration_seconds", JInt 3600); ("start_at", JStr "0001-01-01T00:00:00+23:59");
   ("mode", JStr "shared")].

Definition some_peer : actor := Actor 1000 "ada".

Definition some_request_id : string := "12345678-1234-4234-8234-123456789abc".

Theorem overflow_unanswered advice c c' :
  _receive_frame c = (Ok (request_members some_request_id "booking.add" overflowing_booking), c') →
  ∃ m, _handle (Ok some_peer) (λ request a, _ ← read_request advice request a; Ok JNull) c = Raise (OverflowError m).
Proof.
  intros Hc. eexists. eapply unanswered_error; [exact Hc| |done]. vm_compute. reflexivity.
Qed.

(** An answer that does not fit into a frame raises an error of its own there. *)
Theorem large_answer_unanswered a serve c request c' v :
  _receive_frame c = (Ok request, c') → serve request a = Ok v → readable v → readable (dict_get "request_id" request) →
  BROKER_MAX_FRAME_BYTES < size (frame_text (JObj [("schema_version", JStr BROKER_SCHEMA_VERSION);
    ("request_id", dict_get "request_id" request); ("ok", JBool true); ("result", v)])) →
  _handle (Ok a) serve c = Raise (BookingError "broker message exceeds 1 MiB").
Proof.
  intros Hc Hs Hv Hid Hsize. unfold _handle. rewrite Hc. cbn [fst]. rewrite Hs. cbn [response mbind res_bind].
  rewrite send_frame_readable; [by unfold fits; rewrite (proj2 (Z.leb_gt _ _))|].
  apply readable_obj. split; [decide_now|]. by repeat apply Forall_cons_2.
Qed.

(** ** Examples *)

Definition in_one_piece (data : bytes) : list arrival := if bool_decide (data = []) then [] else [Arrives data].

Lemma in_one_piece_flowing data : flowing (in_one_piece data) ∧ stream (in_one_piece data) = data.
Proof.
  unfold in_one_piece. case_bool_decide as E; [subst; split; [apply flowing_nil|done]|].
  split; [apply flowing_cons; split; [done|apply flowing_nil]|].
  cbn. by rewrite app_nil_r.
Qed.

(** A broker that says who is calling, and one that refuses. *)
Definition say_who (request : payload) (a : actor) : res json := Ok (JInt (a_uid a)).
Definition refuse (request : payload) (a : actor) : res json := Raise (BookingError "no").

Lemma readable_empty : readable (JObj []).
Proof. apply readable_obj. split; [apply NoDup_nil_2|done]. Qed.

Lemma call_roundtrip_witness :
  client_call "/run/bk" (broker_side say_who some_peer in_one_piece) some_request_id "ping" [] = Ok (JInt 1000) ∧
  client_call "/run/bk" (broker_side refuse some_peer in_one_piece) some_request_id "ping" []
    = Raise (BookingError "no").
Proof.
  split.
  - rewrite (call_roundtrip "/run/bk" in_one_piece say_who some_peer some_request_id "ping" []
      in_one_piece_flowing); [vm_compute; reflexivity|exact readable_empty|vm_compute; reflexivity|by intros v [= <-]].
  - rewrite (call_roundtrip "/run/bk" in_one_piece refuse some_peer some_request_id "ping" []
      in_one_piece_flowing); [vm_compute; reflexivity|exact readable_empty|vm_compute; reflexivity|done].
Defined.

Definition some_advice : gpu_advice := GpuAdvice [1; 0] [] [].

Lemma requests_roundtrip_witness :
  read_request (Ok some_advice)
    (canonical_members (request_members some_request_id "booking.add" (_booking_request_payload example_request))) some_peer
  = Ok (Scheduler (Add (advised_booking some_advice (received_booking some_peer example_request)))).
Proof.
  assert (Hid : is_Some (uuid_text some_request_id)) by (vm_compute; eexists; reflexivity).
  refine (proj1 (requests_roundtrip some_advice some_peer some_request_id Hid) example_request _ _).
  - split; try (vm_compute; congruence); [decide_now|vm_compute; by intros ?%not_elem_of_nil].
  - apply readable_obj. split; [decide_now|]. repeat apply Forall_cons_2; try done.
Defined.
