(* ===== verification/BrokerJobs.v ===== *)
(** * BrokerJobs: transactions on one's own jobs through the broker ([src/src/bk/broker.py])

    A worker runs its transactions on a copy of the ledger and sends the changed
    reservations to the broker, with the digest of the ledger it read. The broker
    applies them when the ledger is still that one and the change is one a user may
    make: the state of the jobs of own reservations, and nothing else. *)

From S2P Require Import Prelude PyBase Json Files Granularity Timeparse Models Sharing Policy Jsonl Requests LedgerSchema Documents.
From S2P Require Import Storage Transactions Sha256 Safety JobSpecs Jobs System RecoverJobs BrokerProtocol.
From Stdlib Require Import SpecFloat.

Definition BROKER_TRANSACTION_RETRIES : nat := 8.
Definition BROKER_MAX_JOB_CHANGES : Z := 256.
Definition BROKER_JOB_PATCH_OPERATION : string := "ledger.commit-own-job-patch".

Definition JOB_BINDING_FIELDS : list string := ["spec_id"; "digest"; "summary"; "submitted_at"].

Definition JOB_MUTABLE_FIELDS : list string :=
  ["cancel_requested_at"; "claim_token"; "claimed_at"; "exit_code"; "finished_at"; "launch_guard_key";
   "launch_guard_state"; "log_rotated"; "log_warning"; "message"; "recovered_at"; "recovery_state";
   "recovery_worker_id"; "runner_host"; "runner_pid"; "started_at"; "status"; "waiting_since";
   "worker_id"; "worker_lease_id"].

(** ** Equality of values *)

(** [a == b] as Python has it: numbers by their value, also truth values, objects
    whatever the order of their members. Infinities and NaN occur in no ledger. *)
Fixpoint json_eqb (a b : json) : bool :=
  match a, b with
  | JList l, JList l' =>
      (fix go (l l' : list json) : bool :=
         match l, l' with
         | [], [] => true
         | v :: l, v' :: l' => json_eqb v v' && go l l'
         | _, _ => false
         end) l l'
  | JObj d, JObj d' =>
      (Z.of_nat (length d) =? Z.of_nat (length d'))
      && forallb (λ '(k, v), match assoc_get k d' with Some v' => json_eqb v v' | None => false end) d
  | JList _, _ | JObj _, _ | _, JList _ | _, JObj _ => false
  | _, _ => scalar_eq a b
  end.

Definition _ledger_digest (ledger : payload) : res string :=
  text ← dumps_nan compact (JObj ledger); Ok (sha256_hexdigest (PyBase.text (utf8_encode text))).

(** ** What a user may change *)

(** [set(current) != set(proposed)] *)
Definition same_keys (a b : payload) : bool :=
  forallb (λ k, bool_decide (k ∈ b.*1)) a.*1 && forallb (λ k, bool_decide (k ∈ a.*1)) b.*1.

(** The first field outside [free] that differs. A set has no order: where several
    differ, Python may name another of them. *)
Definition changed_field (free : list string) (before after : payload) : option string :=
  head (filter (λ k, k ∉ free ∧ json_eqb (dict_get k before) (dict_get k after) = false)
    (before.*1 ++ after.*1)).

Definition is_text (s : string) (v : json) : bool := json_eqb v (JStr s).

Definition own_fields : list string := ["status"; "updated_at"; "job"].

Definition _validate_owned_reservation_job_change (before after : payload) : M unit :=
  match changed_field own_fields before after with
  | Some key => raise (BookingError ("job transaction cannot modify reservation field " +:+ key))
  | None =>
      let before_status := dict_get "status" before in
      let after_status := dict_get "status" after in
      if negb (json_eqb after_status before_status) && negb (is_text "active" before_status && is_text "expired" after_status)
      then raise (BookingError "job transaction may only expire its own active reservation") else
      _ ← (if is_text "expired" after_status && negb (is_text "expired" before_status) then
             end_text ← lift (_string (dict_get "end_at" before) "end_at");
             end_at ← lift (parse_iso end_text);
             now ← utc_now;
             if now <? end_at
             then raise (BookingError "job transaction cannot expire a reservation before its end")
             else mret tt
           else mret tt);
      match dict_get "job" before, dict_get "job" after with
      | JObj before_job, JObj after_job =>
          match changed_field JOB_MUTABLE_FIELDS before_job after_job with
          | Some key =>
              let label := if bool_decide (key ∈ JOB_BINDING_FIELDS) then "binding" else "unknown" in
              raise (BookingError ("job transaction cannot modify " +:+ label +:+ " job field " +:+ key))
          | None => mret tt
          end
      | before_job, after_job =>
          if json_eqb before_job after_job then mret tt
          else raise (BookingError "job transaction cannot add or remove a scheduled job")
      end
  end.

(** [int(value)] of a member, -1 when there is none. *)
Definition int_or_minus_one (v : option json) : res Z :=
  match v with
  | None => Ok (-1)
  | Some (JInt z) => Ok z
  | Some (JBool b) => Ok (if b then 1 else 0)
  | Some (JStr s) =>
      match py_int s with
      | Some z => Ok z
      | None => Raise (ValueError ("invalid literal for int() with base 10: " +:+ str_repr s))
      end
  | Some (JFloat (S754_finite s m e)) =>
      let n := if 0 <=? e then Z.pos m * 2 ^ e else Z.pos m / 2 ^ (- e) in Ok (if s then - n else n)
  | Some (JFloat (S754_zero _)) => Ok 0
  | Some (JFloat S754_nan) => Raise (ValueError "cannot convert float NaN to integer")
  | Some (JFloat (S754_infinity _)) => Raise (OverflowError "cannot convert float infinity to integer")
  | Some _ => Raise (TypeError "int() argument must be a string, a bytes-like object or a real number")
  end.

Definition text_member (key : string) (d : payload) : string :=
  str_value (default (JStr "") (assoc_get key d)).

(** The reservations of the two ledgers in pairs; the own ones are returned with
    their ids. *)
Fixpoint own_changes (a : actor) (before after : list json) : M (list (string * payload)) :=
  match before, after with
  | JObj b :: before, JObj r :: after =>
      if negb (json_eqb (dict_get "id" b) (dict_get "id" r))
      then raise (BookingError "job transaction cannot reorder reservations") else
      uid ← lift (int_or_minus_one (assoc_get "uid" b));
      if negb (uid =? a_uid a) then
        if negb (json_eqb (JObj r) (JObj b))
        then raise (BookingError "job transaction cannot modify another UID's reservation")
        else own_changes a before after
      else
        _ ← _validate_owned_reservation_job_change b r;
        owned ← own_changes a before after;
        mret ((text_member "id" b, r) :: owned)
  | _ :: _, _ :: _ => raise (BookingError "job transaction contains an invalid reservation")
  | _, _ => mret []
  end.

Definition action_char (c : ascii) : bool := in_range 97 122 c || bool_decide (c = "-"%char).

Definition valid_action (v : json) : option string :=
  match v with
  | JStr s =>
      if negb (String.prefix "job-" s) || (64 <? slen s) || negb (forallb action_char (chars s))
      then None else Some s
  | _ => None
  end.

(** The record of the audit log in place of the one that was sent; a later reservation
    of the same id hides an earlier one. *)
Definition sanitized_log (a : actor) (owned : list (string * payload)) (raw : json) : M payload :=
  match raw with
  | JObj raw =>
      match dict_get "reservation_id" raw with
      | JStr id =>
          match assoc_get id (rev owned) with
          | None => raise (BookingError "job transaction audit event must reference an owned reservation")
          | Some r =>
              match valid_action (dict_get "action" raw) with
              | None => raise (BookingError "job transaction audit action is invalid")
              | Some action =>
                  ts ← utc_now;
                  mret [("ts", JStr (to_iso ts)); ("uid", JInt (a_uid a)); ("username", JStr (a_username a));
                        ("action", JStr action); ("reservation_id", JStr id); ("op_id", dict_get "op_id" r);
                        ("gpus", default (JList []) (assoc_get "gpus" r)); ("mode", dict_get "mode" r);
                        ("start_at", dict_get "start_at" r); ("end_at", dict_get "end_at" r);
                        ("result", match dict_get "job" r with JObj j => dict_get "status" j | _ => JNull end);
                        ("message", JStr (clip 1000 (text_member "message" raw)))]
              end
          end
      | _ => raise (BookingError "job transaction audit event must reference an owned reservation")
      end
  | _ => raise (BookingError "job transaction audit event must be an object")
  end.

Fixpoint each_log (a : actor) (owned : list (string * payload)) (logs : list json) : M (list payload) :=
  match logs with
  | [] => mret []
  | raw :: logs => log ← sanitized_log a owned raw; logs ← each_log a owned logs; mret (log :: logs)
  end.

(** The fields of the ledger and the number of its reservations. *)
Definition check_ledger_fields (current proposed : payload) : res (list json * list json) :=
  if negb (same_keys current proposed)
  then Raise (BookingError "job transaction cannot add or remove ledger fields")
  else match filter (λ k, k ≠ "reservations" ∧ json_eqb (dict_get k proposed) (dict_get k current) = false) current.*1 with
  | key :: _ => Raise (BookingError ("job transaction cannot modify ledger field " +:+ key))
  | [] =>
      match dict_get "reservations" current, dict_get "reservations" proposed with
      | JList before, JList after =>
          if negb (Z.of_nat (length before) =? Z.of_nat (length after))
          then Raise (BookingError "job transaction cannot add or remove reservations")
          else Ok (before, after)
      | _, _ => Raise (BookingError "job transaction reservations must be lists")
      end
  end.

Definition _validate_own_job_mutation (current proposed : payload) (logs : list json) (a : actor)
    : M (list payload) :=
  '(before, after) ← lift (check_ledger_fields current proposed);
  owned ← own_changes a before after;
  each_log a owned logs.

(** ** The transactions of the broker *)

(** The mutator: [propose] makes the new ledger and [mismatch] is its message. *)
Definition own_job_mutator (base_digest : string) (changed : bool) (mismatch : string)
    (propose : payload → res payload) (logs : list json) (a : actor) : mutator json := λ current,
  digest ← lift (_ledger_digest current);
  if negb (bool_decide (digest = base_digest))
  then mret (current, JObj [("committed", JBool false)], [], false) else
  proposed ← lift (propose current);
  sanitized_logs ← _validate_own_job_mutation current proposed logs a;
  let actual_changed := negb (json_eqb (JObj proposed) (JObj current)) in
  if negb (Bool.eqb changed actual_changed) then raise (BookingError mismatch)
  else mret (proposed, JObj [("committed", JBool true)], sanitized_logs, actual_changed).

Definition _commit_own_job_transaction (p : payload) (a : actor) : res (mutator json) :=
  let fields := ["base_digest"; "ledger"; "logs"; "changed"] in
  _ ← _require_keys p fields fields "job transaction payload";
  base_digest ← _string (dict_get "base_digest" p) "base_digest";
  changed ← _boolean (dict_get "changed" p) "changed";
  match dict_get "ledger" p, dict_get "logs" p with
  | JObj proposed, JList logs =>
      if 256 <? Z.of_nat (length logs)
      then Raise (BookingError "job transaction contains too many audit events")
      else Ok (own_job_mutator base_digest changed "job transaction changed flag does not match its ledger"
                 (λ _, Ok proposed) logs a)
  | _, _ => Raise (BookingError "job transaction ledger and logs are required")
  end.

(** One change, after the reservations so far and the indexes seen. *)
Definition apply_change (acc : list json * list Z) (raw : json) : res (list json * list Z) :=
  let '(reservations, seen) := acc in
  match raw with
  | JObj change =>
      _ ← _require_keys change ["index"; "reservation"] ["index"; "reservation"] "job patch change";
      index ← _integer (dict_get "index" change) "job patch index";
      if (index <? 0) || (Z.of_nat (length reservations) <=? index)
      then Raise (BookingError "job patch index is out of range")
      else if bool_decide (index ∈ seen) then Raise (BookingError "job patch contains a duplicate index")
      else match dict_get "reservation" change with
      | JObj replacement => Ok (<[Z.to_nat index := JObj replacement]> reservations, index :: seen)
      | _ => Raise (BookingError "job patch reservation must be an object")
      end
  | _ => Raise (BookingError "job patch change must be an object")
  end.

Definition apply_changes (changes : list json) (current : payload) : res payload :=
  match dict_get "reservations" current with
  | JList reservations =>
      '(reservations, _) ← fold_res apply_change (reservations, []) changes;
      Ok (obj_set "reservations" (JList reservations) current)
  | _ => Raise (BookingError "job patch ledger reservations must be a list")
  end.

Definition _commit_own_job_patch (p : payload) (a : actor) : res (mutator json) :=
  let fields := ["base_digest"; "changes"; "logs"; "changed"] in
  _ ← _require_keys p fields fields "job patch payload";
  base_digest ← _string (dict_get "base_digest" p) "base_digest";
  changed ← _boolean (dict_get "changed" p) "changed";
  match dict_get "changes" p, dict_get "logs" p with
  | JList changes, JList logs =>
      if BROKER_MAX_JOB_CHANGES <? Z.of_nat (length changes)
      then Raise (BookingError "job patch contains too many reservation changes")
      else if BROKER_MAX_JOB_CHANGES <? Z.of_nat (length logs)
      then Raise (BookingError "job patch contains too many audit events")
      else Ok (own_job_mutator base_digest changed
                 "job patch changed flag does not match its reservation changes" (apply_changes changes) logs a)
  | _, _ => Raise (BookingError "job patch changes and logs must be arrays")
  end.

(** ** The transactions of a client *)

(** The reservations that differ, with their indexes. *)
Fixpoint changes_from (index : Z) (before after : list json) : res (list json) :=
  match before, after with
  | JObj b :: before, JObj r :: after =>
      if negb (json_eqb (dict_get "id" b) (dict_get "id" r))
      then Raise (BookingError "job transaction cannot reorder reservations") else
      rest ← changes_from (index + 1) before after;
      Ok (if json_eqb (JObj b) (JObj r) then rest
          else JObj [("index", JInt index); ("reservation", JObj r)] :: rest)
  | _ :: _, _ :: _ => Raise (BookingError "job transaction contains an invalid reservation")
  | _, _ => Ok []
  end.

Definition _job_transaction_changes (current proposed : payload) : res (list json) :=
  '(before, after) ← check_ledger_fields current proposed;
  changes ← changes_from 0 before after;
  if BROKER_MAX_JOB_CHANGES <? Z.of_nat (length changes)
  then Raise (BookingError "job transaction contains too many reservation changes")
  else Ok changes.

Definition json_logs (logs : list payload) : json := JList (JObj <$> logs).

Definition patch_payload (base_digest : string) (changes : list json) (logs : list payload) (changed : bool) : payload :=
  [("base_digest", JStr base_digest); ("changes", JList changes); ("logs", json_logs logs);
   ("changed", JBool changed)].

Definition committed (answer : json) : res bool :=
  match answer with
  | JObj answer =>
      match dict_get "committed" answer with
      | JBool b => Ok b
      | _ => Raise (BookingError "broker returned an invalid transaction result")
      end
  | _ => Raise (BookingError "broker returned an invalid transaction result")
  end.

Section Client.
(** What the store holds when a round reads it, and the calls of a round. *)
Context {T : Type} (mutate : mutator T) (load : nat → res payload).
Variable call : nat → string → payload → res json.

Fixpoint patch_rounds (rounds round : nat) : M T :=
  match rounds with
  | O => raise (BookingError "ledger changed repeatedly; retry the operation")
  | S rounds =>
      current ← lift (load round);
      base_digest ← lift (_ledger_digest current);
      '(new_ledger, result, logs, changed) ← mutate current;
      if negb changed && bool_decide (logs = []) then mret result else
      changes ← lift (_job_transaction_changes current new_ledger);
      answer ← lift (call round BROKER_JOB_PATCH_OPERATION (patch_payload base_digest changes logs changed));
      done ← lift (committed answer);
      if (done : bool) then mret result else patch_rounds rounds (S round)
  end.

Definition _patch_transaction : M T := patch_rounds BROKER_TRANSACTION_RETRIES 0.

(** The ledger and its digest, as an older broker sends them. *)
Definition snapshot_of (answer : json) : res (payload * string) :=
  match answer with
  | JObj snapshot =>
      match dict_get "ledger" snapshot with
      | JObj ledger =>
          match dict_get "digest" snapshot with
          | JStr digest => Ok (ledger, digest)
          | _ => Raise (BookingError "broker returned an invalid ledger digest")
          end
      | _ => Raise (BookingError "broker returned an invalid ledger snapshot")
      end
  | _ => Raise (BookingError "broker returned an invalid ledger snapshot")
  end.

Fixpoint legacy_rounds (rounds round : nat) : M T :=
  match rounds with
  | O => raise (BookingError "ledger changed repeatedly; retry the operation")
  | S rounds =>
      answer ← lift (call round "ledger.snapshot" []);
      '(current, base_digest) ← lift (snapshot_of answer);
      '(new_ledger, result, logs, changed) ← mutate current;
      if negb changed && bool_decide (logs = []) then mret result else
      answer ← lift (call round "ledger.commit-own-job"
        [("base_digest", JStr base_digest); ("ledger", JObj new_ledger); ("logs", json_logs logs);
         ("changed", JBool changed)]);
      done ← lift (committed answer);
      if (done : bool) then mret result else legacy_rounds rounds (S round)
  end.

Definition _legacy_transaction : M T := legacy_rounds BROKER_TRANSACTION_RETRIES 0.

(** [BrokerLedgerStore.transaction]: an older broker does not know the patches. *)
Definition broker_transaction : M T := λ w,
  match _patch_transaction w with
  | (Raise (BookingError message), w) =>
      if bool_decide (message = "unsupported broker operation: " +:+ BROKER_JOB_PATCH_OPERATION)
      then _legacy_transaction w else (Raise (BookingError message), w)
  | r => r
  end.
End Client.

(** ** Lemmas: equality of values *)

Lemma json_eqb_obj d d' : NoDup d.*1 → NoDup d'.*1 →
  json_eqb (JObj d) (JObj d') = true ↔
  ∀ k, match assoc_get k d, assoc_get k d' with
       | Some v, Some v' => json_eqb v v' = true
       | None, None => True
       | _, _ => False
       end.
Proof.
  intros Hd Hd'. cbn [json_eqb]. rewrite andb_true_iff, Z.eqb_eq, forallb_forall. split.
  - intros [Hl Hall] k.
    assert (Hin : ∀ k v, assoc_get k d = Some v → ∃ v', assoc_get k d' = Some v' ∧ json_eqb v v' = true).
    { intros k' v Hk. apply (assoc_get_Some _ _ _ Hd) in Hk. specialize (Hall (k', v) (proj1 (list_elem_of_In _ _) Hk)).
      cbn in Hall. destruct (assoc_get k' d') as [v'|]; [by exists v'|done]. }
    destruct (assoc_get k d) as [v|] eqn:E; [destruct (Hin k v E) as (v' & -> & ?); done|].
    destruct (assoc_get k d') as [v'|] eqn:E'; [|done].
    assert (Hp : d.*1 ≡ₚ d'.*1).
    { apply submseteq_length_Permutation; [|rewrite !length_fmap; lia]. apply NoDup_submseteq; [done|].
      intros k' ([k'' v] & -> & Hv)%list_elem_of_fmap. apply (assoc_get_Some _ _ _ Hd) in Hv.
      destruct (Hin _ _ Hv) as (v1 & Hv1 & _). apply (assoc_get_Some _ _ _ Hd') in Hv1.
      by apply (list_elem_of_fmap_2 fst) in Hv1. }
    apply (assoc_get_Some _ _ _ Hd') in E'. apply (list_elem_of_fmap_2 fst) in E'. rewrite <- Hp in E'.
    apply list_elem_of_fmap in E' as ([k' v] & Hk & Hv). cbn in Hk. subst k'.
    apply (assoc_get_Some _ _ _ Hd) in Hv. congruence.
  - intros Hall. split.
    + assert (d.*1 ≡ₚ d'.*1) as Hp; [|apply Permutation_length in Hp; rewrite !length_fmap in Hp; lia].
      apply NoDup_Permutation; [done..|]. intros k. specialize (Hall k). rewrite !list_elem_of_fmap. split.
      * intros ([k' v] & -> & Hv). apply (assoc_get_Some _ _ _ Hd) in Hv. cbn [fst] in *. rewrite Hv in Hall.
        destruct (assoc_get k' d') as [v'|] eqn:E; [|done]. exists (k', v'). split; [done|]. by apply assoc_get_Some.
      * intros ([k' v] & -> & Hv). apply (assoc_get_Some _ _ _ Hd') in Hv. cbn [fst] in *. rewrite Hv in Hall.
        destruct (assoc_get k' d) as [v'|] eqn:E; [|done]. exists (k', v'). split; [done|]. by apply assoc_get_Some.
    + intros [k v] Hv%list_elem_of_In. apply (assoc_get_Some _ _ _ Hd) in Hv. specialize (Hall k). rewrite Hv in Hall.
      by destruct (assoc_get k d').
Qed.

(** A missing member reads as null. *)
Lemma json_eqb_get d d' k : NoDup d.*1 → NoDup d'.*1 → json_eqb (JObj d) (JObj d') = true →
  json_eqb (dict_get k d) (dict_get k d') = true.
Proof.
  intros Hd Hd' H. pose proof (proj1 (json_eqb_obj d d' Hd Hd') H k) as Hk. unfold dict_get.
  by destruct (assoc_get k d), (assoc_get k d').
Qed.

Lemma json_eqb_list l l' : json_eqb (JList l) (JList l') = true ↔ Forall2 (λ v v', json_eqb v v' = true) l l'.
Proof.
  revert l'. induction l as [|v l IH]; intros [|v' l'].
  - by split.
  - split; [done|by inversion 1].
  - split; [done|by inversion 1].
  - rewrite Forall2_cons, <- IH. cbn. by rewrite andb_true_iff.
Qed.

Lemma readable_get k d : readable (JObj d) → readable (dict_get k d).
Proof. apply readable_member. Qed.

Lemma readable_assoc k d v : readable (JObj d) → assoc_get k d = Some v → readable v.
Proof. intros Hd Hk. pose proof (readable_member k d Hd) as H. unfold dict_get in H. by rewrite Hk in H. Qed.

Lemma scalar_eq_sym a b : scalar_eq a b = scalar_eq b a.
Proof.
  assert (Hn : ∀ x y, match x, y with Some (m1, e1), Some (m2, e2) =>
      m1 * 2 ^ (Z.max 0 (e1 - e2)) =? m2 * 2 ^ (Z.max 0 (e2 - e1)) | _, _ => false end =
    match y, x with Some (m1, e1), Some (m2, e2) =>
      m1 * 2 ^ (Z.max 0 (e1 - e2)) =? m2 * 2 ^ (Z.max 0 (e2 - e1)) | _, _ => false end).
  { intros [[m1 e1]|] [[m2 e2]|]; try done. apply Z.eqb_sym. }
  unfold scalar_eq. destruct a, b; try apply Hn; [done|]. apply bool_decide_ext. naive_solver.
Qed.

Lemma json_eqb_sym a b : readable a → readable b → json_eqb a b = true → json_eqb b a = true.
Proof.
  revert b. induction a as [a Ha|l IH|d IH] using json_nested_ind; intros b Hra Hrb.
  - destruct a; try done; destruct b; try done; cbn [json_eqb]; by rewrite scalar_eq_sym.
  - destruct b as [| | | | |l'|]; try done. rewrite !json_eqb_list. rewrite readable_list in Hra, Hrb. intros H.
    revert IH Hra Hrb. induction H as [|v v' l l' Hv Hl IHl]; [done|]. intros IH Hra Hrb.
    apply Forall_cons in IH as [IHv IH], Hra as [Hrv Hra], Hrb as [Hrv' Hrb]. constructor; [by apply IHv|by apply IHl].
  - destruct b as [| | | | | |d']; try done. pose proof Hra as Hra'. pose proof Hrb as Hrb'.
    apply readable_obj in Hra as [Hd Hra], Hrb as [Hd' Hrb]. rewrite !json_eqb_obj by done. intros H k.
    specialize (H k). destruct (assoc_get k d) as [v|] eqn:E, (assoc_get k d') as [v'|] eqn:E'; try done.
    rewrite Forall_forall in IH. apply (IH (k, v)); [by apply assoc_get_Some| | |done].
    + by eapply (readable_assoc k d).
    + by eapply (readable_assoc k d').
Qed.

(** A value equals what is read back of it. *)
Lemma json_eqb_canonical v : readable v → json_eqb (canonical v) v = true.
Proof.
  induction v as [v Ha|l IH|d IH] using json_nested_ind; intros Hr.
  - destruct v; try done; cbn [canonical json_eqb].
    + by destruct b.
    + by apply scalar_eq_int.
    + destruct Hr as [Hf _]. destruct f; try done; cbn; apply Z.eqb_refl.
    + cbn. by rewrite bool_decide_true.
  - rewrite canonical_list, json_eqb_list. rewrite readable_list in Hr.
    induction l as [|v l IHl]; [constructor|]. apply Forall_cons in IH as [IHv IH], Hr as [Hv Hr].
    constructor; [by apply IHv|by apply IHl].
  - rewrite canonical_obj. pose proof (readable_keys d Hr) as Hd.
    assert (Hc : NoDup (canonical_members d).*1) by by rewrite canonical_members_keys.
    rewrite json_eqb_obj by done. intros k. rewrite get_canonical by done.
    destruct (assoc_get k d) as [v|] eqn:E; [|done]. cbn. rewrite Forall_forall in IH.
    apply (IH (k, v)); [by apply assoc_get_Some|]. by eapply readable_assoc.
Qed.

Lemma json_eqb_refl v : readable v → json_eqb v v = true.
Proof.
  induction v as [v Ha|l IH|d IH] using json_nested_ind; intros Hr.
  - pose proof (json_eqb_canonical v Hr). by destruct v.
  - rewrite json_eqb_list. rewrite readable_list in Hr.
    induction l as [|v l IHl]; [constructor|]. apply Forall_cons in IH as [IHv IH], Hr as [Hv Hr].
    constructor; [by apply IHv|by apply IHl].
  - pose proof (readable_keys d Hr) as Hd. rewrite json_eqb_obj by done. intros k.
    destruct (assoc_get k d) as [v|] eqn:E; [|done]. rewrite Forall_forall in IH.
    apply (IH (k, v)); [by apply assoc_get_Some|]. by eapply readable_assoc.
Qed.

(** ** Equal values are read alike *)

Definition agrees {A} (read : json → option A) : Prop :=
  ∀ x y a b, json_eqb x y = true → read x = Some a → read y = Some b → a = b.

Lemma json_eqb_str s v : json_eqb (JStr s) v = true → v = JStr s.
Proof. destruct v; try done. cbn. by intros ->%bool_decide_eq_true. Qed.

Lemma json_eqb_null v : json_eqb JNull v = true ↔ v = JNull.
Proof. split; [by destruct v|by intros ->]. Qed.

Lemma json_eqb_null_r v : json_eqb v JNull = true ↔ v = JNull.
Proof. split; [|by intros ->]. destruct v as [| | |[]| | |]; done. Qed.

Lemma agrees_text : agrees read_text.
Proof. intros x y s t H Hx Hy. destruct x; try done. apply json_eqb_str in H as ->. cbn in *. congruence. Qed.

Lemma agrees_int : agrees read_int.
Proof. intros x y a b H Hx Hy. destruct x, y; try done. cbn in Hx, Hy. apply scalar_eq_int in H. congruence. Qed.

Lemma agrees_uid : agrees read_uid.
Proof.
  intros x y a b H Hx Hy. destruct x; try done.
  - destruct y; try done. cbn in Hx, Hy. apply scalar_eq_int in H. congruence.
  - apply json_eqb_str in H as ->. congruence.
Qed.

Lemma agrees_time : agrees read_time.
Proof. intros x y a b H Hx Hy. destruct x; try done. apply json_eqb_str in H as ->. congruence. Qed.

Lemma agrees_optional {A} (read : json → option A) : agrees read → agrees (read_optional read).
Proof.
  intros Hread x y a b H Hx Hy. assert (Hn : x = JNull ∨ x ≠ JNull) by (destruct x; auto). destruct Hn as [->|Hn].
  { apply json_eqb_null in H as ->. cbn in *. congruence. }
  assert (y ≠ JNull) by (intros ->; by apply json_eqb_null_r in H).
  assert (Hx' : Some <$> read x = Some a) by by destruct x. assert (Hy' : Some <$> read y = Some b) by by destruct y.
  apply fmap_Some in Hx' as (a' & Ha & ->), Hy' as (b' & Hb & ->). f_equal. by eapply Hread.
Qed.

Lemma agrees_list {A} (read : json → option A) : agrees read → agrees (read_list read).
Proof.
  intros Hread x y a b H Hx Hy. destruct x as [| | | | |l|]; try done. destruct y as [| | | | |l'|]; try done.
  apply json_eqb_list in H. cbn in Hx, Hy. revert a b Hx Hy. induction H as [|v v' l l' Hv _ IH]; intros a b Hx Hy.
  { cbn in *. congruence. }
  apply mapM_Some in Hx, Hy. inversion_clear Hx as [|? c ? cs Hc Hcs]. inversion_clear Hy as [|? e ? es He Hes].
  f_equal; [by eapply Hread|]. apply IH; by apply mapM_Some.
Qed.

(** ** What a committed transaction may have changed *)

Lemma read_reservation_inv d r : read_reservation d = Some r →
  (read_text (dict_get "id" d) = Some (r_id r) ∧ read_optional read_text (dict_get "op_id" d) = Some (r_op_id r) ∧
   read_uid (dict_get "uid" d) = Some (r_uid r) ∧ read_list read_int (dict_get "gpus" d) = Some (r_gpus r)) ∧
  (read_text (dict_get "mode" d) = Some (r_mode r) ∧ read_time (dict_get "start_at" d) = Some (r_start_at r) ∧
   read_time (dict_get "end_at" d) = Some (r_end_at r) ∧ read_text (dict_get "status" d) = Some (r_status r)) ∧
  (read_optional read_time (dict_get "created_at" d) = Some (r_created_at r) ∧
   read_optional read_int (dict_get "expected_memory_mb" d) = Some (r_expected_memory_mb r) ∧
   read_optional read_text (dict_get "operation_signature" d) = Some (r_operation_signature r)) ∧
  read_job (dict_get "job" d) = Some (r_job r).
Proof.
  unfold read_reservation. intros H.
  repeat match goal with H : mbind _ _ = Some _ |- _ => apply bind_Some in H as (? & ? & H) end.
  injection H as <-. cbn. by split_and!.
Qed.

(** The field of the job, null when there is none. *)
Definition job_member (key : string) (r : reservation) : json := default JNull (r_job r ≫= λ j, j !! key).

(** Share units that are no whole number, as [true] or null, count as the whole GPU. *)
Definition whole_units (units : option json) : bool :=
  match units with None | Some (JInt _ | JStr _) => true | Some _ => false end.

(** [r'] is [r] as the user [a] may change it by [T]: the booking itself stays, its
    share units up to [==]; the job of an own reservation changes in its mutable fields
    only, and the reservation may expire after its end. *)
Record own_job_only (a : actor) (T : datetime) (r r' : reservation) : Prop := OwnJobOnly {
  oj_identity : r_id r' = r_id r ∧ r_uid r' = r_uid r ∧ r_op_id r' = r_op_id r ∧
    r_operation_signature r' = r_operation_signature r;
  oj_booking : r_gpus r' = r_gpus r ∧ r_mode r' = r_mode r ∧ r_start_at r' = r_start_at r ∧ r_end_at r' = r_end_at r ∧
    r_created_at r' = r_created_at r ∧ r_expected_memory_mb r' = r_expected_memory_mb r;
  oj_units : json_eqb (default JNull (r_share_units r)) (default JNull (r_share_units r')) = true;
  oj_slots : whole_units (r_share_units r) = true → whole_units (r_share_units r') = true →
    ∀ capacity, reservation_share_units (r_share_units r') capacity = reservation_share_units (r_share_units r) capacity;
  oj_status : r_status r' = r_status r ∨
    r_uid r = a_uid a ∧ r_status r = STATUS_ACTIVE ∧ r_status r' = STATUS_EXPIRED ∧ r_end_at r ≤ T;
  oj_job key : key ∉ JOB_MUTABLE_FIELDS ∨ r_uid r ≠ a_uid a →
    json_eqb (job_member key r) (job_member key r') = true;
  oj_has_job : is_Some (r_job r) ↔ is_Some (r_job r');
}.

(** A stored reservation and what the user [a] may make of it: all members stay up to
    [==], but for the status, the update time and the job of an own one. *)
Inductive members_kept (a : actor) : json → json → Prop :=
  | own_members d d' : int_or_minus_one (assoc_get "uid" d) = Ok (a_uid a) →
      (∀ key, key ∉ own_fields → json_eqb (dict_get key d) (dict_get key d') = true) →
      members_kept a (JObj d) (JObj d')
  | foreign_members uid d d' : int_or_minus_one (assoc_get "uid" d) = Ok uid → uid ≠ a_uid a →
      json_eqb (JObj d') (JObj d) = true → members_kept a (JObj d) (JObj d').

Definition stored_reservations (doc : payload) : list json :=
  match dict_get "reservations" doc with JList l => l | _ => [] end.

Lemma changed_field_None free b r : changed_field free b r = None →
  ∀ k, k ∉ free → json_eqb (dict_get k b) (dict_get k r) = true.
Proof.
  unfold changed_field. intros H k Hk. destruct (decide (k ∈ b.*1 ++ r.*1)) as [Hin|Hn].
  - destruct (json_eqb (dict_get k b) (dict_get k r)) eqn:E; [done|exfalso].
    assert (Hf : k ∈ filter (λ k, k ∉ free ∧ json_eqb (dict_get k b) (dict_get k r) = false) (b.*1 ++ r.*1))
      by by apply list_elem_of_filter. by destruct (filter _ _); [apply not_elem_of_nil in Hf|].
  - rewrite not_elem_of_app in Hn. destruct Hn as [Hb Hr]. unfold dict_get.
    assert (Hnone : ∀ d : payload, k ∉ d.*1 → assoc_get k d = None).
    { clear. induction d as [|[x v] d IH]; [done|]. cbn. intros [Hx Hd]%not_elem_of_cons. rewrite bool_decide_false by done. by apply IH. }
    by rewrite !Hnone.
Qed.

Lemma is_text_iff s v : is_text s v = true ↔ v = JStr s.
Proof.
  unfold is_text. split; [|intros ->; cbn; by apply bool_decide_eq_true].
  destruct v as [| | |[]|t| |]; try done. cbn. by intros ->%bool_decide_eq_true.
Qed.

Lemma job_read v j : read_job v = Some j →
  j = match v with JObj kvs => Some (list_to_map kvs) | _ => None end ∧ (v = JNull ∨ ∃ kvs, v = JObj kvs).
Proof. destruct v; try done; intros [= <-]; split; eauto. Qed.

Lemma list_to_map_get (kvs : payload) key : default JNull ((list_to_map kvs : job) !! key) = dict_get key kvs.
Proof.
  unfold dict_get. f_equal. induction kvs as [|[k v] kvs IH]; [apply lookup_empty|]. cbn. case_bool_decide as E.
  - subst. apply lookup_insert_eq.
  - by rewrite lookup_insert_ne.
Qed.

(** The fields of the booking are read alike. *)
Lemma booking_read d d' r r' :
  (∀ k, k ∉ own_fields → json_eqb (dict_get k d) (dict_get k d') = true) →
  read_reservation d = Some r → read_reservation d' = Some r' →
  (r_id r' = r_id r ∧ r_uid r' = r_uid r ∧ r_op_id r' = r_op_id r ∧ r_operation_signature r' = r_operation_signature r) ∧
  (r_gpus r' = r_gpus r ∧ r_mode r' = r_mode r ∧ r_start_at r' = r_start_at r ∧ r_end_at r' = r_end_at r ∧
   r_created_at r' = r_created_at r ∧ r_expected_memory_mb r' = r_expected_memory_mb r).
Proof.
  intros H ((Hid & Hop & Huid & Hg) & (Hm & Hs & He & _) & (Hc & Hmem & Hsig) & _)%read_reservation_inv
    ((Hid' & Hop' & Huid' & Hg') & (Hm' & Hs' & He' & _) & (Hc' & Hmem' & Hsig') & _)%read_reservation_inv.
  assert (Hk : ∀ {A} (read : json → option A) k x y, agrees read → k ∉ own_fields → read (dict_get k d) = Some x →
    read (dict_get k d') = Some y → y = x).
  { intros A read k x y Hread Hk Hx Hy. symmetry. by apply (Hread _ _ _ _ (H k Hk)). }
  assert (Hf : ∀ k, bool_decide (k ∈ own_fields) = false → k ∉ own_fields) by (by intros k ?%bool_decide_eq_false).
  split_and!.
  - exact (Hk _ _ "id" _ _ agrees_text (Hf "id" eq_refl) Hid Hid').
  - exact (Hk _ _ "uid" _ _ agrees_uid (Hf "uid" eq_refl) Huid Huid').
  - exact (Hk _ _ "op_id" _ _ (agrees_optional _ agrees_text) (Hf "op_id" eq_refl) Hop Hop').
  - exact (Hk _ _ "operation_signature" _ _ (agrees_optional _ agrees_text) (Hf "operation_signature" eq_refl) Hsig Hsig').
  - exact (Hk _ _ "gpus" _ _ (agrees_list _ agrees_int) (Hf "gpus" eq_refl) Hg Hg').
  - exact (Hk _ _ "mode" _ _ agrees_text (Hf "mode" eq_refl) Hm Hm').
  - exact (Hk _ _ "start_at" _ _ agrees_time (Hf "start_at" eq_refl) Hs Hs').
  - exact (Hk _ _ "end_at" _ _ agrees_time (Hf "end_at" eq_refl) He He').
  - exact (Hk _ _ "created_at" _ _ (agrees_optional _ agrees_time) (Hf "created_at" eq_refl) Hc Hc').
  - exact (Hk _ _ "expected_memory_mb" _ _ (agrees_optional _ agrees_int) (Hf "expected_memory_mb" eq_refl) Hmem Hmem').
Qed.

(** The share units, where both are whole numbers the slots. *)
Lemma units_read d d' r r' : json_eqb (dict_get "share_units" d) (dict_get "share_units" d') = true →
  read_reservation d = Some r → read_reservation d' = Some r' →
  json_eqb (default JNull (r_share_units r)) (default JNull (r_share_units r')) = true ∧
  (whole_units (r_share_units r) = true → whole_units (r_share_units r') = true →
   ∀ capacity, reservation_share_units (r_share_units r') capacity = reservation_share_units (r_share_units r) capacity).
Proof.
  unfold dict_get, read_reservation. intros H Hr Hr'.
  repeat match goal with H : mbind _ _ = Some _ |- _ => apply bind_Some in H as (? & _ & H) end.
  injection Hr as <-. injection Hr' as <-. cbn [r_share_units]. split; [done|].
  destruct (assoc_get "share_units" d) as [v|], (assoc_get "share_units" d') as [v'|]; cbn [default] in H; unfold id in H; [| | |done].
  - intros Hw Hw' capacity. do 2 f_equal.
    destruct v; try done; destruct v'; try done; [by apply scalar_eq_int in H as ->|by apply json_eqb_str in H].
  - apply json_eqb_null_r in H. by subst v.
  - apply json_eqb_null in H. by subst.
Qed.

(** The jobs, by what is known of their fields. *)
Lemma job_kept (P : string → Prop) d d' r r' :
  read_reservation d = Some r → read_reservation d' = Some r' →
  match dict_get "job" d, dict_get "job" d' with
  | JObj j, JObj j' => ∀ k, P k → json_eqb (dict_get k j) (dict_get k j') = true
  | v, v' => json_eqb v v' = true
  end →
  (∀ key, P key → json_eqb (job_member key r) (job_member key r') = true) ∧ (is_Some (r_job r) ↔ is_Some (r_job r')).
Proof.
  intros (_ & _ & _ & Hj)%read_reservation_inv (_ & _ & _ & Hj')%read_reservation_inv.
  apply job_read in Hj as [Ej Sj], Hj' as [Ej' Sj']. unfold job_member. rewrite Ej, Ej'.
  destruct Sj as [->|[kvs ->]], Sj' as [->|[kvs' ->]]; try done.
  intros H. split; [|split; intros _; by eexists].
  intros key Hkey. cbn [mbind option_bind]. rewrite !list_to_map_get. by apply H.
Qed.

Lemma foreign_kept a T d d' r r' : readable (JObj d) → readable (JObj d') → json_eqb (JObj d') (JObj d) = true →
  read_reservation d = Some r → read_reservation d' = Some r' → r_uid r ≠ a_uid a → own_job_only a T r r'.
Proof.
  intros Hd Hd' Heq Hr Hr' Hu. apply json_eqb_sym in Heq; [|done..].
  pose proof (readable_keys _ Hd) as Nd. pose proof (readable_keys _ Hd') as Nd'.
  assert (Hk : ∀ k, json_eqb (dict_get k d) (dict_get k d') = true) by (intros; by apply json_eqb_get).
  destruct (booking_read d d' r r' (λ k _, Hk k) Hr Hr') as [Hi Hb].
  destruct (job_kept (λ _, True) d d' r r' Hr Hr') as [Hjob Hhas].
  { pose proof (Hk "job") as Hj. pose proof (readable_get "job" d Hd) as Rj. pose proof (readable_get "job" d' Hd') as Rj'.
    destruct (dict_get "job" d) as [| | | | | |j], (dict_get "job" d') as [| | | | | |j']; try done.
    cbv zeta. intros k Hkey. apply json_eqb_get; [by apply readable_keys..|done]. }
  destruct (units_read d d' r r' (Hk "share_units") Hr Hr') as [Hunits Hslots].
  split; [done|done|done|done| |intros key Hkey; by apply Hjob|done]. left.
  apply read_reservation_inv in Hr as (_ & (_ & _ & _ & Hs) & _), Hr' as (_ & (_ & _ & _ & Hs') & _).
  symmetry. by apply (agrees_text _ _ _ _ (Hk "status")).
Qed.

Lemma own_change_kept a T d d' r r' w w' :
  _validate_owned_reservation_job_change d d' w = (Ok tt, w') → read_by T w' →
  read_reservation d = Some r → read_reservation d' = Some r' → r_uid r = a_uid a → own_job_only a T r r'.
Proof.
  unfold _validate_owned_reservation_job_change. intros H HT Hr Hr' Hu.
  destruct (changed_field own_fields d d') eqn:Ef; [done|].
  destruct (booking_read d d' r r' (changed_field_None _ _ _ Ef) Hr Hr') as [Hi Hb].
  pose proof (read_reservation_inv _ _ Hr) as (_ & (_ & _ & He & Hs) & _ & _).
  pose proof (read_reservation_inv _ _ Hr') as (_ & (_ & _ & _ & Hs') & _ & _).
  destruct (dict_get "status" d) as [| | | |s| |] eqn:Es; try done. injection Hs as Hs.
  destruct (dict_get "status" d') as [| | | |s'| |] eqn:Es'; try done. injection Hs' as Hs'.
  destruct (negb (json_eqb (JStr s') (JStr s)) && negb (is_text "active" (JStr s) && is_text "expired" (JStr s'))) eqn:Est; [done|].
  apply M_bind_Ok in H as ([] & w1 & Hexp & Hj).
  assert (w1 = w') as ->.
  { destruct (dict_get "job" d), (dict_get "job" d');
      match type of Hj with
      | (match ?c with Some _ => _ | None => _ end) _ = _ => destruct c; [done|]; by apply M_ret_Ok in Hj as [_ ->]
      | (if ?c then _ else _) _ = _ => destruct c; [by apply M_ret_Ok in Hj as [_ ->]|done]
      end. }
  destruct (job_kept (λ key, key ∉ JOB_MUTABLE_FIELDS) d d' r r' Hr Hr') as [Hjob Hhas].
  { destruct (dict_get "job" d) as [| | | | | |j], (dict_get "job" d') as [| | | | | |j'];
      try match type of Hj with (if ?c then _ else _) _ = _ => destruct c eqn:E; [first [reflexivity|exact E]|done] end.
    destruct (changed_field JOB_MUTABLE_FIELDS j j') eqn:E; [done|]. cbv zeta. by apply changed_field_None. }
  destruct (units_read d d' r r') as [Hunits Hslots];
    [apply (changed_field_None _ _ _ Ef); by apply (bool_decide_eq_false _)|done..|].
  split; [done|done|done|done| |intros key [Hk|Hk]; [by apply Hjob|done]|done].
  apply andb_false_iff in Est as [E|E]; apply negb_false_iff in E.
  - left. apply bool_decide_eq_true in E. congruence.
  - apply andb_true_iff in E as [[= ->]%is_text_iff [= ->]%is_text_iff]. right.
    split; [done|]. split; [by rewrite <- Hs|]. split; [by rewrite <- Hs'|].
    cbn [is_text json_eqb scalar_eq] in Hexp. rewrite bool_decide_true, bool_decide_false in Hexp by done. cbn [andb negb] in Hexp.
    inv_M. destruct (dict_get "end_at" d) as [| | | |e| |]; try done. cbn in He.
    match goal with H : _string _ _ = Ok ?x |- _ => rename x into e'; cbn in H; case_bool_decide; [done|]; injection H as -> end.
    match goal with H : parse_iso _ = Ok ?x |- _ => rewrite H in He; injection He as -> end.
    match goal with H : utc_now _ = (Ok ?n, ?v), H' : (if ?b then _ else _) _ = _ |- _ =>
      destruct (Z.ltb_spec n (r_end_at r)); [done|]; apply M_ret_Ok in H' as [_ ->];
      pose proof (read_by_now _ _ _ _ H HT) end. lia.
Qed.

Lemma forward_own_change b r : forward (_validate_owned_reservation_job_change b r).
Proof.
  unfold _validate_owned_reservation_job_change. destruct (changed_field own_fields b r); [apply forward_raise|].
  cbv zeta. destruct (_ && _); [apply forward_raise|]. apply forward_bind.
  - destruct (_ && _); [|apply forward_ret]. repeat (apply forward_bind; [first [apply forward_lift|apply forward_utc_now]|intros ?]).
    case_match; [apply forward_raise|apply forward_ret].
  - intros _. repeat case_match; first [apply forward_ret|apply forward_raise].
Qed.

Lemma forward_own_changes a before after : forward (own_changes a before after).
Proof.
  revert after. induction before as [|b before IH]; intros [|r after]; cbn [own_changes]; try apply forward_ret;
    destruct b; try apply forward_ret; try apply forward_raise.
  destruct r; try apply forward_raise. destruct (negb _); [apply forward_raise|].
  apply forward_bind; [apply forward_lift|]. intros uid. destruct (negb _).
  - destruct (negb _); [apply forward_raise|apply IH].
  - apply forward_bind; [apply forward_own_change|]. intros _. apply forward_bind; [apply IH|]. intros ?. apply forward_ret.
Qed.

Lemma forward_each_log a owned logs : forward (each_log a owned logs).
Proof.
  induction logs as [|raw logs IH]; cbn [each_log]; [apply forward_ret|]. apply forward_bind.
  - unfold sanitized_log. repeat case_match; try apply forward_raise;
      (apply forward_bind; [apply forward_utc_now|intros ?; apply forward_ret]).
  - intros ?. apply forward_bind; [apply IH|]. intros ?. apply forward_ret.
Qed.

Lemma uid_read d uid u : int_or_minus_one (assoc_get "uid" d) = Ok uid → read_uid (dict_get "uid" d) = Some u → u = uid.
Proof.
  unfold dict_get. destruct (assoc_get "uid" d) as [[]|]; try done; cbn; [congruence|].
  destruct (py_int s); [congruence|done].
Qed.

Lemma text_member_read d r : read_reservation d = Some r → text_member "id" d = r_id r.
Proof.
  intros ((Hid & _) & _)%read_reservation_inv. unfold text_member, dict_get in *.
  destruct (assoc_get "id" d) as [[]|]; try done. cbn in *. congruence.
Qed.

Lemma own_changes_spec a T before after w owned w' rs rs' :
  own_changes a before after w = (Ok owned, w') → length before = length after → read_by T w' →
  Forall readable before → Forall readable after →
  mapM (read_object read_reservation) before = Some rs → mapM (read_object read_reservation) after = Some rs' →
  Forall2 (own_job_only a T) rs rs' ∧ Forall2 (members_kept a) before after ∧
  ∀ id d, (id, d) ∈ owned → ∃ r, r ∈ rs ∧ r_id r = id ∧ r_uid r = a_uid a.
Proof.
  revert after w owned rs rs'. induction before as [|b before IH]; intros [|r after] w owned rs rs' H Hl HT Hb Hr Hrs Hrs'; try done.
  { change (Some [] = Some rs) in Hrs. change (Some [] = Some rs') in Hrs'. injection Hrs as <-. injection Hrs' as <-.
    apply M_ret_Ok in H as [<- _]. split; [constructor|]. split; [constructor|]. by intros id d ?%not_elem_of_nil. }
  apply Forall_cons in Hb as [Hb Hbs], Hr as [Hr Hrest]. injection Hl as Hl.
  apply mapM_Some in Hrs, Hrs'. inversion_clear Hrs as [|? x ? xs Hx Hxs]. inversion_clear Hrs' as [|? x' ? xs' Hx' Hxs'].
  apply mapM_Some in Hxs, Hxs'.
  destruct b as [| | | | | |d]; try done. destruct r as [| | | | | |d']; try done. cbn [own_changes] in H.
  destruct (negb _); [done|]. apply M_bind_Ok in H as (uid & w1 & [Huid ->]%lift_Ok & H).
  cbn [read_object] in Hx, Hx'. pose proof (read_reservation_inv _ _ Hx) as ((_ & _ & Hu & _) & _).
  pose proof (uid_read _ _ _ Huid Hu) as <-. destruct (Z.eqb_spec (r_uid x) (a_uid a)) as [Eu|Eu]; cbn [negb] in H.
  - apply M_bind_Ok in H as ([] & w2 & Hval & H). apply M_bind_Ok in H as (owned' & w3 & Hrec & H).
    apply M_ret_Ok in H as [<- <-]. destruct (IH after w2 owned' xs xs' Hrec) as (Hall & Hkept & Hown); [done..|].
    split_and!; [| |].
    + constructor; [|done]. eapply own_change_kept; [exact Hval| |done..].
      eapply read_by_earlier; [|exact HT]. eapply forward_Ok; [apply forward_own_changes|exact Hrec].
    + constructor; [|done]. apply own_members; [by rewrite Huid, Eu|].
      unfold _validate_owned_reservation_job_change in Hval. destruct (changed_field own_fields d d') eqn:Ef; [done|].
      by apply changed_field_None.
    + intros id d1 [[= -> ->]|Hin]%elem_of_cons.
      * exists x. split; [by left|]. split; [|done]. symmetry. by apply text_member_read.
      * destruct (Hown id d1 Hin) as (y & Hy & ?). exists y. split; [by right|done].
  - destruct (json_eqb (JObj d') (JObj d)) eqn:E; cbn [negb] in H; [|done].
    destruct (IH after _ owned xs xs' H) as (Hall & Hkept & Hown); [done..|]. split_and!; [| |].
    + constructor; [|done]. by apply (foreign_kept a T d d').
    + constructor; [|done]. by apply (foreign_members a (r_uid x)).
    + intros id d1 Hin. destruct (Hown id d1 Hin) as (y & Hy & ?). exists y. split; [by right|done].
Qed.

(** The records that reach the audit log. *)
Lemma each_log_spec a owned logs w sanitized w' log :
  each_log a owned logs w = (Ok sanitized, w') → log ∈ sanitized →
  dict_get "uid" log = JInt (a_uid a) ∧ ∃ id d, (id, d) ∈ owned ∧ dict_get "reservation_id" log = JStr id.
Proof.
  revert w sanitized. induction logs as [|raw logs IH]; intros w sanitized H Hin; cbn [each_log] in H.
  { apply M_ret_Ok in H as [<- _]. by apply not_elem_of_nil in Hin. }
  apply M_bind_Ok in H as (log1 & w1 & H1 & H). apply M_bind_Ok in H as (rest & w2 & H2 & H).
  apply M_ret_Ok in H as [<- <-]. apply elem_of_cons in Hin as [->|Hin]; [|by eapply IH].
  unfold sanitized_log in H1. destruct raw as [| | | | | |raw]; try done.
  destruct (dict_get "reservation_id" raw) as [| | | |id| |]; try done.
  destruct (assoc_get id (rev owned)) as [d|] eqn:Ed; [|done]. destruct (valid_action _); [|done].
  apply M_bind_Ok in H1 as (ts & w3 & _ & H1). apply M_ret_Ok in H1 as [<- _].
  split; [done|]. exists id, d. split; [|done]. apply list_elem_of_In, in_rev, list_elem_of_In. by apply assoc_get_elem.
Qed.

Lemma check_fields_Ok current proposed before after :
  check_ledger_fields current proposed = Ok (before, after) →
  dict_get "reservations" current = JList before ∧ dict_get "reservations" proposed = JList after ∧
  length before = length after ∧ same_keys current proposed = true ∧
  ∀ key, key ≠ "reservations" → json_eqb (dict_get key proposed) (dict_get key current) = true.
Proof.
  unfold check_ledger_fields. destruct (same_keys current proposed) eqn:Hk; [|done]. cbn [negb].
  destruct (filter _ current.*1) as [|k ks] eqn:Ef; [|done].
  destruct (dict_get "reservations" current) as [| | | | |l|]; try done.
  destruct (dict_get "reservations" proposed) as [| | | | |l'|]; try done.
  destruct (Z.eqb_spec (Z.of_nat (length l)) (Z.of_nat (length l'))); [|done]. cbn [negb]. intros [= -> ->].
  split_and!; [done..|lia|done|]. intros key Hkey. destruct (decide (key ∈ current.*1)) as [Hin|Hn].
  - destruct (json_eqb (dict_get key proposed) (dict_get key current)) eqn:E; [done|exfalso].
    assert (Hf : key ∈ filter (λ k, k ≠ "reservations" ∧ json_eqb (dict_get k proposed) (dict_get k current) = false) current.*1)
      by by apply list_elem_of_filter. rewrite Ef in Hf. by apply not_elem_of_nil in Hf.
  - assert (Hn' : key ∉ proposed.*1).
    { intros Hin. apply Hn. unfold same_keys in Hk. apply andb_true_iff in Hk as [_ Hk]. rewrite forallb_forall in Hk.
      specialize (Hk key (proj1 (list_elem_of_In _ _) Hin)). by apply bool_decide_eq_true in Hk. }
    assert (Hnone : ∀ d : payload, key ∉ d.*1 → dict_get key d = JNull).
    { clear. unfold dict_get. induction d as [|[x v] d IH]; [done|]. cbn. intros [Hx Hd]%not_elem_of_cons.
      rewrite bool_decide_false by done. by apply IH. }
    by rewrite !Hnone.
Qed.

Lemma own_job_mutator_run base changed mismatch propose logs a current w proposed answer sanitized ch w' :
  own_job_mutator base changed mismatch propose logs a current w = (Ok (proposed, answer, sanitized, ch), w') →
  committed answer = Ok true →
  _ledger_digest current = Ok base ∧ propose current = Ok proposed ∧ ch = changed ∧
  ch = negb (json_eqb (JObj proposed) (JObj current)) ∧
  _validate_own_job_mutation current proposed logs a w = (Ok sanitized, w').
Proof.
  unfold own_job_mutator. intros H Hc. apply M_bind_Ok in H as (digest & w1 & [Hd ->]%lift_Ok & H).
  case_bool_decide as E; cbn [negb] in H; [|apply M_ret_Ok in H as [[= <- <- <- <-] _]; done]. subst digest.
  apply M_bind_Ok in H as (p1 & w2 & [Hp ->]%lift_Ok & H). apply M_bind_Ok in H as (s1 & w3 & Hv & H).
  destruct (Bool.eqb changed _) eqn:Eb; cbn [negb] in H; [|done]. apply M_ret_Ok in H as [[= <- <- <- <-] <-].
  apply Bool.eqb_prop in Eb. by split_and!.
Qed.

(** C13: what one may do to the ledger through the broker. Whatever a client sends as
    a transaction on its jobs, also one of its own making: where the broker commits it,
    all members of all reservations stay up to Python's [==], but for the status, the
    update time and the job of own ones. So the scheduler reads of each the owner, GPUs,
    mode, times and signature it read before, and the same slots where the share units
    are whole numbers before and after ([==] does not tell 1 from [true], which counts as
    the whole GPU: [other_reservation_changed]). An own reservation at most expires, and
    only after its end, the specification and digest of a job stay, and each record for
    the audit log carries the identity of the caller and an own reservation. A GPU is held
    at every instant by the reservations that held it before, or fewer. *)
Theorem commit_own_job_safe p a mutate current w proposed answer sanitized ch w' l l' T :
  _commit_own_job_transaction p a = Ok mutate ∨ _commit_own_job_patch p a = Ok mutate →
  mutate current w = (Ok (proposed, answer, sanitized, ch), w') → committed answer = Ok true →
  readable (JObj current) → readable (JObj proposed) →
  read_ledger (JObj current) = Some l → read_ledger (JObj proposed) = Some l' → read_by T w' →
  Forall2 (own_job_only a T) (l_reservations l) (l_reservations l') ∧
  Forall2 (members_kept a) (stored_reservations current) (stored_reservations proposed) ∧
  (∀ key, key ≠ "reservations" → json_eqb (dict_get key proposed) (dict_get key current) = true) ∧
  (∀ log, log ∈ sanitized → dict_get "uid" log = JInt (a_uid a) ∧
     ∃ r, r ∈ l_reservations l ∧ r_uid r = a_uid a ∧ dict_get "reservation_id" log = JStr (r_id r)) ∧
  (∀ g t r', r' ∈ l_reservations l' → holds_at g t r' →
     ∃ r, r ∈ l_reservations l ∧ own_job_only a T r r' ∧ holds_at g t r).
Proof.
  intros Hp Hrun Hc Hcur Hprop Hl Hl' HT.
  assert (Hm : ∃ base changed mismatch propose logs, mutate = own_job_mutator base changed mismatch propose logs a).
  { destruct Hp as [H|H].
    - unfold _commit_own_job_transaction in H. inv_res. destruct (dict_get "ledger" p); try done.
      destruct (dict_get "logs" p); try done. destruct (256 <? _); [done|]. injection H as <-. by repeat eexists.
    - unfold _commit_own_job_patch in H. inv_res. destruct (dict_get "changes" p); try done.
      destruct (dict_get "logs" p); try done. do 2 (destruct (BROKER_MAX_JOB_CHANGES <? _); [done|]).
      injection H as <-. by repeat eexists. }
  destruct Hm as (base & changed & mismatch & propose & logs & ->).
  apply own_job_mutator_run in Hrun as (_ & _ & _ & _ & Hval); [|done].
  unfold _validate_own_job_mutation in Hval. apply M_bind_Ok in Hval as ([before after] & w1 & [Hf ->]%lift_Ok & Hval).
  apply M_bind_Ok in Hval as (owned & w2 & Hown & Hlogs).
  destruct (check_fields_Ok _ _ _ _ Hf) as (Hb & Ha & Hlen & _ & Hkeys).
  assert (Hrs : mapM (read_object read_reservation) before = Some (l_reservations l)).
  { cbn [read_ledger] in Hl. rewrite Hb in Hl. apply bind_Some in Hl as (rs & Hrs & Hl).
    repeat (apply bind_Some in Hl as (? & _ & Hl)). by injection Hl as <-. }
  assert (Hrs' : mapM (read_object read_reservation) after = Some (l_reservations l')).
  { cbn [read_ledger] in Hl'. rewrite Ha in Hl'. apply bind_Some in Hl' as (rs & Hrs' & Hl').
    repeat (apply bind_Some in Hl' as (? & _ & Hl')). by injection Hl' as <-. }
  pose proof (readable_get "reservations" _ Hcur) as Rb. rewrite Hb, readable_list in Rb.
  pose proof (readable_get "reservations" _ Hprop) as Ra. rewrite Ha, readable_list in Ra.
  assert (HT2 : read_by T w2) by (eapply read_by_earlier; [eapply forward_Ok; [apply forward_each_log|exact Hlogs]|done]).
  destruct (own_changes_spec _ _ _ _ _ _ _ _ _ Hown Hlen HT2 Rb Ra Hrs Hrs') as (Hall & Hkept & Howned).
  split_and!; [done|unfold stored_reservations; by rewrite Hb, Ha|done| |].
  - intros log Hin. destruct (each_log_spec _ _ _ _ _ _ _ Hlogs Hin) as [Hu (id & d & Hd & Hid)].
    split; [done|]. destruct (Howned id d Hd) as (r & Hr & <- & Hru). by exists r.
  - intros g t r' Hr' (Hs & Hg & Ht). apply list_elem_of_lookup in Hr' as [i Hi].
    destruct (Forall2_lookup_r _ _ _ _ _ Hall Hi) as (r & Hr & Hj). exists r.
    split; [by eapply list_elem_of_lookup_2|]. split; [done|].
    destruct (oj_booking _ _ _ _ Hj) as (Eg & _ & Es & Ee & _). unfold holds_at. rewrite <- Eg, <- Es, <- Ee.
    split; [|done]. destruct (oj_status _ _ _ _ Hj) as [E|(_ & _ & E & _)]; [congruence|]. rewrite E in Hs. done.
Qed.

(** ** A transaction of a client takes effect at once *)

(** The broker on the ledger [doc], at the world [w], asked for a patch. *)
Definition broker_patch (a : actor) (doc : payload) (w : world) (p : payload)
    : res (payload * json * list payload * bool) :=
  mutate ← _commit_own_job_patch (canonical_members p) a; (mutate doc w).1.

(** What the client gets, as over the socket. *)
Definition broker_answer (a : actor) (doc : payload) (w : world) (operation : string) (p : payload) : res json :=
  match broker_patch a doc w p with
  | Ok (_, answer, _, _) => Ok answer
  | Raise e => Raise (BookingError (rejection_text e))
  end.

(** A ledger as the store loads it. *)
Definition loaded (doc : payload) : Prop := readable (JObj doc) ∧ canonical (JObj doc) = JObj doc.

(** The text whose digest stands for a ledger. *)
Definition digested (doc : payload) : string := PyBase.text (frame_text (JObj doc)).

Lemma digest_text doc : readable (JObj doc) → _ledger_digest doc = Ok (sha256_hexdigest (digested doc)).
Proof. intros Hr. unfold _ledger_digest, dumps_nan. by rewrite readable_printable. Qed.

(** Two ledgers whose different texts have one SHA-256 digest. *)
Definition digests_collide (doc doc' : payload) : Prop :=
  digested doc ≠ digested doc' ∧ sha256_hexdigest (digested doc) = sha256_hexdigest (digested doc').

(** Equal digests of two ledgers: the same ledger, or a collision of SHA-256 at their texts. *)
Lemma digest_binds doc doc' d : loaded doc → loaded doc' → _ledger_digest doc = Ok d → _ledger_digest doc' = Ok d →
  doc = doc' ∨ digests_collide doc doc'.
Proof.
  intros [Hr Hc] [Hr' Hc'] Hd Hd'. rewrite digest_text in Hd, Hd' by done. injection Hd as Hd. injection Hd' as Hd'.
  destruct (decide (digested doc = digested doc')) as [E|E]; [|right; split; [exact E|congruence]].
  left. unfold digested in E. apply (f_equal chars) in E. rewrite !chars_text in E.
  assert (Hl : ∀ v, readable v → loads (frame_text v) = Some (canonical v)).
  { intros v Hv. unfold frame_text. rewrite <- (app_nil_r (print_value compact 0 v)). by apply loads_print. }
  pose proof (Hl _ Hr) as H1. rewrite E, Hl, Hc, Hc' in H1 by done. congruence.
Qed.

Lemma canonical_change index r :
  canonical (JObj [("index", JInt index); ("reservation", JObj r)]) =
  JObj [("index", JInt index); ("reservation", JObj (canonical_members r))].
Proof. rewrite canonical_obj. unfold canonical_members at 1. cbn [map]. rewrite canonical_obj. done. Qed.

Lemma Ok_inj {A} (x y : A) : Ok x = Ok y → x = y.
Proof. congruence. Qed.

Lemma apply_one pre b before seen index r acc :
  index = Z.of_nat (length pre) →
  apply_change (pre ++ b :: before, seen) (canonical (JObj [("index", JInt index); ("reservation", JObj r)])) = Ok acc →
  acc = (pre ++ JObj (canonical_members r) :: before, index :: seen).
Proof.
  intros -> H. rewrite canonical_change in H. unfold apply_change in H. inv_res.
  change (dict_get "index" _) with (JInt (Z.of_nat (length pre))) in *.
  match goal with H : _integer _ _ = Ok ?i |- _ => injection H as <- end.
  destruct (_ || _); [done|]. case_bool_decide; [done|].
  change (dict_get "reservation" _) with (JObj (canonical_members r)) in *.
  injection H as <-. rewrite Nat2Z.id, insert_app_r_alt, Nat.sub_diag by done. done.
Qed.

Lemma changes_applied before after index changes pre seen reservations seen' :
  changes_from index before after = Ok changes → length before = length after → index = Z.of_nat (length pre) →
  Forall readable after →
  fold_res apply_change (pre ++ before, seen) (map canonical changes) = Ok (reservations, seen') →
  ∃ now, reservations = pre ++ now ∧ Forall2 (λ v r, json_eqb v r = true) now after.
Proof.
  revert after index changes pre seen.
  induction before as [|b before IH]; intros [|r after] index changes pre seen H Hl Hi Hr Hf; try done.
  { injection H as <-. injection Hf as <- <-. exists []. by rewrite app_nil_r. }
  apply Forall_cons in Hr as [Hr Hrs]. injection Hl as Hl.
  destruct b as [| | | | | |b]; try done. destruct r as [| | | | | |r]; try done. cbn [changes_from] in H.
  destruct (negb _); [done|]. apply res_bind_Ok in H as (rest & Hrest & H).
  destruct (json_eqb (JObj b) (JObj r)) eqn:E; apply Ok_inj in H; subst changes.
  - rewrite cons_middle, app_assoc in Hf.
    destruct (IH after (index + 1) rest (pre ++ [JObj b]) seen) as (now & -> & Hall);
      [done|done|rewrite length_app; cbn; lia|done|done|].
    exists (JObj b :: now). rewrite <- app_assoc. split; [done|]. by constructor.
  - cbn [map fold_res] in Hf. apply res_bind_Ok in Hf as (acc & Hacc & Hf).
    rewrite (apply_one _ _ _ _ _ _ _ Hi Hacc), cons_middle, app_assoc in Hf.
    destruct (IH after (index + 1) rest (pre ++ [JObj (canonical_members r)]) (index :: seen)) as (now & -> & Hall);
      [done|done|rewrite length_app; cbn; lia|done|done|].
    exists (JObj (canonical_members r) :: now). rewrite <- app_assoc. split; [done|]. constructor; [|done].
    rewrite <- canonical_obj. by apply json_eqb_canonical.
Qed.

Lemma NoDup_obj_set k v (kvs : payload) : NoDup kvs.*1 → NoDup (obj_set k v kvs).*1.
Proof.
  induction kvs as [|[k0 v0] kvs IH]; cbn [obj_set]; [intros _; apply NoDup_singleton|]. csimpl. intros [Hk Hd]%NoDup_cons.
  case_bool_decide as E; csimpl; apply NoDup_cons; [done|]. split; [|by apply IH].
  rewrite obj_set_keys. intros [->|?]; done.
Qed.

Lemma apply_changes_spec current new before after changes proposed :
  readable (JObj current) → readable (JObj new) → check_ledger_fields current new = Ok (before, after) →
  changes_from 0 before after = Ok changes → apply_changes (map canonical changes) current = Ok proposed →
  json_eqb (JObj proposed) (JObj new) = true.
Proof.
  intros Hc Hn Hf Hch H. destruct (check_fields_Ok _ _ _ _ Hf) as (Hb & Ha & Hl & Hkeys & Hsame).
  unfold apply_changes in H. rewrite Hb in H. apply res_bind_Ok in H as ([reservations seen] & Hfold & H). injection H as <-.
  pose proof (readable_get "reservations" _ Hc) as Rb. rewrite Hb, readable_list in Rb.
  pose proof (readable_get "reservations" _ Hn) as Ra. rewrite Ha, readable_list in Ra.
  destruct (changes_applied before after 0 changes [] [] reservations seen) as (now & -> & Hall); [done..|]. cbn [app].
  pose proof (readable_keys _ Hc) as Nc. pose proof (readable_keys _ Hn) as Nn.
  rewrite json_eqb_obj; [|by apply NoDup_obj_set|done]. intros k. rewrite obj_set_get. case_bool_decide as E.
  - subst k. unfold dict_get in Ha. destruct (assoc_get "reservations" new) as [v|]; [|done]. cbn in Ha. subst v.
    by apply json_eqb_list.
  - assert (Hs : json_eqb (dict_get k current) (dict_get k new) = true).
    { apply json_eqb_sym; [by apply readable_get..|by apply Hsame]. }
    assert (Hin : k ∈ current.*1 ↔ k ∈ new.*1).
    { unfold same_keys in Hkeys. apply andb_true_iff in Hkeys as [H1 H2]. rewrite forallb_forall in H1, H2.
      split; intros Hin%list_elem_of_In; [specialize (H1 k Hin)|specialize (H2 k Hin)]; by apply bool_decide_eq_true in H1 || apply bool_decide_eq_true in H2. }
    rewrite !elem_of_keys in Hin. unfold dict_get in Hs.
    destruct (assoc_get k current), (assoc_get k new); [done|..|done]; naive_solver.
Qed.

(** What the broker does with the patch of a client. *)
Lemma broker_patch_run a doc w base changes logs changed r :
  broker_patch a doc w (patch_payload base changes logs changed) = Ok r →
  ∃ logs' mismatch w', own_job_mutator base changed mismatch (apply_changes (map canonical changes)) logs' a doc w = (Ok r, w').
Proof.
  intros H. unfold broker_patch in H. apply res_bind_Ok in H as (mutate & Hm & H).
  unfold _commit_own_job_patch in Hm. rewrite !dict_get_canonical in Hm by decide_now.
  apply res_bind_Ok in Hm as (_ & _ & Hm).
  change (dict_get "base_digest" _) with (JStr base) in Hm. change (dict_get "changed" _) with (JBool changed) in Hm.
  change (dict_get "changes" _) with (JList changes) in Hm. change (dict_get "logs" _) with (json_logs logs) in Hm.
  unfold json_logs in Hm. rewrite !canonical_list in Hm. inv_res.
  match goal with H : _string _ _ = Ok ?b |- _ => cbn in H; case_bool_decide; [done|]; injection H as <- end.
  match goal with H : _boolean _ _ = Ok ?b |- _ => injection H as <- end.
  do 2 (destruct (BROKER_MAX_JOB_CHANGES <? _); [done|]). injection Hm as <-.
  destruct (own_job_mutator _ _ _ _ _ _ doc w) as [r' w'] eqn:E. cbn in H. subst r'. by eexists _, _, _.
Qed.

Section Rounds.
Context {T : Type} (mutate : mutator T) (a : actor) (snap stored : nat → payload) (ws : nat → world).
Hypothesis Hsnap : ∀ i, loaded (snap i).
Hypothesis Hstored : ∀ i, loaded (stored i).
Hypothesis Hnew : ∀ i w new x logs ch w', mutate (snap i) w = (Ok (new, x, logs, ch), w') → readable (JObj new).

(** The round [i] of the client ends its transaction with the result [x]. *)
Definition takes_effect (i : nat) (x : T) : Prop :=
  ∃ w1 w2 new logs ch, mutate (snap i) w1 = (Ok (new, x, logs, ch), w2) ∧
    ((ch = false ∧ logs = []) ∨
     ∃ p proposed answer sanitized, broker_patch a (stored i) (ws i) p = Ok (proposed, answer, sanitized, ch) ∧
       committed answer = Ok true ∧
       ((stored i = snap i ∧ json_eqb (JObj proposed) (JObj new) = true) ∨ digests_collide (stored i) (snap i))).

(** In the round [i] the broker changes nothing. *)
Definition refused (i : nat) : Prop :=
  ∃ p answer, broker_patch a (stored i) (ws i) p = Ok (stored i, answer, [], false) ∧ committed answer = Ok false.

Lemma round_case i base changes logs ch answer done :
  let p := patch_payload base changes logs ch in
  broker_answer a (stored i) (ws i) BROKER_JOB_PATCH_OPERATION p = Ok answer → committed answer = Ok done →
  ∃ proposed sanitized ch', broker_patch a (stored i) (ws i) p = Ok (proposed, answer, sanitized, ch') ∧
    if (done : bool) then ch' = ch ∧ _ledger_digest (stored i) = Ok base ∧ apply_changes (map canonical changes) (stored i) = Ok proposed
    else proposed = stored i ∧ sanitized = [] ∧ ch' = false.
Proof.
  intros p H Hc. unfold broker_answer in H.
  destruct (broker_patch a (stored i) (ws i) p) as [[[[proposed answer'] sanitized] ch']|e] eqn:E; [|done].
  injection H as ->. exists proposed, sanitized, ch'. split; [done|].
  destruct (broker_patch_run _ _ _ _ _ _ _ _ E) as (logs' & mismatch & w' & Hrun). destruct done.
  - apply own_job_mutator_run in Hrun as (Hd & Hp & -> & _); [|done]. by split_and!.
  - unfold own_job_mutator in Hrun. apply M_bind_Ok in Hrun as (digest & w1 & [Hd <-]%lift_Ok & Hrun).
    case_bool_decide; cbn [negb] in Hrun; [|apply M_ret_Ok in Hrun as [[= <- <- <- <-] _]; done].
    apply M_bind_Ok in Hrun as (p1 & w2 & _ & Hrun). apply M_bind_Ok in Hrun as (s1 & w3 & _ & Hrun).
    destruct (Bool.eqb ch _); cbn [negb] in Hrun; [|done]. apply M_ret_Ok in Hrun as [[= <- <- <- <-] _]. done.
Qed.

Lemma patch_rounds_spec n i w x w' :
  patch_rounds mutate (λ i, Ok (snap i)) (λ i, broker_answer a (stored i) (ws i)) n i w = (Ok x, w') →
  ∃ k, (k < n)%nat ∧ takes_effect (i + k) x ∧ ∀ j, (j < k)%nat → refused (i + j).
Proof.
  revert i w. induction n as [|n IH]; intros i w H; cbn [patch_rounds] in H; [done|].
  apply M_bind_Ok in H as (current & w1 & [[= <-] ->]%lift_Ok & H).
  apply M_bind_Ok in H as (base & w2 & [Hbase ->]%lift_Ok & H).
  apply M_bind_Ok in H as ([[[new x'] logs] ch] & w3 & Hmut & H). pose proof (Hnew _ _ _ _ _ _ _ Hmut) as Rnew.
  destruct (negb ch && bool_decide (logs = [])) eqn:E.
  { apply M_ret_Ok in H as [<- _]. exists O. split; [lia|]. split; [|intros j ?; lia]. rewrite Nat.add_0_r.
    apply andb_true_iff in E as [->%negb_true_iff ->%bool_decide_eq_true]. eexists _, _, new, [], false. split; [exact Hmut|by left]. }
  apply M_bind_Ok in H as (changes & w4 & [Hch ->]%lift_Ok & H).
  apply M_bind_Ok in H as (answer & w5 & [Hans ->]%lift_Ok & H).
  apply M_bind_Ok in H as (done & w6 & [Hdone ->]%lift_Ok & H).
  destruct (round_case _ _ _ _ _ _ _ Hans Hdone) as (proposed & sanitized & ch' & Hpatch & Hround). destruct done.
  - apply M_ret_Ok in H as [<- _]. exists O. split; [lia|]. split; [|intros j ?; lia]. rewrite Nat.add_0_r.
    destruct Hround as (-> & Hd & Happly). eexists _, _, new, logs, ch. split; [exact Hmut|]. right.
    eexists _, proposed, answer, sanitized. split; [exact Hpatch|]. split; [done|].
    destruct (digest_binds _ _ _ (Hstored i) (Hsnap i) Hd Hbase) as [Heq|Hcol]; [left|by right]. split; [done|].
    unfold _job_transaction_changes in Hch. apply res_bind_Ok in Hch as ([before after] & Hf & Hch).
    apply res_bind_Ok in Hch as (cs & Hcs & Hch). destruct (BROKER_MAX_JOB_CHANGES <? _); [done|]. apply Ok_inj in Hch as ->.
    rewrite Heq in Happly. by apply (apply_changes_spec (snap i) new before after changes); [apply Hsnap|..].
  - destruct Hround as (-> & -> & ->). destruct (IH (S i) _ H) as (k & Hk & Heff & Href).
    exists (S k). split; [lia|]. rewrite Nat.add_succ_r. split; [exact Heff|]. intros [|j] Hj.
    + rewrite Nat.add_0_r. by eexists _, answer.
    + rewrite Nat.add_succ_r. apply Href. lia.
Qed.
End Rounds.

(** C14: a transaction of a worker through the broker is one transaction on the ledger.
    Whatever others write between its reads and its requests, when it returns a result,
    its function has computed that result from the ledger it read in its last round, and
    either had nothing to write, or the broker committed it on that very ledger and then
    holds what the function made of it, unless the texts of the two ledgers differ and
    have one SHA-256 digest; in the rounds before the broker changed nothing. *)
Theorem patch_transaction_atomic {T} (mutate : mutator T) a snap stored ws x w w' :
  (∀ i, loaded (snap i)) → (∀ i, loaded (stored i)) →
  (∀ i w new x logs ch w', mutate (snap i) w = (Ok (new, x, logs, ch), w') → readable (JObj new)) →
  _patch_transaction mutate (λ i, Ok (snap i)) (λ i, broker_answer a (stored i) (ws i)) w = (Ok x, w') →
  ∃ k, (k < BROKER_TRANSACTION_RETRIES)%nat ∧ takes_effect mutate a snap stored ws k x ∧
    ∀ j, (j < k)%nat → refused a stored ws j.
Proof.
  intros Hs Hst Hn H. by destruct (patch_rounds_spec mutate a snap stored ws Hs Hst Hn _ _ _ _ _ H) as (k & ? & ? & ?); exists k.
Qed.

(** ** Examples *)

Ltac readable_tac :=
  repeat first
    [ apply (proj2 (readable_obj _)); split; [decide_now|] | apply (proj2 (readable_list _)) | apply Forall_cons_2 | apply Forall_nil_2
    | exact I | reflexivity ]; cbn [snd].

Definition shared_record (id : string) (uid : Z) (units : json) (job : payload) : json :=
  JObj [("id", JStr id); ("uid", JInt uid); ("mode", JStr "shared"); ("status", JStr "active");
        ("gpus", JList [JInt 0]); ("start_at", JStr "2026-01-01T12:00:00Z");
        ("end_at", JStr "2026-01-01T13:00:00Z"); ("share_units", units); ("job", JObj job)].

Definition job_in_progress (message : string) : payload :=
  [("status", JStr "running"); ("digest", JStr "d0"); ("message", JStr message)].

Definition two_users_members (units : json) (message : string) : payload :=
  [("version", JInt 1);
   ("reservations", JList [shared_record "r1" 1000 (JInt 1) (job_in_progress message); shared_record "r2" 1001 units []])].

Definition two_users (units : json) (message : string) : payload := canonical_members (two_users_members units message).

Definition ada_peer : actor := Actor 1000 "ada".

Definition digest_of (doc : payload) : string := match _ledger_digest doc with Ok d => d | Raise _ => "" end.

Definition patch_of (doc : payload) (replacements : list json) (changed : bool) : payload :=
  patch_payload (digest_of doc)
    (imap (λ i r, JObj [("index", JInt (Z.of_nat i)); ("reservation", r)]) replacements) [] changed.

(** The patch of the own job, and with it the slots of the other user, as [true]. *)
Definition honest_patch : payload :=
  patch_of (two_users (JInt 1) "") [shared_record "r1" 1000 (JInt 1) (job_in_progress "step 1")] true.

Definition punning_patch : payload :=
  patch_of (two_users (JInt 1) "")
    [shared_record "r1" 1000 (JInt 1) (job_in_progress "step 1"); shared_record "r2" 1001 (JBool true) []] true.

Definition slots_held (doc : payload) : option Z :=
  l ← read_ledger (JObj doc);
  Some (sumZ (λ r, reservation_share_units (r_share_units r) 2) (l_reservations l)).

(** The broker compares values as Python does, and [1 == True]. A user who changes
    an own job may turn the slots of another user's reservation into a truth value;
    the schema accepts it, and the scheduler counts it as the whole GPU. *)
Theorem other_reservation_changed :
  match broker_patch ada_peer (two_users (JInt 1) "") (World (λ _, 0) (λ _, "") 0 0) punning_patch with
  | Ok (proposed, answer, _, changed) =>
      committed answer = Ok true ∧ changed = true ∧ validate_ledger_document (JObj proposed) = Ok tt ∧
      slots_held (two_users (JInt 1) "") = Some 2 ∧ slots_held proposed = Some 3
  | Raise _ => False
  end.
Proof. vm_compute. repeat split. Qed.

Definition quiet_world : world := World (λ _, 0) (λ _, "") 0 0.

Lemma two_users_loaded units message : readable units → loaded (two_users units message).
Proof.
  intros Hu. unfold loaded, two_users. rewrite <- canonical_obj.
  split; [|exact (canonical_idemp (JObj (two_users_members units message)))].
  apply canonical_readable. unfold two_users_members, shared_record, job_in_progress. readable_tac. exact Hu.
Qed.

Definition honest_mutator : mutator json :=
  match _commit_own_job_patch (canonical_members honest_patch) ada_peer with
  | Ok mutate => mutate
  | Raise e => λ _, raise e
  end.

Definition honest_answer : json := JObj [("committed", JBool true)].

Lemma honest_run :
  honest_mutator (two_users (JInt 1) "") quiet_world =
  (Ok (two_users (JInt 1) "step 1", honest_answer, [], true), quiet_world).
Proof. vm_compute. reflexivity. Qed.

Lemma honest_decoded : _commit_own_job_patch (canonical_members honest_patch) ada_peer = Ok honest_mutator.
Proof.
  pose proof honest_run as H. revert H. unfold honest_mutator.
  destruct (_commit_own_job_patch (canonical_members honest_patch) ada_peer) as [mutate|e]; [done|]. by intros [=].
Qed.

Lemma honest_reads : ∃ l l', read_ledger (JObj (two_users (JInt 1) "")) = Some l ∧
  read_ledger (JObj (two_users (JInt 1) "step 1")) = Some l' ∧ length (l_reservations l) = 2%nat.
Proof. vm_compute. by do 2 eexists. Qed.

Lemma commit_own_job_safe_witness : ∃ l l',
  read_ledger (JObj (two_users (JInt 1) "")) = Some l ∧ read_ledger (JObj (two_users (JInt 1) "step 1")) = Some l' ∧
  length (l_reservations l) = 2%nat ∧ Forall2 (own_job_only ada_peer 0) (l_reservations l) (l_reservations l').
Proof.
  destruct honest_reads as (l & l' & Hl & Hl' & Hlen). exists l, l'. split_and!; try assumption.
  refine (proj1 (commit_own_job_safe (canonical_members honest_patch) ada_peer honest_mutator
    (two_users (JInt 1) "") quiet_world (two_users (JInt 1) "step 1") honest_answer [] true quiet_world l l' 0
    (or_intror honest_decoded) honest_run eq_refl _ _ Hl Hl' _)).
  - apply (two_users_loaded (JInt 1) ""). done.
  - apply (two_users_loaded (JInt 1) "step 1"). done.
  - intros i Hi. cbn in Hi. lia.
Defined.

(** A worker that notes a step in its job. *)
Definition note_step : mutator string := λ current,
  mret (two_users (JInt 1) "step 1", "noted", [], true).

Lemma note_step_commits :
  _patch_transaction note_step (λ _, Ok (two_users (JInt 1) ""))
    (λ _, broker_answer ada_peer (two_users (JInt 1) "") quiet_world) quiet_world = (Ok "noted", quiet_world).
Proof. vm_compute. reflexivity. Qed.

Lemma note_step_writes i w new x logs ch w' :
  note_step i w = (Ok (new, x, logs, ch), w') → new = two_users (JInt 1) "step 1".
Proof. unfold note_step. generalize (two_users (JInt 1) "step 1"). intros doc H. apply M_ret_Ok in H as [H _]. congruence. Qed.

Lemma patch_transaction_atomic_witness :
  ∃ k, (k < BROKER_TRANSACTION_RETRIES)%nat ∧
    takes_effect note_step ada_peer (λ _, two_users (JInt 1) "") (λ _, two_users (JInt 1) "") (λ _, quiet_world) k "noted".
Proof.
  destruct (patch_transaction_atomic note_step ada_peer (λ _, two_users (JInt 1) "") (λ _, two_users (JInt 1) "")
    (λ _, quiet_world) "noted" quiet_world quiet_world) as (k & Hk & Heff & _).
  - intros i. apply (two_users_loaded (JInt 1) ""). done.
  - intros i. apply (two_users_loaded (JInt 1) ""). done.
  - intros i w new x logs ch w' H. rewrite (note_step_writes _ _ _ _ _ _ _ H). apply (two_users_loaded (JInt 1) "step 1"). done.
  - exact note_step_commits.
  - by exists k.
Defined.
